(* ===== verification/_CoqProject ===== *)
-Q . S2P
Prelude.v
GoStrings.v
GoBytes.v
GoTime.v
SQL.v
Base64.v
Network.v
Invitation.v
Signing.v
Pairing.v
EnrollmentStore.v
Enrollment.v
EnrollmentSpec.v
Authentication.v
NDF1.v
Transfer.v
TransferControl.v
Execution.v
ExecClient.v
RelayCodec.v
RelayRegistry.v
RelayUDP.v
RelayControl.v
RelayClient.v
Body.v
BodyRemote.v
Resolver.v
ActionPolicy.v
Permission.v
Recovery.v
Peer.v
ExternalIdentity.v
Session.v
SessionEvent.v
Interaction.v
KeyedLocks.v
Communication.v
ContextBuilder.v
Inference.v
CognitiveExecution.v
ToolExecution.v
Pulse.v
TimeText.v
DollState.v
Mind.v
InteractionService.v
Continuity.v
Skill.v
Memory.v
DollCard.v
Probe.v
Supervision.v
WebSocket.v
