(* ===== verification/Prelude.v ===== *)
(** * NeonDoll: a verified model of its Core, its relay and the Body's side of
      the Doll Link

    NeonDoll is a Go program.  A Core hosts Dolls; Bodies (devices) are admitted
    to its Doll Network by pairing or enrollment, connect to it over the Doll
    Link, either directly or through a relay, and offer capabilities that the
    Core executes on behalf of a Doll, subject to the Owner's policy and
    permission.  A Doll has a mind: it converses in sessions, asks a model, calls
    tools, remembers, wakes itself, and travels between Cores as a card.  This
    library models the parts of that system that decide whether bytes arrive
    intact, who is admitted, whose request is executed, what a Doll does and
    keeps, and what survives a failure; and it proves what makes each correct.

    ** The program and the files that model it

    Common ground:
    - [Prelude] (this file): results of fallible calls, the [try] and [refuse]
      notations for early returns, fixed-width integers, the [strings] functions
      in use, preserved predicates of transition systems, automation and list
      lemmas.
    - [GoStrings]: facts about trimmed strings, and UTF-8: which strings are valid,
      and what [encoding/json] makes of the others.  [GoBytes]: big-endian integers, [copy], hexadecimal, an executable
      SHA-256, [io.ReadFull].  [GoTime]: instants, the calendar, RFC 3339 texts as
      written and as SQL compares them; [TimeText]: as read.  [Base64]: the two
      alphabets.  [SQL]: ordered selections from a table.

    Admission to the Doll Network:
    - [Network]: Core/Network and Core/Persistence/network_state.go.
    - [Invitation]: Core/Invitation over its store interface, a class with the
      in-memory store and Core/Persistence/invitations.go as instances.
    - [Signing]: DollNetwork/enrollment_signing.go, enrollment.go,
      core_identity.go and DollLink/Authentication, the signed messages.
    - [Pairing]: Core/Pairing and DollNetwork/pairing.go, over [Invitation] and
      [Network].
    - [EnrollmentStore]: Core/Persistence/enrollment.go with its tables.
      [Enrollment]: Core/Enrollment/service.go.  [EnrollmentSpec]: the abstract
      enrollment machine and the proof that the service refines it.
    - [Authentication]: Core/Enrollment/authentication.go over [Enrollment].

    The Doll Link:
    - [NDF1]: DollLink/FileTransfer/ndf1.go and the frame header of types.go.
      [Transfer]: receiver.go, sender.go, resume.go, over a file system in which
      every call may fail.  [TransferControl]: control.go.
    - [Execution]: DollLink/Execution/types.go and dispatcher.go, the Body's side
      of an execution.  [ExecClient]: session.go, the Core's side.
    - [WebSocket]: DollLink/WebSocket/types.go, the Core's endpoint.

    The relay and the paths to it:
    - [RelayCodec]: Core/Relay/codec.go, types.go, control.go, config.go.
      [RelayRegistry]: registry.go.  [RelayUDP]: udp.go, metrics.go and the route
      operations of service.go.  [RelayControl]: control_server.go,
      control_core_ws.go, control_body_ws.go.  [RelayClient]: the control
      connection of the Core and transport.go.
    - [Probe]: Core/Relay/probe.go and Body/path_probe.go.
    - [Recovery]: Body/recovery_epoch.go, path_select.go, recovery.go.
      [Supervision]: Body/loss_observer.go, migrate.go, body_supervisor.go.

    Acting through Bodies:
    - [Body]: Core/Body, the guard, the authority rules, the capability registry
      and the Local Body.  [BodyRemote]: remote.go, remote_registration.go.
    - [Resolver]: Core/BodyResolver.  [ActionPolicy]: Core/ActionPolicy.
    - [Permission]: Core/PermissionRequest and
      Core/Persistence/permission_requests.go.

    Peers and conversations:
    - [Peer]: Core/Peer.  [ExternalIdentity]: Core/ExternalIdentity.
    - [Session]: Core/Session with Core/Persistence/sessions.go and
      session_participants.go.  [SessionEvent]: Core/SessionEvent with
      session_events.go.  [Communication]: Core/Communication.
    - [Interaction]: Core/Interaction/router.go, body_ingress.go,
      gateway_ingress.go.  [KeyedLocks]: locks.go.  [InteractionService]:
      service.go.

    Cognition and the state of a Doll:
    - [ContextBuilder]: Core/ContextBuilder and session_messages.go.
      [Inference]: Core/Inference and Core/Config/models.go.
      [CognitiveExecution]: Core/CognitiveExecution.  [ToolExecution]:
      Core/DollMind/tool_executor.go, over policy, permission, resolver and guard.
    - [Mind]: the rest of Core/DollMind.  [Pulse]: Core/Pulse.  [DollState]:
      DollState and Core/Persistence/store.go.  [Continuity]: how
      cmd/neondolld/main.go joins mind, conversations and store.
    - [Skill]: Core/Skill.  [Memory]: Core/Memory.  [DollCard]: DollCard.

    ** How the code is translated

    A struct is a [Record] with the source's field names (prefixed where two
    structs share one), an enumeration or an error set an [Inductive] type, a Go
    map a [gmap], a [(T, error)] result a value of [res].  A method that changes
    its receiver returns the new receiver, with everything else it changes.
    Integers are [Z]; where the source's width matters the wrap-around is written
    out with [u16], [u32], [u64] and [i64].  Bytes are [Byte.byte].  A [float64] is
    a rational, a NaN or an infinity, rounded by a parameter (class [Rounding]).
    A Go map iterated by the code is visited in an order that is an argument.  A
    lock that is held throughout makes an operation one function; where a lock is
    released, a channel is used or there is no lock, the operation is cut into
    steps and an [Inductive] relation interleaves them.

    A loop that is not structural takes fuel: [send_all] one unit per byte of the
    file plus one ([transfer_delivers] shows that this is enough), [rounds] the
    limit on tool calls plus one ([execute_bounded]), [scanJSONValue] two units
    per token plus two, [parse_lines] one per line, [copy_loop] one per
    byte plus one ([copy_exact]).

    What the sources do not contain is a parameter: the operating system's
    failures ([Faults]), the clock, fresh identifiers, sockets and ports, the
    WireGuard device, X25519, Ed25519 (classes [Ed25519] and [Ed25519Laws]), the
    model service, [encoding/json] where a text matters ([Codec], [LineCodec],
    [EventJSON]; a JSON column is the value encoded into it, decoded by the class
    [Column]), and what surrounds a mind ([Surroundings]).  An interface of the
    source (a Body, an authority evaluator, a permission, an executor, a provider)
    is a dictionary of operations acting on a world of its own, so that "is not
    invoked" is the statement that the world is unchanged.

    ** What is proved

    - Wire formats: NDF1 frames and relay frames decode to what was encoded, and
      only canonical encodings decode; a stream of frames is read back exactly;
      validated frames do not wrap around.
    - File transfer: a completed reception has the announced size and digest
      whatever failed before, and the sender and the receiver together deliver
      the file, from any retained prefix.
    - Execution: the dispatcher fails closed and its replies are always
      acceptable to the Core; a session delivers each reply to its own call, to
      nobody else, without blocking, and loses no waiting caller.
    - WebSocket: handlers run, and anything but a handshake or an error answer is
      sent, only for a connection that was activated for a Body and whose
      acceptance was written.
    - Relay: registrations and routes agree in every reachable registry; expiry
      removes exactly what is stale; every datagram is accounted for and
      delivered in order; endpoints open atomically and sockets do not outlive
      their routes; an operation of the client is answered by its own connection;
      probes are answered exactly within the limit and when they are genuine.
    - Paths: one commit per generation, the first working path wins, an attempt
      leaks no tunnel, and a supervised Body never runs two.
    - Bodies: nothing runs without an explicit allow; remote Bodies are usable
      only through their newest session; exactly the fitting candidates are
      eligible, in an order that does not depend on the input's, and the
      coordinator stops at the first decisive answer.
    - Doll Network: members stay distinct and revocation is permanent; the
      portable form and the stored tables give the network back.
    - Admission: an invitation is used at most once, whichever store keeps it;
      pairing is all or nothing; a signature binds the type and the contents of
      its message; enrollment refines a small abstract machine, so that a Body
      is enrolled once per invitation, key and request, decisions are final and
      redeeming is idempotent.
    - Authentication: a proof is accepted for its own challenge only and once, an
      enrolled Body gets in, and a revoked one is out for good.
    - Permissions: an approved action runs at most once per release, with its
      recorded terms; decisions are final, and only the authenticated owner
      approves, in time, from where the request was presented.
    - Peers: a one-time approval is used once; allegiance does not depend on how
      a history lists its events.
    - Sessions: one active session per conversation, closed sessions stay closed;
      deliveries go to the owner of their session and stay as they were recorded,
      in any interleaving; keyed locks exclude, wake their waiters and leave
      nothing behind.
    - Cognition: an execution ends within its limit; a context keeps to its
      budget and to its source; a model cannot act beyond the policy; a turn is
      recorded in history and memory; a round wakes each due intention once and
      completes it only if its cognition succeeded; spontaneous wakes keep their
      distance and are recorded first.
    - Documents: a Doll that is saved is loaded, a card gives back what it
      carries, and a transfer budget is never exceeded.
    - Where the code falls short of its documentation the exact behaviour is
      proved instead, for instance [uppercase_digest_never_completes],
      [stale_partial_is_promoted], [leftover_promoted],
      [teardown_loses_datagram], [CloseRouteEndpoint_ownership],
      [lease_compared_as_text], [unenforced_orphan], [full_table_locks_out],
      [late_attachment_crosses].

    Theorems about reachable states start from the initial state of the source's
    constructor.  Exceptions are part of the statements: [receive_integrity] says
    what is left of the size when removing an oversized leftover failed;
    [pairing_all_or_nothing] which row stays when a roll-back's deletion fails;
    [sessions_consistent] what needs connections that enforce foreign keys;
    [supervision_one_tunnel] that no one else commits a tunnel to the epoch;
    [saved_doll_loaded] what becomes of texts that are not UTF-8.
    [receive_integrity] and [transfer_delivers] assume sizes below 2^62, far from
    the signed 64-bit limit, and do not cover [WriteFrameFromReader], whose hash
    may run ahead of the file; [one_commit_per_generation] assumes fewer calls
    than the 64-bit generation counter has values.  [relay_isolation] is about
    messages handled one at a time and routes that do not expire.  Theorems on
    [Enrollment] treat each call as one step, since the service holds its lock
    throughout; [Authentication] interleaves the parts of a handshake, which does
    not.  In [InteractionService] the reloading and saving of the Doll at the end
    of a turn is one step, and in [Interaction] authorizing a session is.

    ** What is not modelled

    JSON texts other than those named, logging, human-readable error texts,
    database failures other than those named in the models, and database
    migrations; the HTTP servers, TLS, pings and reconnection timers; WireGuard
    devices and binds; the Body's identity, state files and pairing client; the
    Body's end of the WebSocket; the HTTP client of the model service;
    Core/Dispatch, Core/Extension, Core/API, Core/OwnerControl, Core/Gateway,
    Core/Runtime; flags and wiring of the commands, and the acceptance
    programs. *)
From stdpp Require Export base tactics numbers list strings gmap sets sorting relations.
From stdpp Require Import options.

#[global] Open Scope Z_scope.

(** ** Fallible results

    A Go function returning [(T, error)] becomes a function into [res E T];
    [E] is the component's own enumeration of the errors it can return. *)

Inductive res (E A : Type) : Type :=
| Ok (a : A)
| Err (e : E).
Arguments Ok {E A} a.
Arguments Err {E A} e.

Definition is_ok {E A} (r : res E A) : bool :=
  match r with Ok _ => true | Err _ => false end.

Definition res_bind {E A B} (m : res E A) (k : A -> res E B) : res E B :=
  match m with Ok a => k a | Err e => Err e end.

Declare Scope go_scope.
Delimit Scope go_scope with go.
#[global] Open Scope go_scope.

Notation "'try' x <- m ; k" := (res_bind m (fun x => k))
  (at level 10, x name, m at level 100, k at level 200,
   format "'[v' 'try'  x  <-  m ;  '/' k ']'") : go_scope.

(** [refuse c e; k] is Go's [if c { return e }] followed by [k]. *)
Notation "'refuse' c 'with' e ; k" := (if c then Err e else k)
  (at level 10, c at level 100, e at level 100, k at level 200,
   format "'[v' 'refuse'  c  'with'  e ;  '/' k ']'") : go_scope.

#[global] Instance res_eq_dec {E A} `{EqDecision E, EqDecision A} : EqDecision (res E A).
Proof. solve_decision. Defined.

(** ** Booleans on strings *)

Definition empty_str (s : string) : bool := bool_decide (s = "").
Definition same_str (s t : string) : bool := bool_decide (s = t).

(** Go's [<] on strings: byte by byte, a proper prefix first. *)
Definition str_lt (s t : string) : bool := String.ltb s t.

(** The separator of the composite keys, the character NUL. *)
Definition NUL : string := String Ascii.zero EmptyString.

(** ** Machine integers *)

Definition u16 (z : Z) : Z := z `mod` 2 ^ 16.
Definition u32 (z : Z) : Z := z `mod` 2 ^ 32.
Definition u64 (z : Z) : Z := z `mod` 2 ^ 64.
Definition i64 (z : Z) : Z := (z + 2 ^ 63) `mod` 2 ^ 64 - 2 ^ 63.

Definition len {A} (l : list A) : Z := Z.of_nat (length l).

(** ** [strings.TrimSpace]

    The source trims Unicode white space; every such rune is one, two or three
    UTF-8 bytes, matched here byte for byte from either end. *)

Definition code (c : Ascii.ascii) : Z := Z.of_N (Ascii.N_of_ascii c).

Definition space1 (a : Ascii.ascii) : bool :=
  let x := code a in ((9 <=? x) && (x <=? 13)) || (x =? 32).

Definition space2 (a b : Ascii.ascii) : bool :=
  (code a =? 0xC2) && ((code b =? 0x85) || (code b =? 0xA0)).

Definition space3 (a b c : Ascii.ascii) : bool :=
  let x := code a in let y := code b in let z := code c in
  ((x =? 0xE1) && (y =? 0x9A) && (z =? 0x80)) ||
  ((x =? 0xE2) && (y =? 0x80) &&
     (((0x80 <=? z) && (z <=? 0x8A)) || (z =? 0xA8) || (z =? 0xA9) || (z =? 0xAF))) ||
  ((x =? 0xE2) && (y =? 0x81) && (z =? 0x9F)) ||
  ((x =? 0xE3) && (y =? 0x80) && (z =? 0x80)).

Fixpoint trim_with (f2 : Ascii.ascii -> Ascii.ascii -> bool)
    (f3 : Ascii.ascii -> Ascii.ascii -> Ascii.ascii -> bool) (s : string) : string :=
  match s with
  | String a s1 =>
      if space1 a then trim_with f2 f3 s1
      else match s1 with
           | String b s2 =>
               if f2 a b then trim_with f2 f3 s2
               else match s2 with
                    | String c s3 => if f3 a b c then trim_with f2 f3 s3 else s
                    | EmptyString => s
                    end
           | EmptyString => s
           end
  | EmptyString => EmptyString
  end.

Definition TrimSpace (s : string) : string :=
  String.rev (trim_with (fun b a => space2 a b) (fun c b a => space3 a b c)
    (String.rev (trim_with space2 space3 s))).

Definition blank (s : string) : bool := empty_str (TrimSpace s).

(** ** Time

    A [time.Time] is the number of nanoseconds since Go's zero instant, so
    [IsZero] is equality with 0.  [Sub] saturates at the range of
    [time.Duration], as the library documents. *)

Abbreviation time := Z (only parsing).
Abbreviation duration := Z (only parsing).

Definition IsZero (t : time) : bool := t =? 0.
Definition After (t u : time) : bool := u <? t.
Definition Before (t u : time) : bool := t <? u.
Definition Sub (t u : time) : duration := Z.max (- 2 ^ 63) (Z.min (2 ^ 63 - 1) (t - u)).
Definition second : duration := 1000000000.

(** ** Transition systems

    What a component with interleaved operations promises of them: a predicate
    that each step keeps.  A client obtains it for every reachable state. *)

Class Preserves {St : Type} (step : relation St) (inv : St -> Prop) : Prop :=
  preserves s s' : step s s' -> inv s -> inv s'.

Lemma reachable_keeps {St} {step : relation St} (inv : St -> Prop) `{!Preserves step inv} s s' :
  rtc step s s' -> inv s -> inv s'.
Proof. induction 1; intros Hi; [done|]. apply IHrtc. by eapply preserves. Qed.

(** Promises combine; the second may rely on the first. *)
Lemma preserves_and {St} {step : relation St} (inv inv2 : St -> Prop) `{!Preserves step inv} :
  (forall s s', step s s' -> inv s -> inv2 s -> inv2 s') ->
  Preserves step (fun s => inv s /\ inv2 s).
Proof. intros H s s' Hst [H1 H2]. split; [by eapply preserves|by eapply H]. Qed.

(** ** Automation *)

Create HintDb neon discriminated.
Create Rewrite HintDb neon_len.

(** Split every test of a definition that has been unfolded. *)
Ltac branches := repeat (case_match; simplify_eq/=).

Ltac bool_props :=
  repeat match goal with
  | H : (_ && _)%bool = true |- _ => apply andb_true_iff in H; destruct H
  | H : (_ || _)%bool = false |- _ => apply orb_false_iff in H; destruct H
  | H : negb _ = true |- _ => apply negb_true_iff in H
  | H : negb _ = false |- _ => apply negb_false_iff in H
  | H : bool_decide _ = true |- _ => apply bool_decide_eq_true in H
  | H : bool_decide _ = false |- _ => apply bool_decide_eq_false in H
  | H : (_ =? _) = true |- _ => apply Z.eqb_eq in H
  | H : (_ =? _) = false |- _ => apply Z.eqb_neq in H
  | H : (_ <? _) = true |- _ => apply Z.ltb_lt in H
  | H : (_ <? _) = false |- _ => apply Z.ltb_ge in H
  | H : (_ <=? _) = true |- _ => apply Z.leb_le in H
  | H : (_ <=? _) = false |- _ => apply Z.leb_gt in H
  end.

(** ** Lemmas *)

Lemma Ok_inj {E A} (a b : A) : @Ok E A a = Ok b -> a = b.
Proof. congruence. Qed.

Lemma empty_str_true s : empty_str s = true <-> s = "".
Proof. apply bool_decide_eq_true. Qed.

Lemma empty_str_false s : empty_str s = false <-> s <> "".
Proof. apply bool_decide_eq_false. Qed.

Lemma same_str_true s t : same_str s t = true <-> s = t.
Proof. apply bool_decide_eq_true. Qed.

Lemma same_str_false s t : same_str s t = false <-> s <> t.
Proof. apply bool_decide_eq_false. Qed.

(** *** The order of strings *)

Lemma str_lt_compare s t : str_lt s t = true <-> String.compare s t = Lt.
Proof. unfold str_lt, String.ltb. destruct (String.compare s t); split; done. Qed.

Lemma str_lt_irrefl s : str_lt s s = false.
Proof.
  destruct (str_lt s s) eqn:E; [|done]. apply str_lt_compare in E. exfalso. revert E.
  induction s as [|a s IH]; simpl; [done|]. unfold Ascii.compare. by rewrite N.compare_refl.
Qed.

Lemma str_lt_trans s t u : str_lt s t = true -> str_lt t u = true -> str_lt s u = true.
Proof.
  rewrite !str_lt_compare. revert t u. induction s as [|a s IH]; intros [|b t] [|c u]; simpl; try done.
  unfold Ascii.compare. destruct (N.compare_spec (Ascii.N_of_ascii a) (Ascii.N_of_ascii b)) as [E|E|E];
    destruct (N.compare_spec (Ascii.N_of_ascii b) (Ascii.N_of_ascii c)) as [F|F|F]; try done; intros H1 H2.
  - rewrite E, F, N.compare_refl. by eapply IH.
  - rewrite E. by rewrite (proj2 (N.compare_lt_iff _ _) F).
  - rewrite <- F. by rewrite (proj2 (N.compare_lt_iff _ _) E).
  - by rewrite (proj2 (N.compare_lt_iff _ _) (N.lt_trans _ _ _ E F)).
Qed.

Lemma str_lt_total s t : str_lt s t = true \/ s = t \/ str_lt t s = true.
Proof.
  rewrite !str_lt_compare. rewrite (String.compare_antisym t s).
  destruct (String.compare s t) eqn:E; simpl; auto. right; left. by apply String.compare_eq_iff.
Qed.

(** Go's order on strings as a total order. *)
Definition str_le (s t : string) : Prop := str_lt t s = false.

#[global] Instance str_le_dec : RelDecision str_le.
Proof. intros s t. unfold str_le. apply _. Defined.

#[global] Instance str_le_total : Total str_le.
Proof.
  intros s t. unfold str_le. destruct (str_lt_total s t) as [H|[->|H]]; [|left; apply str_lt_irrefl|].
  - left. destruct (str_lt t s) eqn:E; [|done]. pose proof (str_lt_trans _ _ _ H E) as K. by rewrite str_lt_irrefl in K.
  - right. destruct (str_lt s t) eqn:E; [|done]. pose proof (str_lt_trans _ _ _ H E) as K. by rewrite str_lt_irrefl in K.
Qed.

#[global] Instance str_le_trans : Transitive str_le.
Proof.
  intros s t u H1 H2. unfold str_le in *. destruct (str_lt u s) eqn:E; [|done].
  destruct (str_lt_total s t) as [H|[->|H]]; [|congruence..].
  pose proof (str_lt_trans _ _ _ E H). congruence.
Qed.

#[global] Instance str_le_antisymm : AntiSymm eq str_le.
Proof.
  intros s t H1 H2. unfold str_le in *. destruct (str_lt_total s t) as [H|[H|H]]; congruence.
Qed.

Lemma str_length_app s t : String.length (s +:+ t) = (String.length s + String.length t)%nat.
Proof. induction s as [|c s IH]; simpl; [done|]. unfold String.app in *. by rewrite IH. Qed.

(** A comparison sort does not depend on the arrangement of its input when no two
    different elements compare equal. *)
Lemma merge_sort_order_free {A} (R : relation A) `{!RelDecision R, !Total R, !Transitive R} (l l' : list A) :
  l ≡ₚ l' -> (forall x y, x ∈ l -> y ∈ l -> R x y -> R y x -> x = y) ->
  merge_sort R l = merge_sort R l'.
Proof.
  intros Hp Hanti. apply (StronglySorted_unique_strong R).
  - intros x y Hx Hy H1 H2. rewrite merge_sort_Permutation in Hx, Hy. rewrite <- Hp in Hy. by apply Hanti.
  - apply StronglySorted_merge_sort; apply _.
  - apply StronglySorted_merge_sort; apply _.
  - by rewrite !merge_sort_Permutation.
Qed.

Lemma u64_small z : 0 <= z < 2 ^ 64 -> u64 z = z.
Proof. apply Z.mod_small. Qed.

Lemma u32_small z : 0 <= z < 2 ^ 32 -> u32 z = z.
Proof. apply Z.mod_small. Qed.

Lemma u16_small z : 0 <= z < 2 ^ 16 -> u16 z = z.
Proof. apply Z.mod_small. Qed.

Lemma i64_small z : - 2 ^ 63 <= z < 2 ^ 63 -> i64 z = z.
Proof. intros. unfold i64. rewrite Z.mod_small; lia. Qed.

Lemma len_nonneg {A} (l : list A) : 0 <= len l.
Proof. unfold len. lia. Qed.

Lemma len_app {A} (l k : list A) : len (l ++ k) = len l + len k.
Proof. unfold len. rewrite length_app. lia. Qed.

Lemma len_nil_inv {A} (l : list A) : len l = 0 -> l = [].
Proof. unfold len. destruct l; simpl; [done|lia]. Qed.

#[export] Hint Resolve len_nonneg : neon.
#[export] Hint Rewrite @len_app @length_app @length_take @length_drop @length_replicate : neon_len.
