(* ===== verification/GoStrings.v ===== *)
(** * Trimmed strings

    Facts about [strings.TrimSpace] that the validation code relies on: a text
    that begins with a letter is not blank, and trimming twice is trimming
    once.  UTF-8 as [unicode/utf8] reads it, and what [encoding/json] makes of a
    text that is not UTF-8. *)
From S2P Require Import Prelude.
From stdpp Require Import options.

Lemma trim_keeps_last (f2 : Ascii.ascii -> Ascii.ascii -> bool) f3 (c : Ascii.ascii) (n : nat) : forall s,
  (String.length s <= n)%nat -> space1 c = false -> (forall b, f2 b c = false) -> (forall a b, f3 a b c = false) ->
  trim_with f2 f3 (s +:+ String c "") <> "".
Proof.
  induction n as [|n IH]; intros s Hl H1 H2 H3.
  { destruct s; [|simpl in Hl; lia]. simpl. by rewrite H1. }
  destruct s as [|a s]; simpl; [by rewrite H1|]. destruct (space1 a); [apply IH; simpl in Hl; [lia|done..]|].
  destruct s as [|b s]; simpl; [by rewrite H2|]. destruct (f2 a b); [apply IH; simpl in Hl; [lia|done..]|].
  destruct s as [|d s]; simpl; [by rewrite H3|]. destruct (f3 a b d); [apply IH; simpl in Hl; [lia|done..]|done].
Qed.

Lemma rev_app_app (s t : string) : String.rev_app s t = String.rev s +:+ t.
Proof.
  unfold String.rev. assert (H : forall s t u, String.rev_app s (t +:+ u) = String.rev_app s t +:+ u).
  { induction s0 as [|c s0 IH]; intros t0 u; simpl; [done|]. by rewrite <- IH. }
  by rewrite <- H.
Qed.

Lemma rev_nonempty (s : string) : s <> "" -> String.rev s <> "".
Proof.
  destruct s as [|c s]; [done|]. intros _. unfold String.rev. simpl. rewrite rev_app_app.
  by destruct (String.rev s).
Qed.

(** A text that begins with an ASCII character other than white space. *)
Lemma blank_letter (c : Ascii.ascii) (s : string) : space1 c = false -> code c < 0x80 -> blank (String c s) = false.
Proof.
  intros H1 Hc. assert (H2 : forall b, space2 c b = false).
  { intros b. unfold space2. destruct (code c =? 0xC2) eqn:E; bool_props; [lia|done]. }
  assert (H3 : forall a b, space3 c a b = false).
  { intros a b. unfold space3. destruct (code c =? 0xE1) eqn:E1, (code c =? 0xE2) eqn:E2, (code c =? 0xE3) eqn:E3;
      bool_props; try lia; done. }
  unfold blank, TrimSpace. assert (Ht : trim_with space2 space3 (String c s) = String c s).
  { simpl. rewrite H1. destruct s as [|b s]; [done|]. rewrite H2. destruct s as [|d s]; [done|]. by rewrite H3. }
  rewrite Ht. apply empty_str_false, rev_nonempty. unfold String.rev at 1. simpl. rewrite rev_app_app.
  by eapply trim_keeps_last; [done|..].
Qed.

Lemma rev_app_string (s t : string) : String.rev (s +:+ t) = String.rev t +:+ String.rev s.
Proof.
  unfold String.rev. assert (H : forall s u, String.rev_app (s +:+ t) u = String.rev_app t (String.rev_app s u)).
  { induction s0 as [|c s0 IH]; intros u; simpl; [done|]. apply IH. }
  rewrite H, (rev_app_app t). done.
Qed.

Lemma rev_involutive_string (s : string) : String.rev (String.rev s) = s.
Proof.
  induction s as [|c s IH]; [done|]. change (String c s) with (String c "" +:+ s) at 1.
  rewrite !rev_app_string, IH. done.
Qed.

(** What is left of a text is a suffix of it, and nothing more can be cut. *)
Lemma trim_with_spec f2 f3 (n : nat) : forall s, (String.length s <= n)%nat ->
  (exists u, s = u +:+ trim_with f2 f3 s) /\ trim_with f2 f3 (trim_with f2 f3 s) = trim_with f2 f3 s.
Proof.
  induction n as [|n IH]; intros s Hl.
  { destruct s; [|simpl in Hl; lia]. split; [by exists ""|done]. }
  assert (Hcut : forall a t, (String.length t <= n)%nat -> String a t = s \/ (exists b, String a (String b t) = s) \/
    (exists b c, String a (String b (String c t)) = s) ->
    (exists u, s = u +:+ trim_with f2 f3 t) /\ trim_with f2 f3 (trim_with f2 f3 t) = trim_with f2 f3 t).
  { intros a t Ht Hs. destruct (IH t Ht) as [(u & Hu) Hfix]. split; [|done].
    destruct Hs as [<-|[(b & <-)|(b & c & <-)]].
    - exists (String a u). exact (f_equal (String a) Hu).
    - exists (String a (String b u)). exact (f_equal (fun x => String a (String b x)) Hu).
    - exists (String a (String b (String c u))). exact (f_equal (fun x => String a (String b (String c x))) Hu). }
  destruct s as [|a s]; [split; [by exists ""|done]|]. simpl in Hl. simpl.
  destruct (space1 a) eqn:E1; [apply (Hcut a); [lia|auto]|].
  destruct s as [|b s]; [split; [by exists ""|by simpl; rewrite E1]|].
  destruct (f2 a b) eqn:E2; [apply (Hcut a); [simpl in Hl; lia|eauto]|].
  destruct s as [|c s]; [split; [by exists ""|by simpl; rewrite E1, E2]|].
  destruct (f3 a b c) eqn:E3; [apply (Hcut a); [simpl in Hl; lia|eauto 6]|].
  split; [by exists ""|]. simpl. by rewrite E1, E2, E3.
Qed.

(** Cutting at the end does not expose white space at the front. *)
Lemma trim_prefix f2 f3 u v : trim_with f2 f3 (u +:+ v) = u +:+ v -> trim_with f2 f3 u = u.
Proof.
  assert (Hshort : forall s t, (String.length s < String.length t)%nat -> s <> t) by (intros s t Hl ->; lia).
  assert (Hlen : forall s, (String.length (trim_with f2 f3 s) <= String.length s)%nat).
  { intros s. destruct (trim_with_spec f2 f3 _ s (le_n _)) as [(w & Hw) _]. apply (f_equal String.length) in Hw.
    rewrite str_length_app in Hw. lia. }
  destruct u as [|a u]; [done|]. simpl.
  destruct (space1 a); [intros H; exfalso; revert H; apply Hshort; specialize (Hlen (u +:+ v)); simpl; lia|].
  destruct u as [|b u]; simpl; [done|].
  destruct (f2 a b); [intros H; exfalso; revert H; apply Hshort; specialize (Hlen (u +:+ v)); simpl; lia|].
  destruct u as [|c u]; simpl; [done|].
  destruct (f3 a b c); [intros H; exfalso; revert H; apply Hshort; specialize (Hlen (u +:+ v)); simpl; lia|done].
Qed.

Lemma TrimSpace_idem s : TrimSpace (TrimSpace s) = TrimSpace s.
Proof.
  unfold TrimSpace. set (g2 := fun b a => space2 a b). set (g3 := fun c b a => space3 a b c).
  set (t := trim_with space2 space3 s).
  destruct (trim_with_spec space2 space3 _ s (le_n _)) as [_ Hfix]. fold t in Hfix.
  destruct (trim_with_spec g2 g3 _ (String.rev t) (le_n _)) as [(u & Hu) Hfix'].
  set (w := trim_with g2 g3 (String.rev t)) in *.
  assert (Ht : t = String.rev w +:+ String.rev u).
  { rewrite <- (rev_involutive_string t), Hu. apply rev_app_string. }
  rewrite Ht in Hfix. apply trim_prefix in Hfix. by rewrite Hfix, rev_involutive_string, Hfix'.
Qed.

Lemma blank_trim s : blank (TrimSpace s) = blank s.
Proof. unfold blank. by rewrite TrimSpace_idem. Qed.

(** ** Splitting and joining at a character

    [strings.Split] and [strings.Join] with a separator of one byte. *)

Fixpoint split_on (sep : Ascii.ascii) (s : string) : list string :=
  match s with
  | EmptyString => [""]
  | String c r =>
      match split_on sep r with
      | l :: ls => if Ascii.eqb c sep then "" :: l :: ls else String c l :: ls
      | [] => []
      end
  end.

Fixpoint join_on (sep : Ascii.ascii) (l : list string) : string :=
  match l with
  | [] => ""
  | [s] => s
  | s :: rest => s +:+ String sep (join_on sep rest)
  end.

(** The character does not occur. *)
Definition without (c : Ascii.ascii) (s : string) : bool :=
  forallb (fun d => negb (Ascii.eqb d c)) (String.list_ascii_of_string s).

Section splitting.
Context (sep : Ascii.ascii).
Implicit Types (s t : string) (ls : list string).

Lemma without_app s t : without sep (s +:+ t) = without sep s && without sep t.
Proof.
  induction s as [|c s IH]; [done|]. unfold without in *.
  change (String c s +:+ t) with (String c (s +:+ t)). cbn [String.list_ascii_of_string forallb]. by rewrite IH, andb_assoc.
Qed.

Lemma split_on_one s : without sep s = true -> split_on sep s = [s].
Proof.
  induction s as [|c s IH]; [done|]. unfold without. simpl. intros H. bool_props. rewrite IH by done. by rewrite H.
Qed.

Lemma split_on_nonempty s : split_on sep s <> [].
Proof. induction s as [|c s IH]; [done|]. simpl. destruct (split_on sep s); [done|]. by case_match. Qed.

Lemma split_on_cons s t : without sep s = true -> split_on sep (s +:+ String sep t) = s :: split_on sep t.
Proof.
  induction s as [|c s IH]; intros H.
  - change (split_on sep (String sep t) = "" :: split_on sep t). simpl. rewrite Ascii.eqb_refl.
    destruct (split_on sep t) eqn:E; [|done]. by destruct (split_on_nonempty t).
  - unfold without in H. simpl in H. bool_props.
    change (split_on sep (String c (s +:+ String sep t)) = String c s :: split_on sep t). simpl.
    rewrite IH by done. by rewrite H.
Qed.

Lemma split_on_join ls : ls <> [] -> forallb (without sep) ls = true -> split_on sep (join_on sep ls) = ls.
Proof.
  induction ls as [|s [|t ls] IH]; intros Hne H; [done|simpl in H; bool_props; by apply split_on_one|].
  simpl in H. bool_props. change (join_on sep (s :: t :: ls)) with (s +:+ String sep (join_on sep (t :: ls))).
  rewrite split_on_cons by done. f_equal. apply IH; [done|]. simpl. by rewrite !andb_true_iff.
Qed.

Lemma join_on_split s : join_on sep (split_on sep s) = s.
Proof.
  induction s as [|c s IH]; [done|]. simpl. destruct (split_on sep s) as [|l ls] eqn:E; [by destruct (split_on_nonempty s)|].
  destruct (Ascii.eqb_spec c sep) as [->|Hc].
  - change (String sep (join_on sep (l :: ls)) = String sep s). by rewrite IH.
  - rewrite <- IH. by destruct ls.
Qed.

Lemma split_on_without s : forallb (without sep) (split_on sep s) = true.
Proof.
  induction s as [|c s IH]; [done|]. simpl. destruct (split_on sep s) as [|l ls]; [done|].
  destruct (Ascii.eqb c sep) eqn:Ec; [exact IH|]. simpl in *. apply andb_true_iff in IH as [Hl Hls].
  unfold without in *. simpl. by rewrite Ec, Hl, Hls.
Qed.

End splitting.

Lemma without_join sep c ls :
  Ascii.eqb sep c = false -> without c (join_on sep ls) = forallb (without c) ls.
Proof.
  intros Hc. induction ls as [|s [|t ls] IH]; [done|simpl; by rewrite andb_true_r|].
  change (join_on sep (s :: t :: ls)) with (s +:+ String sep (join_on sep (t :: ls))).
  rewrite without_app. change (forallb (without c) (s :: t :: ls)) with (without c s && forallb (without c) (t :: ls)).
  rewrite <- IH. unfold without at 2. simpl. by rewrite Hc.
Qed.

Lemma prefix_app p s : String.prefix p s = true <-> exists t, s = p +:+ t.
Proof.
  revert s. induction p as [|c p IH]; intros s; [split; [by exists s|by destruct s]|].
  destruct s as [|d s]; [split; [done|by intros (t & ?)]|]. cbn [String.prefix]. destruct (Ascii.ascii_dec c d) as [->|Hd].
  - rewrite IH. split; intros (t & Ht); exists t; [by subst|]. change (String d s = String d (p +:+ t)) in Ht. by injection Ht.
  - split; [done|]. intros (t & Ht). change (String d s = String c (p +:+ t)) in Ht. by injection Ht as -> _.
Qed.

Lemma string_append_assoc (s t u : string) : (s +:+ t) +:+ u = s +:+ (t +:+ u).
Proof. induction s as [|c s IH]; [done|]. exact (f_equal (String c) IH). Qed.

(** ** UTF-8 *)

Definition cont (c : Ascii.ascii) (lo hi : Z) : bool := (lo <=? code c) && (code c <=? hi).

Definition second_range (lead : Z) : Z * Z :=
  if lead =? 0xE0 then (0xA0, 0xBF) else if lead =? 0xED then (0x80, 0x9F)
  else if lead =? 0xF0 then (0x90, 0xBF) else if lead =? 0xF4 then (0x80, 0x8F) else (0x80, 0xBF).

(** U+FFFD. *)
Definition replacement (rest : string) : string :=
  String (Ascii.ascii_of_N 0xEF) (String (Ascii.ascii_of_N 0xBF) (String (Ascii.ascii_of_N 0xBD) rest)).

(** A text after [json.Marshal] and [json.Unmarshal]: each byte that does not
    belong to a well-formed sequence has become U+FFFD. *)
Fixpoint json_text (s : string) : string :=
  match s with
  | EmptyString => EmptyString
  | String a s1 =>
      let z := code a in
      let bad := replacement (json_text s1) in
      if z <? 0x80 then String a (json_text s1)
      else if (z <? 0xC2) || (0xF4 <? z) then bad
      else
        match s1 with
        | EmptyString => bad
        | String b s2 =>
            if negb (cont b (second_range z).1 (second_range z).2) then bad
            else if z <? 0xE0 then String a (String b (json_text s2))
            else
              match s2 with
              | EmptyString => bad
              | String c s3 =>
                  if negb (cont c 0x80 0xBF) then bad
                  else if z <? 0xF0 then String a (String b (String c (json_text s3)))
                  else
                    match s3 with
                    | EmptyString => bad
                    | String d s4 => if negb (cont d 0x80 0xBF) then bad
                                     else String a (String b (String c (String d (json_text s4))))
                    end
              end
        end
  end.

(** [utf8.ValidString]. *)
Fixpoint ValidString (s : string) : bool :=
  match s with
  | EmptyString => true
  | String a s1 =>
      let z := code a in
      if z <? 0x80 then ValidString s1
      else if (z <? 0xC2) || (0xF4 <? z) then false
      else
        match s1 with
        | EmptyString => false
        | String b s2 =>
            if negb (cont b (second_range z).1 (second_range z).2) then false
            else if z <? 0xE0 then ValidString s2
            else
              match s2 with
              | EmptyString => false
              | String c s3 =>
                  if negb (cont c 0x80 0xBF) then false
                  else if z <? 0xF0 then ValidString s3
                  else
                    match s3 with
                    | EmptyString => false
                    | String d s4 => if negb (cont d 0x80 0xBF) then false else ValidString s4
                    end
              end
        end
  end.

Lemma json_text_spec (n : nat) : forall s, (String.length s <= n)%nat ->
  ValidString (json_text s) = true /\ (ValidString s = true -> json_text s = s).
Proof.
  induction n as [|n IH]; intros [|a s] Hs; simpl in Hs; try done; [lia|].
  destruct (IH s ltac:(lia)) as [V1 E1]. cbn [json_text ValidString].
  destruct (code a <? 0x80) eqn:Ha.
  { cbn [ValidString]. rewrite Ha. split; [done|]. intros Hv. by rewrite E1. }
  assert (Hbad : ValidString (replacement (json_text s)) = true) by exact V1.
  destruct (_ || _) eqn:Hr; [done|]. destruct s as [|b s]; [done|]. simpl in Hs.
  destruct (negb _) eqn:Hb; [done|]. destruct (code a <? 0xE0) eqn:H2.
  { destruct (IH s ltac:(lia)) as [V2 E2]. cbn [ValidString]. rewrite Ha, Hr, Hb, H2. split; [done|]. intros Hv. by rewrite E2. }
  destruct s as [|c s]; [done|]. simpl in Hs. destruct (negb (cont c _ _)) eqn:Hc; [done|].
  destruct (code a <? 0xF0) eqn:H3.
  { destruct (IH s ltac:(lia)) as [V2 E2]. cbn [ValidString]. rewrite Ha, Hr, Hb, H2, Hc, H3. split; [done|]. intros Hv. by rewrite E2. }
  destruct s as [|d s]; [done|]. simpl in Hs. destruct (negb (cont d _ _)) eqn:Hd; [done|].
  destruct (IH s ltac:(lia)) as [V2 E2]. cbn [ValidString]. rewrite Ha, Hr, Hb, H2, Hc, H3, Hd. split; [done|]. intros Hv. by rewrite E2.
Qed.

Lemma json_text_valid s : ValidString (json_text s) = true.
Proof. by apply (json_text_spec (String.length s)). Qed.

Lemma json_text_id s : ValidString s = true -> json_text s = s.
Proof. by apply (json_text_spec (String.length s)). Qed.

Lemma json_text_idem s : json_text (json_text s) = json_text s.
Proof. apply json_text_id, json_text_valid. Qed.

Lemma json_text_empty s : json_text s = "" -> s = "".
Proof. destruct s as [|a s]; [done|]. cbn [json_text]. unfold replacement. repeat case_match; done. Qed.
