(* ===== verification/GoBytes.v ===== *)
(** * Byte slices, encoding/binary, encoding/hex, crypto/sha256 and io

    The pieces of Go's standard library the NeonDoll wire formats rely on:
    bytes as [Byte.byte], big-endian integers, [copy], lowercase hexadecimal,
    SHA-256 (computed, so digests evaluate), and [io.Reader] with
    [io.ReadFull]. *)
From Stdlib Require Export Strings.Byte.
From S2P Require Import Prelude.

(** ** Bytes and integers *)

#[global] Instance byte_eq_dec : EqDecision byte := Byte.byte_eq_dec.
#[global] Instance byte_countable : Countable byte :=
  inj_countable Byte.to_N Byte.of_N Byte.of_to_N.

Definition b2z (b : byte) : Z := Z.of_N (Byte.to_N b).

Definition z2b (z : Z) : byte :=
  match Byte.of_N (Z.to_N (z `mod` 256)) with Some b => b | None => x00 end.

(** [binary.BigEndian.PutUint{16,32,64}] on an [n]-byte field. *)
Fixpoint be_put (n : nat) (z : Z) : list byte :=
  match n with
  | O => []
  | S n' => z2b (z / 256 ^ Z.of_nat n') :: be_put n' z
  end.

(** [binary.BigEndian.Uint{16,32,64}]. *)
Fixpoint be_get (l : list byte) : Z :=
  match l with
  | [] => 0
  | b :: l' => b2z b * 256 ^ Z.of_nat (length l') + be_get l'
  end.

(** [buf[lo:hi]]. *)
Definition slice (lo hi : nat) (l : list byte) : list byte := take (hi - lo) (drop lo l).

(** [copy(buf[off:], src)]: overwrite in place, as far as both slices reach. *)
Definition go_copy (buf : list byte) (off : nat) (src : list byte) : list byte :=
  take off buf ++ take (length buf - off) src ++ drop (off + length src) buf.

Definition bytes_of (s : string) : list byte := String.list_byte_of_string s.

(** ** encoding/hex *)

Definition hex_digit (z : Z) : Ascii.ascii :=
  Ascii.ascii_of_N (Z.to_N (if z <? 10 then 48 + z else 87 + z)).

Fixpoint hex_encode (l : list byte) : string :=
  match l with
  | [] => EmptyString
  | b :: l' => String (hex_digit (b2z b / 16)) (String (hex_digit (b2z b `mod` 16)) (hex_encode l'))
  end.

(** ** crypto/sha256 *)

Module SHA256.

Definition add32 (a b : Z) : Z := (a + b) `mod` 2 ^ 32.
Definition rotr (n x : Z) : Z := Z.lor (Z.shiftr x n) (Z.shiftl x (32 - n) `mod` 2 ^ 32).
Definition ch (x y z : Z) : Z := Z.lxor (Z.land x y) (Z.land (2 ^ 32 - 1 - x) z).
Definition maj (x y z : Z) : Z := Z.lxor (Z.land x y) (Z.lxor (Z.land x z) (Z.land y z)).
Definition big0 (x : Z) : Z := Z.lxor (rotr 2 x) (Z.lxor (rotr 13 x) (rotr 22 x)).
Definition big1 (x : Z) : Z := Z.lxor (rotr 6 x) (Z.lxor (rotr 11 x) (rotr 25 x)).
Definition small0 (x : Z) : Z := Z.lxor (rotr 7 x) (Z.lxor (rotr 18 x) (Z.shiftr x 3)).
Definition small1 (x : Z) : Z := Z.lxor (rotr 17 x) (Z.lxor (rotr 19 x) (Z.shiftr x 10)).

(** The round constants are the first 32 bits of the fractional parts of the
    cube roots of the first 64 primes, and the initial state those of the square
    roots of the first 8; both are computed from that description. *)
Definition is_prime (n : Z) : bool :=
  forallb (fun d => negb (n `mod` d =? 0)) (seqZ 2 (n - 2)).

Definition primes : list Z := Eval vm_compute in List.filter is_prime (seqZ 2 310).

(** Adds to [lo], bit by bit from bit [n - 1] down, whatever keeps the cube at
    most [x]. *)
Fixpoint cube_root (n : nat) (lo x : Z) : Z :=
  match n with
  | O => lo
  | S n' =>
      let r := lo + 2 ^ Z.of_nat n' in
      cube_root n' (if r * (r * r) <=? x then r else lo) x
  end.

Definition K : list Z := Eval vm_compute in
  map (fun p => cube_root 40 0 (p * 2 ^ 96) `mod` 2 ^ 32) primes.

Definition H0 : list Z := Eval vm_compute in
  map (fun p => Z.sqrt (p * 2 ^ 64) `mod` 2 ^ 32) (take 8 primes).

(** The message schedule is kept newest word first. *)
Fixpoint extend (n : nat) (w : list Z) : list Z :=
  match n with
  | O => w
  | S n' =>
      let x := add32 (add32 (small1 (nth 1 w 0)) (nth 6 w 0))
                     (add32 (small0 (nth 14 w 0)) (nth 15 w 0)) in
      extend n' (x :: w)
  end.

Definition round (s : list Z) (kw : Z * Z) : list Z :=
  match s with
  | [a; b; c; d; e; f; g; h] =>
      let t1 := add32 (add32 h (big1 e)) (add32 (ch e f g) (add32 (fst kw) (snd kw))) in
      let t2 := add32 (big0 a) (maj a b c) in
      [add32 t1 t2; a; b; c; add32 d t1; e; f; g]
  | _ => s
  end.

Fixpoint words (n : nat) (l : list byte) : list Z :=
  match n with
  | O => []
  | S n' => be_get (take 4 l) :: words n' (drop 4 l)
  end.

Definition compress (h : list Z) (block : list byte) : list Z :=
  let w := rev (extend 48 (rev (words 16 block))) in
  zip_with add32 h (fold_left round (combine K w) h).

Fixpoint blocks (n : nat) (h : list Z) (l : list byte) : list Z :=
  match n with
  | O => h
  | S n' => blocks n' (compress h (take 64 l)) (drop 64 l)
  end.

Definition pad (l : list byte) : list byte :=
  let z := (119 - Z.of_nat (length l) `mod` 64) `mod` 64 in
  l ++ [x80] ++ replicate (Z.to_nat z) x00 ++ be_put 8 (8 * Z.of_nat (length l)).

Definition sum (l : list byte) : list byte :=
  let p := pad l in
  mjoin (map (be_put 4) (blocks (Nat.div (length p) 64) H0 p)).

End SHA256.

Definition sha256 (l : list byte) : list byte := SHA256.sum l.

(** ** io.Reader

    A reader is the bytes it will still deliver and the error it reports when
    they run out. *)

Inductive io_error := EOF | ErrUnexpectedEOF | OtherIO.

Record Reader := { rd_data : list byte; rd_end : io_error }.

(** [io.ReadFull]: the exact number of bytes, or the reader's own error when
    nothing was read, or [ErrUnexpectedEOF] after a short [EOF] read. *)
Definition ReadFull (r : Reader) (n : nat) : res io_error (list byte * Reader) :=
  if Nat.leb n (length (rd_data r)) then
    Ok (take n (rd_data r), {| rd_data := drop n (rd_data r); rd_end := rd_end r |})
  else
    Err match rd_end r, rd_data r with
        | EOF, [] => EOF
        | EOF, _ => ErrUnexpectedEOF
        | e, _ => e
        end.

(** ** Lemmas *)

Lemma b2z_range b : 0 <= b2z b < 256.
Proof. unfold b2z. pose proof (Byte.to_N_bounded b). lia. Qed.

Lemma b2z_inj a b : b2z a = b2z b -> a = b.
Proof.
  unfold b2z. intros H%N2Z.inj.
  pose proof (Byte.of_to_N a) as Ha. pose proof (Byte.of_to_N b) as Hb.
  rewrite H in Ha. congruence.
Qed.

Lemma b2z_z2b z : b2z (z2b z) = z `mod` 256.
Proof.
  unfold b2z, z2b. pose proof (Z.mod_pos_bound z 256 ltac:(lia)) as Hr.
  destruct (Byte.of_N (Z.to_N (z `mod` 256))) as [b|] eqn:E.
  - apply Byte.to_of_N in E. lia.
  - apply Byte.of_N_None_iff in E. lia.
Qed.

Lemma z2b_b2z b : z2b (b2z b) = b.
Proof.
  apply b2z_inj. rewrite b2z_z2b. apply Z.mod_small, b2z_range.
Qed.

Lemma length_be_put n z : length (be_put n z) = n.
Proof. induction n; simpl; congruence. Qed.

Lemma pow256_pos n : 0 < 256 ^ Z.of_nat n.
Proof. apply Z.pow_pos_nonneg; lia. Qed.

Lemma be_get_range l : 0 <= be_get l < 256 ^ len l.
Proof.
  unfold len. induction l as [|b l IH]; simpl be_get; [done|].
  pose proof (b2z_range b). rewrite length_cons, Nat2Z.inj_succ, Z.pow_succ_r by lia.
  pose proof (pow256_pos (length l)). nia.
Qed.

Lemma be_get_put n z : be_get (be_put n z) = z `mod` 256 ^ Z.of_nat n.
Proof.
  induction n as [|n IH]; cbn [be_put be_get]; [by rewrite Z.mod_1_r|].
  rewrite IH, b2z_z2b, length_be_put, Nat2Z.inj_succ, Z.pow_succ_r by lia.
  pose proof (pow256_pos n) as Hp.
  rewrite (Z.mul_comm 256), Z.rem_mul_r by lia. lia.
Qed.

Lemma be_get_inj l k : length l = length k -> be_get l = be_get k -> l = k.
Proof.
  revert k. induction l as [|a l IH]; intros [|b k]; simpl; try done.
  intros [= Hl] He. rewrite Hl in He.
  pose proof (be_get_range l) as Hl1. pose proof (be_get_range k) as Hk1.
  unfold len in *. rewrite Hl in Hl1. pose proof (pow256_pos (length k)).
  assert (b2z a = b2z b) as Hab by nia.
  f_equal; [by apply b2z_inj|]. apply IH; [done|]. rewrite Hab in He. lia.
Qed.

Lemma be_put_get l : be_put (length l) (be_get l) = l.
Proof.
  apply be_get_inj; [apply length_be_put|].
  rewrite be_get_put. apply Z.mod_small, be_get_range.
Qed.

Lemma be_put_get_n n l : length l = n -> be_put n (be_get l) = l.
Proof. intros <-. apply be_put_get. Qed.

Lemma slice_app_mid lo hi (a b c : list byte) :
  length a = lo -> (length a + length b)%nat = hi -> slice lo hi (a ++ b ++ c) = b.
Proof.
  intros <- <-. unfold slice.
  rewrite drop_app_length, take_app_le by lia. rewrite firstn_all2; [done|lia].
Qed.

Lemma go_copy_at off (a b c src : list byte) :
  length a = off -> length b = length src -> go_copy (a ++ b ++ c) off src = a ++ src ++ c.
Proof.
  intros <- Hb. unfold go_copy.
  rewrite take_app_length, (take_ge src).
  - rewrite <- drop_drop, drop_app_length, <- Hb, drop_app_length. done.
  - rewrite !length_app. lia.
Qed.

Lemma slice_split lo mid hi (l : list byte) :
  (lo <= mid)%nat -> (mid <= hi)%nat -> slice lo hi l = slice lo mid l ++ slice mid hi l.
Proof.
  intros. unfold slice. replace (hi - lo)%nat with ((mid - lo) + (hi - mid))%nat by lia.
  rewrite <- (take_drop (mid - lo) (take (mid - lo + (hi - mid)) (drop lo l))).
  rewrite take_take, Nat.min_l by lia. f_equal.
  rewrite skipn_firstn_comm, drop_drop. f_equal; [lia|]. f_equal. lia.
Qed.

Lemma length_slice lo hi (l : list byte) :
  (lo <= hi)%nat -> (hi <= length l)%nat -> length (slice lo hi l) = (hi - lo)%nat.
Proof. intros. unfold slice. rewrite length_take, length_drop. lia. Qed.

Lemma ReadFull_app n (a b : list byte) e :
  length a = n ->
  ReadFull {| rd_data := a ++ b; rd_end := e |} n = Ok (a, {| rd_data := b; rd_end := e |}).
Proof.
  intros <-. unfold ReadFull; cbn [rd_data rd_end].
  rewrite length_app, (proj2 (Nat.leb_le _ _)) by lia.
  by rewrite take_app_length, drop_app_length.
Qed.

Lemma hex_encode_length l : String.length (hex_encode l) = (2 * length l)%nat.
Proof. induction l; simpl; [done|]. rewrite IHl. lia. Qed.

(** The published test vectors. *)
Example sha256_abc :
  hex_encode (sha256 (bytes_of "abc")) =
  "ba7816bf8f01cfea414140de5dae2223b00361a396177a9cb410ff61f20015ad".
Proof. vm_compute. reflexivity. Qed.

Example sha256_two_blocks :
  hex_encode (sha256 (bytes_of "abcdbcdecdefdefgefghfghighijhijkijkljklmklmnlmnomnopnopq")) =
  "248d6a61d20638b8e5c026930c3e6039a33ce45964ff2167f6ecedd419db06c1".
Proof. vm_compute. reflexivity. Qed.

(** *** The digest has 32 bytes *)

Lemma length_round s kw : length (SHA256.round s kw) = length s.
Proof. unfold SHA256.round. by repeat case_match. Qed.

Lemma length_compress h b : length (SHA256.compress h b) = length h.
Proof.
  unfold SHA256.compress. rewrite length_zip_with.
  assert (forall kws s, length (fold_left SHA256.round kws s) = length s) as ->; [|lia].
  induction kws as [|kw kws IH]; intros s; simpl; [done|]. by rewrite IH, length_round.
Qed.

Lemma length_blocks n h l : length (SHA256.blocks n h l) = length h.
Proof. revert h l. induction n as [|n IH]; intros h l; simpl; [done|]. by rewrite IH, length_compress. Qed.

Lemma length_sha256 l : length (sha256 l) = 32%nat.
Proof.
  unfold sha256, SHA256.sum. pose proof (length_blocks (Nat.div (length (SHA256.pad l)) 64) SHA256.H0
    (SHA256.pad l)) as Hl. revert Hl. generalize (SHA256.blocks (Nat.div (length (SHA256.pad l)) 64) SHA256.H0
    (SHA256.pad l)). change (length SHA256.H0) with 8%nat. intros ws Hl.
  do 9 (destruct ws as [|? ws]; try done).
Qed.
