(* ===== verification/GoTime.v ===== *)
(** * Times as text

    [time.Time.Format] of UTC instants in the two layouts the sources use:
    RFC 3339 to the second ([time.RFC3339], the same layout string as
    [timeFormat] of DollNetwork/enrollment_signing.go), which is what signed
    messages carry, and RFC 3339 with nanoseconds ([formatTime] of
    Core/Persistence/enrollment.go), which is what the database compares.

    Instants are the nanoseconds since 0001-01-01T00:00:00Z; the layouts are
    modelled for years up to 9999, whose year has four digits. *)
From S2P Require Import Prelude.
From stdpp Require Import options.

(** ** The calendar *)

(** Years before [y + 1] in cycles of 400, 100, 4 and 1 years, and the day of
    the year, from the days since 0001-01-01. *)
Definition year_and_day (d : Z) : Z * Z :=
  let n400 := d / 146097 in
  let d1 := d `mod` 146097 in
  let n100 := Z.min 3 (d1 / 36524) in
  let d2 := d1 - 36524 * n100 in
  let n4 := d2 / 1461 in
  let d3 := d2 `mod` 1461 in
  let n1 := Z.min 3 (d3 / 365) in
  (400 * n400 + 100 * n100 + 4 * n4 + n1 + 1, d3 - 365 * n1).

Definition is_leap (y : Z) : bool :=
  (y `mod` 4 =? 0) && (negb (y `mod` 100 =? 0) || (y `mod` 400 =? 0)).

Definition month_lengths (leap : bool) : list Z :=
  [31; if leap then 29 else 28; 31; 30; 31; 30; 31; 31; 30; 31; 30; 31].

(** The month and the day of the month, counting months from [m]. *)
Fixpoint month_and_day (lengths : list Z) (m yday : Z) : Z * Z :=
  match lengths with
  | [] => (m, yday + 1)
  | n :: rest => if yday <? n then (m, yday + 1) else month_and_day rest (m + 1) (yday - n)
  end.

(** Year, month, day, hour, minute and second of an instant. *)
Definition civil (t : time) : list Z :=
  let s := t / second in
  let (y, yday) := year_and_day (s / 86400) in
  let (m, d) := month_and_day (month_lengths (is_leap y)) 1 yday in
  let r := s `mod` 86400 in
  [y; m; d; r / 3600; (r / 60) `mod` 60; r `mod` 60].

(** ** Layouts *)

(** [n] decimal digits of [z], most significant first, as character codes. *)
Fixpoint digits (n : nat) (z : Z) : list Z :=
  match n with
  | O => []
  | S n' => (48 + (z / 10 ^ Z.of_nat n') `mod` 10) :: digits n' z
  end.

Definition text_of (l : list Z) : string :=
  String.string_of_list_ascii ((fun z => Ascii.ascii_of_N (Z.to_N z)) <$> l).

(** Up to the seconds: "2006-01-02T15:04:05". *)
Definition seconds_text (t : time) : list Z :=
  match civil t with
  | [y; mo; d; h; mi; s] =>
      digits 4 y ++ [45] ++ digits 2 mo ++ [45] ++ digits 2 d ++ [84] ++
      digits 2 h ++ [58] ++ digits 2 mi ++ [58] ++ digits 2 s
  | _ => []
  end.

(** [t.UTC().Format(time.RFC3339)]. *)
Definition RFC3339 (t : time) : string := text_of (seconds_text t ++ [90]).

Fixpoint strip_zeros (l : list Z) : list Z :=
  match l with
  | [] => []
  | d :: rest => if d =? 48 then strip_zeros rest else l
  end.

(** What follows the seconds in [time.RFC3339Nano]: an optional fraction without
    trailing zeros, and the letter Z. *)
Definition fraction_text (t : time) : list Z :=
  let ns := t `mod` second in
  (if ns =? 0 then [] else 46 :: rev (strip_zeros (rev (digits 9 ns)))) ++ [90].

(** ** Comparison of texts *)

Fixpoint text_leb (a b : list Z) : bool :=
  match a, b with
  | [], _ => true
  | _, [] => false
  | x :: a', y :: b' => if x =? y then text_leb a' b' else x <? y
  end.

(** [formatTime(a) <= formatTime(b)] as SQLite compares text.  Up to the seconds
    the text has a fixed width and sorts chronologically, so the order is that
    of the seconds and, within a second, that of the remaining characters. *)
Definition text_le (a b : time) : bool :=
  if a / second =? b / second then text_leb (fraction_text a) (fraction_text b)
  else a / second <? b / second.

Definition text_lt (a b : time) : bool := negb (text_le b a).

(** [t.Truncate(time.Second)]. *)
Definition truncate_second (t : time) : time := t - t `mod` second.

(** ** Lemmas *)

Lemma text_leb_total a b : text_leb a b = true \/ text_leb b a = true.
Proof.
  revert b. induction a as [|x a IH]; intros [|y b]; simpl; [auto..|].
  rewrite (Z.eqb_sym y x). destruct (x =? y) eqn:E; [apply IH|]. bool_props. 
  destruct (Z.lt_total x y) as [?|[?|?]]; [left|lia|right]; lia.
Qed.

Lemma text_le_total a b : text_le a b = true \/ text_le b a = true.
Proof.
  unfold text_le. rewrite (Z.eqb_sym (b / second)).
  destruct (a / second =? b / second) eqn:E; [apply text_leb_total|]. bool_props.
  destruct (Z.lt_total (a / second) (b / second)) as [?|[?|?]]; [left|lia|right]; lia.
Qed.

Lemma text_leb_refl l : text_leb l l = true.
Proof. induction l; simpl; [done|]. by rewrite Z.eqb_refl. Qed.

(** Between whole seconds the text order is the chronological order. *)
Lemma text_le_whole a b :
  a `mod` second = 0 -> b `mod` second = 0 -> text_le a b = (a <=? b).
Proof.
  intros Ha Hb. pose proof (Z.div_mod a second ltac:(done)). pose proof (Z.div_mod b second ltac:(done)).
  assert (0 < second) by done. unfold text_le, fraction_text. rewrite Ha, Hb. cbn [Z.eqb].
  destruct (a / second =? b / second) eqn:E; bool_props.
  - rewrite text_leb_refl. symmetry. apply Z.leb_le. nia.
  - destruct (a / second <? b / second) eqn:E2; bool_props; symmetry; [apply Z.leb_le|apply Z.leb_gt]; nia.
Qed.

Lemma truncate_second_whole t : truncate_second t `mod` second = 0.
Proof. unfold truncate_second. rewrite Zminus_mod_idemp_r, Z.sub_diag. done. Qed.

(** *** The text of a second determines it *)

Lemma text_of_inj l k :
  Forall (fun z => 0 <= z < 256) l -> Forall (fun z => 0 <= z < 256) k -> text_of l = text_of k -> l = k.
Proof.
  intros Hl Hk H. apply (f_equal String.list_ascii_of_string) in H.
  unfold text_of in H. rewrite !String.list_ascii_of_string_of_list_ascii in H.
  revert k Hk H. induction Hl as [|x l Hx Hl IH]; intros [|y k] Hk H; [done..|].
  apply Forall_cons in Hk as [Hy Hk]. injection H as H1 H2. f_equal; [|by apply IH].
  apply (f_equal Ascii.N_of_ascii) in H1. rewrite !Ascii.N_ascii_embedding in H1 by lia. lia.
Qed.

Lemma length_digits n z : length (digits n z) = n.
Proof. induction n; simpl; auto. Qed.

Lemma digits_range n z : Forall (fun c => 48 <= c < 58) (digits n z).
Proof.
  induction n; simpl; constructor; [|done].
  pose proof (Z.mod_pos_bound (z / 10 ^ Z.of_nat n) 10). lia.
Qed.

Lemma digits_inj n z z' :
  0 <= z < 10 ^ Z.of_nat n -> 0 <= z' < 10 ^ Z.of_nat n -> digits n z = digits n z' -> z = z'.
Proof.
  assert (Hm : forall n z z', digits n z = digits n z' -> z `mod` 10 ^ Z.of_nat n = z' `mod` 10 ^ Z.of_nat n).
  { clear. induction n as [|n IH]; intros z z' H; [by rewrite !Z.mod_1_r|]. injection H as H1 H2.
    apply IH in H2. rewrite Nat2Z.inj_succ, Z.pow_succ_r, (Z.mul_comm 10), !Z.rem_mul_r by lia. lia. }
  intros Hz Hz' H. apply Hm in H. by rewrite !Z.mod_small in H.
Qed.

(** A field of fixed width followed by a separator. *)
Lemma digits_field_inj n z z' c l l' :
  0 <= z < 10 ^ Z.of_nat n -> 0 <= z' < 10 ^ Z.of_nat n ->
  digits n z ++ [c] ++ l = digits n z' ++ [c] ++ l' -> z = z' /\ l = l'.
Proof.
  intros Hz Hz' H. apply app_inj_1 in H as [H1 H2]; [|by rewrite !length_digits].
  split; [by apply (digits_inj n)|by injection H2].
Qed.

Lemma year_and_day_spec d y yday :
  year_and_day d = (y, yday) ->
  exists n400 n100 n4 n1, 0 <= n100 <= 3 /\ 0 <= n4 <= 24 /\ 0 <= n1 <= 3 /\ 0 <= yday <= 365 /\
    y = 400 * n400 + 100 * n100 + 4 * n4 + n1 + 1 /\
    d = 146097 * n400 + 36524 * n100 + 1461 * n4 + 365 * n1 + yday.
Proof.
  unfold year_and_day. intros [= <- <-].
  set (d1 := d `mod` 146097). set (n100 := Z.min 3 (d1 / 36524)).
  set (d2 := d1 - 36524 * n100). set (n1 := Z.min 3 (d2 `mod` 1461 / 365)).
  pose proof (Z.div_mod d 146097 ltac:(done)). pose proof (Z.mod_pos_bound d 146097 ltac:(done)).
  pose proof (Z.div_mod d1 36524 ltac:(done)). pose proof (Z.mod_pos_bound d1 36524 ltac:(done)).
  pose proof (Z.div_mod d2 1461 ltac:(done)). pose proof (Z.mod_pos_bound d2 1461 ltac:(done)).
  pose proof (Z.div_mod (d2 `mod` 1461) 365 ltac:(done)).
  pose proof (Z.mod_pos_bound (d2 `mod` 1461) 365 ltac:(done)).
  exists (d / 146097), n100, (d2 / 1461), n1. lia.
Qed.

Lemma year_and_day_inj d d' : year_and_day d = year_and_day d' -> d = d'.
Proof.
  destruct (year_and_day d) as [y k] eqn:E, (year_and_day d') as [y' k'] eqn:E'. intros [= <- <-].
  apply year_and_day_spec in E as (?&?&?&?&?), E' as (?&?&?&?&?). lia.
Qed.

Lemma month_and_day_inj lengths m k k' :
  0 <= k -> 0 <= k' -> month_and_day lengths m k = month_and_day lengths m k' -> k = k'.
Proof.
  assert (Hge : forall lengths m k, m <= (month_and_day lengths m k).1).
  { clear. induction lengths as [|n l IH]; intros m k; simpl; [done|].
    destruct (k <? n); [done|]. specialize (IH (m + 1) (k - n)). lia. }
  revert m k k'. induction lengths as [|n l IH]; intros m k k' Hk Hk'; simpl; [intros [= ?]; lia|].
  pose proof (Hge l (m + 1) (k - n)). pose proof (Hge l (m + 1) (k' - n)).
  destruct (k <? n) eqn:E, (k' <? n) eqn:E'; bool_props; intros Heq.
  - injection Heq. lia.
  - rewrite <- Heq in *. simpl in *. lia.
  - rewrite Heq in *. simpl in *. lia.
  - apply IH in Heq; lia.
Qed.

Lemma month_and_day_range leap k m d :
  0 <= k <= 365 -> month_and_day (month_lengths leap) 1 k = (m, d) -> 0 <= m < 100 /\ 0 <= d < 100.
Proof.
  intros Hk. destruct leap; simpl; repeat case_match; bool_props; intros [= <- <-]; lia.
Qed.

(** The instants whose year has four digits. *)
Definition in_calendar (t : time) : Prop := 0 <= t < 3652059 * 86400 * second.

Lemma civil_spec t :
  in_calendar t ->
  exists y yday m d, year_and_day (t / second / 86400) = (y, yday) /\
    month_and_day (month_lengths (is_leap y)) 1 yday = (m, d) /\
    civil t = [y; m; d; ((t / second) `mod` 86400) / 3600; (((t / second) `mod` 86400) / 60) `mod` 60;
               ((t / second) `mod` 86400) `mod` 60] /\
    0 <= yday /\ 0 <= y < 10 ^ 4 /\ 0 <= m < 10 ^ 2 /\ 0 <= d < 10 ^ 2.
Proof.
  intros [Ht0 Ht]. unfold civil. destruct (year_and_day _) as [y yday] eqn:E.
  destruct (month_and_day _ _ _) as [m d] eqn:Em. exists y, yday, m, d.
  pose proof (year_and_day_spec _ _ _ E) as (n400 & n100 & n4 & n1 & ? & ? & ? & ? & -> & Hd).
  pose proof (month_and_day_range _ _ _ _ ltac:(done) Em).
  assert (0 <= t / second / 86400 < 3652059).
  { rewrite Z.div_div by done. split; [apply Z.div_pos; [done|done]|]. apply Z.div_lt_upper_bound; [done|]. lia. }
  split_and!; try done; lia.
Qed.

Lemma seconds_text_inj t u :
  in_calendar t -> in_calendar u -> seconds_text t = seconds_text u -> t / second = u / second.
Proof.
  intros Ht Hu. destruct (civil_spec t Ht) as (y & k & m & d & E & Em & Hc & Hk & Hy & Hm & Hd).
  destruct (civil_spec u Hu) as (y' & k' & m' & d' & E' & Em' & Hc' & Hk' & Hy' & Hm' & Hd').
  unfold seconds_text. rewrite Hc, Hc'. clear Hc Hc'.
  set (r := (t / second) `mod` 86400). set (r' := (u / second) `mod` 86400).
  assert (Hr : 0 <= r < 86400) by (apply Z.mod_pos_bound; done).
  assert (Hr' : 0 <= r' < 86400) by (apply Z.mod_pos_bound; done).
  assert (Hh : forall r, 0 <= r < 86400 -> 0 <= r / 3600 < 10 ^ 2 /\ 0 <= (r / 60) `mod` 60 < 10 ^ 2 /\
    0 <= r `mod` 60 < 10 ^ 2).
  { clear. intros r Hr. pose proof (Z.mod_pos_bound (r / 60) 60). pose proof (Z.mod_pos_bound r 60).
    split_and!; try lia; [apply Z.div_pos; lia|apply Z.div_lt_upper_bound; lia]. }
  destruct (Hh r) as (?&?&?); [done|]. destruct (Hh r') as (?&?&?); [done|].
  intros Heq. do 5 (apply digits_field_inj in Heq as [? Heq]; [|done..]).
  apply digits_inj in Heq; [|done..]. subst y' m' d'.
  rewrite <- Em' in Em. apply month_and_day_inj in Em; [|lia..]. subst k'.
  rewrite <- E' in E. apply year_and_day_inj in E.
  pose proof (Z.div_mod (t / second) 86400 ltac:(done)). pose proof (Z.div_mod (u / second) 86400 ltac:(done)).
  assert (r = r'); [|unfold r, r' in *; lia].
  pose proof (Z.div_mod r 60 ltac:(done)). pose proof (Z.div_mod r' 60 ltac:(done)).
  pose proof (Z.div_mod (r / 60) 60 ltac:(done)). pose proof (Z.div_mod (r' / 60) 60 ltac:(done)).
  change 3600 with (60 * 60) in *. rewrite <- !Z.div_div in * by done. lia.
Qed.

Lemma seconds_text_range t : Forall (fun z => 0 <= z < 256) (seconds_text t).
Proof.
  unfold seconds_text, civil. destruct (year_and_day _), (month_and_day _ _ _).
  rewrite !Forall_app. assert (forall n z, Forall (fun z => 0 <= z < 256) (digits n z)).
  { intros n z'. eapply Forall_impl; [apply digits_range|]. simpl. lia. }
  split_and!; auto; repeat constructor; done.
Qed.

Lemma RFC3339_inj t u :
  in_calendar t -> in_calendar u -> RFC3339 t = RFC3339 u -> t / second = u / second.
Proof.
  intros Ht Hu H. apply text_of_inj in H.
  - apply app_inj_2 in H as [H _]; [|done]. by apply seconds_text_inj.
  - apply Forall_app. split; [apply seconds_text_range|by repeat constructor].
  - apply Forall_app. split; [apply seconds_text_range|by repeat constructor].
Qed.

Lemma length_seconds_text t : length (seconds_text t) = 19%nat.
Proof.
  unfold seconds_text, civil. destruct (year_and_day _), (month_and_day _ _ _).
  by rewrite !length_app, !length_digits.
Qed.

Lemma length_RFC3339 t : String.length (RFC3339 t) = 20%nat.
Proof.
  assert (Hl : forall l, String.length (text_of l) = length l) by (intros l; induction l; simpl; auto).
  unfold RFC3339. by rewrite Hl, length_app, length_seconds_text.
Qed.

(** 2006-01-02T15:04:05Z, the reference instant of the layouts. *)
Example RFC3339_reference : RFC3339 (63271811045 * second) = "2006-01-02T15:04:05Z".
Proof. by vm_compute. Qed.
