(* ===== verification/SQL.v ===== *)
(** * Tables

    The statements of Core/Persistence act on tables with a primary key: finite
    maps from the key to the row.  This file holds what their models share:
    conditions over all rows, a query for one row, and [SELECT ... WHERE ...
    ORDER BY time, id] on times stored as RFC 3339 text. *)
From S2P Require Import Prelude GoTime.
From stdpp Require Import options.

Section rows.
Context {K : Type} `{Countable K} {A : Type}.
Implicit Types (m : gmap K A) (p : A -> bool).

Definition any_row m p : bool := existsb (fun e : K * A => p e.2) (map_to_list m).

(** The first row that qualifies, in whatever order the database visits them. *)
Definition find_row m p : option A := snd <$> List.find (fun e : K * A => p e.2) (map_to_list m).

Definition where_rows m p : list A := filter (fun x => p x = true) (map_to_list m).*2.

Lemma any_row_false m p : any_row m p = false <-> forall k x, m !! k = Some x -> p x = false.
Proof.
  unfold any_row. rewrite <- not_true_iff_false, existsb_exists. split.
  - intros Hn k x Hk. destruct (p x) eqn:E; [|done]. exfalso. apply Hn. exists (k, x).
    rewrite <- list_elem_of_In, elem_of_map_to_list. done.
  - intros Ha ([k x] & Hin & Hp). rewrite <- list_elem_of_In, elem_of_map_to_list in Hin.
    simpl in Hp. rewrite (Ha _ _ Hin) in Hp. done.
Qed.

Lemma any_row_true m p : any_row m p = true <-> exists k x, m !! k = Some x /\ p x = true.
Proof.
  unfold any_row. rewrite existsb_exists. split.
  - intros ([k x] & Hin & Hp). rewrite <- list_elem_of_In, elem_of_map_to_list in Hin. by exists k, x.
  - intros (k & x & Hk & Hp). exists (k, x). by rewrite <- list_elem_of_In, elem_of_map_to_list.
Qed.

Lemma find_row_some m p x : find_row m p = Some x -> exists k, m !! k = Some x /\ p x = true.
Proof.
  unfold find_row. destruct (List.find _ _) as [[k y]|] eqn:E; simpl; [|done]. intros [= ->].
  apply find_some in E as [Hin Hp]. rewrite <- list_elem_of_In, elem_of_map_to_list in Hin. by exists k.
Qed.

Lemma find_row_none m p : find_row m p = None <-> any_row m p = false.
Proof.
  rewrite any_row_false. unfold find_row. destruct (List.find _ _) as [[k y]|] eqn:E; simpl.
  - apply find_some in E as [Hin Hp]. rewrite <- list_elem_of_In, elem_of_map_to_list in Hin.
    split; [done|]. intros Hn. simpl in Hp. rewrite (Hn _ _ Hin) in Hp. done.
  - split; [|done]. intros _ k x Hk. apply (find_none _ _ E (k, x)).
    by rewrite <- list_elem_of_In, elem_of_map_to_list.
Qed.

Lemma elem_of_where m p x : x ∈ where_rows m p <-> exists k, m !! k = Some x /\ p x = true.
Proof.
  unfold where_rows. rewrite list_elem_of_filter, list_elem_of_fmap. split.
  - intros (Hp & [k y] & -> & Hin). apply elem_of_map_to_list in Hin. by exists k.
  - intros (k & Hk & Hp). split; [done|]. exists (k, x). split; [done|]. by apply elem_of_map_to_list.
Qed.

(** A new row. *)
Lemma where_rows_insert m k x p :
  m !! k = None -> where_rows (<[k := x]> m) p ≡ₚ (if p x then [x] else []) ++ where_rows m p.
Proof.
  intros Hk. unfold where_rows. rewrite map_to_list_insert by done. rewrite fmap_cons, filter_cons. simpl.
  destruct (decide (p x = true)) as [->|Hn]; [done|]. by destruct (p x).
Qed.
End rows.

(** [ORDER BY time, id], the time as text. *)
Section order.
Context {A : Type} (key : A -> time) (id : A -> string).

Definition text_row_le (a b : A) : Prop :=
  text_le (key a) (key b) = true /\ (text_le (key b) (key a) = false \/ str_le (id a) (id b)).

#[global] Instance text_row_le_dec : RelDecision text_row_le.
Proof. intros a b. unfold text_row_le. apply _. Defined.

#[global] Instance text_row_le_total : Total text_row_le.
Proof.
  intros a b. unfold text_row_le. destruct (text_le_total (key a) (key b)) as [E|E];
    destruct (text_le (key a) (key b)) eqn:E1, (text_le (key b) (key a)) eqn:E2; try done; auto.
  - destruct (total str_le (id a) (id b)); auto.
  - destruct (total str_le (id a) (id b)); auto.
Qed.
End order.

Definition select_by {K} `{Countable K} {A} (key : A -> time) (id : A -> string) (m : gmap K A) (p : A -> bool)
    : list A := merge_sort (text_row_le key id) (where_rows m p).

Lemma elem_of_select_by {K} `{Countable K} {A} key id (m : gmap K A) p x :
  x ∈ select_by key id m p <-> exists k, m !! k = Some x /\ p x = true.
Proof. unfold select_by. by rewrite merge_sort_Permutation, elem_of_where. Qed.
