(* ===== verification/Base64.v ===== *)
(** * encoding/base64

    The two encodings the sources use: [RawURLEncoding] (URL alphabet, no
    padding) and [StdEncoding] (standard alphabet, padded).  As in Go, decoding
    skips carriage returns and line feeds and ignores the unused low bits of a
    final group. *)
From S2P Require Import Prelude GoBytes.
From stdpp Require Import options.

(** ** Alphabets *)

Definition std_digit (z : Z) : Ascii.ascii :=
  Ascii.ascii_of_N (Z.to_N
    (if z <? 26 then 65 + z else if z <? 52 then 71 + z else if z <? 62 then z - 4
     else if z =? 62 then 43 else 47)).

Definition url_digit (z : Z) : Ascii.ascii :=
  Ascii.ascii_of_N (Z.to_N
    (if z <? 26 then 65 + z else if z <? 52 then 71 + z else if z <? 62 then z - 4
     else if z =? 62 then 45 else 95)).

Definition alnum_value (x : Z) : option Z :=
  if (65 <=? x) && (x <=? 90) then Some (x - 65)
  else if (97 <=? x) && (x <=? 122) then Some (x - 71)
  else if (48 <=? x) && (x <=? 57) then Some (x + 4)
  else None.

Definition std_value (c : Ascii.ascii) : option Z :=
  let x := code c in
  if x =? 43 then Some 62 else if x =? 47 then Some 63 else alnum_value x.

Definition url_value (c : Ascii.ascii) : option Z :=
  let x := code c in
  if x =? 45 then Some 62 else if x =? 95 then Some 63 else alnum_value x.

Definition is_newline (c : Ascii.ascii) : bool := (code c =? 10) || (code c =? 13).
Definition pad_char : Ascii.ascii := Ascii.ascii_of_N 61.

(** ** Encoding and decoding *)

Section codec.
Context (digit : Z -> Ascii.ascii) (value : Ascii.ascii -> option Z) (padded : bool).

Fixpoint encode_chars (l : list byte) : list Ascii.ascii :=
  match l with
  | [] => []
  | [x] =>
      let n := be_get [x] * 16 in
      [digit (n / 64); digit (n `mod` 64)] ++ (if padded then [pad_char; pad_char] else [])
  | [x; y] =>
      let n := be_get [x; y] * 4 in
      [digit (n / 4096); digit ((n / 64) `mod` 64); digit (n `mod` 64)] ++ (if padded then [pad_char] else [])
  | x :: y :: z :: rest =>
      let n := be_get [x; y; z] in
      digit (n / 262144) :: digit ((n / 4096) `mod` 64) :: digit ((n / 64) `mod` 64) :: digit (n `mod` 64)
        :: encode_chars rest
  end.

Definition tail2 (a b : Ascii.ascii) : option (list byte) :=
  match value a, value b with
  | Some x, Some y => Some (be_put 1 ((x * 64 + y) / 16))
  | _, _ => None
  end.

Definition tail3 (a b c : Ascii.ascii) : option (list byte) :=
  match value a, value b, value c with
  | Some x, Some y, Some z => Some (be_put 2 ((x * 4096 + y * 64 + z) / 4))
  | _, _, _ => None
  end.

Definition quantum (a b c d : Ascii.ascii) : option (list byte) :=
  match value a, value b, value c, value d with
  | Some x, Some y, Some z, Some w => Some (be_put 3 (x * 262144 + y * 4096 + z * 64 + w))
  | _, _, _, _ => None
  end.

Fixpoint decode_chars (l : list Ascii.ascii) : option (list byte) :=
  match l with
  | [] => Some []
  | [a; b] => if padded then None else tail2 a b
  | [a; b; c] => if padded then None else tail3 a b c
  | a :: b :: c :: d :: rest =>
      if padded && bool_decide (d = pad_char) then
        match rest with
        | [] => if bool_decide (c = pad_char) then tail2 a b else tail3 a b c
        | _ => None
        end
      else
        match quantum a b c d, decode_chars rest with
        | Some bs, Some bs' => Some (bs ++ bs')
        | _, _ => None
        end
  | [_] => None
  end.

Definition EncodeToString (l : list byte) : string := String.string_of_list_ascii (encode_chars l).
Definition DecodeString (s : string) : option (list byte) :=
  decode_chars (List.filter (fun c => negb (is_newline c)) (String.list_ascii_of_string s)).

(** *** Round trip *)

Context (Hdv : forall z, 0 <= z < 64 -> value (digit z) = Some z /\
                          digit z <> pad_char /\ is_newline (digit z) = false).

Lemma list_ind3 {A} (P : list A -> Prop) :
  P [] -> (forall x, P [x]) -> (forall x y, P [x; y]) ->
  (forall x y z l, P l -> P (x :: y :: z :: l)) -> forall l, P l.
Proof.
  intros H0 H1 H2 H3. fix IH 1. intros [|x [|y [|z l]]]; [apply H0|apply H1|apply H2|].
  apply H3, IH.
Qed.

Lemma be_get_small (l : list byte) n : length l = n -> 0 <= be_get l < 256 ^ Z.of_nat n.
Proof. intros <-. apply be_get_range. Qed.

Lemma tail2_digits x :
  let n := be_get [x] * 16 in tail2 (digit (n / 64)) (digit (n `mod` 64)) = Some [x].
Proof using Hdv.
  intros n. pose proof (be_get_small [x] 1 eq_refl) as Hr. change (256 ^ Z.of_nat 1) with 256 in Hr.
  unfold tail2. rewrite (proj1 (Hdv (n / 64) ltac:(unfold n; split; [apply Z.div_pos; lia|
    apply Z.div_lt_upper_bound; lia]))), (proj1 (Hdv (n `mod` 64) ltac:(apply Z.mod_pos_bound; lia))).
  f_equal. rewrite (Z.mul_comm (n / 64)), <- (Z.div_mod n 64) by lia. unfold n.
  rewrite Z.div_mul by lia. by apply (be_put_get_n 1).
Qed.

Lemma tail3_digits x y :
  let n := be_get [x; y] * 4 in
  tail3 (digit (n / 4096)) (digit ((n / 64) `mod` 64)) (digit (n `mod` 64)) = Some [x; y].
Proof using Hdv.
  intros n. pose proof (be_get_small [x; y] 2 eq_refl) as Hr. change (256 ^ Z.of_nat 2) with 65536 in Hr.
  unfold tail3. rewrite (proj1 (Hdv (n / 4096) ltac:(unfold n; split; [apply Z.div_pos; lia|
    apply Z.div_lt_upper_bound; lia]))), !(proj1 (Hdv (_ `mod` 64) ltac:(apply Z.mod_pos_bound; lia))).
  f_equal. replace (n / 4096 * 4096 + (n / 64) `mod` 64 * 64 + n `mod` 64) with n.
  - clear Hr. subst n. rewrite (Z.div_mul (be_get [x; y]) 4) by lia. by apply (be_put_get_n 2).
  - change 4096 with (64 * 64). rewrite <- Z.div_div by lia.
    pose proof (Z.div_mod n 64). pose proof (Z.div_mod (n / 64) 64). lia.
Qed.

Lemma quantum_digits x y z :
  let n := be_get [x; y; z] in
  quantum (digit (n / 262144)) (digit ((n / 4096) `mod` 64)) (digit ((n / 64) `mod` 64)) (digit (n `mod` 64))
  = Some [x; y; z].
Proof using Hdv.
  intros n. pose proof (be_get_small [x; y; z] 3 eq_refl) as Hr. fold n in Hr.
  change (256 ^ Z.of_nat 3) with 16777216 in Hr.
  unfold quantum. rewrite (proj1 (Hdv (n / 262144) ltac:(split; [apply Z.div_pos; lia|
    apply Z.div_lt_upper_bound; lia]))), !(proj1 (Hdv (_ `mod` 64) ltac:(apply Z.mod_pos_bound; lia))).
  f_equal. replace (n / 262144 * 262144 + (n / 4096) `mod` 64 * 4096 + (n / 64) `mod` 64 * 64 + n `mod` 64) with n.
  - by apply (be_put_get_n 3).
  - change 262144 with (64 * 64 * 64). change 4096 with (64 * 64). rewrite <- !Z.div_div by lia.
    pose proof (Z.div_mod n 64). pose proof (Z.div_mod (n / 64) 64). pose proof (Z.div_mod (n / 64 / 64) 64).
    lia.
Qed.

Lemma digits_free_of_newlines (l : list byte) :
  List.filter (fun c => negb (is_newline c)) (encode_chars l) = encode_chars l.
Proof using Hdv.
  assert (Hd : forall z l', 0 <= z < 64 -> List.filter (fun c => negb (is_newline c)) (digit z :: l') =
    digit z :: List.filter (fun c => negb (is_newline c)) l').
  { intros z l' Hz. simpl. destruct (Hdv z Hz) as (_ & _ & ->). done. }
  induction l as [|x|x y|x y z l IH] using list_ind3; [done|..].
  - pose proof (be_get_small [x] 1 eq_refl) as Hr. change (256 ^ Z.of_nat 1) with 256 in Hr.
    cbn [encode_chars]. rewrite <- !app_comm_cons, app_nil_l, !Hd; [by destruct padded|..].
    + apply Z.mod_pos_bound; lia.
    + split; [apply Z.div_pos; lia|apply Z.div_lt_upper_bound; lia].
  - pose proof (be_get_small [x; y] 2 eq_refl) as Hr. change (256 ^ Z.of_nat 2) with 65536 in Hr.
    cbn [encode_chars]. rewrite <- !app_comm_cons, app_nil_l, !Hd; [by destruct padded|..].
    + apply Z.mod_pos_bound; lia.
    + apply Z.mod_pos_bound; lia.
    + split; [apply Z.div_pos; lia|apply Z.div_lt_upper_bound; lia].
  - pose proof (be_get_small [x; y; z] 3 eq_refl) as Hr. change (256 ^ Z.of_nat 3) with 16777216 in Hr.
    cbn [encode_chars]. rewrite !Hd, IH; [done|apply Z.mod_pos_bound; lia..|].
    split; [apply Z.div_pos; lia|apply Z.div_lt_upper_bound; lia].
Qed.

Lemma decode_encode_chars (l : list byte) : decode_chars (encode_chars l) = Some l.
Proof using Hdv.
  assert (Hp : forall z, bool_decide (digit (z `mod` 64) = pad_char) = false).
  { intros z. apply bool_decide_eq_false. apply Hdv, Z.mod_pos_bound. lia. }
  induction l as [|x|x y|x y z l IH] using list_ind3; [done|..].
  - pose proof (tail2_digits x) as Ht. cbv zeta in Ht. cbn [encode_chars app].
    destruct padded eqn:E; cbn [decode_chars app]; rewrite E; [cbn [andb]|exact Ht].
    rewrite !bool_decide_eq_true_2 by done. exact Ht.
  - pose proof (tail3_digits x y) as Ht. cbv zeta in Ht. cbn [encode_chars app].
    destruct padded eqn:E; cbn [decode_chars app]; rewrite E; [cbn [andb]|exact Ht].
    rewrite bool_decide_eq_true_2, Hp by done. exact Ht.
  - pose proof (quantum_digits x y z) as Hq. cbv zeta in Hq. cbn [encode_chars decode_chars].
    rewrite Hp, andb_false_r, Hq, IH. done.
Qed.

(** Decoding an encoding gives back the bytes. *)
Lemma DecodeString_EncodeToString (l : list byte) : DecodeString (EncodeToString l) = Some l.
Proof using Hdv.
  unfold DecodeString, EncodeToString. rewrite String.list_ascii_of_string_of_list_ascii.
  rewrite digits_free_of_newlines. apply decode_encode_chars.
Qed.

End codec.

(** ** The two encodings *)

Definition RawURLEncode : list byte -> string := EncodeToString url_digit false.
Definition RawURLDecode : string -> option (list byte) := DecodeString url_value false.
Definition StdEncode : list byte -> string := EncodeToString std_digit true.
Definition StdDecode : string -> option (list byte) := DecodeString std_value true.

Lemma sextets_forall (P : Z -> bool) :
  forallb P (Z.of_nat <$> seq 0 64) = true -> forall z, 0 <= z < 64 -> P z = true.
Proof.
  intros H z Hz. rewrite forallb_forall in H. apply H. apply list_elem_of_In, list_elem_of_fmap.
  exists (Z.to_nat z). split; [lia|]. apply elem_of_seq. lia.
Qed.

Definition digit_ok (digit : Z -> Ascii.ascii) (value : Ascii.ascii -> option Z) (z : Z) : bool :=
  bool_decide (value (digit z) = Some z) && negb (bool_decide (digit z = pad_char)) &&
  negb (is_newline (digit z)).

Lemma digit_ok_elim digit value z :
  digit_ok digit value z = true ->
  value (digit z) = Some z /\ digit z <> pad_char /\ is_newline (digit z) = false.
Proof.
  unfold digit_ok. rewrite !andb_true_iff, !negb_true_iff, bool_decide_eq_true, bool_decide_eq_false. tauto.
Qed.

Lemma RawURL_roundtrip (l : list byte) : RawURLDecode (RawURLEncode l) = Some l.
Proof.
  apply DecodeString_EncodeToString. intros z Hz. apply digit_ok_elim. revert z Hz.
  apply sextets_forall. by vm_compute.
Qed.

Lemma Std_roundtrip (l : list byte) : StdDecode (StdEncode l) = Some l.
Proof.
  apply DecodeString_EncodeToString. intros z Hz. apply digit_ok_elim. revert z Hz.
  apply sextets_forall. by vm_compute.
Qed.
