(* ===== verification/Network.v ===== *)
(** * The Doll Network: addresses, memberships, portable and stored forms

    Models [src/Core/Network] (identity.go, types.go, ipv6.go, portable.go) and
    the network rows of [src/Core/Persistence/network_state.go].  Memberships
    are shared pointers in the source, but every one is owned by the network's
    map, so a mutation is an update of the map.  The allocator is a function of
    the network identifier and is recomputed where the source caches it.

    A [netip.Addr] is its bytes: sixteen for IPv6, four for IPv4, none for the
    zero value.  SHA-256 is computed.  Curve25519 is a third-party package: the
    public key of a private key is a parameter.  Fresh identifiers are
    arguments. *)
From S2P Require Import Prelude GoBytes.
From stdpp Require Import options.

Abbreviation Addr := (list byte) (only parsing).

(** ** Data *)

Definition MembershipPending := "pending".
Definition MembershipActive := "active".
Definition MembershipRevoked := "revoked".

Record Membership := {
  m_BodyID : string;
  m_PeerID : string;
  m_WireGuardPublicKey : option (list byte);
  m_OverlayAddress : Addr;
  m_Endpoint : string;
  m_Status : string;
}.

#[global] Instance Membership_eq_dec : EqDecision Membership.
Proof. solve_decision. Defined.

Record Prefix := { p_Addr : Addr; p_Bits : Z }.

#[global] Instance Prefix_eq_dec : EqDecision Prefix.
Proof. solve_decision. Defined.

Record NetworkCore := {
  nc_PeerID : string;
  nc_PrivateKey : list byte;
  nc_PublicKey : list byte;
  nc_OverlayAddress : Addr;
  nc_OverlayPrefix : Prefix;
}.

Record Network := {
  n_NetworkID : string;
  n_Core : NetworkCore;
  n_Memberships : gmap string Membership;
}.

Inductive network_error :=
| EmptyBodyID | ErrMembershipRevoked | ErrMembershipAlreadyExists | EmptyPeerID
| ErrAddressCollision | ErrMembershipNotFound.

#[global] Instance network_error_eq_dec : EqDecision network_error.
Proof. solve_decision. Defined.

(** ** Addresses *)

Definition ulaPrefix : byte := xfd.
Definition ulaSubnetID : Z := 1.
Definition ulaPrefixLength : Z := 64.

Definition NewIPv6Allocator (netID : string) : Prefix :=
  let hash := sha256 (bytes_of netID) in
  let addrBytes := go_copy (replicate 16 x00) 0 [ulaPrefix] in
  let addrBytes := go_copy addrBytes 1 (take 5 hash) in
  let addrBytes := go_copy addrBytes 6 (be_put 2 ulaSubnetID) in
  {| p_Addr := addrBytes; p_Bits := ulaPrefixLength |}.

Definition CoreAddress (a : Prefix) : Addr :=
  go_copy (p_Addr a) 8 (replicate 7 x00 ++ [x01]).

Definition BodyAddress (a : Prefix) (peerID : string) : res network_error Addr :=
  refuse empty_str peerID with EmptyPeerID;
  Ok (go_copy (p_Addr a) 8 (slice 8 16 (sha256 (bytes_of peerID)))).

Definition AllocateBodyAddress (a : Prefix) (peerID : string) (allocated : gset (list byte))
    : res network_error Addr :=
  try addr <- BodyAddress a peerID;
  refuse bool_decide (addr ∈ allocated) with ErrAddressCollision;
  Ok addr.

(** [netip.Prefix.Contains]: same family and the same leading bits. *)
Definition Contains (p : Prefix) (a : Addr) : bool :=
  bool_decide (length a = length (p_Addr p)) &&
  (be_get a / 2 ^ (8 * len a - p_Bits p) =? be_get (p_Addr p) / 2 ^ (8 * len a - p_Bits p)).

Definition IsValid (a : Addr) : bool := negb (bool_decide (a = [])).

(** ** Membership operations *)

Definition put_memberships (n : Network) (ms : gmap string Membership) : Network :=
  {| n_NetworkID := n_NetworkID n; n_Core := n_Core n; n_Memberships := ms |}.

Definition set_status (m : Membership) (st : string) : Membership :=
  {| m_BodyID := m_BodyID m; m_PeerID := m_PeerID m; m_WireGuardPublicKey := m_WireGuardPublicKey m;
     m_OverlayAddress := m_OverlayAddress m; m_Endpoint := m_Endpoint m; m_Status := st |}.

Definition set_key (m : Membership) (pub : list byte) : Membership :=
  {| m_BodyID := m_BodyID m; m_PeerID := m_PeerID m; m_WireGuardPublicKey := Some pub;
     m_OverlayAddress := m_OverlayAddress m; m_Endpoint := m_Endpoint m; m_Status := m_Status m |}.

Definition any_membership (n : Network) (p : Membership -> bool) : bool :=
  existsb (fun e : string * Membership => p e.2) (map_to_list (n_Memberships n)).

(** [peerID] is the generated identifier.  In a network with at most one
    membership per Body the first loop finds at most one, whatever the order of
    the map. *)
Definition NewMembership (n : Network) (bodyID peerID : string)
    : res network_error (Membership * Network) :=
  refuse empty_str bodyID with EmptyBodyID;
  refuse any_membership n (fun m => same_str (m_BodyID m) bodyID && same_str (m_Status m) MembershipRevoked)
    with ErrMembershipRevoked;
  refuse any_membership n (fun m => same_str (m_BodyID m) bodyID) with ErrMembershipAlreadyExists;
  try addr <- BodyAddress (NewIPv6Allocator (n_NetworkID n)) peerID;
  refuse any_membership n (fun m => bool_decide (m_OverlayAddress m = addr)) with ErrAddressCollision;
  let m := {| m_BodyID := bodyID; m_PeerID := peerID; m_WireGuardPublicKey := None;
              m_OverlayAddress := addr; m_Endpoint := ""; m_Status := MembershipPending |} in
  Ok (m, put_memberships n (<[peerID := m]> (n_Memberships n))).

Definition ActivateMembership (n : Network) (peerID : string) : res network_error Network :=
  match n_Memberships n !! peerID with
  | None => Err ErrMembershipNotFound
  | Some m =>
      refuse same_str (m_Status m) MembershipRevoked with ErrMembershipRevoked;
      Ok (put_memberships n (<[peerID := set_status m MembershipActive]> (n_Memberships n)))
  end.

Definition RevokeMembership (n : Network) (peerID : string) : res network_error Network :=
  match n_Memberships n !! peerID with
  | None => Err ErrMembershipNotFound
  | Some m => Ok (put_memberships n (<[peerID := set_status m MembershipRevoked]> (n_Memberships n)))
  end.

Definition SetBodyWireGuardPublicKey (n : Network) (peerID : string) (pub : list byte)
    : res network_error Network :=
  match n_Memberships n !! peerID with
  | None => Err ErrMembershipNotFound
  | Some m =>
      refuse same_str (m_Status m) MembershipRevoked with ErrMembershipRevoked;
      Ok (put_memberships n (<[peerID := set_key m pub]> (n_Memberships n)))
  end.

Definition RemoveMembership (n : Network) (peerID : string) : res network_error Network :=
  match n_Memberships n !! peerID with
  | None => Err ErrMembershipNotFound
  | Some _ => Ok (put_memberships n (delete peerID (n_Memberships n)))
  end.

Definition GetMembership (n : Network) (peerID : string) : option Membership :=
  n_Memberships n !! peerID.

(** [_ = network.RemoveMembership(id)], how callers undo a membership: an error
    leaves the network alone. *)
Definition rollback (n : Network) (peerID : string) : Network :=
  match RemoveMembership n peerID with Ok n' => n' | Err _ => n end.

(** *** Stable listing

    [sortPeerIDs] compares position [i] with every later position and exchanges
    the two unless they are already in order.  [settle x l] is the inner loop:
    [x] stands at position [i], [l] after it. *)

Fixpoint settle (x : string) (l : list string) : string * list string :=
  match l with
  | [] => (x, [])
  | y :: rest =>
      if str_lt x y then let '(z, rest') := settle x rest in (z, y :: rest')
      else let '(z, rest') := settle y rest in (z, x :: rest')
  end.

Fixpoint sort_from (n : nat) (l : list string) : list string :=
  match n, l with
  | S n', x :: rest => let '(z, rest') := settle x rest in z :: sort_from n' rest'
  | _, _ => l
  end.

Definition sortPeerIDs (ids : list string) : list string := sort_from (length ids) ids.

(** [order] is the order in which the runtime yields the keys. *)
Definition ListMemberships (n : Network) (order : list string) : list Membership :=
  omap (fun id => n_Memberships n !! id) (sortPeerIDs order).

(** ** Portable form *)

Definition portableVersion : Z := 1.

Record PortableMembership := {
  pm_BodyID : string;
  pm_PeerID : string;
  pm_WireGuardPublicKey : option (list byte);
  pm_OverlayAddress : Addr;
  pm_Status : string;
}.

Record PortableNetwork := {
  pn_Version : Z;
  pn_NetworkID : string;
  pn_Core : NetworkCore;
  pn_Memberships : list PortableMembership;
}.

Inductive portable_error :=
| UnsupportedVersion | MissingNetworkID | EmptyCorePeerID | CoreAddressMismatch | CorePrefixMismatch
| ZeroPrivateKey | ZeroPublicKey | DeriveFailed | KeyMismatch | MemberEmptyPeerID | MemberEmptyBodyID
| MemberOutsidePrefix | MemberCorePeerID | MemberCoreAddress | DuplicateMember | InvalidStatus.

Definition to_portable (m : Membership) : PortableMembership :=
  {| pm_BodyID := m_BodyID m; pm_PeerID := m_PeerID m;
     pm_WireGuardPublicKey := m_WireGuardPublicKey m; pm_OverlayAddress := m_OverlayAddress m;
     pm_Status := m_Status m |}.

Definition of_portable (pm : PortableMembership) : Membership :=
  {| m_BodyID := pm_BodyID pm; m_PeerID := pm_PeerID pm;
     m_WireGuardPublicKey := pm_WireGuardPublicKey pm; m_OverlayAddress := pm_OverlayAddress pm;
     m_Endpoint := ""; m_Status := pm_Status pm |}.

Definition Portable (n : Network) (order : list string) : PortableNetwork :=
  {| pn_Version := portableVersion; pn_NetworkID := n_NetworkID n; pn_Core := n_Core n;
     pn_Memberships := to_portable <$> omap (fun id => n_Memberships n !! id) order |}.

Definition valid_status (st : string) : bool :=
  same_str st MembershipPending || same_str st MembershipActive || same_str st MembershipRevoked.

(** One round of the restoring loop. *)
Definition check_member (core : NetworkCore) (prefix : Prefix) (ms : gmap string Membership)
    (pm : PortableMembership) : res portable_error unit :=
  refuse empty_str (pm_PeerID pm) with MemberEmptyPeerID;
  refuse empty_str (pm_BodyID pm) with MemberEmptyBodyID;
  refuse negb (IsValid (pm_OverlayAddress pm)) || negb (Contains prefix (pm_OverlayAddress pm))
    with MemberOutsidePrefix;
  refuse same_str (pm_PeerID pm) (nc_PeerID core) with MemberCorePeerID;
  refuse bool_decide (pm_OverlayAddress pm = nc_OverlayAddress core) with MemberCoreAddress;
  refuse bool_decide (is_Some (ms !! pm_PeerID pm)) with DuplicateMember;
  refuse negb (valid_status (pm_Status pm)) with InvalidStatus;
  Ok tt.

Fixpoint restore (core : NetworkCore) (prefix : Prefix) (ms : gmap string Membership)
    (pms : list PortableMembership) : res portable_error (gmap string Membership) :=
  match pms with
  | [] => Ok ms
  | pm :: rest =>
      try u <- check_member core prefix ms pm;
      restore core prefix (<[pm_PeerID pm := of_portable pm]> ms) rest
  end.

Section reconstruct.
(** [curve25519.X25519(priv, Basepoint)]; [None] is its error. *)
Context (public_of : list byte -> option (list byte)).

Definition ReconstructNetwork (p : PortableNetwork) : res portable_error Network :=
  refuse negb (pn_Version p =? portableVersion) with UnsupportedVersion;
  refuse empty_str (pn_NetworkID p) with MissingNetworkID;
  let prefix := NewIPv6Allocator (pn_NetworkID p) in
  let core := pn_Core p in
  refuse empty_str (nc_PeerID core) with EmptyCorePeerID;
  refuse negb (IsValid (nc_OverlayAddress core)) ||
         negb (bool_decide (nc_OverlayAddress core = CoreAddress prefix)) with CoreAddressMismatch;
  refuse negb (bool_decide (nc_OverlayPrefix core = prefix)) with CorePrefixMismatch;
  refuse bool_decide (nc_PrivateKey core = replicate 32 x00) with ZeroPrivateKey;
  refuse bool_decide (nc_PublicKey core = replicate 32 x00) with ZeroPublicKey;
  match public_of (nc_PrivateKey core) with
  | None => Err DeriveFailed
  | Some expectedPub =>
      refuse negb (bool_decide (nc_PublicKey core = expectedPub)) with KeyMismatch;
      try ms <- restore core prefix ∅ (pn_Memberships p);
      Ok {| n_NetworkID := pn_NetworkID p; n_Core := core; n_Memberships := ms |}
  end.
End reconstruct.

(** Creation: [NewCoreIdentity] and [NewNetwork] from fresh key material. *)
Definition NewNetwork (netID peerID : string) (priv pub : list byte) : Network :=
  let alloc := NewIPv6Allocator netID in
  {| n_NetworkID := netID;
     n_Core := {| nc_PeerID := peerID; nc_PrivateKey := priv; nc_PublicKey := pub;
                  nc_OverlayAddress := CoreAddress alloc; nc_OverlayPrefix := alloc |};
     n_Memberships := ∅ |}.

(** ** Stored form

    The table [network_state]: the identity row and one row per membership,
    under the keys [network:identity] and [network:membership:<peer>].  The JSON
    of a row is the row.  Database failures are not modelled. *)

Inductive state_row :=
| IdentityRow (netID peerID : string) (priv pub : list byte) (overlay : Addr)
| MembershipRow (m : Membership).

Definition networkIdentityKey := "network:identity".
Definition membershipPrefix := "network:membership:".
Definition membershipKey (peerID : string) : string := membershipPrefix +:+ peerID.

Abbreviation state_table := (gmap string state_row) (only parsing).

Definition SaveNetwork (t : state_table) (n : Network) : state_table :=
  <[networkIdentityKey := IdentityRow (n_NetworkID n) (nc_PeerID (n_Core n)) (nc_PrivateKey (n_Core n))
      (nc_PublicKey (n_Core n)) (nc_OverlayAddress (n_Core n))]> t.

Definition SaveMembership (t : state_table) (m : Membership) : state_table :=
  <[membershipKey (m_PeerID m) := MembershipRow m]> t.

Definition DeleteMembership (t : state_table) (peerID : string) : state_table :=
  delete (membershipKey peerID) t.

Inductive store_error := BadAddress | BadKeyLength | BadRow.

(** [unmarshalMembership]: an address must parse and a key has 32 bytes or none. *)
Definition unmarshalMembership (row : state_row) : res store_error Membership :=
  match row with
  | MembershipRow m =>
      refuse negb (IsValid (m_OverlayAddress m)) with BadAddress;
      match m_WireGuardPublicKey m with
      | None | Some [] => Ok {| m_BodyID := m_BodyID m; m_PeerID := m_PeerID m;
          m_WireGuardPublicKey := None; m_OverlayAddress := m_OverlayAddress m;
          m_Endpoint := m_Endpoint m; m_Status := m_Status m |}
      | Some k => refuse negb (bool_decide (length k = 32%nat)) with BadKeyLength; Ok m
      end
  | IdentityRow _ _ _ _ _ => Err BadRow
  end.

Definition LoadMembership (t : state_table) (peerID : string) : res store_error (option Membership) :=
  match t !! membershipKey peerID with
  | None => Ok None
  | Some row => try m <- unmarshalMembership row; Ok (Some m)
  end.

(** [SELECT ... WHERE key LIKE 'network:membership:%'], in the order [rows]
    of the database. *)
Fixpoint decode_rows (rows : list (string * state_row)) : res store_error (list Membership) :=
  match rows with
  | [] => Ok []
  | (key, row) :: rest =>
      if String.prefix membershipPrefix key then
        try m <- unmarshalMembership row;
        try ms <- decode_rows rest;
        Ok (m :: ms)
      else decode_rows rest
  end.

Definition LoadNetwork (t : state_table) (rows : list (string * state_row))
    : res store_error (option Network) :=
  match t !! networkIdentityKey with
  | None => Ok None
  | Some (MembershipRow _) => Err BadRow
  | Some (IdentityRow netID peerID priv pub overlay) =>
      refuse negb (IsValid overlay) with BadAddress;
      refuse negb (bool_decide (length (take 32 priv) = 32%nat)) with BadKeyLength;
      refuse negb (bool_decide (length (take 32 pub) = 32%nat)) with BadKeyLength;
      try mems <- decode_rows rows;
      Ok (Some {| n_NetworkID := netID;
                  n_Core := {| nc_PeerID := peerID; nc_PrivateKey := take 32 priv;
                               nc_PublicKey := take 32 pub; nc_OverlayAddress := overlay;
                               nc_OverlayPrefix := NewIPv6Allocator netID |};
                  n_Memberships := fold_left (fun ms m => <[m_PeerID m := m]> ms) mems ∅ |})
  end.

(** ** Histories and well-formedness *)

Inductive net_step : Network -> Network -> Prop :=
| ns_new n bodyID peerID m n' : NewMembership n bodyID peerID = Ok (m, n') -> net_step n n'
| ns_activate n peerID n' : ActivateMembership n peerID = Ok n' -> net_step n n'
| ns_revoke n peerID n' : RevokeMembership n peerID = Ok n' -> net_step n n'
| ns_key n peerID pub n' :
    length pub = 32%nat -> SetBodyWireGuardPublicKey n peerID pub = Ok n' -> net_step n n'
| ns_remove n peerID n' : RemoveMembership n peerID = Ok n' -> net_step n n'.

Record member_ok (netID k : string) (m : Membership) : Prop := {
  mo_peer : m_PeerID m = k;
  mo_key : k <> "";
  mo_body : m_BodyID m <> "";
  mo_addr : BodyAddress (NewIPv6Allocator netID) k = Ok (m_OverlayAddress m);
  mo_status : valid_status (m_Status m) = true;
  mo_wg : forall pub, m_WireGuardPublicKey m = Some pub -> length pub = 32%nat;
}.

Record network_wf (n : Network) : Prop := {
  nw_member : map_Forall (member_ok (n_NetworkID n)) (n_Memberships n);
  nw_unique : forall k k' m m', n_Memberships n !! k = Some m -> n_Memberships n !! k' = Some m' ->
    m_BodyID m = m_BodyID m' \/ m_OverlayAddress m = m_OverlayAddress m' -> k = k';
}.

(** ** Lemmas *)

(** *** Sorting *)

Lemma settle_spec x l z l' :
  settle x l = (z, l') -> z :: l' ≡ₚ x :: l /\ Forall (str_le z) l'.
Proof.
  unfold str_le. revert x z l'. induction l as [|y l IH]; intros x z l'; simpl.
  { intros [= <- <-]. done. }
  destruct (str_lt x y) eqn:E.
  - destruct (settle x l) as [w r] eqn:Es. intros [= <- <-]. destruct (IH _ _ _ Es) as [Hp Hf]. split.
    { rewrite Permutation_swap, Hp. apply Permutation_swap. }
    constructor; [|done]. destruct (str_lt y w) eqn:Ew; [|done].
    assert (x ∈ w :: r) as [->|Hin]%elem_of_cons by (rewrite Hp; set_solver).
    + pose proof (str_lt_trans _ _ _ E Ew). by rewrite str_lt_irrefl in *.
    + rewrite Forall_forall in Hf. specialize (Hf _ Hin). pose proof (str_lt_trans _ _ _ E Ew). congruence.
  - destruct (settle y l) as [w r] eqn:Es. intros [= <- <-]. destruct (IH _ _ _ Es) as [Hp Hf]. split.
    { by rewrite Permutation_swap, Hp. }
    constructor; [|done]. destruct (str_lt x w) eqn:Ew; [|done].
    assert (y ∈ w :: r) as [->|Hin]%elem_of_cons by (rewrite Hp; set_solver); [congruence|].
    rewrite Forall_forall in Hf. specialize (Hf _ Hin).
    destruct (str_lt_total x y) as [H|[->|H]]; [congruence..|].
    pose proof (str_lt_trans _ _ _ H Ew). congruence.
Qed.

Lemma sort_from_spec n l :
  length l = n -> sort_from n l ≡ₚ l /\ StronglySorted str_le (sort_from n l).
Proof.
  revert l. induction n as [|n IH]; intros [|x l] Hl; try done; [split; [done|constructor]|].
  simpl. destruct (settle x l) as [z r] eqn:E. destruct (settle_spec _ _ _ _ E) as [Hp Hf].
  assert (length r = n) as Hr. { apply Permutation_length in Hp. simpl in *. lia. }
  destruct (IH r Hr) as [Hp' Hs]. split; [by rewrite Hp'|]. constructor; [done|]. by rewrite Hp'.
Qed.

Lemma sortPeerIDs_spec l : sortPeerIDs l ≡ₚ l /\ StronglySorted str_le (sortPeerIDs l).
Proof. by apply sort_from_spec. Qed.

(** *** Addresses *)

Lemma be_get_app (l k : list byte) : be_get (l ++ k) = be_get l * 256 ^ len k + be_get k.
Proof.
  induction l as [|b l IH]; [done|]. simpl. rewrite IH, length_app. unfold len.
  rewrite Nat2Z.inj_add, Z.pow_add_r by lia. ring.
Qed.

Lemma length_go_copy (buf src : list byte) off :
  (off <= length buf)%nat -> length (go_copy buf off src) = length buf.
Proof. intros. unfold go_copy. autorewrite with neon_len. lia. Qed.

Lemma NewIPv6Allocator_length netID : length (p_Addr (NewIPv6Allocator netID)) = 16%nat.
Proof.
  unfold NewIPv6Allocator. cbn [p_Addr].
  repeat (rewrite length_go_copy || rewrite length_replicate); lia.
Qed.

(** Overwriting the last eight bytes keeps an address in its prefix. *)
Lemma Contains_go_copy netID src :
  let p := NewIPv6Allocator netID in
  length (go_copy (p_Addr p) 8 src) = 16%nat /\ Contains p (go_copy (p_Addr p) 8 src) = true.
Proof.
  intros p. assert (length (p_Addr p) = 16%nat) as Hl by apply NewIPv6Allocator_length.
  assert (p_Bits p = 64) as Hbits by done. clearbody p.
  assert (length (go_copy (p_Addr p) 8 src) = 16%nat) as Hg by (rewrite length_go_copy; lia).
  split; [done|]. unfold Contains, len. rewrite Hg, Hl, bool_decide_true by done. simpl andb.
  rewrite Hbits. change (2 ^ (8 * Z.of_nat 16 - 64)) with (256 ^ 8).
  assert (forall l : list byte, length l = 16%nat -> be_get l / 256 ^ 8 = be_get (take 8 l)) as Hd.
  { intros l Hl16. rewrite <- (take_drop 8 l) at 1. rewrite be_get_app.
    pose proof (be_get_range (drop 8 l)) as Hr.
    assert (len (drop 8 l) = 8) as Hd8 by (unfold len; rewrite length_drop, Hl16; lia).
    rewrite Hd8 in *. rewrite Z.div_add_l by lia. rewrite (Z.div_small _ _ Hr). by rewrite Z.add_0_r. }
  rewrite !Hd by done. apply Z.eqb_eq. f_equal. unfold go_copy.
  rewrite take_app_le by (rewrite length_take; lia). by rewrite take_take.
Qed.

Lemma BodyAddress_ok netID k a : BodyAddress (NewIPv6Allocator netID) k = Ok a ->
  length a = 16%nat /\ Contains (NewIPv6Allocator netID) a = true.
Proof. unfold BodyAddress. destruct (empty_str k); [done|]. intros [= <-]. apply Contains_go_copy. Qed.

Lemma IsValid_length a : length a = 16%nat -> IsValid a = true.
Proof. by destruct a. Qed.

(** *** Memberships *)

Lemma any_membership_true n p :
  any_membership n p = true <-> exists k m, n_Memberships n !! k = Some m /\ p m = true.
Proof.
  unfold any_membership. rewrite existsb_exists. split.
  - intros ([k m] & Hin & Hp). rewrite <- list_elem_of_In in Hin.
    apply elem_of_map_to_list in Hin. eauto.
  - intros (k & m & Hk & Hp). exists (k, m). split; [|done]. rewrite <- list_elem_of_In.
    by apply elem_of_map_to_list.
Qed.

Lemma any_membership_false n p :
  any_membership n p = false <-> forall k m, n_Memberships n !! k = Some m -> p m = false.
Proof.
  rewrite <- not_true_iff_false, any_membership_true. split.
  - intros H k m Hk. destruct (p m) eqn:E; [|done]. exfalso. eauto.
  - intros H (k & m & Hk & Hp). rewrite (H k m Hk) in Hp. done.
Qed.

Lemma NewMembership_ok n bodyID peerID m n' :
  NewMembership n bodyID peerID = Ok (m, n') ->
  bodyID <> "" /\ peerID <> "" /\ m_BodyID m = bodyID /\ m_PeerID m = peerID /\
  m_WireGuardPublicKey m = None /\ m_Status m = MembershipPending /\
  BodyAddress (NewIPv6Allocator (n_NetworkID n)) peerID = Ok (m_OverlayAddress m) /\
  n' = put_memberships n (<[peerID := m]> (n_Memberships n)) /\
  (forall k m0, n_Memberships n !! k = Some m0 ->
     m_BodyID m0 <> bodyID /\ m_OverlayAddress m0 <> m_OverlayAddress m).
Proof.
  unfold NewMembership. destruct (empty_str bodyID) eqn:E1; [done|].
  destruct (any_membership n _) eqn:E2; [done|]. clear E2.
  destruct (any_membership n _) eqn:E2; [done|].
  destruct (BodyAddress _ peerID) as [addr|] eqn:E3; [simpl|done].
  destruct (any_membership n (fun m => bool_decide (m_OverlayAddress m = addr))) eqn:E4; [done|].
  intros [= <- <-]. simpl. apply empty_str_false in E1. rewrite any_membership_false in E2, E4.
  split_and!; try done.
  - intros ->. by vm_compute in E3.
  - intros k m0 Hk. specialize (E2 _ _ Hk). specialize (E4 _ _ Hk). simpl in E2.
    apply same_str_false in E2. apply bool_decide_eq_false in E4. done.
Qed.

Lemma NewMembership_fresh n bodyID peerID m n' :
  network_wf n -> NewMembership n bodyID peerID = Ok (m, n') -> n_Memberships n !! peerID = None.
Proof.
  intros Hwf (_ & _ & _ & _ & _ & _ & Ha & _ & Hno)%NewMembership_ok.
  destruct (n_Memberships n !! peerID) as [m0|] eqn:E; [|done]. destruct (Hno _ _ E) as [_ Hne].
  pose proof (mo_addr _ _ _ (nw_member _ Hwf _ _ E)) as Ha0. congruence.
Qed.

(** Changing a membership's key or status keeps the network well formed. *)
Lemma update_member_wf n k m m' :
  network_wf n -> n_Memberships n !! k = Some m -> member_ok (n_NetworkID n) k m' ->
  m_BodyID m' = m_BodyID m -> m_OverlayAddress m' = m_OverlayAddress m ->
  network_wf (put_memberships n (<[k := m']> (n_Memberships n))).
Proof.
  intros [Hm Hu] Hk Hok Hb Ha. split; simpl.
  - by apply map_Forall_insert_2.
  - intros k1 k2 m1 m2 H1 H2. destruct (decide (k1 = k)) as [->|], (decide (k2 = k)) as [->|];
      rewrite ?lookup_insert_eq, ?lookup_insert_ne in * by done; simplify_eq; try done.
    + rewrite Hb, Ha. by apply (Hu k k2 m m2).
    + rewrite Hb, Ha. by apply (Hu k1 k m1 m).
    + by apply Hu.
Qed.

Lemma set_status_ok netID k m st :
  member_ok netID k m -> valid_status st = true -> member_ok netID k (set_status m st).
Proof. intros []. by split. Qed.

Lemma set_key_ok netID k m pub :
  member_ok netID k m -> length pub = 32%nat -> member_ok netID k (set_key m pub).
Proof. intros []. split; try done. by intros ? [= <-]. Qed.

Lemma NewMembership_wf n bodyID peerID m n' :
  network_wf n -> NewMembership n bodyID peerID = Ok (m, n') -> network_wf n'.
Proof.
  intros Hwf H. pose proof (NewMembership_fresh _ _ _ _ _ Hwf H) as Hf.
  apply NewMembership_ok in H as (Hb & Hp & Hmb & Hmp & Hk & Hs & Ha & -> & Hno).
  destruct Hwf as [Hm Hu]. split; simpl.
  - apply map_Forall_insert_2; [|done]. split; try done; [congruence|by rewrite Hs|by rewrite Hk].
  - intros k1 k2 m1 m2 H1 H2 He.
    destruct (decide (k1 = peerID)) as [->|], (decide (k2 = peerID)) as [->|];
      rewrite ?lookup_insert_eq, ?lookup_insert_ne in * by done; simplify_eq; try done.
    + destruct (Hno _ _ H2) as [? ?]. exfalso. destruct He as [He|He]; by symmetry in He.
    + destruct (Hno _ _ H1) as [? ?]. exfalso. by destruct He.
    + by eapply Hu.
Qed.

#[export] Instance network_preserves : Preserves net_step network_wf.
Proof.
  intros n n' Hst Hwf. destruct Hst as [n b p m n' H|n p n' H|n p n' H|n p pub n' Hl H|n p n' H].
  - by eapply NewMembership_wf.
  - unfold ActivateMembership in H. destruct (n_Memberships n !! p) as [m|] eqn:Hp; [|done].
    destruct (same_str _ _); [done|]. injection H as <-. eapply update_member_wf; try done.
    apply set_status_ok; [by apply nw_member|done].
  - unfold RevokeMembership in H. destruct (n_Memberships n !! p) as [m|] eqn:Hp; [|done].
    injection H as <-. eapply update_member_wf; try done. apply set_status_ok; [by apply nw_member|done].
  - unfold SetBodyWireGuardPublicKey in H. destruct (n_Memberships n !! p) as [m|] eqn:Hp; [|done].
    destruct (same_str _ _); [done|]. injection H as <-. eapply update_member_wf; try done.
    apply set_key_ok; [by apply nw_member|done].
  - unfold RemoveMembership in H. destruct (n_Memberships n !! p) as [m|] eqn:Hp; [|done].
    injection H as <-. destruct Hwf as [Hm Hu]. split; simpl.
    + by apply map_Forall_delete.
    + intros k k' m1 m2 [_ H1]%lookup_delete_Some [_ H2]%lookup_delete_Some. by apply Hu.
Qed.

(** Giving a new membership its key and activating it cannot fail. *)
Lemma new_member_joins n bodyID peerID m n1 pub :
  NewMembership n bodyID peerID = Ok (m, n1) ->
  exists n2, SetBodyWireGuardPublicKey n1 peerID pub = Ok n2 /\
    ActivateMembership n2 peerID =
      Ok (put_memberships n (<[peerID := set_status (set_key m pub) MembershipActive]> (n_Memberships n))).
Proof.
  intros (_ & _ & _ & _ & _ & Hs & _ & -> & _)%NewMembership_ok.
  eexists. unfold SetBodyWireGuardPublicKey, ActivateMembership. simpl.
  rewrite lookup_insert_eq, Hs. split; [done|]. simpl. rewrite insert_insert_eq, lookup_insert_eq.
  simpl. rewrite Hs. by rewrite insert_insert_eq.
Qed.

(** ... and keeps the network well formed. *)
Lemma new_member_wf n bodyID peerID m n1 pub :
  network_wf n -> NewMembership n bodyID peerID = Ok (m, n1) -> length pub = 32%nat ->
  network_wf (put_memberships n (<[peerID := set_status (set_key m pub) MembershipActive]> (n_Memberships n))).
Proof.
  intros Hwf Hn Hl. destruct (new_member_joins _ _ _ _ _ pub Hn) as (n2 & Hk & Ha).
  apply (preserves (inv := network_wf) n2); [by apply (ns_activate n2 peerID)|].
  apply (preserves (inv := network_wf) n1); [by apply (ns_key n1 peerID pub)|].
  by eapply NewMembership_wf.
Qed.

Lemma rollback_new n k m : n_Memberships n !! k = None ->
  rollback (put_memberships n (<[k := m]> (n_Memberships n))) k = n.
Proof.
  intros Hn. unfold rollback, RemoveMembership. simpl. rewrite lookup_insert_eq.
  unfold put_memberships. simpl. rewrite delete_insert_id by done. by destruct n.
Qed.

Lemma NewNetwork_wf netID peerID priv pub : network_wf (NewNetwork netID peerID priv pub).
Proof. split; simpl; [apply map_Forall_empty|]. intros k k' m m' H. by rewrite lookup_empty in H. Qed.

(** What a step does to a revoked membership. *)
Lemma net_step_revoked n n' k m :
  network_wf n -> net_step n n' -> n_Memberships n !! k = Some m -> m_Status m = MembershipRevoked ->
  n_Memberships n' !! k = None \/
  exists m', n_Memberships n' !! k = Some m' /\ m_Status m' = MembershipRevoked /\
    m_BodyID m' = m_BodyID m /\ m_WireGuardPublicKey m' = m_WireGuardPublicKey m.
Proof.
  intros Hwf Hst Hk Hs. destruct Hst as [n b p m1 n' H|n p n' H|n p n' H|n p pub n' Hl H|n p n' H].
  - pose proof (NewMembership_fresh _ _ _ _ _ Hwf H). apply NewMembership_ok in H as (_&_&_&_&_&_&_& -> &_).
    simpl. right. exists m. rewrite lookup_insert_ne by congruence. done.
  - unfold ActivateMembership in H. destruct (n_Memberships n !! p) as [m1|] eqn:Hp; [|done].
    destruct (same_str (m_Status m1) _) eqn:E; [done|]. injection H as <-. simpl. right. exists m.
    apply same_str_false in E. rewrite lookup_insert_ne by congruence. done.
  - unfold RevokeMembership in H. destruct (n_Memberships n !! p) as [m1|] eqn:Hp; [|done].
    injection H as <-. simpl. right. destruct (decide (k = p)) as [->|].
    + rewrite lookup_insert_eq. eexists. split; [done|]. simplify_eq. done.
    + rewrite lookup_insert_ne by done. eauto.
  - unfold SetBodyWireGuardPublicKey in H. destruct (n_Memberships n !! p) as [m1|] eqn:Hp; [|done].
    destruct (same_str (m_Status m1) _) eqn:E; [done|]. injection H as <-. simpl. right. exists m.
    apply same_str_false in E. rewrite lookup_insert_ne by congruence. done.
  - unfold RemoveMembership in H. destruct (n_Memberships n !! p) as [m1|] eqn:Hp; [|done].
    injection H as <-. simpl. destruct (decide (k = p)) as [->|].
    + left. apply lookup_delete_eq.
    + right. rewrite lookup_delete_ne by done. eauto.
Qed.

(** *** Restoring *)

Definition put_all (l : list Membership) (acc : gmap string Membership) : gmap string Membership :=
  fold_left (fun ms m => <[m_PeerID m := m]> ms) l acc.

Lemma put_all_lookup l acc k m :
  NoDup (m_PeerID <$> l) -> (forall m0, m0 ∈ l -> acc !! m_PeerID m0 = None) ->
  put_all l acc !! k = Some m <-> (m ∈ l /\ m_PeerID m = k) \/ acc !! k = Some m.
Proof.
  unfold put_all. revert acc. induction l as [|m0 l IH]; intros acc Hnd Hf; simpl.
  { set_solver. }
  apply NoDup_cons in Hnd as [Hnin Hnd]. rewrite IH; [|done|].
  - rewrite lookup_insert_Some, elem_of_cons. split; [naive_solver|].
    intros [[[->|Hin] <-]|Ha]; [by right; left|by left|]. right. right. split; [|done].
    intros <-. rewrite Hf in Ha by set_solver. done.
  - intros m1 Hm1. rewrite lookup_insert_ne; [apply Hf; set_solver|].
    intros He. apply Hnin. rewrite He. by apply list_elem_of_fmap_2.
Qed.

(** A membership that the restoring loop accepts, apart from duplicates. *)
Definition member_fits (core : NetworkCore) (prefix : Prefix) (pm : PortableMembership) : Prop :=
  pm_PeerID pm <> "" /\ pm_BodyID pm <> "" /\ IsValid (pm_OverlayAddress pm) = true /\
  Contains prefix (pm_OverlayAddress pm) = true /\ pm_PeerID pm <> nc_PeerID core /\
  pm_OverlayAddress pm <> nc_OverlayAddress core /\ valid_status (pm_Status pm) = true.

Lemma check_member_iff core prefix ms pm :
  check_member core prefix ms pm = Ok tt <->
  member_fits core prefix pm /\ ms !! pm_PeerID pm = None.
Proof.
  unfold check_member, member_fits. split.
  - intros H. branches. bool_props. rewrite empty_str_false in *. rewrite same_str_false in *.
    split_and!; try done. by apply eq_None_not_Some.
  - intros [(H1 & H2 & H3 & H4 & H5 & H6 & H7) H8].
    apply empty_str_false in H1 as ->. apply empty_str_false in H2 as ->.
    apply same_str_false in H5 as ->. rewrite H3, H4, H7, H8. simpl.
    by rewrite !bool_decide_false by (done || by intros [? ?]).
Qed.

Lemma restore_iff core prefix pms ms ms' :
  restore core prefix ms pms = Ok ms' <->
  Forall (member_fits core prefix) pms /\ NoDup (pm_PeerID <$> pms) /\
  (forall pm, pm ∈ pms -> ms !! pm_PeerID pm = None) /\ ms' = put_all (of_portable <$> pms) ms.
Proof.
  revert ms. induction pms as [|pm pms IH]; intros ms.
  { simpl. split; [intros [= ->]|by intros (_ & _ & _ & ->)].
    split_and!; [constructor|constructor|set_solver|done]. }
  cbn [restore]. destruct (check_member core prefix ms pm) as [[]|e] eqn:E.
  - apply check_member_iff in E as [Hfit Hn]. cbn [res_bind]. rewrite IH, Forall_cons, fmap_cons, NoDup_cons.
    split.
    + intros (Hf & Hnd & Hfresh & ->). split_and!; try done.
      * intros (pm' & He & Hin)%list_elem_of_fmap. specialize (Hfresh _ Hin).
        rewrite He, lookup_insert_eq in Hfresh. done.
      * intros pm' [->|Hin]%elem_of_cons; [done|]. specialize (Hfresh _ Hin).
        by apply lookup_insert_None in Hfresh as [? _].
    + intros ([_ Hf] & [Hnin Hnd] & Hfresh & ->). split_and!; try done. intros pm' Hin.
      rewrite lookup_insert_ne; [apply Hfresh; set_solver|]. intros He. apply Hnin. rewrite He.
      by apply list_elem_of_fmap_2.
  - split; [done|]. intros (Hf & _ & Hfresh & _). apply Forall_cons in Hf as [Hfit _].
    assert (check_member core prefix ms pm = Ok tt) as E'; [|congruence].
    apply check_member_iff. split; [done|]. apply Hfresh. set_solver.
Qed.

(** *** Rows *)

Lemma membershipKey_inj k k' : membershipKey k = membershipKey k' -> k = k'.
Proof. apply (inj (String.app membershipPrefix)). Qed.

Lemma membershipKey_prefix k : String.prefix membershipPrefix (membershipKey k) = true.
Proof. apply String.prefix_correct. unfold membershipKey. simpl. by destruct k. Qed.

(** The table holds exactly this network. *)
Record stored (n : Network) (t : state_table) : Prop := {
  st_identity : t !! networkIdentityKey =
    Some (IdentityRow (n_NetworkID n) (nc_PeerID (n_Core n)) (nc_PrivateKey (n_Core n))
            (nc_PublicKey (n_Core n)) (nc_OverlayAddress (n_Core n)));
  st_members : forall k, t !! membershipKey k = MembershipRow <$> n_Memberships n !! k;
  st_only : forall key, is_Some (t !! key) ->
    key = networkIdentityKey \/ exists k, key = membershipKey k;
}.

Lemma unmarshal_member netID k m : member_ok netID k m -> unmarshalMembership (MembershipRow m) = Ok m.
Proof.
  intros []. simpl. apply BodyAddress_ok in mo_addr0 as [Hl _]. rewrite (IsValid_length _ Hl). simpl.
  destruct (m_WireGuardPublicKey m) as [[|b pub]|] eqn:E; [by specialize (mo_wg0 _ eq_refl)| |].
  - rewrite bool_decide_true; [done|]. by apply mo_wg0.
  - destruct m; simpl in *. by rewrite E.
Qed.

Lemma decode_rows_spec netID rows :
  (forall key row, (key, row) ∈ rows -> key = networkIdentityKey \/
     exists m, key = membershipKey (m_PeerID m) /\ row = MembershipRow m /\ member_ok netID (m_PeerID m) m) ->
  exists ms, decode_rows rows = Ok ms /\
    (forall m, m ∈ ms <-> (membershipKey (m_PeerID m), MembershipRow m) ∈ rows) /\
    (NoDup (rows.*1) -> NoDup (m_PeerID <$> ms)).
Proof.
  induction rows as [|[key row] rows IH]; intros Hr.
  { exists []. split_and!; [done|set_solver|constructor]. }
  destruct IH as (ms & Hd & Hin & Hnd); [intros; apply Hr; set_solver|].
  destruct (Hr key row) as [->|(m & -> & -> & Hok)]; [set_solver| |].
  - exists ms. simpl. split_and!; [done| |intros H; apply Hnd; by apply NoDup_cons in H as [_ ?]].
    intros m. rewrite Hin, elem_of_cons. split; [auto|]. intros [[= E _]|?]; done.
  - exists (m :: ms). cbn [decode_rows]. rewrite membershipKey_prefix.
    rewrite (unmarshal_member _ _ _ Hok), Hd. cbn [res_bind]. split_and!; [done| |].
    + intros m'. rewrite !elem_of_cons, Hin. naive_solver.
    + rewrite !fmap_cons, !NoDup_cons. intros [Hnin H]. split; [|by apply Hnd].
      intros (m' & He & Hin')%list_elem_of_fmap. apply Hin in Hin'. apply Hnin.
      simpl. rewrite He. by apply (list_elem_of_fmap_2 fst) in Hin'.
Qed.

(** *** Looking up keys *)

Lemma lookup_all_entries (M : gmap string Membership) (l : list (string * Membership)) :
  (forall k m, (k, m) ∈ l -> M !! k = Some m) -> omap (fun id => M !! id) l.*1 = l.*2.
Proof.
  induction l as [|[k m] l IH]; intros H; [done|]. simpl. rewrite (H k m) by set_solver.
  f_equal. apply IH. set_solver.
Qed.

Lemma lookup_all_keys (M : gmap string Membership) (ids : list string) :
  (forall k, k ∈ ids -> exists m, M !! k = Some m /\ m_PeerID m = k) ->
  m_PeerID <$> omap (fun id => M !! id) ids = ids.
Proof.
  induction ids as [|k ids IH]; intros H; [done|]. simpl.
  destruct (H k) as (m & -> & Hm); [set_solver|]. simpl. rewrite Hm. f_equal. apply IH. set_solver.
Qed.

(** ** Properties *)

(** C21: the network's members stay distinct and revocation is permanent.  In
    every network that its operations can produce, each membership is filed
    under its own peer id, has a nonempty Body, a valid status, a 32-byte key
    if any, and the overlay address derived from its peer id inside the
    network's prefix; no two memberships share a Body or an address; and a
    revoked membership is never active again, nor can its Body join again
    while it is there. *)
Theorem network_members_distinct netID peerID priv pub n :
  rtc net_step (NewNetwork netID peerID priv pub) n ->
  (forall k m, n_Memberships n !! k = Some m ->
     member_ok (n_NetworkID n) k m /\ Contains (NewIPv6Allocator (n_NetworkID n)) (m_OverlayAddress m) = true) /\
  (forall k k' m m', n_Memberships n !! k = Some m -> n_Memberships n !! k' = Some m' -> k <> k' ->
     m_BodyID m <> m_BodyID m' /\ m_OverlayAddress m <> m_OverlayAddress m') /\
  (forall k m, n_Memberships n !! k = Some m -> m_Status m = MembershipRevoked ->
     (forall fresh, NewMembership n (m_BodyID m) fresh = Err ErrMembershipRevoked) /\
     forall n', net_step n n' -> n_Memberships n' !! k = None \/
       exists m', n_Memberships n' !! k = Some m' /\ m_Status m' = MembershipRevoked).
Proof.
  intros Hr. assert (network_wf n) as Hwf
    by exact (reachable_keeps network_wf _ _ Hr (NewNetwork_wf _ _ _ _)).
  split_and!.
  - intros k m Hk. pose proof (nw_member _ Hwf _ _ Hk) as Hok. split; [done|].
    by eapply BodyAddress_ok, mo_addr.
  - intros k k' m m' Hk Hk' Hne. split; intros He; apply Hne; eapply (nw_unique _ Hwf); eauto.
  - intros k m Hk Hs. split.
    + intros fresh. unfold NewMembership.
      rewrite (proj2 (empty_str_false _) (mo_body _ _ _ (nw_member _ Hwf _ _ Hk))).
      assert (any_membership n (fun m0 => same_str (m_BodyID m0) (m_BodyID m) &&
                same_str (m_Status m0) MembershipRevoked) = true) as ->; [|done].
      apply any_membership_true. exists k, m. split; [done|].
      by rewrite (proj2 (same_str_true _ _) eq_refl), (proj2 (same_str_true _ _) Hs).
    + intros n' Hst. destruct (net_step_revoked n n' k m Hwf Hst Hk Hs) as [?|(m' & ? & ? & _)]; eauto.
Qed.

(** The listing is stable: whatever order the runtime yields the keys in,
    [ListMemberships] returns the same list, sorted by peer id, with every
    membership exactly once. *)
Theorem listing_is_stable n order order' :
  order ≡ₚ (map_to_list (n_Memberships n)).*1 -> order' ≡ₚ order ->
  ListMemberships n order' = ListMemberships n order /\
  ListMemberships n order ≡ₚ (map_to_list (n_Memberships n)).*2 /\
  (map_Forall (fun k m => m_PeerID m = k) (n_Memberships n) ->
   StronglySorted str_le (m_PeerID <$> ListMemberships n order)).
Proof.
  intros Ho Ho'. unfold ListMemberships.
  destruct (sortPeerIDs_spec order) as [Hp Hs], (sortPeerIDs_spec order') as [Hp' Hs'].
  split_and!.
  - f_equal. apply (StronglySorted_unique str_le); [done..|]. by rewrite Hp, Hp'.
  - rewrite Hp, Ho. rewrite lookup_all_entries; [done|]. intros k m. apply elem_of_map_to_list.
  - intros Hk. rewrite lookup_all_keys; [done|]. intros k Hin. rewrite Hp, Ho in Hin.
    apply list_elem_of_fmap in Hin as ([k' m] & -> & Hin). apply elem_of_map_to_list in Hin. simpl.
    exists m. split; [done|]. by apply Hk.
Qed.

Definition forget_endpoint (m : Membership) : Membership := of_portable (to_portable m).

(** A Core identity that belongs to its network. *)
Definition core_ok (public_of : list byte -> option (list byte)) (n : Network) : Prop :=
  n_NetworkID n <> "" /\ nc_PeerID (n_Core n) <> "" /\
  nc_OverlayAddress (n_Core n) = CoreAddress (NewIPv6Allocator (n_NetworkID n)) /\
  nc_OverlayPrefix (n_Core n) = NewIPv6Allocator (n_NetworkID n) /\
  nc_PrivateKey (n_Core n) <> replicate 32 x00 /\ nc_PublicKey (n_Core n) <> replicate 32 x00 /\
  public_of (nc_PrivateKey (n_Core n)) = Some (nc_PublicKey (n_Core n)).

Lemma ReconstructNetwork_iff public_of p n :
  ReconstructNetwork public_of p = Ok n <->
  pn_Version p = portableVersion /\ n_NetworkID n = pn_NetworkID p /\ n_Core n = pn_Core p /\
  core_ok public_of n /\
  restore (pn_Core p) (NewIPv6Allocator (pn_NetworkID p)) ∅ (pn_Memberships p) = Ok (n_Memberships n).
Proof.
  unfold ReconstructNetwork, core_ok. cbv zeta. split.
  - intros H. repeat (case_match; [done|]). case_match; [|done]. case_match; [done|].
    destruct (restore _ _ _ _) as [ms|]; [|done]. injection H as <-. simpl. bool_props.
    rewrite empty_str_false in *. subst. by split_and!.
  - intros (H1 & H2 & H3 & (H4 & H5 & H6 & H7 & H8 & H9 & H10) & H11). rewrite H2, H3 in *.
    rewrite (proj2 (Z.eqb_eq _ _) H1). apply empty_str_false in H4 as ->. apply empty_str_false in H5 as ->.
    rewrite H6, H7, (bool_decide_true (_ = CoreAddress _)) by done.
    rewrite IsValid_length by apply Contains_go_copy.
    rewrite (bool_decide_true (NewIPv6Allocator _ = _)) by done. rewrite !bool_decide_false by done.
    simpl. rewrite H10, H11, bool_decide_true by done. simpl. destruct n; simpl in *. congruence.
Qed.

Lemma export_reconstructs public_of n order :
  network_wf n -> core_ok public_of n ->
  (forall k m, n_Memberships n !! k = Some m ->
     k <> nc_PeerID (n_Core n) /\ m_OverlayAddress m <> nc_OverlayAddress (n_Core n)) ->
  order ≡ₚ (map_to_list (n_Memberships n)).*1 ->
  ReconstructNetwork public_of (Portable n order) =
    Ok (put_memberships n (forget_endpoint <$> n_Memberships n)).
Proof.
  intros Hwf Hc Hcore Ho. apply ReconstructNetwork_iff. split_and!; try done. simpl.
  assert (Horder : forall k, k ∈ order -> exists m, n_Memberships n !! k = Some m /\ m_PeerID m = k).
  { intros k Hk. rewrite Ho in Hk. apply list_elem_of_fmap in Hk as ([k' m] & -> & Hin).
    apply elem_of_map_to_list in Hin. exists m. split; [done|]. by apply (nw_member _ Hwf). }
  assert (Hmem : forall m, m ∈ omap (fun id => n_Memberships n !! id) order <->
            n_Memberships n !! m_PeerID m = Some m).
  { intros m. rewrite list_elem_of_omap. split.
    - intros (k & Hin & Hk). by rewrite (mo_peer _ _ _ (nw_member _ Hwf _ _ Hk)).
    - intros Hk. exists (m_PeerID m). split; [|done]. rewrite Ho.
      by apply elem_of_map_to_list, (list_elem_of_fmap_2 fst) in Hk. }
  assert (Hpeers : pm_PeerID <$> (to_portable <$> omap (fun id => n_Memberships n !! id) order) = order).
  { rewrite <- list_fmap_compose. by apply lookup_all_keys. }
  apply restore_iff. split_and!.
  + apply Forall_fmap, Forall_forall. intros m Hm. apply Hmem in Hm as Hk. simpl.
    destruct (nw_member _ Hwf _ _ Hk) as [_ Hne Hb Ha Hs _], (Hcore _ _ Hk) as [Hp Haddr].
    apply BodyAddress_ok in Ha as [Hl Hin]. unfold member_fits. simpl.
    split_and!; try done. by apply IsValid_length.
  + rewrite Hpeers, Ho. apply NoDup_fst_map_to_list.
  + intros. apply lookup_empty.
  + apply map_eq. intros k. apply option_eq. intros m. rewrite lookup_fmap.
    rewrite put_all_lookup; [|rewrite <- (list_fmap_compose of_portable);
      change (m_PeerID ∘ of_portable) with pm_PeerID; rewrite Hpeers, Ho;
      apply NoDup_fst_map_to_list|intros; apply lookup_empty].
    rewrite lookup_empty, fmap_Some. setoid_rewrite list_elem_of_fmap. setoid_rewrite list_elem_of_fmap.
    split.
    * intros (m' & Hk & ->). left. pose proof (mo_peer _ _ _ (nw_member _ Hwf _ _ Hk)) as Hp.
      split; [|done]. exists (to_portable m'). split; [done|]. exists m'. split; [done|].
      apply Hmem. by rewrite Hp.
    * intros [[(pm & -> & m' & -> & Hin) <-]|?]; [|done]. exists m'. split; [|done]. exact (proj1 (Hmem m') Hin).
Qed.

Lemma reconstructed_exports public_of p n :
  ReconstructNetwork public_of p = Ok n ->
  Portable n (pm_PeerID <$> pn_Memberships p) = p /\ core_ok public_of n /\
  map_Forall (fun k m => m_PeerID m = k /\ m_Endpoint m = "" /\
    Contains (NewIPv6Allocator (n_NetworkID n)) (m_OverlayAddress m) = true) (n_Memberships n).
Proof.
  intros (Hv & Hid & Hcore & Hok & Hr)%ReconstructNetwork_iff. rewrite <- Hid, <- Hcore in Hr.
  apply restore_iff in Hr as (Hf & Hnd & _ & Hms).
  assert (Hl : forall k m, n_Memberships n !! k = Some m <->
            exists pm, pm ∈ pn_Memberships p /\ m = of_portable pm /\ pm_PeerID pm = k).
  { intros k m. rewrite Hms, put_all_lookup; [|by rewrite <- list_fmap_compose|intros; apply lookup_empty].
    rewrite lookup_empty, list_elem_of_fmap. naive_solver. }
  split_and!; [|done|].
  + destruct p as [v id core pms]; simpl in *. unfold Portable. f_equal; [done..|].
    assert (forall l : list PortableMembership, (forall pm, pm ∈ l -> pm ∈ pms) ->
      to_portable <$> omap (fun id => n_Memberships n !! id) (pm_PeerID <$> l) = l) as Hall;
      [|by apply Hall].
    induction l as [|pm l IH]; intros Hin; [done|]. simpl.
    rewrite (proj2 (Hl (pm_PeerID pm) (of_portable pm))) by (exists pm; split; [set_solver|done]).
    simpl. f_equal; [by destruct pm|]. apply IH. set_solver.
  + intros k m (pm & Hin & -> & <-)%Hl. rewrite Forall_forall in Hf.
    destruct (Hf _ Hin) as (_ & _ & _ & ? & _). done.
Qed.

(** The portable form loses nothing but live endpoints.  Exporting a
    well-formed network, in whatever order the runtime visits the members, and
    reconstructing it gives the same network with the endpoints cleared,
    provided no member's derived address is the Core's; and a portable document
    that is accepted belongs to its network identifier and is, member for
    member, the export of the network it gives. *)
Theorem portable_roundtrip public_of :
  (forall n order, network_wf n -> core_ok public_of n ->
     (forall k m, n_Memberships n !! k = Some m ->
        k <> nc_PeerID (n_Core n) /\ m_OverlayAddress m <> nc_OverlayAddress (n_Core n)) ->
     order ≡ₚ (map_to_list (n_Memberships n)).*1 ->
     ReconstructNetwork public_of (Portable n order) =
       Ok (put_memberships n (forget_endpoint <$> n_Memberships n))) /\
  (forall p n, ReconstructNetwork public_of p = Ok n ->
     Portable n (pm_PeerID <$> pn_Memberships p) = p /\ core_ok public_of n /\
     map_Forall (fun k m => m_PeerID m = k /\ m_Endpoint m = "" /\
       Contains (NewIPv6Allocator (n_NetworkID n)) (m_OverlayAddress m) = true) (n_Memberships n)).
Proof. split; [apply export_reconstructs|apply reconstructed_exports]. Qed.

Lemma stored_new netID peerID priv pub :
  let n := NewNetwork netID peerID priv pub in stored n (SaveNetwork ∅ n).
Proof.
  split; unfold SaveNetwork.
  - by rewrite lookup_insert_eq.
  - intros k. rewrite lookup_insert_ne by done. by rewrite lookup_empty.
  - intros key. rewrite lookup_insert_is_Some. intros [<-|[_ H]]; [by left|].
    rewrite lookup_empty in H. by destruct H.
Qed.

Lemma stored_save n t k m :
  stored n t -> m_PeerID m = k ->
  stored (put_memberships n (<[k := m]> (n_Memberships n))) (SaveMembership t m).
Proof.
  intros [Hi Hm Ho] <-. split; unfold SaveMembership; simpl.
  - by rewrite lookup_insert_ne.
  - intros k. destruct (decide (k = m_PeerID m)) as [->|Hne]; [by rewrite !lookup_insert_eq|].
    rewrite !lookup_insert_ne; [done|done|]. intros He. apply Hne. by apply membershipKey_inj in He.
  - intros key [<-|[_ H]]%lookup_insert_is_Some; eauto.
Qed.

Lemma stored_delete n t k :
  stored n t -> stored (put_memberships n (delete k (n_Memberships n))) (DeleteMembership t k).
Proof.
  intros [Hi Hm Ho]. split; unfold DeleteMembership; simpl.
  - by rewrite lookup_delete_ne.
  - intros k'. destruct (decide (k' = k)) as [->|Hne]; [by rewrite !lookup_delete_eq|].
    rewrite !lookup_delete_ne; [done|done|]. intros He. apply Hne. by apply membershipKey_inj in He.
  - intros key [_ H]%lookup_delete_is_Some. eauto.
Qed.

(** A restart restores the network.  When the table holds a well-formed
    network, loading it, in whatever order the database returns the rows,
    gives exactly that network, memberships, keys, addresses and revocations
    included; saving or deleting a membership keeps the table in step. *)
Theorem restart_restores_network n t rows :
  stored n t -> rows ≡ₚ map_to_list t -> network_wf n ->
  nc_OverlayAddress (n_Core n) = CoreAddress (NewIPv6Allocator (n_NetworkID n)) ->
  nc_OverlayPrefix (n_Core n) = NewIPv6Allocator (n_NetworkID n) ->
  length (nc_PrivateKey (n_Core n)) = 32%nat -> length (nc_PublicKey (n_Core n)) = 32%nat ->
  LoadNetwork t rows = Ok (Some n).
Proof.
  intros Hst Hrows Hwf Haddr Hpre Hpriv Hpub. unfold LoadNetwork. rewrite (st_identity _ _ Hst), Haddr.
  rewrite IsValid_length by apply Contains_go_copy. rewrite !take_ge by lia. rewrite Hpriv, Hpub. simpl.
  destruct (decode_rows_spec (n_NetworkID n) rows) as (ms & -> & Hin & Hnd).
  { intros key row Hr. rewrite Hrows in Hr. apply elem_of_map_to_list in Hr as Hl.
    destruct (st_only _ _ Hst key) as [->|[k ->]]; [eauto|by left|right].
    rewrite (st_members _ _ Hst) in Hl. apply fmap_Some in Hl as (m & Hk & ->). exists m.
    pose proof (nw_member _ Hwf _ _ Hk) as Hok. pose proof (mo_peer _ _ _ Hok) as ->. done. }
  simpl. do 2 f_equal. destruct n as [id core M]; simpl in *. f_equal.
  - destruct core; simpl in *. congruence.
  - apply map_eq. intros k. apply option_eq. intros m. fold (put_all ms ∅).
    rewrite put_all_lookup; [|apply Hnd; rewrite Hrows; apply NoDup_fst_map_to_list|intros; apply lookup_empty].
    rewrite lookup_empty, Hin, Hrows, elem_of_map_to_list, (st_members _ _ Hst). simpl. split.
    + intros [[(m' & Hk & [= ->])%fmap_Some <-]|?]; done.
    + intros Hk. left. pose proof (mo_peer _ _ _ (nw_member _ Hwf _ _ Hk)) as Hp. simpl in Hp.
      split; [|done]. rewrite Hp, Hk. done.
Qed.

(** ** A concrete network: two members, one of them revoked. *)

Definition demo_priv : list byte := replicate 31 x00 ++ [x40].
Definition demo_pub : list byte := replicate 32 x09.
Definition demo_net0 : Network := NewNetwork "net" "core" demo_priv demo_pub.

Definition net_of (r : res network_error Network) : Network :=
  match r with Ok n => n | Err _ => demo_net0 end.

Definition demo_net1 : Network := Eval vm_compute in
  match NewMembership demo_net0 "b1" "p1" with Ok (_, n) => n | Err _ => demo_net0 end.
Definition demo_net2 : Network := Eval vm_compute in net_of (SetBodyWireGuardPublicKey demo_net1 "p1" demo_pub).
Definition demo_net3 : Network := Eval vm_compute in
  match NewMembership demo_net2 "b2" "p2" with Ok (_, n) => n | Err _ => demo_net0 end.
Definition demo_net4 : Network := Eval vm_compute in net_of (RevokeMembership demo_net3 "p2").

Lemma demo_net4_reachable : rtc net_step demo_net0 demo_net4.
Proof.
  eapply rtc_l; [eapply (ns_new _ "b1" "p1" _ demo_net1); vm_compute; reflexivity|].
  eapply rtc_l; [eapply (ns_key _ "p1" demo_pub demo_net2); vm_compute; reflexivity|].
  eapply rtc_l; [eapply (ns_new _ "b2" "p2" _ demo_net3); vm_compute; reflexivity|].
  apply rtc_once, (ns_revoke _ "p2"). vm_compute. reflexivity.
Qed.

Lemma demo_net4_wf : network_wf demo_net4.
Proof. exact (reachable_keeps network_wf _ _ demo_net4_reachable (NewNetwork_wf _ _ _ _)). Qed.

Lemma network_members_distinct_witness :
  NewMembership demo_net4 "b2" "p9" = Err ErrMembershipRevoked.
Proof.
  destruct (network_members_distinct "net" "core" demo_priv demo_pub demo_net4 demo_net4_reachable)
    as (_ & _ & H).
  destruct (n_Memberships demo_net4 !! "p2") as [m|] eqn:E; [|vm_compute in E; discriminate].
  destruct (H "p2" m E) as [Hn _]; [vm_compute in E; injection E as <-; reflexivity|].
  rewrite <- (Hn "p9"). f_equal. vm_compute in E. injection E as <-. reflexivity.
Defined.

Lemma listing_is_stable_witness :
  ListMemberships demo_net4 ["p2"; "p1"] = ListMemberships demo_net4 ["p1"; "p2"].
Proof.
  apply (listing_is_stable demo_net4 ["p1"; "p2"] ["p2"; "p1"]); [|apply Permutation_swap].
  vm_compute. first [apply Permutation_swap|reflexivity].
Defined.

Lemma portable_roundtrip_witness :
  ReconstructNetwork (fun _ => Some demo_pub) (Portable demo_net4 ["p2"; "p1"]) = Ok demo_net4.
Proof.
  rewrite (proj1 (portable_roundtrip (fun _ => Some demo_pub)) demo_net4 ["p2"; "p1"]).
  - vm_compute. reflexivity.
  - exact demo_net4_wf.
  - vm_compute. split_and!; first [reflexivity|discriminate].
  - intros k m Hk. apply elem_of_map_to_list in Hk. vm_compute in Hk.
    repeat (apply elem_of_cons in Hk as [Hk|Hk]; [injection Hk as -> ->; split; vm_compute; discriminate|]).
    by apply elem_of_nil in Hk.
  - vm_compute. first [apply Permutation_swap|reflexivity].
Defined.

Definition member_of (n : Network) (k : string) : Membership :=
  match n_Memberships n !! k with
  | Some m => m
  | None => {| m_BodyID := ""; m_PeerID := ""; m_WireGuardPublicKey := None; m_OverlayAddress := [];
               m_Endpoint := ""; m_Status := "" |}
  end.

Definition demo_table : gmap string state_row :=
  SaveMembership (SaveMembership (SaveNetwork ∅ demo_net0) (member_of demo_net4 "p1"))
    (member_of demo_net4 "p2").

Lemma demo_table_stored : stored demo_net4 demo_table.
Proof.
  pose proof (stored_save _ _ "p2" (member_of demo_net4 "p2")
    (stored_save _ _ "p1" (member_of demo_net4 "p1")
       (stored_new "net" "core" demo_priv demo_pub) eq_refl) eq_refl) as H.
  assert (put_memberships (put_memberships demo_net0 (<["p1" := member_of demo_net4 "p1"]> (n_Memberships demo_net0)))
    (<["p2" := member_of demo_net4 "p2"]> (<["p1" := member_of demo_net4 "p1"]> (n_Memberships demo_net0)))
    = demo_net4) as E by (vm_compute; reflexivity).
  rewrite <- E. exact H.
Qed.

Lemma restart_restores_network_witness :
  LoadNetwork demo_table (map_to_list demo_table) = Ok (Some demo_net4).
Proof.
  apply (restart_restores_network demo_net4 demo_table);
    [exact demo_table_stored|reflexivity|exact demo_net4_wf|vm_compute; reflexivity..].
Defined.
