(* ===== verification/Invitation.v ===== *)
(** * Invitations

    Models [src/Core/Invitation] and the invitation table of
    [src/Core/Persistence/invitations.go].  The source's [Store] interface is a
    type class of operations; what the service relies on is a second class of
    laws, proved for both implementations: the in-memory store and the SQL
    table.  They differ in what they keep of an expiry: the table writes it as
    RFC 3339 text without fraction.

    Every operation holds the store's lock or is one SQL statement; database
    failures are not modelled.  Fresh identifiers and secrets are arguments. *)
From S2P Require Import Prelude GoBytes.
From stdpp Require Import options.

(** ** Data *)

Record Invitation := {
  i_ID : string;
  i_SecretHash : list byte;
  i_ExpiresAt : time;
  i_Consumed : bool;
  i_Permissions : list string;
  i_BootstrapEndpoints : list string;
}.

Inductive invitation_error :=
| InvitationExists | InvitationNotFound | AlreadyConsumed | InvitationExpired | WrongSecret
| CorruptedHash | InvalidAuthorization.

Definition consumed_invitation (i : Invitation) : Invitation :=
  {| i_ID := i_ID i; i_SecretHash := i_SecretHash i; i_ExpiresAt := i_ExpiresAt i; i_Consumed := true;
     i_Permissions := i_Permissions i; i_BootstrapEndpoints := i_BootstrapEndpoints i |}.

(** ** The store interface *)

Class InvitationStore (S : Type) := {
  store_Create : S -> Invitation -> res invitation_error S;
  store_Get : S -> string -> res invitation_error (option Invitation);
  store_Consume : S -> string -> res invitation_error bool * S;
}.

(** What the service relies on.  [view] is the contents, [keeps] what is kept
    of an invitation when it is stored. *)
Class InvitationStoreLaws (S : Type) `{InvitationStore S} := {
  view : S -> gmap string Invitation;
  keeps : Invitation -> Invitation;
  keeps_same i : i_ID (keeps i) = i_ID i /\ i_SecretHash (keeps i) = i_SecretHash i /\
    i_Consumed (keeps i) = i_Consumed i /\ i_Permissions (keeps i) = i_Permissions i /\
    i_ExpiresAt (keeps i) <= i_ExpiresAt i;
  create_law s i :
    match store_Create s i with
    | Ok s' => view s !! i_ID i = None /\ view s' = <[i_ID i := keeps i]> (view s)
    | Err _ => is_Some (view s !! i_ID i)
    end;
  get_law s id i : store_Get s id = Ok (Some i) -> view s !! id = Some i;
  get_found s id i : view s !! id = Some i -> length (i_SecretHash i) = 32%nat ->
    store_Get s id = Ok (Some i);
  consume_law s id :
    match view s !! id with
    | Some i => if i_Consumed i then is_ok (store_Consume s id).1 = false /\ (store_Consume s id).2 = s
                else (store_Consume s id).1 = Ok true /\
                     view (store_Consume s id).2 = <[id := consumed_invitation i]> (view s)
    | None => is_ok (store_Consume s id).1 = false /\ (store_Consume s id).2 = s
    end;
}.

(** ** The in-memory store *)

Record MemoryStore := { ms_inv : gmap string Invitation }.

Definition NewMemoryStore : MemoryStore := {| ms_inv := ∅ |}.

Definition MemoryStore_Create (s : MemoryStore) (i : Invitation) : res invitation_error MemoryStore :=
  refuse bool_decide (is_Some (ms_inv s !! i_ID i)) with InvitationExists;
  Ok {| ms_inv := <[i_ID i := i]> (ms_inv s) |}.

Definition MemoryStore_Get (s : MemoryStore) (id : string) : res invitation_error (option Invitation) :=
  match ms_inv s !! id with Some i => Ok (Some i) | None => Err InvitationNotFound end.

Definition MemoryStore_Consume (s : MemoryStore) (id : string) : res invitation_error bool * MemoryStore :=
  match ms_inv s !! id with
  | None => (Err InvitationNotFound, s)
  | Some i =>
      if i_Consumed i then (Err AlreadyConsumed, s)
      else (Ok true, {| ms_inv := <[id := consumed_invitation i]> (ms_inv s) |})
  end.

#[export] Instance MemoryStore_ops : InvitationStore MemoryStore :=
  {| store_Create := MemoryStore_Create; store_Get := MemoryStore_Get;
     store_Consume := MemoryStore_Consume |}.

(** ** The SQL table *)

Record SQLStore := { sq_rows : gmap string Invitation }.

(** The row written for an invitation: its expiry is formatted as RFC 3339
    without fraction. *)
Definition invitation_row (i : Invitation) : Invitation :=
  {| i_ID := i_ID i; i_SecretHash := i_SecretHash i; i_ExpiresAt := i_ExpiresAt i / second * second;
     i_Consumed := i_Consumed i; i_Permissions := i_Permissions i;
     i_BootstrapEndpoints := i_BootstrapEndpoints i |}.

(** [INSERT]: the primary key must be new. *)
Definition SQLStore_Create (s : SQLStore) (i : Invitation) : res invitation_error SQLStore :=
  refuse bool_decide (is_Some (sq_rows s !! i_ID i)) with InvitationExists;
  Ok {| sq_rows := <[i_ID i := invitation_row i]> (sq_rows s) |}.

Definition SQLStore_Get (s : SQLStore) (id : string) : res invitation_error (option Invitation) :=
  match sq_rows s !! id with
  | None => Ok None
  | Some i =>
      refuse negb (bool_decide (length (i_SecretHash i) = 32%nat)) with CorruptedHash;
      Ok (Some i)
  end.

(** The look-up, then [UPDATE ... SET consumed = 1 WHERE id = ? AND consumed = 0]. *)
Definition SQLStore_Consume (s : SQLStore) (id : string) : res invitation_error bool * SQLStore :=
  match sq_rows s !! id with
  | None => (Err InvitationNotFound, s)
  | Some i =>
      if i_Consumed i then (Err AlreadyConsumed, s)
      else (Ok true, {| sq_rows := <[id := consumed_invitation i]> (sq_rows s) |})
  end.

#[export] Instance SQLStore_ops : InvitationStore SQLStore :=
  {| store_Create := SQLStore_Create; store_Get := SQLStore_Get; store_Consume := SQLStore_Consume |}.

(** ** The service *)

Definition DefaultLifetime : duration := 30 * 60 * second.

Definition HashSecret (secret : string) : list byte := sha256 (bytes_of secret).

Record CreateParams := {
  cp_Lifetime : duration; cp_Permissions : list string; cp_BootstrapEndpoints : list string;
}.

Record CreatedInvitation := {
  ci_ID : string; ci_Secret : string; ci_ExpiresAt : time; ci_BootstrapEndpoints : list string;
}.

Section service.
Context {S : Type} `{InvitationStore S}.

Definition Create (s : S) (now : time) (id secret : string) (params : CreateParams)
    : res invitation_error (CreatedInvitation * S) :=
  let lifetime := if cp_Lifetime params <=? 0 then DefaultLifetime else cp_Lifetime params in
  let inv := {| i_ID := id; i_SecretHash := HashSecret secret; i_ExpiresAt := now + lifetime;
                i_Consumed := false; i_Permissions := cp_Permissions params;
                i_BootstrapEndpoints := cp_BootstrapEndpoints params |} in
  try s' <- store_Create s inv;
  Ok ({| ci_ID := id; ci_Secret := secret; ci_ExpiresAt := i_ExpiresAt inv;
         ci_BootstrapEndpoints := i_BootstrapEndpoints inv |}, s').

(** The invitation comes with the error when it exists but is consumed. *)
Definition Validate (s : S) (now : time) (id secret : string)
    : res (invitation_error * option Invitation) Invitation :=
  match store_Get s id with
  | Err e => Err (e, None)
  | Ok None => Err (InvitationNotFound, None)
  | Ok (Some inv) =>
      refuse i_Consumed inv with (AlreadyConsumed, Some inv);
      refuse After now (i_ExpiresAt inv) with (InvitationExpired, None);
      refuse negb (bool_decide (HashSecret secret = i_SecretHash inv)) with (WrongSecret, None);
      Ok inv
  end.

Definition ValidateAuthorization (s : S) (id secret : string) : res invitation_error Invitation :=
  match store_Get s id with
  | Ok (Some inv) =>
      refuse negb (bool_decide (HashSecret secret = i_SecretHash inv)) with InvalidAuthorization;
      Ok inv
  | _ => Err InvalidAuthorization
  end.

Definition Consume (s : S) (id : string) : res invitation_error unit * S :=
  let '(r, s') := store_Consume s id in
  (match r with
   | Err e => Err e
   | Ok ok => if ok then Ok tt else Err AlreadyConsumed
   end, s').

(** *** Any use of the store *)

Inductive inv_call := CallCreate (i : Invitation) | CallConsume (id : string).

(** Each call, with the identifier it consumed, if any. *)
Definition inv_perform (s : S) (c : inv_call) : option string * S :=
  match c with
  | CallCreate i => (None, match store_Create s i with Ok s' => s' | Err _ => s end)
  | CallConsume id =>
      let '(r, s') := Consume s id in (match r with Ok _ => Some id | Err _ => None end, s')
  end.

Fixpoint inv_perform_all (s : S) (cs : list inv_call) : list string * S :=
  match cs with
  | [] => ([], s)
  | c :: rest =>
      let '(r, s1) := inv_perform s c in
      let '(ids, s2) := inv_perform_all s1 rest in (option_list r ++ ids, s2)
  end.
End service.

(** ** Both stores keep the laws *)

#[export] Program Instance MemoryStore_laws : InvitationStoreLaws MemoryStore :=
  {| view := ms_inv; keeps := fun i => i |}.
Next Obligation. intros i. by split_and!. Qed.
Next Obligation.
  intros s i. simpl. unfold MemoryStore_Create. case_bool_decide as E; [done|].
  split; [by apply eq_None_not_Some|done].
Qed.
Next Obligation. intros s id i. simpl. unfold MemoryStore_Get. destruct (ms_inv s !! id); congruence. Qed.
Next Obligation. intros s id i Hi _. simpl. unfold MemoryStore_Get. by rewrite Hi. Qed.
Next Obligation.
  intros s id. simpl. unfold MemoryStore_Consume. destruct (ms_inv s !! id) as [i|]; [|done].
  by destruct (i_Consumed i).
Qed.

#[export] Program Instance SQLStore_laws : InvitationStoreLaws SQLStore :=
  {| view := sq_rows; keeps := invitation_row |}.
Next Obligation.
  intros i. split_and!; try done. simpl. unfold second.
  pose proof (Z.mul_div_le (i_ExpiresAt i) 1000000000). lia.
Qed.
Next Obligation.
  intros s i. simpl. unfold SQLStore_Create. case_bool_decide as E; [done|].
  split; [by apply eq_None_not_Some|done].
Qed.
Next Obligation.
  intros s id i. simpl. unfold SQLStore_Get. destruct (sq_rows s !! id) as [j|]; [|congruence].
  case_bool_decide; simpl; congruence.
Qed.
Next Obligation.
  intros s id i Hi Hl. simpl. unfold SQLStore_Get. by rewrite Hi, bool_decide_true.
Qed.
Next Obligation.
  intros s id. simpl. unfold SQLStore_Consume. destruct (sq_rows s !! id) as [i|]; [|done].
  by destruct (i_Consumed i).
Qed.

(** ** Lemmas *)

Section laws.
Context {S : Type} `{InvitationStoreLaws S}.

Definition used (s : S) (id : string) : Prop :=
  exists i, view s !! id = Some i /\ i_Consumed i = true.

Lemma Validate_iff s now id secret inv :
  Validate s now id secret = Ok inv <->
  view s !! id = Some inv /\ i_Consumed inv = false /\ now <= i_ExpiresAt inv /\
  i_SecretHash inv = HashSecret secret.
Proof.
  unfold Validate, After. split.
  - destruct (store_Get s id) as [[i|]|] eqn:E; [|done..]. apply get_law in E. intros Hv. branches.
    bool_props. by split_and!.
  - intros (Hv & Hc & Ht & Hh). erewrite get_found; [|done|by rewrite Hh; apply length_sha256].
    rewrite Hc, (proj2 (Z.ltb_ge _ _)) by lia. by rewrite bool_decide_true.
Qed.

Lemma Consume_cases s id :
  ((Consume s id).1 = Ok tt /\ exists i, view s !! id = Some i /\ i_Consumed i = false /\
     view (Consume s id).2 = <[id := consumed_invitation i]> (view s)) \/
  (is_ok (Consume s id).1 = false /\ (Consume s id).2 = s /\
     forall i, view s !! id = Some i -> i_Consumed i = true).
Proof.
  pose proof (consume_law s id) as Hl. unfold Consume.
  destruct (store_Consume s id) as [r s'] eqn:E. simpl in Hl.
  destruct (view s !! id) as [i|] eqn:Hv; [destruct (i_Consumed i) eqn:Hc|].
  - right. destruct Hl as [Hr ->]. split_and!; [by destruct r|done|]. by intros ? [= <-].
  - left. destruct Hl as [-> Hs]. split; [done|]. by exists i.
  - right. destruct Hl as [Hr ->]. split_and!; [by destruct r|done|done].
Qed.

Lemma inv_perform_used s c id :
  used s id -> used (inv_perform s c).2 id /\ (inv_perform s c).1 <> Some id.
Proof.
  intros (i & Hi & Hc). destruct c as [j|id']; simpl.
  - split; [|done]. pose proof (create_law s j) as Hl. destruct (store_Create s j) as [s'|]; [|by exists i].
    destruct Hl as [Hn Hv]. exists i. rewrite Hv, lookup_insert_ne by congruence. done.
  - pose proof (Consume_cases s id') as Hcs. destruct (Consume s id') as [r s']. simpl in *.
    destruct Hcs as [[-> (j & Hj & Hjc & Hv)]|(Hr & -> & _)]; simpl.
    + assert (id' <> id) by congruence. split; [|congruence].
      exists i. rewrite Hv, lookup_insert_ne by done. done.
    + split; [by exists i|]. by destruct r.
Qed.

Lemma inv_perform_marks s c id : (inv_perform s c).1 = Some id -> used (inv_perform s c).2 id.
Proof.
  destruct c as [j|id']; simpl; [done|].
  pose proof (Consume_cases s id') as Hcs. destruct (Consume s id') as [r s']. simpl in *.
  destruct Hcs as [[-> (j & Hj & Hjc & Hv)]|(Hr & -> & _)]; [|by destruct r].
  intros [= <-]. exists (consumed_invitation j). by rewrite Hv, lookup_insert_eq.
Qed.

Lemma inv_perform_all_used s cs id :
  used s id -> used (inv_perform_all s cs).2 id /\ id ∉ (inv_perform_all s cs).1.
Proof.
  revert s. induction cs as [|c cs IH]; intros s Hu; simpl; [split; [done|apply not_elem_of_nil]|].
  destruct (inv_perform_used s c id Hu) as [Hu1 Hne]. destruct (inv_perform s c) as [r s1]. simpl in *.
  destruct (IH s1 Hu1) as [Hu2 Hnin]. destruct (inv_perform_all s1 cs) as [ids s2]. simpl in *.
  split; [done|]. rewrite elem_of_app. destruct r as [id'|]; simpl; set_solver.
Qed.

Lemma inv_perform_all_once s cs :
  NoDup (inv_perform_all s cs).1 /\ forall id, id ∈ (inv_perform_all s cs).1 -> used (inv_perform_all s cs).2 id.
Proof.
  revert s. induction cs as [|c cs IH]; intros s; simpl; [split; [constructor|set_solver]|].
  pose proof (fun id => inv_perform_marks s c id) as Hm. destruct (inv_perform s c) as [r s1]. simpl in Hm.
  pose proof (fun id => inv_perform_all_used s1 cs id) as Hu. destruct (IH s1) as [Hnd Hin].
  destruct (inv_perform_all s1 cs) as [ids s2]. simpl in *. destruct r as [id|]; simpl; [|done].
  destruct (Hu id (Hm id eq_refl)) as [Hu2 Hnin]. split; [by constructor|].
  intros id' [->|Hid]%elem_of_cons; auto.
Qed.

(** ** Properties *)

(** C39: an invitation is used at most once, on every store that keeps the
    interface's laws.  In any sequence of creations and consumptions no
    identifier is consumed twice; a consumed invitation never validates again;
    and validation accepts exactly the stored, unconsumed, unexpired
    invitation whose secret hash is that of the presented secret. *)
Theorem invitation_single_use (s : S) (cs : list inv_call) :
  let '(ids, s') := inv_perform_all s cs in
  NoDup ids /\
  (forall id now secret, id ∈ ids -> is_ok (Validate s' now id secret) = false /\
                                      is_ok (Consume s' id).1 = false) /\
  (forall id now secret inv, Validate s' now id secret = Ok inv <->
     view s' !! id = Some inv /\ i_Consumed inv = false /\ now <= i_ExpiresAt inv /\
     i_SecretHash inv = HashSecret secret).
Proof.
  destruct (inv_perform_all_once s cs) as [Hnd Hu]. destruct (inv_perform_all s cs) as [ids s'].
  simpl in *. split_and!; [done| |intros; apply Validate_iff].
  intros id now secret Hid. destruct (Hu id Hid) as (i & Hi & Hc). split.
  - destruct (Validate s' now id secret) as [inv|] eqn:E; [|done].
    apply Validate_iff in E as (? & ? & _). congruence.
  - destruct (Consume_cases s' id) as [[_ (j & Hj & ? & _)]|(? & _)]; [congruence|done].
Qed.

(** A created invitation validates with its secret until the kept expiry. *)
Lemma created_validates (s : S) now id secret params ci s' now' :
  Create s now id secret params = Ok (ci, s') ->
  now' <= i_ExpiresAt (keeps {| i_ID := id; i_SecretHash := HashSecret secret;
            i_ExpiresAt := ci_ExpiresAt ci; i_Consumed := false; i_Permissions := cp_Permissions params;
            i_BootstrapEndpoints := cp_BootstrapEndpoints params |}) ->
  exists inv, Validate s' now' id secret = Ok inv /\ i_Permissions inv = cp_Permissions params.
Proof.
  unfold Create. set (i := {| i_ID := id |}). pose proof (create_law s i) as Hl.
  destruct (store_Create s i) as [s1|] eqn:E; [|done]. simpl. intros [= <- <-]. simpl. intros Ht.
  destruct Hl as [_ Hv], (keeps_same i) as (_ & Hh & Hc & Hp & _). exists (keeps i). split; [|done].
  apply Validate_iff. rewrite Hv, lookup_insert_eq. by rewrite Hh, Hc.
Qed.
End laws.

(** ** A concrete invitation *)

Definition demo_params : CreateParams :=
  {| cp_Lifetime := 0; cp_Permissions := ["camera"]; cp_BootstrapEndpoints := [] |}.

Definition demo_invited : SQLStore :=
  match Create {| sq_rows := ∅ |} (5 * second + 7) "inv" "s3cret" demo_params with
  | Ok (_, s) => s
  | Err _ => {| sq_rows := ∅ |}
  end.

Lemma invitation_single_use_witness :
  NoDup (inv_perform_all demo_invited [CallConsume "inv"; CallConsume "inv"]).1 /\
  (inv_perform_all demo_invited [CallConsume "inv"; CallConsume "inv"]).1 = ["inv"] /\
  is_ok (Validate (inv_perform_all demo_invited [CallConsume "inv"]).2 0 "inv" "s3cret") = false.
Proof.
  pose proof (invitation_single_use demo_invited [CallConsume "inv"; CallConsume "inv"]) as H.
  pose proof (invitation_single_use demo_invited [CallConsume "inv"]) as H1.
  destruct (inv_perform_all demo_invited [CallConsume "inv"; CallConsume "inv"]) as [ids s] eqn:E.
  destruct (inv_perform_all demo_invited [CallConsume "inv"]) as [ids1 s1] eqn:E1.
  split; [apply H|]. split; [vm_compute in E; injection E as <- _; reflexivity|].
  apply H1. vm_compute in E1. injection E1 as <- _. apply elem_of_cons. left. reflexivity.
Defined.
