(* ===== verification/Signing.v ===== *)
(** * Signed enrollment and authentication messages

    Models [src/DollNetwork/enrollment_signing.go], the message types of
    [enrollment.go] and [core_identity.go], the WireGuard key encoding of
    [pairing.go], and [src/DollLink/Authentication/types.go].

    The Ed25519 algorithm is an interface (class [Ed25519]) with its documented
    behaviour as laws (class [Ed25519Laws]); everything around it (transcript,
    field encoding, length checks) is executable.  Where the library panics on a
    key of the wrong length, the model answers [Panics].  The functions that set
    a message's signature through a pointer return the signed message. *)
From S2P Require Import Prelude GoBytes GoTime Base64.
From stdpp Require Import options.

(** ** Ed25519 *)

Class Ed25519 := {
  NewKeyFromSeed : list byte -> list byte;
  ed_Sign : list byte -> list byte -> list byte;
  ed_Verify : list byte -> list byte -> list byte -> bool;
}.

Definition PublicKeySize : Z := 32.
Definition PrivateKeySize : Z := 64.
Definition SignatureSize : Z := 64.

(** A private key is the seed followed by the public key. *)
Definition Seed (k : list byte) : list byte := take 32 k.
Definition Public (k : list byte) : list byte := drop 32 k.

Class Ed25519Laws `{Ed25519} : Prop := {
  key_length seed : len seed = 32 -> len (NewKeyFromSeed seed) = PrivateKeySize;
  signature_length k m : len (ed_Sign k m) = SignatureSize;
  signature_verifies seed m :
    len seed = 32 ->
    ed_Verify (Public (NewKeyFromSeed seed)) m (ed_Sign (NewKeyFromSeed seed) m) = true;
}.

(** ** Fields and the transcript *)

Inductive signing_error :=
| InvalidLength | InvalidPublicKey | InvalidNonce | InvalidSignature | InvalidWgKey
| InvalidPrivateKey | UnsupportedVersion | InvalidProof | Panics.

(** "NEONDOLL-SIGN-V1" and a zero byte. *)
Definition signingDomain : list byte := bytes_of "NEONDOLL-SIGN-V1" ++ [x00].
Definition maxSignedString : Z := 256.
Definition nonceSize : Z := 32.

Record SignedField := { sf_Value : list byte }.

Definition StringField (value : string) : res signing_error SignedField :=
  refuse empty_str value || (maxSignedString <? len (bytes_of value)) with InvalidLength;
  Ok {| sf_Value := bytes_of value |}.

Definition RawField (value : list byte) : res signing_error SignedField :=
  refuse (len value =? 0) || (maxSignedString <? len value) with InvalidLength;
  Ok {| sf_Value := value |}.

Definition appendField (dst field : list byte) : list byte :=
  (dst ++ be_put 4 (u32 (len field))) ++ field.

Definition bad_length (f : SignedField) : bool :=
  (len (sf_Value f) =? 0) || (maxSignedString <? len (sf_Value f)).

Definition SignedMessage (messageType : string) (fs : list SignedField) : res signing_error (list byte) :=
  try typeField <- StringField messageType;
  refuse existsb bad_length fs with InvalidLength;
  Ok (fold_left (fun message f => appendField message (sf_Value f)) fs
        (appendField signingDomain (sf_Value typeField))).

(** The values [fields] is called with: strings and byte slices. *)
Inductive any_value := AnyString (s : string) | AnyBytes (b : list byte).

Definition value_field (v : any_value) : res signing_error SignedField :=
  match v with AnyString s => StringField s | AnyBytes b => RawField b end.

Fixpoint fields (values : list any_value) : res signing_error (list SignedField) :=
  match values with
  | [] => Ok []
  | v :: rest =>
      try f <- value_field v;
      try fs <- fields rest;
      Ok (f :: fs)
  end.

(** ** Encodings *)

Definition EncodeRawURL (raw : list byte) : string := RawURLEncode raw.

Definition decode_sized (size : Z) (e : signing_error) (encoded : string) : res signing_error (list byte) :=
  match RawURLDecode encoded with
  | Some raw => if len raw =? size then Ok raw else Err e
  | None => Err e
  end.

Definition DecodeBodyPublicKey : string -> res signing_error (list byte) :=
  decode_sized PublicKeySize InvalidPublicKey.
Definition DecodeNonce : string -> res signing_error (list byte) := decode_sized nonceSize InvalidNonce.
Definition DecodeSignature : string -> res signing_error (list byte) :=
  decode_sized SignatureSize InvalidSignature.

Definition BodyKeyFingerprint (publicKey : list byte) : string := hex_encode (sha256 publicKey).

Definition WgPublicKeySize : Z := 32.

Definition EncodeWgPublicKey (pk : list byte) : res signing_error string :=
  refuse negb (len pk =? WgPublicKeySize) with InvalidWgKey;
  Ok (StdEncode pk).

Definition DecodeWgPublicKey (s : string) : res signing_error (list byte) :=
  match StdDecode s with
  | Some raw => if len raw =? WgPublicKeySize then Ok raw else Err InvalidWgKey
  | None => Err InvalidWgKey
  end.

(** ** Messages *)

Definition EnrollmentVersion : Z := 1.
Definition EnrollmentStatusEnrolled : string := "enrolled".

Abbreviation EnrollmentMetadata := (gmap string string) (only parsing).

Record EnrollmentBeginRequest := {
  eb_Version : Z; eb_RequestID : string; eb_CoreID : string; eb_BodyPublicKey : string;
  eb_WGPublicKey : string; eb_BodyNonce : string; eb_Metadata : EnrollmentMetadata;
  eb_Signature : string;
}.

Record EnrollmentRedeemRequest := {
  rd_Version : Z; rd_RequestID : string; rd_CoreID : string; rd_InvitationID : string;
  rd_InvitationSecret : string; rd_BodyPublicKey : string; rd_WGPublicKey : string;
  rd_BodyNonce : string; rd_Metadata : EnrollmentMetadata; rd_Signature : string;
}.

Record EnrollmentPendingResponse := {
  ep_Version : Z; ep_RequestID : string; ep_CoreID : string; ep_BodyKeyFingerprint : string;
  ep_CoreNonce : string; ep_ApprovalCode : string; ep_ExpiresAt : time; ep_Signature : string;
}.

Record EnrollmentResultRequest := {
  er_Version : Z; er_RequestID : string; er_CoreID : string; er_BodyPublicKey : string;
  er_BodyNonce : string; er_Signature : string;
}.

Record EnrollmentReceipt := {
  rc_Version : Z; rc_RequestID : string; rc_Status : string; rc_BodyID : string; rc_CoreID : string;
  rc_BodyPublicKeyFingerprint : string; rc_Permissions : list string;
  rc_MembershipReference : string; rc_IssuedAt : time; rc_Signature : string;
}.

Record EnrollmentResultResponse := {
  rr_Version : Z; rr_RequestID : string; rr_Status : string; rr_Receipt : option EnrollmentReceipt;
}.

Definition CoreIdentityVersion : Z := 1.
Definition CoreIdentityAlgorithm : string := "Ed25519".

Record CoreIdentityResponse := {
  ci_Version : Z; ci_CoreID : string; ci_Algorithm : string; ci_PublicKey : string;
}.

(** Body Authentication v1. *)
Definition AlgorithmEd25519 : string := "Ed25519".
Definition TypeHello : string := "body.auth.hello".
Definition TypeChallenge : string := "body.auth.challenge".
Definition TypeProof : string := "body.auth.proof".
Definition TypeAccept : string := "body.auth.accept".

Record Hello := {
  h_Version : Z; h_Type : string; h_BodyID : string; h_BodyNonce : string; h_Algorithms : list string;
}.

Record Challenge := {
  c_Version : Z; c_Type : string; c_CoreID : string; c_BodyID : string; c_SessionID : string;
  c_BodyNonce : string; c_CoreNonce : string; c_ExpiresAt : time; c_Algorithm : string;
  c_Signature : string;
}.

Record AuthProof := {
  p_Version : Z; p_Type : string; p_CoreID : string; p_BodyID : string; p_SessionID : string;
  p_BodyNonce : string; p_CoreNonce : string; p_Algorithm : string; p_Signature : string;
}.

Record Accept := {
  a_Version : Z; a_Type : string; a_CoreID : string; a_BodyID : string; a_SessionID : string;
  a_Status : string; a_Signature : string;
}.

(** ** Signing and verifying *)

Section signing.
Context `{Ed25519}.

(** ed25519.Sign and ed25519.Verify panic on a key of the wrong length. *)
Definition call_Sign (k m : list byte) : res signing_error (list byte) :=
  refuse negb (len k =? PrivateKeySize) with Panics;
  Ok (ed_Sign k m).

Definition call_Verify (pk m sig : list byte) : res signing_error bool :=
  refuse negb (len pk =? PublicKeySize) with Panics;
  Ok (ed_Verify pk m sig).

(** The signature [sign] stores. *)
Definition sign (privateKey : list byte) (messageType : string) (fs : list SignedField)
    : res signing_error string :=
  refuse negb (len privateKey =? PrivateKeySize) with InvalidPrivateKey;
  try message <- SignedMessage messageType fs;
  try signature <- call_Sign privateKey message;
  Ok (EncodeRawURL signature).

Definition verify (publicKey : list byte) (messageType encodedSignature : string) (fs : list SignedField)
    : res signing_error unit :=
  try signature <- DecodeSignature encodedSignature;
  try message <- SignedMessage messageType fs;
  try ok <- call_Verify publicKey message signature;
  refuse negb ok with InvalidProof;
  Ok tt.

Definition enrollmentKeyProofFields (coreID requestID : string) (publicKey wgKey nonce : list byte) :=
  fields [AnyString coreID; AnyString requestID; AnyBytes publicKey; AnyBytes wgKey; AnyBytes nonce].

Definition VerifyEnrollmentBegin (r : EnrollmentBeginRequest) : res signing_error unit :=
  refuse negb (eb_Version r =? EnrollmentVersion) with UnsupportedVersion;
  try publicKey <- DecodeBodyPublicKey (eb_BodyPublicKey r);
  try wgKey <- DecodeWgPublicKey (eb_WGPublicKey r);
  try nonce <- DecodeNonce (eb_BodyNonce r);
  try fs <- enrollmentKeyProofFields (eb_CoreID r) (eb_RequestID r) publicKey wgKey nonce;
  verify publicKey "enrollment.begin" (eb_Signature r) fs.

Definition SignEnrollmentBegin (k : list byte) (r : EnrollmentBeginRequest)
    : res signing_error EnrollmentBeginRequest :=
  try publicKey <- DecodeBodyPublicKey (eb_BodyPublicKey r);
  try wgKey <- DecodeWgPublicKey (eb_WGPublicKey r);
  try nonce <- DecodeNonce (eb_BodyNonce r);
  try fs <- enrollmentKeyProofFields (eb_CoreID r) (eb_RequestID r) publicKey wgKey nonce;
  try s <- sign k "enrollment.begin" fs;
  Ok {| eb_Version := eb_Version r; eb_RequestID := eb_RequestID r; eb_CoreID := eb_CoreID r;
        eb_BodyPublicKey := eb_BodyPublicKey r; eb_WGPublicKey := eb_WGPublicKey r;
        eb_BodyNonce := eb_BodyNonce r; eb_Metadata := eb_Metadata r; eb_Signature := s |}.

Definition redeem_fields (r : EnrollmentRedeemRequest) (publicKey wgKey nonce : list byte) :=
  fields [AnyString (rd_CoreID r); AnyString (rd_RequestID r); AnyString (rd_InvitationID r);
          AnyString (rd_InvitationSecret r); AnyBytes publicKey; AnyBytes wgKey; AnyBytes nonce].

Definition VerifyEnrollmentRedeem (r : EnrollmentRedeemRequest) : res signing_error unit :=
  refuse negb (rd_Version r =? EnrollmentVersion) with UnsupportedVersion;
  try publicKey <- DecodeBodyPublicKey (rd_BodyPublicKey r);
  try wgKey <- DecodeWgPublicKey (rd_WGPublicKey r);
  try nonce <- DecodeNonce (rd_BodyNonce r);
  try fs <- redeem_fields r publicKey wgKey nonce;
  verify publicKey "enrollment.redeem" (rd_Signature r) fs.

Definition SignEnrollmentRedeem (k : list byte) (r : EnrollmentRedeemRequest)
    : res signing_error EnrollmentRedeemRequest :=
  try publicKey <- DecodeBodyPublicKey (rd_BodyPublicKey r);
  try wgKey <- DecodeWgPublicKey (rd_WGPublicKey r);
  try nonce <- DecodeNonce (rd_BodyNonce r);
  try fs <- redeem_fields r publicKey wgKey nonce;
  try s <- sign k "enrollment.redeem" fs;
  Ok {| rd_Version := rd_Version r; rd_RequestID := rd_RequestID r; rd_CoreID := rd_CoreID r;
        rd_InvitationID := rd_InvitationID r; rd_InvitationSecret := rd_InvitationSecret r;
        rd_BodyPublicKey := rd_BodyPublicKey r; rd_WGPublicKey := rd_WGPublicKey r;
        rd_BodyNonce := rd_BodyNonce r; rd_Metadata := rd_Metadata r; rd_Signature := s |}.

Definition result_fields (r : EnrollmentResultRequest) (publicKey nonce : list byte) :=
  fields [AnyString (er_CoreID r); AnyString (er_RequestID r); AnyBytes publicKey; AnyBytes nonce].

Definition VerifyEnrollmentResult (r : EnrollmentResultRequest) : res signing_error unit :=
  refuse negb (er_Version r =? EnrollmentVersion) with UnsupportedVersion;
  try publicKey <- DecodeBodyPublicKey (er_BodyPublicKey r);
  try nonce <- DecodeNonce (er_BodyNonce r);
  try fs <- result_fields r publicKey nonce;
  verify publicKey "enrollment.result.request" (er_Signature r) fs.

Definition SignEnrollmentResult (k : list byte) (r : EnrollmentResultRequest)
    : res signing_error EnrollmentResultRequest :=
  try publicKey <- DecodeBodyPublicKey (er_BodyPublicKey r);
  try nonce <- DecodeNonce (er_BodyNonce r);
  try fs <- result_fields r publicKey nonce;
  try s <- sign k "enrollment.result.request" fs;
  Ok {| er_Version := er_Version r; er_RequestID := er_RequestID r; er_CoreID := er_CoreID r;
        er_BodyPublicKey := er_BodyPublicKey r; er_BodyNonce := er_BodyNonce r; er_Signature := s |}.

Definition pending_fields (r : EnrollmentPendingResponse) (coreNonce : list byte) :=
  fields [AnyString (ep_CoreID r); AnyString (ep_RequestID r); AnyString (ep_BodyKeyFingerprint r);
          AnyBytes coreNonce; AnyString (ep_ApprovalCode r); AnyString (RFC3339 (ep_ExpiresAt r))].

Definition SignEnrollmentPending (k : list byte) (r : EnrollmentPendingResponse)
    : res signing_error EnrollmentPendingResponse :=
  try coreNonce <- DecodeNonce (ep_CoreNonce r);
  try fs <- pending_fields r coreNonce;
  try s <- sign k "enrollment.pending" fs;
  Ok {| ep_Version := ep_Version r; ep_RequestID := ep_RequestID r; ep_CoreID := ep_CoreID r;
        ep_BodyKeyFingerprint := ep_BodyKeyFingerprint r; ep_CoreNonce := ep_CoreNonce r;
        ep_ApprovalCode := ep_ApprovalCode r; ep_ExpiresAt := ep_ExpiresAt r; ep_Signature := s |}.

Definition VerifyEnrollmentPending (publicKey : list byte) (r : EnrollmentPendingResponse)
    : res signing_error unit :=
  try coreNonce <- DecodeNonce (ep_CoreNonce r);
  try fs <- pending_fields r coreNonce;
  verify publicKey "enrollment.pending" (ep_Signature r) fs.

Definition receipt_fields (r : EnrollmentReceipt) :=
  fields [AnyString (rc_CoreID r); AnyString (rc_RequestID r); AnyString (rc_BodyID r);
          AnyString (rc_BodyPublicKeyFingerprint r); AnyString (rc_MembershipReference r);
          AnyString (RFC3339 (rc_IssuedAt r))].

Definition SignEnrollmentReceipt (k : list byte) (r : EnrollmentReceipt)
    : res signing_error EnrollmentReceipt :=
  try fs <- receipt_fields r;
  try s <- sign k "enrollment.receipt" fs;
  Ok {| rc_Version := rc_Version r; rc_RequestID := rc_RequestID r; rc_Status := rc_Status r;
        rc_BodyID := rc_BodyID r; rc_CoreID := rc_CoreID r;
        rc_BodyPublicKeyFingerprint := rc_BodyPublicKeyFingerprint r;
        rc_Permissions := rc_Permissions r; rc_MembershipReference := rc_MembershipReference r;
        rc_IssuedAt := rc_IssuedAt r; rc_Signature := s |}.

Definition VerifyEnrollmentReceipt (publicKey : list byte) (r : EnrollmentReceipt)
    : res signing_error unit :=
  try fs <- receipt_fields r;
  verify publicKey "enrollment.receipt" (rc_Signature r) fs.

(** *** Body authentication *)

(** The fourth and fifth of six or seven values are nonces. *)
Definition auth_field (count index : nat) (value : string) : res signing_error SignedField :=
  if (bool_decide (count = 7%nat) && (bool_decide (index = 3%nat) || bool_decide (index = 4%nat))) ||
     (bool_decide (count = 6%nat) && (bool_decide (index = 3%nat) || bool_decide (index = 4%nat)))
  then try raw <- DecodeNonce value; RawField raw
  else StringField value.

Fixpoint auth_fields_from (count index : nat) (values : list string)
    : res signing_error (list SignedField) :=
  match values with
  | [] => Ok []
  | v :: rest =>
      try f <- auth_field count index v;
      try fs <- auth_fields_from count (S index) rest;
      Ok (f :: fs)
  end.

Definition authFields (values : list string) : res signing_error (list SignedField) :=
  auth_fields_from (length values) 0 values.

Definition challengeFields (v : Challenge) :=
  authFields [c_CoreID v; c_BodyID v; c_SessionID v; c_BodyNonce v; c_CoreNonce v;
              RFC3339 (c_ExpiresAt v); c_Algorithm v].
Definition proofFields (v : AuthProof) :=
  authFields [p_CoreID v; p_BodyID v; p_SessionID v; p_BodyNonce v; p_CoreNonce v; p_Algorithm v].
Definition acceptFields (v : Accept) :=
  authFields [a_CoreID v; a_BodyID v; a_SessionID v; a_Status v].

(** This package's own [sign] has no key length check. *)
Definition auth_sign (k : list byte) (kind : string) (fs : list SignedField) : res signing_error string :=
  try message <- SignedMessage kind fs;
  try signature <- call_Sign k message;
  Ok (EncodeRawURL signature).

Definition auth_verify (publicKey : list byte) (kind signature : string) (fs : list SignedField)
    : res signing_error unit :=
  try raw <- DecodeSignature signature;
  try message <- SignedMessage kind fs;
  try ok <- call_Verify publicKey message raw;
  refuse negb ok with InvalidProof;
  Ok tt.

Definition SignChallenge (k : list byte) (v : Challenge) : res signing_error Challenge :=
  try fs <- challengeFields v;
  try s <- auth_sign k TypeChallenge fs;
  Ok {| c_Version := c_Version v; c_Type := c_Type v; c_CoreID := c_CoreID v; c_BodyID := c_BodyID v;
        c_SessionID := c_SessionID v; c_BodyNonce := c_BodyNonce v; c_CoreNonce := c_CoreNonce v;
        c_ExpiresAt := c_ExpiresAt v; c_Algorithm := c_Algorithm v; c_Signature := s |}.

Definition VerifyChallenge (pk : list byte) (v : Challenge) : res signing_error unit :=
  try fs <- challengeFields v;
  auth_verify pk TypeChallenge (c_Signature v) fs.

Definition SignProof (k : list byte) (v : AuthProof) : res signing_error AuthProof :=
  try fs <- proofFields v;
  try s <- auth_sign k TypeProof fs;
  Ok {| p_Version := p_Version v; p_Type := p_Type v; p_CoreID := p_CoreID v; p_BodyID := p_BodyID v;
        p_SessionID := p_SessionID v; p_BodyNonce := p_BodyNonce v; p_CoreNonce := p_CoreNonce v;
        p_Algorithm := p_Algorithm v; p_Signature := s |}.

Definition VerifyProof (pk : list byte) (v : AuthProof) : res signing_error unit :=
  try fs <- proofFields v;
  auth_verify pk TypeProof (p_Signature v) fs.

Definition SignAccept (k : list byte) (v : Accept) : res signing_error Accept :=
  try fs <- acceptFields v;
  try s <- auth_sign k TypeAccept fs;
  Ok {| a_Version := a_Version v; a_Type := a_Type v; a_CoreID := a_CoreID v; a_BodyID := a_BodyID v;
        a_SessionID := a_SessionID v; a_Status := a_Status v; a_Signature := s |}.

Definition VerifyAccept (pk : list byte) (v : Accept) : res signing_error unit :=
  try fs <- acceptFields v;
  auth_verify pk TypeAccept (a_Signature v) fs.

End signing.

(** ** Lemmas *)

Lemma bytes_of_inj s t : bytes_of s = bytes_of t -> s = t.
Proof.
  intros Heq. apply (f_equal String.string_of_list_byte) in Heq.
  unfold bytes_of in Heq. by rewrite !String.string_of_list_byte_of_string in Heq.
Qed.

Definition good_length (f : SignedField) : Prop := 1 <= len (sf_Value f) <= 256.

Lemma bad_length_false f : bad_length f = false <-> good_length f.
Proof.
  unfold bad_length, good_length, maxSignedString.
  rewrite orb_false_iff, Z.eqb_neq, Z.ltb_ge. pose proof (len_nonneg (sf_Value f)). lia.
Qed.

Lemma StringField_inv s f : StringField s = Ok f -> f = {| sf_Value := bytes_of s |} /\ good_length f.
Proof.
  unfold StringField. destruct (_ || _) eqn:E; [done|]. intros [= <-]. split; [done|].
  apply orb_false_iff in E as [E1 E2]. apply empty_str_false in E1. unfold good_length, maxSignedString in *.
  simpl. bool_props. split; [|lia]. destruct s as [|c s]; [done|]. unfold len, bytes_of. simpl. lia.
Qed.

Lemma RawField_inv b f : RawField b = Ok f -> f = {| sf_Value := b |}.
Proof. unfold RawField. destruct (_ || _); [done|]. by intros [= <-]. Qed.

(** The transcript as one concatenation. *)
Definition framed (f : SignedField) : list byte := be_put 4 (len (sf_Value f)) ++ sf_Value f.

Lemma append_fields fs dst :
  Forall good_length fs ->
  fold_left (fun m f => appendField m (sf_Value f)) fs dst = dst ++ concat (framed <$> fs).
Proof.
  intros Hfs. revert dst. induction Hfs as [|f fs Hf Hfs IH]; intros dst; simpl; [by rewrite app_nil_r|].
  rewrite IH. unfold appendField, framed. rewrite u32_small by (unfold good_length in Hf; lia).
  by rewrite <- !app_assoc.
Qed.

Lemma SignedMessage_inv t fs m :
  SignedMessage t fs = Ok m ->
  Forall good_length ({| sf_Value := bytes_of t |} :: fs) /\
  m = signingDomain ++ concat (framed <$> ({| sf_Value := bytes_of t |} :: fs)).
Proof.
  unfold SignedMessage. destruct (StringField t) as [f|] eqn:Ef; simpl; [|done].
  apply StringField_inv in Ef as [-> Hf]. destruct (existsb bad_length fs) eqn:E; [done|].
  assert (Hfs : Forall good_length fs).
  { apply Forall_forall. intros f Hin. apply bad_length_false.
    destruct (bad_length f) eqn:Eb; [|done]. rewrite <- E. symmetry. apply existsb_exists.
    exists f. by rewrite <- list_elem_of_In. }
  intros [= <-]. split; [by constructor|].
  exact (append_fields ({| sf_Value := bytes_of t |} :: fs) signingDomain ltac:(by constructor)).
Qed.

Lemma framed_app_inj f f' l l' :
  good_length f -> good_length f' -> framed f ++ l = framed f' ++ l' -> f = f' /\ l = l'.
Proof.
  unfold framed, good_length. intros Hf Hf' Heq. rewrite <- !app_assoc in Heq.
  apply app_inj_1 in Heq as [Hl Heq]; [|by rewrite !length_be_put].
  apply (f_equal be_get) in Hl. rewrite !be_get_put in Hl.
  change (256 ^ Z.of_nat 4) with 4294967296 in Hl. rewrite !Z.mod_small in Hl by lia.
  apply app_inj_1 in Heq as [Hv Heq]; [|unfold len in Hl; lia].
  destruct f, f'. simpl in Hv. by subst.
Qed.

Lemma framed_inj fs fs' :
  Forall good_length fs -> Forall good_length fs' ->
  concat (framed <$> fs) = concat (framed <$> fs') -> fs = fs'.
Proof.
  assert (Hne : forall f l, framed f ++ l <> []).
  { intros f l Heq. apply (f_equal length) in Heq. unfold framed in Heq.
    rewrite !length_app, length_be_put in Heq. simpl in Heq. lia. }
  intros Hfs. revert fs'. induction Hfs as [|f fs Hf Hfs IH]; intros [|f' fs'] Hfs' Heq; simpl in Heq;
    [done|by destruct (Hne _ _ (eq_sym Heq))|by destruct (Hne _ _ Heq)|].
  apply Forall_cons in Hfs' as [Hf' Hfs']. apply framed_app_inj in Heq as [<- Heq]; [|done..].
  f_equal. by apply IH.
Qed.

Lemma transcript_inj t fs t' fs' m :
  SignedMessage t fs = Ok m -> SignedMessage t' fs' = Ok m -> t = t' /\ fs = fs'.
Proof.
  intros [Hg ->]%SignedMessage_inv [Hg' Heq]%SignedMessage_inv. apply app_inv_head in Heq.
  apply framed_inj in Heq as [= Ht Hfs]; [|done..]. split; [by apply bytes_of_inj|done].
Qed.

(** Strings that fit a signed field. *)
Definition signable (s : string) : Prop := 1 <= len (bytes_of s) <= 256.

Lemma StringField_ok s : signable s -> StringField s = Ok {| sf_Value := bytes_of s |}.
Proof.
  intros [H1 H2]. unfold StringField, maxSignedString. rewrite (proj2 (Z.ltb_ge _ _)) by lia.
  destruct s; [unfold len in H1; simpl in H1; lia|done].
Qed.

Lemma RawField_ok b : 1 <= len b <= 256 -> RawField b = Ok {| sf_Value := b |}.
Proof.
  intros [H1 H2]. unfold RawField, maxSignedString.
  by rewrite (proj2 (Z.ltb_ge _ _)), (proj2 (Z.eqb_neq _ _)) by lia.
Qed.

Lemma SignedMessage_ok t fs : signable t -> Forall good_length fs -> exists m, SignedMessage t fs = Ok m.
Proof.
  intros Ht Hfs. unfold SignedMessage. rewrite (StringField_ok t Ht). cbn [res_bind].
  replace (existsb bad_length fs) with false; [eauto|]. symmetry. apply not_true_iff_false.
  intros (f & Hin & Hb)%existsb_exists. rewrite <- list_elem_of_In in Hin. rewrite Forall_forall in Hfs.
  specialize (Hfs _ Hin). apply bad_length_false in Hfs. congruence.
Qed.

(** Nonces as they are sent. *)
Lemma DecodeNonce_encoded b : len b = 32 -> DecodeNonce (EncodeRawURL b) = Ok b.
Proof.
  intros Hb. unfold DecodeNonce, decode_sized, EncodeRawURL, nonceSize. rewrite RawURL_roundtrip.
  by rewrite (proj2 (Z.eqb_eq _ _) Hb).
Qed.

Lemma auth_fields_ok count index vs :
  Forall2 (fun i v => if (bool_decide (count = 7%nat) && (bool_decide (i = 3%nat) || bool_decide (i = 4%nat))) ||
                         (bool_decide (count = 6%nat) && (bool_decide (i = 3%nat) || bool_decide (i = 4%nat)))
                      then exists raw, DecodeNonce v = Ok raw /\ len raw = 32 else signable v)
    (seq index (length vs)) vs ->
  exists fs, auth_fields_from count index vs = Ok fs /\ Forall good_length fs.
Proof.
  revert index. induction vs as [|v vs IH]; intros index Hall; [by exists []|]. simpl in *.
  apply Forall2_cons in Hall as [Hv Hall]. destruct (IH _ Hall) as (fs & -> & Hfs). unfold auth_field.
  destruct (_ || _).
  - destruct Hv as (raw & -> & Hl). simpl. rewrite RawField_ok by lia. simpl. eexists. split; [done|].
    constructor; [|done]. unfold good_length. simpl. lia.
  - rewrite StringField_ok by done. simpl. eexists. split; [done|]. by constructor.
Qed.

Section signing_lemmas.
Context `{Hed : Ed25519}.

(** The package [authentication] verifies the way [dollnetwork] does. *)
Lemma auth_verify_verify pk t s fs : auth_verify pk t s fs = verify pk t s fs.
Proof. done. Qed.

Lemma verify_inv pk t s fs :
  verify pk t s fs = Ok tt ->
  exists sig m, DecodeSignature s = Ok sig /\ SignedMessage t fs = Ok m /\ ed_Verify pk m sig = true.
Proof.
  unfold verify. destruct (DecodeSignature s) as [sig|]; simpl; [|done].
  destruct (SignedMessage t fs) as [m|]; simpl; [|done]. unfold call_Verify.
  destruct (negb _); simpl; [done|]. destruct (ed_Verify pk m sig) eqn:E; simpl; [|done]. eauto.
Qed.

Context `{!Ed25519Laws}.

Lemma sign_verify seed t fs s :
  len seed = 32 -> sign (NewKeyFromSeed seed) t fs = Ok s ->
  verify (Public (NewKeyFromSeed seed)) t s fs = Ok tt.
Proof using All.
  intros Hs. pose proof (key_length seed Hs) as Hk. unfold sign, verify.
  destruct (negb _); [done|]. destruct (SignedMessage t fs) as [m|]; simpl; [|done].
  unfold call_Sign. destruct (negb _); simpl; [done|]. intros [= <-].
  unfold DecodeSignature, decode_sized, EncodeRawURL. rewrite RawURL_roundtrip.
  rewrite (proj2 (Z.eqb_eq _ _) (signature_length _ _)). simpl. unfold call_Verify.
  replace (len (Public _) =? PublicKeySize) with true; simpl.
  - by rewrite signature_verifies.
  - symmetry. apply Z.eqb_eq. unfold len, Public, PrivateKeySize, PublicKeySize in *.
    rewrite length_drop. lia.
Qed.

Lemma auth_sign_ok seed t fs :
  len seed = 32 -> signable t -> Forall good_length fs -> exists s, auth_sign (NewKeyFromSeed seed) t fs = Ok s.
Proof using All.
  intros Hs Ht Hfs. destruct (SignedMessage_ok t fs Ht Hfs) as [m Hm]. unfold auth_sign. rewrite Hm. simpl.
  unfold call_Sign. rewrite (proj2 (Z.eqb_eq _ _) (key_length seed Hs)). simpl. eauto.
Qed.

Lemma auth_sign_verify seed t fs s :
  len seed = 32 -> auth_sign (NewKeyFromSeed seed) t fs = Ok s ->
  auth_verify (Public (NewKeyFromSeed seed)) t s fs = Ok tt.
Proof using All.
  intros Hs Heq. rewrite auth_verify_verify. apply sign_verify; [done|]. unfold sign.
  rewrite (proj2 (Z.eqb_eq _ _) (key_length seed Hs)). done.
Qed.

End signing_lemmas.

(** ** Properties *)

(** Peels the field preparation shared by a message's sign and verify. *)
Ltac prepared :=
  repeat match goal with
  | |- context [res_bind ?m _] => destruct m eqn:?; cbn [res_bind]; [|done]
  end.

(** A signature scheme with the laws but no security, for examples: the
    signature is two hashes of the public key and the message. *)
Definition demo_signature (pk m : list byte) : list byte := sha256 (pk ++ m) ++ sha256 (m ++ pk).

#[export] Instance demo_ed25519 : Ed25519 := {|
  NewKeyFromSeed seed := seed ++ sha256 seed;
  ed_Sign k m := demo_signature (Public k) m;
  ed_Verify pk m sig := bool_decide (sig = demo_signature pk m);
|}.

#[export] Instance demo_ed25519_laws : Ed25519Laws.
Proof.
  split.
  - intros seed Hs. unfold len in *. simpl. rewrite length_app, length_sha256.
    unfold PrivateKeySize. lia.
  - intros k m. unfold len. simpl. unfold demo_signature. by rewrite length_app, !length_sha256.
  - intros seed m Hs. simpl. by apply bool_decide_eq_true_2.
Qed.

Definition demo_seed (b : byte) : list byte := replicate 32 b.
Definition demo_nonce (b : byte) : string := EncodeRawURL (demo_seed b).
Definition demo_key (b : byte) : list byte := NewKeyFromSeed (demo_seed b).
Definition demo_public (b : byte) : string := EncodeRawURL (Public (demo_key b)).

(** The bytes a value contributes. *)
Definition payload (v : any_value) : list byte :=
  match v with AnyString s => bytes_of s | AnyBytes b => b end.

Lemma fields_inv vs fs : fields vs = Ok fs -> sf_Value <$> fs = payload <$> vs.
Proof.
  revert fs. induction vs as [|v vs IH]; intros fs; simpl; [by intros [= <-]|].
  destruct (value_field v) as [f|] eqn:Ef; simpl; [|done].
  destruct (fields vs) as [fs'|]; simpl; [|done]. intros [= <-]. simpl. f_equal; [|by apply IH].
  destruct v; [by apply StringField_inv in Ef as [-> _]|by apply RawField_inv in Ef as ->].
Qed.

Lemma nonce_field_inv v f :
  (try raw <- DecodeNonce v; RawField raw) = Ok f ->
  exists raw, DecodeNonce v = Ok raw /\ f = {| sf_Value := raw |}.
Proof.
  destruct (DecodeNonce v) as [raw|]; simpl; [|done]. intros ->%RawField_inv. eauto.
Qed.

#[local] Arguments fields : simpl never.
#[local] Arguments authFields : simpl never.

Section properties.
Context `{Hed : Ed25519, !Ed25519Laws}.

(** What is signed verifies, for the three messages of the handshake. *)
Lemma handshake_verifies seed :
  len seed = 32 ->
  (forall v v', SignChallenge (NewKeyFromSeed seed) v = Ok v' -> VerifyChallenge (Public (NewKeyFromSeed seed)) v' = Ok tt) /\
  (forall v v', SignProof (NewKeyFromSeed seed) v = Ok v' -> VerifyProof (Public (NewKeyFromSeed seed)) v' = Ok tt) /\
  (forall v v', SignAccept (NewKeyFromSeed seed) v = Ok v' -> VerifyAccept (Public (NewKeyFromSeed seed)) v' = Ok tt).
Proof using All.
  intros Hs. split_and!; intros v v'.
  - unfold SignChallenge, VerifyChallenge. destruct (challengeFields v) eqn:E; [|done]. cbn [res_bind].
    destruct (auth_sign _ _ _) eqn:Ea; [|done]. intros [= <-]. unfold challengeFields in *. simpl in *.
    rewrite E. by apply auth_sign_verify.
  - unfold SignProof, VerifyProof. destruct (proofFields v) eqn:E; [|done]. cbn [res_bind].
    destruct (auth_sign _ _ _) eqn:Ea; [|done]. intros [= <-]. unfold proofFields in *. simpl in *.
    rewrite E. by apply auth_sign_verify.
  - unfold SignAccept, VerifyAccept. destruct (acceptFields v) eqn:E; [|done]. cbn [res_bind].
    destruct (auth_sign _ _ _) eqn:Ea; [|done]. intros [= <-]. unfold acceptFields in *. simpl in *.
    rewrite E. by apply auth_sign_verify.
Qed.

(** What a key signs, it verifies.  With a key pair made from a 32-byte seed,
    every message the Body or the Core manages to sign (the three enrollment
    requests, whose public key field must be the signer's and whose version is
    the current one; the pending response and the receipt; the authentication
    challenge, proof and acceptance) is accepted by the matching verification
    function under the public half. *)
Theorem signed_messages_verify (seed : list byte) :
  len seed = 32 ->
  let k := NewKeyFromSeed seed in
  let pk := Public k in
  (forall r r', eb_Version r = EnrollmentVersion -> DecodeBodyPublicKey (eb_BodyPublicKey r) = Ok pk ->
    SignEnrollmentBegin k r = Ok r' -> VerifyEnrollmentBegin r' = Ok tt) /\
  (forall r r', rd_Version r = EnrollmentVersion -> DecodeBodyPublicKey (rd_BodyPublicKey r) = Ok pk ->
    SignEnrollmentRedeem k r = Ok r' -> VerifyEnrollmentRedeem r' = Ok tt) /\
  (forall r r', er_Version r = EnrollmentVersion -> DecodeBodyPublicKey (er_BodyPublicKey r) = Ok pk ->
    SignEnrollmentResult k r = Ok r' -> VerifyEnrollmentResult r' = Ok tt) /\
  (forall r r', SignEnrollmentPending k r = Ok r' -> VerifyEnrollmentPending pk r' = Ok tt) /\
  (forall r r', SignEnrollmentReceipt k r = Ok r' -> VerifyEnrollmentReceipt pk r' = Ok tt) /\
  (forall v v', SignChallenge k v = Ok v' -> VerifyChallenge pk v' = Ok tt) /\
  (forall v v', SignProof k v = Ok v' -> VerifyProof pk v' = Ok tt) /\
  (forall v v', SignAccept k v = Ok v' -> VerifyAccept pk v' = Ok tt).
Proof using All.
  intros Hs k pk. split_and!.
  - intros r r' Hv Hpk. unfold SignEnrollmentBegin. prepared. intros [= <-].
    unfold VerifyEnrollmentBegin, enrollmentKeyProofFields in *. simpl. rewrite Hpk in *. rewrite Hv, Z.eqb_refl. simplify_eq/=.
    rewrite Heqr0, Heqr1, Heqr2. simpl. rewrite Heqr3. by apply sign_verify.
  - intros r r' Hv Hpk. unfold SignEnrollmentRedeem. prepared. intros [= <-].
    unfold VerifyEnrollmentRedeem, redeem_fields in *. simpl. rewrite Hpk in *. rewrite Hv, Z.eqb_refl. simplify_eq/=.
    rewrite Heqr0, Heqr1, Heqr2. simpl. rewrite Heqr3. by apply sign_verify.
  - intros r r' Hv Hpk. unfold SignEnrollmentResult. prepared. intros [= <-].
    unfold VerifyEnrollmentResult, result_fields in *. simpl. rewrite Hpk in *. rewrite Hv, Z.eqb_refl. simplify_eq/=.
    rewrite Heqr0, Heqr1. simpl. rewrite Heqr2. by apply sign_verify.
  - intros r r'. unfold SignEnrollmentPending. prepared. intros [= <-].
    unfold VerifyEnrollmentPending, pending_fields in *. simpl. rewrite Heqr0. simpl. rewrite Heqr1.
    by apply sign_verify.
  - intros r r'. unfold SignEnrollmentReceipt. prepared. intros [= <-].
    unfold VerifyEnrollmentReceipt, receipt_fields in *. simpl. rewrite Heqr0. by apply sign_verify.
  - by apply handshake_verifies.
  - by apply handshake_verifies.
  - by apply handshake_verifies.
Qed.

(** ** The signed messages, all together *)

Inductive message :=
| MBegin (r : EnrollmentBeginRequest) | MRedeem (r : EnrollmentRedeemRequest) | MResult (r : EnrollmentResultRequest)
| MPending (r : EnrollmentPendingResponse) | MReceipt (r : EnrollmentReceipt)
| MChallenge (v : Challenge) | MProof (v : AuthProof) | MAccept (v : Accept).

Definition signature_of (m : message) : string :=
  match m with
  | MBegin r => eb_Signature r | MRedeem r => rd_Signature r | MResult r => er_Signature r | MPending r => ep_Signature r
  | MReceipt r => rc_Signature r | MChallenge v => c_Signature v | MProof v => p_Signature v | MAccept v => a_Signature v
  end.

(** The message is accepted under [pk]; the requests of a Body carry the key they are verified with. *)
Definition accepted (pk : list byte) (m : message) : Prop :=
  match m with
  | MBegin r => DecodeBodyPublicKey (eb_BodyPublicKey r) = Ok pk /\ VerifyEnrollmentBegin r = Ok tt
  | MRedeem r => DecodeBodyPublicKey (rd_BodyPublicKey r) = Ok pk /\ VerifyEnrollmentRedeem r = Ok tt
  | MResult r => DecodeBodyPublicKey (er_BodyPublicKey r) = Ok pk /\ VerifyEnrollmentResult r = Ok tt
  | MPending r => VerifyEnrollmentPending pk r = Ok tt
  | MReceipt r => VerifyEnrollmentReceipt pk r = Ok tt
  | MChallenge v => VerifyChallenge pk v = Ok tt
  | MProof v => VerifyProof pk v = Ok tt
  | MAccept v => VerifyAccept pk v = Ok tt
  end.

Definition same_second (t u : time) : Prop := in_calendar t -> in_calendar u -> t / second = u / second.
Definition same_nonce (n n' : string) : Prop := DecodeNonce n = DecodeNonce n'.

(** The messages are of one type and agree on everything the signature covers. *)
Definition same_contents (m m' : message) : Prop :=
  match m, m' with
  | MBegin r, MBegin r' => eb_CoreID r = eb_CoreID r' /\ eb_RequestID r = eb_RequestID r' /\
      DecodeWgPublicKey (eb_WGPublicKey r) = DecodeWgPublicKey (eb_WGPublicKey r') /\ same_nonce (eb_BodyNonce r) (eb_BodyNonce r')
  | MRedeem r, MRedeem r' => rd_CoreID r = rd_CoreID r' /\ rd_RequestID r = rd_RequestID r' /\
      rd_InvitationID r = rd_InvitationID r' /\ rd_InvitationSecret r = rd_InvitationSecret r' /\
      DecodeWgPublicKey (rd_WGPublicKey r) = DecodeWgPublicKey (rd_WGPublicKey r') /\ same_nonce (rd_BodyNonce r) (rd_BodyNonce r')
  | MResult r, MResult r' => er_CoreID r = er_CoreID r' /\ er_RequestID r = er_RequestID r' /\ same_nonce (er_BodyNonce r) (er_BodyNonce r')
  | MPending r, MPending r' => ep_CoreID r = ep_CoreID r' /\ ep_RequestID r = ep_RequestID r' /\
      ep_BodyKeyFingerprint r = ep_BodyKeyFingerprint r' /\ same_nonce (ep_CoreNonce r) (ep_CoreNonce r') /\
      ep_ApprovalCode r = ep_ApprovalCode r' /\ same_second (ep_ExpiresAt r) (ep_ExpiresAt r')
  | MReceipt r, MReceipt r' => rc_CoreID r = rc_CoreID r' /\ rc_RequestID r = rc_RequestID r' /\ rc_BodyID r = rc_BodyID r' /\
      rc_BodyPublicKeyFingerprint r = rc_BodyPublicKeyFingerprint r' /\
      rc_MembershipReference r = rc_MembershipReference r' /\ same_second (rc_IssuedAt r) (rc_IssuedAt r')
  | MChallenge v, MChallenge v' => c_CoreID v = c_CoreID v' /\ c_BodyID v = c_BodyID v' /\ c_SessionID v = c_SessionID v' /\
      same_nonce (c_BodyNonce v) (c_BodyNonce v') /\ same_nonce (c_CoreNonce v) (c_CoreNonce v') /\
      same_second (c_ExpiresAt v) (c_ExpiresAt v') /\ c_Algorithm v = c_Algorithm v'
  | MProof v, MProof v' => p_CoreID v = p_CoreID v' /\ p_BodyID v = p_BodyID v' /\ p_SessionID v = p_SessionID v' /\
      same_nonce (p_BodyNonce v) (p_BodyNonce v') /\ same_nonce (p_CoreNonce v) (p_CoreNonce v') /\ p_Algorithm v = p_Algorithm v'
  | MAccept v, MAccept v' => a_CoreID v = a_CoreID v' /\ a_BodyID v = a_BodyID v' /\ a_SessionID v = a_SessionID v' /\
      a_Status v = a_Status v'
  | _, _ => False
  end.

Definition kind_of (m : message) : string :=
  match m with
  | MBegin _ => "enrollment.begin" | MRedeem _ => "enrollment.redeem" | MResult _ => "enrollment.result.request"
  | MPending _ => "enrollment.pending" | MReceipt _ => "enrollment.receipt"
  | MChallenge _ => TypeChallenge | MProof _ => TypeProof | MAccept _ => TypeAccept
  end.

(** The fields a signature of the message covers, and the bytes that are signed. *)
Definition fields_of (m : message) : res signing_error (list SignedField) :=
  match m with
  | MBegin r => try k <- DecodeBodyPublicKey (eb_BodyPublicKey r); try wg <- DecodeWgPublicKey (eb_WGPublicKey r);
                try n <- DecodeNonce (eb_BodyNonce r); enrollmentKeyProofFields (eb_CoreID r) (eb_RequestID r) k wg n
  | MRedeem r => try k <- DecodeBodyPublicKey (rd_BodyPublicKey r); try wg <- DecodeWgPublicKey (rd_WGPublicKey r);
                 try n <- DecodeNonce (rd_BodyNonce r); redeem_fields r k wg n
  | MResult r => try k <- DecodeBodyPublicKey (er_BodyPublicKey r); try n <- DecodeNonce (er_BodyNonce r); result_fields r k n
  | MPending r => try n <- DecodeNonce (ep_CoreNonce r); pending_fields r n
  | MReceipt r => receipt_fields r
  | MChallenge v => challengeFields v
  | MProof v => proofFields v
  | MAccept v => acceptFields v
  end.

Definition transcript (m : message) : res signing_error (list byte) :=
  try fs <- fields_of m; SignedMessage (kind_of m) fs.

(** The signature of [m] verifies two different byte strings under [pk]: what is signed of [m] and of [m']. *)
Definition forged (pk : list byte) (m m' : message) : Prop :=
  exists t t' sig, transcript m = Ok t /\ transcript m' = Ok t' /\ t <> t' /\ DecodeSignature (signature_of m) = Ok sig /\
    ed_Verify pk t sig = true /\ ed_Verify pk t' sig = true.

Lemma accepted_verifies pk m :
  accepted pk m -> exists fs, fields_of m = Ok fs /\ verify pk (kind_of m) (signature_of m) fs = Ok tt.
Proof.
  destruct m as [r|r|r|r|r|v|v|v]; simpl.
  - intros [Hk Hv]. revert Hv. unfold VerifyEnrollmentBegin. rewrite Hk. destruct (negb _); [done|]. cbn [res_bind]. prepared. eauto.
  - intros [Hk Hv]. revert Hv. unfold VerifyEnrollmentRedeem. rewrite Hk. destruct (negb _); [done|]. cbn [res_bind]. prepared. eauto.
  - intros [Hk Hv]. revert Hv. unfold VerifyEnrollmentResult. rewrite Hk. destruct (negb _); [done|]. cbn [res_bind]. prepared. eauto.
  - unfold VerifyEnrollmentPending. prepared. eauto.
  - unfold VerifyEnrollmentReceipt. prepared. eauto.
  - unfold VerifyChallenge. prepared. rewrite auth_verify_verify. eauto.
  - unfold VerifyProof. prepared. rewrite auth_verify_verify. eauto.
  - unfold VerifyAccept. prepared. rewrite auth_verify_verify. eauto.
Qed.

(** A text and a nonce, in the field that carries it. *)
Definition text_in (s : string) (f : SignedField) : Prop := bytes_of s = sf_Value f.
Definition nonce_in (s : string) (f : SignedField) : Prop := DecodeNonce s = Ok (sf_Value f).

Lemma text_in_inj s s' f : text_in s f -> text_in s' f -> s = s'.
Proof. unfold text_in. intros <- Heq. by apply bytes_of_inj in Heq. Qed.

Lemma nonce_in_inj s s' f : nonce_in s f -> nonce_in s' f -> same_nonce s s'.
Proof. unfold nonce_in, same_nonce. congruence. Qed.

Lemma time_in_inj t t' f : text_in (RFC3339 t) f -> text_in (RFC3339 t') f -> same_second t t'.
Proof. intros H1 H2 Hc Hc'. apply RFC3339_inj; [done..|]. by eapply text_in_inj. Qed.

Lemma field_text s f : StringField s = Ok f -> text_in s f.
Proof. by intros [-> _]%StringField_inv. Qed.

Lemma field_nonce s f : (try raw <- DecodeNonce s; RawField raw) = Ok f -> nonce_in s f.
Proof. by intros (raw & Hraw & ->)%nonce_field_inv. Qed.

(** What the fields of [fields] and of [authFields] say. *)
Lemma fields_payload vs vs' fs : fields vs = Ok fs -> fields vs' = Ok fs -> payload <$> vs = payload <$> vs'.
Proof. intros H1%fields_inv H2%fields_inv. congruence. Qed.

#[local] Ltac texts := repeat match goal with
  | H : bytes_of _ = bytes_of _ |- _ => apply bytes_of_inj in H
  | H : _ :: _ = _ :: _ |- _ => injection H as; subst
  end.

Lemma same_nonce_ok n n' raw : DecodeNonce n = Ok raw -> DecodeNonce n' = Ok raw -> same_nonce n n'.
Proof. unfold same_nonce. congruence. Qed.

Lemma same_time_ok t t' : RFC3339 t = RFC3339 t' -> same_second t t'.
Proof. intros Heq Hc Hc'. by apply RFC3339_inj. Qed.

(** The fields of a challenge, a proof and an acceptance, one by one. *)
#[local] Ltac auth_fields H :=
  unfold challengeFields, proofFields, acceptFields, authFields in H; cbn [length auth_fields_from] in H; unfold auth_field in H;
  repeat match type of H with context [bool_decide (?a = ?b :> nat)] =>
    let r := eval vm_compute in (bool_decide (a = b)) in change (bool_decide (a = b)) with r in H end; cbn [andb orb] in H;
  repeat match type of H with
  | context [res_bind (StringField ?x) _] => let E := fresh "T" in destruct (StringField x) eqn:E; cbn [res_bind] in H; [|done]; apply field_text in E
  | context [res_bind (res_bind (DecodeNonce ?x) ?g) _] =>
      let E := fresh "T" in destruct (res_bind (DecodeNonce x) g) eqn:E; cbn [res_bind] in H; [|done]; apply field_nonce in E
  end.

(** Messages with the same fields have the same contents, if they are of one type. *)
Lemma same_fields m m' fs :
  kind_of m = kind_of m' -> fields_of m = Ok fs -> fields_of m' = Ok fs -> same_contents m m'.
Proof.
  intros Hk Hf Hf'. destruct m as [r|r|r|r|r|v|v|v], m' as [r'|r'|r'|r'|r'|v'|v'|v']; try discriminate Hk; clear Hk;
    cbn [fields_of same_contents] in *.
  6-8: auth_fields Hf; auth_fields Hf'; simplify_eq;
    split_and?; eauto using text_in_inj, nonce_in_inj, time_in_inj.
  1-5: revert Hf Hf'; prepared; intros Hf; prepared; intros Hf';
    unfold enrollmentKeyProofFields, redeem_fields, result_fields, pending_fields, receipt_fields in *;
    pose proof (fields_payload _ _ _ Hf Hf') as Hp; simpl in Hp; texts;
    split_and?; try done; try congruence; eauto using same_nonce_ok, same_time_ok.
Qed.

(** C30: a signature commits to the signed contents of one message.  If one
    signature is accepted under a key on two signed messages - enrollment begin,
    redeem, result request, pending response and receipt, authentication
    challenge, proof and acceptance - then they are of the same type and agree on
    every value the signature covers: identifiers and texts exactly, keys and
    nonces as decoded, times to the second.  The only way out is that the
    signature verifies the two byte strings signed for these two messages although
    they differ, which is a forgery against Ed25519.  Versions, metadata, the
    status and the permissions of a receipt are not signed. *)
Theorem signature_binds_contents pk m m' :
  DecodeSignature (signature_of m) = DecodeSignature (signature_of m') -> accepted pk m -> accepted pk m' ->
  same_contents m m' \/ forged pk m m'.
Proof.
  intros Hs (fs & Hf & Hv)%accepted_verifies (fs' & Hf' & Hv')%accepted_verifies.
  apply verify_inv in Hv as (sig & t & Hsig & Ht & Ve). apply verify_inv in Hv' as (sig' & t' & Hsig' & Ht' & Ve').
  rewrite Hs, Hsig' in Hsig. injection Hsig as ->. destruct (decide (t = t')) as [<-|Hne].
  - left. destruct (transcript_inj _ _ _ _ _ Ht Ht') as [Hk <-]. by eapply same_fields.
  - right. exists t, t', sig. unfold transcript. rewrite Hf, Hf', Hs. by split_and!.
Qed.

End properties.

(** The Core's receipt for a Body, and its signed form. *)
Definition demo_receipt : EnrollmentReceipt := {|
  rc_Version := 1; rc_RequestID := "r1"; rc_Status := "enrolled"; rc_BodyID := "body_1"; rc_CoreID := "core_1";
  rc_BodyPublicKeyFingerprint := "ff"; rc_Permissions := ["chat"]; rc_MembershipReference := "peer_1";
  rc_IssuedAt := 63271811045 * second; rc_Signature := "" |}.

Definition demo_signed_receipt : EnrollmentReceipt :=
  match SignEnrollmentReceipt (demo_key x05) demo_receipt with Ok r => r | Err _ => demo_receipt end.

Lemma signed_messages_verify_witness :
  VerifyEnrollmentReceipt (Public (demo_key x05)) demo_signed_receipt = Ok tt.
Proof.
  apply (signed_messages_verify (demo_seed x05) ltac:(reflexivity)) with (r := demo_receipt).
  vm_compute. reflexivity.
Defined.

(** The same receipt, granting more. *)
Definition demo_altered_receipt : EnrollmentReceipt := {|
  rc_Version := 1; rc_RequestID := "r1"; rc_Status := "enrolled"; rc_BodyID := "body_1"; rc_CoreID := "core_1";
  rc_BodyPublicKeyFingerprint := "ff"; rc_Permissions := ["chat"; "files"]; rc_MembershipReference := "peer_1";
  rc_IssuedAt := 63271811045 * second; rc_Signature := rc_Signature demo_signed_receipt |}.

(** Its permissions can be changed under the signature, and nothing else is. *)
Lemma signature_binds_contents_witness :
  rc_Permissions demo_signed_receipt = ["chat"] /\ rc_Permissions demo_altered_receipt = ["chat"; "files"] /\
  VerifyEnrollmentReceipt (Public (demo_key x05)) demo_altered_receipt = Ok tt /\
  same_contents (MReceipt demo_signed_receipt) (MReceipt demo_altered_receipt).
Proof.
  assert (Hv : VerifyEnrollmentReceipt (Public (demo_key x05)) demo_signed_receipt = Ok tt) by (vm_compute; reflexivity).
  assert (Hv' : VerifyEnrollmentReceipt (Public (demo_key x05)) demo_altered_receipt = Ok tt) by (vm_compute; reflexivity).
  assert (Hs : DecodeSignature (signature_of (MReceipt demo_signed_receipt)) =
               DecodeSignature (signature_of (MReceipt demo_altered_receipt))) by (vm_compute; reflexivity).
  assert (Ht : transcript (MReceipt demo_signed_receipt) = transcript (MReceipt demo_altered_receipt)) by (vm_compute; reflexivity).
  split; [vm_compute; reflexivity|]. split; [reflexivity|]. split; [exact Hv'|].
  destruct (signature_binds_contents (Public (demo_key x05)) (MReceipt demo_signed_receipt) (MReceipt demo_altered_receipt)
    Hs Hv Hv') as [Hc|(t & t' & sig & Hm & Hm' & Hne & _)]; [exact Hc|].
  exfalso. apply Hne. rewrite Ht, Hm' in Hm. injection Hm as <-. reflexivity.
Defined.
