(* ===== verification/Pairing.v ===== *)
(** * Pairing a Body with the Core

    Models [src/Core/Pairing] (service.go, authorizer.go, the status codes of
    handler.go) and the request validation of [src/DollNetwork/pairing.go].  The
    state of the service is the network in memory, the table that persists it
    and an invitation store behind the interface of [Invitation].

    The service serialises its own calls; the invitation store is shared, so
    other callers' operations on it may fall between validation and the rest of
    a call ([pe_meanwhile]).  A failing write of the membership table is an input
    of the call.  Addresses in the response stay in binary form, error texts are
    left out, and the parsed request is the handler's input. *)
From S2P Require Import Prelude GoBytes Network Invitation Signing.
From stdpp Require Import options.

(** ** Requests and responses *)

Definition ProtocolVersion : Z := 1.

Record PairRequest := {
  pr_Version : Z;
  pr_InvitationID : string;
  pr_Secret : string;
  pr_BodyID : string;
  pr_Name : string;
  pr_Implementation : string;
  pr_Platform : string;
  pr_Arch : string;
  pr_WireGuardPublicKey : string;
}.

Record PairResponse := {
  ps_Version : Z;
  ps_NetworkID : string;
  ps_BodyPeerID : string;
  ps_BodyAddresses : list (list byte);
  ps_CorePeerID : string;
  ps_CoreWGPublicKey : string;
  ps_CoreAddresses : list (list byte);
  ps_CoreEndpoints : list string;
}.

Record PairErrorResponse := { pf_Version : Z; pf_Reason : string; pf_Consumed : bool }.

Definition pair_error (reason : string) (consumed : bool) : PairErrorResponse :=
  {| pf_Version := ProtocolVersion; pf_Reason := reason; pf_Consumed := consumed |}.

(** The error is the reason of the [ValidationError]. *)
Definition ValidatePairRequest (r : PairRequest) : res string unit :=
  refuse negb (pr_Version r =? ProtocolVersion) with "unsupported_version";
  refuse empty_str (pr_BodyID r) with "missing_body_id";
  refuse empty_str (pr_Implementation r) with "missing_implementation";
  refuse empty_str (pr_WireGuardPublicKey r) with "missing_wireguard_key";
  match DecodeWgPublicKey (pr_WireGuardPublicKey r) with
  | Ok _ => Ok tt
  | Err _ => Err "invalid_wg_public_key"
  end.

(** ** Authorizers *)

Abbreviation Authorizer := (string -> PairRequest -> bool) (only parsing).

Definition AllowAuthorizer : Authorizer := fun _ _ => true.
Definition DenyAuthorizer : Authorizer := fun _ _ => false.
(** The default when none is configured. *)
Definition denyAuthorizer : Authorizer := fun _ _ => false.

(** ** The service *)

Section service.
Context {S : Type} `{InvitationStore S}.

Record PairingService := {
  sv_network : Network;
  sv_netStore : gmap string state_row;
  sv_invitations : S;
}.

Record pair_env := {
  pe_now : time;
  pe_peerID : string;
  pe_meanwhile : list inv_call;
  pe_save_fails : bool;
  pe_delete_fails : bool;
}.

Definition NewService (n : Network) (t : gmap string state_row) (s : S) (authorizer : option Authorizer)
    : PairingService * Authorizer :=
  ({| sv_network := n; sv_netStore := t; sv_invitations := s |},
   match authorizer with Some a => a | None => denyAuthorizer end).

Definition with_network (st : PairingService) (n : Network) : PairingService :=
  {| sv_network := n; sv_netStore := sv_netStore st; sv_invitations := sv_invitations st |}.
Definition with_table (st : PairingService) (t : gmap string state_row) : PairingService :=
  {| sv_network := sv_network st; sv_netStore := t; sv_invitations := sv_invitations st |}.
Definition with_invitations (st : PairingService) (s : S) : PairingService :=
  {| sv_network := sv_network st; sv_netStore := sv_netStore st; sv_invitations := s |}.

(** Steps 9 to 11: the two durable commits, in this order. *)
Definition commit_pairing (e : pair_env) (endpoints : list string) (req : PairRequest)
    (active : Membership) (coreWGKey : string) (st : PairingService)
    : (PairErrorResponse + PairResponse) * PairingService :=
  if pe_save_fails e then
    (inl (pair_error "persistence_failed" false),
     with_network st (rollback (sv_network st) (m_PeerID active)))
  else
    let st := with_table st (SaveMembership (sv_netStore st) active) in
    let '(r, s) := Consume (sv_invitations st) (pr_InvitationID req) in
    let st := with_invitations st s in
    match r with
    | Err _ =>
        let st := with_network st (rollback (sv_network st) (m_PeerID active)) in
        (inl (pair_error "consumption_failed" false),
         if pe_delete_fails e then st
         else with_table st (DeleteMembership (sv_netStore st) (m_PeerID active)))
    | Ok _ =>
        let n := sv_network st in
        (inr {| ps_Version := ProtocolVersion; ps_NetworkID := n_NetworkID n;
                ps_BodyPeerID := m_PeerID active; ps_BodyAddresses := [m_OverlayAddress active];
                ps_CorePeerID := nc_PeerID (n_Core n); ps_CoreWGPublicKey := coreWGKey;
                ps_CoreAddresses := [nc_OverlayAddress (n_Core n)]; ps_CoreEndpoints := endpoints |}, st)
    end.

(** Steps 5 to 8, on the decoded key. *)
Definition admit_body (e : pair_env) (endpoints : list string) (req : PairRequest) (wgPub : list byte)
    (st : PairingService) : (PairErrorResponse + PairResponse) * PairingService :=
  match NewMembership (sv_network st) (pr_BodyID req) (pe_peerID e) with
  | Err _ =>
      (inl (pair_error "body_already_known" true),
       with_invitations st (Consume (sv_invitations st) (pr_InvitationID req)).2)
  | Ok (m, n) =>
      match SetBodyWireGuardPublicKey n (m_PeerID m) wgPub with
      | Err _ => (inl (pair_error "key_assignment_failed" false), with_network st (rollback n (m_PeerID m)))
      | Ok n =>
          match ActivateMembership n (m_PeerID m) with
          | Err _ => (inl (pair_error "activation_failed" false), with_network st (rollback n (m_PeerID m)))
          | Ok n =>
              match GetMembership n (m_PeerID m) with
              | None => (inl (pair_error "internal_error" false), with_network st (rollback n (m_PeerID m)))
              | Some active =>
                  match EncodeWgPublicKey (nc_PublicKey (n_Core n)) with
                  | Err _ =>
                      (inl (pair_error "internal_error" false), with_network st (rollback n (m_PeerID m)))
                  | Ok coreWGKey => commit_pairing e endpoints req active coreWGKey (with_network st n)
                  end
              end
          end
      end
  end.

Definition HandlePairing (authorize : Authorizer) (e : pair_env) (endpoints : list string)
    (req : PairRequest) (st : PairingService) : (PairErrorResponse + PairResponse) * PairingService :=
  match ValidatePairRequest req with
  | Err reason => (inl (pair_error reason false), st)
  | Ok _ =>
      match Validate (sv_invitations st) (pe_now e) (pr_InvitationID req) (pr_Secret req) with
      | Err (_, Some inv) =>
          (inl (if i_Consumed inv then pair_error "invitation_already_consumed" true
                else pair_error "invalid_invitation" false), st)
      | Err (_, None) => (inl (pair_error "invalid_invitation" false), st)
      | Ok inv =>
          let st := with_invitations st (inv_perform_all (sv_invitations st) (pe_meanwhile e)).2 in
          if authorize (pr_BodyID req) req then
            match DecodeWgPublicKey (pr_WireGuardPublicKey req) with
            | Err _ => (inl (pair_error "invalid_wg_public_key" false), st)
            | Ok rawWgKey => admit_body e endpoints req rawWgKey st
            end
          else
            (inl (pair_error "authorization_denied" true),
             with_invitations st (Consume (sv_invitations st) (pr_InvitationID req)).2)
      end
  end.

End service.

Arguments PairingService : clear implicits.

(** The HTTP status of an error reason. *)
Definition pair_status (reason : string) : Z :=
  if existsb (same_str reason) ["unsupported_version"; "malformed_request"; "missing_body_id"; "invalid_wg_public_key"]
  then 400
  else if same_str reason "body_already_known" then 409
  else if existsb (same_str reason) ["invalid_invitation"; "invitation_already_consumed"] then 401
  else if same_str reason "authorization_denied" then 403
  else if existsb (same_str reason)
            ["persistence_failed"; "activation_failed"; "key_assignment_failed"; "internal_error"] then 500
  else 403.

(** POST /v1/pair on a body that does or does not parse. *)
Definition HandlePair {S} `{InvitationStore S} (is_post : bool) (parsed : option PairRequest)
    (authorize : Authorizer) (e : pair_env) (endpoints : list string) (st : PairingService S)
    : Z * option (PairErrorResponse + PairResponse) * PairingService S :=
  if negb is_post then (405, None, st) else
  match parsed with
  | None => (400, Some (inl (pair_error "malformed_request" false)), st)
  | Some req =>
      let '(r, st') := HandlePairing authorize e endpoints req st in
      (match r with inl err => pair_status (pf_Reason err) | inr _ => 200 end, Some r, st')
  end.

(** ** Lemmas *)

Section lemmas.
Context {S : Type} `{InvitationStoreLaws S}.

Lemma DecodeWgPublicKey_length s raw : DecodeWgPublicKey s = Ok raw -> length raw = 32%nat.
Proof.
  unfold DecodeWgPublicKey. destruct (Base64.StdDecode s); [|done]. destruct (_ =? _) eqn:E; [|done].
  intros [= <-]. bool_props. unfold len, WgPublicKeySize in E. lia.
Qed.

(** The invitations only ever move from usable to used. *)
Lemma Consume_uses (s : S) id : is_Some (view s !! id) -> used (Consume s id).2 id.
Proof.
  intros [i Hi]. destruct (Consume_cases s id) as [(_ & j & Hj & _ & Hv)|(_ & -> & Hc)].
  - exists (consumed_invitation j). by rewrite Hv, lookup_insert_eq.
  - exists i. auto.
Qed.

Lemma Consume_keeps (s : S) id id' : is_Some (view s !! id') -> is_Some (view (Consume s id).2 !! id').
Proof.
  intros [i Hi]. destruct (Consume_cases s id) as [(_ & j & Hj & _ & Hv)|(_ & -> & Hc)]; [|eauto].
  rewrite Hv. destruct (decide (id' = id)) as [->|]; [by rewrite lookup_insert_eq; eauto|].
  rewrite lookup_insert_ne by done. eauto.
Qed.

Lemma inv_perform_all_keeps (s : S) cs id :
  is_Some (view s !! id) -> is_Some (view (inv_perform_all s cs).2 !! id).
Proof.
  revert s. induction cs as [|c cs IH]; intros s Hs; simpl; [done|].
  destruct (inv_perform s c) as [r s1] eqn:E. specialize (IH s1).
  destruct (inv_perform_all s1 cs) as [ids s2]. apply IH. destruct c as [i|id']; simpl in E.
  - injection E as <- <-. pose proof (create_law s i) as Hl. destruct (store_Create s i) as [s'|]; [|done].
    destruct Hl as [Hn ->]. destruct Hs as [j Hj]. rewrite lookup_insert_ne by congruence. eauto.
  - pose proof (Consume_keeps s id' id Hs) as Hk. destruct (Consume s id'). by injection E as <- <-.
Qed.

Lemma delete_saved n t m :
  stored n t -> n_Memberships n !! m_PeerID m = None ->
  DeleteMembership (SaveMembership t m) (m_PeerID m) = t.
Proof.
  intros Hst Hn. apply delete_insert_id. by rewrite (st_members _ _ Hst), Hn.
Qed.

End lemmas.

(** ** Properties *)

Section properties.
Context {S : Type} `{InvitationStoreLaws S}.

(** The one way a failed pairing leaves a trace: the invitation was used by another call after the membership was saved,
    and deleting the saved row failed too, an error the code ignores.  The row stays in the table, not in the network. *)
Definition stranded (e : pair_env) (err : PairErrorResponse) (t : gmap string state_row) (m : Membership) (st' : PairingService S) : Prop :=
  pe_delete_fails e = true /\ pf_Reason err = "consumption_failed" /\ sv_netStore st' = SaveMembership t m.

(** What the durable commits do with a membership that is new to the network. *)
Lemma commit_pairing_spec e endpoints req m key st n0 r st' :
  network_wf n0 -> stored n0 (sv_netStore st) -> n_Memberships n0 !! m_PeerID m = None ->
  sv_network st = put_memberships n0 (<[m_PeerID m := m]> (n_Memberships n0)) ->
  commit_pairing e endpoints req m key st = (r, st') ->
  match r with
  | inr resp =>
      sv_network st' = sv_network st /\ sv_netStore st' = SaveMembership (sv_netStore st) m /\
      used (sv_invitations st') (pr_InvitationID req) /\
      is_ok (Consume (sv_invitations st) (pr_InvitationID req)).1 = true /\
      ps_BodyPeerID resp = m_PeerID m /\ ps_BodyAddresses resp = [m_OverlayAddress m]
  | inl err => sv_network st' = n0 /\ pf_Consumed err = false /\ (sv_netStore st' = sv_netStore st \/ stranded e err (sv_netStore st) m st')
  end.
Proof.
  intros Hwf Hst Hnew Hn. unfold commit_pairing. rewrite Hn. destruct (pe_save_fails e).
  { intros [= <- <-]. simpl. rewrite rollback_new by done. auto. }
  simpl. pose proof (Consume_uses (sv_invitations st) (pr_InvitationID req)) as Hu.
  destruct (Consume_cases (sv_invitations st) (pr_InvitationID req)) as [(Hr & i & Hi & _ & _)|(Hr & _ & _)];
    destruct (Consume (sv_invitations st) _) as [[[]|?] s]; simpl in *; try done; intros [= <- <-]; simpl.
  - split_and!; try done. by apply Hu.
  - destruct (pe_delete_fails e) eqn:Hdel; simpl; rewrite Hn, rollback_new by done; [split_and!; try done; right; by split_and!|].
    rewrite (delete_saved n0) by done. auto.
Qed.

(** C20: pairing is all or nothing.  From a well-formed network that its table
    stores, and whatever other callers do to the invitations meanwhile: a
    pairing that succeeds was authorized, presented a valid invitation and
    leaves that invitation used, and adds exactly one membership, active, with
    the Body's key and derived address, in memory and in the table; a pairing
    that fails for whatever reason, a failed write included, leaves the network
    as it was, and an invitation it reports as consumed is consumed.  It leaves
    the table as it was too, with one exception: when the consumption of the
    invitation failed and deleting the row just saved failed as well, the row of
    that one active membership stays in the table.  Otherwise network and table
    stay in step. *)
Theorem pairing_all_or_nothing authorize e endpoints req (st : PairingService S) :
  network_wf (sv_network st) -> stored (sv_network st) (sv_netStore st) ->
  let '(r, st') := HandlePairing authorize e endpoints req st in
  let n := sv_network st in
  network_wf (sv_network st') /\
  match r with
  | inr resp =>
      stored (sv_network st') (sv_netStore st') /\
      exists inv m pub,
        authorize (pr_BodyID req) req = true /\
        Validate (sv_invitations st) (pe_now e) (pr_InvitationID req) (pr_Secret req) = Ok inv /\
        used (sv_invitations st') (pr_InvitationID req) /\
        DecodeWgPublicKey (pr_WireGuardPublicKey req) = Ok pub /\
        n_Memberships n !! pe_peerID e = None /\
        sv_network st' = put_memberships n (<[pe_peerID e := m]> (n_Memberships n)) /\
        m_BodyID m = pr_BodyID req /\ m_Status m = MembershipActive /\ m_WireGuardPublicKey m = Some pub /\
        ps_BodyPeerID resp = pe_peerID e /\ ps_BodyAddresses resp = [m_OverlayAddress m]
  | inl err =>
      sv_network st' = n /\ (pf_Consumed err = true -> used (sv_invitations st') (pr_InvitationID req)) /\
      ((sv_netStore st' = sv_netStore st /\ stored (sv_network st') (sv_netStore st')) \/
       exists m, m_PeerID m = pe_peerID e /\ m_Status m = MembershipActive /\ stranded e err (sv_netStore st) m st')
  end.
Proof.
  intros Hwf Hst. destruct (HandlePairing authorize e endpoints req st) as [r st'] eqn:E.
  unfold HandlePairing in E. destruct (ValidatePairRequest req) as [[]|]; [|injection E as <- <-; by split_and!; auto].
  destruct (Validate _ _ _ _) as [inv|[er [inv|]]] eqn:Ev; [| |injection E as <- <-; by split_and!; auto].
  2:{ injection E as <- <-. unfold Validate in Ev.
      destruct (store_Get _ _) as [[i|]|] eqn:Eg; [|done..]. apply get_law in Eg.
      destruct (i_Consumed i) eqn:Ec; [|by branches]. injection Ev as _ <-. rewrite Ec.
      split_and!; auto. intros _. by exists i. }
  pose proof (proj1 (Validate_iff _ _ _ _ _) Ev) as (Hview & _).
  pose proof (inv_perform_all_keeps _ (pe_meanwhile e) _ (mk_is_Some _ _ Hview)) as Hkeep.
  set (s1 := (inv_perform_all (sv_invitations st) (pe_meanwhile e)).2) in *.
  destruct (authorize (pr_BodyID req) req) eqn:Ea.
  2:{ injection E as <- <-. simpl. split_and!; auto. intros _. by apply Consume_uses. }
  destruct (DecodeWgPublicKey (pr_WireGuardPublicKey req)) as [pub|] eqn:Ek; [|injection E as <- <-; by split_and!; auto].
  unfold admit_body in E. simpl in E.
  destruct (NewMembership (sv_network st) (pr_BodyID req) (pe_peerID e)) as [[m n1]|] eqn:En.
  2:{ injection E as <- <-. simpl. split_and!; auto. intros _. by apply Consume_uses. }
  pose proof (NewMembership_fresh _ _ _ _ _ Hwf En) as Hfresh.
  pose proof (NewMembership_ok _ _ _ _ _ En) as (_ & _ & Hmb & Hmp & _).
  destruct (new_member_joins _ _ _ _ _ pub En) as (n2 & Hset & Hact). rewrite Hmp, Hset, Hact in E.
  pose proof (new_member_wf _ _ _ _ _ pub Hwf En (DecodeWgPublicKey_length _ _ Ek)) as Hwf'.
  set (m' := set_status (set_key m pub) MembershipActive) in *.
  assert (Hmp' : m_PeerID m' = pe_peerID e) by done.
  unfold GetMembership in E. simpl in E. rewrite lookup_insert_eq in E.
  destruct (EncodeWgPublicKey _) as [key|].
  2:{ injection E as <- <-. simpl. rewrite rollback_new by done. by split_and!; auto. }
  rewrite <- Hmp' in Hfresh, E, Hwf'.
  apply (commit_pairing_spec _ _ _ _ _ _ (sv_network st)) in E; [|done..].
  destruct r as [err|resp].
  - destruct E as (-> & -> & Ht). split_and!; try done. destruct Ht as [->|Ht]; [by left|]. right. by exists m'.
  - destruct E as (-> & -> & Hu & _ & Hp & Hadr). simpl. split; [done|]. split; [by apply stored_save|].
    exists inv, m', pub. rewrite <- Hmp'. split_and!; done.
Qed.
End properties.

(** ** A concrete pairing *)

Definition demo_service : PairingService SQLStore :=
  {| sv_network := demo_net4; sv_netStore := demo_table; sv_invitations := demo_invited |}.

Definition demo_request : PairRequest :=
  {| pr_Version := 1; pr_InvitationID := "inv"; pr_Secret := "s3cret"; pr_BodyID := "b3"; pr_Name := "";
     pr_Implementation := "go"; pr_Platform := "linux"; pr_Arch := "amd64";
     pr_WireGuardPublicKey := Base64.StdEncode demo_pub |}.

Definition demo_env : pair_env :=
  {| pe_now := 6 * second; pe_peerID := "p3"; pe_meanwhile := []; pe_save_fails := false;
     pe_delete_fails := false |}.

Lemma pairing_all_or_nothing_witness :
  let '(r, st') := HandlePairing AllowAuthorizer demo_env [] demo_request demo_service in
  stored (sv_network st') (sv_netStore st') /\ exists resp, r = inr resp /\ ps_BodyPeerID resp = "p3" /\
    used (sv_invitations st') "inv".
Proof.
  pose proof (pairing_all_or_nothing AllowAuthorizer demo_env [] demo_request demo_service
    demo_net4_wf demo_table_stored) as Hp.
  destruct (HandlePairing AllowAuthorizer demo_env [] demo_request demo_service) as [r st'] eqn:E.
  destruct Hp as (_ & Hr). destruct r as [err|resp].
  - exfalso. vm_compute in E. discriminate.
  - destruct Hr as [Hst Hr]. split; [exact Hst|]. exists resp. destruct Hr as (inv & m & pub & _ & _ & Hu & _ & _ & _ & _ & _ & _ & Hb & _).
    split_and!; [reflexivity|exact Hb|exact Hu].
Defined.
