(* ===== verification/EnrollmentStore.v ===== *)
(** * The enrollment tables

    Models the records of [src/Core/Enrollment/types.go] and the SQL store of
    [src/Core/Persistence/enrollment.go] with the constraints of the schema in
    store.go.  A table is a map from its primary key; its [UNIQUE] columns are
    checked where rows are inserted; a transaction is a function that gives all
    of its changes or none.  The JSON and time columns hold their values: the
    texts are the ones the same package wrote. *)
From S2P Require Import Prelude GoBytes GoTime SQL Network Invitation Signing.
From stdpp Require Import options.

(** ** Data *)

Inductive Mode := ModeInvitation | ModeBodyRequest.
Inductive Status := StatusPending | StatusDenied | StatusExpired | StatusEnrolled.

#[global] Instance Mode_eq_dec : EqDecision Mode.
Proof. solve_decision. Defined.
#[global] Instance Status_eq_dec : EqDecision Status.
Proof. solve_decision. Defined.

Definition status_text (s : Status) : string :=
  match s with
  | StatusPending => "pending"
  | StatusDenied => "denied"
  | StatusExpired => "expired"
  | StatusEnrolled => "enrolled"
  end.

Inductive enroll_error :=
| ErrUnauthorized | ErrUnknownRequest | ErrExpired | ErrDenied | ErrReplayed | ErrRateLimited
| ErrRevoked | ErrInvalidProof | ErrCoreIdentity | ErrUnsupportedVersion | ErrUnknownBody
| InvalidRequestID | MetadataTooLarge | MembershipError (e : network_error) | SignError (e : signing_error)
| StoreFailed | ConstraintFailed | InvalidRow | InvalidIdentity | ReceiptUnavailable | RefreshFailed
| MissingDependency.

Record CoreIdentity := {
  id_CoreID : string; id_PublicKey : list byte; id_PrivateKey : list byte;
}.

Record PendingEnrollment := {
  pd_RequestID : string;
  pd_Mode : Mode;
  pd_CoreID : string;
  pd_BodyPublicKey : list byte;
  pd_WGPublicKey : list byte;
  pd_BodyNonce : list byte;
  pd_CodeVerifier : list byte;
  pd_InvitationID : string;
  pd_Metadata : gmap string string;
  pd_Status : Status;
  pd_AttemptCount : Z;
  pd_ApprovedOwnerID : string;
  pd_Permissions : list string;
  pd_CreatedAt : time;
  pd_ExpiresAt : time;
}.

Record BodyRecord := {
  br_BodyID : string;
  br_PublicKey : list byte;
  br_KeyVersion : Z;
  br_OwnerID : string;
  br_Permissions : list string;
  br_MembershipRef : string;
  br_CreatedAt : time;
  br_UpdatedAt : time;
  br_RevokedAt : option time;
  br_Status : string;
}.

Record Completion := {
  cm_Pending : PendingEnrollment;
  cm_Body : BodyRecord;
  cm_Membership : Membership;
  cm_Receipt : EnrollmentReceipt;
}.

(** ** The tables *)

Record tables := {
  t_identity : option CoreIdentity;
  t_pending : gmap string PendingEnrollment;
  t_bodies : gmap string BodyRecord;
  t_receipts : gmap string EnrollmentReceipt;
  t_nonces : gset (string * list byte);
  t_invitations : SQLStore;
  t_network : gmap string state_row;
}.

Definition put_pending (t : tables) (p : gmap string PendingEnrollment) : tables :=
  {| t_identity := t_identity t; t_pending := p; t_bodies := t_bodies t; t_receipts := t_receipts t;
     t_nonces := t_nonces t; t_invitations := t_invitations t; t_network := t_network t |}.

(** *** Identity *)

Definition LoadCoreIdentity (t : tables) : res enroll_error (option CoreIdentity) :=
  match t_identity t with
  | None => Ok None
  | Some i =>
      refuse negb (len (id_PublicKey i) =? PublicKeySize) || negb (len (id_PrivateKey i) =? PrivateKeySize)
        with InvalidIdentity;
      refuse negb (bool_decide (Public (id_PrivateKey i) = id_PublicKey i)) with InvalidIdentity;
      Ok (Some i)
  end.

(** The table has one row. *)
Definition SaveCoreIdentity (t : tables) (i : CoreIdentity) : res enroll_error tables :=
  refuse empty_str (id_CoreID i) || negb (len (id_PublicKey i) =? PublicKeySize) ||
         negb (len (id_PrivateKey i) =? PrivateKeySize) with InvalidIdentity;
  refuse bool_decide (is_Some (t_identity t)) with ConstraintFailed;
  Ok {| t_identity := Some i; t_pending := t_pending t; t_bodies := t_bodies t; t_receipts := t_receipts t;
        t_nonces := t_nonces t; t_invitations := t_invitations t; t_network := t_network t |}.

(** *** Pending requests *)

(** An empty verifier is stored as NULL, which is never equal to anything. *)
Definition same_verifier (v : list byte) (p : PendingEnrollment) : bool :=
  negb (bool_decide (v = [])) && bool_decide (pd_CodeVerifier p = v).

Definition CreatePending (t : tables) (p : PendingEnrollment) : res enroll_error tables :=
  refuse bool_decide (is_Some (t_pending t !! pd_RequestID p)) with ConstraintFailed;
  refuse any_row (t_pending t) (same_verifier (pd_CodeVerifier p)) with ConstraintFailed;
  refuse any_row (t_pending t) (fun q => bool_decide (pd_BodyPublicKey q = pd_BodyPublicKey p) &&
                                         bool_decide (pd_BodyNonce q = pd_BodyNonce p)) with ConstraintFailed;
  Ok (put_pending t (<[pd_RequestID p := p]> (t_pending t))).

Definition scanPending (row : option PendingEnrollment) : res enroll_error (option PendingEnrollment) :=
  match row with
  | None => Ok None
  | Some p =>
      refuse negb (len (pd_BodyPublicKey p) =? PublicKeySize) || negb (len (pd_WGPublicKey p) =? 32)
        with InvalidRow;
      Ok (Some p)
  end.

Definition GetPending (t : tables) (requestID : string) : res enroll_error (option PendingEnrollment) :=
  scanPending (t_pending t !! requestID).

Definition GetPendingByCodeVerifier (t : tables) (verifier : list byte)
    : res enroll_error (option PendingEnrollment) :=
  scanPending (List.find (same_verifier verifier) (map_to_list (t_pending t)).*2).

(** [ORDER BY created_at, request_id]. *)
Definition pending_before (a b : PendingEnrollment) : Prop :=
  text_le (pd_CreatedAt a) (pd_CreatedAt b) &&
  (negb (text_le (pd_CreatedAt b) (pd_CreatedAt a)) || String.leb (pd_RequestID a) (pd_RequestID b)) = true.

#[global] Instance pending_before_dec : RelDecision pending_before.
Proof. intros a b. unfold pending_before. apply _. Defined.

Fixpoint scan_all (rows : list PendingEnrollment) : res enroll_error (list PendingEnrollment) :=
  match rows with
  | [] => Ok []
  | p :: rest =>
      try r <- scanPending (Some p);
      try rs <- scan_all rest;
      Ok (option_list r ++ rs)
  end.

Definition ListPending (t : tables) : res enroll_error (list PendingEnrollment) :=
  scan_all (merge_sort pending_before (map_to_list (t_pending t)).*2).

(** [expires_at > now] compares the texts. *)
Definition CountPending (t : tables) (now : time) : Z :=
  len (List.filter (fun p => bool_decide (pd_Status p = StatusPending) && text_lt now (pd_ExpiresAt p))
         (map_to_list (t_pending t)).*2).

Definition set_attempts (p : PendingEnrollment) (n : Z) : PendingEnrollment :=
  {| pd_RequestID := pd_RequestID p; pd_Mode := pd_Mode p; pd_CoreID := pd_CoreID p;
     pd_BodyPublicKey := pd_BodyPublicKey p; pd_WGPublicKey := pd_WGPublicKey p;
     pd_BodyNonce := pd_BodyNonce p; pd_CodeVerifier := pd_CodeVerifier p;
     pd_InvitationID := pd_InvitationID p; pd_Metadata := pd_Metadata p; pd_Status := pd_Status p;
     pd_AttemptCount := n; pd_ApprovedOwnerID := pd_ApprovedOwnerID p; pd_Permissions := pd_Permissions p;
     pd_CreatedAt := pd_CreatedAt p; pd_ExpiresAt := pd_ExpiresAt p |}.

Definition decided (p : PendingEnrollment) (st : Status) (owner : string) (permissions : list string)
    : PendingEnrollment :=
  {| pd_RequestID := pd_RequestID p; pd_Mode := pd_Mode p; pd_CoreID := pd_CoreID p;
     pd_BodyPublicKey := pd_BodyPublicKey p; pd_WGPublicKey := pd_WGPublicKey p;
     pd_BodyNonce := pd_BodyNonce p; pd_CodeVerifier := pd_CodeVerifier p;
     pd_InvitationID := pd_InvitationID p; pd_Metadata := pd_Metadata p; pd_Status := st;
     pd_AttemptCount := pd_AttemptCount p; pd_ApprovedOwnerID := owner; pd_Permissions := permissions;
     pd_CreatedAt := pd_CreatedAt p; pd_ExpiresAt := pd_ExpiresAt p |}.

Definition IncrementAttempts (t : tables) (requestID : string) : tables :=
  match t_pending t !! requestID with
  | None => t
  | Some p => put_pending t (<[requestID := set_attempts p (pd_AttemptCount p + 1)]> (t_pending t))
  end.

(** [INSERT OR IGNORE]; the request is in its table where the service calls this. *)
Definition ConsumeResultNonce (t : tables) (requestID : string) (nonce : list byte)
    : res enroll_error bool * tables :=
  if bool_decide ((requestID, nonce) ∈ t_nonces t) then (Ok false, t)
  else (Ok true,
        {| t_identity := t_identity t; t_pending := t_pending t; t_bodies := t_bodies t;
           t_receipts := t_receipts t; t_nonces := {[ (requestID, nonce) ]} ∪ t_nonces t;
           t_invitations := t_invitations t; t_network := t_network t |}).

(** [UPDATE ... WHERE request_id = ? AND status = 'pending'] must change a row. *)
Definition DenyRow (t : tables) (requestID ownerID : string) : res enroll_error tables :=
  match t_pending t !! requestID with
  | Some p =>
      if bool_decide (pd_Status p = StatusPending)
      then Ok (put_pending t (<[requestID := decided p StatusDenied ownerID (pd_Permissions p)]> (t_pending t)))
      else Err ErrReplayed
  | None => Err ErrReplayed
  end.

(** *** Completion *)

(** [UPDATE invitations SET consumed = 1 WHERE id = ? AND consumed = 0]. *)
Definition take_invitation (s : SQLStore) (id : string) : res enroll_error SQLStore :=
  match sq_rows s !! id with
  | Some i => if i_Consumed i then Err ErrReplayed
              else Ok {| sq_rows := <[id := consumed_invitation i]> (sq_rows s) |}
  | None => Err ErrReplayed
  end.

(** The row leaves the endpoint out. *)
Definition membershipToRow (m : Membership) : state_row := MembershipRow (forget_endpoint m).

(** The column values read back: [revoked_at] is NULL and there is no status column. *)
Definition credential_row (b : BodyRecord) : BodyRecord :=
  {| br_BodyID := br_BodyID b; br_PublicKey := br_PublicKey b; br_KeyVersion := br_KeyVersion b;
     br_OwnerID := br_OwnerID b; br_Permissions := br_Permissions b; br_MembershipRef := br_MembershipRef b;
     br_CreatedAt := br_CreatedAt b; br_UpdatedAt := br_UpdatedAt b; br_RevokedAt := None; br_Status := "" |}.

(** [fails]: the database refuses the transaction. *)
Definition Complete (t : tables) (fails : bool) (c : Completion) : res enroll_error tables :=
  refuse fails with StoreFailed;
  let p := cm_Pending c in
  let b := cm_Body c in
  try invs <- (if empty_str (pd_InvitationID p) then Ok (t_invitations t)
               else take_invitation (t_invitations t) (pd_InvitationID p));
  refuse bool_decide (is_Some (t_bodies t !! br_BodyID b)) with ConstraintFailed;
  refuse any_row (t_bodies t) (fun x => bool_decide (br_PublicKey x = br_PublicKey b) ||
                                        same_str (br_MembershipRef x) (br_MembershipRef b)) with ConstraintFailed;
  let key := membershipKey (m_PeerID (cm_Membership c)) in
  refuse bool_decide (is_Some (t_network t !! key)) with ConstraintFailed;
  refuse bool_decide (is_Some (t_receipts t !! pd_RequestID p)) with ConstraintFailed;
  match t_pending t !! pd_RequestID p with
  | Some row =>
      if bool_decide (pd_Status row = StatusPending) then
        Ok {| t_identity := t_identity t;
              t_pending := <[pd_RequestID p := decided row StatusEnrolled (pd_ApprovedOwnerID p)
                                                 (pd_Permissions p)]> (t_pending t);
              t_bodies := <[br_BodyID b := credential_row b]> (t_bodies t);
              t_receipts := <[pd_RequestID p := cm_Receipt c]> (t_receipts t);
              t_nonces := t_nonces t; t_invitations := invs;
              t_network := <[key := membershipToRow (cm_Membership c)]> (t_network t) |}
      else Err ErrReplayed
  | None => Err ErrReplayed
  end.

Definition GetReceipt (t : tables) (requestID : string) : option EnrollmentReceipt :=
  t_receipts t !! requestID.

(** *** Bodies *)

Definition GetBody (t : tables) (bodyID : string) : option BodyRecord := t_bodies t !! bodyID.

Definition body_before (a b : BodyRecord) : Prop := String.leb (br_BodyID a) (br_BodyID b) = true.

#[global] Instance body_before_dec : RelDecision body_before.
Proof. intros a b. unfold body_before. apply _. Defined.

Definition ListBodyRows (t : tables) : list BodyRecord :=
  merge_sort body_before (map_to_list (t_bodies t)).*2.

Definition revoked_body (b : BodyRecord) (at_ : time) : BodyRecord :=
  {| br_BodyID := br_BodyID b; br_PublicKey := br_PublicKey b; br_KeyVersion := br_KeyVersion b;
     br_OwnerID := br_OwnerID b; br_Permissions := br_Permissions b; br_MembershipRef := br_MembershipRef b;
     br_CreatedAt := br_CreatedAt b; br_UpdatedAt := at_; br_RevokedAt := Some at_; br_Status := br_Status b |}.

Definition RevokeBody (t : tables) (fails : bool) (bodyID : string) (m : Membership) (revokedAt : time)
    : res enroll_error tables :=
  refuse negb (same_str (m_BodyID m) bodyID) || negb (same_str (m_Status m) MembershipRevoked)
    with StoreFailed;
  refuse fails with StoreFailed;
  match t_bodies t !! bodyID with
  | Some b =>
      match br_RevokedAt b with
      | Some _ => Err ErrUnknownBody
      | None =>
          Ok {| t_identity := t_identity t; t_pending := t_pending t;
                t_bodies := <[bodyID := revoked_body b revokedAt]> (t_bodies t);
                t_receipts := t_receipts t; t_nonces := t_nonces t; t_invitations := t_invitations t;
                t_network := <[membershipKey (m_PeerID m) := membershipToRow m]> (t_network t) |}
      end
  | None => Err ErrUnknownBody
  end.
