(* ===== verification/Enrollment.v ===== *)
(** * Enrolling Bodies

    Models [src/Core/Enrollment/service.go] and the error mapping of handler.go.
    The service keeps the Core's signing identity, the Doll Network in memory and
    the tables of [EnrollmentStore].  Every operation that changes them holds
    the service's lock from its first read to its last write, so an operation is
    one function of the state; the clock is read once per operation.

    Inputs of an operation that the source obtains from its environment: the
    time, fresh identifiers and random bytes, and whether the database accepts
    the transaction.  The owner authorizer is a parameter, as the interface is.
    Upper-casing is modelled on ASCII; on other text it is a parameter. *)
From S2P Require Import Prelude GoBytes GoTime Base64 Network Invitation Signing EnrollmentStore.
From stdpp Require Import options.

(** ** HMAC, base 32 and upper case *)

Definition xor_bytes (pad : byte) (l : list byte) : list byte :=
  (fun b => z2b (Z.lxor (b2z pad) (b2z b))) <$> l.

(** HMAC with SHA-256: a key longer than a block is hashed, then padded to 64. *)
Definition hmac_sha256 (key message : list byte) : list byte :=
  let k := if 64 <? len key then sha256 key else key in
  let k := k ++ replicate (64 - length k) x00 in
  sha256 (xor_bytes x5c k ++ sha256 (xor_bytes x36 k ++ message)).

Definition base32_digit (z : Z) : Ascii.ascii :=
  Ascii.ascii_of_N (Z.to_N (if z <? 26 then 65 + z else 24 + z)).

(** Thirteen digits of five bits for eight bytes, the last with one bit of padding. *)
Fixpoint base32_digits (n : nat) (z : Z) : list Ascii.ascii :=
  match n with
  | O => []
  | S n' => base32_digit ((z / 32 ^ Z.of_nat n') `mod` 32) :: base32_digits n' z
  end.

Definition dash : Ascii.ascii := Ascii.ascii_of_N 45.

Definition generateCode (raw : list byte) : string :=
  let encoded := base32_digits 13 (be_get raw * 2) in
  String.string_of_list_ascii (take 4 encoded ++ [dash] ++ take 4 (drop 4 encoded) ++ [dash] ++ drop 8 encoded).

Definition upper_char (c : Ascii.ascii) : Ascii.ascii :=
  if (97 <=? code c) && (code c <=? 122) then Ascii.ascii_of_N (Z.to_N (code c - 32)) else c.

Definition is_ascii (s : string) : bool := forallb (fun c => code c <? 128) (String.list_ascii_of_string s).

(** ** The service *)

Record Config := { cf_PendingLifetime : duration; cf_MaxPending : Z; cf_MaxAttempts : Z }.

Definition DefaultConfig : Config :=
  {| cf_PendingLifetime := 10 * 60 * second; cf_MaxPending := 128; cf_MaxAttempts := 8 |}.

Record OwnerAction := { oa_Operation : string; oa_RequestID : string }.

(** What happened outside: a Body's live session ended, the peers were refreshed. *)
Inductive effect := DisconnectBody (bodyID : string) | RefreshPeers.

Record Service := {
  s_tables : tables;
  s_network : Network;
  s_identity : CoreIdentity;
  s_config : Config;
  s_sessions : bool;
  s_peers : bool;
}.

Definition put_tables (s : Service) (t : tables) : Service :=
  {| s_tables := t; s_network := s_network s; s_identity := s_identity s; s_config := s_config s;
     s_sessions := s_sessions s; s_peers := s_peers s |}.
Definition put_network (s : Service) (n : Network) : Service :=
  {| s_tables := s_tables s; s_network := n; s_identity := s_identity s; s_config := s_config s;
     s_sessions := s_sessions s; s_peers := s_peers s |}.

Definition SetRevocationLifecycle (s : Service) (sessions peers : bool) : Service :=
  {| s_tables := s_tables s; s_network := s_network s; s_identity := s_identity s; s_config := s_config s;
     s_sessions := sessions; s_peers := peers |}.

Record env := {
  e_now : time;
  e_bodyUUID : string;
  e_peerID : string;
  e_code : list byte;
  e_coreNonce : list byte;
  e_commit_fails : bool;
  e_refresh_fails : bool;
}.

Section service.
Context `{Ed25519}.
Context (authorize : string -> OwnerAction -> bool) (upper_other : string -> string).

Definition ToUpper (s : string) : string :=
  if is_ascii s then String.string_of_list_ascii (upper_char <$> String.list_ascii_of_string s)
  else upper_other s.

Definition codeVerifier (s : Service) (c : string) : list byte :=
  hmac_sha256 (Seed (id_PrivateKey (s_identity s))) (bytes_of (ToUpper (TrimSpace c))).

Definition permitted (ownerID operation requestID : string) : bool :=
  authorize ownerID {| oa_Operation := operation; oa_RequestID := requestID |}.

(** *** Start *)

(** [seed] and [uuid] are drawn when there is no identity yet. *)
Definition NewService (t : tables) (n : Network) (config : Config) (seed : list byte) (uuid : string)
    : res enroll_error Service :=
  let config := if (cf_PendingLifetime config <=? 0) || (cf_MaxPending config <=? 0) ||
                   (cf_MaxAttempts config <=? 0) then DefaultConfig else config in
  try loaded <- LoadCoreIdentity t;
  let make i t := {| s_tables := t; s_network := n; s_identity := i; s_config := config;
                     s_sessions := false; s_peers := false |} in
  match loaded with
  | Some i => Ok (make i t)
  | None =>
      let k := NewKeyFromSeed seed in
      let i := {| id_CoreID := "core_" +:+ uuid; id_PublicKey := Public k; id_PrivateKey := k |} in
      try t' <- SaveCoreIdentity t i;
      Ok (make i t')
  end.

Definition PublicCoreIdentity (s : Service) : CoreIdentityResponse :=
  {| Signing.ci_Version := CoreIdentityVersion; Signing.ci_CoreID := id_CoreID (s_identity s);
     Signing.ci_Algorithm := CoreIdentityAlgorithm;
     Signing.ci_PublicKey := EncodeRawURL (id_PublicKey (s_identity s)) |}.

(** *** Listings *)

(** The owner's view of a pending request hides the verifier and the nonce. *)
Definition redacted (p : PendingEnrollment) : PendingEnrollment :=
  {| pd_RequestID := pd_RequestID p; pd_Mode := pd_Mode p; pd_CoreID := pd_CoreID p;
     pd_BodyPublicKey := pd_BodyPublicKey p; pd_WGPublicKey := pd_WGPublicKey p;
     pd_BodyNonce := []; pd_CodeVerifier := []; pd_InvitationID := pd_InvitationID p;
     pd_Metadata := pd_Metadata p; pd_Status := pd_Status p; pd_AttemptCount := pd_AttemptCount p;
     pd_ApprovedOwnerID := pd_ApprovedOwnerID p; pd_Permissions := pd_Permissions p;
     pd_CreatedAt := pd_CreatedAt p; pd_ExpiresAt := pd_ExpiresAt p |}.

Definition ListPendingFor (s : Service) (now : time) (ownerID : string)
    : res enroll_error (list PendingEnrollment) :=
  refuse empty_str ownerID || negb (permitted ownerID "list_pending" "") with ErrUnauthorized;
  try items <- ListPending (s_tables s);
  Ok (redacted <$> List.filter (fun p => bool_decide (pd_Status p = StatusPending) &&
                                         Before now (pd_ExpiresAt p)) items).

Definition body_status (b : BodyRecord) : BodyRecord :=
  {| br_BodyID := br_BodyID b; br_PublicKey := br_PublicKey b; br_KeyVersion := br_KeyVersion b;
     br_OwnerID := br_OwnerID b; br_Permissions := br_Permissions b; br_MembershipRef := br_MembershipRef b;
     br_CreatedAt := br_CreatedAt b; br_UpdatedAt := br_UpdatedAt b; br_RevokedAt := br_RevokedAt b;
     br_Status := if br_RevokedAt b then "revoked" else status_text StatusEnrolled |}.

Definition ListBodies (s : Service) (ownerID : string) : res enroll_error (list BodyRecord) :=
  refuse empty_str ownerID || negb (permitted ownerID "list_bodies" "") with ErrUnauthorized;
  Ok (body_status <$> ListBodyRows (s_tables s)).

(** *** Requests *)

Definition metadata_bytes (m : gmap string string) : Z :=
  map_fold (fun k v n => n + (len (bytes_of k) + len (bytes_of v))) 0 m.

Definition newPending (s : Service) (now : time) (requestID : string) (mode : Mode)
    (bodyKey wgKey nonce invitationID : string) (metadata : gmap string string) (verifier : list byte)
    : res enroll_error PendingEnrollment :=
  refuse empty_str requestID || (128 <? len (bytes_of requestID)) with InvalidRequestID;
  refuse 1024 <? metadata_bytes metadata with MetadataTooLarge;
  match DecodeBodyPublicKey bodyKey, DecodeWgPublicKey wgKey, DecodeNonce nonce with
  | Ok publicKey, Ok wg, Ok bodyNonce =>
      let now := truncate_second now in
      Ok {| pd_RequestID := requestID; pd_Mode := mode; pd_CoreID := id_CoreID (s_identity s);
            pd_BodyPublicKey := publicKey; pd_WGPublicKey := wg; pd_BodyNonce := bodyNonce;
            pd_CodeVerifier := verifier; pd_InvitationID := invitationID; pd_Metadata := metadata;
            pd_Status := StatusPending; pd_AttemptCount := 0; pd_ApprovedOwnerID := "";
            pd_Permissions := []; pd_CreatedAt := now; pd_ExpiresAt := now + cf_PendingLifetime (s_config s) |}
  | _, _, _ => Err ErrInvalidProof
  end.

(** Only [Begin] calls it, with a code. *)
Definition createPending (s : Service) (e : env) (requestID : string) (mode : Mode)
    (bodyKey wgKey nonce invitationID : string) (metadata : gmap string string)
    : res enroll_error EnrollmentPendingResponse * Service :=
  if cf_MaxPending (s_config s) <=? CountPending (s_tables s) (e_now e) then (Err ErrRateLimited, s) else
  let code := generateCode (e_code e) in
  match newPending s (e_now e) requestID mode bodyKey wgKey nonce invitationID metadata (codeVerifier s code) with
  | Err er => (Err er, s)
  | Ok pending =>
      match CreatePending (s_tables s) pending with
      | Err _ => (Err ErrReplayed, s)
      | Ok t =>
          (match SignEnrollmentPending (id_PrivateKey (s_identity s))
                   {| ep_Version := 1; ep_RequestID := requestID; ep_CoreID := id_CoreID (s_identity s);
                      ep_BodyKeyFingerprint := BodyKeyFingerprint (pd_BodyPublicKey pending);
                      ep_CoreNonce := EncodeRawURL (e_coreNonce e); ep_ApprovalCode := code;
                      ep_ExpiresAt := pd_ExpiresAt pending; ep_Signature := "" |} with
           | Ok response => Ok response
           | Err er => Err (SignError er)
           end, put_tables s t)
      end
  end.

Definition Begin (s : Service) (e : env) (r : EnrollmentBeginRequest)
    : res enroll_error EnrollmentPendingResponse * Service :=
  if negb (eb_Version r =? EnrollmentVersion) then (Err ErrUnsupportedVersion, s) else
  if negb (same_str (eb_CoreID r) (id_CoreID (s_identity s))) then (Err ErrCoreIdentity, s) else
  if negb (is_ok (VerifyEnrollmentBegin r)) then (Err ErrInvalidProof, s) else
  createPending s e (eb_RequestID r) ModeBodyRequest (eb_BodyPublicKey r) (eb_WGPublicKey r) (eb_BodyNonce r)
    "" (eb_Metadata r).

(** *** Completion *)

Definition GetReceiptOf (s : Service) (requestID : string) : res enroll_error (option EnrollmentReceipt) :=
  Ok (GetReceipt (s_tables s) requestID).

(** From the allocation of the BodyID on; the receipt is [None] where the source
    returns a nil pointer. *)
Definition enroll (s : Service) (e : env) (pending : PendingEnrollment) (ownerID : string)
    (permissions : list string) : res enroll_error (option EnrollmentReceipt) * Service :=
  let bodyID := "body_" +:+ e_bodyUUID e in
  match NewMembership (s_network s) bodyID (e_peerID e) with
  | Err er => (Err (MembershipError er), s)
  | Ok (m, n) =>
      match SetBodyWireGuardPublicKey n (m_PeerID m) (pd_WGPublicKey pending) with
      | Err er => (Err (MembershipError er), put_network s (rollback n (m_PeerID m)))
      | Ok n =>
          match ActivateMembership n (m_PeerID m) with
          | Err er => (Err (MembershipError er), put_network s (rollback n (m_PeerID m)))
          | Ok n =>
              let now := truncate_second (e_now e) in
              let membership := default m (GetMembership n (m_PeerID m)) in
              let body := {| br_BodyID := bodyID; br_PublicKey := pd_BodyPublicKey pending; br_KeyVersion := 1;
                             br_OwnerID := ownerID; br_Permissions := permissions;
                             br_MembershipRef := m_PeerID m; br_CreatedAt := now; br_UpdatedAt := now;
                             br_RevokedAt := None; br_Status := "" |} in
              match SignEnrollmentReceipt (id_PrivateKey (s_identity s))
                      {| rc_Version := 1; rc_RequestID := pd_RequestID pending;
                         rc_Status := EnrollmentStatusEnrolled; rc_BodyID := bodyID;
                         rc_CoreID := id_CoreID (s_identity s);
                         rc_BodyPublicKeyFingerprint := BodyKeyFingerprint (pd_BodyPublicKey pending);
                         rc_Permissions := permissions; rc_MembershipReference := m_PeerID m;
                         rc_IssuedAt := now; rc_Signature := "" |} with
              | Err er => (Err (SignError er), put_network s (rollback n (m_PeerID m)))
              | Ok receipt =>
                  let c := {| cm_Pending := decided pending StatusEnrolled ownerID permissions;
                              cm_Body := body; cm_Membership := membership; cm_Receipt := receipt |} in
                  match Complete (s_tables s) (e_commit_fails e) c with
                  | Ok t => (Ok (Some receipt), put_tables (put_network s n) t)
                  | Err er =>
                      (match GetReceipt (s_tables s) (pd_RequestID pending) with
                       | Some existing => Ok (Some existing)
                       | None => Err er
                       end, put_network s (rollback n (m_PeerID m)))
                  end
              end
          end
      end
  end.

Definition completeLocked (s : Service) (e : env) (pending : PendingEnrollment) (ownerID : string)
    (permissions : list string) : res enroll_error (option EnrollmentReceipt) * Service :=
  if bool_decide (pd_Status pending = StatusEnrolled) then (GetReceiptOf s (pd_RequestID pending), s) else
  if bool_decide (pd_Status pending = StatusDenied) then (Err ErrDenied, s) else
  if negb (Before (e_now e) (pd_ExpiresAt pending)) then (Err ErrExpired, s) else
  enroll s e pending ownerID permissions.

(** The branch of [Redeem] for a request id that is already known. *)
Definition redeem_existing (s : Service) (e : env) (r : EnrollmentRedeemRequest) (existing : PendingEnrollment)
    : res enroll_error (option EnrollmentReceipt) * Service :=
  let same_key := match DecodeBodyPublicKey (rd_BodyPublicKey r) with
                  | Ok k => bool_decide (pd_BodyPublicKey existing = k)
                  | Err _ => false
                  end in
  if negb same_key || negb (bool_decide (pd_Mode existing = ModeInvitation)) ||
     negb (same_str (pd_InvitationID existing) (rd_InvitationID r)) then (Err ErrReplayed, s) else
  match ValidateAuthorization (t_invitations (s_tables s)) (rd_InvitationID r) (rd_InvitationSecret r) with
  | Err _ => (Err ErrUnauthorized, s)
  | Ok _ =>
      if bool_decide (pd_Status existing = StatusEnrolled) then (GetReceiptOf s (rd_RequestID r), s) else
      match Validate (t_invitations (s_tables s)) (e_now e) (rd_InvitationID r) (rd_InvitationSecret r) with
      | Err _ => (Err ErrUnauthorized, s)
      | Ok inv => completeLocked s e existing "invitation" (i_Permissions inv)
      end
  end.

Definition Redeem (s : Service) (e : env) (r : EnrollmentRedeemRequest)
    : res enroll_error (option EnrollmentReceipt) * Service :=
  if negb (rd_Version r =? EnrollmentVersion) then (Err ErrUnsupportedVersion, s) else
  if negb (same_str (rd_CoreID r) (id_CoreID (s_identity s))) then (Err ErrCoreIdentity, s) else
  if negb (is_ok (VerifyEnrollmentRedeem r)) then (Err ErrInvalidProof, s) else
  match GetPending (s_tables s) (rd_RequestID r) with
  | Ok (Some existing) => redeem_existing s e r existing
  | _ =>
      match Validate (t_invitations (s_tables s)) (e_now e) (rd_InvitationID r) (rd_InvitationSecret r) with
      | Err _ => (Err ErrUnauthorized, s)
      | Ok inv =>
          match newPending s (e_now e) (rd_RequestID r) ModeInvitation (rd_BodyPublicKey r) (rd_WGPublicKey r)
                  (rd_BodyNonce r) (rd_InvitationID r) (rd_Metadata r) [] with
          | Err er => (Err er, s)
          | Ok pending =>
              match CreatePending (s_tables s) pending with
              | Err _ =>
                  (match GetReceipt (s_tables s) (rd_RequestID r) with
                   | Some receipt => Ok (Some receipt)
                   | None => Err ErrReplayed
                   end, s)
              | Ok t => completeLocked (put_tables s t) e pending "invitation" (i_Permissions inv)
              end
          end
      end
  end.

Definition Approve (s : Service) (e : env) (code ownerID : string) (permissions : list string)
    : res enroll_error (option EnrollmentReceipt) * Service :=
  if empty_str ownerID then (Err ErrUnauthorized, s) else
  match GetPendingByCodeVerifier (s_tables s) (codeVerifier s code) with
  | Ok (Some pending) =>
      if cf_MaxAttempts (s_config s) <=? pd_AttemptCount pending then (Err ErrRateLimited, s) else
      if negb (permitted ownerID "approve" (pd_RequestID pending)) then (Err ErrUnauthorized, s) else
      completeLocked s e pending ownerID permissions
  | _ => (Err ErrUnauthorized, s)
  end.

Definition Deny (s : Service) (now : time) (code ownerID : string) : res enroll_error unit * Service :=
  if empty_str ownerID then (Err ErrUnauthorized, s) else
  match GetPendingByCodeVerifier (s_tables s) (codeVerifier s code) with
  | Ok (Some pending) =>
      if negb (permitted ownerID "deny" (pd_RequestID pending)) then (Err ErrUnauthorized, s) else
      if After now (pd_ExpiresAt pending) then (Err ErrExpired, s) else
      match DenyRow (s_tables s) (pd_RequestID pending) ownerID with
      | Ok t => (Ok tt, put_tables s t)
      | Err er => (Err er, s)
      end
  | _ => (Err ErrUnauthorized, s)
  end.

(** *** Results *)

Definition mustPublicKey (encoded : string) : list byte :=
  match DecodeBodyPublicKey encoded with Ok k => k | Err _ => [] end.

(** [Result] does not hold the lock: each of its statements is atomic on its own.
    This is the call without another between its statements. *)
Definition Result (s : Service) (now : time) (r : EnrollmentResultRequest)
    : res enroll_error EnrollmentResultResponse * Service :=
  if negb (er_Version r =? EnrollmentVersion) then (Err ErrUnsupportedVersion, s) else
  if negb (same_str (er_CoreID r) (id_CoreID (s_identity s))) then (Err ErrCoreIdentity, s) else
  match GetPending (s_tables s) (er_RequestID r) with
  | Ok (Some pending) =>
      if cf_MaxAttempts (s_config s) <=? pd_AttemptCount pending then (Err ErrRateLimited, s) else
      if negb (is_ok (VerifyEnrollmentResult r)) ||
         negb (bool_decide (pd_BodyPublicKey pending = mustPublicKey (er_BodyPublicKey r)))
      then (Err ErrInvalidProof, put_tables s (IncrementAttempts (s_tables s) (er_RequestID r))) else
      match DecodeNonce (er_BodyNonce r) with
      | Err _ => (Err ErrInvalidProof, s)
      | Ok nonce =>
          match ConsumeResultNonce (s_tables s) (er_RequestID r) nonce with
          | (Err er, t) => (Err er, put_tables s t)
          | (Ok false, t) => (Err ErrReplayed, put_tables s t)
          | (Ok true, t) =>
              let status := if bool_decide (pd_Status pending = StatusPending) &&
                               negb (Before now (pd_ExpiresAt pending))
                            then StatusExpired else pd_Status pending in
              let response rc := {| rr_Version := 1; rr_RequestID := er_RequestID r;
                                    rr_Status := status_text status; rr_Receipt := rc |} in
              (if bool_decide (status = StatusEnrolled) then
                 match GetReceipt t (er_RequestID r) with
                 | Some receipt => Ok (response (Some receipt))
                 | None => Err ReceiptUnavailable
                 end
               else Ok (response None), put_tables s t)
          end
      end
  | _ => (Err ErrUnknownRequest, s)
  end.

(** *** Revocation *)

Definition Revoke (s : Service) (e : env) (bodyID ownerID : string)
    : res enroll_error unit * list effect * Service :=
  if empty_str bodyID || empty_str ownerID then (Err ErrUnauthorized, [], s) else
  if negb (permitted ownerID "revoke" bodyID) then (Err ErrUnauthorized, [], s) else
  match GetBody (s_tables s) bodyID with
  | None => (Err ErrUnknownBody, [], s)
  | Some body =>
      match GetMembership (s_network s) (br_MembershipRef body) with
      | None => (Err ErrUnknownBody, [], s)
      | Some membership =>
          if negb (same_str (m_BodyID membership) bodyID) then (Err ErrUnknownBody, [], s) else
          match (match br_RevokedAt body with
                 | Some _ => Ok (s_tables s)
                 | None => RevokeBody (s_tables s) (e_commit_fails e) bodyID
                             (set_status membership MembershipRevoked) (e_now e)
                 end) with
          | Err er => (Err er, [], s)
          | Ok t =>
              let s := put_tables s t in
              match (if same_str (m_Status membership) MembershipRevoked then Ok (s_network s)
                     else RevokeMembership (s_network s) (m_PeerID membership)) with
              | Err er => (Err (MembershipError er), [], s)
              | Ok n =>
                  let s := put_network s n in
                  let out := if s_sessions s then [DisconnectBody bodyID] else [] in
                  if s_peers s then
                    (if e_refresh_fails e then Err RefreshFailed else Ok tt, out ++ [RefreshPeers], s)
                  else (Ok tt, out, s)
              end
          end
      end
  end.

End service.

(** The HTTP status of an error. *)
Definition enrollment_status (e : enroll_error) : Z * string :=
  match e with
  | ErrUnsupportedVersion => (400, "unsupported_version")
  | ErrInvalidProof => (401, "invalid_proof")
  | ErrCoreIdentity => (401, "core_identity_mismatch")
  | ErrUnauthorized => (401, "unauthorized")
  | ErrUnknownRequest => (404, "unknown_request")
  | ErrExpired => (410, "expired")
  | ErrDenied => (403, "denied")
  | ErrReplayed => (409, "replayed")
  | ErrRateLimited => (429, "rate_limited")
  | ErrRevoked => (403, "revoked")
  | _ => (503, "unavailable")
  end.
