(* ===== verification/EnrollmentSpec.v ===== *)
(** * What enrollment promises

    An abstract machine for enrollment, the proof that the service of
    [Enrollment] refines it, and the invariant that ties the tables to the Doll
    Network in memory.

    The machine knows requests (waiting, refused, or turned into a Body), Bodies
    (their key and whether they are revoked) and used invitations.  Its four
    moves are the whole of what enrollment may do. *)
From S2P Require Import Prelude GoBytes GoTime SQL Network Invitation Signing EnrollmentStore Enrollment.
From stdpp Require Import options.

(** ** The abstract machine *)

Inductive request_state := Waiting | Refused | Member (bodyID : string).

Record request := { rq_key : list byte; rq_invitation : string; rq_state : request_state }.
Record credential := { cr_key : list byte; cr_revoked : bool }.

Record spec := {
  sp_requests : gmap string request;
  sp_bodies : gmap string credential;
  sp_used : gset string;
}.

Definition with_state (q : request) (x : request_state) : request :=
  {| rq_key := rq_key q; rq_invitation := rq_invitation q; rq_state := x |}.

Inductive spec_step : spec -> spec -> Prop :=
| sp_request a id q :
    sp_requests a !! id = None -> rq_state q = Waiting ->
    spec_step a {| sp_requests := <[id := q]> (sp_requests a); sp_bodies := sp_bodies a; sp_used := sp_used a |}
| sp_refuse a id q :
    sp_requests a !! id = Some q -> rq_state q = Waiting ->
    spec_step a {| sp_requests := <[id := with_state q Refused]> (sp_requests a);
                   sp_bodies := sp_bodies a; sp_used := sp_used a |}
| sp_enrol a id q b :
    sp_requests a !! id = Some q -> rq_state q = Waiting ->
    sp_bodies a !! b = None -> (forall b' c, sp_bodies a !! b' = Some c -> cr_key c <> rq_key q) ->
    (rq_invitation q <> "" -> rq_invitation q ∉ sp_used a) ->
    spec_step a {| sp_requests := <[id := with_state q (Member b)]> (sp_requests a);
                   sp_bodies := <[b := {| cr_key := rq_key q; cr_revoked := false |}]> (sp_bodies a);
                   sp_used := if empty_str (rq_invitation q) then sp_used a
                              else {[ rq_invitation q ]} ∪ sp_used a |}
| sp_revoke a b c :
    sp_bodies a !! b = Some c -> cr_revoked c = false ->
    spec_step a {| sp_requests := sp_requests a;
                   sp_bodies := <[b := {| cr_key := cr_key c; cr_revoked := true |}]> (sp_bodies a);
                   sp_used := sp_used a |}
| sp_invitations a used' :
    sp_used a ⊆ used' ->
    spec_step a {| sp_requests := sp_requests a; sp_bodies := sp_bodies a; sp_used := used' |}.

(** *** What the machine guarantees *)

Record spec_ok (a : spec) : Prop := {
  ok_member : forall id q b, sp_requests a !! id = Some q -> rq_state q = Member b ->
    (rq_invitation q = "" \/ rq_invitation q ∈ sp_used a) /\
    exists c, sp_bodies a !! b = Some c /\ cr_key c = rq_key q;
  ok_body : forall b c, sp_bodies a !! b = Some c ->
    exists id q, sp_requests a !! id = Some q /\ rq_state q = Member b;
  ok_one_request : forall id id' q q' b, sp_requests a !! id = Some q -> sp_requests a !! id' = Some q' ->
    rq_state q = Member b -> rq_state q' = Member b -> id = id';
  ok_one_use : forall id id' q q' b b', sp_requests a !! id = Some q -> sp_requests a !! id' = Some q' ->
    rq_state q = Member b -> rq_state q' = Member b' ->
    rq_invitation q = rq_invitation q' -> rq_invitation q <> "" -> id = id';
  ok_one_key : forall b b' c c', sp_bodies a !! b = Some c -> sp_bodies a !! b' = Some c' ->
    cr_key c = cr_key c' -> b = b';
}.

(** Decisions are final. *)
Definition final (a a' : spec) : Prop :=
  (forall id q, sp_requests a !! id = Some q -> exists q', sp_requests a' !! id = Some q' /\
     rq_key q' = rq_key q /\ rq_invitation q' = rq_invitation q /\
     (rq_state q <> Waiting -> rq_state q' = rq_state q)) /\
  (forall b c, sp_bodies a !! b = Some c -> exists c', sp_bodies a' !! b = Some c' /\ cr_key c' = cr_key c /\
     (cr_revoked c = true -> cr_revoked c' = true)) /\
  sp_used a ⊆ sp_used a'.

Lemma final_refl a : final a a.
Proof. split_and!; [eauto 10..|done]. Qed.

Lemma final_trans a b c : final a b -> final b c -> final a c.
Proof.
  intros (H1 & H2 & H3) (K1 & K2 & K3). split_and!; [| |set_solver].
  - intros id q Hq. destruct (H1 _ _ Hq) as (q' & Hq' & E1 & E2 & E3).
    destruct (K1 _ _ Hq') as (q'' & Hq'' & F1 & F2 & F3). exists q''. split_and!; [done|congruence..|].
    intros Hs. rewrite <- E3 by done. apply F3. by rewrite E3.
  - intros x cr Hx. destruct (H2 _ _ Hx) as (c' & Hc' & E1 & E2).
    destruct (K2 _ _ Hc') as (c'' & Hc'' & F1 & F2). exists c''. split_and!; [done|congruence|auto].
Qed.

Lemma final_requests a id q q' :
  sp_requests a !! id = Some q -> rq_state q = Waiting -> rq_key q' = rq_key q ->
  rq_invitation q' = rq_invitation q ->
  forall id0 q0, sp_requests a !! id0 = Some q0 -> exists q1, <[id := q']> (sp_requests a) !! id0 = Some q1 /\
     rq_key q1 = rq_key q0 /\ rq_invitation q1 = rq_invitation q0 /\
     (rq_state q0 <> Waiting -> rq_state q1 = rq_state q0).
Proof.
  intros Hq Hw Hk Hi id0 q0 H0. destruct (decide (id0 = id)) as [->|].
  - rewrite lookup_insert_eq. exists q'. simplify_eq. by split_and!.
  - rewrite lookup_insert_ne by done. eauto.
Qed.

Lemma spec_step_final a a' : spec_step a a' -> final a a'.
Proof.
  intros Hst. destruct Hst as [a id q Hn Hw|a id q Hq Hw|a id q b Hq Hw Hb Hk Hi|a b c Hb Hc|a used' Hu];
    unfold final; simpl.
  - split_and!; [|eauto|done]. intros id0 q0 H0. rewrite lookup_insert_ne by congruence. eauto.
  - split_and!; [by eapply final_requests|eauto|done].
  - split_and!; [by eapply final_requests| |destruct (empty_str _); set_solver].
    intros b0 c0 H0. rewrite lookup_insert_ne by congruence. eauto.
  - split_and!; [eauto| |done]. intros b0 c0 H0. destruct (decide (b0 = b)) as [->|].
    + rewrite lookup_insert_eq. simplify_eq. eauto.
    + rewrite lookup_insert_ne by done. eauto.
  - split_and!; [eauto..|done].
Qed.

Lemma spec_steps_final a a' : rtc spec_step a a' -> final a a'.
Proof.
  induction 1 as [|a b c Hs _ IH]; [apply final_refl|]. eapply final_trans; [by apply spec_step_final|done].
Qed.

(** Replacing a waiting request by one that is not a member keeps the machine sound. *)
Lemma put_request_ok a id q :
  spec_ok a -> (forall b, rq_state q <> Member b) ->
  (forall q0 b, sp_requests a !! id = Some q0 -> rq_state q0 <> Member b) ->
  spec_ok {| sp_requests := <[id := q]> (sp_requests a); sp_bodies := sp_bodies a; sp_used := sp_used a |}.
Proof.
  intros [H1 H2 H3 H4 H5] Hq Hold.
  assert (Hl : forall id0 q0 b, <[id := q]> (sp_requests a) !! id0 = Some q0 -> rq_state q0 = Member b ->
    sp_requests a !! id0 = Some q0).
  { intros id0 q0 b [[<- <-]|[_ H0]]%lookup_insert_Some Hm; [|done]. by destruct (Hq b). }
  split; simpl; [by eauto| | | |done].
  - intros b c Hb. destruct (H2 _ _ Hb) as (id0 & q0 & Hq0 & Hm). exists id0, q0. split; [|done].
    rewrite lookup_insert_ne; [done|]. intros <-. by destruct (Hold q0 b).
  - intros id1 id2 q1 q2 b K1 K2 E1 E2. apply (H3 _ _ q1 q2 b); eauto.
  - intros id1 id2 q1 q2 b b' K1 K2 E1 E2. apply (H4 _ _ q1 q2 b b'); eauto.
Qed.

#[export] Instance spec_preserves : Preserves spec_step spec_ok.
Proof.
  intros a a' Hst Hok. destruct Hst as [a id q Hn Hw|a id q Hq Hw|a id q b Hq Hw Hb Hk Hi|a b c Hb Hc|a used' Hu].
  - apply put_request_ok; [done|by rewrite Hw|]. intros q0 b. by rewrite Hn.
  - apply put_request_ok; [done|done|]. intros q0 b. rewrite Hq. intros [= <-]. by rewrite Hw.
  - destruct Hok as [H1 H2 H3 H4 H5].
    assert (Hfresh : forall id0 q0, sp_requests a !! id0 = Some q0 -> rq_state q0 <> Member b).
    { intros id0 q0 H0 Hm. destruct (H1 _ _ _ H0 Hm) as (_ & c & Hc & _). congruence. }
    assert (Hunused : forall id0 q0 b0, sp_requests a !! id0 = Some q0 -> rq_state q0 = Member b0 ->
      rq_invitation q0 = rq_invitation q -> rq_invitation q <> "" -> False).
    { intros id0 q0 b0 H0 Hm He Hne. destruct (H1 _ _ _ H0 Hm) as ([?|?] & _); [congruence|].
      rewrite He in *. by apply Hi. }
    split; simpl.
    + intros id0 q0 b0 [[<- <-]|[Hne H0]]%lookup_insert_Some Hm; simpl in *.
      * injection Hm as <-. split; [|rewrite lookup_insert_eq; eauto].
        destruct (empty_str (rq_invitation q)) eqn:E; [apply empty_str_true in E; auto|set_solver].
      * destruct (H1 _ _ _ H0 Hm) as (Hu & c & Hc & Hck). split.
        { destruct Hu as [?|?]; [by left|right]. destruct (empty_str _); set_solver. }
        exists c. rewrite lookup_insert_ne by congruence. done.
    + intros b0 c0 [[<- <-]|[Hne H0]]%lookup_insert_Some.
      * exists id. rewrite lookup_insert_eq. eauto.
      * destruct (H2 _ _ H0) as (id0 & q0 & Hq0 & Hm). exists id0, q0. split; [|done].
        rewrite lookup_insert_ne; [done|]. intros <-. congruence.
    + intros id1 id2 q1 q2 b0 [[<- <-]|[? K1]]%lookup_insert_Some [[<- <-]|[? K2]]%lookup_insert_Some E1 E2;
        simpl in *; simplify_eq; try done; [by destruct (Hfresh _ _ K2)|by destruct (Hfresh _ _ K1)|by eapply H3].
    + intros id1 id2 q1 q2 b1 b2 [[<- <-]|[? K1]]%lookup_insert_Some [[<- <-]|[? K2]]%lookup_insert_Some E1 E2 He Hne;
        simpl in *; try done; [exfalso; by eapply (Hunused _ _ _ K2)|exfalso; exact (Hunused _ _ _ K1 E1 He ltac:(congruence))|
        by eapply (H4 _ _ q1 q2)].
    + intros b1 b2 c1 c2 [[<- <-]|[? K1]]%lookup_insert_Some [[<- <-]|[? K2]]%lookup_insert_Some He; simpl in *;
        try done; [by destruct (Hk _ _ K2)|by destruct (Hk _ _ K1)|by eapply H5].
  - destruct Hok as [H1 H2 H3 H4 H5]. split; simpl; [| |done|done|].
    + intros id0 q0 b0 H0 Hm. destruct (H1 _ _ _ H0 Hm) as (Hu & c0 & Hc0 & Hck). split; [done|].
      destruct (decide (b0 = b)) as [->|]; [rewrite lookup_insert_eq; eexists; split; [done|]; simpl; congruence|].
      rewrite lookup_insert_ne by done. eauto.
    + intros b0 c0 [[<- <-]|[_ H0]]%lookup_insert_Some; eauto.
    + intros b1 b2 c1 c2 [[<- <-]|[? K1]]%lookup_insert_Some [[<- <-]|[? K2]]%lookup_insert_Some He; simpl in *;
        try done; [by eapply (H5 b b2)|by eapply (H5 b1 b)|by eapply H5].
  - destruct Hok as [H1 H2 H3 H4 H5]. split; simpl; try done.
    intros id0 q0 b0 H0 Hm. destruct (H1 _ _ _ H0 Hm) as ([?|?] & ?); split; auto.
Qed.

Lemma spec_empty_ok used : spec_ok {| sp_requests := ∅; sp_bodies := ∅; sp_used := used |}.
Proof. split; intros *; simpl; rewrite ?lookup_empty; done. Qed.

(** ** The abstraction *)

Definition abs_request (receipts : gmap string EnrollmentReceipt) (id : string) (p : PendingEnrollment)
    : request :=
  {| rq_key := pd_BodyPublicKey p; rq_invitation := pd_InvitationID p;
     rq_state := match pd_Status p with
                 | StatusPending | StatusExpired => Waiting
                 | StatusDenied => Refused
                 | StatusEnrolled =>
                     Member (match receipts !! id with Some rc => rc_BodyID rc | None => "" end)
                 end |}.

Definition abs_body (b : BodyRecord) : credential :=
  {| cr_key := br_PublicKey b; cr_revoked := bool_decide (is_Some (br_RevokedAt b)) |}.

Definition used_ids (s : SQLStore) : gset string :=
  dom (filter (fun e : string * Invitation => i_Consumed e.2 = true) (sq_rows s)).

Definition abs (t : tables) : spec :=
  {| sp_requests := map_imap (fun id p => Some (abs_request (t_receipts t) id p)) (t_pending t);
     sp_bodies := abs_body <$> t_bodies t;
     sp_used := used_ids (t_invitations t) |}.

Lemma abs_lookup t id :
  sp_requests (abs t) !! id = abs_request (t_receipts t) id <$> t_pending t !! id.
Proof. simpl. rewrite map_lookup_imap. by destruct (t_pending t !! id). Qed.

Lemma elem_of_used_ids s id :
  id ∈ used_ids s <-> exists i, sq_rows s !! id = Some i /\ i_Consumed i = true.
Proof.
  unfold used_ids. rewrite elem_of_dom. unfold is_Some. setoid_rewrite map_lookup_filter_Some. done.
Qed.

Lemma spec_eq a a' :
  (forall id, sp_requests a !! id = sp_requests a' !! id) -> sp_bodies a = sp_bodies a' ->
  sp_used a = sp_used a' -> a = a'.
Proof. destruct a, a'; simpl. intros H%map_eq -> ->. by subst. Qed.

Lemma spec_step_eq a b b' : spec_step a b -> b = b' -> spec_step a b'.
Proof. by intros ? <-. Qed.

(** *** Statements as moves *)

Lemma CreatePending_inv t p t' :
  CreatePending t p = Ok t' ->
  t_pending t !! pd_RequestID p = None /\ t' = put_pending t (<[pd_RequestID p := p]> (t_pending t)).
Proof.
  unfold CreatePending. case_bool_decide as E; [done|]. do 2 (destruct (any_row _ _); [done|]).
  intros [= <-]. split; [by apply eq_None_not_Some|done].
Qed.

Lemma create_moves t p t' :
  CreatePending t p = Ok t' -> pd_Status p = StatusPending -> spec_step (abs t) (abs t').
Proof.
  intros (Hn & ->)%CreatePending_inv Hs.
  replace (abs (put_pending _ _)) with
    {| sp_requests := <[pd_RequestID p := abs_request (t_receipts t) (pd_RequestID p) p]> (sp_requests (abs t));
       sp_bodies := sp_bodies (abs t); sp_used := sp_used (abs t) |}.
  - constructor; [by rewrite abs_lookup, Hn|]. simpl. by rewrite Hs.
  - apply spec_eq; [|done..]. intros id. rewrite abs_lookup. cbn [put_pending t_pending t_receipts sp_requests].
    destruct (decide (id = pd_RequestID p)) as [->|]; [by rewrite !lookup_insert_eq|].
    rewrite !lookup_insert_ne by done. apply abs_lookup.
Qed.

Lemma deny_moves t id owner t' : DenyRow t id owner = Ok t' -> spec_step (abs t) (abs t').
Proof.
  unfold DenyRow. destruct (t_pending t !! id) as [p|] eqn:Hp; [|done]. case_bool_decide as Hs; [|done].
  intros [= <-]. replace (abs (put_pending _ _)) with
    {| sp_requests := <[id := with_state (abs_request (t_receipts t) id p) Refused]> (sp_requests (abs t));
       sp_bodies := sp_bodies (abs t); sp_used := sp_used (abs t) |}.
  - constructor; [by rewrite abs_lookup, Hp|]. simpl. by rewrite Hs.
  - apply spec_eq; [|done..]. intros id'. rewrite abs_lookup. cbn [put_pending t_pending t_receipts sp_requests].
    destruct (decide (id' = id)) as [->|]; [by rewrite !lookup_insert_eq|].
    rewrite !lookup_insert_ne by done. apply abs_lookup.
Qed.

Lemma attempts_same t id : abs (IncrementAttempts t id) = abs t.
Proof.
  unfold IncrementAttempts. destruct (t_pending t !! id) as [p|] eqn:Hp; [|done].
  apply spec_eq; [|done..]. intros id'. rewrite !abs_lookup. cbn [put_pending t_pending t_receipts].
  destruct (decide (id' = id)) as [->|]; [by rewrite lookup_insert_eq, Hp|]. by rewrite lookup_insert_ne.
Qed.

Lemma nonce_same t id nonce : abs (ConsumeResultNonce t id nonce).2 = abs t.
Proof. unfold ConsumeResultNonce. by case_bool_decide. Qed.

(** Everything a committed completion did. *)
Lemma Complete_row_inv t fails c t' :
  Complete t fails c = Ok t' ->
  let p := cm_Pending c in let b := cm_Body c in let key := membershipKey (m_PeerID (cm_Membership c)) in
  exists row invs,
    t_pending t !! pd_RequestID p = Some row /\ pd_Status row = StatusPending /\
    t_receipts t !! pd_RequestID p = None /\ t_bodies t !! br_BodyID b = None /\ t_network t !! key = None /\
    (forall k x, t_bodies t !! k = Some x -> br_PublicKey x <> br_PublicKey b /\
                                             br_MembershipRef x <> br_MembershipRef b) /\
    (if empty_str (pd_InvitationID p) then invs = t_invitations t
     else pd_InvitationID p ∉ used_ids (t_invitations t) /\
          take_invitation (t_invitations t) (pd_InvitationID p) = Ok invs) /\
    t' = {| t_identity := t_identity t;
            t_pending := <[pd_RequestID p := decided row StatusEnrolled (pd_ApprovedOwnerID p)
                                               (pd_Permissions p)]> (t_pending t);
            t_bodies := <[br_BodyID b := credential_row b]> (t_bodies t);
            t_receipts := <[pd_RequestID p := cm_Receipt c]> (t_receipts t);
            t_nonces := t_nonces t; t_invitations := invs;
            t_network := <[key := membershipToRow (cm_Membership c)]> (t_network t) |}.
Proof.
  intros Hc p b key. unfold Complete in Hc. destruct fails; [done|]. fold p b key in Hc.
  destruct (if empty_str _ then _ else _) as [invs|] eqn:Ei; [|done]. cbn [res_bind] in Hc.
  case_bool_decide as Eb; [done|]. destruct (any_row _ _) eqn:Ea; [done|].
  case_bool_decide as En; [done|]. case_bool_decide as Er; [done|].
  destruct (t_pending t !! pd_RequestID p) as [row|] eqn:Ep; [|done]. case_bool_decide as Es; [|done].
  injection Hc as <-. exists row, invs. rewrite any_row_false in Ea.
  split_and!; try done; try (by apply eq_None_not_Some).
  - intros k x Hk. specialize (Ea _ _ Hk). apply orb_false_iff in Ea as [E1 E2].
    by apply bool_decide_eq_false in E1; apply same_str_false in E2.
  - destruct (empty_str _); [by injection Ei as <-|]. split; [|done]. intros (i & Hi & Hci)%elem_of_used_ids.
    unfold take_invitation in Ei. by rewrite Hi, Hci in Ei.
Qed.

Lemma take_invitation_used s id s' :
  take_invitation s id = Ok s' -> used_ids s' = {[ id ]} ∪ used_ids s.
Proof.
  unfold take_invitation. destruct (sq_rows s !! id) as [i|] eqn:Hi; [|done].
  destruct (i_Consumed i); [done|]. intros [= <-]. apply set_eq. intros id'.
  rewrite elem_of_union, elem_of_singleton, !elem_of_used_ids. simpl.
  destruct (decide (id' = id)) as [->|].
  - rewrite lookup_insert_eq. split; [by left|]. intros _. by exists (consumed_invitation i).
  - rewrite lookup_insert_ne by done. naive_solver.
Qed.

Lemma complete_moves t fails c t' row :
  Complete t fails c = Ok t' -> t_pending t !! pd_RequestID (cm_Pending c) = Some row ->
  br_PublicKey (cm_Body c) = pd_BodyPublicKey row -> pd_InvitationID (cm_Pending c) = pd_InvitationID row ->
  rc_BodyID (cm_Receipt c) = br_BodyID (cm_Body c) ->
  spec_step (abs t) (abs t').
Proof.
  intros Hc Hrow Hkey Hinv Hbody.
  destruct (Complete_row_inv _ _ _ _ Hc) as (row' & invs & Hrow' & Hs & Hr & Hb & _ & Hu & Hi & ->).
  rewrite Hrow in Hrow'. injection Hrow' as <-. set (id := pd_RequestID (cm_Pending c)) in *.
  eapply spec_step_eq.
  - apply (sp_enrol (abs t) id (abs_request (t_receipts t) id row) (br_BodyID (cm_Body c))).
    + by rewrite abs_lookup, Hrow.
    + simpl. by rewrite Hs.
    + simpl. by rewrite lookup_fmap, Hb.
    + simpl. intros b' cr (b0 & <- & H0)%lookup_fmap_Some. simpl. rewrite <- Hkey. by apply (Hu b').
    + simpl. intros Hne. rewrite Hinv in Hi. rewrite (proj2 (empty_str_false _) Hne) in Hi. by destruct Hi.
  - apply spec_eq.
    + intros id'. rewrite abs_lookup. cbn [t_pending t_receipts sp_requests].
      destruct (decide (id' = id)) as [->|].
      * rewrite !lookup_insert_eq. simpl. unfold with_state, abs_request, decided. simpl.
        by rewrite lookup_insert_eq, Hbody.
      * rewrite !lookup_insert_ne by done. rewrite abs_lookup. destruct (t_pending t !! id'); [|done].
        simpl. unfold abs_request. by rewrite lookup_insert_ne.
    + simpl. rewrite fmap_insert. unfold abs_body, credential_row. simpl. by rewrite Hkey.
    + simpl. rewrite Hinv in Hi. destruct (empty_str (pd_InvitationID row)); [by subst|].
      destruct Hi as [_ Hi]. symmetry. by apply take_invitation_used.
Qed.

Lemma RevokeBody_inv t fails id m at_ t' :
  RevokeBody t fails id m at_ = Ok t' ->
  exists b, t_bodies t !! id = Some b /\ br_RevokedAt b = None /\ m_BodyID m = id /\
    m_Status m = MembershipRevoked /\
    t' = {| t_identity := t_identity t; t_pending := t_pending t;
            t_bodies := <[id := revoked_body b at_]> (t_bodies t);
            t_receipts := t_receipts t; t_nonces := t_nonces t; t_invitations := t_invitations t;
            t_network := <[membershipKey (m_PeerID m) := membershipToRow m]> (t_network t) |}.
Proof.
  unfold RevokeBody. destruct (_ || _) eqn:E; [done|]. destruct fails; [done|].
  apply orb_false_iff in E as [E1%negb_false_iff%same_str_true E2%negb_false_iff%same_str_true].
  destruct (t_bodies t !! id) as [b|] eqn:Hb; [|done]. destruct (br_RevokedAt b) eqn:Hr; [done|].
  intros [= <-]. eauto 10.
Qed.

Lemma revoke_moves t fails id m at_ t' :
  RevokeBody t fails id m at_ = Ok t' -> spec_step (abs t) (abs t').
Proof.
  intros (b & Hb & Hr & _ & _ & ->)%RevokeBody_inv.
  eapply spec_step_eq.
  - apply (sp_revoke (abs t) id (abs_body b)); [by simpl; rewrite lookup_fmap, Hb|]. simpl. by rewrite Hr.
  - apply spec_eq; [done| |done]. simpl. by rewrite fmap_insert.
Qed.

Lemma invitations_move t (cs : list inv_call) :
  spec_step (abs t)
    (abs {| t_identity := t_identity t; t_pending := t_pending t; t_bodies := t_bodies t;
            t_receipts := t_receipts t; t_nonces := t_nonces t;
            t_invitations := (inv_perform_all (t_invitations t) cs).2; t_network := t_network t |}).
Proof.
  eapply spec_step_eq; [apply (sp_invitations (abs t) (used_ids (inv_perform_all (t_invitations t) cs).2))|by apply spec_eq].
  intros id (i & Hi & Hc)%elem_of_used_ids.
  destruct (inv_perform_all_used (t_invitations t) cs id) as [(j & Hj & Hjc) _]; [by exists i|].
  apply elem_of_used_ids. by exists j.
Qed.

(** ** The invariant of the service *)

Record service_ok (s : Service) : Prop := {
  so_network : network_wf (s_network s);
  so_stored : stored (s_network s) (t_network (s_tables s));
  so_endpoint : map_Forall (fun _ m => m_Endpoint m = "") (n_Memberships (s_network s));
  so_pending : forall id p, t_pending (s_tables s) !! id = Some p ->
    pd_RequestID p = id /\ length (pd_BodyPublicKey p) = 32%nat /\ length (pd_WGPublicKey p) = 32%nat;
  so_receipt : forall id p, t_pending (s_tables s) !! id = Some p -> pd_Status p = StatusEnrolled ->
    is_Some (t_receipts (s_tables s) !! id);
  so_enrolled : forall id rc, t_receipts (s_tables s) !! id = Some rc ->
    exists p b, t_pending (s_tables s) !! id = Some p /\ pd_Status p = StatusEnrolled /\
      t_bodies (s_tables s) !! rc_BodyID rc = Some b /\ br_PublicKey b = pd_BodyPublicKey p /\
      br_MembershipRef b = rc_MembershipReference rc;
  so_body : forall id b, t_bodies (s_tables s) !! id = Some b ->
    br_BodyID b = id /\ exists m, n_Memberships (s_network s) !! br_MembershipRef b = Some m /\
      m_BodyID m = id /\ m_Status m = (if br_RevokedAt b then MembershipRevoked else MembershipActive);
}.

(** ** The service's operations as atomic changes *)

Section refinement.
Context `{Hed : Ed25519}.
Context (authorize : string -> OwnerAction -> bool) (upper_other : string -> string).

Lemma put_tables_id s : put_tables s (s_tables s) = s.
Proof. by destruct s. Qed.

Lemma put_network_id s : put_network s (s_network s) = s.
Proof. by destruct s. Qed.

Definition enrolled_membership (m : Membership) (wg : list byte) : Membership :=
  set_status (set_key m wg) MembershipActive.

Inductive atom (s : Service) : Service -> Prop :=
| at_create p t' :
    CreatePending (s_tables s) p = Ok t' -> pd_Status p = StatusPending ->
    length (pd_BodyPublicKey p) = 32%nat -> length (pd_WGPublicKey p) = 32%nat ->
    atom s (put_tables s t')
| at_deny id owner t' : DenyRow (s_tables s) id owner = Ok t' -> atom s (put_tables s t')
| at_attempt id : atom s (put_tables s (IncrementAttempts (s_tables s) id))
| at_nonce id nonce : atom s (put_tables s (ConsumeResultNonce (s_tables s) id nonce).2)
| at_enrol p bodyID peerID m n1 c t' :
    t_pending (s_tables s) !! pd_RequestID p = Some p ->
    NewMembership (s_network s) bodyID peerID = Ok (m, n1) ->
    Complete (s_tables s) false c = Ok t' ->
    pd_RequestID (cm_Pending c) = pd_RequestID p -> pd_InvitationID (cm_Pending c) = pd_InvitationID p ->
    br_BodyID (cm_Body c) = bodyID -> br_PublicKey (cm_Body c) = pd_BodyPublicKey p ->
    br_MembershipRef (cm_Body c) = peerID ->
    rc_BodyID (cm_Receipt c) = bodyID -> rc_MembershipReference (cm_Receipt c) = peerID ->
    cm_Membership c = enrolled_membership m (pd_WGPublicKey p) ->
    atom s (put_tables (put_network s (put_memberships (s_network s)
              (<[peerID := enrolled_membership m (pd_WGPublicKey p)]> (n_Memberships (s_network s))))) t')
| at_revoke id b m now t' :
    t_bodies (s_tables s) !! id = Some b ->
    n_Memberships (s_network s) !! br_MembershipRef b = Some m -> m_PeerID m = br_MembershipRef b ->
    RevokeBody (s_tables s) false id (set_status m MembershipRevoked) now = Ok t' ->
    atom s (put_tables (put_network s (put_memberships (s_network s)
              (<[br_MembershipRef b := set_status m MembershipRevoked]> (n_Memberships (s_network s))))) t')
| at_invitations cs :
    atom s (put_tables s
      {| t_identity := t_identity (s_tables s); t_pending := t_pending (s_tables s);
         t_bodies := t_bodies (s_tables s); t_receipts := t_receipts (s_tables s);
         t_nonces := t_nonces (s_tables s);
         t_invitations := (inv_perform_all (t_invitations (s_tables s)) cs).2;
         t_network := t_network (s_tables s) |})
| at_lifecycle sessions peers : atom s (SetRevocationLifecycle s sessions peers).

Lemma atom_moves s s' : atom s s' -> rtc spec_step (abs (s_tables s)) (abs (s_tables s')).
Proof.
  destruct 1 as [p t' Hc Hs _ _|id o t' Hd|id|id nonce|p bid pid m n1 c t' Hp Hn Hc Hr Hi Hb Hk Hm Hrb Hrm Hcm
                |id b m now t' Hb Hm Hp Hr|cs|]; simpl.
  - apply rtc_once. by eapply create_moves.
  - apply rtc_once. by eapply deny_moves.
  - by rewrite attempts_same.
  - by rewrite nonce_same.
  - apply rtc_once. eapply complete_moves; [done|by rewrite Hr|done|done|congruence].
  - apply rtc_once. by eapply revoke_moves.
  - apply rtc_once, invitations_move.
  - done.
Qed.

(** *** Each kind of change keeps the invariant *)

(** Changes that leave bodies, receipts and the network alone. *)
Lemma pending_change_ok s t' :
  service_ok s -> t_bodies t' = t_bodies (s_tables s) -> t_receipts t' = t_receipts (s_tables s) ->
  t_network t' = t_network (s_tables s) ->
  (forall id p, t_pending t' !! id = Some p ->
    pd_RequestID p = id /\ length (pd_BodyPublicKey p) = 32%nat /\ length (pd_WGPublicKey p) = 32%nat /\
    (pd_Status p = StatusEnrolled -> exists p0, t_pending (s_tables s) !! id = Some p0 /\ pd_Status p0 = StatusEnrolled)) ->
  (forall id p, t_pending (s_tables s) !! id = Some p -> pd_Status p = StatusEnrolled ->
    exists p', t_pending t' !! id = Some p' /\ pd_Status p' = StatusEnrolled /\
               pd_BodyPublicKey p' = pd_BodyPublicKey p) ->
  service_ok (put_tables s t').
Proof.
  intros [H1 H2 H3 H4 H5 H6 H7] Hb Hr Hn Hp Hkeep. split; simpl; rewrite ?Hb, ?Hr, ?Hn; try done.
  - intros id p Hid. destruct (Hp _ _ Hid) as (? & ? & ? & _). done.
  - intros id p Hid He. destruct (Hp _ _ Hid) as (_ & _ & _ & Hold). destruct (Hold He) as (p0 & ? & ?).
    by eapply H5.
  - intros id rc Hrc. destruct (H6 _ _ Hrc) as (p & b & Hid & He & ? & Hk & ?).
    destruct (Hkeep _ _ Hid He) as (p' & ? & ? & Hk'). exists p', b. split_and!; congruence.
Qed.

Lemma enrol_ok s p bodyID peerID m n1 c t' :
  service_ok s -> t_pending (s_tables s) !! pd_RequestID p = Some p ->
  NewMembership (s_network s) bodyID peerID = Ok (m, n1) ->
  Complete (s_tables s) false c = Ok t' ->
  pd_RequestID (cm_Pending c) = pd_RequestID p -> pd_InvitationID (cm_Pending c) = pd_InvitationID p ->
  br_BodyID (cm_Body c) = bodyID -> br_PublicKey (cm_Body c) = pd_BodyPublicKey p ->
  br_MembershipRef (cm_Body c) = peerID -> rc_BodyID (cm_Receipt c) = bodyID ->
  rc_MembershipReference (cm_Receipt c) = peerID ->
  cm_Membership c = enrolled_membership m (pd_WGPublicKey p) ->
  service_ok (put_tables (put_network s (put_memberships (s_network s)
     (<[peerID := enrolled_membership m (pd_WGPublicKey p)]> (n_Memberships (s_network s))))) t').
Proof.
  intros [H1 H2 H3 H4 H5 H6 H7] Hp Hn Hc Hr Hi Hb Hk Hm Hrb Hrm Hcm.
  destruct (H4 _ _ Hp) as (_ & Hkl & Hwl).
  pose proof (new_member_wf _ _ _ _ _ _ H1 Hn Hwl) as Hwf.
  pose proof (NewMembership_fresh _ _ _ _ _ H1 Hn) as Hfresh.
  pose proof (NewMembership_ok _ _ _ _ _ Hn) as (_ & _ & Hmb & Hmp & _ & _ & _ & Hn1 & _).
  assert (He : m_Endpoint m = "").
  { revert Hn. unfold NewMembership. repeat (destruct (any_membership _ _) || destruct (empty_str _); try done).
    destruct (BodyAddress _ _); [|done]. simpl. destruct (any_membership _ _); [done|]. by intros [= <- _]. }
  destruct (Complete_row_inv _ _ _ _ Hc) as (row & invs & Hrow & Hs & Hrc & Hbn & Hkn & Hu & _ & ->).
  rewrite Hr in *. rewrite Hp in Hrow. injection Hrow as <-. rewrite Hb in *.
  set (m' := enrolled_membership m (pd_WGPublicKey p)) in *.
  assert (Hm' : m_PeerID m' = peerID) by done.
  split; simpl.
  - done.
  - rewrite Hcm. unfold membershipToRow. replace (forget_endpoint m') with m'.
    + apply (stored_save (s_network s) _ peerID m'); done.
    + unfold forget_endpoint, of_portable, to_portable, m', enrolled_membership, set_status, set_key. simpl.
      by rewrite He.
  - apply map_Forall_insert_2; [done|done].
  - intros id q [[<- <-]|[_ Hq]]%lookup_insert_Some; [done|by apply H4].
  - intros id q [[<- <-]|[Hne Hq]]%lookup_insert_Some Hq'; [by rewrite lookup_insert_eq|].
    rewrite lookup_insert_ne by done. by eapply H5.
  - intros id rc [[<- <-]|[Hne Hq]]%lookup_insert_Some.
    + eexists _, _. rewrite !lookup_insert_eq. split; [done|]. split; [done|]. rewrite Hrb.
      rewrite lookup_insert_eq. split; [done|]. simpl. split; [done|congruence].
    + destruct (H6 _ _ Hq) as (q & b & Hq1 & Hq2 & Hq3 & Hq4). exists q, b.
      rewrite !lookup_insert_ne by congruence. done.
  - intros id b [[<- <-]|[Hne Hq]]%lookup_insert_Some.
    + split; [done|]. exists m'. simpl. rewrite Hm, lookup_insert_eq. done.
    + destruct (H7 _ _ Hq) as (Hid & m0 & Hm0 & Hrest). split; [done|]. exists m0.
      rewrite lookup_insert_ne by congruence. done.
Qed.

Lemma revoke_ok s id b m now t' :
  service_ok s -> t_bodies (s_tables s) !! id = Some b ->
  n_Memberships (s_network s) !! br_MembershipRef b = Some m -> m_PeerID m = br_MembershipRef b ->
  RevokeBody (s_tables s) false id (set_status m MembershipRevoked) now = Ok t' ->
  service_ok (put_tables (put_network s (put_memberships (s_network s)
    (<[br_MembershipRef b := set_status m MembershipRevoked]> (n_Memberships (s_network s))))) t').
Proof.
  intros [H1 H2 H3 H4 H5 H6 H7] Hb Hm Hmp Hr.
  apply RevokeBody_inv in Hr as (b' & Hb' & Hrev & Hmb & _ & ->). rewrite Hb in Hb'. injection Hb' as <-.
  simpl in Hmb. assert (He : m_Endpoint m = "") by exact (H3 _ _ Hm).
  split; simpl; try done.
  - eapply update_member_wf; try done. apply set_status_ok; [by apply (nw_member _ H1)|done].
  - unfold membershipToRow. replace (forget_endpoint _) with (set_status m MembershipRevoked).
    + by apply (stored_save (s_network s) _ (br_MembershipRef b) (set_status m MembershipRevoked)).
    + unfold forget_endpoint, of_portable, to_portable, set_status. simpl. by rewrite He.
  - apply map_Forall_insert_2; [done|done].
  - intros id' rc Hrc. destruct (H6 _ _ Hrc) as (p & b0 & ? & ? & Hb0 & Hk & Href).
    destruct (decide (rc_BodyID rc = id)) as [Heq|].
    + rewrite Heq in *. simplify_eq. exists p, (revoked_body b now). by rewrite lookup_insert_eq.
    + exists p, b0. rewrite lookup_insert_ne by done. done.
  - intros id' b0 [[<- <-]|[Hne Hb0]]%lookup_insert_Some.
    + destruct (H7 _ _ Hb) as (Hid & _). split; [done|]. simpl. rewrite lookup_insert_eq. eauto.
    + destruct (H7 _ _ Hb0) as (Hid & m0 & Hm0 & Hmb0 & Hs0). split; [done|]. exists m0.
      rewrite lookup_insert_ne; [done|]. intros Heq. rewrite <- Heq in Hm0. congruence.
Qed.

#[export] Instance atom_preserves : Preserves atom service_ok.
Proof.
  intros s s' Ha Hok.
  destruct Ha as [p t' Hc Hs Hkl Hwl|id o t' Hd|id|id nonce|p bid pid m n1 c t' Hp Hn Hc Hr Hi Hb Hk Hm Hrb Hrm Hcm
                 |id b m now t' Hb Hm Hp Hr|cs|].
  - apply CreatePending_inv in Hc as [Hn ->]. apply pending_change_ok; try done; simpl.
    + intros id q [[<- <-]|[_ Hq]]%lookup_insert_Some; [by rewrite Hs|].
      destruct (so_pending _ Hok _ _ Hq) as (? & ? & ?). eauto 10.
    + intros id q Hq He. exists q. rewrite lookup_insert_ne by congruence. done.
  - unfold DenyRow in Hd. destruct (t_pending _ !! id) as [p|] eqn:Hp; [|done].
    case_bool_decide as Hs; [|done]. injection Hd as <-. apply pending_change_ok; try done; simpl.
    + intros id' q [[<- <-]|[_ Hq]]%lookup_insert_Some; simpl.
      * destruct (so_pending _ Hok _ _ Hp) as (? & ? & ?). by split_and!.
      * destruct (so_pending _ Hok _ _ Hq) as (? & ? & ?). eauto 10.
    + intros id' q Hq He. exists q. rewrite lookup_insert_ne by congruence. done.
  - unfold IncrementAttempts. destruct (t_pending _ !! id) as [p|] eqn:Hp; [|by rewrite put_tables_id].
    apply pending_change_ok; try done; simpl.
    + intros id' q [[<- <-]|[_ Hq]]%lookup_insert_Some; simpl.
      * destruct (so_pending _ Hok _ _ Hp) as (? & ? & ?). split_and!; eauto.
      * destruct (so_pending _ Hok _ _ Hq) as (? & ? & ?). eauto 10.
    + intros id' q Hq He. destruct (decide (id' = id)) as [->|].
      * rewrite lookup_insert_eq. simplify_eq. eauto.
      * rewrite lookup_insert_ne by done. eauto.
  - unfold ConsumeResultNonce. case_bool_decide; simpl; [by rewrite put_tables_id|].
    destruct Hok as [H1 H2 H3 H4 H5 H6 H7]. by split.
  - by eapply enrol_ok.
  - by eapply revoke_ok.
  - destruct Hok as [H1 H2 H3 H4 H5 H6 H7]. by split.
  - destruct Hok as [H1 H2 H3 H4 H5 H6 H7]. by split.
Qed.

(** *** The operations are made of such changes *)

Lemma SignEnrollmentReceipt_same k r r' :
  SignEnrollmentReceipt k r = Ok r' ->
  rc_BodyID r' = rc_BodyID r /\ rc_MembershipReference r' = rc_MembershipReference r /\
  rc_RequestID r' = rc_RequestID r /\ rc_Permissions r' = rc_Permissions r /\
  rc_BodyPublicKeyFingerprint r' = rc_BodyPublicKeyFingerprint r.
Proof.
  unfold SignEnrollmentReceipt. destruct (receipt_fields r); [|done]. cbn [res_bind].
  destruct (sign _ _ _); [|done]. by intros [= <-].
Qed.

(** A completion either leaves the service as it was, answering with the stored
    receipt or an error, or is one enrolment whose receipt it stores. *)
Lemma enroll_cases s e p owner perms r s' :
  service_ok s -> t_pending (s_tables s) !! pd_RequestID p = Some p ->
  enroll s e p owner perms = (r, s') ->
  (s' = s /\ forall rc, r = Ok rc -> rc = t_receipts (s_tables s) !! pd_RequestID p /\ is_Some rc) \/
  (atom s s' /\ exists rc rc0, r = Ok (Some rc) /\ t_receipts (s_tables s') !! pd_RequestID p = Some rc /\
     SignEnrollmentReceipt (id_PrivateKey (s_identity s)) rc0 = Ok rc /\
     rc_BodyPublicKeyFingerprint rc = BodyKeyFingerprint (pd_BodyPublicKey p) /\ rc_Permissions rc = perms).
Proof.
  intros Hok Hp. unfold enroll. set (bodyID := "body_" +:+ e_bodyUUID e).
  destruct (NewMembership (s_network s) bodyID (e_peerID e)) as [[m n1]|] eqn:En.
  2:{ intros [= <- <-]. by left. }
  pose proof (NewMembership_fresh _ _ _ _ _ (so_network _ Hok) En) as Hfresh.
  pose proof (NewMembership_ok _ _ _ _ _ En) as (_ & _ & Hmb & Hmp & _).
  destruct (new_member_joins _ _ _ _ _ (pd_WGPublicKey p) En) as (n2 & Hset & Hact).
  rewrite Hmp, Hset, Hact. cbv zeta. unfold GetMembership. cbn [n_Memberships put_memberships].
  rewrite lookup_insert_eq. cbn [default from_option id].
  destruct (SignEnrollmentReceipt _ _) as [rc|] eqn:Er.
  2:{ intros [= <- <-]. left. by rewrite rollback_new, put_network_id. }
  pose proof (SignEnrollmentReceipt_same _ _ _ Er) as (Hrb & Hrm & _ & Hrp & Hrf). simpl in *.
  destruct (Complete _ _ _) as [t'|] eqn:Ec; intros [= <- <-].
  - right. assert (Hf : e_commit_fails e = false) by (by destruct (e_commit_fails e)). rewrite Hf in Ec.
    split; [by eapply (at_enrol s p bodyID (e_peerID e) m n1)|]. eexists rc, _. split; [done|].
    destruct (Complete_row_inv _ _ _ _ Ec) as (row & invs & _ & _ & _ & _ & _ & _ & _ & ->). simpl.
    rewrite lookup_insert_eq. split_and!; [done|exact Er|done..].
  - left. rewrite rollback_new, put_network_id by done. split; [done|]. unfold GetReceipt.
    intros rc'. destruct (t_receipts (s_tables s) !! pd_RequestID p) as [rc0|]; [|done]. intros [= <-]. eauto.
Qed.

Lemma completeLocked_atoms s e p owner perms :
  service_ok s -> t_pending (s_tables s) !! pd_RequestID p = Some p ->
  rtc atom s (completeLocked s e p owner perms).2.
Proof.
  intros Hok Hp. unfold completeLocked. do 2 (case_bool_decide; [done|]). destruct (negb _); [done|].
  destruct (enroll s e p owner perms) as [r s'] eqn:E.
  destruct (enroll_cases _ _ _ _ _ _ _ Hok Hp E) as [[-> _]|[Ha _]]; [done|by apply rtc_once].
Qed.

Lemma newPending_inv s now id mode k w nc inv md v p :
  newPending s now id mode k w nc inv md v = Ok p ->
  pd_Status p = StatusPending /\ pd_RequestID p = id /\ length (pd_BodyPublicKey p) = 32%nat /\
  length (pd_WGPublicKey p) = 32%nat /\ pd_ExpiresAt p = truncate_second now + cf_PendingLifetime (s_config s) /\
  pd_InvitationID p = inv /\ pd_Mode p = mode /\ pd_CodeVerifier p = v /\
  DecodeBodyPublicKey k = Ok (pd_BodyPublicKey p).
Proof.
  unfold newPending. destruct (_ || _); [done|]. destruct (_ <? _); [done|].
  destruct (DecodeBodyPublicKey k) as [kb|] eqn:Ek; [|done]. destruct (DecodeWgPublicKey w) as [wb|] eqn:Ew; [|done].
  destruct (DecodeNonce nc); [|done]. intros [= <-]. simpl.
  unfold DecodeBodyPublicKey, decode_sized in Ek. destruct (Base64.RawURLDecode k); [|done].
  destruct (_ =? _) eqn:E1 in Ek; [|done]. injection Ek as <-. unfold DecodeWgPublicKey in Ew.
  destruct (Base64.StdDecode w); [|done]. destruct (_ =? _) eqn:E2 in Ew; [|done]. injection Ew as <-.
  bool_props. unfold len, PublicKeySize, WgPublicKeySize in *. split_and!; try done; lia.
Qed.

Lemma scanPending_inv row p : scanPending row = Ok (Some p) -> row = Some p.
Proof. destruct row as [q|]; simpl; [|done]. destruct (_ || _); [done|]. by intros [= <-]. Qed.

(** Rows found by their code are the rows of their requests. *)
Lemma GetPendingByCodeVerifier_inv s v p :
  service_ok s -> GetPendingByCodeVerifier (s_tables s) v = Ok (Some p) ->
  t_pending (s_tables s) !! pd_RequestID p = Some p /\ pd_CodeVerifier p = v.
Proof.
  intros Hok Hg%scanPending_inv. apply List.find_some in Hg as [Hin Hv].
  apply list_elem_of_In, list_elem_of_fmap in Hin as ([id q] & -> & Hin).
  apply elem_of_map_to_list in Hin. simpl in *. destruct (so_pending _ Hok _ _ Hin) as (-> & _).
  split; [done|]. unfold same_verifier in Hv. apply andb_true_iff in Hv as [_ Hv].
  by apply bool_decide_eq_true in Hv.
Qed.

(** The steps of a running service: its operations, the statements of result
    requests that run without the lock, and other users of the invitations. *)
Inductive service_step (s : Service) : Service -> Prop :=
| ss_begin e r : service_step s (Begin upper_other s e r).2
| ss_redeem e r : service_step s (Redeem s e r).2
| ss_approve e code owner perms : service_step s (Approve authorize upper_other s e code owner perms).2
| ss_deny now code owner : service_step s (Deny authorize upper_other s now code owner).2
| ss_result now r : service_step s (Result s now r).2
| ss_attempt id : service_step s (put_tables s (IncrementAttempts (s_tables s) id))
| ss_nonce id nonce : service_step s (put_tables s (ConsumeResultNonce (s_tables s) id nonce).2)
| ss_revoke e body owner : service_step s (Revoke authorize s e body owner).2
| ss_invitations cs : service_step s (put_tables s
    {| t_identity := t_identity (s_tables s); t_pending := t_pending (s_tables s);
       t_bodies := t_bodies (s_tables s); t_receipts := t_receipts (s_tables s);
       t_nonces := t_nonces (s_tables s);
       t_invitations := (inv_perform_all (t_invitations (s_tables s)) cs).2;
       t_network := t_network (s_tables s) |})
| ss_lifecycle sessions peers : service_step s (SetRevocationLifecycle s sessions peers).

Lemma redeem_atoms s e r : service_ok s -> rtc atom s (Redeem s e r).2.
Proof.
  intros Hok. unfold Redeem. do 3 (destruct (negb _); [done|]).
  assert (Hnew : rtc atom s (match Validate (t_invitations (s_tables s)) (e_now e) (rd_InvitationID r) (rd_InvitationSecret r) with
      | Err _ => (Err ErrUnauthorized, s)
      | Ok inv =>
          match newPending s (e_now e) (rd_RequestID r) ModeInvitation (rd_BodyPublicKey r) (rd_WGPublicKey r)
                  (rd_BodyNonce r) (rd_InvitationID r) (rd_Metadata r) [] with
          | Err er => (Err er, s)
          | Ok pending =>
              match CreatePending (s_tables s) pending with
              | Err _ =>
                  (match GetReceipt (s_tables s) (rd_RequestID r) with
                   | Some receipt => Ok (Some receipt)
                   | None => Err ErrReplayed
                   end, s)
              | Ok t => completeLocked (put_tables s t) e pending "invitation" (i_Permissions inv)
              end
          end
      end).2).
  { destruct (Validate _ _ _ _); [|done]. destruct (newPending _ _ _ _ _ _ _ _ _ _) as [p|] eqn:En; [|done].
    apply newPending_inv in En as (Hs & Hid & Hkl & Hwl & _).
    destruct (CreatePending (s_tables s) p) as [t'|] eqn:Ec; [|done].
    assert (Ha : atom s (put_tables s t')) by (by eapply at_create).
    eapply rtc_l; [done|]. apply completeLocked_atoms; [by eapply preserves|].
    apply CreatePending_inv in Ec as [_ ->]. simpl. by rewrite lookup_insert_eq. }
  destruct (GetPending (s_tables s) (rd_RequestID r)) as [[p|]|] eqn:Ep; [|done..]. clear Hnew.
  apply scanPending_inv in Ep. unfold redeem_existing. destruct (_ || _); [done|].
  destruct (ValidateAuthorization _ _ _); [|done]. case_bool_decide; [done|].
  destruct (Validate _ _ _ _); [|done]. apply completeLocked_atoms; [done|].
  by destruct (so_pending _ Hok _ _ Ep) as (-> & _).
Qed.

Lemma revoke_atoms s e body owner : service_ok s -> rtc atom s (Revoke authorize s e body owner).2.
Proof.
  intros Hok. unfold Revoke. destruct (_ || _); [done|]. destruct (negb _); [done|].
  unfold GetBody, GetMembership. destruct (t_bodies (s_tables s) !! body) as [b|] eqn:Hb; [|done].
  destruct (so_body _ Hok _ _ Hb) as (_ & m0 & Hm & Hmb & Hms). rewrite Hm.
  destruct (negb _); [done|].
  assert (Hmp : m_PeerID m0 = br_MembershipRef b) by apply (nw_member _ (so_network _ Hok) _ _ Hm).
  destruct (br_RevokedAt b) as [t0|].
  - rewrite (proj2 (same_str_true _ _) Hms), put_tables_id, put_network_id. by destruct (s_peers s).
  - destruct (RevokeBody _ _ _ _ _) as [t'|] eqn:Er; [|done]. rewrite Hms. cbn [same_str].
    change (same_str MembershipActive MembershipRevoked) with false. cbn [negb put_tables s_network].
    unfold RevokeMembership. rewrite Hmp, Hm.
    assert (Hf : e_commit_fails e = false).
    { destruct (e_commit_fails e); [|done]. unfold RevokeBody in Er. by destruct (_ || _) in Er. }
    rewrite Hf in Er. pose proof (at_revoke s body b m0 (e_now e) t' Hb Hm Hmp Er) as Ha.
    by destruct (s_peers _); apply rtc_once.
Qed.

Lemma service_step_atoms s s' : service_ok s -> service_step s s' -> rtc atom s s'.
Proof.
  intros Hok Hst. destruct Hst as [e r|e r|e code owner perms|now code owner|now r|id|id nonce|e b o|cs|].
  - unfold Begin. do 3 (destruct (negb _); [done|]). unfold createPending. destruct (_ <=? _); [done|].
    destruct (newPending _ _ _ _ _ _ _ _ _ _) as [p|] eqn:En; [|done].
    apply newPending_inv in En as (Hs & _ & Hkl & Hwl & _).
    destruct (CreatePending _ _) as [t'|] eqn:Ec; [|done]. apply rtc_once. by eapply at_create.
  - by apply redeem_atoms.
  - unfold Approve. destruct (empty_str _); [done|].
    destruct (GetPendingByCodeVerifier _ _) as [[p|]|] eqn:Eg; [|done..].
    apply GetPendingByCodeVerifier_inv in Eg as [Hp _]; [|done].
    destruct (_ <=? _); [done|]. destruct (negb _); [done|]. by apply completeLocked_atoms.
  - unfold Deny. destruct (empty_str _); [done|].
    destruct (GetPendingByCodeVerifier _ _) as [[p|]|] eqn:Eg; [|done..].
    destruct (negb _); [done|]. destruct (After _ _); [done|].
    destruct (DenyRow _ _ _) as [t'|] eqn:Ed; [|done]. apply rtc_once. by eapply at_deny.
  - unfold Result. do 2 (destruct (negb _); [done|]). destruct (GetPending _ _) as [[p|]|]; [|done..].
    destruct (_ <=? _); [done|]. destruct (_ || _); [apply rtc_once, at_attempt|].
    destruct (DecodeNonce _) as [nonce|]; [|done].
    pose proof (at_nonce s (er_RequestID r) nonce) as Ha.
    destruct (ConsumeResultNonce _ _ _) as [[[]|] t']; by apply rtc_once.
  - apply rtc_once, at_attempt.
  - apply rtc_once, at_nonce.
  - by apply revoke_atoms.
  - apply rtc_once, at_invitations.
  - apply rtc_once, at_lifecycle.
Qed.

#[export] Instance service_preserves : Preserves service_step service_ok.
Proof.
  intros s s' Hst Hok. exact (reachable_keeps service_ok _ _ (service_step_atoms _ _ Hok Hst) Hok).
Qed.

(** *** What is never lost *)

Record keeps_facts (s s' : Service) : Prop := {
  kf_identity : s_identity s' = s_identity s;
  kf_receipts : forall id rc, t_receipts (s_tables s) !! id = Some rc -> t_receipts (s_tables s') !! id = Some rc;
  kf_pending : forall id p, t_pending (s_tables s) !! id = Some p ->
    exists p', t_pending (s_tables s') !! id = Some p' /\ pd_BodyPublicKey p' = pd_BodyPublicKey p /\
      pd_Mode p' = pd_Mode p /\ pd_InvitationID p' = pd_InvitationID p /\
      (pd_Status p = StatusEnrolled -> pd_Status p' = StatusEnrolled);
  kf_invitations : forall id i, sq_rows (t_invitations (s_tables s)) !! id = Some i ->
    exists i', sq_rows (t_invitations (s_tables s')) !! id = Some i' /\ i_SecretHash i' = i_SecretHash i;
}.

Lemma keeps_facts_refl s : keeps_facts s s.
Proof. split; eauto 10. Qed.

Lemma keeps_facts_trans s1 s2 s3 : keeps_facts s1 s2 -> keeps_facts s2 s3 -> keeps_facts s1 s3.
Proof.
  intros [A1 A2 A3 A4] [B1 B2 B3 B4]. split; [congruence|auto| |].
  - intros id p Hp. destruct (A3 _ _ Hp) as (p' & Hp' & ? & ? & ? & ?).
    destruct (B3 _ _ Hp') as (p'' & Hp'' & ? & ? & ? & ?). exists p''. split_and!; [done|congruence..|auto].
  - intros id i Hi. destruct (A4 _ _ Hi) as (i' & Hi' & ?). destruct (B4 _ _ Hi') as (i'' & ? & ?).
    exists i''. split; congruence.
Qed.

Lemma inv_perform_all_rows (st : SQLStore) cs id i :
  sq_rows st !! id = Some i ->
  exists i', sq_rows (inv_perform_all st cs).2 !! id = Some i' /\ i_SecretHash i' = i_SecretHash i.
Proof.
  revert st i. induction cs as [|c cs IH]; intros st i Hi; simpl; [eauto|].
  assert (exists i', sq_rows (inv_perform st c).2 !! id = Some i' /\ i_SecretHash i' = i_SecretHash i)
    as (i' & Hi' & He).
  { destruct c as [j|id']; simpl.
    - unfold SQLStore_Create. case_bool_decide as E; [eauto|]. simpl. rewrite lookup_insert_ne; [eauto|].
      intros Heq. apply E. rewrite Heq. eauto.
    - unfold Consume. simpl. unfold SQLStore_Consume. destruct (sq_rows st !! id') as [k|] eqn:Hk; [|eauto].
      destruct (i_Consumed k); simpl; [eauto|]. destruct (decide (id = id')) as [->|].
      + rewrite lookup_insert_eq. simplify_eq. eauto.
      + rewrite lookup_insert_ne by done. eauto. }
  destruct (inv_perform st c) as [r s1]. simpl in Hi'. destruct (IH _ _ Hi') as (i'' & Hi'' & He'').
  destruct (inv_perform_all s1 cs) as [ids s2]. simpl in *. exists i''. split; congruence.
Qed.

Lemma atom_keeps s s' : atom s s' -> keeps_facts s s'.
Proof.
  assert (Hrow : forall (m : gmap string PendingEnrollment) id0 p0 q,
    (m !! id0 = None \/ m !! id0 = Some p0) -> pd_BodyPublicKey q = pd_BodyPublicKey p0 -> pd_Mode q = pd_Mode p0 ->
    pd_InvitationID q = pd_InvitationID p0 -> (pd_Status p0 = StatusEnrolled -> pd_Status q = StatusEnrolled) ->
    forall id p, m !! id = Some p -> exists p', <[id0 := q]> m !! id = Some p' /\
      pd_BodyPublicKey p' = pd_BodyPublicKey p /\ pd_Mode p' = pd_Mode p /\
      pd_InvitationID p' = pd_InvitationID p /\ (pd_Status p = StatusEnrolled -> pd_Status p' = StatusEnrolled)).
  { intros m id0 p0 q H0 E1 E2 E3 E4 id p Hp. destruct (decide (id = id0)) as [->|].
    - rewrite lookup_insert_eq. exists q. destruct H0; [congruence|]. simplify_eq. by split_and!.
    - rewrite lookup_insert_ne by done. eauto 10. }
  destruct 1 as [p t' Hc Hs _ _|id o t' Hd|id|id nonce|p bid pid m n1 c t' Hp Hn Hc Hr Hi Hb Hk Hm Hrb Hrm Hcm
                |id b m now t' Hb Hm Hp Hr|cs|].
  - apply CreatePending_inv in Hc as [Hn ->]. split; simpl; [done|done| |eauto].
    by apply (Hrow _ (pd_RequestID p) p p); auto.
  - unfold DenyRow in Hd. destruct (t_pending _ !! id) as [p|] eqn:Hp; [|done].
    case_bool_decide as Hs; [|done]. injection Hd as <-. split; simpl; [done|done| |eauto].
    apply (Hrow _ id p); auto. simpl. congruence.
  - unfold IncrementAttempts. destruct (t_pending _ !! id) as [p|] eqn:Hp.
    + split; simpl; [done|done| |eauto]. by apply (Hrow _ id p); auto.
    + rewrite put_tables_id. apply keeps_facts_refl.
  - unfold ConsumeResultNonce. case_bool_decide; simpl; [rewrite put_tables_id|split; simpl; eauto 10].
    apply keeps_facts_refl.
  - destruct (Complete_row_inv _ _ _ _ Hc) as (row & invs & Hrow' & Hs & Hrc & _ & _ & _ & Hinv & ->).
    split; simpl; [done| | |].
    + intros id rc Hid. rewrite lookup_insert_ne by congruence. done.
    + apply (Hrow _ _ row); auto.
    + intros id i Hid. destruct (empty_str _); [subst; eauto|]. destruct Hinv as [_ Ht].
      unfold take_invitation in Ht. destruct (sq_rows _ !! pd_InvitationID _) as [j|] eqn:Hj; [|done].
      destruct (i_Consumed j); [done|]. injection Ht as <-. simpl.
      destruct (decide (id = pd_InvitationID (cm_Pending c))) as [->|].
      * rewrite lookup_insert_eq. simplify_eq. eauto.
      * rewrite lookup_insert_ne by done. eauto.
  - apply RevokeBody_inv in Hr as (b' & _ & _ & _ & _ & ->). split; simpl; eauto 10.
  - split; simpl; eauto 10 using inv_perform_all_rows.
  - split; simpl; eauto 10.
Qed.

Lemma atoms_keep s s' : rtc atom s s' -> keeps_facts s s'.
Proof.
  induction 1; [apply keeps_facts_refl|]. eapply keeps_facts_trans; [by apply atom_keeps|done].
Qed.

Lemma service_step_keeps s s' : service_ok s -> rtc service_step s s' -> keeps_facts s s'.
Proof.
  intros Hok Hr. induction Hr as [|s s1 s' Hst Hr IH]; [apply keeps_facts_refl|].
  eapply keeps_facts_trans; [|apply IH; by eapply preserves].
  by apply atoms_keep, service_step_atoms.
Qed.

End refinement.

(** ** Properties *)

(** The tables of a Core nobody has asked to enroll yet. *)
Record fresh (n : Network) (t : tables) : Prop := {
  fr_pending : t_pending t = ∅;
  fr_bodies : t_bodies t = ∅;
  fr_receipts : t_receipts t = ∅;
  fr_network : network_wf n;
  fr_stored : stored n (t_network t);
  fr_endpoint : map_Forall (fun _ m => m_Endpoint m = "") (n_Memberships n);
}.

Section properties.
Context `{Hed : Ed25519}.
Context (authorize : string -> OwnerAction -> bool) (upper_other : string -> string).
Let step := service_step authorize upper_other.

Lemma NewService_tables t n config seed uuid s :
  NewService t n config seed uuid = Ok s ->
  s_network s = n /\ t_pending (s_tables s) = t_pending t /\ t_bodies (s_tables s) = t_bodies t /\
  t_receipts (s_tables s) = t_receipts t /\ t_network (s_tables s) = t_network t /\
  t_invitations (s_tables s) = t_invitations t.
Proof.
  unfold NewService. destruct (LoadCoreIdentity t) as [[i|]|]; cbn [res_bind]; [by intros [= <-]| |done].
  unfold SaveCoreIdentity. destruct (_ || _); [done|]. case_bool_decide; [done|]. cbn [res_bind].
  by intros [= <-].
Qed.

Lemma fresh_ok t n config seed uuid s :
  fresh n t -> NewService t n config seed uuid = Ok s -> service_ok s /\ spec_ok (abs (s_tables s)).
Proof.
  intros [F1 F2 F3 F4 F5 F6] (Hn & Hp & Hb & Hr & Ht & _)%NewService_tables. split.
  - split; rewrite ?Hn, ?Hp, ?Hb, ?Hr, ?Ht, ?F1, ?F2, ?F3; try done; intros *; rewrite lookup_empty; done.
  - replace (abs (s_tables s)) with
      {| sp_requests := ∅; sp_bodies := ∅; sp_used := sp_used (abs (s_tables s)) |} by
      (apply spec_eq; [intros id; by rewrite abs_lookup, Hp, F1, !lookup_empty|simpl; by rewrite Hb, F2|done]).
    apply spec_empty_ok.
Qed.

Lemma steps_moves s s' :
  service_ok s -> rtc step s s' -> service_ok s' /\ rtc spec_step (abs (s_tables s)) (abs (s_tables s')).
Proof.
  intros Hok Hr. split; [exact (reachable_keeps service_ok _ _ Hr Hok)|].
  induction Hr as [|s s1 s' Hst Hr IH]; [done|]. etrans; [|apply IH; exact (preserves _ _ Hst Hok)].
  pose proof (service_step_atoms _ _ _ _ Hok Hst) as Ha. clear -Ha.
  induction Ha; [done|]. etrans; [by apply atom_moves|done].
Qed.

(** A revoked Body stays revoked, in its record and in the network. *)
Lemma revoked_stays s s' b c :
  service_ok s -> rtc step s s' -> t_bodies (s_tables s) !! b = Some c -> is_Some (br_RevokedAt c) ->
  exists c' m, t_bodies (s_tables s') !! b = Some c' /\ is_Some (br_RevokedAt c') /\
    n_Memberships (s_network s') !! br_MembershipRef c' = Some m /\ m_Status m = MembershipRevoked.
Proof.
  intros Hok Hr Hb Hrev. destruct (steps_moves _ _ Hok Hr) as [Hok' Hmoves].
  pose proof (spec_steps_final _ _ Hmoves) as (_ & F2 & _).
  destruct (F2 b (abs_body c)) as (cr & Hcr & _ & Hfin); [by simpl; rewrite lookup_fmap, Hb|].
  simpl in Hcr. apply lookup_fmap_Some in Hcr as (c' & <- & Hc'). simpl in Hfin.
  rewrite bool_decide_eq_true_2 in Hfin by done. specialize (Hfin eq_refl). apply bool_decide_eq_true in Hfin.
  destruct (so_body _ Hok' _ _ Hc') as (_ & m & Hm & _ & Hms). exists c', m. split_and!; try done.
  destruct Hfin as [t0 Ht0]. by rewrite Ht0 in Hms.
Qed.

(** C3: the enrollment service refines the abstract machine.  Whatever sequence
    of requests, redemptions, approvals, denials, result polls, revocations and
    uses of the invitation store a sound service goes through, what happens to
    requests, Bodies and used invitations is a sequence of the machine's moves
    (ask, refuse, enrol once with an unused key and an unused invitation,
    revoke), and the service stays sound. *)
Theorem enrollment_refines_spec s s' :
  service_ok s -> rtc step s s' ->
  service_ok s' /\ rtc spec_step (abs (s_tables s)) (abs (s_tables s')).
Proof. apply steps_moves. Qed.

(** C11: one Body per invitation, per key and per request.  In every state a
    service reaches from empty tables: two enrolled requests that name the same
    invitation are the same request, and that invitation is consumed; no two
    Bodies have the same signing key; an enrolled request has its receipt, and
    the Body the receipt names has the request's key and an active or revoked
    membership of the Doll Network that the tables store too. *)
Theorem enrollment_is_unique n t config seed uuid s0 s :
  fresh n t -> NewService t n config seed uuid = Ok s0 -> rtc step s0 s ->
  (forall id id' p p', t_pending (s_tables s) !! id = Some p -> t_pending (s_tables s) !! id' = Some p' ->
     pd_Status p = StatusEnrolled -> pd_Status p' = StatusEnrolled ->
     pd_InvitationID p = pd_InvitationID p' -> pd_InvitationID p <> "" ->
     id = id' /\ used (t_invitations (s_tables s)) (pd_InvitationID p)) /\
  (forall b b' c c', t_bodies (s_tables s) !! b = Some c -> t_bodies (s_tables s) !! b' = Some c' ->
     br_PublicKey c = br_PublicKey c' -> b = b') /\
  (forall id p, t_pending (s_tables s) !! id = Some p -> pd_Status p = StatusEnrolled ->
     exists rc b m, t_receipts (s_tables s) !! id = Some rc /\
       t_bodies (s_tables s) !! rc_BodyID rc = Some b /\ br_PublicKey b = pd_BodyPublicKey p /\
       n_Memberships (s_network s) !! br_MembershipRef b = Some m /\ m_BodyID m = rc_BodyID rc /\
       m_Status m = (if br_RevokedAt b then MembershipRevoked else MembershipActive)) /\
  stored (s_network s) (t_network (s_tables s)).
Proof.
  intros Hf Hnew Hr. destruct (fresh_ok _ _ _ _ _ _ Hf Hnew) as [Hok0 Hspec0].
  destruct (steps_moves _ _ Hok0 Hr) as [Hok Hmoves].
  destruct (reachable_keeps spec_ok _ _ Hmoves Hspec0) as [S1 S2 S3 S4 S5].
  assert (Habs : forall id p, t_pending (s_tables s) !! id = Some p -> pd_Status p = StatusEnrolled ->
    exists b, sp_requests (abs (s_tables s)) !! id = Some (abs_request (t_receipts (s_tables s)) id p) /\
              rq_state (abs_request (t_receipts (s_tables s)) id p) = Member b).
  { intros id p Hp He. rewrite abs_lookup, Hp. simpl. rewrite He. eauto. }
  split_and!.
  - intros id id' p p' Hp Hp' He He' Hi Hne. destruct (Habs _ _ Hp He) as (b & L & M).
    destruct (Habs _ _ Hp' He') as (b' & L' & M'). split; [by apply (S4 _ _ _ _ b b' L L' M M')|].
    destruct (S1 _ _ _ L M) as ([?|Hu] & _); [done|]. by apply elem_of_used_ids in Hu.
  - intros b b' c c' Hb Hb' Hk. apply (S5 b b' (abs_body c) (abs_body c')); 
      [by simpl; rewrite lookup_fmap, Hb|by simpl; rewrite lookup_fmap, Hb'|done].
  - intros id p Hp He. destruct (so_receipt _ Hok _ _ Hp He) as [rc Hrc].
    destruct (so_enrolled _ Hok _ _ Hrc) as (p' & b & Hp' & _ & Hb & Hk & _).
    destruct (so_body _ Hok _ _ Hb) as (_ & m & Hm & Hmb & Hms). exists rc, b, m.
    rewrite Hp in Hp'. injection Hp' as <-. by split_and!.
  - apply Hok.
Qed.

(** Decisions are final.  Whatever a sound service does next: a denied
    request stays denied and never becomes a Body; an enrolled request stays
    enrolled with the very receipt it was given; a revoked Body stays revoked,
    in its record and in the Doll Network. *)
Theorem enrollment_decisions_final s s' :
  service_ok s -> rtc step s s' ->
  (forall id p, t_pending (s_tables s) !! id = Some p -> pd_Status p = StatusDenied ->
     (exists p', t_pending (s_tables s') !! id = Some p' /\ pd_Status p' = StatusDenied) /\
     t_receipts (s_tables s') !! id = None) /\
  (forall id p rc, t_pending (s_tables s) !! id = Some p -> pd_Status p = StatusEnrolled ->
     t_receipts (s_tables s) !! id = Some rc ->
     (exists p', t_pending (s_tables s') !! id = Some p' /\ pd_Status p' = StatusEnrolled) /\
     t_receipts (s_tables s') !! id = Some rc) /\
  (forall b c, t_bodies (s_tables s) !! b = Some c -> is_Some (br_RevokedAt c) ->
     exists c' m, t_bodies (s_tables s') !! b = Some c' /\ is_Some (br_RevokedAt c') /\
       n_Memberships (s_network s') !! br_MembershipRef c' = Some m /\ m_Status m = MembershipRevoked).
Proof.
  intros Hok Hr. destruct (steps_moves _ _ Hok Hr) as [Hok' Hmoves].
  pose proof (spec_steps_final _ _ Hmoves) as (F1 & _ & _).
  pose proof (service_step_keeps _ _ _ _ Hok Hr) as [_ K2 K3 _]. split_and!.
  - intros id p Hp Hs. destruct (F1 id (abs_request (t_receipts (s_tables s)) id p)) as (q & Hq & _ & _ & Hfin).
    { by rewrite abs_lookup, Hp. }
    rewrite abs_lookup in Hq. apply fmap_Some in Hq as (p' & Hp' & ->). simpl in Hfin. rewrite Hs in Hfin.
    specialize (Hfin ltac:(done)).
    assert (Hden : pd_Status p' = StatusDenied) by (by destruct (pd_Status p')). split; [eauto|].
    destruct (t_receipts (s_tables s') !! id) as [rc|] eqn:Hrc; [|done].
    destruct (so_enrolled _ Hok' _ _ Hrc) as (p'' & _ & Hp'' & He & _). congruence.
  - intros id p rc Hp He Hrc. destruct (K3 _ _ Hp) as (p' & Hp' & _ & _ & _ & Hkeep).
    split; [exists p'; auto|auto].
  - intros b c Hb Hrev. exact (revoked_stays s s' b c Hok Hr Hb Hrev).
Qed.

(** A completion that answers with a receipt leaves the request enrolled with it. *)
Lemma completeLocked_receipt s e p owner perms rc s' :
  service_ok s -> t_pending (s_tables s) !! pd_RequestID p = Some p ->
  completeLocked s e p owner perms = (Ok (Some rc), s') ->
  t_receipts (s_tables s') !! pd_RequestID p = Some rc.
Proof.
  intros Hok Hp. unfold completeLocked. case_bool_decide; [by intros [= ? <-]|]. case_bool_decide; [done|].
  destruct (negb _); [done|]. intros He. destruct (enroll_cases _ _ _ _ _ _ _ Hok Hp He) as [[-> Hr]|[_ Hr]].
  - by destruct (Hr _ eq_refl) as [<- _].
  - by destruct Hr as (rc' & _ & [= <-] & ? & _).
Qed.

Lemma ValidateAuthorization_iff (st : SQLStore) id secret :
  is_ok (ValidateAuthorization st id secret) = true <->
  exists i, sq_rows st !! id = Some i /\ i_SecretHash i = HashSecret secret.
Proof.
  unfold ValidateAuthorization. simpl. unfold SQLStore_Get. destruct (sq_rows st !! id) as [i|]; [|naive_solver].
  destruct (decide (i_SecretHash i = HashSecret secret)) as [He|Hne].
  - rewrite (bool_decide_eq_true_2 (length _ = _)) by (rewrite He; apply length_sha256).
    cbn [negb]. rewrite bool_decide_eq_true_2 by done. simpl. naive_solver.
  - split; [|naive_solver]. destruct (bool_decide (length _ = _)); cbn [negb]; [|done].
    rewrite bool_decide_eq_false_2; [done|congruence].
Qed.

(** What a redemption that answers with a receipt leaves behind. *)
Lemma Redeem_leaves s e r rc s' :
  service_ok s -> Redeem s e r = (Ok (Some rc), s') ->
  service_ok s' /\ s_identity s' = s_identity s /\
  (rd_Version r =? EnrollmentVersion) = true /\ same_str (rd_CoreID r) (id_CoreID (s_identity s)) = true /\
  is_ok (VerifyEnrollmentRedeem r) = true /\ t_receipts (s_tables s') !! rd_RequestID r = Some rc /\
  exists p i, t_pending (s_tables s') !! rd_RequestID r = Some p /\ pd_Mode p = ModeInvitation /\
    pd_InvitationID p = rd_InvitationID r /\ DecodeBodyPublicKey (rd_BodyPublicKey r) = Ok (pd_BodyPublicKey p) /\
    sq_rows (t_invitations (s_tables s')) !! rd_InvitationID r = Some i /\
    i_SecretHash i = HashSecret (rd_InvitationSecret r).
Proof.
  intros Hok Hr. pose proof (redeem_atoms s e r Hok) as Hat. rewrite Hr in Hat. simpl in Hat.
  pose proof (reachable_keeps service_ok _ _ Hat Hok) as Hok'. pose proof (atoms_keep _ _ Hat) as [K1 _ _ _].
  split; [done|]. split; [done|]. unfold Redeem in Hr.
  destruct (rd_Version r =? EnrollmentVersion); [|done]. cbn [negb] in Hr. split; [done|].
  destruct (same_str (rd_CoreID r) _); [|done]. cbn [negb] in Hr. split; [done|].
  destruct (is_ok (VerifyEnrollmentRedeem r)); [|done]. cbn [negb] in Hr. split; [done|].
  assert (Hfin : forall s1 p owner perms i, service_ok s1 -> rtc (atom) s1 s' ->
    t_pending (s_tables s1) !! rd_RequestID r = Some p -> pd_Mode p = ModeInvitation ->
    pd_InvitationID p = rd_InvitationID r -> DecodeBodyPublicKey (rd_BodyPublicKey r) = Ok (pd_BodyPublicKey p) ->
    sq_rows (t_invitations (s_tables s1)) !! rd_InvitationID r = Some i ->
    i_SecretHash i = HashSecret (rd_InvitationSecret r) ->
    (completeLocked s1 e p owner perms = (Ok (Some rc), s') \/
     (s' = s1 /\ t_receipts (s_tables s1) !! rd_RequestID r = Some rc)) ->
    t_receipts (s_tables s') !! rd_RequestID r = Some rc /\
    exists p i, t_pending (s_tables s') !! rd_RequestID r = Some p /\ pd_Mode p = ModeInvitation /\
      pd_InvitationID p = rd_InvitationID r /\ DecodeBodyPublicKey (rd_BodyPublicKey r) = Ok (pd_BodyPublicKey p) /\
      sq_rows (t_invitations (s_tables s')) !! rd_InvitationID r = Some i /\
      i_SecretHash i = HashSecret (rd_InvitationSecret r)).
  { intros s1 p owner perms i Hok1 Ha Hp Hm Hi Hk Hinv Hh Hc.
    pose proof (proj1 (so_pending _ Hok1 _ _ Hp)) as Hid.
    destruct (atoms_keep _ _ Ha) as [_ J2 J3 J4]. destruct (J3 _ _ Hp) as (p' & Hp' & Q1 & Q2 & Q3 & _).
    destruct (J4 _ _ Hinv) as (i' & Hi' & Q4). split.
    - destruct Hc as [Hc|[-> ?]]; [|done]. rewrite <- Hid. eapply completeLocked_receipt; [done| |done]. by rewrite Hid.
    - exists p', i'. split_and!; congruence. }
  destruct (GetPending (s_tables s) (rd_RequestID r)) as [[p|]|] eqn:Ep.
  - apply scanPending_inv in Ep. unfold redeem_existing in Hr.
    destruct (DecodeBodyPublicKey (rd_BodyPublicKey r)) as [k|] eqn:Ek; [|done].
    case_bool_decide as Hk; [|done]. case_bool_decide as Hm; [|done].
    destruct (same_str (pd_InvitationID p) _) eqn:Ei; [|done]. apply same_str_true in Ei. cbn [negb orb] in Hr.
    destruct (ValidateAuthorization _ _ _) eqn:Ev; [|done].
    destruct (proj1 (ValidateAuthorization_iff (t_invitations (s_tables s)) (rd_InvitationID r) (rd_InvitationSecret r)))
      as (i & Hi & Hh); [by rewrite Ev|].
    case_bool_decide.
    + injection Hr as Hr ->. apply (Hfin s' p "" [] i); try done; [by rewrite Hk|by right].
    + destruct (Validate _ _ _ _) as [inv|]; [|done].
      apply (Hfin s p "invitation" (i_Permissions inv) i); try done; [by rewrite Hk|by left].
  - destruct (Validate _ _ _ _) as [inv|] eqn:Ev; [|done]. apply Validate_iff in Ev as (Hinv & _ & _ & Hh).
    simpl in Hinv. destruct (newPending _ _ _ _ _ _ _ _ _ _) as [p|] eqn:En; [|done].
    apply newPending_inv in En as (Hs & Hid & Hkl & Hwl & _ & Hi & Hm & _ & Hk).
    destruct (CreatePending _ p) as [t'|] eqn:Ec.
    + assert (Ha : atom s (put_tables s t')) by (by eapply at_create).
      pose proof (preserves _ _ Ha Hok) as Hok1. apply CreatePending_inv in Ec as [_ ->].
      assert (Hp1 : t_pending (put_pending (s_tables s) (<[pd_RequestID p := p]> (t_pending (s_tables s)))) !! pd_RequestID p
                    = Some p) by (simpl; by rewrite lookup_insert_eq).
      eapply (Hfin _ p "invitation" (i_Permissions inv) inv Hok1); try done; [| |by left].
      * replace s' with (completeLocked (put_tables s (put_pending (s_tables s) (<[pd_RequestID p := p]> (t_pending (s_tables s)))))
                           e p "invitation" (i_Permissions inv)).2 by (by rewrite Hr).
        by apply completeLocked_atoms.
      * by rewrite <- Hid.
    + exfalso. destruct (GetReceipt _ _) as [rc'|] eqn:Eg; [|done].
      destruct (so_enrolled _ Hok _ _ Eg) as (q & _ & Hq & _). unfold GetPending in Ep. rewrite Hq in Ep.
      simpl in Ep. by destruct (_ || _) in Ep.
  - exfalso. unfold GetPending in Ep. destruct (t_pending _ !! _) as [q|] eqn:Hq; [|done].
    destruct (so_pending _ Hok _ _ Hq) as (_ & Hkl & Hwl). simpl in Ep. unfold len in Ep. by rewrite Hkl, Hwl in Ep.
Qed.

(** Redeeming is idempotent.  Once a redemption has answered with a receipt,
    repeating the same signed request at any later time, whatever happened in
    between (the invitation's expiry and even the Body's revocation included),
    answers with the same receipt and changes nothing. *)
Theorem redeem_idempotent s e r rc s1 s2 e2 :
  service_ok s -> Redeem s e r = (Ok (Some rc), s1) -> rtc step s1 s2 ->
  Redeem s2 e2 r = (Ok (Some rc), s2).
Proof.
  intros Hok Hr Hsteps.
  destruct (Redeem_leaves _ _ _ _ _ Hok Hr) as (Hok1 & Hid & Hv & Hc & Hver & Hrc & p & i & Hp & Hm & Hi & Hk & Hinv & Hh).
  destruct (steps_moves _ _ Hok1 Hsteps) as [Hok2 _].
  pose proof (service_step_keeps _ _ _ _ Hok1 Hsteps) as [K1 K2 K3 K4].
  destruct (K3 _ _ Hp) as (p2 & Hp2 & Q1 & Q2 & Q3 & _). destruct (K4 _ _ Hinv) as (i2 & Hi2 & Q4).
  pose proof (K2 _ _ Hrc) as Hrc2. destruct (so_enrolled _ Hok2 _ _ Hrc2) as (p2' & _ & Hp2' & Hs2 & _).
  rewrite Hp2 in Hp2'. injection Hp2' as <-. destruct (so_pending _ Hok2 _ _ Hp2) as (_ & Hkl & Hwl).
  unfold Redeem. rewrite Hv, K1, Hid, Hc, Hver. cbn [negb]. unfold GetPending. rewrite Hp2. simpl.
  unfold len. rewrite Hkl, Hwl. simpl. unfold redeem_existing. rewrite Hk, Q1, Q2, Q3.
  rewrite !bool_decide_eq_true_2 by done. rewrite (proj2 (same_str_true _ _) Hi). cbn [negb orb].
  destruct (ValidateAuthorization _ _ _) eqn:Ev.
  - unfold GetReceiptOf, GetReceipt. by rewrite Hrc2.
  - exfalso. assert (is_ok (ValidateAuthorization (t_invitations (s_tables s2)) (rd_InvitationID r) (rd_InvitationSecret r)) = true)
      as Ht by (apply ValidateAuthorization_iff; exists i2; split; congruence). by rewrite Ev in Ht.
Qed.
End properties.

(** ** A concrete enrolment *)

Definition demo_tables : tables :=
  {| t_identity := None; t_pending := ∅; t_bodies := ∅; t_receipts := ∅; t_nonces := ∅;
     t_invitations := demo_invited; t_network := demo_table |}.

Lemma demo_fresh : fresh demo_net4 demo_tables.
Proof.
  split; try reflexivity; [exact demo_net4_wf|exact demo_table_stored|].
  intros k m Hk. apply elem_of_map_to_list in Hk. vm_compute in Hk.
  repeat (apply elem_of_cons in Hk as [Hk|Hk]; [injection Hk as -> ->; reflexivity|]). by apply elem_of_nil in Hk.
Qed.

Definition demo_config : Config := {| cf_PendingLifetime := 0; cf_MaxPending := 0; cf_MaxAttempts := 0 |}.

Definition demo_core : Service :=
  match NewService demo_tables demo_net4 demo_config (demo_seed x05) "1" with
  | Ok s => s
  | Err _ => {| s_tables := demo_tables; s_network := demo_net4;
                s_identity := {| id_CoreID := ""; id_PublicKey := []; id_PrivateKey := [] |};
                s_config := demo_config; s_sessions := false; s_peers := false |}
  end.

Lemma demo_core_started : NewService demo_tables demo_net4 demo_config (demo_seed x05) "1" = Ok demo_core.
Proof. vm_compute. reflexivity. Qed.

Lemma demo_core_ok : service_ok demo_core.
Proof. apply (fresh_ok _ _ _ _ _ _ demo_fresh demo_core_started). Qed.

Definition demo_redeem0 : EnrollmentRedeemRequest :=
  {| rd_Version := 1; rd_RequestID := "r1"; rd_CoreID := "core_1"; rd_InvitationID := "inv";
     rd_InvitationSecret := "s3cret"; rd_BodyPublicKey := demo_public x07;
     rd_WGPublicKey := Base64.StdEncode demo_pub; rd_BodyNonce := demo_nonce x01; rd_Metadata := ∅;
     rd_Signature := "" |}.

Definition demo_redeem : EnrollmentRedeemRequest :=
  match SignEnrollmentRedeem (demo_key x07) demo_redeem0 with Ok r => r | Err _ => demo_redeem0 end.

Definition demo_e : env :=
  {| e_now := 6 * second; e_bodyUUID := "u"; e_peerID := "p9"; e_code := []; e_coreNonce := [];
     e_commit_fails := false; e_refresh_fails := false |}.

Definition allow_all : string -> OwnerAction -> bool := fun _ _ => true.

Definition demo_enrolled : Service := (Redeem demo_core demo_e demo_redeem).2.

Lemma demo_enrolled_reached : rtc (service_step allow_all id) demo_core demo_enrolled.
Proof. apply rtc_once, ss_redeem. Qed.

Definition issued (r : res enroll_error (option EnrollmentReceipt)) : option EnrollmentReceipt :=
  match r with Ok rc => rc | Err _ => None end.

Definition demo_issued : option EnrollmentReceipt := issued (Redeem demo_core demo_e demo_redeem).1.

Lemma issued_some (x : res enroll_error (option EnrollmentReceipt) * Service) :
  bool_decide (is_Some (issued x.1)) = true -> exists rc, x = (Ok (Some rc), x.2) /\ issued x.1 = Some rc.
Proof. destruct x as [[[rc|]|] s]; simpl; [|discriminate..]. eauto. Qed.

Lemma demo_enrolment_succeeds :
  exists rc, Redeem demo_core demo_e demo_redeem = (Ok (Some rc), demo_enrolled) /\ demo_issued = Some rc.
Proof. apply issued_some. vm_compute. reflexivity. Qed.

Lemma enrollment_refines_spec_witness :
  service_ok demo_enrolled /\ rtc spec_step (abs (s_tables demo_core)) (abs (s_tables demo_enrolled)).
Proof.
  apply (enrollment_refines_spec allow_all id); [exact demo_core_ok|exact demo_enrolled_reached].
Defined.

Definition row_enrolled (s : Service) (id : string) : bool :=
  match t_pending (s_tables s) !! id with
  | Some p => bool_decide (pd_Status p = StatusEnrolled)
  | None => false
  end.

Lemma row_enrolled_true s id : row_enrolled s id = true ->
  exists p, t_pending (s_tables s) !! id = Some p /\ pd_Status p = StatusEnrolled.
Proof.
  unfold row_enrolled. destruct (t_pending _ !! id) as [p|]; [|done]. intros ?%bool_decide_eq_true. eauto.
Qed.

Lemma enrollment_is_unique_witness :
  stored (s_network demo_enrolled) (t_network (s_tables demo_enrolled)) /\
  exists rc b, t_receipts (s_tables demo_enrolled) !! "r1" = Some rc /\
    t_bodies (s_tables demo_enrolled) !! rc_BodyID rc = Some b.
Proof.
  destruct (enrollment_is_unique allow_all id demo_net4 demo_tables demo_config (demo_seed x05) "1" demo_core
    demo_enrolled demo_fresh demo_core_started demo_enrolled_reached) as (_ & _ & Hr & Hs).
  split; [exact Hs|].
  assert (Hb : row_enrolled demo_enrolled "r1" = true) by (vm_compute; reflexivity).
  destruct (row_enrolled_true _ _ Hb) as (p & Hp & He). destruct (Hr "r1" p Hp He) as (rc & b & _ & Hrc & Hbd & _).
  exists rc, b. split; [exact Hrc|exact Hbd].
Defined.

Lemma redeem_idempotent_witness :
  exists rc, demo_issued = Some rc /\ Redeem demo_enrolled demo_e demo_redeem = (Ok (Some rc), demo_enrolled).
Proof.
  destruct demo_enrolment_succeeds as (rc & Hr & Hi). exists rc. split; [exact Hi|].
  exact (redeem_idempotent allow_all id demo_core demo_e demo_redeem rc demo_enrolled demo_enrolled demo_e
    demo_core_ok Hr (rtc_refl _ _)).
Defined.

(** The Body revoked afterwards. *)
Definition demo_revoked : Service := (Revoke allow_all demo_enrolled demo_e "body_u" "owner").2.

Definition body_revoked (s : Service) (id : string) : bool :=
  match t_bodies (s_tables s) !! id with
  | Some b => bool_decide (is_Some (br_RevokedAt b))
  | None => false
  end.

Lemma body_revoked_true s id : body_revoked s id = true ->
  exists b, t_bodies (s_tables s) !! id = Some b /\ is_Some (br_RevokedAt b).
Proof.
  unfold body_revoked. destruct (t_bodies _ !! id) as [b|]; [|done]. intros ?%bool_decide_eq_true. eauto.
Qed.

Lemma enrollment_decisions_final_witness :
  service_ok demo_enrolled /\
  exists c m, t_bodies (s_tables (Redeem demo_revoked demo_e demo_redeem).2) !! "body_u" = Some c /\
    is_Some (br_RevokedAt c) /\
    n_Memberships (s_network (Redeem demo_revoked demo_e demo_redeem).2) !! br_MembershipRef c = Some m /\
    m_Status m = MembershipRevoked.
Proof.
  assert (Hok : service_ok demo_enrolled)
    by exact (reachable_keeps service_ok _ _ demo_enrolled_reached demo_core_ok).
  assert (Hok' : service_ok demo_revoked)
    by exact (preserves _ _ (ss_revoke allow_all id demo_enrolled demo_e "body_u" "owner") Hok).
  split; [exact Hok|].
  assert (Hb : body_revoked demo_revoked "body_u" = true) by (vm_compute; reflexivity).
  destruct (body_revoked_true _ _ Hb) as (b & E & Hrev).
  exact (proj2 (proj2 (enrollment_decisions_final allow_all id demo_revoked _ Hok'
    (rtc_once _ _ (ss_redeem allow_all id demo_revoked demo_e demo_redeem)))) "body_u" b E Hrev).
Defined.
