(* ===== verification/Authentication.v ===== *)
(** * Authenticating Bodies

    Models [src/Core/Enrollment/authentication.go]: the challenge a Body asks
    for, the proof that answers it, and the activation of its connection.

    Locks decide what is atomic.  A proof's check and the activation it leads to
    hold the lifecycle lock for reading and a revocation holds it for writing, so
    each is one step.  Asking for a challenge holds no lock: its checks
    ([prepareChallenge]) may see an older state than the one its publication
    ([publish]) finds.  The timer of a challenge is a step of its own.  A
    challenge carries everything about the Body that the proof's check compares.
    Connections that are active are counted per Body. *)
From S2P Require Import Prelude GoBytes GoTime Base64 Network Invitation Signing EnrollmentStore Enrollment EnrollmentSpec.
From stdpp Require Import options.

Definition authenticationChallengeLifetime : duration := 30 * second.

Record authenticationChallenge := {
  ac_connectionID : string;
  ac_body : BodyRecord;
  ac_value : Challenge;
}.

Record AuthService := {
  au_service : Service;
  au_challenges : gmap string authenticationChallenge;
  au_active : gset string;
}.

Definition put_challenges (a : AuthService) (c : gmap string authenticationChallenge) : AuthService :=
  {| au_service := au_service a; au_challenges := c; au_active := au_active a |}.

Definition activeMembership (s : Service) (body : BodyRecord) : bool :=
  match GetMembership (s_network s) (br_MembershipRef body) with
  | Some m => same_str (m_BodyID m) (br_BodyID body) && same_str (m_Status m) MembershipActive
  | None => false
  end.

Definition supportsEd25519 (algorithms : list string) : bool :=
  existsb (fun a => same_str a AlgorithmEd25519) algorithms.

Section authentication.
Context `{Hed : Ed25519}.

(** *** Challenges *)

Definition prepareChallenge (s : Service) (now : time) (connectionID sessionUUID : string)
    (coreNonce : list byte) (hello : Hello) : res enroll_error authenticationChallenge :=
  refuse empty_str connectionID || negb (h_Version hello =? 1) ||
         negb (same_str (h_Type hello) TypeHello) || empty_str (h_BodyID hello) with ErrUnauthorized;
  refuse negb (is_ok (DecodeNonce (h_BodyNonce hello))) || negb (supportsEd25519 (h_Algorithms hello))
    with ErrUnauthorized;
  match GetBody (s_tables s) (h_BodyID hello) with
  | None => Err ErrUnauthorized
  | Some body =>
      refuse bool_decide (is_Some (br_RevokedAt body)) || negb (activeMembership s body) with ErrUnauthorized;
      match SignChallenge (id_PrivateKey (s_identity s))
              {| c_Version := 1; c_Type := TypeChallenge; c_CoreID := id_CoreID (s_identity s);
                 c_BodyID := br_BodyID body; c_SessionID := "session_" +:+ sessionUUID;
                 c_BodyNonce := h_BodyNonce hello; c_CoreNonce := EncodeRawURL coreNonce;
                 c_ExpiresAt := truncate_second (now + authenticationChallengeLifetime);
                 c_Algorithm := AlgorithmEd25519; c_Signature := "" |} with
      | Err er => Err (SignError er)
      | Ok challenge =>
          Ok {| ac_connectionID := connectionID; ac_body := body; ac_value := challenge |}
      end
  end.

(** Replaces the connection's previous challenge and stops its timer. *)
Definition publish (a : AuthService) (c : authenticationChallenge) : AuthService :=
  put_challenges a (<[ac_connectionID c := c]> (au_challenges a)).

Definition BeginAuthentication (a : AuthService) (now : time) (connectionID sessionUUID : string)
    (coreNonce : list byte) (hello : Hello) : res enroll_error Challenge * AuthService :=
  match prepareChallenge (au_service a) now connectionID sessionUUID coreNonce hello with
  | Err er => (Err er, a)
  | Ok c => (Ok (ac_value c), publish a c)
  end.

(** The timer removes the challenge it was started for, and only that one. *)
Definition challengeTimer (a : AuthService) (connectionID sessionID : string) : AuthService :=
  match au_challenges a !! connectionID with
  | Some c => if same_str (c_SessionID (ac_value c)) sessionID
              then put_challenges a (delete connectionID (au_challenges a)) else a
  | None => a
  end.

Definition CancelAuthentication (a : AuthService) (connectionID : string) : AuthService :=
  put_challenges a (delete connectionID (au_challenges a)).

(** *** Proofs *)

Definition answers (now : time) (challenge : Challenge) (proof : AuthProof) : bool :=
  Before now (c_ExpiresAt challenge) && same_str (p_CoreID proof) (c_CoreID challenge) &&
  same_str (p_BodyID proof) (c_BodyID challenge) && same_str (p_SessionID proof) (c_SessionID challenge) &&
  same_str (p_BodyNonce proof) (c_BodyNonce challenge) &&
  same_str (p_CoreNonce proof) (c_CoreNonce challenge) &&
  same_str (p_Algorithm proof) (c_Algorithm challenge).

Definition same_credential (b b0 : BodyRecord) : bool :=
  (br_KeyVersion b =? br_KeyVersion b0) && same_str (br_MembershipRef b) (br_MembershipRef b0) &&
  bool_decide (br_PublicKey b = br_PublicKey b0).

Definition check_proof (s : Service) (now : time) (pending : authenticationChallenge) (proof : AuthProof)
    : res enroll_error (Accept * string) :=
  let challenge := ac_value pending in
  refuse negb (answers now challenge proof) with ErrUnauthorized;
  match GetBody (s_tables s) (br_BodyID (ac_body pending)) with
  | None => Err ErrUnauthorized
  | Some body =>
      refuse bool_decide (is_Some (br_RevokedAt body)) || negb (activeMembership s body) with ErrRevoked;
      refuse negb (same_credential body (ac_body pending)) with ErrUnauthorized;
      refuse negb (is_ok (VerifyProof (br_PublicKey body) proof)) with ErrInvalidProof;
      match SignAccept (id_PrivateKey (s_identity s))
              {| a_Version := 1; a_Type := TypeAccept; a_CoreID := id_CoreID (s_identity s);
                 a_BodyID := br_BodyID body; a_SessionID := c_SessionID challenge;
                 a_Status := "authenticated"; a_Signature := "" |} with
      | Err er => Err (SignError er)
      | Ok accept => Ok (accept, br_BodyID (ac_body pending))
      end
  end.

(** Every attempt consumes the challenge. *)
Definition completeAuthentication (a : AuthService) (now : time) (connectionID : string) (proof : AuthProof)
    : res enroll_error (Accept * string) * AuthService :=
  let a' := put_challenges a (delete connectionID (au_challenges a)) in
  (match au_challenges a !! connectionID with
   | Some pending =>
       if negb (p_Version proof =? 1) || negb (same_str (p_Type proof) TypeProof) then Err ErrUnauthorized
       else check_proof (au_service a) now pending proof
   | None => Err ErrUnauthorized
   end, a').

(** [activates]: whether the caller's activation succeeds. *)
Definition ActivateAuthentication (a : AuthService) (now : time) (connectionID : string) (proof : AuthProof)
    (activates : bool) : res enroll_error unit * AuthService :=
  match completeAuthentication a now connectionID proof with
  | (Err er, a') => (Err er, a')
  | (Ok (accept, bodyID), a') =>
      if activates then
        (Ok tt, {| au_service := au_service a'; au_challenges := au_challenges a';
                   au_active := {[ bodyID ]} ∪ au_active a' |})
      else (Err ErrUnauthorized, a')
  end.

(** A step of the enrollment service; ended sessions leave the active set. *)
Definition disconnected (fx : list effect) : gset string :=
  list_to_set (omap (fun x => match x with DisconnectBody b => Some b | RefreshPeers => None end) fx).

Definition RevokeLive (authorize : string -> OwnerAction -> bool) (a : AuthService) (e : env)
    (bodyID ownerID : string) : res enroll_error unit * AuthService :=
  let '(r, fx, s) := Revoke authorize (au_service a) e bodyID ownerID in
  (r, {| au_service := s; au_challenges := au_challenges a; au_active := au_active a ∖ disconnected fx |}).

End authentication.

(** ** Histories *)

Section histories.
Context `{Hed : Ed25519}.
Context (authorize : string -> OwnerAction -> bool) (upper_other : string -> string).

Inductive auth_step (a : AuthService) : AuthService -> Prop :=
| as_service s' : service_step authorize upper_other (au_service a) s' ->
    auth_step a {| au_service := s'; au_challenges := au_challenges a; au_active := au_active a |}
| as_revoke e bodyID ownerID : auth_step a (RevokeLive authorize a e bodyID ownerID).2
| as_publish s0 now conn uuid nonce hello c :
    rtc (service_step authorize upper_other) s0 (au_service a) ->
    prepareChallenge s0 now conn uuid nonce hello = Ok c -> auth_step a (publish a c)
| as_activate now conn proof ok : auth_step a (ActivateAuthentication a now conn proof ok).2
| as_complete now conn proof : auth_step a (completeAuthentication a now conn proof).2
| as_cancel conn : auth_step a (CancelAuthentication a conn)
| as_timer conn session : auth_step a (challengeTimer a conn session)
| as_close bodyID :
    auth_step a {| au_service := au_service a; au_challenges := au_challenges a;
                   au_active := au_active a ∖ {[ bodyID ]} |}.

End histories.

(** ** Lemmas *)

Section lemmas.
Context `{Hed : Ed25519}.

Lemma check_proof_inv s now pending proof accept bodyID :
  check_proof s now pending proof = Ok (accept, bodyID) ->
  exists body, answers now (ac_value pending) proof = true /\
    t_bodies (s_tables s) !! bodyID = Some body /\ bodyID = br_BodyID (ac_body pending) /\
    br_RevokedAt body = None /\ activeMembership s body = true /\
    same_credential body (ac_body pending) = true /\ VerifyProof (br_PublicKey body) proof = Ok tt.
Proof.
  unfold check_proof, GetBody. destruct (answers _ _ _) eqn:E1; [|done]. cbn [negb].
  destruct (t_bodies _ !! _) as [body|] eqn:E2; [|done]. destruct (_ || _) eqn:E3; [done|].
  destruct (same_credential _ _) eqn:E4; [|done]. cbn [negb].
  destruct (VerifyProof _ _) as [[]|] eqn:E5; [|done]. cbn [is_ok negb].
  destruct (SignAccept _ _); [|done]. intros [= _ <-]. exists body.
  apply orb_false_iff in E3 as [E6 E7]. apply bool_decide_eq_false in E6. apply negb_false_iff in E7.
  split_and!; try done. by apply eq_None_not_Some.
Qed.

Lemma completeAuthentication_inv a now conn proof accept bodyID a' :
  completeAuthentication a now conn proof = (Ok (accept, bodyID), a') ->
  exists pending, au_challenges a !! conn = Some pending /\ p_Version proof = 1 /\ p_Type proof = TypeProof /\
    check_proof (au_service a) now pending proof = Ok (accept, bodyID).
Proof.
  unfold completeAuthentication. intros [= Hr _]. destruct (au_challenges a !! conn) as [pending|]; [|done].
  destruct (_ || _) eqn:E; [done|]. apply orb_false_iff in E as [E1 E2].
  apply negb_false_iff, Z.eqb_eq in E1. apply negb_false_iff, same_str_true in E2. eauto.
Qed.

Context (authorize : string -> OwnerAction -> bool) (upper_other : string -> string).
Let step := service_step authorize upper_other.

(** A revocation that succeeds leaves the Body revoked and its session ended. *)
Lemma Revoke_ok_inv s e bodyID ownerID fx s' :
  Revoke authorize s e bodyID ownerID = (Ok tt, fx, s') ->
  (exists b, t_bodies (s_tables s') !! bodyID = Some b /\ is_Some (br_RevokedAt b)) /\
  (s_sessions s = true -> DisconnectBody bodyID ∈ fx).
Proof.
  unfold Revoke, GetBody, GetMembership. destruct (_ || _); [done|]. destruct (negb _); [done|].
  destruct (t_bodies (s_tables s) !! bodyID) as [b|] eqn:Hb; [|done].
  destruct (n_Memberships _ !! _) as [m|]; [|done]. destruct (negb _); [done|].
  destruct (match br_RevokedAt b with Some _ => _ | None => _ end) as [t'|] eqn:Er; [|done].
  assert (Hrev : exists b', t_bodies t' !! bodyID = Some b' /\ is_Some (br_RevokedAt b')).
  { destruct (br_RevokedAt b) as [t0|] eqn:Hr; [injection Er as <-; exists b; by rewrite Hr|].
    apply RevokeBody_inv in Er as (b' & _ & _ & _ & _ & ->). simpl. rewrite lookup_insert_eq. eauto. }
  destruct (if same_str _ _ then _ else _) as [n'|]; [|done]. simpl. intros Heq.
  destruct (s_peers s); [destruct (e_refresh_fails e); [done|]|]; injection Heq as <- <-;
    (split; [done|]; intros ->; apply list_elem_of_here).
Qed.

(** Authentication works on what the enrollment service does. *)
Lemma auth_step_service a a' :
  auth_step authorize upper_other a a' -> rtc step (au_service a) (au_service a').
Proof.
  destruct 1 as [s' Hs|e b o| | | | | |]; simpl; try done.
  - by apply rtc_once.
  - unfold RevokeLive. pose proof (ss_revoke authorize upper_other (au_service a) e b o) as Hs.
    destruct (Revoke _ _ _ _ _) as [[r fx] s']. by apply rtc_once.
  - unfold ActivateAuthentication. destruct (completeAuthentication a now conn proof) as [r a'] eqn:E.
    unfold completeAuthentication in E. injection E as _ <-. destruct r as [[? ?]|]; [|done]. by destruct ok.
  - unfold challengeTimer. destruct (au_challenges a !! conn); [|done]. by destruct (same_str _ _).
Qed.

Definition out (bodyID : string) (a : AuthService) : Prop :=
  service_ok (au_service a) /\ bodyID ∉ au_active a /\
  exists b, t_bodies (s_tables (au_service a)) !! bodyID = Some b /\ is_Some (br_RevokedAt b).

Lemma out_refused bodyID a now conn proof accept b a' :
  out bodyID a -> completeAuthentication a now conn proof = (Ok (accept, b), a') -> b <> bodyID.
Proof.
  intros (_ & _ & b0 & Hb0 & Hrev) Hc ->.
  apply completeAuthentication_inv in Hc as (pending & _ & _ & _ & Hp).
  apply check_proof_inv in Hp as (body & _ & Hb & _ & Hn & _). rewrite Hb0 in Hb. injection Hb as <-.
  rewrite Hn in Hrev. by destruct Hrev.
Qed.

#[export] Instance out_preserved bodyID : Preserves (auth_step authorize upper_other) (out bodyID).
Proof.
  intros a a' Hst Hout. pose proof Hout as (Hok & Hact & b & Hb & Hrev).
  pose proof (auth_step_service _ _ Hst) as Hserv. split_and!.
  - exact (reachable_keeps service_ok _ _ Hserv Hok).
  - destruct Hst as [s' Hs|e b' o| |now conn proof ok| | | |]; simpl; try done; try set_solver.
    + unfold RevokeLive. destruct (Revoke _ _ _ _ _) as [[r fx] s']. simpl. set_solver.
    + unfold ActivateAuthentication. destruct (completeAuthentication a now conn proof) as [r a'] eqn:E.
      assert (Ha : au_active a' = au_active a) by (unfold completeAuthentication in E; by injection E as _ <-).
      destruct r as [[accept b']|]; simpl; [|by rewrite Ha]. destruct ok; simpl; rewrite Ha; [|done].
      pose proof (out_refused _ _ _ _ _ _ _ _ Hout E). set_solver.
    + unfold challengeTimer. destruct (au_challenges a !! conn); [|done]. by destruct (same_str _ _).
  - destruct (revoked_stays authorize upper_other _ _ _ _ Hok Hserv Hb Hrev) as (b' & _ & ? & ? & _). eauto.
Qed.

(** ** Properties *)

(** C8: a revoked Body is out for good.  Once a revocation has returned
    successfully, with live sessions to end, the Body has no active connection
    and never gets one again, whatever runs afterwards: challenges prepared
    before the revocation and published after it, proofs that raced it,
    connections of other Bodies.  No proof is accepted for it and no challenge
    is issued to it. *)
Theorem revocation_ends_authentication a e bodyID ownerID a1 a2 :
  service_ok (au_service a) -> s_sessions (au_service a) = true ->
  RevokeLive authorize a e bodyID ownerID = (Ok tt, a1) ->
  rtc (auth_step authorize upper_other) a1 a2 ->
  bodyID ∉ au_active a2 /\
  (forall now conn proof accept, (completeAuthentication a2 now conn proof).1 <> Ok (accept, bodyID)) /\
  (forall now conn uuid nonce hello, h_BodyID hello = bodyID ->
     is_ok (prepareChallenge (au_service a2) now conn uuid nonce hello) = false).
Proof.
  intros Hok Hsess Hrev Hr.
  assert (Hout : out bodyID a1).
  { unfold RevokeLive in Hrev.
    pose proof (ss_revoke authorize upper_other (au_service a) e bodyID ownerID) as Hst.
    destruct (Revoke _ _ _ _ _) as [[r fx] s'] eqn:E. injection Hrev as -> <-. simpl in Hst.
    apply Revoke_ok_inv in E as [Hb Hfx]. split_and!; simpl; [exact (preserves _ _ Hst Hok)| |done].
    specialize (Hfx Hsess). unfold disconnected. rewrite elem_of_difference, elem_of_list_to_set, list_elem_of_omap.
    intros [_ Hn]. apply Hn. eauto. }
  pose proof (reachable_keeps (out bodyID) _ _ Hr Hout) as Hout2.
  pose proof Hout2 as (_ & Hact & b & Hb & [t0 Ht0]). split_and!; [done| |].
  - intros now conn proof accept Heq.
    destruct (completeAuthentication a2 now conn proof) as [r a'] eqn:E. simpl in Heq. subst r.
    by eapply out_refused.
  - intros now conn uuid nonce hello <-. unfold prepareChallenge, GetBody. do 2 (destruct (_ || _); [done|]).
    rewrite Hb, Ht0. done.
Qed.

(** A proof is accepted only for the challenge it answers, once.  If a proof
    is accepted then the connection had a challenge, prepared by this service
    for a Body that is enrolled, not revoked and an active member under the
    same key; the proof repeats the challenge's Core, Body, session, nonces and
    algorithm, came before its expiry, and is signed by the Body's key.  And
    every attempt, accepted or not, uses up the connection's challenge: the next
    proof on it is refused. *)
Theorem proof_answers_challenge a now conn proof :
  let '(r, a') := completeAuthentication a now conn proof in
  (forall accept bodyID, r = Ok (accept, bodyID) ->
     exists c body, au_challenges a !! conn = Some c /\ br_BodyID (ac_body c) = bodyID /\
       t_bodies (s_tables (au_service a)) !! bodyID = Some body /\ br_RevokedAt body = None /\
       activeMembership (au_service a) body = true /\ same_credential body (ac_body c) = true /\
       VerifyProof (br_PublicKey body) proof = Ok tt /\
       now < c_ExpiresAt (ac_value c) /\ p_CoreID proof = c_CoreID (ac_value c) /\
       p_BodyID proof = c_BodyID (ac_value c) /\ p_SessionID proof = c_SessionID (ac_value c) /\
       p_BodyNonce proof = c_BodyNonce (ac_value c) /\ p_CoreNonce proof = c_CoreNonce (ac_value c) /\
       p_Algorithm proof = c_Algorithm (ac_value c)) /\
  (forall now' proof', (completeAuthentication a' now' conn proof').1 = Err ErrUnauthorized).
Proof.
  destruct (completeAuthentication a now conn proof) as [r a'] eqn:E. split.
  - intros accept bodyID ->. apply completeAuthentication_inv in E as (c & Hc & _ & _ & Hp).
    apply check_proof_inv in Hp as (body & Ha & Hb & -> & Hn & Hm & Hs & Hv).
    unfold answers, Before in Ha. rewrite !andb_true_iff, !same_str_true, Z.ltb_lt in Ha.
    exists c, body. destruct Ha as ((((((? & ?) & ?) & ?) & ?) & ?) & ?). by split_and!.
  - intros now' proof'. unfold completeAuthentication in *. injection E as _ <-. simpl.
    by rewrite lookup_delete_eq.
Qed.
End lemmas.

Section handshake.
Context `{Hed : Ed25519, !Ed25519Laws}.

(** The proof a Body signs to answer a challenge. *)
Definition answer (c : Challenge) : AuthProof :=
  {| p_Version := 1; p_Type := TypeProof; p_CoreID := c_CoreID c; p_BodyID := c_BodyID c;
     p_SessionID := c_SessionID c; p_BodyNonce := c_BodyNonce c; p_CoreNonce := c_CoreNonce c;
     p_Algorithm := c_Algorithm c; p_Signature := "" |}.

Lemma RFC3339_signable t : signable (RFC3339 t).
Proof.
  unfold signable, len, bytes_of, String.list_byte_of_string. rewrite List.length_map.
  assert (Hl : forall s, length (String.list_ascii_of_string s) = String.length s)
    by (intros s; induction s; simpl; auto).
  rewrite Hl, length_RFC3339. lia.
Qed.

Lemma SignChallenge_ok seed v bn cn :
  len seed = 32 -> signable (c_CoreID v) -> signable (c_BodyID v) -> signable (c_SessionID v) ->
  signable (c_Algorithm v) -> DecodeNonce (c_BodyNonce v) = Ok bn -> len bn = 32 ->
  DecodeNonce (c_CoreNonce v) = Ok cn -> len cn = 32 ->
  exists sig, SignChallenge (NewKeyFromSeed seed) v =
    Ok {| c_Version := c_Version v; c_Type := c_Type v; c_CoreID := c_CoreID v; c_BodyID := c_BodyID v;
          c_SessionID := c_SessionID v; c_BodyNonce := c_BodyNonce v; c_CoreNonce := c_CoreNonce v;
          c_ExpiresAt := c_ExpiresAt v; c_Algorithm := c_Algorithm v; c_Signature := sig |}.
Proof using All.
  intros Hs H1 H2 H3 H4 Hb Hbl Hc Hcl. unfold SignChallenge, challengeFields, authFields.
  edestruct (auth_fields_ok 7 0) as (fs & Hf & Hg); [|rewrite Hf; cbn [res_bind]].
  - repeat (apply Forall2_cons; split); simpl; eauto using RFC3339_signable.
  - destruct (auth_sign_ok seed TypeChallenge fs) as [sig ->]; [done|by vm_compute|done|]. simpl. eauto.
Qed.

Lemma SignProof_ok seed v bn cn :
  len seed = 32 -> signable (p_CoreID v) -> signable (p_BodyID v) -> signable (p_SessionID v) ->
  signable (p_Algorithm v) -> DecodeNonce (p_BodyNonce v) = Ok bn -> len bn = 32 ->
  DecodeNonce (p_CoreNonce v) = Ok cn -> len cn = 32 ->
  exists sig, SignProof (NewKeyFromSeed seed) v =
    Ok {| p_Version := p_Version v; p_Type := p_Type v; p_CoreID := p_CoreID v; p_BodyID := p_BodyID v;
          p_SessionID := p_SessionID v; p_BodyNonce := p_BodyNonce v; p_CoreNonce := p_CoreNonce v;
          p_Algorithm := p_Algorithm v; p_Signature := sig |}.
Proof using All.
  intros Hs H1 H2 H3 H4 Hb Hbl Hc Hcl. unfold SignProof, proofFields, authFields.
  edestruct (auth_fields_ok 6 0) as (fs & Hf & Hg); [|rewrite Hf; cbn [res_bind]].
  - repeat (apply Forall2_cons; split); simpl; eauto.
  - destruct (auth_sign_ok seed TypeProof fs) as [sig ->]; [done|by vm_compute|done|]. simpl. eauto.
Qed.

Lemma SignAccept_ok seed v :
  len seed = 32 -> signable (a_CoreID v) -> signable (a_BodyID v) -> signable (a_SessionID v) ->
  signable (a_Status v) ->
  exists sig, SignAccept (NewKeyFromSeed seed) v =
    Ok {| a_Version := a_Version v; a_Type := a_Type v; a_CoreID := a_CoreID v; a_BodyID := a_BodyID v;
          a_SessionID := a_SessionID v; a_Status := a_Status v; a_Signature := sig |}.
Proof using All.
  intros Hs H1 H2 H3 H4. unfold SignAccept, acceptFields, authFields.
  edestruct (auth_fields_ok 4 0) as (fs & Hf & Hg); [|rewrite Hf; cbn [res_bind]].
  - repeat (apply Forall2_cons; split); simpl; eauto.
  - destruct (auth_sign_ok seed TypeAccept fs) as [sig ->]; [done|by vm_compute|done|]. simpl. eauto.
Qed.


Lemma prepareChallenge_ok (s : Service) (now : time) conn uuid coreNonce bodyNonce hello b :
  conn <> "" -> h_Version hello = 1 -> h_Type hello = TypeHello -> h_BodyID hello <> "" ->
  len bodyNonce = 32 -> h_BodyNonce hello = EncodeRawURL bodyNonce ->
  AlgorithmEd25519 ∈ h_Algorithms hello ->
  t_bodies (s_tables s) !! h_BodyID hello = Some b -> br_RevokedAt b = None -> activeMembership s b = true ->
  forall c, SignChallenge (id_PrivateKey (s_identity s))
      {| c_Version := 1; c_Type := TypeChallenge; c_CoreID := id_CoreID (s_identity s);
         c_BodyID := br_BodyID b; c_SessionID := "session_" +:+ uuid; c_BodyNonce := h_BodyNonce hello;
         c_CoreNonce := EncodeRawURL coreNonce;
         c_ExpiresAt := truncate_second (now + authenticationChallengeLifetime);
         c_Algorithm := AlgorithmEd25519; c_Signature := "" |} = Ok c ->
  prepareChallenge s now conn uuid coreNonce hello = Ok {| ac_connectionID := conn; ac_body := b; ac_value := c |}.
Proof.
  intros Hconn Hv Ht Hne Hbn Hnonce Halg Hb Hrev Hact c Hsig. unfold prepareChallenge.
  rewrite (proj2 (empty_str_false _) Hconn), Hv, Ht, (proj2 (empty_str_false _) Hne).
  rewrite (proj2 (same_str_true _ _) eq_refl). simpl. rewrite Hnonce, (DecodeNonce_encoded _ Hbn). simpl.
  replace (supportsEd25519 _) with true.
  2:{ symmetry. apply existsb_exists. exists AlgorithmEd25519. rewrite <- list_elem_of_In.
      split; [done|]. by apply same_str_true. }
  simpl. unfold GetBody. rewrite Hb, Hrev, Hact. simpl. rewrite <- Hnonce. by rewrite Hsig.
Qed.

(** A matching, signed proof for an active Body comes down to the signature of the acceptance. *)
Lemma check_proof_accepts (s : Service) now (ac : authenticationChallenge) proof accept :
  let b := ac_body ac in
  answers now (ac_value ac) proof = true -> t_bodies (s_tables s) !! br_BodyID b = Some b ->
  br_RevokedAt b = None -> activeMembership s b = true -> VerifyProof (br_PublicKey b) proof = Ok tt ->
  SignAccept (id_PrivateKey (s_identity s))
    {| a_Version := 1; a_Type := TypeAccept; a_CoreID := id_CoreID (s_identity s); a_BodyID := br_BodyID b;
       a_SessionID := c_SessionID (ac_value ac); a_Status := "authenticated"; a_Signature := "" |} = Ok accept ->
  check_proof s now ac proof = Ok (accept, br_BodyID b).
Proof.
  intros b Hans Hb Hrev Hact Hvp Hsign. unfold check_proof. fold b. rewrite Hans. unfold GetBody.
  rewrite Hb, Hrev, Hact. unfold same_credential. fold b.
  rewrite (bool_decide_eq_false_2 (is_Some None)) by (by intros [? ?]).
  rewrite (bool_decide_eq_true_2 (br_PublicKey b = _)) by done.
  rewrite (Z.eqb_refl (br_KeyVersion b)), !(proj2 (same_str_true _ _) eq_refl). cbn [orb andb negb].
  by rewrite Hvp, Hsign.
Qed.

(** C40: an enrolled Body gets in.  A Body that is enrolled under the public half
    of its key, not revoked and an active member, and that greets with a fresh
    nonce and Ed25519, is sent a challenge it can verify with the Core's public
    key and that stays valid for more than 29 seconds; the proof it signs over
    that challenge, delivered in time on the same connection, is accepted, and
    the acceptance names its Body and session and verifies too. *)
Theorem handshake_succeeds (a : AuthService) (coreSeed bodySeed : list byte) (now : time) conn uuid coreNonce
    bodyNonce hello b :
  len coreSeed = 32 -> len bodySeed = 32 -> len coreNonce = 32 -> len bodyNonce = 32 ->
  id_PrivateKey (s_identity (au_service a)) = NewKeyFromSeed coreSeed ->
  signable (id_CoreID (s_identity (au_service a))) -> signable (h_BodyID hello) ->
  signable ("session_" +:+ uuid) -> conn <> "" ->
  h_Version hello = 1 -> h_Type hello = TypeHello -> h_BodyNonce hello = EncodeRawURL bodyNonce ->
  AlgorithmEd25519 ∈ h_Algorithms hello ->
  t_bodies (s_tables (au_service a)) !! h_BodyID hello = Some b -> br_BodyID b = h_BodyID hello ->
  br_PublicKey b = Public (NewKeyFromSeed bodySeed) -> br_RevokedAt b = None ->
  activeMembership (au_service a) b = true ->
  exists c a1 proof,
    BeginAuthentication a now conn uuid coreNonce hello = (Ok c, a1) /\
    VerifyChallenge (Public (NewKeyFromSeed coreSeed)) c = Ok tt /\
    now + 29 * second < c_ExpiresAt c /\
    SignProof (NewKeyFromSeed bodySeed) (answer c) = Ok proof /\
    forall now', now' < c_ExpiresAt c ->
      exists accept, (completeAuthentication a1 now' conn proof).1 = Ok (accept, h_BodyID hello) /\
        VerifyAccept (Public (NewKeyFromSeed coreSeed)) accept = Ok tt /\
        a_BodyID accept = h_BodyID hello /\ a_SessionID accept = c_SessionID c.
Proof using All.
  intros Hcs Hbs Hcn Hbn Hpriv Hcore Hbody Hsess Hconn Hv Ht Hnonce Halg Hb Hbid Hkey Hrev Hact.
  destruct (handshake_verifies coreSeed Hcs) as (Vc & _ & Va).
  destruct (handshake_verifies bodySeed Hbs) as (_ & Vp & _).
  assert (Hne : h_BodyID hello <> "").
  { intros He. rewrite He in Hbody. unfold signable, len in Hbody. simpl in Hbody. lia. }
  assert (Hed25519 : signable AlgorithmEd25519) by (vm_compute; split; congruence).
  pose proof (DecodeNonce_encoded _ Hcn) as Dc. pose proof (DecodeNonce_encoded _ Hbn) as Db.
  set (v := {| c_Version := 1; c_Type := TypeChallenge; c_CoreID := id_CoreID (s_identity (au_service a));
               c_BodyID := br_BodyID b; c_SessionID := "session_" +:+ uuid; c_BodyNonce := h_BodyNonce hello;
               c_CoreNonce := EncodeRawURL coreNonce;
               c_ExpiresAt := truncate_second (now + authenticationChallengeLifetime);
               c_Algorithm := AlgorithmEd25519; c_Signature := "" |}).
  destruct (SignChallenge_ok coreSeed v bodyNonce coreNonce) as [sig Hsig];
    [done|done|simpl; by rewrite Hbid|done|done|simpl; by rewrite Hnonce|done|done|done|].
  set (c := {| c_Version := c_Version v; c_Type := c_Type v; c_CoreID := c_CoreID v |}) in Hsig.
  destruct (SignProof_ok bodySeed (answer c) bodyNonce coreNonce) as [sig' Hproof];
    [done|done|simpl; by rewrite Hbid|done|done|simpl; by rewrite Hnonce|done|done|done|].
  set (proof := {| p_Version := _ |}) in Hproof.
  destruct (SignAccept_ok coreSeed {| a_Version := 1; a_Type := TypeAccept;
      a_CoreID := id_CoreID (s_identity (au_service a)); a_BodyID := br_BodyID b;
      a_SessionID := c_SessionID c; a_Status := "authenticated"; a_Signature := "" |}) as [sig2 Hacc];
    [done|done|simpl; by rewrite Hbid|done|by vm_compute|].
  set (ac := {| ac_connectionID := conn; ac_body := b; ac_value := c |}).
  exists c, (publish a ac), proof. split_and!.
  - unfold BeginAuthentication. erewrite prepareChallenge_ok; try done. by rewrite Hpriv.
  - by apply (Vc v).
  - simpl. unfold truncate_second, authenticationChallengeLifetime.
    pose proof (Z.mod_pos_bound (now + 30 * second) second ltac:(done)). lia.
  - done.
  - intros now' Hnow. unfold completeAuthentication.
    cbn [au_challenges publish put_challenges ac_connectionID ac fst]. rewrite lookup_insert_eq.
    change (au_service (publish a ac)) with (au_service a). eexists. rewrite <- Hbid at 1 2. split.
    + apply (check_proof_accepts _ _ ac); cbn [ac_body ac_value ac]; rewrite ?Hbid, ?Hkey, ?Hpriv; try done.
      * unfold answers, Before. rewrite !andb_true_iff, Z.ltb_lt, !same_str_true. by split_and!.
      * by apply (Vp _ _ Hproof).
      * rewrite <- Hbid. exact Hacc.
    + split; [by eapply Va|done].
Qed.
End handshake.

(** ** A concrete Body *)

Definition demo_auth : AuthService :=
  {| au_service := SetRevocationLifecycle demo_enrolled true false; au_challenges := ∅;
     au_active := {[ "body_u" ]} |}.

Definition demo_hello : Hello :=
  {| h_Version := 1; h_Type := TypeHello; h_BodyID := "body_u"; h_BodyNonce := demo_nonce x02;
     h_Algorithms := ["Ed25519"] |}.

Lemma demo_auth_ok : service_ok (au_service demo_auth).
Proof.
  exact (preserves _ _ (ss_lifecycle allow_all id demo_enrolled true false)
    (reachable_keeps service_ok _ _ demo_enrolled_reached demo_core_ok)).
Qed.

Definition body_live (s : Service) (id : string) (key : list byte) : bool :=
  match t_bodies (s_tables s) !! id with
  | Some b => same_str (br_BodyID b) id && bool_decide (br_PublicKey b = key) &&
              negb (bool_decide (is_Some (br_RevokedAt b))) && activeMembership s b
  | None => false
  end.

Lemma body_live_true s id key : body_live s id key = true ->
  exists b, t_bodies (s_tables s) !! id = Some b /\ br_BodyID b = id /\ br_PublicKey b = key /\
    br_RevokedAt b = None /\ activeMembership s b = true.
Proof.
  unfold body_live. destruct (t_bodies _ !! id) as [b|]; [|done].
  rewrite !andb_true_iff, negb_true_iff, same_str_true, bool_decide_eq_true, bool_decide_eq_false.
  intros (((? & ?) & Hn) & ?). exists b. split_and!; try done. by apply eq_None_not_Some.
Qed.

Lemma handshake_succeeds_witness :
  exists c a1 proof accept,
    BeginAuthentication demo_auth (7 * second) "conn" "s" (demo_seed x03) demo_hello = (Ok c, a1) /\
    SignProof (demo_key x07) (answer c) = Ok proof /\
    (completeAuthentication a1 (8 * second) "conn" proof).1 = Ok (accept, "body_u").
Proof.
  assert (Hl : body_live (au_service demo_auth) "body_u" (Public (demo_key x07)) = true) by (vm_compute; reflexivity).
  destruct (body_live_true _ _ _ Hl) as (b & Hb & Hid & Hk & Hr & Ha).
  assert (Hpriv : id_PrivateKey (s_identity (au_service demo_auth)) = NewKeyFromSeed (demo_seed x05))
    by (vm_compute; reflexivity).
  assert (Hsign : signable (id_CoreID (s_identity (au_service demo_auth))))
    by (vm_compute; split; discriminate).
  assert (Hbody : signable "body_u") by (vm_compute; split; discriminate).
  assert (Hsess : signable "session_s") by (vm_compute; split; discriminate).
  destruct (handshake_succeeds demo_auth (demo_seed x05) (demo_seed x07) (7 * second) "conn" "s" (demo_seed x03)
    (demo_seed x02) demo_hello b eq_refl eq_refl eq_refl eq_refl Hpriv Hsign Hbody Hsess ltac:(discriminate)
    eq_refl eq_refl eq_refl (list_elem_of_here _ _) Hb Hid Hk Hr Ha)
    as (c & a1 & proof & Hbegin & _ & Hexp & Hp & Hc).
  destruct (Hc (8 * second)) as (accept & Hacc & _); [unfold second in *; lia|].
  exists c, a1, proof, accept. split_and!; [exact Hbegin|exact Hp|exact Hacc].
Defined.

Definition revoke_returned (x : res enroll_error unit * AuthService) : bool :=
  match x.1 with Ok _ => true | Err _ => false end.

Lemma revoke_returned_true x : revoke_returned x = true -> x = (Ok tt, x.2).
Proof. by destruct x as [[[]|] ?]. Qed.

Lemma revocation_ends_authentication_witness :
  "body_u" ∈ au_active demo_auth /\
  "body_u" ∉ au_active (RevokeLive allow_all demo_auth demo_e "body_u" "owner").2.
Proof.
  split; [exact (proj2 (elem_of_singleton "body_u" "body_u") eq_refl)|].
  assert (Hr : revoke_returned (RevokeLive allow_all demo_auth demo_e "body_u" "owner") = true)
    by (vm_compute; reflexivity).
  exact (proj1 (revocation_ends_authentication allow_all id demo_auth demo_e "body_u" "owner"
    (RevokeLive allow_all demo_auth demo_e "body_u" "owner").2 _ demo_auth_ok eq_refl
    (revoke_returned_true _ Hr) (rtc_refl _ _))).
Defined.
