(* ===== verification/NDF1.v ===== *)
(** * NDF1: the binary data frame of Doll Link file transfer

    Models DollLink/FileTransfer/ndf1.go and the frame header of types.go: the
    32-byte header codec, the frame codec over byte slices and over streams,
    the frame's self-check with its uint64 overflow test, the sequential offset
    checker and the clamping frame builder.  A transfer identifier is Go's
    [[16]byte]; offsets and lengths are integers with their wrap-around written
    out. *)
From S2P Require Import Prelude GoBytes.

(** ** Identifiers and constants *)

Abbreviation TransferID := (list byte) (only parsing).

Definition EmptyTransferID : TransferID := replicate 16 x00.

Definition TransferID_IsZero (tid : TransferID) : bool := bool_decide (tid = EmptyTransferID).

Definition NDF1Magic : string := "NDF1".
Definition MaxNDF1Payload : Z := 1048576.
Definition RecommendedChunkSize : Z := 262144.
Definition NDF1HeaderLen : nat := 32.

(** ** Data *)

Record NDF1Header := {
  hdr_TransferID : TransferID;
  hdr_Offset : Z;
  hdr_Length : Z;
}.

Record NDF1Frame := {
  Header : NDF1Header;
  Payload : list byte;
}.

Inductive ndf1_error :=
| HeaderTooShort
| UnknownMagic
| ZeroTransferID
| LengthMismatch
| PayloadTooLarge
| OffsetOverflow
| ReadHeader (e : io_error)
| ReadPayload (e : io_error)
| EncodeHeader
| EncodePayload
| UnexpectedOffset.

(** ** Header codec *)

(** The buffer is zeroed, then its four fields are copied into place. *)
Definition NDF1Header_Encode (h : NDF1Header) : list byte :=
  let buf := replicate NDF1HeaderLen x00 in
  let buf := go_copy buf 0 (bytes_of NDF1Magic) in
  let buf := go_copy buf 4 (hdr_TransferID h) in
  let buf := go_copy buf 20 (be_put 8 (hdr_Offset h)) in
  go_copy buf 28 (be_put 4 (hdr_Length h)).

Definition DecodeNDF1Header (raw : list byte) : res ndf1_error NDF1Header :=
  refuse Nat.ltb (length raw) NDF1HeaderLen with HeaderTooShort;
  refuse negb (bool_decide (slice 0 4 raw = bytes_of NDF1Magic)) with UnknownMagic;
  Ok {| hdr_TransferID := slice 4 20 raw;
        hdr_Offset := be_get (slice 20 28 raw);
        hdr_Length := be_get (slice 28 32 raw) |}.

(** ** Frame *)

Definition NDF1Frame_Validate (f : NDF1Frame) : res ndf1_error unit :=
  refuse TransferID_IsZero (hdr_TransferID (Header f)) with ZeroTransferID;
  refuse negb (hdr_Length (Header f) =? len (Payload f)) with LengthMismatch;
  refuse MaxNDF1Payload <? hdr_Length (Header f) with PayloadTooLarge;
  refuse u64 (hdr_Offset (Header f) + hdr_Length (Header f)) <? hdr_Offset (Header f)
    with OffsetOverflow;
  Ok tt.

(** [Encode] against an [io.Writer]: the writer's [Write] answers with its next
    state, the number of bytes it took and whether it failed. *)
Section Writer.
Context {W : Type} (Write : W -> list byte -> W * (Z * bool)).

Definition NDF1Frame_Encode (f : NDF1Frame) (w : W) : W * (Z * res ndf1_error unit) :=
  match NDF1Frame_Validate f with
  | Err e => (w, (0, Err e))
  | Ok _ =>
      let header := NDF1Header_Encode (Header f) in
      let '(w1, (n, failed)) := Write w header in
      if failed then (w1, (n, Err EncodeHeader))
      else
        let '(w2, (n2, failed2)) := Write w1 (Payload f) in
        if failed2 then (w2, (n + n2, Err EncodePayload)) else (w2, (n + n2, Ok tt))
  end.

End Writer.

(** A [bytes.Buffer]: takes everything and never fails. *)
Definition buffer_Write (w : list byte) (p : list byte) : list byte * (Z * bool) :=
  (w ++ p, (len p, false)).

Definition DecodeNDF1Frame (r : Reader) : res ndf1_error (NDF1Frame * Reader) :=
  match ReadFull r NDF1HeaderLen with
  | Err e => Err (ReadHeader e)
  | Ok (headerBuf, r1) =>
      try header <- DecodeNDF1Header headerBuf;
      refuse MaxNDF1Payload <? hdr_Length header with PayloadTooLarge;
      if 0 <? hdr_Length header then
        match ReadFull r1 (Z.to_nat (hdr_Length header)) with
        | Err e => Err (ReadPayload e)
        | Ok (payload, r2) => Ok ({| Header := header; Payload := payload |}, r2)
        end
      else Ok ({| Header := header; Payload := [] |}, r1)
  end.

Definition NDF1Frame_MarshalBinary (f : NDF1Frame) : list byte :=
  let out := replicate (NDF1HeaderLen + length (Payload f)) x00 in
  let out := go_copy out 0 (NDF1Header_Encode (Header f)) in
  go_copy out NDF1HeaderLen (Payload f).

Definition NDF1Frame_UnmarshalBinary (data : list byte) : res ndf1_error NDF1Frame :=
  refuse Nat.ltb (length data) NDF1HeaderLen with HeaderTooShort;
  try header <- DecodeNDF1Header (take NDF1HeaderLen data);
  refuse negb (u32 (len data - Z.of_nat NDF1HeaderLen) =? hdr_Length header) with LengthMismatch;
  let payload := replicate (Z.to_nat (hdr_Length header)) x00 in
  Ok {| Header := header; Payload := go_copy payload 0 (drop NDF1HeaderLen data) |}.

Definition NDF1Frame_Size (f : NDF1Frame) : Z := Z.of_nat NDF1HeaderLen + len (Payload f).

Definition NDF1Frame_OffsetEnd (f : NDF1Frame) : Z :=
  u64 (hdr_Offset (Header f) + hdr_Length (Header f)).

Definition NewNDF1Frame (tid : TransferID) (offset : Z) (payload : list byte) : NDF1Frame :=
  let payload := if MaxNDF1Payload <? len payload
                 then take (Z.to_nat MaxNDF1Payload) payload else payload in
  {| Header := {| hdr_TransferID := tid; hdr_Offset := offset; hdr_Length := u32 (len payload) |};
     Payload := payload |}.

(** ** Sequential offset checker *)

Record SequentialChecker := { nextOffset : Z }.

Definition NewSequentialChecker : SequentialChecker := {| nextOffset := 0 |}.

Definition NewSequentialCheckerAt (offset : Z) : SequentialChecker := {| nextOffset := offset |}.

Definition SequentialChecker_Check (sc : SequentialChecker) (frame : NDF1Frame)
    : res ndf1_error SequentialChecker :=
  refuse negb (hdr_Offset (Header frame) =? nextOffset sc) with UnexpectedOffset;
  Ok {| nextOffset := u64 (nextOffset sc + hdr_Length (Header frame)) |}.

(** The loop every receiver runs: one [Check] per arriving frame. *)
Fixpoint check_all (sc : SequentialChecker) (frames : list NDF1Frame)
    : res ndf1_error SequentialChecker :=
  match frames with
  | [] => Ok sc
  | f :: fs => try sc' <- SequentialChecker_Check sc f; check_all sc' fs
  end.

(** The start-up self-test of the header layout. *)
Definition init_selftest : bool :=
  let tid := map (fun i => z2b (Z.of_nat i)) (seq 0 16) in
  let encoded := NDF1Header_Encode
    {| hdr_TransferID := tid; hdr_Offset := 0x0102030405060708; hdr_Length := 0x090A0B0C |} in
  Nat.eqb (length encoded) 32 &&
  bool_decide (slice 0 4 encoded = bytes_of "NDF1") &&
  bool_decide (slice 4 20 encoded = tid) &&
  (be_get (slice 20 28 encoded) =? 0x0102030405060708) &&
  (be_get (slice 28 32 encoded) =? 0x090A0B0C).

(** ** Well-formedness: the ranges Go's types give the fields *)

Definition wf_header (h : NDF1Header) : Prop :=
  length (hdr_TransferID h) = 16%nat /\ 0 <= hdr_Offset h < 2 ^ 64 /\ 0 <= hdr_Length h < 2 ^ 32.

Definition wf_frame (f : NDF1Frame) : Prop :=
  wf_header (Header f) /\ hdr_Length (Header f) = len (Payload f).

(** ** Lemmas *)

Lemma NDF1Header_Encode_fields h :
  length (hdr_TransferID h) = 16%nat ->
  NDF1Header_Encode h =
  bytes_of NDF1Magic ++ hdr_TransferID h ++ be_put 8 (hdr_Offset h) ++ be_put 4 (hdr_Length h).
Proof.
  intros Ht. unfold NDF1Header_Encode.
  set (m := bytes_of NDF1Magic). set (t := hdr_TransferID h) in *.
  set (o := be_put 8 (hdr_Offset h)). set (l := be_put 4 (hdr_Length h)).
  assert (length m = 4%nat) as Hm by done.
  assert (length o = 8%nat) as Ho by apply length_be_put.
  assert (length l = 4%nat) as Hl by apply length_be_put.
  change (replicate NDF1HeaderLen x00) with
    ([] ++ replicate 4 x00 ++ (replicate 16 x00 ++ replicate 8 x00 ++ replicate 4 x00)).
  rewrite (go_copy_at 0 []) by done. rewrite app_nil_l.
  rewrite (go_copy_at 4 m) by done.
  rewrite (app_assoc m t), (go_copy_at 20) by (rewrite ?length_app, ?Hm, ?Ht; done).
  rewrite (app_assoc (m ++ t) o), <- (app_nil_r (replicate 4 x00)).
  rewrite (go_copy_at 28) by (rewrite ?length_app, ?Hm, ?Ht, ?Ho; done).
  by rewrite app_nil_r, <- !app_assoc.
Qed.

Lemma length_NDF1Header_Encode h :
  length (hdr_TransferID h) = 16%nat -> length (NDF1Header_Encode h) = NDF1HeaderLen.
Proof.
  intros Ht. rewrite NDF1Header_Encode_fields, !length_app, Ht, !length_be_put by done. done.
Qed.

Lemma NDF1Frame_MarshalBinary_app f :
  length (hdr_TransferID (Header f)) = 16%nat ->
  NDF1Frame_MarshalBinary f = NDF1Header_Encode (Header f) ++ Payload f.
Proof.
  intros Ht. unfold NDF1Frame_MarshalBinary.
  rewrite replicate_add.
  rewrite <- (app_nil_l (replicate NDF1HeaderLen x00 ++ _)).
  rewrite (go_copy_at 0 []) by (rewrite ?length_replicate, ?length_NDF1Header_Encode; done).
  rewrite app_nil_l, <- (app_nil_r (replicate (length (Payload f)) x00)).
  rewrite go_copy_at by (rewrite ?length_replicate, ?length_NDF1Header_Encode; done).
  by rewrite app_nil_r.
Qed.

Lemma go_copy_fresh n (src : list byte) :
  length src = n -> go_copy (replicate n x00) 0 src = src.
Proof.
  intros <-. rewrite <- (app_nil_r (replicate _ _)), <- (app_nil_l (_ ++ [])).
  rewrite (go_copy_at 0 []) by (rewrite ?length_replicate; done). apply app_nil_r.
Qed.

Lemma DecodeNDF1Header_Encode h rest :
  wf_header h -> DecodeNDF1Header (NDF1Header_Encode h ++ rest) = Ok h.
Proof.
  intros (Ht & Ho & Hl). unfold DecodeNDF1Header.
  rewrite length_app, length_NDF1Header_Encode by done.
  rewrite (proj2 (Nat.ltb_ge _ _)) by lia.
  rewrite NDF1Header_Encode_fields, <- !app_assoc by done.
  set (m := bytes_of NDF1Magic). set (o := be_put 8 (hdr_Offset h)).
  set (l := be_put 4 (hdr_Length h)).
  assert (length o = 8%nat) as Lo by apply length_be_put.
  assert (length l = 4%nat) as Ll by apply length_be_put.
  assert (slice 0 4 (m ++ hdr_TransferID h ++ o ++ l ++ rest) = m) as ->
    by (apply (slice_app_mid _ _ []); done).
  rewrite bool_decide_eq_true_2 by done; simpl negb; cbv iota.
  assert (slice 4 20 (m ++ hdr_TransferID h ++ o ++ l ++ rest) = hdr_TransferID h) as ->
    by (apply slice_app_mid; [done|rewrite Ht; done]).
  assert (slice 20 28 (m ++ hdr_TransferID h ++ o ++ l ++ rest) = o) as ->.
  { rewrite app_assoc. apply slice_app_mid; rewrite length_app, Ht; [done|rewrite Lo; done]. }
  assert (slice 28 32 (m ++ hdr_TransferID h ++ o ++ l ++ rest) = l) as ->.
  { rewrite !app_assoc. rewrite <- (app_assoc _ l).
    apply slice_app_mid; rewrite !length_app, Ht, Lo; [done|rewrite Ll; done]. }
  unfold o, l. rewrite !be_get_put, !Z.mod_small by lia. by destruct h.
Qed.

Lemma DecodeNDF1Header_wf raw h :
  DecodeNDF1Header raw = Ok h ->
  wf_header h /\ take NDF1HeaderLen raw = NDF1Header_Encode h.
Proof.
  unfold DecodeNDF1Header. intros H. branches. bool_props.
  match goal with H : Nat.ltb _ _ = false |- _ => apply Nat.ltb_ge in H end.
  unfold NDF1HeaderLen in *.
  assert (length (slice 4 20 raw) = 16%nat) as Lt by (apply length_slice; lia).
  assert (length (slice 20 28 raw) = 8%nat) as Lo by (apply length_slice; lia).
  assert (length (slice 28 32 raw) = 4%nat) as Ll by (apply length_slice; lia).
  split.
  - repeat split; simpl; try done; try apply be_get_range.
    + eapply Z.lt_le_trans; [apply be_get_range|]. unfold len. by rewrite Lo.
    + eapply Z.lt_le_trans; [apply be_get_range|]. unfold len. by rewrite Ll.
  - rewrite NDF1Header_Encode_fields by done. cbn [hdr_Offset hdr_Length hdr_TransferID].
    rewrite !be_put_get_n by done.
    match goal with H : slice 0 4 _ = _ |- _ => rewrite <- H end.
    rewrite <- !slice_split by lia. unfold slice. by rewrite drop_0.
Qed.

Lemma NDF1Frame_Validate_ok f :
  NDF1Frame_Validate f = Ok tt ->
  TransferID_IsZero (hdr_TransferID (Header f)) = false /\
  hdr_Length (Header f) = len (Payload f) /\ len (Payload f) <= MaxNDF1Payload /\
  (0 <= hdr_Offset (Header f) < 2 ^ 64 -> hdr_Offset (Header f) + len (Payload f) < 2 ^ 64).
Proof.
  unfold NDF1Frame_Validate, MaxNDF1Payload. intros H. branches. bool_props.
  split_and!; [done..|lia|]. intros Ho.
  pose proof (len_nonneg (Payload f)).
  destruct (Z.lt_ge_cases (hdr_Offset (Header f) + len (Payload f)) (2 ^ 64)); [done|].
  unfold u64 in *.
  assert ((hdr_Offset (Header f) + hdr_Length (Header f)) `mod` 2 ^ 64 =
          hdr_Offset (Header f) + hdr_Length (Header f) - 2 ^ 64) as Hm.
  { symmetry. apply (Z.mod_unique _ _ 1); lia. }
  lia.
Qed.

Lemma check_all_app sc fs gs :
  check_all sc (fs ++ gs) = try sc' <- check_all sc fs; check_all sc' gs.
Proof.
  revert sc. induction fs as [|f fs IH]; intros sc; simpl; [done|].
  destruct (SequentialChecker_Check sc f); simpl; auto.
Qed.

(** ** Properties *)

(** Decoding inverts encoding for headers: every header whose fields have
    their Go types, encoded by [NDF1Header.Encode] and followed by arbitrary
    further bytes, is decoded by [DecodeNDF1Header] to itself, and every
    header [DecodeNDF1Header] accepts re-encodes to the 32 bytes it came from. *)
Theorem NDF1Header_roundtrip :
  (forall h rest, wf_header h -> DecodeNDF1Header (NDF1Header_Encode h ++ rest) = Ok h) /\
  (forall raw h, DecodeNDF1Header raw = Ok h ->
     wf_header h /\ NDF1Header_Encode h = take NDF1HeaderLen raw).
Proof.
  split; [apply DecodeNDF1Header_Encode|].
  intros raw h [Hw He]%DecodeNDF1Header_wf. by rewrite He.
Qed.

Lemma NDF1Frame_Encode_buffer f w :
  NDF1Frame_Validate f = Ok tt -> length (hdr_TransferID (Header f)) = 16%nat ->
  NDF1Frame_Encode buffer_Write f w =
  (w ++ NDF1Frame_MarshalBinary f, (NDF1Frame_Size f, Ok tt)).
Proof.
  intros Hv Ht. unfold NDF1Frame_Encode, buffer_Write. rewrite Hv.
  rewrite NDF1Frame_MarshalBinary_app, <- app_assoc by done.
  unfold NDF1Frame_Size, len. by rewrite length_NDF1Header_Encode.
Qed.

Lemma DecodeNDF1Frame_Marshal f rest e :
  wf_header (Header f) -> NDF1Frame_Validate f = Ok tt ->
  DecodeNDF1Frame {| rd_data := NDF1Frame_MarshalBinary f ++ rest; rd_end := e |} =
  Ok (f, {| rd_data := rest; rd_end := e |}).
Proof.
  intros Hw (_ & Hl & Hmax & _)%NDF1Frame_Validate_ok. unfold DecodeNDF1Frame.
  assert (length (hdr_TransferID (Header f)) = 16%nat) as Ht by apply Hw.
  rewrite NDF1Frame_MarshalBinary_app, <- app_assoc by done.
  rewrite ReadFull_app by (by apply length_NDF1Header_Encode).
  rewrite <- (app_nil_r (NDF1Header_Encode _)), DecodeNDF1Header_Encode by done.
  cbn [res_bind]. rewrite (proj2 (Z.ltb_ge _ _)) by lia.
  destruct (Z.ltb_spec 0 (hdr_Length (Header f))) as [Hp|Hp].
  - rewrite ReadFull_app by (unfold len in Hl; lia). by destruct f.
  - assert (Payload f = []) as Hn by (apply len_nil_inv; pose proof (len_nonneg (Payload f)); lia).
    rewrite Hn. destruct f as [h p]; simpl in *; congruence.
Qed.

(** Reading [n] frames off one stream. *)
Fixpoint decode_n (n : nat) (r : Reader) : res ndf1_error (list NDF1Frame * Reader) :=
  match n with
  | O => Ok ([], r)
  | S n' =>
      match DecodeNDF1Frame r with
      | Err e => Err e
      | Ok (f, r1) =>
          match decode_n n' r1 with
          | Err e => Err e
          | Ok (fs, r2) => Ok (f :: fs, r2)
          end
      end
  end.

Definition encode_stream (fs : list NDF1Frame) (w : list byte) : list byte :=
  fold_left (fun w f => fst (NDF1Frame_Encode buffer_Write f w)) fs w.

Lemma encode_stream_app fs w :
  Forall (fun f => wf_header (Header f) /\ NDF1Frame_Validate f = Ok tt) fs ->
  encode_stream fs w = w ++ mjoin (map NDF1Frame_MarshalBinary fs).
Proof.
  intros H. revert w. induction H as [|f fs [Hw Hv] _ IH]; intros w; simpl.
  - by rewrite app_nil_r.
  - rewrite NDF1Frame_Encode_buffer by (done || apply Hw).
    rewrite IH. simpl. by rewrite <- app_assoc.
Qed.

(** A stream of frames written by [NDF1Frame.Encode] is read back by
    [DecodeNDF1Frame] frame by frame, without loss, without reading past a
    frame's end, and leaving exactly the bytes that follow the last frame. *)
Theorem NDF1_stream_roundtrip (fs : list NDF1Frame) (rest : list byte) (e : io_error) :
  Forall (fun f => wf_header (Header f) /\ NDF1Frame_Validate f = Ok tt) fs ->
  decode_n (length fs) {| rd_data := encode_stream fs [] ++ rest; rd_end := e |} =
  Ok (fs, {| rd_data := rest; rd_end := e |}).
Proof.
  intros H. rewrite encode_stream_app, app_nil_l by done.
  induction H as [|f fs [Hw Hv] _ IH]; [done|]. cbn [length decode_n].
  change (mjoin (map NDF1Frame_MarshalBinary (f :: fs))) with
    (NDF1Frame_MarshalBinary f ++ mjoin (map NDF1Frame_MarshalBinary fs)).
  by rewrite <- app_assoc, DecodeNDF1Frame_Marshal, IH.
Qed.

Lemma NDF1Frame_Unmarshal_Marshal f :
  wf_frame f -> NDF1Frame_UnmarshalBinary (NDF1Frame_MarshalBinary f) = Ok f.
Proof.
  intros [Hw Hl]. assert (length (hdr_TransferID (Header f)) = 16%nat) as Ht by apply Hw.
  assert (0 <= hdr_Length (Header f) < 2 ^ 32) as Hr by apply Hw.
  unfold NDF1Frame_UnmarshalBinary. rewrite NDF1Frame_MarshalBinary_app by done.
  rewrite length_app, length_NDF1Header_Encode, (proj2 (Nat.ltb_ge _ _)) by (done || lia).
  rewrite take_app_length' by (by rewrite length_NDF1Header_Encode).
  rewrite drop_app_length' by (by rewrite length_NDF1Header_Encode).
  rewrite <- (app_nil_r (NDF1Header_Encode _)), DecodeNDF1Header_Encode by done. cbn [res_bind].
  rewrite app_nil_r, len_app. unfold len at 1. rewrite length_NDF1Header_Encode by done.
  replace (_ + len (Payload f) - _) with (len (Payload f)) by lia.
  rewrite <- Hl, u32_small, Z.eqb_refl by done. simpl negb; cbv iota.
  rewrite go_copy_fresh by (unfold len in Hl; lia). by destruct f.
Qed.

Lemma NDF1Frame_Marshal_Unmarshal data f :
  NDF1Frame_UnmarshalBinary data = Ok f -> len data - 32 < 2 ^ 32 ->
  wf_frame f /\ NDF1Frame_MarshalBinary f = data.
Proof.
  unfold NDF1Frame_UnmarshalBinary. intros H Hd.
  destruct (Nat.ltb_spec (length data) NDF1HeaderLen) as [|Hlen]; [done|].
  destruct (DecodeNDF1Header _) as [h|] eqn:Hh; simpl in H; [|done].
  branches. bool_props.
  apply DecodeNDF1Header_wf in Hh as [Hw He]. rewrite take_take, Nat.min_id in He.
  assert (length (hdr_TransferID h) = 16%nat) as Ht by apply Hw.
  unfold NDF1HeaderLen, len in *.
  match goal with H : u32 _ = _ |- _ => rewrite u32_small in H by lia; rename H into Hl end.
  rewrite go_copy_fresh by (rewrite length_drop; lia).
  split.
  - split; [done|]. cbn. unfold len. rewrite length_drop. lia.
  - rewrite NDF1Frame_MarshalBinary_app by done. cbn [Header Payload]. rewrite <- He. apply take_drop.
Qed.

(** [MarshalBinary] and [UnmarshalBinary] are inverse on whole frames:
    every well-typed frame survives the trip, and every binary message shorter
    than 4 GiB that [UnmarshalBinary] accepts is the encoding of the frame it
    returns, so no two frames share an encoding. *)
Theorem NDF1Frame_roundtrip :
  (forall f, wf_frame f -> NDF1Frame_UnmarshalBinary (NDF1Frame_MarshalBinary f) = Ok f) /\
  (forall data f, NDF1Frame_UnmarshalBinary data = Ok f -> len data - 32 < 2 ^ 32 ->
     wf_frame f /\ NDF1Frame_MarshalBinary f = data).
Proof. split; [apply NDF1Frame_Unmarshal_Marshal|apply NDF1Frame_Marshal_Unmarshal]. Qed.

Lemma NewNDF1Frame_small tid offset payload :
  len payload <= MaxNDF1Payload ->
  NewNDF1Frame tid offset payload =
  {| Header := {| hdr_TransferID := tid; hdr_Offset := offset; hdr_Length := len payload |};
     Payload := payload |}.
Proof.
  intros H. unfold NewNDF1Frame, MaxNDF1Payload in *.
  rewrite (proj2 (Z.ltb_ge _ _)), u32_small by (pose proof (len_nonneg payload); lia). done.
Qed.

(** A frame that passes [Validate] never wraps around: its byte range
    [[Offset, OffsetEnd)] lies below 2^64 and has the payload's length, and
    [NewNDF1Frame] builds a frame that passes for every non-zero transfer and
    every payload, however long, whose (clamped) range fits. *)
Theorem NDF1Frame_Validate_bounds (tid : list byte) (offset : Z) (payload : list byte) :
  (forall f, NDF1Frame_Validate f = Ok tt -> 0 <= hdr_Offset (Header f) < 2 ^ 64 ->
     NDF1Frame_OffsetEnd f = hdr_Offset (Header f) + len (Payload f) /\
     hdr_Offset (Header f) <= NDF1Frame_OffsetEnd f < 2 ^ 64 /\
     len (Payload f) <= MaxNDF1Payload) /\
  (tid <> EmptyTransferID -> 0 <= offset -> offset + MaxNDF1Payload < 2 ^ 64 ->
     NDF1Frame_Validate (NewNDF1Frame tid offset payload) = Ok tt /\
     Payload (NewNDF1Frame tid offset payload) = take (Z.to_nat MaxNDF1Payload) payload).
Proof.
  split.
  - intros f (_ & Hl & Hm & Ho)%NDF1Frame_Validate_ok Hr. specialize (Ho Hr).
    pose proof (len_nonneg (Payload f)).
    unfold NDF1Frame_OffsetEnd. rewrite Hl, u64_small by lia. lia.
  - intros Ht H0 H1. set (p := take (Z.to_nat MaxNDF1Payload) payload).
    assert (len p <= MaxNDF1Payload) as Hp
      by (unfold p, len, MaxNDF1Payload in *; rewrite length_take; lia).
    assert (NewNDF1Frame tid offset payload = NewNDF1Frame tid offset p) as ->.
    { unfold p, NewNDF1Frame at 1. destruct (Z.ltb_spec MaxNDF1Payload (len payload)) as [|Hs].
      - unfold NewNDF1Frame. fold p. by rewrite (proj2 (Z.ltb_ge _ _)) by lia.
      - fold p. unfold NewNDF1Frame. rewrite (proj2 (Z.ltb_ge _ _)) by lia.
        unfold p. by rewrite take_ge by (unfold len, MaxNDF1Payload in *; lia). }
    pose proof (len_nonneg p).
    rewrite NewNDF1Frame_small by done. split; [|done].
    unfold NDF1Frame_Validate, TransferID_IsZero; cbn.
    rewrite bool_decide_eq_false_2, Z.eqb_refl by done. simpl.
    rewrite (proj2 (Z.ltb_ge _ _)), u64_small, (proj2 (Z.ltb_ge _ _)) by lia. done.
Qed.

Example init_selftest_passes : init_selftest = true.
Proof. vm_compute. reflexivity. Qed.

(** ** Witnesses *)

Definition sample_tid : TransferID := map (fun i => z2b (Z.of_nat i)) (seq 1 16).

Definition sample_frame (offset : Z) (payload : list byte) : NDF1Frame :=
  NewNDF1Frame sample_tid offset payload.

Lemma sample_frames_ok :
  Forall (fun f => wf_header (Header f) /\ NDF1Frame_Validate f = Ok tt)
    [sample_frame 0 (bytes_of "doll"); sample_frame 4 []].
Proof. repeat constructor; vm_compute; try reflexivity; discriminate. Defined.

Lemma NDF1_stream_roundtrip_witness :
  decode_n 2 {| rd_data := encode_stream [sample_frame 0 (bytes_of "doll"); sample_frame 4 []] []
                           ++ bytes_of "tail"; rd_end := EOF |} =
  Ok ([sample_frame 0 (bytes_of "doll"); sample_frame 4 []],
      {| rd_data := bytes_of "tail"; rd_end := EOF |}).
Proof.
  exact (NDF1_stream_roundtrip [sample_frame 0 (bytes_of "doll"); sample_frame 4 []]
           (bytes_of "tail") EOF sample_frames_ok).
Defined.

Lemma NDF1Header_roundtrip_witness :
  DecodeNDF1Header (NDF1Header_Encode (Header (sample_frame 7 (bytes_of "x"))) ++ [x01]) =
  Ok (Header (sample_frame 7 (bytes_of "x"))).
Proof.
  apply (proj1 NDF1Header_roundtrip). repeat split; vm_compute; try reflexivity; discriminate.
Defined.

Lemma NDF1Frame_roundtrip_witness :
  NDF1Frame_UnmarshalBinary (NDF1Frame_MarshalBinary (sample_frame 7 (bytes_of "x"))) =
  Ok (sample_frame 7 (bytes_of "x")).
Proof.
  apply (proj1 NDF1Frame_roundtrip). repeat split; vm_compute; try reflexivity; discriminate.
Defined.

Lemma NDF1Frame_Validate_bounds_witness :
  NDF1Frame_Validate (NewNDF1Frame sample_tid 5 (bytes_of "abc")) = Ok tt.
Proof.
  apply (proj2 (NDF1Frame_Validate_bounds sample_tid 5 (bytes_of "abc")));
    [vm_compute; discriminate | vm_compute; discriminate | vm_compute; reflexivity].
Defined.
