(* ===== verification/Transfer.v ===== *)
(** * File transfer endpoints: receiver, resume and sender

    Models DollLink/FileTransfer/receiver.go, resume.go, sender.go and the
    checksum helpers of types.go.  The file system is a map from paths to file
    contents; every operating-system call the code makes can fail, and which
    ones do on a given call is an argument ([Faults]), so the theorems hold for
    every pattern of failures.  A streaming hash is the bytes written to it. *)
From S2P Require Import Prelude GoBytes NDF1.

(** ** The operating system *)

Abbreviation FS := (gmap string (list byte)) (only parsing).

(** Which calls fail. [f_write = Some k]: the write fails after [k] bytes.
    [f_copy = Some (k, j)]: a copy through [io.MultiWriter] fails after the
    file took [k + j] bytes and the hash took [k]. *)
Record Faults := {
  f_mkdir : bool; f_open : bool; f_seek : bool; f_write : option nat;
  f_copy : option (nat * nat); f_rename : bool; f_stat : bool; f_read : bool;
  f_remove : bool;
}.

Definition no_faults : Faults :=
  {| f_mkdir := false; f_open := false; f_seek := false; f_write := None; f_copy := None;
     f_rename := false; f_stat := false; f_read := false; f_remove := false |}.

(** Writing at an offset: a gap is filled with zeros, later bytes stay. *)
Definition write_at (data : list byte) (off : nat) (p : list byte) : list byte :=
  take off data ++ replicate (off - length data) x00 ++ p ++ drop (off + length p) data.

(** [filepath.Join(dir, name)] for a clean directory and a separator-free,
    non-empty name: ["."] and [".."] are resolved, anything else is appended. *)
Definition parent_dir (dir : string) : string :=
  let fix strip (s : string) : string :=
    match s with
    | EmptyString => EmptyString
    | String c s' => if code c =? 47 then s' else strip s'
    end in
  String.rev (strip (String.rev dir)).

Definition JoinName (dir name : string) : string :=
  if same_str name "." then dir
  else if same_str name ".." then parent_dir dir
  else dir +:+ "/" +:+ name.

(** ** Checksums *)

Definition lower_ascii (c : Ascii.ascii) : Ascii.ascii :=
  if (65 <=? code c) && (code c <=? 90) then Ascii.ascii_of_N (Ascii.N_of_ascii c + 32) else c.

Definition is_hex_lower (c : Ascii.ascii) : bool :=
  ((48 <=? code c) && (code c <=? 57)) || ((97 <=? code c) && (code c <=? 102)).

Fixpoint all_chars (p : Ascii.ascii -> bool) (s : string) : bool :=
  match s with
  | EmptyString => true
  | String c s' => p c && all_chars p s'
  end.

Inductive sha_error := SHALength | SHANonHex.

(** A multi-byte rune never lowers to a hexadecimal digit, so the test is the
    same byte by byte. *)
Definition validateSHA256 (s : string) : res sha_error unit :=
  refuse negb (Nat.eqb (String.length s) 64) with SHALength;
  refuse negb (all_chars (fun c => is_hex_lower (lower_ascii c)) s) with SHANonHex;
  Ok tt.

Definition SHA256Hex (data : list byte) : string := hex_encode (sha256 data).

(** ** Receiver *)

Abbreviation FileID := string (only parsing).

Record ReceiveState := {
  rs_FileID : FileID;
  rs_TransferID : TransferID;
  rs_Size : Z;
  rs_SHA256 : string;
  rs_Retained : Z;
  rs_completed : bool;
  rs_filePath : string;
  rs_tmpPath : string;
  rs_hashed : list byte;
}.

Definition set_progress (rs : ReceiveState) (retained : Z) (hashed : list byte) : ReceiveState :=
  {| rs_FileID := rs_FileID rs; rs_TransferID := rs_TransferID rs; rs_Size := rs_Size rs;
     rs_SHA256 := rs_SHA256 rs; rs_Retained := retained; rs_completed := rs_completed rs;
     rs_filePath := rs_filePath rs; rs_tmpPath := rs_tmpPath rs; rs_hashed := hashed |}.

Definition set_completed (rs : ReceiveState) : ReceiveState :=
  {| rs_FileID := rs_FileID rs; rs_TransferID := rs_TransferID rs; rs_Size := rs_Size rs;
     rs_SHA256 := rs_SHA256 rs; rs_Retained := rs_Retained rs; rs_completed := true;
     rs_filePath := rs_filePath rs; rs_tmpPath := rs_tmpPath rs; rs_hashed := rs_hashed rs |}.

Inductive recv_error :=
| FileIDRequired | ZeroTransfer | InvalidSize | InvalidSHA (e : sha_error) | CreateStorageDir
| AlreadyCompleted | ExpectedOffset | ExceedsFileSize | OpenTempFile | SeekFailed | WriteFailed
| CopyFrame | RetainedShort | SHAMismatch | PromoteFile | StatPartial | OpenRetainedFailed
| ReadRetained.

Definition name_char (c : Ascii.ascii) : bool :=
  let x := code c in
  ((97 <=? x) && (x <=? 122)) || ((65 <=? x) && (x <=? 90)) || ((48 <=? x) && (x <=? 57)) ||
  (x =? 45) || (x =? 95) || (x =? 46).

Fixpoint sanitizeName (name : string) : string :=
  match name with
  | EmptyString => EmptyString
  | String c rest =>
      String (if name_char c then c else Ascii.ascii_of_N 95) (sanitizeName rest)
  end.

Section Receiver.

(** [os.TempDir()], a clean directory. *)
Context (DefaultStorageDir : string).

Definition storageDir : string := JoinName DefaultStorageDir "neondoll-transfer".

Definition NewReceiveState (flt : Faults) (fileID : FileID) (tid : TransferID) (size : Z)
    (sha256Hex : string) : res recv_error ReceiveState :=
  refuse empty_str fileID with FileIDRequired;
  refuse TransferID_IsZero tid with ZeroTransfer;
  refuse size <=? 0 with InvalidSize;
  match validateSHA256 sha256Hex with
  | Err e => Err (InvalidSHA e)
  | Ok _ =>
      refuse f_mkdir flt with CreateStorageDir;
      let safeName := sanitizeName fileID in
      Ok {| rs_FileID := fileID; rs_TransferID := tid; rs_Size := size; rs_SHA256 := sha256Hex;
            rs_Retained := 0; rs_completed := false;
            rs_filePath := JoinName storageDir safeName;
            rs_tmpPath := JoinName storageDir (safeName +:+ ".partial");
            rs_hashed := [] |}
  end.

(** [os.O_WRONLY|os.O_CREATE]: the existing content, or a new empty file. *)
Definition partial_of (fs : FS) (rs : ReceiveState) : list byte :=
  default [] (fs !! rs_tmpPath rs).

Definition writeAt (flt : Faults) (rs : ReceiveState) (fs : FS) (offset : Z) (payload : list byte)
    : res recv_error unit * (ReceiveState * FS) :=
  if negb (offset =? u64 (rs_Retained rs)) then (Err ExpectedOffset, (rs, fs))
  else if rs_Size rs <? i64 (rs_Retained rs + len payload) then (Err ExceedsFileSize, (rs, fs))
  else if f_open flt then (Err OpenTempFile, (rs, fs))
  else
    let data := partial_of fs rs in
    if f_seek flt || (i64 offset <? 0) then (Err SeekFailed, (rs, <[rs_tmpPath rs := data]> fs))
    else
      let at_ := Z.to_nat (i64 offset) in
      match f_write flt with
      | Some k =>
          (Err WriteFailed, (rs, <[rs_tmpPath rs := write_at data at_ (take k payload)]> fs))
      | None =>
          (Ok tt, (set_progress rs (i64 (rs_Retained rs + len payload)) (rs_hashed rs ++ payload),
                   <[rs_tmpPath rs := write_at data at_ payload]> fs))
      end.

Definition WriteFrame (flt : Faults) (rs : ReceiveState) (fs : FS) (frame : NDF1Frame)
    : res recv_error unit * (ReceiveState * FS) :=
  if rs_completed rs then (Err AlreadyCompleted, (rs, fs))
  else writeAt flt rs fs (hdr_Offset (Header frame)) (Payload frame).

(** [io.CopyN] hands every chunk it reads to the file and then to the hash, so
    a reader that ends early has already fed both. *)
Definition WriteFrameFromReader (flt : Faults) (rs : ReceiveState) (fs : FS) (frame : NDF1Frame)
    (r : Reader) : res recv_error unit * (ReceiveState * FS) :=
  let offset := hdr_Offset (Header frame) in
  let n := hdr_Length (Header frame) in
  if rs_completed rs then (Err AlreadyCompleted, (rs, fs))
  else if negb (offset =? u64 (rs_Retained rs)) then (Err ExpectedOffset, (rs, fs))
  else if rs_Size rs <? i64 (rs_Retained rs + n) then (Err ExceedsFileSize, (rs, fs))
  else if f_open flt then (Err OpenTempFile, (rs, fs))
  else
    let data := partial_of fs rs in
    if f_seek flt || (i64 offset <? 0) then (Err SeekFailed, (rs, <[rs_tmpPath rs := data]> fs))
    else
      let at_ := Z.to_nat (i64 offset) in
      let avail := take (Z.to_nat n) (rd_data r) in
      match f_copy flt with
      | Some (k, j) =>
          (Err CopyFrame, (set_progress rs (rs_Retained rs) (rs_hashed rs ++ take k avail),
             <[rs_tmpPath rs := write_at data at_ (take (k + j) avail)]> fs))
      | None =>
          let fs' := <[rs_tmpPath rs := write_at data at_ avail]> fs in
          if len avail <? n then
            (Err CopyFrame, (set_progress rs (rs_Retained rs) (rs_hashed rs ++ avail), fs'))
          else
            (Ok tt, (set_progress rs (i64 (rs_Retained rs + n)) (rs_hashed rs ++ avail), fs'))
      end.

Definition Complete (flt : Faults) (rs : ReceiveState) (fs : FS)
    : res recv_error unit * (ReceiveState * FS) :=
  if rs_completed rs then (Err AlreadyCompleted, (rs, fs))
  else if negb (rs_Retained rs =? rs_Size rs) then (Err RetainedShort, (rs, fs))
  else if negb (same_str (hex_encode (sha256 (rs_hashed rs))) (rs_SHA256 rs)) then
    (Err SHAMismatch, (rs, fs))
  else
    match fs !! rs_tmpPath rs with
    | Some data =>
        if f_rename flt then (Err PromoteFile, (rs, fs))
        else (Ok tt, (set_completed rs, <[rs_filePath rs := data]> (delete (rs_tmpPath rs) fs)))
    | None => (Err PromoteFile, (rs, fs))
    end.

(** [os.Remove] on both paths; errors are ignored. *)
Definition Cleanup (flt : Faults) (rs : ReceiveState) (fs : FS) : FS :=
  if f_remove flt then fs else delete (rs_filePath rs) (delete (rs_tmpPath rs) fs).

Definition OpenRetained (flt : Faults) (fs : FS) (fileID : FileID) (tid : TransferID) (size : Z)
    (sha256Hex : string) : res recv_error ReceiveState * FS :=
  match NewReceiveState flt fileID tid size sha256Hex with
  | Err e => (Err e, fs)
  | Ok rs =>
      if f_stat flt then (Err StatPartial, fs)
      else
        match fs !! rs_tmpPath rs with
        | None => (Ok rs, fs)
        | Some data =>
            if size <? len data then
              (Ok (set_progress rs 0 []),
               if f_remove flt then fs else delete (rs_tmpPath rs) fs)
            else if 0 <? len data then
              if f_open flt then (Err OpenRetainedFailed, fs)
              else if f_read flt then (Err ReadRetained, fs)
              else (Ok (set_progress rs (len data) data), fs)
            else (Ok (set_progress rs 0 (rs_hashed rs)), fs)
        end
  end.

(** ** Resume coordination *)

Record Offer := {
  of_FileID : FileID;
  of_TransferID : TransferID;
  of_Size : Z;
  of_SHA256 : string;
  of_Name : string;
  of_MediaType : string;
  of_Purpose : string;
  of_Metadata : gmap string string;
}.

Inductive resume_error :=
| NoRetainedState | NilOffer | ResumeFileID | ResumeSize | ResumeSHA | ResumeCompleted.

Definition ResumeMatch (retained : option ReceiveState) (offer : option Offer)
    : res resume_error Z :=
  match retained, offer with
  | None, _ => Err NoRetainedState
  | _, None => Err NilOffer
  | Some rs, Some o =>
      refuse negb (same_str (rs_FileID rs) (of_FileID o)) with ResumeFileID;
      refuse negb (rs_Size rs =? of_Size o) with ResumeSize;
      refuse negb (same_str (rs_SHA256 rs) (of_SHA256 o)) with ResumeSHA;
      refuse rs_completed rs with ResumeCompleted;
      Ok (rs_Retained rs)
  end.

End Receiver.

(** ** Sender *)

Record SenderState := {
  ss_FileID : FileID;
  ss_TransferID : TransferID;
  ss_Size : Z;
  ss_ChunkSize : Z;
  ss_pos : nat;
  ss_sent : Z;
  ss_hashed : list byte;
}.

Inductive send_error :=
| EmptyFileID | EmptyTransfer | SizeNotPositive | ChunkOutOfRange | OpenSource | StatSource
| SourceSize | NegativeSeek | SeekPastEnd | SeekSource | SendEOF | ReadSource.

Definition NewSenderState (flt : Faults) (fs : FS) (fid : FileID) (tid : TransferID) (path : string)
    (size chunkSize : Z) : res send_error SenderState :=
  refuse empty_str fid with EmptyFileID;
  refuse TransferID_IsZero tid with EmptyTransfer;
  refuse size <=? 0 with SizeNotPositive;
  refuse (chunkSize <=? 0) || (MaxNDF1Payload <? chunkSize) with ChunkOutOfRange;
  match fs !! path with
  | None => Err OpenSource
  | Some data =>
      refuse f_open flt with OpenSource;
      refuse f_stat flt with StatSource;
      refuse negb (len data =? size) with SourceSize;
      Ok {| ss_FileID := fid; ss_TransferID := tid; ss_Size := size; ss_ChunkSize := chunkSize;
            ss_pos := 0; ss_sent := 0; ss_hashed := [] |}
  end.

Definition set_cursor (s : SenderState) (pos : nat) (sent : Z) (hashed : list byte) : SenderState :=
  {| ss_FileID := ss_FileID s; ss_TransferID := ss_TransferID s; ss_Size := ss_Size s;
     ss_ChunkSize := ss_ChunkSize s; ss_pos := pos; ss_sent := sent; ss_hashed := hashed |}.

Definition SeekTo (flt : Faults) (s : SenderState) (offset : Z)
    : res send_error unit * SenderState :=
  if offset <? 0 then (Err NegativeSeek, s)
  else if ss_Size s <? offset then (Err SeekPastEnd, s)
  else if f_seek flt then (Err SeekSource, set_cursor s (ss_pos s) offset (ss_hashed s))
  else (Ok tt, set_cursor s (Z.to_nat offset) offset (ss_hashed s)).

(** [content] is what the open file holds when the chunk is read. *)
Definition NextFrame (flt : Faults) (content : list byte) (s : SenderState)
    : res send_error NDF1Frame * SenderState :=
  if ss_Size s <=? ss_sent s then (Err SendEOF, s)
  else
    let remaining := ss_Size s - ss_sent s in
    let readSize := if remaining <? ss_ChunkSize s then remaining else ss_ChunkSize s in
    if f_read flt then (Err ReadSource, s)
    else
      let buf := take (Z.to_nat readSize) (drop (ss_pos s) content) in
      let sent := i64 (ss_sent s + len buf) in
      (Ok (NewNDF1Frame (ss_TransferID s) (u64 (sent - len buf)) buf),
       set_cursor s (ss_pos s + length buf) sent (ss_hashed s ++ buf)).

(** The sending loop: frames until [NextFrame] reports the end. [None] only
    when the fuel runs out before that. *)
Fixpoint send_all (fuel : nat) (content : list byte) (s : SenderState)
    : option (list NDF1Frame * SenderState) :=
  match fuel with
  | O => None
  | S fuel' =>
      match NextFrame no_faults content s with
      | (Ok f, s') =>
          match send_all fuel' content s' with
          | Some (fs, s'') => Some (f :: fs, s'')
          | None => None
          end
      | (Err SendEOF, s') => Some ([], s')
      | (Err _, _) => None
      end
  end.

(** The receiving loop: one [WriteFrame] per frame, stopping at an error. *)
Fixpoint write_all (rs : ReceiveState) (fs : FS) (frames : list NDF1Frame)
    : res recv_error unit * (ReceiveState * FS) :=
  match frames with
  | [] => (Ok tt, (rs, fs))
  | f :: rest =>
      match WriteFrame no_faults rs fs f with
      | (Ok _, (rs', fs')) => write_all rs' fs' rest
      | (Err e, st) => (Err e, st)
      end
  end.

(** ** Receiver invariant

    The hash covers exactly the retained bytes and the partial file starts with
    them; a completed reception has promoted a file that starts with the hashed
    bytes, and they have the announced digest.  [stuck] is whether removing a
    leftover may have failed; while it has not, the partial file never outgrows
    the announced size and the promoted file is exactly the hashed bytes. *)
Record recv_inv (stuck : bool) (rs : ReceiveState) (fs : FS) : Prop := {
  ri_size : 0 < rs_Size rs < 2 ^ 62;
  ri_ret : rs_Retained rs = len (rs_hashed rs);
  ri_bound : rs_Retained rs <= rs_Size rs;
  ri_paths : rs_tmpPath rs <> rs_filePath rs;
  ri_open : rs_completed rs = false ->
    (exists junk, partial_of fs rs = rs_hashed rs ++ junk) /\
    (stuck = false -> len (partial_of fs rs) <= rs_Size rs);
  ri_done : rs_completed rs = true ->
    (exists junk, fs !! rs_filePath rs = Some (rs_hashed rs ++ junk) /\ (stuck = false -> junk = [])) /\
    rs_Retained rs = rs_Size rs /\ SHA256Hex (rs_hashed rs) = rs_SHA256 rs;
}.

(** What can happen to a reception: frames (with any failures), completion
    attempts, and a restart that reopens the retained file.  Removing an
    oversized leftover may fail only in [stuck] histories. *)
Inductive recv_step (dir : string) (stuck : bool) : ReceiveState * FS -> ReceiveState * FS -> Prop :=
| step_write flt frame rs fs r st :
    len (Payload frame) < 2 ^ 62 ->
    WriteFrame flt rs fs frame = (r, st) -> recv_step dir stuck (rs, fs) st
| step_complete flt rs fs r st :
    Complete flt rs fs = (r, st) -> recv_step dir stuck (rs, fs) st
| step_restart flt tid rs fs rs' fs' :
    (f_remove flt = true -> stuck = true) ->
    OpenRetained dir flt fs (rs_FileID rs) tid (rs_Size rs) (rs_SHA256 rs) = (Ok rs', fs') ->
    recv_step dir stuck (rs, fs) (rs', fs').

(** ** Lemmas: paths and names *)

Lemma str_length_revapp s t : String.length (String.rev_app s t) = (String.length s + String.length t)%nat.
Proof. revert t. induction s; intros t; simpl; [done|]. rewrite IHs. simpl. lia. Qed.

Lemma str_length_rev s : String.length (String.rev s) = String.length s.
Proof. unfold String.rev. rewrite str_length_revapp. simpl. lia. Qed.

Lemma parent_dir_length dir : (String.length (parent_dir dir) <= String.length dir)%nat.
Proof.
  unfold parent_dir. rewrite str_length_rev. rewrite <- (str_length_rev dir).
  induction (String.rev dir) as [|c s IH]; simpl; [done|]. case_match; lia.
Qed.

Lemma JoinName_partial dir name :
  JoinName dir (name +:+ ".partial") = dir +:+ "/" +:+ name +:+ ".partial".
Proof.
  unfold JoinName.
  assert (forall t, (String.length t < 8)%nat -> same_str (name +:+ ".partial") t = false) as H.
  { intros t Ht. apply same_str_false. intros He. apply (f_equal String.length) in He.
    rewrite str_length_app in He. simpl in He. lia. }
  rewrite !H by (simpl; lia). done.
Qed.

Lemma JoinName_distinct dir name : JoinName dir (name +:+ ".partial") <> JoinName dir name.
Proof.
  rewrite JoinName_partial. intros He. apply (f_equal String.length) in He. revert He.
  unfold JoinName. pose proof (parent_dir_length dir).
  repeat case_match; rewrite !str_length_app; simpl; lia.
Qed.

(** ** Lemmas: the receiver *)

Lemma write_at_end (h junk p : list byte) :
  write_at (h ++ junk) (length h) p = h ++ p ++ drop (length p) junk.
Proof.
  unfold write_at. rewrite take_app_length, length_app.
  replace (length h - (length h + length junk))%nat with 0%nat by lia. simpl.
  by rewrite <- drop_drop, drop_app_length.
Qed.

Lemma partial_insert fs rs data :
  partial_of (<[rs_tmpPath rs := data]> fs) rs = data.
Proof. unfold partial_of. by rewrite lookup_insert_eq. Qed.

(** A write below the announced size, complete or torn off after [k] bytes,
    leaves the retained bytes in place. *)
Lemma write_keeps_prefix (h junk p : list byte) (stuck : bool) size :
  (stuck = false -> len (h ++ junk) <= size) -> len h + len p <= size ->
  (exists junk', write_at (h ++ junk) (length h) p = (h ++ p) ++ junk') /\
  (stuck = false -> len (write_at (h ++ junk) (length h) p) <= size).
Proof.
  rewrite write_at_end. intros Hl Hp. split; [eexists; by rewrite <- app_assoc|]. intros Hs. specialize (Hl Hs).
  unfold len in *. rewrite !length_app, length_drop in *. lia.
Qed.

Lemma recv_inv_same_file stuck rs fs data :
  recv_inv stuck rs fs -> rs_completed rs = false ->
  (exists junk, data = rs_hashed rs ++ junk) -> (stuck = false -> len data <= rs_Size rs) ->
  recv_inv stuck rs (<[rs_tmpPath rs := data]> fs).
Proof.
  intros [? ? ? ? ? ?] Hc Hp Hl. split; try done.
  - intros _. by rewrite partial_insert.
  - congruence.
Qed.

Lemma recv_inv_offset stuck rs fs :
  recv_inv stuck rs fs -> i64 (u64 (rs_Retained rs)) = rs_Retained rs.
Proof.
  intros []. pose proof (len_nonneg (rs_hashed rs)).
  rewrite u64_small, i64_small by lia. done.
Qed.

Lemma writeAt_inv stuck flt rs fs off p r rs' fs' :
  recv_inv stuck rs fs -> rs_completed rs = false -> len p < 2 ^ 62 ->
  writeAt flt rs fs off p = (r, (rs', fs')) -> recv_inv stuck rs' fs'.
Proof.
  intros Hi Hc Hp. pose proof (recv_inv_offset stuck rs fs Hi) as Hoff.
  pose proof Hi as [Hsz Hret Hb Hpa Hop _]. specialize (Hop Hc) as [[junk Hj] Hl].
  pose proof (len_nonneg (rs_hashed rs)). pose proof (len_nonneg p).
  unfold writeAt.
  destruct (Z.eqb_spec off (u64 (rs_Retained rs))) as [->|]; [|intros; by simplify_eq/=].
  rewrite Hoff, i64_small by lia. cbn [negb].
  destruct (Z.ltb_spec (rs_Size rs) (rs_Retained rs + len p)) as [|Hfit]; [intros; by simplify_eq|].
  destruct (f_open flt); [intros; by simplify_eq|].
  assert (Z.to_nat (rs_Retained rs) = length (rs_hashed rs)) as Hat by (unfold len in Hret; lia).
  rewrite Hat, Hj in *.
  destruct (f_seek flt || (rs_Retained rs <? 0)).
  { intros; simplify_eq. apply recv_inv_same_file; eauto. }
  destruct (f_write flt) as [k|]; intros; simplify_eq.
  - apply recv_inv_same_file; try done.
    + rewrite write_at_end. eauto.
    + apply write_keeps_prefix; [done|]. unfold len in *. rewrite length_take. lia.
  - destruct (write_keeps_prefix (rs_hashed rs) junk p stuck (rs_Size rs)) as [Hpre Hlen]; [done|lia|].
    split; simpl; try done; [rewrite len_app; lia| |congruence].
    intros _. unfold partial_of. simpl. by rewrite lookup_insert_eq.
Qed.

Lemma WriteFrame_inv stuck flt rs fs frame r st :
  recv_inv stuck rs fs -> len (Payload frame) < 2 ^ 62 ->
  WriteFrame flt rs fs frame = (r, st) -> recv_inv stuck st.1 st.2.
Proof.
  unfold WriteFrame. intros Hi Hp. destruct (rs_completed rs) eqn:Hc; [intros; by simplify_eq|].
  destruct st as [rs' fs']. by eapply writeAt_inv.
Qed.

Lemma Complete_inv stuck flt rs fs r st :
  recv_inv stuck rs fs -> Complete flt rs fs = (r, st) -> recv_inv stuck st.1 st.2.
Proof.
  intros Hi. unfold Complete. destruct (rs_completed rs) eqn:Hc; [intros; by simplify_eq|].
  destruct (Z.eqb_spec (rs_Retained rs) (rs_Size rs)) as [Hs|]; [|intros; by simplify_eq/=].
  destruct (same_str _ _) eqn:Hsha; [|intros; by simplify_eq/=]. simpl.
  destruct (fs !! rs_tmpPath rs) as [data|] eqn:Hd; [|intros; by simplify_eq/=].
  destruct (f_rename flt); intros; simplify_eq; [done|].
  destruct Hi as [Hsz Hret Hb Hpa Hop _]. specialize (Hop Hc) as [[junk Hj] Hl].
  unfold partial_of in Hj, Hl. rewrite Hd in Hj, Hl. simpl in Hj, Hl. subst data.
  apply same_str_true in Hsha. split; simpl; try done; [].
  intros _. rewrite lookup_insert_eq. split_and!; try done. exists junk. split; [done|]. intros Hk. specialize (Hl Hk).
  apply len_nil_inv. rewrite len_app in Hl. pose proof (len_nonneg junk). lia.
Qed.

Lemma NewReceiveState_fields dir flt fid tid size sha rs :
  NewReceiveState dir flt fid tid size sha = Ok rs ->
  0 < size /\ rs_FileID rs = fid /\ rs_Size rs = size /\ rs_SHA256 rs = sha /\
  rs_Retained rs = 0 /\ rs_hashed rs = [] /\ rs_completed rs = false /\
  rs_tmpPath rs = JoinName (storageDir dir) (sanitizeName fid +:+ ".partial") /\
  rs_filePath rs = JoinName (storageDir dir) (sanitizeName fid).
Proof.
  unfold NewReceiveState. intros H. branches. bool_props. simpl. split_and!; done || lia.
Qed.

Lemma OpenRetained_inv stuck dir flt fs fid tid size sha rs fs' :
  size < 2 ^ 62 -> (f_remove flt = true -> stuck = true) ->
  OpenRetained dir flt fs fid tid size sha = (Ok rs, fs') -> recv_inv stuck rs fs'.
Proof.
  intros Hsz Hrm. unfold OpenRetained.
  destruct (NewReceiveState _ _ _ _ _ _) as [rs0|] eqn:Hn; [|intros; by simplify_eq/=].
  destruct (NewReceiveState_fields _ _ _ _ _ _ _ Hn)
    as (Hp & _ & Hsize & _ & Hr & Hh & Hc & Ht & Hf).
  destruct (f_stat flt); [intros; by simplify_eq|].
  assert (rs_tmpPath rs0 <> rs_filePath rs0) as Hne by (rewrite Ht, Hf; apply JoinName_distinct).
  destruct (fs !! rs_tmpPath rs0) as [data|] eqn:Hd.
  - pose proof (len_nonneg data).
    destruct (Z.ltb_spec size (len data)); [|destruct (Z.ltb_spec 0 (len data))].
    + intros; simplify_eq. split; simpl; try done; try lia; [|congruence].
      intros _. unfold partial_of; simpl. split; [eexists; reflexivity|]. intros ->.
      destruct (f_remove flt); [by specialize (Hrm eq_refl)|]. rewrite lookup_delete_eq. unfold len; simpl; lia.
    + destruct (f_open flt), (f_read flt); intros; simplify_eq.
      split; simpl; try done; try lia; [|congruence].
      intros _. unfold partial_of; simpl. rewrite Hd. simpl.
      split; [exists []; by rewrite app_nil_r|lia].
    + intros; simplify_eq. rewrite Hh. split; simpl; try done; try lia; [|congruence].
      intros _. unfold partial_of; simpl. rewrite Hd. simpl. split; [by exists data|lia].
  - intros; simplify_eq.
    split; try done; try (rewrite ?Hr, ?Hh; unfold len; simpl; lia); [|congruence].
    intros _. unfold partial_of. rewrite Hd, Hh. simpl. split; [by exists []|].
    unfold len; simpl; lia.
Qed.

Lemma recv_step_inv dir stuck s s' : recv_step dir stuck s s' -> recv_inv stuck s.1 s.2 -> recv_inv stuck s'.1 s'.2.
Proof.
  destruct 1; simpl; intros Hi.
  - by eapply WriteFrame_inv.
  - by eapply Complete_inv.
  - eapply OpenRetained_inv; [|done|done]. apply Hi.
Qed.

#[export] Instance recv_preserves dir stuck : Preserves (recv_step dir stuck) (fun s => recv_inv stuck s.1 s.2).
Proof. exact (recv_step_inv dir stuck). Qed.

(** ** Properties of the receiver *)

(** C1: end-to-end integrity of reception.  Starting from [OpenRetained] and
    after any sequence of frames, failed or torn writes, completion attempts and
    restarts, for files below 2^62 bytes: the file that a completed reception has
    promoted starts with the announced number of bytes whose SHA-256 is the
    announced one, whatever fails.  It has exactly that many bytes unless
    removing an oversized leftover failed somewhere in the history, an error the
    code ignores. *)
Theorem receive_integrity (dir : string) (stuck : bool) (flt : Faults) (fs0 : FS) (fid : FileID)
    (tid : TransferID) (size : Z) (sha : string) (rs0 : ReceiveState) (fs1 : FS)
    (rs : ReceiveState) (fs : FS) :
  size < 2 ^ 62 -> (f_remove flt = true -> stuck = true) ->
  OpenRetained dir flt fs0 fid tid size sha = (Ok rs0, fs1) ->
  rtc (recv_step dir stuck) (rs0, fs1) (rs, fs) ->
  rs_completed rs = true ->
  exists data, fs !! rs_filePath rs = Some data /\ rs_Size rs <= len data /\
    SHA256Hex (take (Z.to_nat (rs_Size rs)) data) = rs_SHA256 rs /\
    (stuck = false -> len data = rs_Size rs /\ SHA256Hex data = rs_SHA256 rs).
Proof.
  intros Hsz Hrm Ho Hs Hc.
  apply (OpenRetained_inv stuck) in Ho; [|done|done].
  apply (reachable_keeps (fun s => recv_inv stuck s.1 s.2)) in Hs; [|done]. simpl in Hs. destruct Hs as [_ Hret _ _ _ Hd].
  specialize (Hd Hc) as ((junk & Hf & Hj) & He & Hh). exists (rs_hashed rs ++ junk). rewrite len_app, <- He, Hret.
  pose proof (len_nonneg junk). split_and!; [done|lia| |].
  - unfold len. by rewrite Nat2Z.id, take_app_length.
  - intros Hk. rewrite (Hj Hk), app_nil_r. split; [|done]. unfold len. simpl. lia.
Qed.

(** ** Sender lemmas *)

(** Frames that carry [data] from offset [off] on, in order and without gaps,
    every one non-empty. *)
Inductive tiles (tid : TransferID) : Z -> list byte -> list NDF1Frame -> Prop :=
| tiles_nil off : tiles tid off [] []
| tiles_cons off p rest frames :
    0 < len p <= MaxNDF1Payload ->
    tiles tid (off + len p) rest frames ->
    tiles tid off (p ++ rest) (NewNDF1Frame tid off p :: frames).

(** A sender whose cursor agrees with its counter and whose source file still
    has the announced length. *)
Record send_inv (content : list byte) (s : SenderState) : Prop := {
  si_size : ss_Size s = len content;
  si_small : ss_Size s < 2 ^ 62;
  si_chunk : 0 < ss_ChunkSize s <= MaxNDF1Payload;
  si_sent : 0 <= ss_sent s <= ss_Size s;
  si_pos : ss_pos s = Z.to_nat (ss_sent s);
}.

Lemma NextFrame_good content s :
  send_inv content s -> ss_sent s < ss_Size s ->
  exists p, 0 < len p <= MaxNDF1Payload /\
    drop (ss_pos s) content = p ++ drop (ss_pos s + length p) content /\
    NextFrame no_faults content s =
      (Ok (NewNDF1Frame (ss_TransferID s) (ss_sent s) p),
       set_cursor s (ss_pos s + length p) (ss_sent s + len p) (ss_hashed s ++ p)) /\
    send_inv content (set_cursor s (ss_pos s + length p) (ss_sent s + len p) (ss_hashed s ++ p)).
Proof.
  intros [Hsz Hsm Hch Hse Hpo] Hlt. unfold NextFrame, MaxNDF1Payload in *.
  rewrite (proj2 (Z.leb_gt _ _)) by done. cbn [f_read no_faults].
  set (readSize := if ss_Size s - ss_sent s <? ss_ChunkSize s
                   then ss_Size s - ss_sent s else ss_ChunkSize s).
  assert (0 < readSize <= ss_Size s - ss_sent s /\ readSize <= 1048576) as [Hr Hr2]
    by (unfold readSize; destruct (Z.ltb_spec (ss_Size s - ss_sent s) (ss_ChunkSize s)); lia).
  set (p := take (Z.to_nat readSize) (drop (ss_pos s) content)). exists p.
  assert (len p = readSize) as Hp.
  { unfold p, len in *. rewrite length_take, length_drop. lia. }
  assert (length p = Z.to_nat readSize) as Hpn by (unfold len in Hp; lia).
  split_and!; [lia|lia| | |].
  - rewrite Hpn, <- drop_drop. symmetry. apply take_drop.
  - rewrite i64_small by lia. rewrite u64_small by lia. by rewrite Z.add_simpl_r.
  - split; simpl; try done; [lia|]. rewrite Hpo. unfold len. lia.
Qed.

Lemma send_all_tiles content fuel s :
  send_inv content s -> (Z.to_nat (ss_Size s - ss_sent s) < fuel)%nat ->
  exists frames s', send_all fuel content s = Some (frames, s') /\
    tiles (ss_TransferID s) (ss_sent s) (drop (ss_pos s) content) frames /\ ss_sent s' = ss_Size s'.
Proof.
  revert s. induction fuel as [|fuel IH]; intros s Hi Hf; [lia|]. simpl.
  pose proof Hi as [Hsz _ _ Hse Hpo].
  destruct (Z.le_gt_cases (ss_Size s) (ss_sent s)) as [Hd|Hd].
  - exists [], s. unfold NextFrame. rewrite (proj2 (Z.leb_le _ _)) by done.
    split_and!; [done| |lia].
    rewrite drop_ge; [constructor|]. unfold len in Hsz. lia.
  - destruct (NextFrame_good content s Hi Hd) as (p & Hp & Hdrop & -> & Hi').
    destruct (IH _ Hi') as (frames & s' & -> & Ht & Hdone); [simpl; lia|].
    eexists _, _. split; [done|]. split; [|done].
    rewrite Hdrop. by constructor.
Qed.

(** ** Delivery lemmas *)

Lemma tiles_check tid off data frames :
  tiles tid off data frames -> 0 <= off -> off + len data < 2 ^ 64 ->
  check_all (NewSequentialCheckerAt off) frames = Ok (NewSequentialCheckerAt (off + len data)).
Proof.
  induction 1 as [off|off p rest frames Hp _ IH]; intros H0 H1.
  - unfold len; simpl. by rewrite Z.add_0_r.
  - rewrite len_app in *. pose proof (len_nonneg rest). cbn [check_all].
    unfold SequentialChecker_Check. rewrite NewNDF1Frame_small by apply Hp. simpl.
    rewrite Z.eqb_refl. simpl. rewrite u64_small by lia.
    fold (NewSequentialCheckerAt (off + len p)). rewrite IH by lia. by rewrite Z.add_assoc.
Qed.

Lemma tiles_valid tid off data frames :
  tiles tid off data frames -> tid <> EmptyTransferID -> 0 <= off ->
  off + len data < 2 ^ 64 -> Forall (fun f => NDF1Frame_Validate f = Ok tt) frames.
Proof.
  induction 1 as [off|off p rest frames Hp _ IH]; intros Ht H0 H1; constructor.
  - rewrite len_app in H1. pose proof (len_nonneg rest).
    unfold NDF1Frame_Validate, TransferID_IsZero. rewrite NewNDF1Frame_small by apply Hp. simpl.
    rewrite bool_decide_eq_false_2, Z.eqb_refl by done. simpl.
    rewrite (proj2 (Z.ltb_ge _ _)), u64_small, (proj2 (Z.ltb_ge _ _)) by lia. done.
  - rewrite len_app in H1. apply IH; [done|lia|lia].
Qed.

Lemma write_all_tiles tid data frames rs fs :
  tiles tid (rs_Retained rs) data frames ->
  recv_inv false rs fs -> rs_completed rs = false -> rs_Retained rs + len data <= rs_Size rs ->
  exists rs' fs', write_all rs fs frames = (Ok tt, (rs', fs')) /\ recv_inv false rs' fs' /\
    rs' = set_progress rs (rs_Retained rs + len data) (rs_hashed rs ++ data).
Proof.
  remember (rs_Retained rs) as off eqn:Hoff. intros Ht. revert rs fs Hoff.
  induction Ht as [off|off p rest frames Hp _ IH]; intros rs fs Hoff Hi Hc Hb; simpl.
  - exists rs, fs. split_and!; [done|done|]. unfold len; simpl.
    rewrite app_nil_r, Z.add_0_r. subst off. by destruct rs.
  - rewrite len_app in Hb. pose proof (len_nonneg rest). unfold MaxNDF1Payload in Hp.
    destruct (WriteFrame no_faults rs fs (NewNDF1Frame tid off p)) as [r [rs' fs']] eqn:Hw.
    assert (recv_inv false rs' fs') as Hi'.
    { eapply (WriteFrame_inv false _ _ _ _ _ (rs', fs') Hi); [|done].
      rewrite NewNDF1Frame_small by apply Hp. simpl. lia. }
    assert (r = Ok tt /\ rs' = set_progress rs (off + len p) (rs_hashed rs ++ p)) as [-> ->].
    { pose proof Hi as [Hsz Hret _ _ _ _]. pose proof (len_nonneg (rs_hashed rs)).
      revert Hw. unfold WriteFrame, writeAt. rewrite Hc, NewNDF1Frame_small by apply Hp. simpl.
      rewrite <- Hoff, u64_small, Z.eqb_refl by lia. simpl.
      rewrite !i64_small, (proj2 (Z.ltb_ge _ _)), (proj2 (Z.ltb_ge _ _)) by lia.
      intros; by simplify_eq. }
    destruct (IH (set_progress rs (off + len p) (rs_hashed rs ++ p)) fs')
      as (rs2 & fs2 & -> & Hi2 & ->); simpl; [done|done|done|lia|].
    eexists _, _. split_and!; [done|done|]. unfold set_progress; simpl.
    by rewrite len_app, Z.add_assoc, <- app_assoc.
Qed.

Lemma Complete_matches rs fs content :
  recv_inv false rs fs -> rs_completed rs = false -> rs_hashed rs = content ->
  rs_Size rs = len content -> rs_SHA256 rs = SHA256Hex content ->
  exists fs', Complete no_faults rs fs = (Ok tt, (set_completed rs, fs')) /\
    fs' !! rs_filePath rs = Some content.
Proof.
  intros Hi Hc Hh Hsz Hsha. pose proof (Complete_inv false no_faults rs fs) as Hinv.
  pose proof Hi as [Hs Hret _ _ Hop _]. specialize (Hop Hc) as [[junk Hj] _].
  unfold Complete in *. rewrite Hc, Hret, Hh, Hsz, Z.eqb_refl in *. simpl in *.
  assert (same_str (hex_encode (sha256 content)) (rs_SHA256 rs) = true) as Heq
    by (rewrite Hsha; by apply same_str_true).
  rewrite Heq in *. simpl in *.
  destruct (fs !! rs_tmpPath rs) as [data|] eqn:Hd.
  - eexists. split; [done|]. destruct (Hinv _ _ Hi eq_refl) as [_ _ _ _ _ Hdone]. simpl in Hdone.
    destruct (Hdone eq_refl) as [(k & -> & Hk) _]. by rewrite Hk, app_nil_r, Hh.
  - unfold partial_of in Hj. rewrite Hd in Hj. simpl in Hj.
    destruct content; [|done].
    assert (len (@nil byte) = 0) by done. lia.
Qed.

(** C12: a transfer delivers the file. For every source file and chunk size the
    sender accepts, and a receiver that opened a (possibly empty) retained
    prefix of the same file, the sender's loop ends; its frames are valid, in
    sequence from the retained offset, the receiver accepts every one, and
    completion promotes a file equal to the source. *)
Theorem transfer_delivers (dir : string) (sfs rfs : FS) (fid : FileID) (tid : TransferID)
    (path : string) (content : list byte) (chunk : Z) (s0 : SenderState)
    (rs0 : ReceiveState) (rfs1 : FS) :
  sfs !! path = Some content -> len content < 2 ^ 62 ->
  NewSenderState no_faults sfs fid tid path (len content) chunk = Ok s0 ->
  OpenRetained dir no_faults rfs fid tid (len content) (SHA256Hex content) = (Ok rs0, rfs1) ->
  rs_hashed rs0 = take (Z.to_nat (rs_Retained rs0)) content ->
  exists s1 frames s2 rs1 rfs2 rfs3,
    SeekTo no_faults s0 (rs_Retained rs0) = (Ok tt, s1) /\
    send_all (S (length content)) content s1 = Some (frames, s2) /\
    Forall (fun f => NDF1Frame_Validate f = Ok tt) frames /\
    check_all (NewSequentialCheckerAt (rs_Retained rs0)) frames =
      Ok (NewSequentialCheckerAt (len content)) /\
    write_all rs0 rfs1 frames = (Ok tt, (rs1, rfs2)) /\
    Complete no_faults rs1 rfs2 = (Ok tt, (set_completed rs1, rfs3)) /\
    rfs3 !! rs_filePath rs1 = Some content.
Proof.
  intros Hsrc Hsz Hs0 Hr0 Hpre.
  pose proof (OpenRetained_inv false _ no_faults _ _ _ _ _ _ _ Hsz ltac:(done) Hr0) as Hi.
  assert (rs_Size rs0 = len content /\ rs_SHA256 rs0 = SHA256Hex content /\
          rs_completed rs0 = false) as (Hrs & Hrh & Hrc).
  { revert Hr0. unfold OpenRetained. destruct (NewReceiveState _ _ _ _ _ _) eqn:Hn; [|done].
    destruct (NewReceiveState_fields _ _ _ _ _ _ _ Hn) as (_ & _ & ? & ? & _ & _ & ? & _ & _).
    simpl. intros. branches; done. }
  revert Hs0. unfold NewSenderState. rewrite Hsrc. simpl. intros. branches. bool_props.
  unfold TransferID_IsZero in *. bool_props.
  pose proof Hi as [_ Hret Hb _ _ _]. pose proof (len_nonneg (rs_hashed rs0)).
  unfold SeekTo. simpl. rewrite (proj2 (Z.ltb_ge _ _)), (proj2 (Z.ltb_ge _ _)) by lia.
  match goal with |- exists s1 _ _ _ _ _, (_, ?s) = _ /\ _ => set (s1 := s) end.
  assert (send_inv content s1) as His.
  { split; simpl; try done; lia. }
  destruct (send_all_tiles content (S (length content)) s1 His) as (frames & s2 & Hsend & Ht & _);
    [simpl; unfold len; lia|]. simpl in Ht.
  set (rest := drop (Z.to_nat (rs_Retained rs0)) content) in *.
  assert (rs_Retained rs0 + len rest = len content) as Hlen
    by (unfold rest, len in *; rewrite length_drop; lia).
  destruct (write_all_tiles _ rest frames rs0 rfs1 Ht Hi Hrc ltac:(lia))
    as (rs1 & rfs2 & Hw & Hi1 & ->).
  edestruct (Complete_matches _ rfs2 content Hi1) as (rfs3 & Hc & Hf); simpl; try done.
  { rewrite Hpre. apply take_drop. }
  exists s1, frames, s2, (set_progress rs0 (rs_Retained rs0 + len rest) (rs_hashed rs0 ++ rest)).
  exists rfs2, rfs3. split_and!; try done.
  - eapply tiles_valid; [done|done|lia|lia].
  - rewrite <- Hlen. apply (tiles_check _ _ _ _ Ht); lia.
Qed.

(** ** Behaviour at the edges *)

Lemma hex_digit_lower z : 0 <= z < 16 -> is_hex_lower (hex_digit z) = true.
Proof.
  intros H. assert (exists n : nat, z = Z.of_nat n /\ (n < 16)%nat) as (n & -> & Hn)
    by (exists (Z.to_nat z); lia).
  do 16 (destruct n as [|n]; [done|]). lia.
Qed.

Lemma hex_encode_lower l : all_chars is_hex_lower (hex_encode l) = true.
Proof.
  induction l as [|b l IH]; simpl; [done|]. pose proof (b2z_range b).
  rewrite !hex_digit_lower, IH; [done| |].
  - apply Z.mod_pos_bound. lia.
  - split; [apply Z.div_pos; lia|]. apply Z.div_lt_upper_bound; lia.
Qed.

Lemma Complete_ok_digest flt rs fs st :
  Complete flt rs fs = (Ok tt, st) -> rs_SHA256 rs = SHA256Hex (rs_hashed rs).
Proof. unfold Complete. intros H. branches. bool_props. by apply same_str_true in H2. Qed.

(** An upper-case digest passes [validateSHA256] (so the offer, the receive
    state and every frame are accepted) but the reception can never complete,
    whatever arrives: [Complete] compares the announced text, not its
    lower-case form, with the computed lower-case digest. *)
Theorem uppercase_digest_never_completes (sha : string) :
  all_chars is_hex_lower sha = false ->
  (forall flt rs fs, rs_SHA256 rs = sha -> fst (Complete flt rs fs) <> Ok tt) /\
  validateSHA256 "BA7816BF8F01CFEA414140DE5DAE2223B00361A396177A9CB410FF61F20015AD" = Ok tt /\
  all_chars is_hex_lower
    "BA7816BF8F01CFEA414140DE5DAE2223B00361A396177A9CB410FF61F20015AD" = false.
Proof.
  intros Hu. split_and!; [|by vm_compute..]. intros flt rs fs Hs Hc.
  destruct (Complete flt rs fs) as [r st] eqn:Hcc. simpl in Hc. subst r.
  apply Complete_ok_digest in Hcc. rewrite <- Hs, Hcc in Hu.
  unfold SHA256Hex in Hu. by rewrite hex_encode_lower in Hu.
Qed.

(** One reception of the three bytes [abc] in one frame. *)
Definition abc_state (tmp : string) : res recv_error ReceiveState :=
  NewReceiveState "/tmp" no_faults tmp sample_tid 3 (SHA256Hex (bytes_of "abc")).

Definition receive_abc (fs : FS) : res recv_error unit * option (list byte) :=
  match abc_state "a" with
  | Err e => (Err e, None)
  | Ok rs =>
      match WriteFrame no_faults rs fs (sample_frame 0 (bytes_of "abc")) with
      | (Err e, _) => (Err e, None)
      | (Ok _, (rs1, fs1)) =>
          let '(r, (rs2, fs2)) := Complete no_faults rs1 fs1 in (r, fs2 !! rs_filePath rs2)
      end
  end.

(** [NewReceiveState] neither truncates nor inspects a partial file left by
    an earlier attempt: with a longer leftover on disk, [Complete] reports
    success (size and digest check out) and promotes a file that is not the
    one whose digest was checked. With a clean disk the promoted file is exact. *)
Theorem stale_partial_is_promoted :
  receive_abc (<["/tmp/neondoll-transfer/a.partial" := bytes_of "xyzLEFTOVER"]> ∅) =
    (Ok tt, Some (bytes_of "abcLEFTOVER")) /\
  receive_abc ∅ = (Ok tt, Some (bytes_of "abc")).
Proof. split; vm_compute; reflexivity. Qed.

Definition abc_frame : NDF1Frame := sample_frame 0 (bytes_of "abc").

(** The same reception through [WriteFrameFromReader]: a first reader that ends
    after [k] bytes, then a retry with a complete one, then [Complete]. *)
Definition retry_from_reader (k : nat) : list (res recv_error unit) :=
  match abc_state "a" with
  | Err e => [Err e]
  | Ok rs =>
      let short := {| rd_data := take k (bytes_of "abc"); rd_end := EOF |} in
      let full := {| rd_data := bytes_of "abc"; rd_end := EOF |} in
      let '(r1, (rs1, fs1)) := WriteFrameFromReader no_faults rs ∅ abc_frame short in
      let '(r2, (rs2, fs2)) := WriteFrameFromReader no_faults rs1 fs1 abc_frame full in
      let '(r3, _) := Complete no_faults rs2 fs2 in [r1; r2; r3]
  end.

(** [WriteFrameFromReader] with a reader that delivers the whole payload
    does what [WriteFrame] does on that payload; but a reader that ends early
    has already fed the hash, so a retry of the same frame succeeds and the
    reception then fails its checksum although the right bytes are on disk. *)
Theorem WriteFrameFromReader_behaviour :
  (forall flt rs fs f r,
     f_copy flt = None -> f_write flt = None -> hdr_Length (Header f) = len (Payload f) ->
     take (length (Payload f)) (rd_data r) = Payload f ->
     WriteFrameFromReader flt rs fs f r = WriteFrame flt rs fs f) /\
  retry_from_reader 0 = [Err CopyFrame; Ok tt; Ok tt] /\
  retry_from_reader 2 = [Err CopyFrame; Ok tt; Err SHAMismatch].
Proof.
  split_and!; [|by vm_compute..].
  intros flt rs fs f r Hc Hw Hl Hd.
  unfold WriteFrameFromReader, WriteFrame, writeAt. rewrite Hc, Hw, Hl.
  assert (Z.to_nat (len (Payload f)) = length (Payload f)) as -> by (unfold len; lia).
  by rewrite Hd, Z.ltb_irrefl.
Qed.

(** The sending loop makes progress only while the file has bytes left:
    once the open file is shorter than announced and the cursor is at its end,
    [NextFrame] returns empty frames for ever and never the end-of-file the
    caller waits for. *)
Theorem truncated_source_never_ends (content : list byte) (s : SenderState) :
  (length content <= ss_pos s)%nat -> 0 <= ss_sent s < ss_Size s -> ss_Size s < 2 ^ 63 ->
  0 < ss_ChunkSize s ->
  NextFrame no_faults content s =
    (Ok (NewNDF1Frame (ss_TransferID s) (ss_sent s) []), s) /\
  forall fuel, send_all fuel content s = None.
Proof.
  intros Hp Hs Hz Hc.
  assert (NextFrame no_faults content s =
            (Ok (NewNDF1Frame (ss_TransferID s) (ss_sent s) []), s)) as Hn.
  { unfold NextFrame. rewrite (proj2 (Z.leb_gt _ _)) by lia. cbn [f_read no_faults].
    rewrite drop_ge, take_nil by done.
    change (len (@nil byte)) with 0. rewrite !Z.sub_0_r, !Z.add_0_r, app_nil_r, i64_small by lia.
    rewrite u64_small, Nat.add_0_r by lia. by destruct s. }
  split; [done|]. induction fuel as [|fuel IH]; simpl; [done|]. by rewrite Hn, IH.
Qed.

Lemma sanitizeName_chars name : all_chars name_char (sanitizeName name) = true.
Proof.
  induction name as [|c s IH]; simpl; [done|]. rewrite IH, andb_true_r.
  destruct (name_char c) eqn:H; done.
Qed.

(** The stored file name is built from the characters [a-zA-Z0-9-_.] only,
    so an identifier cannot name a file outside the storage directory by a path
    separator, and it has the identifier's length; it is not injective, so two
    distinct identifiers can share one partial file, and the identifier [..]
    makes the completed path the temporary directory itself. *)
Theorem sanitizeName_confines (name : string) :
  all_chars name_char (sanitizeName name) = true /\
  String.length (sanitizeName name) = String.length name /\
  sanitizeName "a/b" = sanitizeName "a_b" /\
  JoinName (storageDir "/tmp") (sanitizeName "..") = "/tmp".
Proof.
  split; [apply sanitizeName_chars|]. split; [|by vm_compute].
  induction name as [|c s IH]; simpl; [done|]. by rewrite IH.
Qed.

(** ** Witnesses *)

Definition abc_fs : FS := <["/src" := bytes_of "abc"]> ∅.

Definition abc_sender : SenderState :=
  {| ss_FileID := "a"; ss_TransferID := sample_tid; ss_Size := 3; ss_ChunkSize := 2;
     ss_pos := 0; ss_sent := 0; ss_hashed := [] |}.

Definition abc_receiver : ReceiveState :=
  {| rs_FileID := "a"; rs_TransferID := sample_tid; rs_Size := 3;
     rs_SHA256 := "ba7816bf8f01cfea414140de5dae2223b00361a396177a9cb410ff61f20015ad";
     rs_Retained := 1; rs_completed := false; rs_filePath := "/tmp/neondoll-transfer/a";
     rs_tmpPath := "/tmp/neondoll-transfer/a.partial"; rs_hashed := bytes_of "a" |}.

Definition abc_partial : FS := <["/tmp/neondoll-transfer/a.partial" := bytes_of "a"]> ∅.

Lemma transfer_delivers_witness :
  exists s1 frames s2 rs1 rfs2 rfs3,
    SeekTo no_faults abc_sender 1 = (Ok tt, s1) /\
    send_all 4 (bytes_of "abc") s1 = Some (frames, s2) /\
    Forall (fun f => NDF1Frame_Validate f = Ok tt) frames /\
    check_all (NewSequentialCheckerAt 1) frames = Ok (NewSequentialCheckerAt 3) /\
    write_all abc_receiver abc_partial frames = (Ok tt, (rs1, rfs2)) /\
    Complete no_faults rs1 rfs2 = (Ok tt, (set_completed rs1, rfs3)) /\
    rfs3 !! rs_filePath rs1 = Some (bytes_of "abc").
Proof.
  apply (transfer_delivers "/tmp" abc_fs abc_partial "a" sample_tid "/src" (bytes_of "abc") 2
           abc_sender abc_receiver abc_partial);
    vm_compute; reflexivity.
Defined.

Definition abc_done : (ReceiveState * FS) :=
  (write_all abc_receiver abc_partial [sample_frame 1 (bytes_of "bc")]).2.

Lemma receive_integrity_witness :
  exists data,
    (Complete no_faults abc_done.1 abc_done.2).2.2 !! "/tmp/neondoll-transfer/a" = Some data /\
    len data = 3 /\
    SHA256Hex data = "ba7816bf8f01cfea414140de5dae2223b00361a396177a9cb410ff61f20015ad".
Proof.
  destruct (receive_integrity "/tmp" false no_faults abc_partial "a" sample_tid 3
    "ba7816bf8f01cfea414140de5dae2223b00361a396177a9cb410ff61f20015ad" abc_receiver abc_partial
    (set_completed abc_done.1) (Complete no_faults abc_done.1 abc_done.2).2.2) as (data & Hf & _ & _ & Hx).
  - vm_compute. reflexivity.
  - discriminate.
  - vm_compute. reflexivity.
  - eapply rtc_l; [|apply rtc_once].
    + eapply (step_write "/tmp" false no_faults (sample_frame 1 (bytes_of "bc"))
                abc_receiver abc_partial (Ok tt) abc_done); vm_compute; reflexivity.
    + eapply (step_complete "/tmp" false no_faults abc_done.1 abc_done.2 (Ok tt)
                (set_completed abc_done.1, (Complete no_faults abc_done.1 abc_done.2).2.2)).
      vm_compute. reflexivity.
  - reflexivity.
  - exists data. split; [exact Hf|]. exact (Hx eq_refl).
Defined.

(** The exception is real: a leftover of four bytes that could not be removed is overwritten by the three announced
    ones, and the promoted file has all four. *)
Example leftover_promoted :
  let flt := {| f_mkdir := false; f_open := false; f_seek := false; f_write := None; f_copy := None; f_rename := false; f_stat := false;
                f_read := false; f_remove := true |} in
  match OpenRetained "/tmp" flt {["/tmp/neondoll-transfer/a.partial" := bytes_of "wxyz"]} "a" sample_tid 3
          "ba7816bf8f01cfea414140de5dae2223b00361a396177a9cb410ff61f20015ad" with
  | (Ok rs, fs) =>
      let '(rs, fs) := (write_all rs fs [sample_frame 0 (bytes_of "abc")]).2 in
      (Complete no_faults rs fs).1 = Ok tt /\ (Complete no_faults rs fs).2.2 !! "/tmp/neondoll-transfer/a" = Some (bytes_of "abcz")
  | _ => False
  end.
Proof. vm_compute. split; reflexivity. Qed.
Lemma uppercase_digest_never_completes_witness :
  all_chars is_hex_lower "A" = false /\
  forall flt rs fs, rs_SHA256 rs = "A" -> fst (Complete flt rs fs) <> Ok tt.
Proof.
  split; [reflexivity|]. apply (uppercase_digest_never_completes "A"). reflexivity.
Defined.

Lemma WriteFrameFromReader_behaviour_witness :
  WriteFrameFromReader no_faults abc_receiver abc_partial (sample_frame 1 (bytes_of "bc"))
    {| rd_data := bytes_of "bc"; rd_end := EOF |} =
  WriteFrame no_faults abc_receiver abc_partial (sample_frame 1 (bytes_of "bc")).
Proof. apply (proj1 WriteFrameFromReader_behaviour); vm_compute; reflexivity. Defined.

Lemma truncated_source_never_ends_witness :
  forall fuel, send_all fuel [] abc_sender = None.
Proof.
  apply (truncated_source_never_ends [] abc_sender); simpl; lia.
Defined.
