(* ===== verification/TransferControl.v ===== *)
(** * File transfer control plane

    Models the payload validators of DollLink/FileTransfer/types.go and the
    transfer lifecycle of control.go: the control message types, the transfer
    states, the transition table with its linear search, and the terminal
    states.  Lifecycles are runs of accepted transitions. *)
From S2P Require Import Prelude GoBytes NDF1 Transfer.

(** ** Payloads *)

Record Accept := { ac_FileID : FileID; ac_TransferID : TransferID; ac_Offset : Z }.
Record Reject := {
  rj_FileID : FileID; rj_TransferID : TransferID; rj_Reason : string; rj_Message : string }.
Record CompleteMsg := { cp_FileID : FileID; cp_TransferID : TransferID }.
Record Received := { rv_FileID : FileID; rv_TransferID : TransferID }.
Record Cancel := {
  cn_FileID : FileID; cn_TransferID : TransferID; cn_Reason : string; cn_Message : string }.

Inductive payload_error :=
| PFileIDRequired | PTransferIDRequired | PSizeNotPositive | PDigest (e : sha_error)
| POffsetNegative | POffsetExceedsSize.

Definition Offer_Validate (o : Offer) : res payload_error unit :=
  refuse empty_str (of_FileID o) with PFileIDRequired;
  refuse TransferID_IsZero (of_TransferID o) with PTransferIDRequired;
  refuse of_Size o <=? 0 with PSizeNotPositive;
  match validateSHA256 (of_SHA256 o) with
  | Err e => Err (PDigest e)
  | Ok _ => Ok tt
  end.

Definition Accept_Validate (a : Accept) (bodySize : Z) : res payload_error unit :=
  refuse empty_str (ac_FileID a) with PFileIDRequired;
  refuse TransferID_IsZero (ac_TransferID a) with PTransferIDRequired;
  refuse ac_Offset a <? 0 with POffsetNegative;
  refuse bodySize <? ac_Offset a with POffsetExceedsSize;
  Ok tt.

Definition Reject_Validate (r : Reject) : res payload_error unit :=
  refuse empty_str (rj_FileID r) with PFileIDRequired;
  refuse TransferID_IsZero (rj_TransferID r) with PTransferIDRequired;
  Ok tt.

Definition Complete_Validate (c : CompleteMsg) : res payload_error unit :=
  refuse empty_str (cp_FileID c) with PFileIDRequired;
  refuse TransferID_IsZero (cp_TransferID c) with PTransferIDRequired;
  Ok tt.

Definition Received_Validate (r : Received) : res payload_error unit :=
  refuse empty_str (rv_FileID r) with PFileIDRequired;
  refuse TransferID_IsZero (rv_TransferID r) with PTransferIDRequired;
  Ok tt.

Definition Cancel_Validate (c : Cancel) : res payload_error unit :=
  refuse empty_str (cn_FileID c) with PFileIDRequired;
  refuse TransferID_IsZero (cn_TransferID c) with PTransferIDRequired;
  Ok tt.

(** ** Lifecycle *)

Inductive ControlType :=
| TypeOffer | TypeAccept | TypeReject | TypeComplete | TypeReceived | TypeCancel.

Inductive TransferState :=
| StateNone | StateOffered | StateActive | StateComplete | StateReceived | StateCancelled
| StateFailed.

#[global] Instance ControlType_eq_dec : EqDecision ControlType.
Proof. solve_decision. Defined.
#[global] Instance TransferState_eq_dec : EqDecision TransferState.
Proof. solve_decision. Defined.

Definition TransferState_String (s : TransferState) : string :=
  match s with
  | StateNone => "none"
  | StateOffered => "offered"
  | StateActive => "active"
  | StateComplete => "complete"
  | StateReceived => "received"
  | StateCancelled => "cancelled"
  | StateFailed => "failed"
  end.

Record Transition := { From : TransferState; To : TransferState; Via : ControlType }.

Definition validTransitions : list Transition :=
  [ {| From := StateNone; To := StateOffered; Via := TypeOffer |};
    {| From := StateOffered; To := StateActive; Via := TypeAccept |};
    {| From := StateOffered; To := StateCancelled; Via := TypeReject |};
    {| From := StateOffered; To := StateCancelled; Via := TypeCancel |};
    {| From := StateActive; To := StateComplete; Via := TypeComplete |};
    {| From := StateActive; To := StateCancelled; Via := TypeCancel |};
    {| From := StateComplete; To := StateReceived; Via := TypeReceived |};
    {| From := StateComplete; To := StateCancelled; Via := TypeCancel |};
    {| From := StateComplete; To := StateFailed; Via := TypeCancel |} ].

Definition TransferState_IsTerminal (s : TransferState) : bool :=
  match s with
  | StateReceived | StateCancelled | StateFailed => true
  | _ => false
  end.

Inductive transition_error := FromTerminal | InvalidTransition.

Fixpoint find_transition (table : list Transition) (current next : TransferState)
    (msgType : ControlType) : bool :=
  match table with
  | [] => false
  | t :: rest =>
      if bool_decide (From t = current) && bool_decide (To t = next) && bool_decide (Via t = msgType)
      then true else find_transition rest current next msgType
  end.

Definition CheckTransition (current next : TransferState) (msgType : ControlType)
    : res transition_error unit :=
  refuse TransferState_IsTerminal current with FromTerminal;
  if find_transition validTransitions current next msgType then Ok tt else Err InvalidTransition.

(** A run of accepted transitions, with the messages that drove it. *)
Inductive lifecycle : TransferState -> list ControlType -> TransferState -> Prop :=
| life_nil s : lifecycle s [] s
| life_cons s m t ms u :
    CheckTransition s t m = Ok tt -> lifecycle t ms u -> lifecycle s (m :: ms) u.

(** ** Lemmas *)

Definition rank (s : TransferState) : nat :=
  match s with
  | StateNone => 4
  | StateOffered => 3
  | StateActive => 2
  | StateComplete => 1
  | _ => 0
  end.

Lemma CheckTransition_rank s t m : CheckTransition s t m = Ok tt -> (rank t < rank s)%nat.
Proof. destruct s, t, m; vm_compute; intros H; first [lia | discriminate H]. Qed.

Lemma lifecycle_rank s ms t : lifecycle s ms t -> (length ms + rank t <= rank s)%nat.
Proof.
  induction 1 as [|s m t ms u H _ IH]; simpl; [lia|].
  apply CheckTransition_rank in H. lia.
Qed.

Ltac invert_life :=
  match goal with
  | H : lifecycle _ _ _ |- _ => inversion H; subst; clear H
  end.

(** ** Properties *)

(** A transfer's lifecycle is short and acyclic: from any state an accepted
    run has at most four messages, and a terminal state (received, cancelled,
    failed) has no successor under any message. *)
Theorem lifecycle_terminates :
  (forall s ms t, lifecycle s ms t -> (length ms <= 4)%nat) /\
  (forall s t m, TransferState_IsTerminal s = true <->
     (CheckTransition s t m = Err FromTerminal)).
Proof.
  split.
  - intros s ms t H%lifecycle_rank. assert (rank s <= 4)%nat by (destruct s; simpl; lia). lia.
  - intros s t m. destruct s, t, m; vm_compute; done.
Qed.

(** Success has one shape: a transfer that starts unknown and is accepted
    as received went through exactly offer, accept, complete, received. *)
Theorem lifecycle_success (ms : list ControlType) :
  lifecycle StateNone ms StateReceived <->
  ms = [TypeOffer; TypeAccept; TypeComplete; TypeReceived].
Proof.
  split.
  - intros H. inversion H as [|s m t ms' u Hc H1]; subst; clear H.
    destruct t, m; try discriminate Hc. clear Hc.
    inversion H1 as [|s m t ms u Hc H2]; subst; clear H1.
    destruct t, m; try discriminate Hc; clear Hc; [|inversion H2; discriminate..].
    inversion H2 as [|s m t ms' u Hc H3]; subst; clear H2.
    destruct t, m; try discriminate Hc; clear Hc; [|inversion H3; discriminate..].
    inversion H3 as [|s m t ms u Hc H4]; subst; clear H3.
    destruct t, m; try discriminate Hc; clear Hc; inversion H4; subst; try done; discriminate.
  - intros ->.
    apply (life_cons _ _ StateOffered); [reflexivity|].
    apply (life_cons _ _ StateActive); [reflexivity|].
    apply (life_cons _ _ StateComplete); [reflexivity|].
    apply (life_cons _ _ StateReceived); [reflexivity|constructor].
Qed.
