(* ===== verification/Execution.v ===== *)
(** * Body Protocol execution messages and the Body-side dispatcher

    Models [src/DollLink/Execution/types.go] and [dispatcher.go]: the wire
    messages with their validators, and the dispatcher that turns a request
    into exactly one correlated terminal result.  The local permission and
    the capability executor are the interfaces the source declares; they are
    parameters acting on a world of their own, so that "is not invoked" is the
    statement that the world is untouched. *)
From S2P Require Import Prelude.
From stdpp Require Import options.

(** ** Errors and contexts

    A Go [error] is seen through [errors.Is], so it is modelled by the
    sentinels on its unwrap chain. *)

Inductive sentinel :=
| Canceled | DeadlineExceeded | ErrUnsupported | ErrInvalid | ErrUnavailable
| OtherError (msg : string).

#[global] Instance sentinel_eq_dec : EqDecision sentinel.
Proof. solve_decision. Defined.

Definition go_error : Type := list sentinel.
Definition errors_Is (e : go_error) (s : sentinel) : bool := bool_decide (s ∈ e).

(** A [time.Time] together with the UTC offset of its location. *)
Record stamp := { instant : time; zone_offset : Z }.
Definition UTC (t : time) : stamp := {| instant := t; zone_offset := 0 |}.

(** ** Message types *)

Definition TypeRequest := "execution.request".
Definition TypeResult := "execution.result".
Definition SenderCore := "core".
Definition SenderBody := "body".

Definition StatusSuccess := "success".
Definition StatusDenied := "denied".
Definition StatusUnsupported := "unsupported".
Definition StatusInvalid := "invalid".
Definition StatusUnavailable := "unavailable".
Definition StatusFailed := "failed".
Definition StatusCancelled := "cancelled".
Definition StatusExpired := "expired".

Definition Status_valid (s : string) : bool :=
  bool_decide (s ∈ [StatusSuccess; StatusDenied; StatusUnsupported; StatusInvalid;
                    StatusUnavailable; StatusFailed; StatusCancelled; StatusExpired]).

Section messages.
Context {Any : Type}.

(** A Go [map[string]any]; [None] is the nil map. *)
Definition object : Type := option (gmap string Any).

Record RequestPayload := {
  ExecutionID : string;
  Capability : string;
  Operation : string;
  Arguments : object;
}.

Record Request := {
  Type_ : string;
  ID : string;
  Timestamp : stamp;
  DollID : string;
  BodyID : string;
  CorrelationID : string;
  Payload : RequestPayload;
}.

Record ResultPayload := {
  rp_ExecutionID : string;
  rp_Status : string;
  rp_Result : object;
}.

Record Result := {
  r_Type : string;
  r_ID : string;
  r_Timestamp : stamp;
  r_DollID : string;
  r_BodyID : string;
  r_CorrelationID : string;
  r_Payload : ResultPayload;
}.

(** ** Validators *)

Inductive message_error :=
| WrongSender | WrongType
| MissingID | MissingTimestamp | TimestampNotUTC | MissingBodyID
| UnexpectedCorrelationID | MissingCorrelationID
| IncompletePayload | NilArguments | MissingExecutionID | UnknownStatus
| CorrelationMismatch | ExecutionIDMismatch | BodyIDMismatch | DollIDMismatch.

Definition validateEnvelope (id : string) (timestamp : stamp) (bodyID : string)
    : res message_error unit :=
  refuse empty_str id with MissingID;
  refuse IsZero (instant timestamp) with MissingTimestamp;
  refuse negb (zone_offset timestamp =? 0) with TimestampNotUTC;
  refuse empty_str bodyID with MissingBodyID;
  Ok tt.

Definition Request_Validate (r : Request) (sender : string) : res message_error unit :=
  refuse negb (same_str sender SenderCore) with WrongSender;
  refuse negb (same_str (Type_ r) TypeRequest) with WrongType;
  try u <- validateEnvelope (ID r) (Timestamp r) (BodyID r);
  refuse negb (empty_str (CorrelationID r)) with UnexpectedCorrelationID;
  refuse empty_str (ExecutionID (Payload r)) || empty_str (Capability (Payload r))
         || empty_str (Operation (Payload r)) with IncompletePayload;
  refuse bool_decide (Arguments (Payload r) = None) with NilArguments;
  Ok tt.

Definition Result_Validate (r : Result) (sender : string) : res message_error unit :=
  refuse negb (same_str sender SenderBody) with WrongSender;
  refuse negb (same_str (r_Type r) TypeResult) with WrongType;
  try u <- validateEnvelope (r_ID r) (r_Timestamp r) (r_BodyID r);
  refuse empty_str (r_CorrelationID r) with MissingCorrelationID;
  refuse empty_str (rp_ExecutionID (r_Payload r)) with MissingExecutionID;
  refuse negb (Status_valid (rp_Status (r_Payload r))) with UnknownStatus;
  Ok tt.

Definition ValidateResponseTo (r : Result) (request : Request) : res message_error unit :=
  refuse negb (same_str (r_CorrelationID r) (ID request)) with CorrelationMismatch;
  refuse negb (same_str (rp_ExecutionID (r_Payload r)) (ExecutionID (Payload request)))
    with ExecutionIDMismatch;
  refuse negb (same_str (r_BodyID r) (BodyID request)) with BodyIDMismatch;
  refuse negb (empty_str (DollID request)) && negb (same_str (r_DollID r) (DollID request))
    with DollIDMismatch;
  Ok tt.

(** ** The dispatcher *)

Section dispatcher.
(** The context type and the world the local interfaces act on. *)
Context {Ctx World : Type}.

Definition LocalPermission : Type := Ctx -> Request -> World -> bool * World.
Definition CapabilityExecutor : Type :=
  Ctx -> string -> string -> object -> World -> (object * option go_error) * World.

Record Dispatcher := {
  d_bodyID : string;
  d_permission : option LocalPermission;
  d_executor : CapabilityExecutor;
}.

Inductive dispatch_error :=
| DispatcherBodyRequired | ExecutorRequired | CannotCorrelate | ForeignBody.

Definition NewDispatcher (bodyID : string) (permission : option LocalPermission)
    (executor : option CapabilityExecutor) : res dispatch_error Dispatcher :=
  refuse empty_str bodyID with DispatcherBodyRequired;
  match executor with
  | None => Err ExecutorRequired
  | Some ex => Ok {| d_bodyID := bodyID; d_permission := permission; d_executor := ex |}
  end.

(** [uuid] and [now] are what [uuid.NewString] and [time.Now] return. *)
Definition Dispatcher_result (d : Dispatcher) (uuid : string) (now : time)
    (request : Request) (status : string) (result : object) : Result :=
  {| r_Type := TypeResult;
     r_ID := uuid;
     r_Timestamp := UTC now;
     r_DollID := DollID request;
     r_BodyID := d_bodyID d;
     r_CorrelationID := ID request;
     r_Payload := {| rp_ExecutionID := ExecutionID (Payload request);
                     rp_Status := status; rp_Result := result |} |}.

Definition correlatable (d : Dispatcher) (request : Request) : res dispatch_error unit :=
  refuse empty_str (ID request) || empty_str (BodyID request)
         || empty_str (ExecutionID (Payload request)) with CannotCorrelate;
  refuse negb (same_str (BodyID request) (d_bodyID d)) with ForeignBody;
  Ok tt.

Definition UnavailableExecutionResult (d : Dispatcher) (uuid : string) (now : time)
    (request : Request) : res dispatch_error Result :=
  try u <- correlatable d request;
  Ok (Dispatcher_result d uuid now request StatusUnavailable None).

(** The status the handler's final [switch] gives to an executor's error. *)
Definition executor_status (err : go_error) : string :=
  if errors_Is err Canceled then StatusCancelled
  else if errors_Is err DeadlineExceeded then StatusExpired
  else if errors_Is err ErrUnsupported then StatusUnsupported
  else if errors_Is err ErrInvalid then StatusInvalid
  else if errors_Is err ErrUnavailable then StatusUnavailable
  else StatusFailed.

(** [Background] and [Ctx_Err] are [context.Background()] and the [Err] method. *)
Definition HandleExecutionRequest (Background : Ctx) (Ctx_Err : Ctx -> option go_error)
    (d : Dispatcher) (ctx : option Ctx) (uuid : string) (now : time) (request : Request) (w : World) : res dispatch_error Result * World :=
  let ctx := default Background ctx in
  let reply := Dispatcher_result d uuid now request in
  match correlatable d request with
  | Err e => (Err e, w)
  | Ok _ =>
      match Request_Validate request SenderCore with
      | Err _ => (Ok (reply StatusInvalid None), w)
      | Ok _ =>
          match Ctx_Err ctx with
          | Some err =>
              if errors_Is err DeadlineExceeded then (Ok (reply StatusExpired None), w)
              else (Ok (reply StatusCancelled None), w)
          | None =>
              let '(allowed, w1) :=
                match d_permission d with
                | None => (false, w)
                | Some p => p ctx request w
                end in
              if negb allowed then (Ok (reply StatusDenied None), w1)
              else
                let '((result, err), w2) :=
                  d_executor d ctx (Capability (Payload request)) (Operation (Payload request))
                    (Arguments (Payload request)) w1 in
                match err with
                | None => (Ok (reply StatusSuccess result), w2)
                | Some err => (Ok (reply (executor_status err) None), w2)
                end
          end
      end
  end.

(** ** Lemmas *)

Lemma executor_status_valid err :
  Status_valid (executor_status err) = true /\ executor_status err <> StatusSuccess /\
  executor_status err <> StatusDenied.
Proof. unfold executor_status. repeat case_match; done. Qed.

Lemma correlatable_ok d request : correlatable d request = Ok tt ->
  ID request <> "" /\ BodyID request <> "" /\ ExecutionID (Payload request) <> "" /\
  BodyID request = d_bodyID d.
Proof.
  unfold correlatable. intros H. branches; bool_props.
  rewrite ?empty_str_false, ?same_str_true in *. naive_solver.
Qed.

Lemma reply_valid d uuid now request status result :
  correlatable d request = Ok tt -> uuid <> "" -> now <> 0 -> Status_valid status = true ->
  let r := Dispatcher_result d uuid now request status result in
  Result_Validate r SenderBody = Ok tt /\ ValidateResponseTo r request = Ok tt.
Proof.
  intros (Hid & Hb & He & Hd)%correlatable_ok Hu Hn Hs r. subst r.
  unfold Result_Validate, ValidateResponseTo, validateEnvelope, IsZero, same_str, empty_str. simpl.
  rewrite (proj2 (Z.eqb_neq now 0)) by done. rewrite <- Hd, Hs.
  repeat (case_bool_decide || simplify_eq/=); naive_solver.
Qed.

End dispatcher.
End messages.

Arguments object : clear implicits.
Arguments Request : clear implicits.
Arguments RequestPayload : clear implicits.
Arguments Result : clear implicits.
Arguments ResultPayload : clear implicits.
Arguments Dispatcher : clear implicits.

(** ** Properties *)

Section properties.
Context {Any Ctx World : Type} (Background : Ctx) (Ctx_Err : Ctx -> option go_error).
Implicit Types (d : Dispatcher Any Ctx World) (request : Request Any).

Local Abbreviation Handle := (HandleExecutionRequest Background Ctx_Err).

(** What a Core needs of a reply [r] to [request] handled in world [w]: it
    passes the receiver's validation, answers the request's identities, and
    says "success" only for the payload of an executor that was permitted and
    returned no error. *)
Definition acceptable_reply d (ctx : option Ctx) request (w : World) (r : Result Any) : Prop :=
  Result_Validate r SenderBody = Ok tt /\ ValidateResponseTo r request = Ok tt /\
  r_DollID r = DollID request /\
  (rp_Status (r_Payload r) <> StatusSuccess -> rp_Result (r_Payload r) = None) /\
  (rp_Status (r_Payload r) = StatusSuccess -> exists p w1 w2 o,
     d_permission d = Some p /\ p (default Background ctx) request w = (true, w1) /\
     d_executor d (default Background ctx) (Capability (Payload request))
       (Operation (Payload request)) (Arguments (Payload request)) w1 = (o, None, w2) /\
     rp_Result (r_Payload r) = o).

Lemma refusal_acceptable d ctx uuid now request w :
  correlatable d request = Ok tt -> uuid <> "" -> now <> 0 ->
  forall s, Status_valid s = true -> s <> StatusSuccess ->
    acceptable_reply d ctx request w (Dispatcher_result d uuid now request s None).
Proof.
  intros Hc Hu Hn s Hs Hne.
  destruct (reply_valid d uuid now request s None Hc Hu Hn Hs). by split_and!.
Qed.

(** C16: the dispatcher fails closed.  If handling a request touches the world
    at all, the request was well formed, addressed to this Body, arrived with
    a live context and a permission was configured; if that permission refuses,
    the world is the one the permission left, so the capability was not
    invoked, and the reply is "denied". *)
Theorem dispatch_fails_closed d ctx uuid now request w w' r :
  Handle d ctx uuid now request w = (r, w') ->
  w' = w \/
  (Request_Validate request SenderCore = Ok tt /\ BodyID request = d_bodyID d /\
   Ctx_Err (default Background ctx) = None /\
   exists p, d_permission d = Some p /\
     ((fst (p (default Background ctx) request w) = false /\
       w' = snd (p (default Background ctx) request w) /\
       r = Ok (Dispatcher_result d uuid now request StatusDenied None)) \/
      (fst (p (default Background ctx) request w) = true /\
       w' = snd (d_executor d (default Background ctx) (Capability (Payload request))
              (Operation (Payload request)) (Arguments (Payload request))
              (snd (p (default Background ctx) request w)))))).
Proof.
  unfold HandleExecutionRequest.
  destruct (correlatable d request) as [[]|] eqn:Hc; [|intros; simplify_eq; by left].
  destruct (Request_Validate request SenderCore) as [[]|] eqn:Hv; [|intros; simplify_eq; by left].
  destruct (Ctx_Err _) as [e|] eqn:Hx; [intros; branches; by left|].
  apply correlatable_ok in Hc as (_ & _ & _ & Hb).
  destruct (d_permission d) as [p|]; [|simpl; intros; simplify_eq; by left].
  destruct (p _ _ _) as [allowed w1] eqn:Hp. intros H. right. split_and!; [done..|].
  exists p. split; [done|]. rewrite Hp. simpl.
  destruct allowed; simpl in H; [|left; by simplify_eq].
  right. destruct (d_executor d _ _ _ _ _) as [[o e] w2] eqn:He.
  simpl. destruct e; by simplify_eq.
Qed.

Lemma dispatch_reply_shape d ctx uuid now request w :
  uuid <> "" -> now <> 0 ->
  match fst (Handle d ctx uuid now request w) with
  | Ok r =>
      acceptable_reply d ctx request w r
  | Err _ => ID request = "" \/ BodyID request = "" \/ ExecutionID (Payload request) = "" \/
             BodyID request <> d_bodyID d
  end.
Proof.
  intros Hu Hn. unfold HandleExecutionRequest.
  destruct (correlatable d request) as [[]|e] eqn:Hc; simpl.
  - pose proof (fun s o => reply_valid d uuid now request s o Hc Hu Hn) as Hr.
    pose proof (refusal_acceptable d ctx uuid now request w Hc Hu Hn) as Hfail.
    destruct (Request_Validate request SenderCore) as [[]|]; [|by apply Hfail].
    destruct (Ctx_Err _); [destruct (errors_Is _ _); by apply Hfail|].
    destruct (d_permission d) as [p|] eqn:Hp; [|by apply Hfail].
    destruct (p _ _ _) as [[] w1] eqn:Hpw; [|by apply Hfail]. simpl.
    destruct (d_executor d _ _ _ _ _) as [[o [e|]] w2] eqn:He; simpl.
    + destruct (executor_status_valid e) as (? & ? & ?). by apply Hfail.
    + destruct (Hr StatusSuccess o); [done|]. split_and!; try done. intros _. by exists p, w1, w2, o.
  - unfold correlatable in Hc. branches; bool_props.
    + rewrite !orb_true_iff, !empty_str_true in *. naive_solver.
    + rewrite same_str_false in *. naive_solver.
Qed.

Lemma dispatcher_replies d ctx uuid now request w :
  uuid <> "" -> now <> 0 -> ID request <> "" -> ExecutionID (Payload request) <> "" ->
  BodyID request <> "" -> d_bodyID d = BodyID request ->
  exists r, fst (Handle d ctx uuid now request w) = Ok r /\ acceptable_reply d ctx request w r.
Proof.
  intros Hu Hn ????. pose proof (dispatch_reply_shape d ctx uuid now request w Hu Hn) as H'.
  destruct (fst _) as [r|]; naive_solver.
Qed.

(** Every reply is one the Core will accept: whatever the permission and
    the executor do, a reply passes the receiver's validation, answers exactly
    the request's message, execution, Body and doll identities, says "success"
    only when the executor ran and returned no error, and only then carries a
    payload.  The only requests without a reply are those without the
    identities a reply needs and those for another Body. *)
Theorem dispatch_reply_is_valid d ctx uuid now request w :
  uuid <> "" -> now <> 0 ->
  match fst (Handle d ctx uuid now request w) with
  | Ok r =>
      acceptable_reply d ctx request w r
  | Err _ => ID request = "" \/ BodyID request = "" \/ ExecutionID (Payload request) = "" \/
             BodyID request <> d_bodyID d
  end.
Proof. apply dispatch_reply_shape. Qed.
End properties.

(** A Body "b1" whose permission allows the capability "audio" only. *)
Definition demo_dispatcher : Dispatcher nat unit nat :=
  {| d_bodyID := "b1";
     d_permission := Some (fun _ r w => (same_str (Capability (Payload r)) "audio", w));
     d_executor := fun _ _ _ _ w => ((Some ∅, None), S w) |}.

Definition demo_request (capability : string) : Request nat :=
  {| Type_ := TypeRequest; ID := "m1"; Timestamp := UTC 5; DollID := "d"; BodyID := "b1";
     CorrelationID := "";
     Payload := {| ExecutionID := "e1"; Capability := capability; Operation := "play";
                   Arguments := Some ∅ |} |}.

Lemma dispatch_fails_closed_witness :
  let r := HandleExecutionRequest tt (fun _ => None) demo_dispatcher None "u" 9
             (demo_request "shell") 0%nat in
  r.2 = 0%nat \/ Request_Validate (demo_request "shell") SenderCore = Ok tt.
Proof.
  intros r.
  destruct (dispatch_fails_closed tt (fun _ => None) demo_dispatcher None "u" 9
    (demo_request "shell") 0%nat r.2 r.1 ltac:(reflexivity)) as [H|[H _]]; auto.
Defined.

Lemma dispatch_reply_is_valid_witness :
  match fst (HandleExecutionRequest tt (fun _ => None) demo_dispatcher None "u" 9
               (demo_request "audio") 0%nat) with
  | Ok r => Result_Validate r SenderBody = Ok tt /\ rp_Status (r_Payload r) = StatusSuccess
  | Err _ => False
  end.
Proof.
  pose proof (dispatch_reply_is_valid tt (fun _ => None) demo_dispatcher None "u" 9
    (demo_request "audio") 0%nat ltac:(discriminate) ltac:(lia)) as H.
  split; [exact (proj1 H)|reflexivity].
Defined.
