(* ===== verification/ExecClient.v ===== *)
(** * The Core-side execution session

    Models [src/DollLink/Execution/session.go]: a client that registers each
    request under its message id, hands the result to the waiting goroutine
    through a channel of capacity one, and releases every waiter when the
    connection closes.

    Goroutines interleave, so the session is a transition system.  Critical
    sections of [mu] are single steps; a channel send that follows the unlock
    is a separate step, recorded in between in [sending].  Calls are kept by
    position, which plays the part of the [*pendingRequest] pointer that
    [remove] compares. *)
From S2P Require Import Prelude Execution.
From stdpp Require Import options.

Section client.
Context {Any : Type}.

Inductive session_error :=
| BodyIdentityRequired | SenderRequired
| InvalidMessage (e : message_error)
| SessionError (e : go_error).

Definition ErrClosed : go_error := [OtherError "execution: session closed"].
Definition ErrDisconnected : go_error := [OtherError "execution: Doll Link session disconnected"].

Definition resultOrError : Type := res session_error (Result Any).

(** Where the goroutine running [Execute] is: before its send returned, in the
    [select], in the final receive after losing the race with a cancellation,
    or returned. *)
Inductive phase :=
| Registered | Selecting | Draining
| Returned (o : resultOrError).

Record pendingRequest := {
  request : Request Any;
  result : list resultOrError;  (* the channel's buffer *)
  at_phase : phase;
}.

Record Client := {
  c_bodyID : string;
  c_pending : gmap string nat;
  c_closed : option go_error;
}.

Definition NewClient (bodyID : string) (sender : bool) : res session_error Client :=
  refuse empty_str bodyID with BodyIdentityRequired;
  refuse negb sender with SenderRequired;
  Ok {| c_bodyID := bodyID; c_pending := ∅; c_closed := None |}.

Record Session := {
  client : Client;
  calls : list pendingRequest;
  sending : list (nat * resultOrError);
}.

Definition with_pending (c : Client) (p : gmap string nat) : Client :=
  {| c_bodyID := c_bodyID c; c_pending := p; c_closed := c_closed c |}.

Definition with_phase (p : pendingRequest) (ph : phase) : pendingRequest :=
  {| request := request p; result := result p; at_phase := ph |}.

(** ** [Execute], cut at its blocking points *)

Definition Execute_request (c : Client) (uuid : string) (now : time) (dollID : string)
    (payload : RequestPayload Any) : Request Any :=
  {| Type_ := TypeRequest; ID := uuid; Timestamp := UTC now; DollID := dollID;
     BodyID := c_bodyID c; CorrelationID := ""; Payload := payload |}.

Definition Execute_register (s : Session) (uuid : string) (now : time) (dollID : string)
    (payload : RequestPayload Any) : res session_error Session :=
  let req := Execute_request (client s) uuid now dollID payload in
  match Request_Validate req SenderCore with
  | Err e => Err (InvalidMessage e)
  | Ok _ =>
      match c_closed (client s) with
      | Some err => Err (SessionError err)
      | None =>
          Ok {| client := with_pending (client s) (<[uuid := length (calls s)]> (c_pending (client s)));
                calls := calls s ++ [{| request := req; result := []; at_phase := Registered |}];
                sending := sending s |}
      end
  end.

Definition remove (c : Client) (id : string) (expected : nat) : bool * Client :=
  if negb (bool_decide (c_pending c !! id = Some expected)) then (false, c)
  else (true, with_pending c (delete id (c_pending c))).

Definition set_call (s : Session) (c : Client) (k : nat) (p : pendingRequest) : Session :=
  {| client := c; calls := <[k := p]> (calls s); sending := sending s |}.

(** [SendExecutionRequest] returned an error. *)
Definition Execute_send_failed (s : Session) (k : nat) (p : pendingRequest) (err : go_error)
    : Session :=
  let '(_, c) := remove (client s) (ID (request p)) k in
  set_call s c k (with_phase p (Returned (Err (SessionError err)))).

(** The [ctx.Done()] branch of the [select]. *)
Definition Execute_cancelled (s : Session) (k : nat) (p : pendingRequest) (err : go_error)
    : Session :=
  let '(removed, c) := remove (client s) (ID (request p)) k in
  set_call s c k (with_phase p (if removed then Returned (Err (SessionError err)) else Draining)).

(** The receive from [pending.result], in either place. *)
Definition Execute_receive (s : Session) (k : nat) (p : pendingRequest) : option Session :=
  match result p with
  | [] => None
  | o :: rest =>
      Some (set_call s (client s) k
              {| request := request p; result := rest; at_phase := Returned o |})
  end.

(** ** [HandleResult] and [Close] *)

Inductive handle_error := BadResult (e : message_error) | OtherBody | Unsolicited.

Definition HandleResult (s : Session) (r : Result Any) : res handle_error unit * Session :=
  match Result_Validate r SenderBody with
  | Err e => (Err (BadResult e), s)
  | Ok _ =>
      if negb (same_str (r_BodyID r) (c_bodyID (client s))) then (Err OtherBody, s)
      else
        match c_pending (client s) !! r_CorrelationID r with
        | None => (Err Unsolicited, s)
        | Some k =>
            match calls s !! k with
            | None => (Err Unsolicited, s)
            | Some p =>
                match ValidateResponseTo r (request p) with
                | Err e => (Err (BadResult e), s)
                | Ok _ =>
                    (Ok tt,
                     {| client := with_pending (client s)
                          (delete (r_CorrelationID r) (c_pending (client s)));
                        calls := calls s;
                        sending := sending s ++ [(k, Ok r)] |})
                end
            end
        end
  end.

Definition Close (s : Session) (reason : option go_error) : Session :=
  let reason := default ErrClosed reason in
  match c_closed (client s) with
  | Some _ => s
  | None =>
      {| client := {| c_bodyID := c_bodyID (client s); c_pending := ∅; c_closed := Some reason |};
         calls := calls s;
         sending := sending s ++
           ((fun e => (snd e, Err (SessionError reason))) <$> map_to_list (c_pending (client s))) |}
  end.

(** A channel send: it waits while the buffer of capacity one is full. *)
Definition chan_send (p : pendingRequest) (o : resultOrError) : option pendingRequest :=
  if (1 <=? len (result p)) then None
  else Some {| request := request p; result := result p ++ [o]; at_phase := at_phase p |}.

(** ** The session's steps *)

Inductive step : Session -> Session -> Prop :=
| step_register s uuid now dollID payload s' :
    c_pending (client s) !! uuid = None ->
    Execute_register s uuid now dollID payload = Ok s' -> step s s'
| step_sent s k p :
    calls s !! k = Some p -> at_phase p = Registered ->
    step s (set_call s (client s) k (with_phase p Selecting))
| step_send_failed s k p err :
    calls s !! k = Some p -> at_phase p = Registered -> step s (Execute_send_failed s k p err)
| step_cancelled s k p err :
    calls s !! k = Some p -> at_phase p = Selecting -> step s (Execute_cancelled s k p err)
| step_receive s k p s' :
    calls s !! k = Some p -> at_phase p = Selecting \/ at_phase p = Draining ->
    Execute_receive s k p = Some s' -> step s s'
| step_result s r s' :
    HandleResult s r = (Ok tt, s') -> step s s'
| step_close s reason : step s (Close s reason)
| step_deliver s k p p' o before after :
    sending s = before ++ (k, o) :: after -> calls s !! k = Some p ->
    chan_send p o = Some p' ->
    step s {| client := client s; calls := <[k := p']> (calls s); sending := before ++ after |}.

Definition initial (bodyID : string) : Session :=
  {| client := {| c_bodyID := bodyID; c_pending := ∅; c_closed := None |};
     calls := []; sending := [] |}.

Definition reachable (bodyID : string) (s : Session) : Prop := rtc step (initial bodyID) s.

(** ** Invariant

    A call that has not returned has its outcome in exactly one place: still
    owed by [pending], in the hands of a sender, or in its channel. *)

Definition owed (s : Session) (k : nat) (p : pendingRequest) : nat :=
  if decide (c_pending (client s) !! ID (request p) = Some k) then 1 else 0.

Definition in_hand (s : Session) (k : nat) : nat :=
  length (filter (fun e => e.1 = k) (sending s)).

Definition authentic (p : pendingRequest) (o : resultOrError) : Prop :=
  match o with
  | Ok r => Result_Validate r SenderBody = Ok tt /\ ValidateResponseTo r (request p) = Ok tt
  | Err _ => True
  end.

Definition call_inv (s : Session) (k : nat) (p : pendingRequest) : Prop :=
  let places := (owed s k p + in_hand s k + length (result p))%nat in
  BodyID (request p) = c_bodyID (client s) /\
  Forall (authentic p) (result p) /\
  (forall o, (k, o) ∈ sending s -> authentic p o) /\
  match at_phase p with
  | Registered | Selecting => places = 1%nat
  | Draining => owed s k p = 0%nat /\ places = 1%nat
  | Returned o => authentic p o /\ owed s k p = 0%nat /\ (places <= 1)%nat
  end.

Record session_inv (s : Session) : Prop := {
  inv_pending : forall id k, c_pending (client s) !! id = Some k ->
    exists p, calls s !! k = Some p /\ ID (request p) = id;
  inv_sending : forall k o, (k, o) ∈ sending s -> is_Some (calls s !! k);
  inv_calls : forall k p, calls s !! k = Some p -> call_inv s k p;
  inv_closed : c_closed (client s) <> None -> c_pending (client s) = ∅;
}.
End client.

Arguments resultOrError : clear implicits.
Arguments pendingRequest : clear implicits.
Arguments Session : clear implicits.

(** ** Preservation *)

Section preservation.
Context {Any : Type}.
Implicit Types (s : Session Any) (p : pendingRequest Any) (o : resultOrError Any).

Lemma owed_pending s k p :
  (owed s k p = 1%nat /\ c_pending (client s) !! ID (request p) = Some k) \/
  (owed s k p = 0%nat /\ c_pending (client s) !! ID (request p) <> Some k).
Proof. unfold owed. case_decide; auto. Qed.

Lemma owed_zero s k p :
  c_pending (client s) !! ID (request p) <> Some k -> owed s k p = 0%nat.
Proof. unfold owed. by case_decide. Qed.

Lemma no_sends (l : list (nat * resultOrError Any)) k :
  (forall o, (k, o) ∉ l) -> length (filter (fun e => e.1 = k) l) = 0%nat.
Proof.
  induction l as [|[k' o] l IH]; intros H; [done|].
  rewrite filter_cons_False; [apply IH; set_solver|]. intros <-. apply (H o). set_solver.
Qed.

(** A step that touches only call [k]'s own record, and removes at most [k]'s
    own entry from the pending map. *)
Lemma set_call_inv s k p p' c :
  session_inv s -> calls s !! k = Some p -> request p' = request p ->
  (c = client s \/
   (c_pending (client s) !! ID (request p) = Some k /\
    c = with_pending (client s) (delete (ID (request p)) (c_pending (client s))))) ->
  call_inv (set_call s c k p') k p' ->
  session_inv (set_call s c k p').
Proof.
  intros [Hp Hs Hc Hcl] Hk Hreq Hclient Hinv.
  pose proof (lookup_lt_Some _ _ _ Hk) as Hlt.
  split; simpl.
  - intros id k' Hid.
    assert (c_pending (client s) !! id = Some k') as Hid'.
    { destruct Hclient as [->|[_ ->]]; [done|]. simpl in Hid. by apply lookup_delete_Some in Hid as [_ ?]. }
    destruct (Hp _ _ Hid') as (p0 & Hk0 & <-).
    destruct (decide (k = k')) as [<-|]; simplify_eq.
    + exists p'. rewrite list_lookup_insert_eq by done. by rewrite Hreq.
    + exists p0. by rewrite list_lookup_insert_ne.
  - intros k' o Hin. apply lookup_lt_is_Some. rewrite length_insert.
    apply lookup_lt_is_Some. by eapply Hs.
  - intros k' p0 Hk'. destruct (decide (k = k')) as [<-|Hne].
    { rewrite list_lookup_insert_eq in Hk' by done. by simplify_eq. }
    rewrite list_lookup_insert_ne in Hk' by done.
    specialize (Hc _ _ Hk'). unfold call_inv in *.
    assert (owed (set_call s c k p') k' p0 = owed s k' p0) as ->.
    { destruct Hclient as [->|[Ho ->]]; [done|]. unfold owed. simpl.
      destruct (decide (ID (request p) = ID (request p0))) as [Heq|].
      - rewrite Heq, lookup_delete_eq. rewrite Heq in Ho. rewrite Ho.
        repeat case_decide; naive_solver.
      - by rewrite lookup_delete_ne. }
    assert (c_bodyID c = c_bodyID (client s)) as Hb by (destruct Hclient as [->|[_ ->]]; done).
    simpl. rewrite Hb. exact Hc.
  - destruct Hclient as [->|[_ ->]]; simpl; [done|]. intros Hx. rewrite Hcl by done.
    apply delete_empty.
Qed.

Lemma register_inv s uuid now dollID payload s' :
  session_inv s -> c_pending (client s) !! uuid = None ->
  Execute_register s uuid now dollID payload = Ok s' -> session_inv s'.
Proof.
  intros [Hp Hs Hc Hcl] Hfresh. unfold Execute_register.
  destruct (Request_Validate _ _) as [[]|]; [|done].
  destruct (c_closed (client s)) eqn:Hclosed; [done|]. intros [= <-].
  split; simpl.
  - intros id k. rewrite lookup_insert_Some. intros [[<- <-]|[Hne Hid]].
    + eexists. rewrite list_lookup_middle by done. done.
    + destruct (Hp _ _ Hid) as (p & Hk & <-). exists p. split; [|done]. by apply lookup_app_l_Some.
  - intros k o Hin. destruct (Hs _ _ Hin) as [p Hk]. exists p. by apply lookup_app_l_Some.
  - intros k p. rewrite lookup_app_Some. intros [Hk|[Hge Hk]].
    + specialize (Hc _ _ Hk). unfold call_inv in *. simpl.
      set (s' := Build_Session _ _ _).
      assert (owed s' k p = owed s k p) as ->; [|exact Hc].
      unfold owed. simpl. destruct (decide (uuid = ID (request p))) as [->|Hne].
      * rewrite lookup_insert_eq, Hfresh. apply lookup_lt_Some in Hk.
        repeat case_decide; naive_solver lia.
      * by rewrite lookup_insert_ne.
    + apply list_lookup_singleton_Some in Hk as [Hk <-].
      replace k with (length (calls s)) by lia. unfold call_inv, owed, in_hand. simpl.
      rewrite lookup_insert_eq, decide_True by done.
      assert (forall o, (length (calls s), o) ∉ sending s) as Hno.
      { intros o [p Hk']%Hs. apply lookup_lt_Some in Hk'. lia. }
      split_and!; [done|constructor|naive_solver|].
      by rewrite no_sends.
  - by rewrite Hclosed.
Qed.

Lemma send_failed_inv s k p err :
  session_inv s -> calls s !! k = Some p -> at_phase p = Registered ->
  session_inv (Execute_send_failed s k p err).
Proof.
  intros Hi Hk Hph. pose proof (inv_calls _ Hi _ _ Hk) as (Hb & Hres & Hin & Hcnt).
  rewrite Hph in Hcnt. unfold Execute_send_failed, remove.
  destruct (owed_pending s k p) as [[Ho Hpend]|[Ho Hpend]].
  - rewrite bool_decide_true by done. simpl. eapply set_call_inv; eauto.
    unfold call_inv, owed, in_hand in *. simpl. rewrite lookup_delete_eq, decide_False by done.
    split_and!; try done. lia.
  - rewrite bool_decide_false by done. simpl. eapply set_call_inv; eauto.
    unfold call_inv, owed, in_hand in *. simpl. rewrite decide_False by done.
    rewrite decide_False in Hcnt by done.
    split_and!; try done. lia.
Qed.

Lemma cancelled_inv s k p err :
  session_inv s -> calls s !! k = Some p -> at_phase p = Selecting ->
  session_inv (Execute_cancelled s k p err).
Proof.
  intros Hi Hk Hph. pose proof (inv_calls _ Hi _ _ Hk) as (Hb & Hres & Hin & Hcnt).
  rewrite Hph in Hcnt. unfold Execute_cancelled, remove.
  destruct (owed_pending s k p) as [[Ho Hpend]|[Ho Hpend]].
  - rewrite bool_decide_true by done. simpl. eapply set_call_inv; eauto.
    unfold call_inv, owed, in_hand in *. simpl. rewrite lookup_delete_eq, decide_False by done.
    split_and!; try done. lia.
  - rewrite bool_decide_false by done. simpl. eapply set_call_inv; eauto.
    by split_and!.
Qed.

Lemma receive_inv s k p s' :
  session_inv s -> calls s !! k = Some p -> at_phase p = Selecting \/ at_phase p = Draining ->
  Execute_receive s k p = Some s' -> session_inv s'.
Proof.
  intros Hi Hk Hph. pose proof (inv_calls _ Hi _ _ Hk) as (Hb & Hres & Hin & Hcnt).
  unfold Execute_receive. destruct (result p) as [|o rest] eqn:Hr; [done|]. intros [= <-].
  eapply set_call_inv; eauto. simpl in Hcnt.
  assert (owed s k p + in_hand s k + length rest = 0)%nat as H0.
  { destruct Hph as [Hph|Hph]; rewrite Hph in Hcnt; lia. }
  inversion Hres; subst. unfold call_inv. simpl. split_and!; try done.
  - change (owed s k p = 0%nat). lia.
  - change (owed s k p + in_hand s k + length rest <= 1)%nat. lia.
Qed.

Lemma ValidateResponseTo_id (r : Result Any) req :
  ValidateResponseTo r req = Ok tt -> r_CorrelationID r = ID req.
Proof. unfold ValidateResponseTo. intros H. branches. bool_props. by apply same_str_true. Qed.

Lemma result_inv s r s' :
  session_inv s -> HandleResult s r = (Ok tt, s') -> session_inv s'.
Proof.
  intros [Hp Hs Hc Hcl]. unfold HandleResult.
  destruct (Result_Validate r SenderBody) as [[]|] eqn:Hv; [|done].
  destruct (negb _); [done|].
  destruct (c_pending (client s) !! r_CorrelationID r) as [k|] eqn:Hk; [|done].
  destruct (calls s !! k) as [p|] eqn:Hck; [|done].
  destruct (ValidateResponseTo r (request p)) as [[]|] eqn:Hrt; [|done]. intros [= <-].
  pose proof (ValidateResponseTo_id _ _ Hrt) as Hid. rewrite Hid in *.
  split; simpl.
  - intros id k' [_ Hid']%lookup_delete_Some. by apply Hp.
  - intros k' o. rewrite elem_of_app, list_elem_of_singleton. intros [?|[= -> ->]]; eauto.
  - intros k' p' Hk'. destruct (Hc _ _ Hk') as (Hb & Hres & Hin & Hcnt).
    unfold call_inv, in_hand in *. simpl. rewrite filter_app, length_app.
    destruct (decide (k = k')) as [<-|Hne].
    + simplify_eq. rewrite filter_cons_True by done. unfold owed in *. simpl in *.
      rewrite lookup_delete_eq, decide_False by done. rewrite decide_True in Hcnt by done.
      split_and!; try done.
      * intros o. rewrite elem_of_app, list_elem_of_singleton. intros [?|[= ->]]; [by auto|done].
      * destruct (at_phase p); simpl in *; try lia; naive_solver lia.
    + rewrite filter_cons_False by (simpl; congruence). simpl. rewrite Nat.add_0_r.
      set (s' := Build_Session _ _ _).
      assert (owed s' k' p' = owed s k' p') as ->.
      { unfold owed. simpl. destruct (decide (ID (request p) = ID (request p'))) as [Heq|].
        - rewrite Heq, lookup_delete_eq, <- Heq, Hk. repeat case_decide; naive_solver.
        - by rewrite lookup_delete_ne. }
      split_and!; try done.
      intros o. rewrite elem_of_app, list_elem_of_singleton. intros [?|[= ? ?]]; naive_solver.
  - intros Hx. rewrite Hcl in Hk by done. done.
Qed.

(** Closing hands each waiter one outcome: the pending map holds at most one
    entry for a call. *)
Lemma close_sends (m : gmap string nat) (i : string) (k : nat) o :
  (forall j, m !! j = Some k -> j = i) ->
  length (filter (fun e => e.1 = k) ((fun e => (snd e, o)) <$> map_to_list m))
  = if decide (m !! i = Some k) then 1%nat else 0%nat.
Proof.
  intros Huniq. case_decide as Hk.
  - rewrite <- (map_to_list_delete m i k Hk). simpl. rewrite filter_cons_True by done. simpl.
    f_equal. apply no_sends. intros o' Hin.
    apply list_elem_of_fmap in Hin as ([j k'] & [= -> ->] & Hj%elem_of_map_to_list).
    apply lookup_delete_Some in Hj as [Hne Hj]. by apply Hne, eq_sym, Huniq.
  - apply no_sends. intros o' Hin.
    apply list_elem_of_fmap in Hin as ([j k'] & [= -> ->] & Hj%elem_of_map_to_list).
    rewrite (Huniq _ Hj) in Hj. done.
Qed.

Lemma close_inv s reason : session_inv s -> session_inv (Close s reason).
Proof.
  intros [Hp Hs Hc Hcl]. unfold Close.
  destruct (c_closed (client s)) eqn:Hclosed; [split; try done; by rewrite Hclosed|].
  split; simpl.
  - done.
  - intros k o. rewrite elem_of_app, list_elem_of_fmap.
    intros [?|([id k'] & [= -> ->] & (p & ? & _)%elem_of_map_to_list%Hp)]; eauto.
  - intros k p Hk. destruct (Hc _ _ Hk) as (Hb & Hres & Hin & Hcnt).
    unfold call_inv, in_hand in *. simpl. rewrite filter_app, length_app.
    rewrite (close_sends _ (ID (request p))) by (intros j (p' & ? & ?)%Hp; naive_solver).
    unfold owed in *. simpl. rewrite lookup_empty, (decide_False (P := None = Some k)) by done.
    split_and!; try done.
    + intros o. rewrite elem_of_app, list_elem_of_fmap.
      intros [?|([id k'] & [= -> ->] & _)]; [by auto|done].
    + destruct (at_phase p); try lia; naive_solver lia.
  - done.
Qed.

Lemma deliver_inv s k p p' o before after :
  session_inv s -> sending s = before ++ (k, o) :: after -> calls s !! k = Some p ->
  chan_send p o = Some p' ->
  session_inv {| client := client s; calls := <[k := p']> (calls s); sending := before ++ after |}.
Proof.
  intros [Hp Hs Hc Hcl] Hsend Hk Hch. unfold chan_send in Hch. case_match; simplify_eq.
  pose proof (lookup_lt_Some _ _ _ Hk) as Hlt.
  assert (Hsub : forall k' o', (k', o') ∈ before ++ after -> (k', o') ∈ sending s).
  { rewrite Hsend. intros k' o' Hin. rewrite elem_of_app, elem_of_cons. rewrite elem_of_app in Hin.
    naive_solver. }
  split; simpl.
  - intros id k' (p0 & Hk' & <-)%Hp. destruct (decide (k = k')) as [<-|Hne].
    + eexists. rewrite list_lookup_insert_eq by done. by simplify_eq.
    + exists p0. by rewrite list_lookup_insert_ne.
  - intros k' o' Hin%Hsub%Hs. by rewrite lookup_lt_is_Some, length_insert, <- lookup_lt_is_Some.
  - intros k' p0. destruct (decide (k = k')) as [<-|Hne].
    + rewrite list_lookup_insert_eq by done. intros [= <-].
      destruct (Hc _ _ Hk) as (Hb & Hres & Hin & Hcnt).
      unfold call_inv, owed, in_hand in *. simpl. rewrite Hsend in Hcnt.
      rewrite filter_app, filter_cons_True in Hcnt by done.
      rewrite filter_app. rewrite !length_app in *. simpl in Hcnt |- *.
      split_and!; try done.
      * apply Forall_app_2; [done|]. constructor; [|done].
        apply (Hin o). rewrite Hsend. set_solver.
      * intros o' ?%Hsub. by apply (Hin o').
      * destruct (at_phase p); try lia; naive_solver lia.
    + rewrite list_lookup_insert_ne by done. intros Hk'.
      destruct (Hc _ _ Hk') as (Hb & Hres & Hin & Hcnt).
      unfold call_inv, owed, in_hand in *. simpl. rewrite Hsend in Hcnt.
      rewrite filter_app, filter_cons_False in Hcnt by done.
      rewrite filter_app.
      split_and!; try done. intros o' ?%Hsub. by apply (Hin o').
  - done.
Qed.

Lemma step_inv s s' : step s s' -> session_inv s -> session_inv s'.
Proof.
  destruct 1; intros Hi; eauto using register_inv, send_failed_inv, cancelled_inv, receive_inv,
    result_inv, close_inv, deliver_inv.
  eapply set_call_inv; eauto.
  destruct (inv_calls _ Hi _ _ H) as (? & ? & ? & Hcnt). rewrite H0 in Hcnt. by split_and!.
Qed.

#[export] Instance session_preserves : Preserves (@step Any) session_inv.
Proof. exact step_inv. Qed.

Lemma reachable_inv b s : reachable b s -> session_inv s.
Proof.
  intros Hr. apply (reachable_keeps session_inv _ _ Hr). split; simpl; try done. set_solver.
Qed.
End preservation.

Lemma Request_Validate_ids {Any} (req : Request Any) :
  Request_Validate req SenderCore = Ok tt ->
  ID req <> "" /\ BodyID req <> "" /\ ExecutionID (Payload req) <> "".
Proof.
  unfold Request_Validate, validateEnvelope, res_bind. intros H. branches. bool_props.
  rewrite ?empty_str_false in *. naive_solver.
Qed.

(** An outcome in the hands of a sender finds its channel empty. *)
Lemma sender_finds_room {Any} (s : Session Any) k o :
  session_inv s -> (k, o) ∈ sending s ->
  exists p, calls s !! k = Some p /\ result p = [].
Proof.
  intros Hi Hin. destruct (inv_sending _ Hi _ _ Hin) as [p Hk]. exists p. split; [done|].
  destruct (inv_calls _ Hi _ _ Hk) as (_ & _ & _ & Hcnt).
  assert (1 <= in_hand s k)%nat.
  { unfold in_hand. apply list_elem_of_split in Hin as (l1 & l2 & ->).
    rewrite filter_app, filter_cons_True, length_app by done. simpl. lia. }
  apply nil_length_inv. destruct (at_phase p); lia.
Qed.

(** A positive count of sends exhibits one. *)
Lemma in_hand_pos {Any} (s : Session Any) k :
  (0 < in_hand s k)%nat -> exists o before after, sending s = before ++ (k, o) :: after.
Proof.
  unfold in_hand. intros H.
  destruct (filter (fun e => e.1 = k) (sending s)) as [|[k' o] l] eqn:Hf; [simpl in H; lia|].
  assert ((k', o) ∈ filter (fun e => e.1 = k) (sending s)) as Hin by (rewrite Hf; set_solver).
  apply list_elem_of_filter in Hin as [Heq Hin]. simpl in Heq. subst.
  apply list_elem_of_split in Hin as (l1 & l2 & ->). eauto.
Qed.

(** ** Properties *)

Section properties.
Context {Any : Type}.
Implicit Types (s : Session Any) (p : pendingRequest Any) (r : Result Any).

(** A send to a waiter never blocks, whatever the interleaving of requests,
    results, cancellations and closes: when [HandleResult] or [Close] holds an
    outcome for a call, that call's channel is empty, so the connection's read
    loop cannot be stalled by a slow or departed caller. *)
Theorem session_never_blocks b s k o :
  reachable b s -> (k, o) ∈ sending s ->
  exists p p', calls s !! k = Some p /\ chan_send p o = Some p'.
Proof.
  intros Hi%reachable_inv Hin. destruct (sender_finds_room s k o Hi Hin) as (p & Hk & Hr).
  exists p. unfold chan_send. rewrite Hr. simpl. eauto.
Qed.

(** No caller is lost.  A caller that was cancelled after its outcome was
    taken from the pending map, and every caller still waiting once the
    session is closed, can reach its return by steps of the session alone. *)
Theorem session_releases_waiters b s k p :
  reachable b s -> calls s !! k = Some p ->
  at_phase p = Draining \/ (at_phase p = Selecting /\ c_closed (client s) <> None) ->
  exists s' p' o, rtc step s s' /\ calls s' !! k = Some p' /\ at_phase p' = Returned o.
Proof.
  intros Hi%reachable_inv Hk Hph. destruct (inv_calls _ Hi _ _ Hk) as (_ & _ & _ & Hcnt).
  pose proof (lookup_lt_Some _ _ _ Hk) as Hlt.
  assert (owed s k p = 0 /\ in_hand s k + length (result p) = 1)%nat as [_ H1].
  { destruct Hph as [Hph|[Hph Hcl]]; rewrite Hph in Hcnt; [lia|].
    assert (owed s k p = 0)%nat; [|lia].
    apply owed_zero. by rewrite (inv_closed _ Hi) by done. }
  assert (Hph' : at_phase p = Selecting \/ at_phase p = Draining) by naive_solver.
  destruct (result p) as [|o rest] eqn:Hr; simpl in H1.
  - destruct (in_hand_pos s k) as (o & l1 & l2 & Hs); [lia|].
    set (p1 := {| request := request p; result := [o]; at_phase := at_phase p |}).
    set (s1 := {| client := client s; calls := <[k := p1]> (calls s); sending := l1 ++ l2 |}).
    assert (step s s1) as St1.
    { eapply step_deliver; eauto. unfold chan_send. by rewrite Hr. }
    assert (calls s1 !! k = Some p1) as Hk1 by (by apply list_lookup_insert_eq).
    eexists _, _, o. split; [eapply rtc_l; [exact St1|]; eapply rtc_once|].
    + eapply (step_receive s1 k p1); [done|done|reflexivity].
    + simpl. rewrite list_lookup_insert_eq by (by rewrite length_insert). done.
  - eexists _, _, o. split; [eapply rtc_once|].
    + eapply (step_receive s k p); [done|done|]. unfold Execute_receive. rewrite Hr. reflexivity.
    + simpl. by rewrite list_lookup_insert_eq.
Qed.

(** C7: a caller never receives another call's result: whatever a reachable
    session returned to a call was validated, names this session's Body and
    answers that call's own request, execution and doll identities. *)
Theorem session_results_authentic b s k p r :
  reachable b s -> calls s !! k = Some p -> at_phase p = Returned (Ok r) ->
  Result_Validate r SenderBody = Ok tt /\ ValidateResponseTo r (request p) = Ok tt /\
  BodyID (request p) = c_bodyID (client s).
Proof.
  intros Hi%reachable_inv Hk Hph. destruct (inv_calls _ Hi _ _ Hk) as (Hb & _ & _ & Hcnt).
  rewrite Hph in Hcnt. destruct Hcnt as [[] _]. done.
Qed.

(** Results are consumed at most once and refusals consume nothing: an
    error leaves the session as it was, and a result that was accepted is
    unsolicited when it arrives a second time. *)
Theorem HandleResult_once s r :
  (forall e s', HandleResult s r = (Err e, s') -> s' = s) /\
  (forall s', HandleResult s r = (Ok tt, s') -> HandleResult s' r = (Err Unsolicited, s')).
Proof.
  split.
  - intros e s'. unfold HandleResult. intros H. repeat case_match; by simplify_eq.
  - intros s' H. unfold HandleResult in H |- *.
    destruct (Result_Validate r SenderBody) as [[]|]; [|done].
    destruct (negb _) eqn:Hb; [done|].
    destruct (_ !! r_CorrelationID r) as [k|]; [|done].
    destruct (calls s !! k) as [p|]; [|done].
    destruct (ValidateResponseTo r (request p)) as [[]|]; [|done].
    injection H as <-. simpl. by rewrite Hb, lookup_delete_eq.
Qed.

(** [Close] is idempotent and final: a second close keeps the first
    reason, nothing stays pending, and a later well-formed request is refused
    with that reason. *)
Theorem Close_final s reason reason' uuid now dollID payload :
  c_closed (client s) = None ->
  Request_Validate (Execute_request (client s) uuid now dollID payload) SenderCore = Ok tt ->
  Close (Close s reason) reason' = Close s reason /\
  c_pending (client (Close s reason)) = ∅ /\
  Execute_register (Close s reason) uuid now dollID payload =
    Err (SessionError (default ErrClosed reason)).
Proof.
  intros Hc Hv. unfold Close. rewrite Hc. simpl. split_and!; [done..|].
  unfold Execute_register, Execute_request in *. simpl in *. by rewrite Hv.
Qed.

(** The two ends of the protocol fit together.  When a freshly registered
    request is handled by a dispatcher for the same Body, under any permission
    and any executor, the session accepts the reply and puts exactly that
    reply in the hands of a sender for exactly that call. *)
Theorem request_reply_delivered {Ctx World} (Background : Ctx) (Ctx_Err : Ctx -> option go_error)
    (d : Dispatcher Any Ctx World) s s' uuid now dollID payload ctx uuid' now' w :
  Execute_register s uuid now dollID payload = Ok s' ->
  d_bodyID d = c_bodyID (client s) -> uuid' <> "" -> now' <> 0 ->
  exists r, fst (HandleExecutionRequest Background Ctx_Err d ctx uuid' now'
                   (Execute_request (client s) uuid now dollID payload) w) = Ok r /\
    HandleResult s' r =
      (Ok tt, {| client := with_pending (client s') (delete uuid (c_pending (client s')));
                 calls := calls s';
                 sending := sending s' ++ [(length (calls s), Ok r)] |}).
Proof.
  intros Hreg Hd Hu Hn. unfold Execute_register in Hreg.
  set (req := Execute_request (client s) uuid now dollID payload) in *.
  destruct (Request_Validate req SenderCore) as [[]|] eqn:Hv; [|done].
  destruct (c_closed (client s)); [done|]. injection Hreg as <-.
  destruct (Request_Validate_ids req Hv) as (H1 & H2 & H3).
  pose proof (dispatcher_replies Background Ctx_Err d ctx uuid' now' req w Hu Hn H1 H3)
    as (r & Hr & Ha1 & Ha2 & _); [done..|].
  exists r. split; [done|]. unfold HandleResult. simpl. rewrite Ha1.
  pose proof (ValidateResponseTo_id _ _ Ha2) as Hid.
  assert (r_BodyID r = c_bodyID (client s)) as ->.
  { unfold ValidateResponseTo in Ha2. branches; bool_props. by rewrite same_str_true in *. }
  rewrite (proj2 (same_str_true _ _)) by done. simpl. rewrite Hid. simpl.
  rewrite lookup_insert_eq, list_lookup_middle by done. simpl. by rewrite Ha2.
Qed.
End properties.

(** ** A concrete run: one request is sent and answered. *)

Definition demo_payload : RequestPayload nat :=
  {| ExecutionID := "e1"; Capability := "audio"; Operation := "play"; Arguments := Some ∅ |}.

Definition demo_registered : Session nat :=
  match Execute_register (initial "b1") "m1" 5 "d" demo_payload with
  | Ok s => s | Err _ => initial "b1" end.

Definition demo_call : pendingRequest nat :=
  {| request := Execute_request (client demo_registered) "m1" 5 "d" demo_payload;
     result := []; at_phase := Registered |}.

Definition demo_sent : Session nat :=
  set_call demo_registered (client demo_registered) 0 (with_phase demo_call Selecting).

Definition demo_result : Result nat :=
  {| r_Type := TypeResult; r_ID := "u"; r_Timestamp := UTC 9; r_DollID := "d"; r_BodyID := "b1";
     r_CorrelationID := "m1";
     r_Payload := {| rp_ExecutionID := "e1"; rp_Status := StatusSuccess; rp_Result := None |} |}.

Definition demo_handled : Session nat := snd (HandleResult demo_sent demo_result).
Definition demo_raced : Session nat :=
  Execute_cancelled demo_handled 0 (with_phase demo_call Selecting) [Canceled].
Definition demo_delivered : Session nat :=
  {| client := client demo_raced;
     calls := [{| request := request demo_call; result := [Ok demo_result]; at_phase := Draining |}];
     sending := [] |}.
Definition demo_returned : Session nat :=
  {| client := client demo_raced;
     calls := [{| request := request demo_call; result := []; at_phase := Returned (Ok demo_result) |}];
     sending := [] |}.

Lemma demo_reaches_handled : reachable "b1" demo_handled.
Proof.
  eapply rtc_l; [eapply (step_register _ "m1" 5 "d" demo_payload); reflexivity|].
  eapply rtc_l; [eapply (step_sent _ 0 demo_call); reflexivity|].
  eapply rtc_l; [eapply (step_result _ demo_result); reflexivity|]. apply rtc_refl.
Qed.

Lemma demo_reaches_raced : reachable "b1" demo_raced.
Proof.
  eapply rtc_r; [apply demo_reaches_handled|].
  eapply (step_cancelled _ 0 (with_phase demo_call Selecting) [Canceled]); reflexivity.
Qed.

Lemma demo_reaches_returned : reachable "b1" demo_returned.
Proof.
  eapply rtc_r; [eapply rtc_r; [apply demo_reaches_raced|]|].
  - eapply (step_deliver demo_raced 0 (with_phase demo_call Draining) _ (Ok demo_result) [] []);
      reflexivity.
  - eapply (step_receive _ 0 {| request := request demo_call; result := [Ok demo_result];
                                at_phase := Draining |}); [reflexivity|by right|reflexivity].
Qed.

Lemma session_never_blocks_witness :
  exists p p', calls demo_handled !! 0%nat = Some p /\ chan_send p (Ok demo_result) = Some p'.
Proof.
  apply (session_never_blocks "b1" demo_handled 0 (Ok demo_result)).
  - exact demo_reaches_handled.
  - apply list_elem_of_here.
Defined.

Lemma session_releases_waiters_witness :
  exists s' p' o, rtc step demo_raced s' /\ calls s' !! 0%nat = Some p' /\ at_phase p' = Returned o.
Proof.
  apply (session_releases_waiters "b1" demo_raced 0 (with_phase demo_call Draining)).
  - exact demo_reaches_raced.
  - reflexivity.
  - left. reflexivity.
Defined.

Lemma session_results_authentic_witness :
  ValidateResponseTo demo_result (request demo_call) = Ok tt.
Proof.
  apply (session_results_authentic "b1" demo_returned 0
    {| request := request demo_call; result := []; at_phase := Returned (Ok demo_result) |}
    demo_result).
  - exact demo_reaches_returned.
  - reflexivity.
  - reflexivity.
Defined.

Lemma Close_final_witness :
  Execute_register (Close demo_handled (Some ErrDisconnected)) "m2" 6 "d" demo_payload
  = Err (SessionError ErrDisconnected).
Proof.
  apply (Close_final demo_handled (Some ErrDisconnected) None "m2" 6 "d" demo_payload); reflexivity.
Defined.

Lemma request_reply_delivered_witness :
  exists r, fst (HandleExecutionRequest tt (fun _ => None) demo_dispatcher None "u" 9
                   (request demo_call) 0%nat) = Ok r /\
    fst (HandleResult demo_registered r) = Ok tt.
Proof.
  destruct (request_reply_delivered tt (fun _ => None) demo_dispatcher (initial "b1")
    demo_registered "m1" 5 "d" demo_payload None "u" 9 0%nat ltac:(reflexivity) ltac:(reflexivity)
    ltac:(discriminate) ltac:(lia)) as (r & Hr & Hh).
  exists r. split; [exact Hr|]. rewrite Hh. reflexivity.
Defined.
