(* ===== verification/RelayCodec.v ===== *)
(** * Relay wire frames, control messages and configuration

    Models [src/Core/Relay/codec.go] (the WSS data frame), the message types of
    [types.go] with [ValidateControl] of [control.go], and the configuration
    checks of [config.go] together with the port scan of [udp.go] that relies
    on them.  JSON encoding is the standard library's and is not modelled: a
    control message is the Go struct it decodes to. *)
From S2P Require Import Prelude GoBytes.
From stdpp Require Import options.

Definition ProtocolVersion : Z := 1.
Definition FrameHeaderSize : Z := 11.
Definition MaxFramePayloadSize : Z := 65535.
Definition MaxRouteID : Z := 2 ^ 63 - 1.

(** ** Frames *)

Record Frame := { f_Version : Z; f_RouteID : Z; f_Payload : list byte }.

Inductive frame_error :=
| NilFrame | ErrFrameBadVersion | InvalidRouteID | ErrFrameTooLarge | ErrFrameTooSmall
| FrameLengthMismatch.

Definition MarshalFrame (f : option Frame) : res frame_error (list byte) :=
  match f with
  | None => Err NilFrame
  | Some f =>
      refuse negb (f_Version f =? ProtocolVersion) with ErrFrameBadVersion;
      refuse (f_RouteID f =? 0) || (MaxRouteID <? f_RouteID f) with InvalidRouteID;
      refuse MaxFramePayloadSize <? len (f_Payload f) with ErrFrameTooLarge;
      let buf := replicate (Z.to_nat (FrameHeaderSize + len (f_Payload f))) x00 in
      let buf := go_copy buf 0 [z2b (f_Version f)] in
      let buf := go_copy buf 1 (be_put 8 (u64 (f_RouteID f))) in
      let buf := go_copy buf 9 (be_put 2 (u16 (len (f_Payload f)))) in
      Ok (go_copy buf 11 (f_Payload f))
  end.

Definition UnmarshalFrame (data : list byte) : res frame_error Frame :=
  refuse len data <? FrameHeaderSize with ErrFrameTooSmall;
  let version := b2z (nth 0 data x00) in
  refuse negb (version =? ProtocolVersion) with ErrFrameBadVersion;
  let routeID := be_get (slice 1 9 data) in
  refuse (routeID =? 0) || (MaxRouteID <? routeID) with InvalidRouteID;
  let length := be_get (slice 9 11 data) in
  refuse MaxFramePayloadSize <? length with ErrFrameTooLarge;
  refuse negb (len data =? FrameHeaderSize + length) with FrameLengthMismatch;
  let payload := go_copy (replicate (Z.to_nat length) x00) 0 (drop 11 data) in
  Ok {| f_Version := version; f_RouteID := routeID; f_Payload := payload |}.

(** What the two ends agree a frame is. *)
Definition wf_relay_frame (f : Frame) : Prop :=
  f_Version f = ProtocolVersion /\ 0 < f_RouteID f <= MaxRouteID /\
  len (f_Payload f) <= MaxFramePayloadSize.

(** ** Control messages *)

Inductive ControlMessage :=
| Register (Token : string)
| Registered (RelayID : string)
| RouteOpen (RouteID : Z) (Credentials : string)
| RouteOpened (RouteID : Z) (AllocatedEndpoint : string) (Credentials : string)
| RouteClose (RouteID : Z)
| RouteClosed (RouteID : Z)
| RelayError (Code Message : string) (RouteID : Z)
| BodyAttach (Version RouteID : Z) (Credential : string)
| BodyAttached (Version RouteID : Z).

Inductive control_error :=
| TokenRequired | RelayIDRequired | RouteIDRequired | CredentialRequired | EndpointRequired
| CodeRequired | BadProtocolVersion.

Definition ValidateControl (v : ControlMessage) : res control_error unit :=
  match v with
  | Register token => refuse empty_str token with TokenRequired; Ok tt
  | Registered relay => refuse empty_str relay with RelayIDRequired; Ok tt
  | RouteOpen rid creds =>
      refuse rid =? 0 with RouteIDRequired;
      refuse empty_str creds with CredentialRequired;
      Ok tt
  | RouteOpened rid endpoint _ =>
      refuse rid =? 0 with RouteIDRequired;
      refuse empty_str endpoint with EndpointRequired;
      Ok tt
  | RouteClose rid | RouteClosed rid => refuse rid =? 0 with RouteIDRequired; Ok tt
  | RelayError code _ _ => refuse empty_str code with CodeRequired; Ok tt
  | BodyAttach version rid cred =>
      refuse negb (version =? ProtocolVersion) with BadProtocolVersion;
      refuse rid =? 0 with RouteIDRequired;
      refuse empty_str cred with CredentialRequired;
      Ok tt
  | BodyAttached version rid =>
      refuse negb (version =? ProtocolVersion) with BadProtocolVersion;
      refuse rid =? 0 with RouteIDRequired;
      Ok tt
  end.

(** ** Configuration *)

Record UDPConfig := {
  ListenAddress : string;
  PortMin : Z;
  PortMax : Z;
  MaxPacketSize : Z;
  MaxQueueDepth : Z;
}.

Record ServiceConfig := {
  MaxRegistrations : Z;
  MaxRoutes : Z;
  KeepaliveInterval : duration;
  RouteTimeout : duration;
  RegistrationTimeout : duration;
  Credentials : list string;
  UDP : UDPConfig;
  MaxBodyQueueDepth : Z;
}.

Inductive config_error :=
| BadMaxPacketSize | NegativeQueueDepth | NegativePort | InvertedPortRange
| NoRegistrations | NoRoutes | KeepaliveTooShort | RouteTimeoutTooShort
| RegistrationTimeoutTooShort | CredentialLength | CredentialNotHex | NegativeBodyQueueDepth.

Definition defaultUDPMaxQueueDepth : Z := 256.

Definition UDPConfig_ApplyDefaults (c : UDPConfig) : UDPConfig :=
  {| ListenAddress := if empty_str (ListenAddress c) then "0.0.0.0" else ListenAddress c;
     PortMin := PortMin c;
     PortMax := PortMax c;
     MaxPacketSize := if MaxPacketSize c =? 0 then MaxFramePayloadSize else MaxPacketSize c;
     MaxQueueDepth := if MaxQueueDepth c =? 0 then defaultUDPMaxQueueDepth else MaxQueueDepth c |}.

Definition UDPConfig_Validate (c : UDPConfig) : res config_error unit :=
  refuse (MaxPacketSize c <? 0) || (MaxFramePayloadSize <? MaxPacketSize c) with BadMaxPacketSize;
  refuse MaxQueueDepth c <? 0 with NegativeQueueDepth;
  refuse (PortMin c <? 0) || (PortMax c <? 0) with NegativePort;
  refuse negb (PortMin c =? 0) && negb (PortMax c =? 0) && (PortMax c <? PortMin c)
    with InvertedPortRange;
  Ok tt.

(** [hex.DecodeString] accepts both cases and fails on any other character;
    the length is even by the previous check. *)
Definition hex_char (c : Ascii.ascii) : bool :=
  let x := code c in
  ((48 <=? x) && (x <=? 57)) || ((97 <=? x) && (x <=? 102)) || ((65 <=? x) && (x <=? 70)).

Fixpoint validateCredentials (creds : list string) : res config_error unit :=
  match creds with
  | [] => Ok tt
  | cred :: rest =>
      refuse negb (Nat.eqb (String.length cred) 64) with CredentialLength;
      refuse negb (forallb hex_char (String.list_ascii_of_string cred)) with CredentialNotHex;
      validateCredentials rest
  end.

Definition ServiceConfig_Validate (c : ServiceConfig) : res config_error unit :=
  refuse MaxRegistrations c <? 1 with NoRegistrations;
  refuse MaxRoutes c <? 1 with NoRoutes;
  refuse KeepaliveInterval c <? second with KeepaliveTooShort;
  refuse RouteTimeout c <? KeepaliveInterval c with RouteTimeoutTooShort;
  refuse RegistrationTimeout c <? KeepaliveInterval c with RegistrationTimeoutTooShort;
  try u <- validateCredentials (Credentials c);
  try u <- UDPConfig_Validate (UDP c);
  refuse MaxBodyQueueDepth c <? 0 with NegativeBodyQueueDepth;
  Ok tt.

(** ** The port scan

    [parse] is [net.ParseIP] and [listen] the operating system's answer to
    [net.ListenUDP] on that address and port. *)

Inductive socket_error := BadListenAddress | ListenFailed | NoFreePort.

(** The [for port := PortMin; port <= PortMax; port++] loop; [n] counts the
    ports left. *)
Fixpoint scan_ports {IP Conn} (listen : IP -> Z -> option Conn) (ip : IP) (port : Z) (n : nat)
    : option Conn :=
  match n with
  | O => None
  | S n' => match listen ip port with
            | Some conn => Some conn
            | None => scan_ports listen ip (port + 1) n'
            end
  end.

Definition listenSocket {IP Conn} (parse : string -> option IP)
    (listen : IP -> Z -> option Conn) (c : UDPConfig) : res socket_error Conn :=
  match parse (ListenAddress c) with
  | None => Err BadListenAddress
  | Some ip =>
      if (PortMin c =? 0) && (PortMax c =? 0) then
        match listen ip 0 with Some conn => Ok conn | None => Err ListenFailed end
      else
        match scan_ports listen ip (PortMin c) (Z.to_nat (PortMax c - PortMin c + 1)) with
        | Some conn => Ok conn
        | None => Err NoFreePort
        end
  end.

(** ** Lemmas *)

Lemma MarshalFrame_bytes f : wf_relay_frame f ->
  MarshalFrame (Some f) =
  Ok ([x01] ++ be_put 8 (f_RouteID f) ++ be_put 2 (len (f_Payload f)) ++ f_Payload f).
Proof.
  intros (Hv & Hr & Hp). unfold MaxRouteID, MaxFramePayloadSize, ProtocolVersion in *.
  pose proof (len_nonneg (f_Payload f)).
  unfold MarshalFrame. unfold MaxRouteID, MaxFramePayloadSize, ProtocolVersion, FrameHeaderSize.
  rewrite Hv. simpl negb. cbn match.
  rewrite (proj2 (Z.eqb_neq _ _)), (proj2 (Z.ltb_ge _ (f_RouteID f))), (proj2 (Z.ltb_ge _ (len _)))
    by lia. cbn [orb]. f_equal.
  replace (Z.to_nat (11 + len (f_Payload f))) with (1 + (8 + (2 + length (f_Payload f))))%nat
    by (unfold len; lia).
  rewrite !replicate_add, u64_small, u16_small by lia.
  generalize (f_Payload f) (f_RouteID f). intros payload rid.
  pose proof (go_copy_at 0 [] (replicate 1 x00)
    (replicate 8 x00 ++ replicate 2 x00 ++ replicate (length payload) x00) [z2b 1]) as E1.
  rewrite !app_nil_l in E1. rewrite E1 by done.
  rewrite (go_copy_at 1 [z2b 1] (replicate 8 x00)) by (rewrite ?length_be_put; done).
  rewrite (app_assoc [z2b 1]), (go_copy_at 9 _ (replicate 2 x00))
    by (rewrite ?length_app, ?length_be_put; done).
  rewrite (app_assoc (_ ++ _)), <- (app_nil_r (replicate (length payload) x00)), (go_copy_at 11)
    by (rewrite ?length_app, ?length_be_put, ?length_replicate; done).
  by rewrite app_nil_r, <- !app_assoc.
Qed.

Lemma MarshalFrame_wf f bs : MarshalFrame (Some f) = Ok bs -> 0 <= f_RouteID f -> wf_relay_frame f.
Proof.
  unfold MarshalFrame, wf_relay_frame. intros H ?. branches. bool_props. unfold MaxRouteID in *. lia.
Qed.

Lemma UnmarshalFrame_bytes rid payload :
  0 < rid <= MaxRouteID -> len payload <= MaxFramePayloadSize ->
  UnmarshalFrame ([x01] ++ be_put 8 rid ++ be_put 2 (len payload) ++ payload) =
  Ok {| f_Version := 1; f_RouteID := rid; f_Payload := payload |}.
Proof.
  unfold MaxRouteID, MaxFramePayloadSize. intros Hr Hp. pose proof (len_nonneg payload).
  set (data := _ ++ _).
  assert (len data = 11 + len payload) as Hlen.
  { unfold data. rewrite !len_app. unfold len. rewrite !length_be_put. simpl. lia. }
  assert (slice 1 9 data = be_put 8 rid) as E1.
  { apply slice_app_mid; rewrite ?length_be_put; done. }
  assert (slice 9 11 data = be_put 2 (len payload)) as E2.
  { unfold data. rewrite app_assoc. apply slice_app_mid; rewrite ?length_app, ?length_be_put; done. }
  assert (drop 11 data = payload) as E3.
  { unfold data. rewrite !app_assoc. apply drop_app_length'.
    rewrite !length_app, !length_be_put. done. }
  unfold UnmarshalFrame. unfold MaxRouteID, MaxFramePayloadSize, FrameHeaderSize, ProtocolVersion.
  rewrite Hlen, E1, E2, E3, !be_get_put.
  rewrite (Z.mod_small rid) by (simpl; lia). rewrite (Z.mod_small (len payload)) by (simpl; lia).
  rewrite (proj2 (Z.ltb_ge _ 11)) by lia. simpl negb. cbn match.
  rewrite (proj2 (Z.eqb_neq rid _)), (proj2 (Z.ltb_ge _ rid)), (proj2 (Z.ltb_ge _ (len payload)))
    by lia.
  rewrite Z.eqb_refl. simpl. do 2 f_equal. unfold len. rewrite Nat2Z.id.
  pose proof (go_copy_at 0 [] (replicate (length payload) x00) [] payload) as E.
  rewrite !app_nil_l, !app_nil_r in E. apply E; [done|]. apply length_replicate.
Qed.

Lemma UnmarshalFrame_parts data f : UnmarshalFrame data = Ok f ->
  wf_relay_frame f /\ b2z (nth 0 data x00) = 1 /\ f_RouteID f = be_get (slice 1 9 data) /\
  len (f_Payload f) = be_get (slice 9 11 data) /\ f_Payload f = drop 11 data /\
  (11 <= length data)%nat.
Proof.
  unfold UnmarshalFrame. intros H. branches. bool_props.
  unfold FrameHeaderSize, wf_relay_frame, MaxRouteID, MaxFramePayloadSize, ProtocolVersion in *. simpl.
  pose proof (be_get_range (slice 1 9 data)) as R1. pose proof (be_get_range (slice 9 11 data)) as R2.
  set (n := be_get (slice 9 11 data)) in *.
  assert (Hd : (11 <= length data)%nat) by (unfold len in *; lia).
  assert (Hlen : length (drop 11 data) = Z.to_nat n) by (rewrite length_drop; unfold len in *; lia).
  pose proof (go_copy_at 0 [] (replicate (Z.to_nat n) x00) [] (drop 11 data)) as E.
  rewrite !app_nil_l, !app_nil_r in E. rewrite E by (rewrite ?length_replicate; done). clear E.
  assert (len (drop 11 data) = n) as Hln by (unfold len; lia).
  rewrite Hln. unfold ProtocolVersion, MaxRouteID, MaxFramePayloadSize. split_and!; try done; lia.
Qed.

(** A decoded frame is well formed and its bytes are the ones it was read from. *)
Lemma UnmarshalFrame_inv data f : UnmarshalFrame data = Ok f ->
  wf_relay_frame f /\ data = [x01] ++ be_put 8 (f_RouteID f) ++ be_put 2 (len (f_Payload f)) ++ f_Payload f.
Proof.
  intros (Hw & Hv & Hr & Hl & Hp & Hd)%UnmarshalFrame_parts. split; [done|].
  rewrite Hr, Hl, Hp, (be_put_get_n 8), (be_put_get_n 2) by (apply length_slice; lia).
  rewrite <- (take_drop 11 data) at 1. rewrite (app_assoc (slice 1 9 data)), <- (slice_split 1 9 11)
    by lia. rewrite app_assoc. f_equal.
  destruct data as [|b data]; [simpl in Hd; lia|]. simpl nth in Hv. simpl.
  f_equal. by apply b2z_inj.
Qed.

Lemma scan_ports_first {IP Conn} (listen : IP -> Z -> option Conn) ip port n conn :
  scan_ports listen ip port n = Some conn <->
  exists k, port <= k < port + Z.of_nat n /\ listen ip k = Some conn /\
    forall j, port <= j < k -> listen ip j = None.
Proof.
  revert port. induction n as [|n IH]; intros port; simpl.
  - split; [done|]. intros (k & ? & _). lia.
  - destruct (listen ip port) as [c|] eqn:E.
    + split.
      * intros [= ->]. exists port. split_and!; [lia..|done|]. lia.
      * intros (k & Hk & Hl & Hf). destruct (decide (k = port)) as [->|]; [congruence|].
        rewrite Hf in E by lia. done.
    + rewrite IH. split; intros (k & Hk & Hl & Hf); exists k.
      * split_and!; [lia..|done|]. intros j Hj. destruct (decide (j = port)) as [->|]; [done|].
        apply Hf. lia.
      * assert (k <> port) by (intros ->; congruence). split_and!; [lia..|done|].
        intros j Hj. apply Hf. lia.
Qed.

(** ** Properties *)

(** The relay frame codec is exact in both directions: every frame that can
    be encoded decodes to itself, and every byte string that decodes is the
    encoding of the frame it gives, so no two wire images carry one datagram
    and no trailing byte survives. *)
Theorem relay_frame_roundtrip :
  (forall f bs, 0 <= f_RouteID f -> MarshalFrame (Some f) = Ok bs -> UnmarshalFrame bs = Ok f) /\
  (forall bs f, UnmarshalFrame bs = Ok f -> MarshalFrame (Some f) = Ok bs).
Proof.
  split.
  - intros f bs Hr Hm. pose proof (MarshalFrame_wf _ _ Hm Hr) as Hw.
    rewrite MarshalFrame_bytes in Hm by done. apply Ok_inj in Hm as <-.
    destruct Hw as (Hv & ? & ?). rewrite UnmarshalFrame_bytes by lia.
    destruct f; simpl in *. by subst.
  - intros bs f [Hw Hb]%UnmarshalFrame_inv. by rewrite MarshalFrame_bytes, <- Hb.
Qed.

(** A configured port range gives a route the lowest free port of the
    range and fails only when the whole range is taken; but a range with only
    its lower end set passes the configuration check and can then never open a
    socket, whatever ports are free. *)
Theorem listenSocket_behaviour {IP Conn} (parse : string -> option IP)
    (listen : IP -> Z -> option Conn) (c : UDPConfig) (ip : IP) :
  parse (ListenAddress c) = Some ip -> UDPConfig_Validate c = Ok tt ->
  (0 < PortMin c <= PortMax c ->
   (forall conn, listenSocket parse listen c = Ok conn <->
      exists port, PortMin c <= port <= PortMax c /\ listen ip port = Some conn /\
        forall lower, PortMin c <= lower < port -> listen ip lower = None)) /\
  (0 < PortMin c -> PortMax c = 0 -> listenSocket parse listen c = Err NoFreePort).
Proof.
  intros Hp Hv. unfold listenSocket. rewrite Hp. split.
  - intros Hr conn. rewrite (proj2 (Z.eqb_neq (PortMin c) 0)) by lia. cbn [andb].
    pose proof (scan_ports_first listen ip (PortMin c) (Z.to_nat (PortMax c - PortMin c + 1)) conn)
      as Hs.
    assert (forall k, PortMin c <= k < PortMin c + Z.of_nat (Z.to_nat (PortMax c - PortMin c + 1))
              <-> PortMin c <= k <= PortMax c) as Hk by lia.
    setoid_rewrite Hk in Hs. rewrite <- Hs.
    destruct (scan_ports _ _ _ _); naive_solver.
  - intros H1 H2. rewrite (proj2 (Z.eqb_neq (PortMin c) 0)) by lia. cbn [andb].
    by replace (Z.to_nat (PortMax c - PortMin c + 1)) with 0%nat by lia.
Qed.

Definition sample_relay_frame : Frame :=
  {| f_Version := 1; f_RouteID := 7; f_Payload := bytes_of "wg" |}.

Lemma relay_frame_roundtrip_witness :
  UnmarshalFrame (be_put 1 1 ++ be_put 8 7 ++ be_put 2 2 ++ bytes_of "wg") = Ok sample_relay_frame.
Proof.
  apply (proj1 relay_frame_roundtrip); [simpl; lia|]. vm_compute. reflexivity.
Defined.

(** Ports from 4000 up to 4009, of which only 4002 is free; then the same with
    the upper end left at zero. *)
Definition sample_udp (hi : Z) : UDPConfig :=
  {| ListenAddress := "0.0.0.0"; PortMin := 4000; PortMax := hi; MaxPacketSize := 0;
     MaxQueueDepth := 0 |}.

Definition sample_listen (_ : unit) (port : Z) : option Z :=
  if port =? 4002 then Some port else None.

Lemma listenSocket_behaviour_witness :
  listenSocket (fun _ => Some tt) sample_listen (sample_udp 4009) = Ok 4002 /\
  listenSocket (fun _ => Some tt) sample_listen (sample_udp 0) = Err NoFreePort.
Proof.
  split.
  - apply (proj1 (listenSocket_behaviour (fun _ => Some tt) sample_listen (sample_udp 4009) tt
      ltac:(reflexivity) ltac:(reflexivity)) ltac:(simpl; lia)).
    exists 4002. split_and!; [simpl; lia..|reflexivity|]. simpl. intros lower H.
    unfold sample_listen. case_match; bool_props; [lia|done].
  - apply (listenSocket_behaviour (fun _ => Some tt) sample_listen (sample_udp 0) tt);
      [reflexivity|reflexivity|simpl; lia|reflexivity].
Defined.
