(* ===== verification/RelayRegistry.v ===== *)
(** * The relay's registry of registrations and routes

    Models [src/Core/Relay/registry.go].  Entries are shared through pointers
    in the source but every access holds [mu], so the registry is a value and
    each critical section a function on it.  [OpenRoute] and
    [SetRouteEndpoint] take the lock twice; their models receive the registry
    as seen under the read lock and the one found under the write lock.
    Iteration over a Go map has no fixed order: [ExpireStale] takes the order
    in which the runtime visits the registrations. *)
From S2P Require Import Prelude GoBytes.
From stdpp Require Import options.

Inductive RouteState :=
| RouteStateAllocated | RouteStateOpening | RouteStateOpen | RouteStateClosing | RouteStateClosed.

#[global] Instance RouteState_eq_dec : EqDecision RouteState.
Proof. solve_decision. Defined.

Inductive registry_error :=
| ErrRegistrationNotFound | ErrRegistrationExists | ErrRegistrationLimit
| ErrRouteNotFound | ErrTooManyRoutes | ErrRouteAlreadyExists | ErrRouteWrongOwner
| ErrRouteStateTransition | ErrRouteCredentialsInvalid.

Record RouteEntry := {
  re_RouteID : Z;
  re_State : RouteState;
  re_RegistrationID : string;
  re_Credentials : string;
  re_CreatedAt : time;
  re_UpdatedAt : time;
  re_Endpoint : string;
}.

Record RegistrationEntry := {
  rg_ID : string;
  rg_CreatedAt : time;
  rg_LastKeepalive : time;
  rg_routes : gset Z;
}.

Record Registry := {
  registrations : gmap string RegistrationEntry;
  routes : gmap Z RouteEntry;
  maxRegistrations : Z;
  maxRoutes : Z;
}.

Definition NewRegistry (maxRegistrations maxRoutes : Z) : Registry :=
  {| registrations := ∅; routes := ∅; maxRegistrations := maxRegistrations;
     maxRoutes := maxRoutes |}.

(** Field updates. *)
Definition put_registrations (r : Registry) m : Registry :=
  {| registrations := m; routes := routes r; maxRegistrations := maxRegistrations r;
     maxRoutes := maxRoutes r |}.
Definition put_routes (r : Registry) m : Registry :=
  {| registrations := registrations r; routes := m; maxRegistrations := maxRegistrations r;
     maxRoutes := maxRoutes r |}.
Definition put_reg_routes (g : RegistrationEntry) (s : gset Z) : RegistrationEntry :=
  {| rg_ID := rg_ID g; rg_CreatedAt := rg_CreatedAt g; rg_LastKeepalive := rg_LastKeepalive g;
     rg_routes := s |}.
Definition update_route (e : RouteEntry) (state : RouteState) (creds endpoint : string)
    (now : time) : RouteEntry :=
  {| re_RouteID := re_RouteID e; re_State := state; re_RegistrationID := re_RegistrationID e;
     re_Credentials := creds; re_CreatedAt := re_CreatedAt e; re_UpdatedAt := now;
     re_Endpoint := endpoint |}.

(** ** Registrations *)

Definition AddRegistration (r : Registry) (now : time) (id : string)
    : res registry_error Registry :=
  refuse bool_decide (is_Some (registrations r !! id)) with ErrRegistrationExists;
  refuse maxRegistrations r <=? Z.of_nat (size (registrations r)) with ErrRegistrationLimit;
  Ok (put_registrations r (<[id := {| rg_ID := id; rg_CreatedAt := now; rg_LastKeepalive := now;
                                      rg_routes := ∅ |}]> (registrations r))).

Definition RouteIDs (g : RegistrationEntry) : list Z := elements (rg_routes g).

Definition delete_routes (m : gmap Z RouteEntry) (ids : list Z) : gmap Z RouteEntry :=
  foldr delete m ids.

Definition RemoveRegistration (r : Registry) (id : string) : list Z * Registry :=
  match registrations r !! id with
  | None => ([], r)
  | Some reg =>
      let routeIDs := RouteIDs reg in
      (routeIDs, put_registrations (put_routes r (delete_routes (routes r) routeIDs))
                   (delete id (registrations r)))
  end.

Definition Registration (r : Registry) (id : string) : option RegistrationEntry :=
  registrations r !! id.

Definition Keepalive (r : Registry) (now : time) (id : string) : res registry_error Registry :=
  match registrations r !! id with
  | None => Err ErrRegistrationNotFound
  | Some reg =>
      Ok (put_registrations r
            (<[id := {| rg_ID := rg_ID reg; rg_CreatedAt := rg_CreatedAt reg;
                        rg_LastKeepalive := now; rg_routes := rg_routes reg |}]> (registrations r)))
  end.

(** ** Routes *)

Definition TouchRoute (r : Registry) (now : time) (routeID : Z) : res registry_error Registry :=
  match routes r !! routeID with
  | None => Err ErrRouteNotFound
  | Some e =>
      Ok (put_routes r (<[routeID := update_route e (re_State e) (re_Credentials e) (re_Endpoint e) now]>
                          (routes r)))
  end.

(** [rand.Read] supplies the 32 bytes, or fails. *)
Definition GenerateRouteCredentials (random : option (list byte)) : option string :=
  hex_encode <$> random.

(** [random] is what [rand.Read] gives for the 32 bytes of a token. *)
Definition AllocateRoute (r : Registry) (now : time) (random : option (list byte))
    (regID : string) (routeID : Z) : res registry_error (RouteEntry * Registry) :=
  match registrations r !! regID with
  | None => Err ErrRegistrationNotFound
  | Some reg =>
      refuse bool_decide (is_Some (routes r !! routeID)) with ErrRouteAlreadyExists;
      refuse maxRoutes r <=? Z.of_nat (size (routes r)) with ErrTooManyRoutes;
      match GenerateRouteCredentials random with
      | None => Err ErrRouteCredentialsInvalid
      | Some creds =>
          let entry := {| re_RouteID := routeID; re_State := RouteStateAllocated;
                          re_RegistrationID := regID; re_Credentials := creds;
                          re_CreatedAt := now; re_UpdatedAt := now; re_Endpoint := "" |} in
          Ok (entry, put_registrations (put_routes r (<[routeID := entry]> (routes r)))
                       (<[regID := put_reg_routes reg ({[routeID]} ∪ rg_routes reg)]>
                          (registrations r)))
      end
  end.

Definition getOwnedRoute (r : Registry) (regID : string) (routeID : Z)
    : res registry_error RouteEntry :=
  match routes r !! routeID with
  | None => Err ErrRouteNotFound
  | Some e => refuse negb (same_str (re_RegistrationID e) regID) with ErrRouteWrongOwner; Ok e
  end.

(** [seen] is the registry under the read lock, [r] the one under the write lock. *)
Definition OpenRoute (seen r : Registry) (now : time) (regID : string) (routeID : Z)
    : res registry_error (RouteEntry * Registry) :=
  try e0 <- getOwnedRoute seen regID routeID;
  match routes r !! routeID with
  | None => Err ErrRouteNotFound
  | Some e =>
      refuse negb (same_str (re_RegistrationID e) regID) with ErrRouteNotFound;
      match re_State e with
      | RouteStateAllocated =>
          let e' := update_route e RouteStateOpen (re_Credentials e) (re_Endpoint e) now in
          Ok (e', put_routes r (<[routeID := e']> (routes r)))
      | _ => Err ErrRouteStateTransition
      end
  end.

Definition SetRouteCredentials (r : Registry) (now : time) (regID : string) (routeID : Z)
    (creds : string) : res registry_error Registry :=
  match routes r !! routeID with
  | None => Err ErrRouteNotFound
  | Some e =>
      refuse negb (same_str (re_RegistrationID e) regID) with ErrRouteWrongOwner;
      Ok (put_routes r (<[routeID := update_route e (re_State e) creds (re_Endpoint e) now]> (routes r)))
  end.

Definition CloseRoute (r : Registry) (now : time) (regID : string) (routeID : Z)
    : res registry_error (RouteEntry * Registry) :=
  match routes r !! routeID with
  | None => Err ErrRouteNotFound
  | Some e =>
      refuse negb (same_str (re_RegistrationID e) regID) with ErrRouteWrongOwner;
      refuse bool_decide (re_State e = RouteStateClosed) with ErrRouteStateTransition;
      let cp := update_route e RouteStateClosed (re_Credentials e) (re_Endpoint e) now in
      let r1 := put_routes r (delete routeID (routes r)) in
      Ok (cp, match registrations r !! regID with
              | None => r1
              | Some reg =>
                  put_registrations r1
                    (<[regID := put_reg_routes reg (rg_routes reg ∖ {[routeID]})]> (registrations r))
              end)
  end.

Definition Route (r : Registry) (routeID : Z) : option RouteEntry := routes r !! routeID.

Definition RouteRegistration (r : Registry) (routeID : Z) : option string :=
  re_RegistrationID <$> routes r !! routeID.

Definition SetRouteEndpoint (seen r : Registry) (now : time) (regID : string) (routeID : Z)
    (endpoint : string) : res registry_error Registry :=
  try e0 <- getOwnedRoute seen regID routeID;
  match routes r !! routeID with
  | None => Err ErrRouteNotFound
  | Some e =>
      refuse negb (same_str (re_RegistrationID e) regID) with ErrRouteNotFound;
      Ok (put_routes r (<[routeID := update_route e (re_State e) (re_Credentials e) endpoint now]>
                          (routes r)))
  end.

Definition RouteCount (r : Registry) : Z := Z.of_nat (size (routes r)).
Definition RegistrationCount (r : Registry) : Z := Z.of_nat (size (registrations r)).

Definition RouteCredentialsFromEntry (r : Registry) (routeID : Z) : res registry_error string :=
  match routes r !! routeID with
  | None => Err ErrRouteNotFound
  | Some e => Ok (re_Credentials e)
  end.

(** ** Liveness *)

Record ExpireStaleResult := {
  StaleRoutes : list Z;
  ExpiredRegistrations : list string;
  RoutesExpiredViaReg : list Z;
}.

Definition AllExpiredRoutes (x : ExpireStaleResult) : list Z :=
  StaleRoutes x ++ RoutesExpiredViaReg x.

Definition exceeded (now t : time) (timeout : duration) : bool := timeout <? Sub now t.

(** The loop body for one registration. *)
Definition expire_one (now : time) (regTimeout routeTimeout : duration) (id : string)
    (acc : ExpireStaleResult * Registry) : ExpireStaleResult * Registry :=
  let '(x, r) := acc in
  match registrations r !! id with
  | None => acc
  | Some reg =>
      let stale := List.filter (fun rid =>
        match routes r !! rid with
        | None => false
        | Some e => exceeded now (re_UpdatedAt e) routeTimeout
        end) (RouteIDs reg) in
      let r1 := put_routes r (delete_routes (routes r) stale) in
      let reg1 := put_reg_routes reg (rg_routes reg ∖ list_to_set stale) in
      let staleAll := StaleRoutes x ++ stale in
      if exceeded now (rg_LastKeepalive reg) regTimeout then
        let remaining := RouteIDs reg1 in
        ({| StaleRoutes := staleAll;
            ExpiredRegistrations := ExpiredRegistrations x ++ [id];
            RoutesExpiredViaReg := RoutesExpiredViaReg x ++ remaining |},
         put_registrations (put_routes r1 (delete_routes (routes r1) remaining))
           (delete id (registrations r)))
      else
        ({| StaleRoutes := staleAll;
            ExpiredRegistrations := ExpiredRegistrations x;
            RoutesExpiredViaReg := RoutesExpiredViaReg x |},
         put_registrations r1 (<[id := reg1]> (registrations r)))
  end.

Definition ExpireStale (r : Registry) (now : time) (regTimeout routeTimeout : duration)
    (order : list string) : ExpireStaleResult * Registry :=
  fold_left (fun acc id => expire_one now regTimeout routeTimeout id acc) order
    ({| StaleRoutes := []; ExpiredRegistrations := []; RoutesExpiredViaReg := [] |}, r).

(** ** Invariant *)

Record registry_inv (r : Registry) : Prop := {
  ri_id : forall id g, registrations r !! id = Some g -> rg_ID g = id;
  ri_owner : forall rid e, routes r !! rid = Some e ->
    re_RouteID e = rid /\
    exists g, registrations r !! re_RegistrationID e = Some g /\ rid ∈ rg_routes g;
  ri_owned : forall id g rid, registrations r !! id = Some g -> rid ∈ rg_routes g ->
    exists e, routes r !! rid = Some e /\ re_RegistrationID e = id;
  ri_state : forall rid e, routes r !! rid = Some e ->
    re_State e = RouteStateAllocated \/ re_State e = RouteStateOpen;
  ri_regs : Z.of_nat (size (registrations r)) <= Z.max 0 (maxRegistrations r);
  ri_routes : Z.of_nat (size (routes r)) <= Z.max 0 (maxRoutes r);
}.

(** Everything that can happen to a registry, in any order. *)
Inductive registry_step : Registry -> Registry -> Prop :=
| rs_add r now id r' : AddRegistration r now id = Ok r' -> registry_step r r'
| rs_remove r id : registry_step r (RemoveRegistration r id).2
| rs_keepalive r now id r' : Keepalive r now id = Ok r' -> registry_step r r'
| rs_touch r now rid r' : TouchRoute r now rid = Ok r' -> registry_step r r'
| rs_allocate r now random id rid e r' :
    AllocateRoute r now random id rid = Ok (e, r') -> registry_step r r'
| rs_open seen r now id rid e r' : OpenRoute seen r now id rid = Ok (e, r') -> registry_step r r'
| rs_creds r now id rid c r' : SetRouteCredentials r now id rid c = Ok r' -> registry_step r r'
| rs_close r now id rid e r' : CloseRoute r now id rid = Ok (e, r') -> registry_step r r'
| rs_endpoint seen r now id rid ep r' :
    SetRouteEndpoint seen r now id rid ep = Ok r' -> registry_step r r'
| rs_expire r now t1 t2 order :
    order ≡ₚ (map_to_list (registrations r)).*1 -> registry_step r (ExpireStale r now t1 t2 order).2.

(** ** Lemmas *)

Lemma lookup_delete_routes m ids rid :
  delete_routes m ids !! rid = if decide (rid ∈ ids) then None else m !! rid.
Proof.
  unfold delete_routes. induction ids as [|i ids IH]; [done|].
  simpl foldr.
  destruct (decide (i = rid)) as [->|Hne].
  - rewrite lookup_delete_eq, decide_True by set_solver. done.
  - rewrite lookup_delete_ne, IH by done. destruct (decide (rid ∈ ids)).
    + by rewrite decide_True by set_solver.
    + by rewrite decide_False by set_solver.
Qed.

Lemma delete_routes_size m ids : (size (delete_routes m ids) <= size m)%nat.
Proof.
  apply map_subseteq_size. apply map_subseteq_spec. intros rid e.
  rewrite lookup_delete_routes. by case_decide.
Qed.

(** Which registration a route belongs to is the same question asked from
    either side. *)
Lemma owned_iff r id g rid :
  registry_inv r -> registrations r !! id = Some g ->
  rid ∈ rg_routes g <-> exists e, routes r !! rid = Some e /\ re_RegistrationID e = id.
Proof.
  intros Hi Hg. split; [by apply ri_owned|].
  intros (e & He & <-). destruct (ri_owner _ Hi _ _ He) as [_ (g' & Hg' & ?)]. by simplify_eq.
Qed.

(** Rewriting a route in place. *)
Lemma put_route_inv r rid e e' :
  registry_inv r -> routes r !! rid = Some e ->
  re_RouteID e' = re_RouteID e -> re_RegistrationID e' = re_RegistrationID e ->
  (re_State e' = RouteStateAllocated \/ re_State e' = RouteStateOpen) ->
  registry_inv (put_routes r (<[rid := e']> (routes r))).
Proof.
  intros [Hid Ho Hd Hs Hn1 Hn2] He E1 E2 E3. split; simpl; try done.
  - intros rid' e0. rewrite lookup_insert_Some. intros [[<- <-]|[_ H0]]; [|by apply Ho].
    rewrite E1, E2. by apply Ho.
  - intros id g rid' Hg Hin. destruct (Hd _ _ _ Hg Hin) as (e0 & H0 & <-).
    destruct (decide (rid = rid')) as [<-|].
    + exists e'. rewrite lookup_insert_eq. simplify_eq. done.
    + exists e0. by rewrite lookup_insert_ne.
  - intros rid' e0. rewrite lookup_insert_Some. intros [[<- <-]|[_ H0]]; [done|by eapply Hs].
  - rewrite map_size_insert_Some by eauto. done.
Qed.

(** Changing a registration without touching its routes. *)
Lemma put_registration_inv r id g g' :
  registry_inv r -> registrations r !! id = Some g -> rg_ID g' = rg_ID g ->
  rg_routes g' = rg_routes g -> registry_inv (put_registrations r (<[id := g']> (registrations r))).
Proof.
  intros [Hid Ho Hd Hs Hn1 Hn2] Hg E1 E2. split; simpl; try done.
  - intros id' g0. rewrite lookup_insert_Some. intros [[<- <-]|[_ H0]]; [rewrite E1|]; by apply Hid.
  - intros rid e He. destruct (Ho _ _ He) as [? (g0 & H0 & Hin)]. split; [done|].
    destruct (decide (id = re_RegistrationID e)) as [->|].
    + exists g'. rewrite lookup_insert_eq. simplify_eq. by rewrite E2.
    + exists g0. by rewrite lookup_insert_ne.
  - intros id' g0 rid. rewrite lookup_insert_Some.
    intros [[<- <-]|[_ H0]]; [rewrite E2|]; by apply Hd.
  - rewrite map_size_insert_Some by eauto. done.
Qed.

(** Dropping the routes [gone] of registration [id], and the registration
    itself when [keep] is false. *)
Definition drop_routes (r : Registry) (id : string) (reg : RegistrationEntry) (gone : list Z)
    (keep : bool) : Registry :=
  {| registrations :=
       if keep then <[id := put_reg_routes reg (rg_routes reg ∖ list_to_set gone)]> (registrations r)
       else delete id (registrations r);
     routes := delete_routes (routes r) gone;
     maxRegistrations := maxRegistrations r;
     maxRoutes := maxRoutes r |}.

Lemma drop_routes_inv r id reg gone keep :
  registry_inv r -> registrations r !! id = Some reg ->
  (forall rid, rid ∈ gone -> rid ∈ rg_routes reg) ->
  (keep = false -> forall rid, rid ∈ rg_routes reg -> rid ∈ gone) ->
  registry_inv (drop_routes r id reg gone keep).
Proof.
  intros Hi Hreg Hsub Hall. pose proof Hi as [Hid Ho Hd Hs Hn1 Hn2].
  assert (Hlook : forall j, registrations (drop_routes r id reg gone keep) !! j =
    if decide (j = id) then
      (if keep then Some (put_reg_routes reg (rg_routes reg ∖ list_to_set gone)) else None)
    else registrations r !! j).
  { intros j. simpl. case_decide as Hj; [subst|]; destruct keep;
      by rewrite ?lookup_insert_eq, ?lookup_delete_eq, ?lookup_insert_ne, ?lookup_delete_ne. }
  assert (Hr : forall rid e, routes (drop_routes r id reg gone keep) !! rid = Some e <->
    rid ∉ gone /\ routes r !! rid = Some e).
  { intros rid e. simpl. rewrite lookup_delete_routes. case_decide; naive_solver. }
  split.
  - intros j g. rewrite Hlook. case_decide; [subst|apply Hid].
    destruct keep; [|done]. intros [= <-]. by apply (Hid id reg).
  - intros rid e [Hng He]%Hr. destruct (Ho _ _ He) as [? (g & Hg & Hin)]. split; [done|].
    rewrite Hlook. case_decide as Hj; [|by eauto]. rewrite Hj in Hg. simplify_eq.
    destruct keep; [|by exfalso; apply Hng, Hall].
    eexists. split; [done|]. simpl. set_solver.
  - intros j g rid. rewrite Hlook. setoid_rewrite Hr. case_decide as Hj.
    + destruct keep; [|done]. subst. intros [= <-]. simpl. intros Hin.
      destruct (Hd id reg rid) as (e & ? & ?); [done|set_solver|]. exists e. set_solver.
    + intros Hg Hin. destruct (Hd _ _ _ Hg Hin) as (e & He & Ho'). exists e. split_and!; try done.
      intros Hgone%Hsub. destruct (Hd _ _ _ Hreg Hgone) as (e' & ? & ?). by simplify_eq.
  - intros rid e [_ He]%Hr. by eapply Hs.
  - simpl. destruct keep; [rewrite map_size_insert_Some by eauto; done|].
    rewrite map_size_delete, Hreg. simpl. lia.
  - simpl. pose proof (delete_routes_size (routes r) gone). lia.
Qed.

Definition stale_owner (r : Registry) (now : time) (regTimeout : duration) (id : string) : bool :=
  match registrations r !! id with
  | Some g => exceeded now (rg_LastKeepalive g) regTimeout
  | None => false
  end.

(** The routes one iteration removes on their own account, and the routes it
    removes along with their registration. *)
Definition stale_of (r : Registry) (now : time) (routeTimeout : duration)
    (reg : RegistrationEntry) : list Z :=
  List.filter (fun rid => match routes r !! rid with
                          | None => false
                          | Some e => exceeded now (re_UpdatedAt e) routeTimeout
                          end) (RouteIDs reg).

Definition rest_of (r : Registry) (now : time) (regTimeout routeTimeout : duration)
    (reg : RegistrationEntry) : list Z :=
  if exceeded now (rg_LastKeepalive reg) regTimeout
  then elements (rg_routes reg ∖ list_to_set (stale_of r now routeTimeout reg)) else [].

Lemma delete_routes_app m l k : delete_routes (delete_routes m l) k = delete_routes m (l ++ k).
Proof.
  apply map_eq. intros rid. rewrite !lookup_delete_routes.
  destruct (decide (rid ∈ l ++ k)) as [H|H]; rewrite elem_of_app in H;
    repeat case_decide; naive_solver.
Qed.

Lemma expire_one_drop now t1 t2 id x r reg :
  registrations r !! id = Some reg ->
  expire_one now t1 t2 id (x, r) =
  ({| StaleRoutes := StaleRoutes x ++ stale_of r now t2 reg;
      ExpiredRegistrations := ExpiredRegistrations x ++
        (if exceeded now (rg_LastKeepalive reg) t1 then [id] else []);
      RoutesExpiredViaReg := RoutesExpiredViaReg x ++ rest_of r now t1 t2 reg |},
   drop_routes r id reg (stale_of r now t2 reg ++ rest_of r now t1 t2 reg)
     (negb (exceeded now (rg_LastKeepalive reg) t1))).
Proof.
  intros Hreg. unfold expire_one, rest_of, drop_routes. rewrite Hreg.
  change (List.filter _ (RouteIDs reg)) with (stale_of r now t2 reg).
  destruct (exceeded now (rg_LastKeepalive reg) t1); simpl.
  - unfold put_registrations, put_routes. simpl. by rewrite delete_routes_app.
  - by rewrite !app_nil_r.
Qed.

Lemma elem_of_stale_of r now t2 reg rid :
  rid ∈ stale_of r now t2 reg <-> rid ∈ rg_routes reg /\
    exists e, routes r !! rid = Some e /\ exceeded now (re_UpdatedAt e) t2 = true.
Proof.
  unfold stale_of, RouteIDs. rewrite <- elem_of_elements, !list_elem_of_In, filter_In.
  destruct (routes r !! rid); naive_solver.
Qed.

Lemma elem_of_rest_of r now t1 t2 reg rid :
  rid ∈ rest_of r now t1 t2 reg <->
  exceeded now (rg_LastKeepalive reg) t1 = true /\ rid ∈ rg_routes reg /\
  rid ∉ stale_of r now t2 reg.
Proof.
  unfold rest_of. case_match eqn:E; [|set_solver].
  rewrite elem_of_elements, elem_of_difference, elem_of_list_to_set. naive_solver.
Qed.

(** What expiring the registrations of [order] does, read off the registry it
    started from. *)
Record expired (now : time) (t1 t2 : duration) (r : Registry) (x : ExpireStaleResult)
    (order : list string) (x' : ExpireStaleResult) (r' : Registry) : Prop := {
  ex_inv : registry_inv r';
  ex_limits : maxRegistrations r' = maxRegistrations r /\ maxRoutes r' = maxRoutes r;
  ex_routes : forall rid e, routes r' !! rid = Some e <-> routes r !! rid = Some e /\
    ~ (re_RegistrationID e ∈ order /\ (exceeded now (re_UpdatedAt e) t2 = true \/
        stale_owner r now t1 (re_RegistrationID e) = true));
  ex_regs : forall id, is_Some (registrations r' !! id) <-> is_Some (registrations r !! id) /\
    ~ (id ∈ order /\ stale_owner r now t1 id = true);
  ex_keep : forall id g', registrations r' !! id = Some g' -> exists g,
    registrations r !! id = Some g /\ g' = put_reg_routes g (rg_routes g');
  ex_stale : forall rid, rid ∈ StaleRoutes x' <-> rid ∈ StaleRoutes x \/
    exists e, routes r !! rid = Some e /\ re_RegistrationID e ∈ order /\
      exceeded now (re_UpdatedAt e) t2 = true;
  ex_via : forall rid, rid ∈ RoutesExpiredViaReg x' <-> rid ∈ RoutesExpiredViaReg x \/
    exists e, routes r !! rid = Some e /\ re_RegistrationID e ∈ order /\
      exceeded now (re_UpdatedAt e) t2 = false /\
      stale_owner r now t1 (re_RegistrationID e) = true;
  ex_ids : forall id, id ∈ ExpiredRegistrations x' <-> id ∈ ExpiredRegistrations x \/
    (id ∈ order /\ stale_owner r now t1 id = true);
}.

Lemma expire_one_inv now t1 t2 id x r reg :
  registry_inv r -> registrations r !! id = Some reg ->
  registry_inv (expire_one now t1 t2 id (x, r)).2.
Proof.
  intros Hi Hreg. rewrite (expire_one_drop _ _ _ _ _ _ reg) by done. simpl.
  apply drop_routes_inv; [done|done| |].
  - intros rid. rewrite elem_of_app, elem_of_rest_of, elem_of_stale_of. naive_solver.
  - intros Hk%negb_false_iff rid Hin. rewrite elem_of_app, elem_of_rest_of.
    destruct (decide (rid ∈ stale_of r now t2 reg)); naive_solver.
Qed.

Lemma not_exceeded b : b <> true <-> b = false.
Proof. destruct b; split; congruence. Qed.

Lemma expire_one_spec now t1 t2 id x r reg :
  registry_inv r -> registrations r !! id = Some reg ->
  expired now t1 t2 r x [id] (expire_one now t1 t2 id (x, r)).1 (expire_one now t1 t2 id (x, r)).2.
Proof.
  intros Hi Hreg. pose proof (expire_one_inv now t1 t2 id x r reg Hi Hreg) as Hi'.
  pose proof (expire_one_drop now t1 t2 id x r reg Hreg) as E. rewrite E in *.
  pose proof (fun rid => owned_iff r id reg rid Hi Hreg) as Hown.
  assert (Hso : stale_owner r now t1 id = exceeded now (rg_LastKeepalive reg) t1)
    by (unfold stale_owner; by rewrite Hreg).
  split; [done|done|..]; simpl.
  - intros rid e. rewrite lookup_delete_routes, list_elem_of_singleton.
    pose proof (elem_of_stale_of r now t2 reg rid) as H1. pose proof (Hown rid) as H2.
    case_decide as Hin; rewrite elem_of_app, elem_of_rest_of in Hin.
    + split; [done|]. intros [He Hn]. exfalso. apply Hn.
      assert (re_RegistrationID e = id) as <- by naive_solver.
      split; [done|]. rewrite Hso. destruct Hin as [Hin|Hin]; [left|right]; naive_solver.
    + split; [|naive_solver]. intros He. split; [done|]. intros [<- [Hx|Hx]].
      * apply Hin. left. naive_solver.
      * rewrite Hso in Hx. destruct (decide (rid ∈ stale_of r now t2 reg)); naive_solver.
  - intros j. rewrite list_elem_of_singleton. destruct (decide (j = id)) as [->|Hne].
    + rewrite Hso, Hreg. destruct (exceeded _ _ _); simpl;
        rewrite ?lookup_insert_eq, ?lookup_delete_eq; split; intros H; naive_solver.
    + destruct (exceeded _ _ _); simpl; rewrite ?lookup_insert_ne, ?lookup_delete_ne by done;
        naive_solver.
  - intros j g'. destruct (decide (j = id)) as [->|Hne].
    + destruct (exceeded _ _ _); simpl; rewrite ?lookup_insert_eq, ?lookup_delete_eq; [done|].
      intros [= <-]. eauto.
    + destruct (exceeded _ _ _); simpl; rewrite ?lookup_insert_ne, ?lookup_delete_ne by done;
        intros Hg; exists g'; by destruct g'.
  - intros rid. rewrite elem_of_app, elem_of_stale_of, Hown. setoid_rewrite list_elem_of_singleton.
    naive_solver.
  - intros rid. rewrite elem_of_app, elem_of_rest_of, elem_of_stale_of, Hown.
    setoid_rewrite list_elem_of_singleton. f_equiv. split.
    + intros (Hx & (e & He & Ho) & Hn). exists e. rewrite Ho, Hso. split_and!; try done.
      apply not_exceeded. naive_solver.
    + intros (e & He & Ho & Hf & Hx). rewrite Ho, Hso in Hx. split_and!; [done|by eauto|].
      intros [_ (e' & He' & Ht)]. naive_solver congruence.
  - intros j. rewrite elem_of_app, list_elem_of_singleton.
    destruct (exceeded _ _ _) eqn:Hx.
    + rewrite list_elem_of_singleton. split; [intros [H | ->]; auto|].
      intros [H | [-> _]]; auto.
    + split; [intros [H | H%elem_of_nil]; [auto|done]|].
      intros [H | [-> ?]]; [auto|congruence].
Qed.

Lemma expired_owner now t1 t2 r x order x' r' j :
  expired now t1 t2 r x order x' r' -> j ∉ order ->
  stale_owner r' now t1 j = stale_owner r now t1 j.
Proof.
  intros Hx Hj. unfold stale_owner.
  destruct (registrations r' !! j) as [g'|] eqn:E'.
  - destruct (ex_keep _ _ _ _ _ _ _ _ Hx _ _ E') as (g & -> & ->). done.
  - destruct (registrations r !! j) as [g|] eqn:E; [|done].
    assert (is_Some (registrations r' !! j)) as [? ?]; [|congruence].
    apply (ex_regs _ _ _ _ _ _ _ _ Hx). rewrite E. naive_solver.
Qed.

Lemma expired_trans now t1 t2 r x id x1 r1 rest x' r' :
  expired now t1 t2 r x [id] x1 r1 -> expired now t1 t2 r1 x1 rest x' r' -> id ∉ rest ->
  expired now t1 t2 r x (id :: rest) x' r'.
Proof.
  intros H1 H2 Hid.
  assert (Hso : forall j, j ∈ rest -> stale_owner r1 now t1 j = stale_owner r now t1 j).
  { intros j Hj. eapply expired_owner; [done|]. rewrite list_elem_of_singleton. naive_solver. }
  destruct H1 as [A1 A2 A3 A4 A5 A6 A7 A8], H2 as [B1 B2 B3 B4 B5 B6 B7 B8].
  setoid_rewrite list_elem_of_singleton in A3. setoid_rewrite list_elem_of_singleton in A4.
  setoid_rewrite list_elem_of_singleton in A6. setoid_rewrite list_elem_of_singleton in A7.
  setoid_rewrite list_elem_of_singleton in A8.
  split; [done|naive_solver congruence|..].
  - intros rid e. rewrite B3, A3, elem_of_cons. split.
    + intros [[He H1] H2]. split; [done|]. intros [[Ho|Ho] Hx]; [naive_solver|].
      apply H2. split; [done|]. by rewrite Hso.
    + intros [He Hn]. split_and!; [done|naive_solver|]. intros [Ho Hx]. rewrite Hso in Hx by done.
      naive_solver.
  - intros j. rewrite B4, A4, elem_of_cons. split.
    + intros [[He H1] H2]. split; [done|]. intros [[Ho|Ho] Hx]; [naive_solver|].
      apply H2. split; [done|]. by rewrite Hso.
    + intros [He Hn]. split_and!; [done|naive_solver|]. intros [Ho Hx]. rewrite Hso in Hx by done.
      naive_solver.
  - intros j g' (g1 & Hg1 & E1)%B5. destruct (A5 _ _ Hg1) as (g & Hg & E). exists g.
    split; [done|]. rewrite E1, E. done.
  - intros rid. rewrite B6, A6. setoid_rewrite elem_of_cons. setoid_rewrite A3. split.
    + clear -Hso. intros [[?|(e & ? & ? & ?)]|(e & [? _] & ? & ?)]; [by left|right; eauto 7..].
    + intros [?|(e & He & [Ho|Ho] & Hx)]; [naive_solver..|].
      right. exists e. split_and!; try done. intros [<- _]. done.
  - intros rid. rewrite B7, A7. setoid_rewrite elem_of_cons. setoid_rewrite A3. split.
    + intros [[?|(e & ? & ? & ? & ?)]|(e & [He Hn] & Ho & Hf & Hx)]; [by left|right; eauto 8|].
      right. exists e. rewrite Hso in Hx by done. auto.
    + intros [?|(e & He & [Ho|Ho] & Hf & Hx)]; [by left; left|left; right; eauto 8|].
      right. exists e. rewrite Hso by done. split_and!; try done. intros [<- _]. done.
  - intros j. rewrite B8, A8, elem_of_cons. split.
    + intros [[?|?]|[Hj Hx]]; [naive_solver..|]. rewrite Hso in Hx by done. naive_solver.
    + intros [?|[[Hj|Hj] Hx]]; [naive_solver..|]. rewrite Hso by done. naive_solver.
Qed.

Lemma expire_fold now t1 t2 order x r :
  registry_inv r -> NoDup order -> (forall id, id ∈ order -> is_Some (registrations r !! id)) ->
  let out := fold_left (fun acc id => expire_one now t1 t2 id acc) order (x, r) in
  expired now t1 t2 r x order out.1 out.2.
Proof.
  revert x r. induction order as [|id rest IH]; intros x r Hi Hnd Hin; cbn [fold_left].
  { split; simpl; try done; try set_solver.
    intros id g Hg. exists g. by destruct g. }
  apply NoDup_cons in Hnd as [Hnin Hnd].
  destruct (Hin id) as [reg Hreg]; [set_solver|].
  pose proof (expire_one_spec now t1 t2 id x r reg Hi Hreg) as H1.
  destruct (expire_one now t1 t2 id (x, r)) as [x1 r1]. simpl in H1.
  eapply expired_trans; [exact H1| |done].
  apply IH; [by eapply ex_inv|done|].
  intros j Hj. apply (ex_regs _ _ _ _ _ _ _ _ H1). split; [apply Hin; set_solver|].
  rewrite list_elem_of_singleton. naive_solver.
Qed.

Lemma ExpireStale_expired r now t1 t2 order :
  registry_inv r -> order ≡ₚ (map_to_list (registrations r)).*1 ->
  expired now t1 t2 r {| StaleRoutes := []; ExpiredRegistrations := []; RoutesExpiredViaReg := [] |}
    order (ExpireStale r now t1 t2 order).1 (ExpireStale r now t1 t2 order).2.
Proof.
  intros Hi Hp. apply expire_fold; [done| |].
  - rewrite Hp. apply NoDup_fst_map_to_list.
  - intros id. rewrite Hp, list_elem_of_fmap. intros ([i g] & -> & H%elem_of_map_to_list). eauto.
Qed.

Lemma order_complete r order rid e :
  registry_inv r -> order ≡ₚ (map_to_list (registrations r)).*1 ->
  routes r !! rid = Some e -> re_RegistrationID e ∈ order.
Proof.
  intros Hi Hp He. destruct (ri_owner _ Hi _ _ He) as [_ (g & Hg & _)].
  rewrite Hp, list_elem_of_fmap. exists (re_RegistrationID e, g). by rewrite elem_of_map_to_list.
Qed.

Lemma allocate_inv r now random id rid e r' :
  registry_inv r -> AllocateRoute r now random id rid = Ok (e, r') -> registry_inv r'.
Proof.
  intros [Hid Ho Hd Hs Hn1 Hn2]. unfold AllocateRoute.
  destruct (registrations r !! id) as [g|] eqn:Hg; [|done].
  case_bool_decide as Hex; [done|]. destruct (_ <=? _) eqn:Hmax; [done|]. bool_props.
  destruct (GenerateRouteCredentials random) as [creds|]; [|done]. intros [= <- <-].
  apply eq_None_not_Some in Hex. split; simpl.
  - intros j g0. rewrite lookup_insert_Some. intros [[<- <-]|[_ H0]]; [|by apply Hid].
    by apply (Hid id g).
  - intros rid' e0. rewrite lookup_insert_Some. intros [[<- <-]|[Hne H0]]; simpl.
    + split; [done|]. eexists. rewrite lookup_insert_eq. split; [done|]. simpl. set_solver.
    + destruct (Ho _ _ H0) as [? (g0 & Hg0 & Hin)]. split; [done|].
      destruct (decide (id = re_RegistrationID e0)) as [->|].
      * eexists. rewrite lookup_insert_eq. split; [done|]. simplify_eq. simpl. set_solver.
      * exists g0. by rewrite lookup_insert_ne.
  - intros j g0 rid'. rewrite lookup_insert_Some.
    assert (Hold : forall k g0, registrations r !! k = Some g0 -> rid' ∈ rg_routes g0 ->
      exists e, <[rid := {| re_RouteID := rid; re_State := RouteStateAllocated;
        re_RegistrationID := id; re_Credentials := creds; re_CreatedAt := now;
        re_UpdatedAt := now; re_Endpoint := "" |}]> (routes r) !! rid' = Some e /\
        re_RegistrationID e = k).
    { intros k g1 Hk Hin. destruct (Hd _ _ _ Hk Hin) as (e1 & He1 & Hr). exists e1.
      rewrite lookup_insert_ne by congruence. done. }
    intros [[<- <-]|[Hne H0]]; simpl; [|by eauto].
    rewrite elem_of_union, elem_of_singleton. intros [->|Hin]; [|by eauto].
    eexists. by rewrite lookup_insert_eq.
  - intros rid' e0. rewrite lookup_insert_Some. intros [[<- <-]|[_ H0]]; [by left|by eapply Hs].
  - rewrite map_size_insert_Some by eauto. done.
  - rewrite map_size_insert_None by done. lia.
Qed.

Lemma registry_step_inv r r' : registry_step r r' -> registry_inv r -> registry_inv r'.
Proof.
  intros Hst Hi. pose proof Hi as [Hid Ho Hd Hs Hn1 Hn2]. destruct Hst.
  - unfold AddRegistration in H. case_bool_decide as Hex; [done|]. branches. bool_props.
    apply eq_None_not_Some in Hex. split; simpl; try done.
    + intros j g. rewrite lookup_insert_Some. naive_solver.
    + intros rid e He. destruct (Ho _ _ He) as [? (g & Hg & Hin)]. split; [done|].
      exists g. rewrite lookup_insert_ne; [done|]. congruence.
    + intros j g rid. rewrite lookup_insert_Some. intros [[<- <-]|[_ ?]]; [set_solver|by eauto].
    + rewrite map_size_insert_None by done. lia.
  - unfold RemoveRegistration. destruct (registrations r !! id) as [g|] eqn:Hg; [|done]. simpl.
    apply (drop_routes_inv r id g (RouteIDs g) false); try done; unfold RouteIDs; set_solver.
  - unfold Keepalive in H. branches. by eapply put_registration_inv.
  - unfold TouchRoute in H. branches. eapply put_route_inv; eauto. simpl. by eapply Hs.
  - by eapply allocate_inv.
  - unfold OpenRoute, res_bind in H. branches. eapply put_route_inv; eauto.
  - unfold SetRouteCredentials in H. branches. eapply put_route_inv; eauto. simpl. by eapply Hs.
  - unfold CloseRoute in H. destruct (routes r !! rid) as [e0|] eqn:He; [|done].
    destruct (negb _) eqn:Hown; [done|]. case_bool_decide; [done|]. bool_props.
    apply same_str_true in Hown. subst. destruct (Ho _ _ He) as [_ (g & Hg & Hin)].
    rewrite Hg in H. simplify_eq.
    pose proof (drop_routes_inv r (re_RegistrationID e0) g [rid] true Hi Hg) as Hd'.
    unfold drop_routes in Hd'. simpl in Hd'. rewrite union_empty_r_L in Hd'. apply Hd'; set_solver.
  - unfold SetRouteEndpoint, res_bind in H. branches. eapply put_route_inv; eauto. simpl. by eapply Hs.
  - by eapply ex_inv, ExpireStale_expired.
Qed.

Lemma registry_step_limits r r' :
  registry_step r r' -> registry_inv r ->
  maxRegistrations r' = maxRegistrations r /\ maxRoutes r' = maxRoutes r.
Proof.
  intros Hst Hi. destruct Hst;
    unfold AddRegistration, RemoveRegistration, Keepalive, TouchRoute, AllocateRoute, OpenRoute,
      SetRouteCredentials, CloseRoute, SetRouteEndpoint, res_bind in *;
    try (repeat case_match; by simplify_eq).
  by eapply ex_limits, ExpireStale_expired.
Qed.

Lemma NewRegistry_inv n m : registry_inv (NewRegistry n m).
Proof. split; simpl; try done; set_solver || (rewrite map_size_empty; lia). Qed.

(** What a registration can do to the registry by itself. *)
Inductive owner_op (id : string) : Registry -> Registry -> Prop :=
| op_allocate r now random rid e r' :
    AllocateRoute r now random id rid = Ok (e, r') -> owner_op id r r'
| op_open seen r now rid e r' : OpenRoute seen r now id rid = Ok (e, r') -> owner_op id r r'
| op_creds r now rid c r' : SetRouteCredentials r now id rid c = Ok r' -> owner_op id r r'
| op_endpoint seen r now rid ep r' : SetRouteEndpoint seen r now id rid ep = Ok r' -> owner_op id r r'
| op_close r now rid e r' : CloseRoute r now id rid = Ok (e, r') -> owner_op id r r'
| op_keepalive r now r' : Keepalive r now id = Ok r' -> owner_op id r r'
| op_remove r : owner_op id r (RemoveRegistration r id).2.

#[export] Instance registry_preserves : Preserves registry_step registry_inv.
Proof. exact registry_step_inv. Qed.

Lemma registry_reachable_inv n m r : rtc registry_step (NewRegistry n m) r -> registry_inv r.
Proof. intros Hr. apply (reachable_keeps registry_inv _ _ Hr), NewRegistry_inv. Qed.

(** The configured maxima never change. *)
Lemma registry_reachable_limits n m r : rtc registry_step (NewRegistry n m) r ->
  maxRegistrations r = n /\ maxRoutes r = m.
Proof.
  intros Hr.
  assert (Preserves registry_step (fun r => registry_inv r /\
            (maxRegistrations r = n /\ maxRoutes r = m))).
  { apply preserves_and; [apply _|]. intros s s' Hst Hi [<- <-]. by apply registry_step_limits. }
  apply (reachable_keeps (fun r => registry_inv r /\ (maxRegistrations r = n /\ maxRoutes r = m)) _ _ Hr).
  split; [apply NewRegistry_inv|done].
Qed.

(** ** Properties *)

(** C14: in every registry that can arise, registrations and routes agree: the
    configured limits hold, every route is listed by exactly the registration
    it names, and every listed route exists, belongs to its lister and is
    either allocated or open.  [n] and [m] are the configured maxima. *)
Theorem registry_consistent n m r :
  0 <= n -> 0 <= m -> rtc registry_step (NewRegistry n m) r ->
  RegistrationCount r <= n /\ RouteCount r <= m /\
  (forall rid id, RouteRegistration r rid = Some id <->
     exists g, Registration r id = Some g /\ rid ∈ rg_routes g) /\
  (forall rid e, Route r rid = Some e ->
     re_RouteID e = rid /\ (re_State e = RouteStateAllocated \/ re_State e = RouteStateOpen)).
Proof.
  intros Hn Hm Hr.
  pose proof (registry_reachable_inv _ _ _ Hr) as Hi.
  destruct (registry_reachable_limits _ _ _ Hr) as [<- <-].
  destruct (Hi) as [Hid Ho Hd Hs Hn1 Hn2].
  unfold RegistrationCount, RouteCount, RouteRegistration, Registration, Route.
  split_and!; [lia..| |].
  - intros rid id. rewrite fmap_Some. split.
    + intros (e & He & ->). destruct (Ho _ _ He) as [_ H]. done.
    + intros (g & Hg & Hin). destruct (Hd _ _ _ Hg Hin) as (e & He & <-). eauto.
  - intros rid e He. destruct (Ho _ _ He). eauto.
Qed.

(** Registrations are isolated.  Nothing a registration can do, including
    leaving, changes or removes a route of another registration, whatever
    happened between the two locks of a two-phase operation. *)
Theorem registry_isolation r id r' rid e :
  registry_inv r -> owner_op id r r' -> routes r !! rid = Some e -> re_RegistrationID e <> id ->
  routes r' !! rid = Some e.
Proof.
  intros Hi Hop He Hne. destruct Hop.
  - unfold AllocateRoute in H. branches. rewrite lookup_insert_ne; [done|].
    case_bool_decide; [done|]. intros ->. eauto.
  - unfold OpenRoute, res_bind in H. branches. bool_props. rewrite same_str_true in *.
    rewrite lookup_insert_ne; [done|]. naive_solver.
  - unfold SetRouteCredentials in H. branches. bool_props. rewrite same_str_true in *.
    rewrite lookup_insert_ne; [done|]. naive_solver.
  - unfold SetRouteEndpoint, res_bind in H. branches. bool_props. rewrite same_str_true in *.
    rewrite lookup_insert_ne; [done|]. naive_solver.
  - unfold CloseRoute in H.
    destruct (routes r !! rid0) as [e1|] eqn:He1; [|done].
    destruct (negb _) eqn:Hown; [done|]. bool_props. rewrite same_str_true in *.
    assert (rid0 <> rid) by naive_solver.
    repeat case_match; simplify_eq/=; by rewrite lookup_delete_ne.
  - unfold Keepalive in H. by branches.
  - unfold RemoveRegistration. destruct (registrations r !! id) as [g|] eqn:Hg; [|done]. simpl.
    rewrite lookup_delete_routes. case_decide as Hin; [|done].
    unfold RouteIDs in Hin. rewrite elem_of_elements, (owned_iff r id g rid Hi Hg) in Hin.
    naive_solver.
Qed.

(** The liveness sweep does what its contract says, in whatever order the
    runtime visits the registrations: a route survives exactly when neither it
    nor its registration has timed out, a registration survives exactly when
    it has not timed out, the two lists of expired routes tell apart the
    routes that timed out on their own from those lost with their
    registration, and the registry stays consistent. *)
Theorem ExpireStale_spec r now regTimeout routeTimeout order :
  registry_inv r -> order ≡ₚ (map_to_list (registrations r)).*1 ->
  let x := (ExpireStale r now regTimeout routeTimeout order).1 in
  let r' := (ExpireStale r now regTimeout routeTimeout order).2 in
  let late e := exceeded now (re_UpdatedAt e) routeTimeout in
  let gone e := stale_owner r now regTimeout (re_RegistrationID e) in
  registry_inv r' /\
  (forall rid e, routes r' !! rid = Some e <->
     routes r !! rid = Some e /\ late e = false /\ gone e = false) /\
  (forall id, is_Some (registrations r' !! id) <->
     is_Some (registrations r !! id) /\ stale_owner r now regTimeout id = false) /\
  (forall rid, rid ∈ StaleRoutes x <-> exists e, routes r !! rid = Some e /\ late e = true) /\
  (forall rid, rid ∈ RoutesExpiredViaReg x <->
     exists e, routes r !! rid = Some e /\ late e = false /\ gone e = true) /\
  (forall id, id ∈ ExpiredRegistrations x <-> stale_owner r now regTimeout id = true).
Proof.
  intros Hi Hp x r' late gone.
  pose proof (ExpireStale_expired r now regTimeout routeTimeout order Hi Hp) as Hx.
  pose proof (fun rid e => order_complete r order rid e Hi Hp) as Hall.
  assert (Hids : forall id, id ∈ order <-> is_Some (registrations r !! id)).
  { intros id. rewrite Hp, list_elem_of_fmap. split.
    - intros ([i g] & -> & Hg%elem_of_map_to_list). eauto.
    - intros [g Hg]. exists (id, g). by rewrite elem_of_map_to_list. }
  fold x r' in Hx. clearbody x r'. destruct Hx as [A1 _ A3 A4 _ A6 A7 A8].
  unfold late, gone. split_and!; [done|..].
  - intros rid e. rewrite A3, <- !not_exceeded. naive_solver.
  - intros id. rewrite A4, <- !not_exceeded, Hids. naive_solver.
  - intros rid. rewrite A6. simpl. rewrite elem_of_nil. naive_solver.
  - intros rid. rewrite A7. simpl. rewrite elem_of_nil. naive_solver.
  - intros id. rewrite A8. simpl. rewrite elem_of_nil, Hids. unfold stale_owner.
    destruct (registrations r !! id) eqn:E; naive_solver.
Qed.

(** ** A concrete registry: two registrations, one route each; [ra]'s route
    and [rb] itself are idle. *)

Definition get_reg (x : res registry_error Registry) : Registry :=
  match x with Ok r => r | Err _ => NewRegistry 0 0 end.
Definition get_route (x : res registry_error (RouteEntry * Registry)) : Registry :=
  match x with Ok p => p.2 | Err _ => NewRegistry 0 0 end.

Definition demo_reg1 : Registry := get_reg (AddRegistration (NewRegistry 2 2) 10 "ra").
Definition demo_reg2 : Registry := get_reg (AddRegistration demo_reg1 20 "rb").
Definition demo_reg3 : Registry := get_route (AllocateRoute demo_reg2 30 (Some []) "ra" 1).
Definition demo_reg4 : Registry := get_route (AllocateRoute demo_reg3 90 (Some []) "rb" 2).
Definition demo_reg5 : Registry := get_reg (Keepalive demo_reg4 95 "ra").

Lemma demo_registry_reachable : rtc registry_step (NewRegistry 2 2) demo_reg5.
Proof.
  eapply rtc_l; [apply (rs_add _ 10 "ra" demo_reg1); vm_compute; reflexivity|].
  eapply rtc_l; [apply (rs_add _ 20 "rb" demo_reg2); vm_compute; reflexivity|].
  eapply rtc_l; [eapply (rs_allocate _ 30 (Some []) "ra" 1 _ demo_reg3); vm_compute; reflexivity|].
  eapply rtc_l; [eapply (rs_allocate _ 90 (Some []) "rb" 2 _ demo_reg4); vm_compute; reflexivity|].
  apply rtc_once, (rs_keepalive _ 95 "ra"). vm_compute. reflexivity.
Qed.

Lemma registry_consistent_witness :
  RegistrationCount demo_reg5 <= 2 /\ RouteCount demo_reg5 <= 2.
Proof.
  destruct (registry_consistent 2 2 demo_reg5 ltac:(lia) ltac:(lia) demo_registry_reachable)
    as (H1 & H2 & _). split; assumption.
Defined.

Lemma registry_isolation_witness :
  exists e, routes (RemoveRegistration demo_reg5 "rb").2 !! 1 = Some e /\ re_RegistrationID e = "ra".
Proof.
  destruct (routes demo_reg5 !! 1) as [e|] eqn:He; [|vm_compute in He; discriminate].
  exists e. split.
  - apply (registry_isolation demo_reg5 "rb"); [exact (registry_reachable_inv 2 2 _
      demo_registry_reachable)|apply op_remove|exact He|].
    vm_compute in He. injection He as <-. discriminate.
  - vm_compute in He. injection He as <-. reflexivity.
Defined.

Lemma ExpireStale_spec_witness :
  1 ∈ StaleRoutes (ExpireStale demo_reg5 100 50 60 ["ra"; "rb"]).1 /\
  2 ∈ RoutesExpiredViaReg (ExpireStale demo_reg5 100 50 60 ["ra"; "rb"]).1.
Proof.
  assert (["ra"; "rb"] ≡ₚ (map_to_list (registrations demo_reg5)).*1) as Hp
    by (vm_compute; first [reflexivity | apply Permutation_swap]).
  destruct (ExpireStale_spec demo_reg5 100 50 60 ["ra"; "rb"]
    (registry_reachable_inv 2 2 _ demo_registry_reachable) Hp) as (_ & _ & _ & H1 & H2 & _).
  split.
  - apply H1. eexists. split; vm_compute; reflexivity.
  - apply H2. eexists. split_and!; vm_compute; reflexivity.
Defined.
