(* ===== verification/RelayUDP.v ===== *)
(** * The relay's UDP ingress path and service operations

    Models [src/Core/Relay/udp.go] and the route operations of [service.go].
    Each route owns a socket, a bounded queue, a reading and a delivering
    goroutine; both goroutines are cut where they can be overtaken by a
    teardown, so a handle records how far each has got.  Metrics are unbounded
    counters (the source's are [int64]).  [h_arrived] and [h_delivered] are
    history variables: what the socket received and what was handed to a sink,
    with the registration it was handed to. *)
From S2P Require Import Prelude GoBytes RelayCodec RelayRegistry.
From stdpp Require Import options.

Record SourceEndpoint := { src_IP : string; src_Port : Z }.
Record Datagram := { d_Payload : list byte; d_Source : SourceEndpoint }.

(** The reading goroutine: in [ReadFromUDP]; about to call [dispatch]; past
    [dispatch]'s checks, about to enqueue; returned. *)
Inductive reader := Reading | Dispatching (d : Datagram) | Enqueuing (d : Datagram) | ReaderDone.

(** The delivering goroutine: in its [select]; holding a dequeued datagram;
    past the ownership lookup; in the drain loop; returned. *)
Inductive deliverer :=
| Awaiting | Holding (d : Datagram) | Resolved (d : Datagram) (regID : string) | Draining | DelivererDone.

Record routeHandle := {
  h_routeID : Z;
  h_queue : list Datagram;
  h_closed : bool;
  h_conn_closed : bool;
  h_done : bool;
  h_lastSeen : SourceEndpoint;
  h_reader : reader;
  h_deliverer : deliverer;
  h_arrived : list Datagram;
  h_delivered : list (Datagram * string);
}.

Record Metrics := {
  udpDatagramsReceived : Z;
  udpDatagramsForwarded : Z;
  udpDatagramsDroppedOversized : Z;
  udpDatagramsDroppedUnknownRoute : Z;
  udpDatagramsDroppedQueueFull : Z;
  udpDatagramsDroppedZeroLength : Z;
  udpDatagramsDroppedNoSink : Z;
  udpBytesIn : Z;
  udpBytesOut : Z;
}.

Definition NewMetrics : Metrics :=
  {| udpDatagramsReceived := 0; udpDatagramsForwarded := 0; udpDatagramsDroppedOversized := 0;
     udpDatagramsDroppedUnknownRoute := 0; udpDatagramsDroppedQueueFull := 0;
     udpDatagramsDroppedZeroLength := 0; udpDatagramsDroppedNoSink := 0;
     udpBytesIn := 0; udpBytesOut := 0 |}.

(** A sum of changes to the counters. *)
Definition bump (m : Metrics) (received forwarded oversized unknown full zero nosink bin bout : Z)
    : Metrics :=
  {| udpDatagramsReceived := udpDatagramsReceived m + received;
     udpDatagramsForwarded := udpDatagramsForwarded m + forwarded;
     udpDatagramsDroppedOversized := udpDatagramsDroppedOversized m + oversized;
     udpDatagramsDroppedUnknownRoute := udpDatagramsDroppedUnknownRoute m + unknown;
     udpDatagramsDroppedQueueFull := udpDatagramsDroppedQueueFull m + full;
     udpDatagramsDroppedZeroLength := udpDatagramsDroppedZeroLength m + zero;
     udpDatagramsDroppedNoSink := udpDatagramsDroppedNoSink m + nosink;
     udpBytesIn := udpBytesIn m + bin;
     udpBytesOut := udpBytesOut m + bout |}.

Definition incUnknownRoute (m : Metrics) := bump m 0 0 0 1 0 0 0 0 0.
Definition incQueueFull (m : Metrics) := bump m 0 0 0 0 1 0 0 0 0.
Definition incNoSink (m : Metrics) := bump m 0 0 0 0 0 0 1 0 0.

(** The listener and what it shares with the service; handles are kept by
    position, the pointer of the source. *)
Record UDPListener := {
  cfg : UDPConfig;
  registry : Registry;
  metrics : Metrics;
  u_routes : gmap Z nat;
  sinks : gset string;
  u_closed : bool;
  handles : list routeHandle;
}.

Definition NewUDPListener (c : UDPConfig) (r : Registry) : UDPListener :=
  {| cfg := c; registry := r; metrics := NewMetrics; u_routes := ∅; sinks := ∅;
     u_closed := false; handles := [] |}.

(** *** Field updates *)

Definition on_metrics (u : UDPListener) (m : Metrics) : UDPListener :=
  {| cfg := cfg u; registry := registry u; metrics := m; u_routes := u_routes u;
     sinks := sinks u; u_closed := u_closed u; handles := handles u |}.
Definition on_registry (u : UDPListener) (r : Registry) : UDPListener :=
  {| cfg := cfg u; registry := r; metrics := metrics u; u_routes := u_routes u;
     sinks := sinks u; u_closed := u_closed u; handles := handles u |}.
Definition on_handle (u : UDPListener) (k : nat) (h : routeHandle) : UDPListener :=
  {| cfg := cfg u; registry := registry u; metrics := metrics u; u_routes := u_routes u;
     sinks := sinks u; u_closed := u_closed u; handles := <[k := h]> (handles u) |}.

Definition set_reader (h : routeHandle) (rd : reader) : routeHandle :=
  {| h_routeID := h_routeID h; h_queue := h_queue h; h_closed := h_closed h;
     h_conn_closed := h_conn_closed h; h_done := h_done h; h_lastSeen := h_lastSeen h;
     h_reader := rd; h_deliverer := h_deliverer h; h_arrived := h_arrived h;
     h_delivered := h_delivered h |}.
Definition set_deliverer (h : routeHandle) (q : list Datagram) (dl : deliverer) : routeHandle :=
  {| h_routeID := h_routeID h; h_queue := q; h_closed := h_closed h;
     h_conn_closed := h_conn_closed h; h_done := h_done h; h_lastSeen := h_lastSeen h;
     h_reader := h_reader h; h_deliverer := dl; h_arrived := h_arrived h;
     h_delivered := h_delivered h |}.
Definition set_teardown (h : routeHandle) (closed conn done : bool) : routeHandle :=
  {| h_routeID := h_routeID h; h_queue := h_queue h; h_closed := closed;
     h_conn_closed := conn; h_done := done; h_lastSeen := h_lastSeen h;
     h_reader := h_reader h; h_deliverer := h_deliverer h; h_arrived := h_arrived h;
     h_delivered := h_delivered h |}.

(** ** Listener operations *)

Inductive udp_error := ErrUDPRouteNotFound | ErrUDPClosed | AlreadyBound | BindFailed.

(** Registrations with a packet sink; the sink itself is opaque. *)
Definition SetSink (u : UDPListener) (regID : string) (sink : bool) : UDPListener :=
  {| cfg := cfg u; registry := registry u; metrics := metrics u; u_routes := u_routes u;
     sinks := if sink then {[regID]} ∪ sinks u else sinks u ∖ {[regID]};
     u_closed := u_closed u; handles := handles u |}.

Definition new_handle (routeID : Z) : routeHandle :=
  {| h_routeID := routeID; h_queue := []; h_closed := false; h_conn_closed := false;
     h_done := false; h_lastSeen := {| src_IP := ""; src_Port := 0 |}; h_reader := Reading;
     h_deliverer := Awaiting; h_arrived := []; h_delivered := [] |}.

(** [sock] is the result of [listenSocket]: the local address, or a failure. *)
Definition Bind (u : UDPListener) (sock : option string) (routeID : Z)
    : res udp_error string * UDPListener :=
  if u_closed u then (Err ErrUDPClosed, u)
  else if bool_decide (is_Some (u_routes u !! routeID)) then (Err AlreadyBound, u)
  else match sock with
       | None => (Err BindFailed, u)
       | Some addr =>
           (Ok addr,
            {| cfg := cfg u; registry := registry u; metrics := metrics u;
               u_routes := <[routeID := length (handles u)]> (u_routes u);
               sinks := sinks u; u_closed := u_closed u;
               handles := handles u ++ [new_handle routeID] |})
       end.

(** [Close] up to its unlock; the teardown of the handle follows as steps. *)
Definition UDP_Close (u : UDPListener) (routeID : Z) : res udp_error unit * UDPListener :=
  match u_routes u !! routeID with
  | None => (Err ErrUDPRouteNotFound, u)
  | Some _ =>
      (Ok tt, {| cfg := cfg u; registry := registry u; metrics := metrics u;
                 u_routes := delete routeID (u_routes u); sinks := sinks u;
                 u_closed := u_closed u; handles := handles u |})
  end.

Definition UDP_Shutdown (u : UDPListener) : UDPListener :=
  if u_closed u then u
  else {| cfg := cfg u; registry := registry u; metrics := metrics u; u_routes := ∅;
          sinks := sinks u; u_closed := true; handles := handles u |}.

(** The teardown that [Close] and [Shutdown] run on a handle no longer in the
    map, one statement at a time: [closed.Store(true)], [conn.Close()],
    [close(done)]. *)
Definition teardown (h : routeHandle) : option routeHandle :=
  if negb (h_closed h) then Some (set_teardown h true (h_conn_closed h) (h_done h))
  else if negb (h_conn_closed h) then Some (set_teardown h true true (h_done h))
  else if negb (h_done h) then Some (set_teardown h true true true)
  else None.

(** *** The reading goroutine *)

(** [ReadFromUDP] fills a buffer one byte longer than the largest packet. *)
Definition readLoop (u : UDPListener) (k : nat) (h : routeHandle) (datagram : list byte)
    (src : SourceEndpoint) : UDPListener :=
  let buf := take (Z.to_nat (MaxPacketSize (cfg u) + 1)) datagram in
  let n := len buf in
  let d := {| d_Payload := buf; d_Source := src |} in
  let m := bump (metrics u) 1 0 0 0 0 0 0 n 0 in
  if n =? 0 then on_metrics u (bump m 0 0 0 0 0 1 0 0 0)
  else if MaxPacketSize (cfg u) <? n then on_metrics u (bump m 0 0 1 0 0 0 0 0 0)
  else
    on_metrics (on_handle u k
      {| h_routeID := h_routeID h; h_queue := h_queue h; h_closed := h_closed h;
         h_conn_closed := h_conn_closed h; h_done := h_done h; h_lastSeen := h_lastSeen h;
         h_reader := Dispatching d; h_deliverer := h_deliverer h;
         h_arrived := h_arrived h ++ [d]; h_delivered := h_delivered h |}) m.

(** [dispatch] up to [TouchRoute]. *)
Definition dispatch (u : UDPListener) (now : time) (k : nat) (h : routeHandle) (d : Datagram)
    : UDPListener :=
  if h_closed h then on_metrics (on_handle u k (set_reader h Reading)) (incUnknownRoute (metrics u))
  else match RouteRegistration (registry u) (h_routeID h) with
       | None => on_metrics (on_handle u k (set_reader h Reading)) (incUnknownRoute (metrics u))
       | Some _ =>
           let u1 := on_handle u k (set_reader h (Enqueuing d)) in
           match TouchRoute (registry u) now (h_routeID h) with
           | Ok r => on_registry u1 r
           | Err _ => u1
           end
       end.

(** The rest of [dispatch]: record the source, then a non-blocking send. *)
Definition enqueue (u : UDPListener) (k : nat) (h : routeHandle) (d : Datagram) : UDPListener :=
  let full := MaxQueueDepth (cfg u) <=? len (h_queue h) in
  let h' := {| h_routeID := h_routeID h;
               h_queue := if full then h_queue h else h_queue h ++ [d];
               h_closed := h_closed h; h_conn_closed := h_conn_closed h; h_done := h_done h;
               h_lastSeen := d_Source d; h_reader := Reading; h_deliverer := h_deliverer h;
               h_arrived := h_arrived h; h_delivered := h_delivered h |} in
  let u1 := on_handle u k h' in
  if full then on_metrics u1 (incQueueFull (metrics u)) else u1.

(** *** The delivering goroutine *)

(** After a receive from the queue: the [closed] test and [deliver]'s
    ownership lookup. *)
Definition deliver_resolve (u : UDPListener) (k : nat) (h : routeHandle) (d : Datagram)
    : UDPListener :=
  if h_closed h then
    on_metrics (on_handle u k (set_deliverer h (h_queue h) Awaiting)) (incUnknownRoute (metrics u))
  else match RouteRegistration (registry u) (h_routeID h) with
       | None => on_metrics (on_handle u k (set_deliverer h (h_queue h) Awaiting))
                   (incUnknownRoute (metrics u))
       | Some regID => on_handle u k (set_deliverer h (h_queue h) (Resolved d regID))
       end.

(** The sink lookup and the delivery. *)
Definition deliver (u : UDPListener) (k : nat) (h : routeHandle) (d : Datagram) (regID : string)
    : UDPListener :=
  if bool_decide (regID ∈ sinks u) then
    on_metrics (on_handle u k
      {| h_routeID := h_routeID h; h_queue := h_queue h; h_closed := h_closed h;
         h_conn_closed := h_conn_closed h; h_done := h_done h; h_lastSeen := h_lastSeen h;
         h_reader := h_reader h; h_deliverer := Awaiting; h_arrived := h_arrived h;
         h_delivered := h_delivered h ++ [(d, regID)] |})
      (bump (metrics u) 0 1 0 0 0 0 0 0 (len (d_Payload d)))
  else on_metrics (on_handle u k (set_deliverer h (h_queue h) Awaiting)) (incNoSink (metrics u)).

(** One turn of the drain loop. *)
Definition drain (u : UDPListener) (k : nat) (h : routeHandle) : UDPListener :=
  match h_queue h with
  | [] => on_handle u k (set_deliverer h [] DelivererDone)
  | _ :: q => on_metrics (on_handle u k (set_deliverer h q Draining)) (incUnknownRoute (metrics u))
  end.

(** ** Steps of the ingress path *)

Inductive udp_step : UDPListener -> UDPListener -> Prop :=
| us_registry u r : registry_step (registry u) r -> udp_step u (on_registry u r)
| us_sink u regID sink : udp_step u (SetSink u regID sink)
| us_bind u sock routeID : udp_step u (Bind u sock routeID).2
| us_close u routeID : udp_step u (UDP_Close u routeID).2
| us_shutdown u : udp_step u (UDP_Shutdown u)
| us_teardown u k h h' :
    handles u !! k = Some h -> u_routes u !! h_routeID h <> Some k -> teardown h = Some h' ->
    udp_step u (on_handle u k h')
| us_read u k h datagram src :
    handles u !! k = Some h -> h_reader h = Reading -> h_conn_closed h = false ->
    udp_step u (readLoop u k h datagram src)
| us_read_end u k h :
    handles u !! k = Some h -> h_reader h = Reading ->
    udp_step u (on_handle u k (set_reader h ReaderDone))
| us_dispatch u now k h d :
    handles u !! k = Some h -> h_reader h = Dispatching d -> udp_step u (dispatch u now k h d)
| us_enqueue u k h d :
    handles u !! k = Some h -> h_reader h = Enqueuing d -> udp_step u (enqueue u k h d)
| us_take u k h d q :
    handles u !! k = Some h -> h_deliverer h = Awaiting -> h_queue h = d :: q ->
    udp_step u (on_handle u k (set_deliverer h q (Holding d)))
| us_resolve u k h d :
    handles u !! k = Some h -> h_deliverer h = Holding d -> udp_step u (deliver_resolve u k h d)
| us_deliver u k h d regID :
    handles u !! k = Some h -> h_deliverer h = Resolved d regID ->
    udp_step u (deliver u k h d regID)
| us_done u k h :
    handles u !! k = Some h -> h_deliverer h = Awaiting -> h_done h = true ->
    udp_step u (on_handle u k (set_deliverer h (h_queue h) Draining))
| us_drain u k h :
    handles u !! k = Some h -> h_deliverer h = Draining -> udp_step u (drain u k h).

(** ** Service operations

    [service.go] composes registry and listener calls without a lock of its
    own; the functions below are the sequential composition, with [now] the
    clock during the call. *)

Inductive service_error := RegistryError (e : registry_error) | UDPError (e : udp_error).

Definition roll_back (u : UDPListener) (now : time) (regID : string) (routeID : Z) : UDPListener :=
  match CloseRoute (registry u) now regID routeID with
  | Ok (_, r) => on_registry u r
  | Err _ => u
  end.

Definition OpenRouteEndpoint (u : UDPListener) (now : time) (sock : option string)
    (regID : string) (routeID : Z) : res service_error string * UDPListener :=
  match OpenRoute (registry u) (registry u) now regID routeID with
  | Err e => (Err (RegistryError e), u)
  | Ok (_, r) =>
      match Bind (on_registry u r) sock routeID with
      | (Err e, u1) => (Err (UDPError e), roll_back u1 now regID routeID)
      | (Ok ep, u1) =>
          match SetRouteEndpoint (registry u1) (registry u1) now regID routeID ep with
          | Err e =>
              (Err (RegistryError e), roll_back (UDP_Close u1 routeID).2 now regID routeID)
          | Ok r2 => (Ok ep, on_registry u1 r2)
          end
      end
  end.

Definition CloseRouteEndpoint (u : UDPListener) (now : time) (regID : string) (routeID : Z)
    : res service_error unit * UDPListener :=
  let '(err, u1) := UDP_Close u routeID in
  let failed := match err with
                | Ok _ | Err ErrUDPRouteNotFound => None
                | Err e => Some e
                end in
  match failed with
  | Some e => (Err (UDPError e), u1)
  | None =>
      match CloseRoute (registry u1) now regID routeID with
      | Ok (_, r) => (Ok tt, on_registry u1 r)
      | Err e => (Err (RegistryError e), u1)
      end
  end.

(** One tick of [livenessLoop]. *)
Definition liveness_tick (u : UDPListener) (now : time) (regTimeout routeTimeout : duration)
    (order : list string) : UDPListener :=
  let '(x, r) := ExpireStale (registry u) now regTimeout routeTimeout order in
  fold_left (fun u rid => (UDP_Close u rid).2) (AllExpiredRoutes x) (on_registry u r).

(** ** Accounting and order *)

Definition reader_holds (rd : reader) : list Datagram :=
  match rd with Dispatching d | Enqueuing d => [d] | _ => [] end.

Definition deliverer_holds (dl : deliverer) : list Datagram :=
  match dl with Holding d | Resolved d _ => [d] | _ => [] end.

(** The datagrams of a handle that are neither delivered nor dropped. *)
Definition in_transit (h : routeHandle) : list Datagram :=
  deliverer_holds (h_deliverer h) ++ h_queue h ++ reader_holds (h_reader h).

Definition dropped (m : Metrics) : Z :=
  udpDatagramsDroppedOversized m + udpDatagramsDroppedUnknownRoute m +
  udpDatagramsDroppedQueueFull m + udpDatagramsDroppedZeroLength m + udpDatagramsDroppedNoSink m.

Definition total_in_transit (hs : list routeHandle) : Z :=
  Z.of_nat (sum_list_with (fun h => length (in_transit h)) hs).

Definition balanced (u : UDPListener) : Prop :=
  udpDatagramsReceived (metrics u) =
  udpDatagramsForwarded (metrics u) + dropped (metrics u) + total_in_transit (handles u).

Record handle_ok (c : UDPConfig) (h : routeHandle) : Prop := {
  ho_queue : len (h_queue h) <= Z.max 0 (MaxQueueDepth c);
  ho_order : (h_delivered h).*1 ++ in_transit h `sublist_of` h_arrived h;
}.

(** ** Lemmas *)

Lemma total_insert hs k h h' :
  hs !! k = Some h ->
  total_in_transit (<[k := h']> hs) =
  total_in_transit hs - len (in_transit h) + len (in_transit h').
Proof.
  unfold total_in_transit, len. revert k. induction hs as [|a hs IH]; intros [|k]; simpl; try done.
  - intros [= ->]. lia.
  - intros Hk. specialize (IH _ Hk). lia.
Qed.

Lemma total_app hs h : total_in_transit (hs ++ [h]) = total_in_transit hs + len (in_transit h).
Proof. unfold total_in_transit, len. rewrite sum_list_with_app. simpl. lia. Qed.

(** Solve a counting goal after one step of handle [h]. *)
Ltac account h :=
  unfold balanced, dropped, incUnknownRoute, incQueueFull, incNoSink in *; simpl;
  rewrite ?(total_insert _ _ h) by done; unfold in_transit; simpl;
  repeat match goal with E : h_reader h = _ |- _ => rewrite E; clear E
                       | E : h_deliverer h = _ |- _ => rewrite E; clear E
                       | E : h_queue h = _ |- _ => rewrite E; clear E end;
  simpl; unfold len; repeat (rewrite length_app; simpl); try lia.

Lemma udp_step_balanced u u' : udp_step u u' -> balanced u -> balanced u'.
Proof.
  intros Hst Hb. destruct Hst; try done.
  - unfold Bind. repeat case_match; try done. unfold balanced in *. simpl.
    rewrite total_app. change (len (in_transit (new_handle routeID))) with 0. lia.
  - unfold UDP_Close. by case_match.
  - unfold UDP_Shutdown. by case_match.
  - unfold teardown in *. repeat case_match; simplify_eq; account h.
  - unfold readLoop. repeat case_match; account h.
  - account h.
  - unfold dispatch. repeat case_match; account h.
  - unfold enqueue. case_match; account h.
  - account h.
  - unfold deliver_resolve. repeat case_match; account h.
  - unfold deliver. case_match; account h.
  - account h.
  - unfold drain. case_match eqn:E; account h.
Qed.

Lemma handle_ok_insert c hs k h' :
  Forall (handle_ok c) hs -> handle_ok c h' -> Forall (handle_ok c) (<[k := h']> hs).
Proof. intros. by apply Forall_insert. Qed.

(** Dropping the datagram a goroutine holds keeps the order. *)
Lemma sublist_drop_mid (a b c l : list Datagram) : a ++ b ++ c `sublist_of` l -> a ++ c `sublist_of` l.
Proof.
  intros H. etrans; [|exact H]. apply sublist_app; [done|]. by apply sublist_inserts_l.
Qed.

Lemma sublist_drop_end (a b l : list Datagram) : a ++ b `sublist_of` l -> a `sublist_of` l.
Proof. intros H. etrans; [|exact H]. by apply sublist_inserts_r. Qed.

Ltac ordered h :=
  unfold in_transit in *; simpl in *;
  repeat match goal with E : h_reader h = _ |- _ => rewrite E in *; clear E
                       | E : h_deliverer h = _ |- _ => rewrite E in *; clear E
                       | E : h_queue h = _ |- _ => rewrite E in *; clear E end;
  simpl in *; rewrite ?app_nil_r in *.

Lemma readLoop_ok u k h datagram src :
  Forall (handle_ok (cfg u)) (handles u) -> handles u !! k = Some h -> h_reader h = Reading ->
  Forall (handle_ok (cfg u)) (handles (readLoop u k h datagram src)).
Proof.
  intros Hf Hk Hr. pose proof (Forall_lookup_1 _ _ _ _ Hf Hk) as [Hq Ho].
  unfold readLoop. repeat case_match; try done.
  apply handle_ok_insert; [done|]. split; [done|]. ordered h.
  rewrite (app_assoc (deliverer_holds _)), (app_assoc _ (_ ++ _)). by apply sublist_app.
Qed.

Lemma dispatch_ok u now k h d :
  Forall (handle_ok (cfg u)) (handles u) -> handles u !! k = Some h -> h_reader h = Dispatching d ->
  Forall (handle_ok (cfg u)) (handles (dispatch u now k h d)).
Proof.
  intros Hf Hk Hr. pose proof (Forall_lookup_1 _ _ _ _ Hf Hk) as [Hq Ho].
  assert (handle_ok (cfg u) (set_reader h Reading)).
  { split; [done|]. ordered h. rewrite (app_assoc (deliverer_holds _)), (app_assoc _ (_ ++ _)) in Ho.
    by apply sublist_drop_end in Ho. }
  unfold dispatch. repeat case_match; apply handle_ok_insert; try done; split; try done; by ordered h.
Qed.

Lemma enqueue_ok u k h d :
  Forall (handle_ok (cfg u)) (handles u) -> handles u !! k = Some h -> h_reader h = Enqueuing d ->
  Forall (handle_ok (cfg u)) (handles (enqueue u k h d)).
Proof.
  intros Hf Hk Hr. pose proof (Forall_lookup_1 _ _ _ _ Hf Hk) as [Hq Ho].
  unfold enqueue. destruct (_ <=? _) eqn:Hfull; bool_props; apply handle_ok_insert; try done;
    split; simpl; try done.
  - ordered h. rewrite (app_assoc (deliverer_holds _)), (app_assoc _ (_ ++ _)) in Ho.
    by apply sublist_drop_end in Ho.
  - rewrite len_app. change (len [d]) with 1. lia.
  - ordered h. done.
Qed.

Lemma drop_held_ok c h d :
  handle_ok c h -> deliverer_holds (h_deliverer h) = [d] ->
  handle_ok c (set_deliverer h (h_queue h) Awaiting).
Proof.
  intros [Hq Ho] Hd. split; [done|]. unfold in_transit in *. simpl. rewrite Hd in Ho.
  by apply sublist_drop_mid in Ho.
Qed.

Lemma resolve_ok u k h d :
  Forall (handle_ok (cfg u)) (handles u) -> handles u !! k = Some h -> h_deliverer h = Holding d ->
  Forall (handle_ok (cfg u)) (handles (deliver_resolve u k h d)).
Proof.
  intros Hf Hk Hd. pose proof (Forall_lookup_1 _ _ _ _ Hf Hk) as Hh.
  assert (handle_ok (cfg u) (set_deliverer h (h_queue h) Awaiting)).
  { eapply drop_held_ok; [done|]. by rewrite Hd. }
  unfold deliver_resolve. repeat case_match; apply handle_ok_insert; try done.
  destruct Hh as [Hq Ho]. split; [done|]. by ordered h.
Qed.

Lemma deliver_ok u k h d regID :
  Forall (handle_ok (cfg u)) (handles u) -> handles u !! k = Some h ->
  h_deliverer h = Resolved d regID ->
  Forall (handle_ok (cfg u)) (handles (deliver u k h d regID)).
Proof.
  intros Hf Hk Hd. pose proof (Forall_lookup_1 _ _ _ _ Hf Hk) as Hh.
  unfold deliver. case_match; apply handle_ok_insert; try done.
  - destruct Hh as [Hq Ho]. split; [done|]. ordered h. rewrite fmap_app. simpl.
    by rewrite <- app_assoc.
  - eapply drop_held_ok; [done|]. by rewrite Hd.
Qed.

Lemma udp_step_ok u u' :
  udp_step u u' -> Forall (handle_ok (cfg u)) (handles u) ->
  cfg u' = cfg u /\ Forall (handle_ok (cfg u)) (handles u').
Proof.
  intros Hst Hf.
  assert (Hone : forall k h, handles u !! k = Some h -> handle_ok (cfg u) h)
    by (intros; by eapply (Forall_lookup_1 _ (handles u))).
  destruct Hst; (split; [try done|]).
  - done.
  - done.
  - unfold Bind. by repeat case_match.
  - unfold Bind. repeat case_match; try done. simpl. apply Forall_app. split; [done|].
    constructor; [|done]. split; [|done]. unfold len. simpl. lia.
  - unfold UDP_Close. by case_match.
  - unfold UDP_Close. by case_match.
  - unfold UDP_Shutdown. by case_match.
  - unfold UDP_Shutdown. by case_match.
  - apply handle_ok_insert; [done|]. destruct (Hone _ _ H).
    unfold teardown in *. repeat case_match; simplify_eq; by split.
  - unfold readLoop. by repeat case_match.
  - by apply readLoop_ok.
  - apply handle_ok_insert; [done|]. destruct (Hone _ _ H) as [? Ho]. split; [done|]. by ordered h.
  - unfold dispatch. by repeat case_match.
  - by apply dispatch_ok.
  - unfold enqueue. by case_match.
  - by apply enqueue_ok.
  - apply handle_ok_insert; [done|]. destruct (Hone _ _ H) as [Hq Ho].
    split; [simpl; rewrite H1 in Hq; unfold len in *; simpl in Hq; lia|]. by ordered h.
  - unfold deliver_resolve. by repeat case_match.
  - by apply resolve_ok.
  - unfold deliver. by case_match.
  - by apply deliver_ok.
  - apply handle_ok_insert; [done|]. destruct (Hone _ _ H) as [? Ho]. split; [done|]. by ordered h.
  - unfold drain. by case_match.
  - unfold drain. destruct (Hone _ _ H) as [Hq Ho]. case_match eqn:E; apply handle_ok_insert; try done.
    + split; [unfold len; simpl; lia|]. by ordered h.
    + split; [simpl; unfold len in *; simpl in Hq; lia|].
      ordered h. by apply (sublist_drop_mid _ [d]) in Ho.
Qed.

Lemma udp_reach u u' :
  rtc udp_step u u' -> balanced u -> Forall (handle_ok (cfg u)) (handles u) ->
  cfg u' = cfg u /\ balanced u' /\ Forall (handle_ok (cfg u')) (handles u').
Proof.
  intros Hr Hb Hf.
  assert (H : Preserves udp_step (fun v => cfg v = cfg u /\ balanced v /\
                                       Forall (handle_ok (cfg v)) (handles v))).
  { intros v v' Hst (<- & B & F). destruct (udp_step_ok _ _ Hst F) as [E F'].
    split_and!; [done|by eapply udp_step_balanced|by rewrite E]. }
  exact (@reachable_keeps _ _ _ H _ _ Hr (conj eq_refl (conj Hb Hf))).
Qed.

Lemma UDP_Close_routes u i rid :
  u_routes (UDP_Close u i).2 !! rid = (if decide (rid = i) then None else u_routes u !! rid) /\
  registry (UDP_Close u i).2 = registry u.
Proof.
  unfold UDP_Close. destruct (decide (rid = i)) as [->|].
  - destruct (u_routes u !! i) eqn:E; simpl; [by rewrite lookup_delete_eq|done].
  - destruct (u_routes u !! i); simpl; [by rewrite lookup_delete_ne|done].
Qed.

Lemma fold_close_routes l u rid :
  u_routes (fold_left (fun u rid => (UDP_Close u rid).2) l u) !! rid =
    (if decide (rid ∈ l) then None else u_routes u !! rid) /\
  registry (fold_left (fun u rid => (UDP_Close u rid).2) l u) = registry u.
Proof.
  revert u. induction l as [|i l IH]; intros u; [done|]. cbn [fold_left].
  destruct (IH (UDP_Close u i).2) as [-> ->], (UDP_Close_routes u i rid) as [-> ->].
  split; [|done]. destruct (decide (rid ∈ l)), (decide (rid = i)).
  1-3: by rewrite decide_True by set_solver.
  by rewrite decide_False by set_solver.
Qed.

Lemma CloseRoute_owned r now regID rid e :
  routes r !! rid = Some e -> re_RegistrationID e = regID -> re_State e <> RouteStateClosed ->
  exists cp r', CloseRoute r now regID rid = Ok (cp, r') /\ routes r' !! rid = None.
Proof.
  intros He Ho Hs. unfold CloseRoute. rewrite He, (proj2 (same_str_true _ _)) by done. simpl.
  rewrite bool_decide_false by done. eexists _, _. split; [done|].
  case_match; simpl; apply lookup_delete_eq.
Qed.

(** ** Properties *)

(** C5: whatever the interleaving of socket reads, deliveries, route closes,
    sink changes, registry changes and shutdown, every received datagram is
    accounted for: it was forwarded, counted by exactly one drop counter, or
    is still held by one of the route's goroutines or its queue; no queue
    exceeds its configured depth; and what a route delivers is a subsequence,
    byte for byte and in order, of what arrived on that route's own socket. *)
Theorem udp_accounting c r u :
  rtc udp_step (NewUDPListener c r) u ->
  udpDatagramsReceived (metrics u) =
    udpDatagramsForwarded (metrics u) + dropped (metrics u) + total_in_transit (handles u) /\
  (forall k h, handles u !! k = Some h ->
     len (h_queue h) <= Z.max 0 (MaxQueueDepth c) /\
     (h_delivered h).*1 `sublist_of` h_arrived h).
Proof.
  intros Hr. destruct (udp_reach _ _ Hr) as (Hc & Hb & Hf); [done|constructor|].
  split; [exact Hb|]. intros k h Hk.
  destruct (Forall_lookup_1 _ _ _ _ Hf Hk) as [Hq Ho]. rewrite Hc in Hq.
  split; [exact Hq|]. by eapply sublist_drop_end.
Qed.

(** Opening a route's endpoint is all or nothing.  On success the route is
    open, records the endpoint, and has a live socket; when the socket cannot
    be bound the route is withdrawn from the registry and the listener is as
    before, so no half-open route remains. *)
Theorem OpenRouteEndpoint_atomic u now sock regID rid :
  let '(out, u') := OpenRouteEndpoint u now sock regID rid in
  match out with
  | Ok ep =>
      sock = Some ep /\ u_routes u' !! rid = Some (length (handles u)) /\
      exists e, Route (registry u') rid = Some e /\ re_RegistrationID e = regID /\
        re_State e = RouteStateOpen /\ re_Endpoint e = ep
  | Err (UDPError _) => Route (registry u') rid = None /\ u_routes u' = u_routes u
  | Err (RegistryError _) => u' = u
  end.
Proof.
  unfold OpenRouteEndpoint.
  destruct (OpenRoute (registry u) (registry u) now regID rid) as [[e1 r1]|] eqn:Ho; [|done].
  assert (routes r1 !! rid = Some e1 /\ re_RegistrationID e1 = regID /\ re_State e1 = RouteStateOpen)
    as (He1 & Hreg & Hst).
  { unfold OpenRoute, res_bind in Ho. branches. bool_props. rewrite same_str_true in *.
    by rewrite lookup_insert_eq. }
  unfold Bind. simpl.
  assert (Hfail : routes (registry (roll_back (on_registry u r1) now regID rid)) !! rid = None /\
            u_routes (roll_back (on_registry u r1) now regID rid) = u_routes u).
  { unfold roll_back. simpl.
    destruct (CloseRoute_owned r1 now regID rid e1) as (cp & r' & -> & Hn); try done. by rewrite Hst. }
  destruct (u_closed u); [done|]. case_bool_decide; [done|]. destruct sock as [ep|]; [|done].
  unfold SetRouteEndpoint, getOwnedRoute. simpl. rewrite He1, (proj2 (same_str_true _ _)) by done.
  simpl. split_and!; [done|by rewrite lookup_insert_eq|].
  eexists. unfold Route. simpl. rewrite lookup_insert_eq. done.
Qed.

(** Closing a route's endpoint checks ownership too late.  For the owner
    both the socket and the route are gone; for any other registration the
    call reports the wrong owner and leaves the route in the registry, but
    the owner's socket has already been taken down. *)
Theorem CloseRouteEndpoint_ownership u now regID rid e k :
  Route (registry u) rid = Some e -> re_State e = RouteStateOpen -> u_routes u !! rid = Some k ->
  let '(out, u') := CloseRouteEndpoint u now regID rid in
  u_routes u' !! rid = None /\
  (re_RegistrationID e = regID -> out = Ok tt /\ Route (registry u') rid = None) /\
  (re_RegistrationID e <> regID ->
     out = Err (RegistryError ErrRouteWrongOwner) /\ Route (registry u') rid = Some e).
Proof.
  unfold Route. intros He Hst Hk. unfold CloseRouteEndpoint, UDP_Close. rewrite Hk. simpl.
  destruct (decide (re_RegistrationID e = regID)) as [Heq|Hne].
  - destruct (CloseRoute_owned (registry u) now regID rid e) as (cp & r' & -> & Hn); try done.
    { by rewrite Hst. }
    simpl. rewrite lookup_delete_eq. naive_solver.
  - unfold CloseRoute. rewrite He, (proj2 (same_str_false _ _)) by done. simpl.
    rewrite lookup_delete_eq. naive_solver.
Qed.

(** A liveness tick leaves no socket behind: afterwards no expired route
    has a socket, and every route that survived keeps the one it had. *)
Theorem liveness_tick_sockets u now regTimeout routeTimeout order rid :
  registry_inv (registry u) -> order ≡ₚ (map_to_list (registrations (registry u))).*1 ->
  let u' := liveness_tick u now regTimeout routeTimeout order in
  (Route (registry u) rid <> None -> Route (registry u') rid = None -> u_routes u' !! rid = None) /\
  (Route (registry u') rid <> None -> u_routes u' !! rid = u_routes u !! rid).
Proof.
  intros Hi Hp u'.
  pose proof (ExpireStale_expired (registry u) now regTimeout routeTimeout order Hi Hp) as Hx.
  pose proof (fun e => order_complete (registry u) order rid e Hi Hp) as Hall.
  subst u'. unfold liveness_tick.
  destruct (ExpireStale _ _ _ _ _) as [x r]. simpl in Hx. unfold AllExpiredRoutes.
  destruct (fold_close_routes (StaleRoutes x ++ RoutesExpiredViaReg x) (on_registry u r) rid)
    as [-> ->]. simpl. unfold Route in *.
  pose proof (ex_routes _ _ _ _ _ _ _ _ Hx rid) as A3.
  pose proof (ex_stale _ _ _ _ _ _ _ _ Hx rid) as A6. pose proof (ex_via _ _ _ _ _ _ _ _ Hx rid) as A7.
  simpl in A6, A7. rewrite elem_of_nil in A6, A7.
  split.
  - destruct (routes (registry u) !! rid) as [e|] eqn:He; [intros _ Hn|done].
    rewrite decide_True; [done|]. rewrite elem_of_app, A6, A7.
    destruct (exceeded now (re_UpdatedAt e) routeTimeout) eqn:E1; [left; right; eauto 6|].
    destruct (stale_owner (registry u) now regTimeout (re_RegistrationID e)) eqn:E2;
      [right; right; eauto 7|].
    assert (routes r !! rid = Some e) as He'; [|by rewrite He' in Hn].
    apply A3. split; [done|]. intros [_ [Hx1|Hx1]]; congruence.
  - destruct (routes r !! rid) as [e|] eqn:He; [intros _|done].
    rewrite decide_False; [done|]. rewrite elem_of_app, A6, A7.
    destruct (proj1 (A3 e) eq_refl) as [He0 Hn]. rewrite He0. clear -Hn.
    intros [[[]|(e' & [= <-] & Ho & Hl)]|[[]|(e' & [= <-] & Ho & _ & Hl)]]; apply Hn; auto.
Qed.

(** ** A concrete run

    One route, one datagram.  Either it is delivered; or the route is closed
    while the reading goroutine stands between [dispatch]'s checks and the
    enqueue: the delivering goroutine drains an empty queue and returns, the
    datagram is enqueued afterwards, and nobody will ever take it. *)

Definition demo_cfg : UDPConfig :=
  UDPConfig_ApplyDefaults {| ListenAddress := ""; PortMin := 0; PortMax := 0; MaxPacketSize := 0;
                             MaxQueueDepth := 0 |}.
Definition demo_relay0 : UDPListener := NewUDPListener demo_cfg demo_reg5.
Definition demo_src : SourceEndpoint := {| src_IP := "10.0.0.9"; src_Port := 5000 |}.
Definition demo_datagram : Datagram := {| d_Payload := [x01; x02]; d_Source := demo_src |}.
Definition demo_relay1 : UDPListener := (OpenRouteEndpoint demo_relay0 200 (Some "relay:40000") "ra" 1).2.
Definition demo_bound : UDPListener := (Bind demo_relay0 (Some "relay:40000") 1).2.

Definition handle_at (u : UDPListener) : routeHandle :=
  match handles u !! 0%nat with Some h => h | None => new_handle 0 end.

Definition demo_read : UDPListener := readLoop demo_bound 0 (handle_at demo_bound) [x01; x02] demo_src.
Definition demo_checked : UDPListener := dispatch demo_read 210 0 (handle_at demo_read) demo_datagram.
Definition demo_closing : UDPListener := (UDP_Close demo_checked 1).2.
Definition tear (u : UDPListener) : UDPListener :=
  match teardown (handle_at u) with Some h => on_handle u 0 h | None => u end.
Definition demo_torn : UDPListener := tear (tear (tear demo_closing)).
Definition demo_draining : UDPListener :=
  on_handle demo_torn 0 (set_deliverer (handle_at demo_torn) [] Draining).
Definition demo_drained : UDPListener := drain demo_draining 0 (handle_at demo_draining).
Definition demo_late : UDPListener := enqueue demo_drained 0 (handle_at demo_drained) demo_datagram.
Definition demo_lost : UDPListener := on_handle demo_late 0 (set_reader (handle_at demo_late) ReaderDone).

Lemma demo_late_step : udp_step demo_drained demo_late.
Proof. unfold demo_late. apply us_enqueue; vm_compute; reflexivity. Qed.

Lemma demo_lost_step : udp_step demo_late demo_lost.
Proof. unfold demo_lost. apply us_read_end; vm_compute; reflexivity. Qed.

Lemma demo_lost_reachable : rtc udp_step demo_relay0 demo_lost.
Proof.
  eapply rtc_l; [apply (us_bind demo_relay0 (Some "relay:40000") 1)|].
  eapply rtc_l; [apply (us_read demo_bound 0 (handle_at demo_bound) [x01; x02] demo_src);
                 vm_compute; reflexivity|].
  eapply rtc_l; [apply (us_dispatch demo_read 210 0 (handle_at demo_read) demo_datagram);
                 vm_compute; reflexivity|].
  eapply rtc_l; [apply (us_close demo_checked 1)|].
  do 3 (eapply rtc_l; [eapply (us_teardown _ 0);
    [vm_compute; reflexivity|vm_compute; discriminate|vm_compute; reflexivity]|]).
  change (rtc udp_step demo_torn demo_lost).
  eapply rtc_l; [apply (us_done demo_torn 0 (handle_at demo_torn)); vm_compute; reflexivity|].
  eapply rtc_l; [apply (us_drain demo_draining 0 (handle_at demo_draining));
                 vm_compute; reflexivity|].
  eapply rtc_l; [exact demo_late_step|]. apply rtc_once. exact demo_lost_step.
Qed.

(** The drain at teardown does not settle the books.  There is a run after
    which every goroutine has returned and yet one received datagram is
    neither forwarded nor counted by any drop counter. *)
Theorem teardown_loses_datagram :
  exists u, rtc udp_step demo_relay0 u /\
    Forall (fun h => h_reader h = ReaderDone /\ h_deliverer h = DelivererDone) (handles u) /\
    udpDatagramsReceived (metrics u) = udpDatagramsForwarded (metrics u) + dropped (metrics u) + 1.
Proof.
  exists demo_lost. split; [exact demo_lost_reachable|]. split; [|vm_compute; reflexivity].
  apply Forall_singleton. vm_compute. done.
Qed.

Lemma udp_accounting_witness :
  udpDatagramsReceived (metrics demo_lost) =
  udpDatagramsForwarded (metrics demo_lost) + dropped (metrics demo_lost) +
  total_in_transit (handles demo_lost).
Proof. exact (proj1 (udp_accounting demo_cfg demo_reg5 demo_lost demo_lost_reachable)). Defined.

(** Route 1 belongs to "ra"; "rb" asks to close it. *)
Lemma CloseRouteEndpoint_ownership_witness :
  (CloseRouteEndpoint demo_relay1 220 "rb" 1).1 = Err (RegistryError ErrRouteWrongOwner) /\
  u_routes (CloseRouteEndpoint demo_relay1 220 "rb" 1).2 !! 1 = None.
Proof.
  destruct (Route (registry demo_relay1) 1) as [e|] eqn:He; [|vm_compute in He; discriminate].
  pose proof He as He'. vm_compute in He'. injection He' as He'.
  pose proof (CloseRouteEndpoint_ownership demo_relay1 220 "rb" 1 e 0%nat He
    ltac:(rewrite <- He'; reflexivity) ltac:(vm_compute; reflexivity)) as H.
  destruct (CloseRouteEndpoint demo_relay1 220 "rb" 1) as [out u']. destruct H as (H1 & _ & H3).
  split; [|exact H1]. apply H3. rewrite <- He'. discriminate.
Defined.

Lemma liveness_tick_sockets_witness :
  u_routes (liveness_tick demo_relay1 1000 5000 60 ["ra"; "rb"]) !! 1 = None.
Proof.
  assert (registry_inv (registry demo_relay1)) as Hi.
  { destruct (OpenRoute demo_reg5 demo_reg5 200 "ra" 1) as [[e r]|] eqn:Eo;
      [|vm_compute in Eo; discriminate].
    assert (registry_inv r) as Hr.
    { eapply registry_step_inv; [by eapply rs_open|].
      exact (registry_reachable_inv 2 2 _ demo_registry_reachable). }
    destruct (SetRouteEndpoint r r 200 "ra" 1 "relay:40000") as [r2|] eqn:Es.
    - replace (registry demo_relay1) with r2; [eapply registry_step_inv; [by eapply rs_endpoint|done]|].
      vm_compute in Eo. injection Eo as _ <-. vm_compute in Es. injection Es as <-. reflexivity.
    - exfalso. vm_compute in Eo. injection Eo as _ <-. vm_compute in Es. discriminate. }
  assert (["ra"; "rb"] ≡ₚ (map_to_list (registrations (registry demo_relay1))).*1) as Hp
    by (vm_compute; first [reflexivity | apply Permutation_swap]).
  apply (proj1 (liveness_tick_sockets demo_relay1 1000 5000 60 ["ra"; "rb"] 1 Hi Hp)).
  - vm_compute. discriminate.
  - vm_compute. reflexivity.
Defined.
