(* ===== verification/RelayControl.v ===== *)
(** * The relay's control server

    Models [src/Core/Relay/control_server.go], [control_core_ws.go] and
    [control_body_ws.go]: Cores register over a WebSocket, open and close routes
    and send frames; Bodies attach to a route with its credential and exchange
    frames with the Core that owns it.  The server composes the registry and
    the UDP listener of the service, of which [sv_udp] is the state, with its own
    tables of connections.  A message is handled as one step, and steps of
    different connections, of the UDP ingress path and of the liveness loop come
    in any order; a connection that the server has closed delivers no further
    message.  In the source an attachment is checked before the lock is taken, and
    a frame already read from a closed connection is still forwarded: the
    theorems are about messages handled one at a time, except
    [late_attachment_crosses], which runs an attachment in its two parts.  JSON is represented by the decoded message, [None] when decoding
    fails; the text of an error for people is left out. *)
From S2P Require Import Prelude GoBytes RelayCodec RelayRegistry RelayUDP.
From stdpp Require Import options.

(** ** Registration tokens *)

(** [hex.DecodeString] *)
Definition hex_value (c : Ascii.ascii) : option Z :=
  let x := code c in
  if (48 <=? x) && (x <=? 57) then Some (x - 48)
  else if (97 <=? x) && (x <=? 102) then Some (x - 87)
  else if (65 <=? x) && (x <=? 70) then Some (x - 55)
  else None.

Fixpoint hex_decode (s : string) : option (list byte) :=
  match s with
  | EmptyString => Some []
  | String a (String b r) =>
      match hex_value a, hex_value b, hex_decode r with
      | Some x, Some y, Some l => Some (z2b (16 * x + y) :: l)
      | _, _, _ => None
      end
  | String _ EmptyString => None
  end.

Definition VerifyRegistrationToken (token : string) (credentials : list string) : bool :=
  existsb (fun cred => match hex_decode cred with
                       | Some b => bool_decide (sha256 (bytes_of token) = b)
                       | None => false
                       end) credentials.

(** ** State *)

(** A Body's connection: its identity (the pointer of the source), the credential it presented, kept as a history
    variable, the packets waiting for it and the packets dropped. *)
Record bodyWSConn := { bw_conn : nat; bw_credential : string; bw_inbox : list (list byte); bw_dropCount : Z }.

Record ControlServer := {
  sv_config : ServiceConfig;
  sv_udp : UDPListener;
  sv_conns : gmap string (gset Z);
  sv_body : gmap Z bodyWSConn;
  sv_udpSendCount : Z;
}.

Definition NewControlServer (c : ServiceConfig) : ControlServer :=
  {| sv_config := c; sv_udp := NewUDPListener (UDPConfig_ApplyDefaults (UDP c)) (NewRegistry (MaxRegistrations c) (MaxRoutes c));
     sv_conns := ∅; sv_body := ∅; sv_udpSendCount := 0 |}.

Definition with_udp (s : ControlServer) (u : UDPListener) : ControlServer :=
  {| sv_config := sv_config s; sv_udp := u; sv_conns := sv_conns s; sv_body := sv_body s; sv_udpSendCount := sv_udpSendCount s |}.
Definition with_conns (s : ControlServer) (m : gmap string (gset Z)) : ControlServer :=
  {| sv_config := sv_config s; sv_udp := sv_udp s; sv_conns := m; sv_body := sv_body s; sv_udpSendCount := sv_udpSendCount s |}.
Definition with_body (s : ControlServer) (m : gmap Z bodyWSConn) : ControlServer :=
  {| sv_config := sv_config s; sv_udp := sv_udp s; sv_conns := sv_conns s; sv_body := m; sv_udpSendCount := sv_udpSendCount s |}.

Abbreviation reg_of s := (registry (sv_udp s)).

Definition ErrRateLimited := "rate_limited".
Definition ErrAuthFailed := "auth_failed".
Definition ErrRouteLimit := "route_limit".
Definition ErrNotFound := "not_found".
Definition ErrInternal := "internal_error".

(** What the server does to others: replies to a Core, packets in either direction. *)
Inductive output :=
| Opened (reg : string) (rid : Z) (endpoint credential : string)
| ClosedRoute (reg : string) (rid : Z)
| Refusal (reg code : string) (rid : Z)
| CoreToBody (reg : string) (rid : Z) (conn : nat) (payload : list byte)
| CoreDropped (reg : string) (rid : Z)
| CoreToUDP (reg : string) (rid : Z) (payload : list byte) (target : option SourceEndpoint)
| BodyToCore (rid : Z) (conn : nat) (reg : string) (frame : list byte)
| BodyWritten (rid : Z) (conn : nat) (frame : list byte).

(** ** A Core registers *)

(** [id] is the identifier that was drawn, if one could be. *)
Definition handleWS (s : ControlServer) (now : time) (first : option ControlMessage) (id : option string) : res string string * ControlServer :=
  match first with
  | Some (Register token) =>
      if empty_str token then (Err ErrAuthFailed, s)
      else if negb (VerifyRegistrationToken token (Credentials (sv_config s))) then (Err ErrAuthFailed, s)
      else match id with
           | None => (Err ErrInternal, s)
           | Some regID =>
               match AddRegistration (reg_of s) now regID with
               | Err _ => (Err ErrRateLimited, s)
               | Ok r =>
                   let s := with_udp s (on_registry (sv_udp s) r) in
                   let s := with_conns s (<[regID := ∅]> (sv_conns s)) in
                   (Ok regID, with_udp s (SetSink (sv_udp s) regID true))
               end
           end
  | _ => (Err ErrAuthFailed, s)
  end.

(** ** A Core opens and closes routes *)

Definition detachBody (s : ControlServer) (rid : Z) : ControlServer := with_body s (delete rid (sv_body s)).

(** The route in the registry: made, or found with the presented credential; [Some] code is a refusal. *)
Definition establish (u : UDPListener) (now : time) (random : option (list byte)) (reg : string) (rid : Z) (credential : string)
    : option string * UDPListener :=
  match AllocateRoute (registry u) now random reg rid with
  | Ok (_, r) => (None, on_registry u r)
  | Err ErrRouteAlreadyExists =>
      match RouteCredentialsFromEntry (registry u) rid with
      | Ok stored => (if same_str credential stored then None else Some ErrAuthFailed, u)
      | Err _ => (Some ErrAuthFailed, u)
      end
  | Err _ => (Some ErrInternal, u)
  end.

Definition handleRouteOpen (s : ControlServer) (now : time) (random : option (list byte)) (sock : option string) (reg : string) (routes : gset Z)
    (rid : Z) (credential : string) : list output * ControlServer :=
  match ValidateControl (RouteOpen rid credential) with
  | Err _ => ([Refusal reg ErrAuthFailed rid], s)
  | Ok _ =>
      match Bind (sv_udp s) sock rid with
      | (Err _, u) => ([Refusal reg ErrRouteLimit rid], with_udp s u)
      | (Ok ep, u) =>
          match establish u now random reg rid credential with
          | (Some err, u) => ([Refusal reg err rid], with_udp s (UDP_Close u rid).2)
          | (None, u) =>
              match OpenRoute (registry u) (registry u) now reg rid with
              | Err _ => ([Refusal reg ErrInternal rid], with_udp s (roll_back (UDP_Close u rid).2 now reg rid))
              | Ok (_, r) =>
                  let u := on_registry u r in
                  let u := match SetRouteEndpoint (registry u) (registry u) now reg rid ep with Ok r => on_registry u r | Err _ => u end in
                  let creds := match RouteCredentialsFromEntry (registry u) rid with Ok c => c | Err _ => "" end in
                  ([Opened reg rid ep creds], with_conns (with_udp s u) (<[reg := {[rid]} ∪ routes]> (sv_conns s)))
              end
          end
      end
  end.

Definition handleRouteClose (s : ControlServer) (now : time) (reg : string) (routes : gset Z) (rid : Z) : list output * ControlServer :=
  match ValidateControl (RouteClose rid) with
  | Err _ => ([Refusal reg ErrAuthFailed rid], s)
  | Ok _ =>
      if negb (bool_decide (rid ∈ routes)) then ([Refusal reg ErrNotFound rid], s)
      else
        let u := roll_back (UDP_Close (sv_udp s) rid).2 now reg rid in
        let s := with_conns (with_udp s u) (<[reg := routes ∖ {[rid]}]> (sv_conns s)) in
        ([ClosedRoute reg rid], detachBody s rid)
  end.

(** ** A Core sends a frame *)

(** Where [SendTo] sends on a route; [None] when it fails. *)
Definition SendTo (u : UDPListener) (rid : Z) : option SourceEndpoint :=
  match u_routes u !! rid ≫= (fun k => handles u !! k) with
  | None => None
  | Some h => let a := h_lastSeen h in if empty_str (src_IP a) || (src_Port a =? 0) then None else Some a
  end.

Definition defaultBodyMaxQueueDepth : Z := 256.
Definition body_depth (c : ServiceConfig) : Z := if MaxBodyQueueDepth c =? 0 then defaultBodyMaxQueueDepth else MaxBodyQueueDepth c.

Definition handleCoreFrame (s : ControlServer) (reg : string) (routes : gset Z) (raw : list byte) : list output * ControlServer :=
  match UnmarshalFrame raw with
  | Err _ => ([], s)
  | Ok f =>
      let rid := f_RouteID f in
      if negb (bool_decide (rid ∈ routes)) then ([], s)
      else
        match sv_body s !! rid with
        | Some b =>
            if len (bw_inbox b) <? body_depth (sv_config s) then
              ([CoreToBody reg rid (bw_conn b) (f_Payload f)],
               with_body s (<[rid := {| bw_conn := bw_conn b; bw_credential := bw_credential b; bw_inbox := bw_inbox b ++ [f_Payload f];
                                        bw_dropCount := bw_dropCount b |}]> (sv_body s)))
            else
              ([CoreDropped reg rid],
               with_body s (<[rid := {| bw_conn := bw_conn b; bw_credential := bw_credential b; bw_inbox := bw_inbox b;
                                        bw_dropCount := bw_dropCount b + 1 |}]> (sv_body s)))
        | None =>
            ([CoreToUDP reg rid (f_Payload f) (SendTo (sv_udp s) rid)],
             {| sv_config := sv_config s; sv_udp := sv_udp s; sv_conns := sv_conns s; sv_body := sv_body s; sv_udpSendCount := sv_udpSendCount s + 1 |})
        end
  end.

(** Any message first refreshes the registration. *)
Definition refresh (s : ControlServer) (now : time) (reg : string) : ControlServer :=
  match Keepalive (reg_of s) now reg with Ok r => with_udp s (on_registry (sv_udp s) r) | Err _ => s end.

Inductive core_message := Binary (raw : list byte) | Text (m : option ControlMessage).

Definition handleCore (s : ControlServer) (now : time) (random : option (list byte)) (sock : option string) (reg : string) (m : core_message)
    : list output * ControlServer :=
  match sv_conns s !! reg with
  | None => ([], s)
  | Some routes =>
      let s := refresh s now reg in
      match m with
      | Binary raw => handleCoreFrame s reg routes raw
      | Text (Some (RouteOpen rid credential)) => handleRouteOpen s now random sock reg routes rid credential
      | Text (Some (RouteClose rid)) => handleRouteClose s now reg routes rid
      | Text _ => ([], s)
      end
  end.

(** The connection ends: its routes are released. *)
Definition coreGone (s : ControlServer) (reg : string) : ControlServer :=
  match sv_conns s !! reg with
  | None => s
  | Some routes =>
      let s := with_conns s (delete reg (sv_conns s)) in
      let s := with_udp s (SetSink (sv_udp s) reg false) in
      let s := with_udp s (on_registry (sv_udp s) (RemoveRegistration (reg_of s) reg).2) in
      fold_left (fun s rid => detachBody (with_udp s (UDP_Close (sv_udp s) rid).2) rid) (elements routes) s
  end.

(** ** Bodies *)

(** The checks of an attachment: the route and the credential that was presented. *)
Definition body_check (s : ControlServer) (first : option ControlMessage) : option (Z * string) :=
  match first with
  | Some (BodyAttach version rid credential) =>
      if negb (version =? ProtocolVersion) then None
      else if rid =? 0 then None
      else if empty_str credential then None
      else match Route (reg_of s) rid with
           | None => None
           | Some e =>
               if negb (bool_decide (re_State e = RouteStateOpen)) then None
               else match RouteCredentialsFromEntry (reg_of s) rid with
                    | Err _ => None
                    | Ok stored => if negb (same_str credential stored) then None else Some (rid, credential)
                    end
           end
  | _ => None
  end.

(** The insertion under [cs.mu]; a connection that was attached to the route is closed. *)
Definition attach (s : ControlServer) (rid : Z) (credential : string) (conn : nat) : ControlServer :=
  with_body s (<[rid := {| bw_conn := conn; bw_credential := credential; bw_inbox := []; bw_dropCount := 0 |}]> (sv_body s)).

(** [conn] names the new connection.  The source makes the checks before it takes the lock; here they are one step
    ([late_attachment_crosses] shows what the gap allows). *)
Definition handleBodyWS (s : ControlServer) (first : option ControlMessage) (conn : nat) : bool * ControlServer :=
  match body_check s first with
  | None => (false, s)
  | Some (rid, credential) => (true, attach s rid credential conn)
  end.

Definition handleBodyFrame (s : ControlServer) (bound : Z) (conn : nat) (raw : list byte) : list output :=
  match UnmarshalFrame raw with
  | Err _ => []
  | Ok f =>
      if negb (f_Version f =? ProtocolVersion) then []
      else if (f_RouteID f =? 0) || (MaxRouteID <? f_RouteID f) then []
      else if negb (f_RouteID f =? bound) then []
      else if len (f_Payload f) =? 0 then []
      else match RouteRegistration (reg_of s) (f_RouteID f) with
           | None => []
           | Some reg =>
               match sv_conns s !! reg with
               | None => []
               | Some _ =>
                   match MarshalFrame (Some {| f_Version := ProtocolVersion; f_RouteID := f_RouteID f; f_Payload := f_Payload f |}) with
                   | Ok out => [BodyToCore bound conn reg out]
                   | Err _ => []
                   end
               end
           end
  end.

(** Only the connection that is still attached acts. *)
Definition attached (s : ControlServer) (rid : Z) (conn : nat) : option bodyWSConn :=
  match sv_body s !! rid with Some b => if Nat.eqb (bw_conn b) conn then Some b else None | None => None end.

Definition bodyGone (s : ControlServer) (rid : Z) (conn : nat) : ControlServer :=
  match attached s rid conn with Some _ => detachBody s rid | None => s end.

Definition drainInbox (s : ControlServer) (rid : Z) (conn : nat) : list output * ControlServer :=
  match attached s rid conn with
  | Some b =>
      match bw_inbox b with
      | [] => ([], s)
      | payload :: rest =>
          (match MarshalFrame (Some {| f_Version := ProtocolVersion; f_RouteID := rid; f_Payload := payload |}) with
           | Ok frame => [BodyWritten rid conn frame]
           | Err _ => []
           end,
           with_body s (<[rid := {| bw_conn := bw_conn b; bw_credential := bw_credential b; bw_inbox := rest; bw_dropCount := bw_dropCount b |}]> (sv_body s)))
      end
  | None => ([], s)
  end.

(** ** Steps *)

(** A datagram on the socket of a route, up to its queue; its delivery to the Core is the listener's. *)
Definition ingress (u : UDPListener) (now : time) (rid : Z) (datagram : list byte) (src : SourceEndpoint) : UDPListener :=
  match u_routes u !! rid with
  | None => u
  | Some k =>
      match handles u !! k with
      | Some h =>
          let u := readLoop u k h datagram src in
          match handles u !! k with
          | Some h =>
              match h_reader h with
              | Dispatching d =>
                  let u := dispatch u now k h d in
                  match handles u !! k with
                  | Some h => match h_reader h with Enqueuing d => enqueue u k h d | _ => u end
                  | None => u
                  end
              | _ => u
              end
          | None => u
          end
      | None => u
      end
  end.

Inductive ctl_event :=
| CoreRegisters (now : time) (first : option ControlMessage) (id : option string)
| CoreSends (now : time) (random : option (list byte)) (sock : option string) (reg : string) (m : core_message)
| CoreGone (reg : string)
| BodyAttaches (first : option ControlMessage) (conn : nat)
| BodySends (rid : Z) (conn : nat) (raw : list byte)
| BodyGone (rid : Z) (conn : nat)
| BodyDrains (rid : Z) (conn : nat)
| DatagramArrives (now : time) (rid : Z) (datagram : list byte) (src : SourceEndpoint)
| Expire (now : time) (order : list string).

Definition serve (s : ControlServer) (ev : ctl_event) : list output * ControlServer :=
  match ev with
  | CoreRegisters now first id => ([], (handleWS s now first id).2)
  | CoreSends now random sock reg m => handleCore s now random sock reg m
  | CoreGone reg => ([], coreGone s reg)
  | BodyAttaches first conn => ([], (handleBodyWS s first conn).2)
  | BodySends rid conn raw => (match attached s rid conn with Some _ => handleBodyFrame s rid conn raw | None => [] end, s)
  | BodyGone rid conn => ([], bodyGone s rid conn)
  | BodyDrains rid conn => drainInbox s rid conn
  | DatagramArrives now rid datagram src => ([], with_udp s (ingress (sv_udp s) now rid datagram src))
  | Expire now order => ([], with_udp s (liveness_tick (sv_udp s) now (RegistrationTimeout (sv_config s)) (RouteTimeout (sv_config s)) order))
  end.

(** ** What the tables agree on while nothing expires *)

(** Owner, state and credential of a route. *)
Definition view (e : RouteEntry) : string * RouteState * string := (re_RegistrationID e, re_State e, re_Credentials e).
Definition owner (r : Registry) (rid : Z) : option (string * RouteState * string) := view <$> routes r !! rid.

Record serving (s : ControlServer) : Prop := {
  sg_inv : registry_inv (reg_of s);
  sg_conns : forall reg, is_Some (sv_conns s !! reg) <-> is_Some (registrations (reg_of s) !! reg);
  sg_routes : forall reg rs rid, sv_conns s !! reg = Some rs -> rid ∈ rs <-> exists c, owner (reg_of s) rid = Some (reg, RouteStateOpen, c);
  sg_open : forall rid reg st c, owner (reg_of s) rid = Some (reg, st, c) -> st = RouteStateOpen;
  sg_bound : forall rid, is_Some (u_routes (sv_udp s) !! rid) <-> is_Some (owner (reg_of s) rid);
  sg_sinks : forall reg, reg ∈ sinks (sv_udp s) <-> is_Some (sv_conns s !! reg);
  sg_body : forall rid b, sv_body s !! rid = Some b -> exists reg, owner (reg_of s) rid = Some (reg, RouteStateOpen, bw_credential b);
  sg_depth : forall rid b, sv_body s !! rid = Some b -> len (bw_inbox b) <= Z.max 0 (body_depth (sv_config s));
}.

(** Listeners that differ in nothing the invariant speaks of. *)
Record udp_same (u u' : UDPListener) : Prop := {
  us_inv : registry_inv (registry u) -> registry_inv (registry u');
  us_regs : forall reg, is_Some (registrations (registry u') !! reg) <-> is_Some (registrations (registry u) !! reg);
  us_owner : forall rid, owner (registry u') rid = owner (registry u) rid;
  us_bound : forall rid, is_Some (u_routes u' !! rid) <-> is_Some (u_routes u !! rid);
  us_sinks : sinks u' = sinks u;
}.

Lemma udp_same_refl u : udp_same u u.
Proof. by split. Qed.

Lemma udp_same_trans u v w : udp_same u v -> udp_same v w -> udp_same u w.
Proof.
  intros [A1 A2 A3 A4 A5] [B1 B2 B3 B4 B5]. split; [auto|intros; by rewrite B2|intros; by rewrite B3|intros; by rewrite B4|congruence].
Qed.

Lemma serving_same s u : serving s -> udp_same (sv_udp s) u -> serving (with_udp s u).
Proof.
  intros [H1 H2 H3 H4 H5 H6 H7 H8] [A1 A2 A3 A4 A5]. split; simpl; try done; [auto|..].
  - intros reg. by rewrite A2.
  - intros reg rs rid Hr. rewrite A3. by apply H3.
  - intros rid. rewrite A3. apply H4.
  - intros rid. rewrite A4, A3. apply H5.
  - intros reg. rewrite A5. apply H6.
  - intros rid b. rewrite A3. apply H7.
Qed.

(** A registry operation that keeps registrations and what a route shows. *)
Lemma udp_same_registry u r : registry_step (registry u) r ->
  (forall reg, is_Some (registrations r !! reg) <-> is_Some (registrations (registry u) !! reg)) ->
  (forall rid, owner r rid = owner (registry u) rid) -> udp_same u (on_registry u r).
Proof. intros Hs Hr Ho. split; simpl; try done. intros Hi. by eapply registry_step_inv. Qed.

Lemma owner_insert r rid e i : owner (put_routes r (<[rid := e]> (routes r))) i = if decide (i = rid) then Some (view e) else owner r i.
Proof. unfold owner. simpl. destruct (decide (i = rid)) as [->|]; [by rewrite lookup_insert_eq|by rewrite lookup_insert_ne]. Qed.

Lemma refresh_same s now reg : exists u, refresh s now reg = with_udp s u /\ udp_same (sv_udp s) u.
Proof.
  unfold refresh. destruct (Keepalive (reg_of s) now reg) as [r|] eqn:E.
  - eexists. split; [done|]. apply udp_same_registry; [by eapply rs_keepalive| |]; unfold Keepalive in E; case_match eqn:Eg; simplify_eq; simpl; [|done].
    intros i. destruct (decide (i = reg)) as [->|]; [rewrite lookup_insert_eq, Eg|rewrite lookup_insert_ne by done]; by split.
  - exists (sv_udp s). split; [by destruct s|apply udp_same_refl].
Qed.

Lemma touch_same u now rid r : TouchRoute (registry u) now rid = Ok r -> udp_same u (on_registry u r).
Proof.
  intros E. apply udp_same_registry; [by eapply rs_touch| |]; unfold TouchRoute in E; case_match eqn:Eg; simplify_eq; simpl; [done|].
  intros i. rewrite owner_insert. case_decide as Hd; [subst|done]. unfold owner. by rewrite Eg.
Qed.

Lemma same_parts u u' : registry u' = registry u -> u_routes u' = u_routes u -> sinks u' = sinks u -> udp_same u u'.
Proof. intros E1 E2 E3. split; rewrite ?E1, ?E2, ?E3; done. Qed.

Lemma ingress_same u now rid datagram src : udp_same u (ingress u now rid datagram src).
Proof.
  unfold ingress. destruct (u_routes u !! rid) as [k|]; [|apply udp_same_refl]. destruct (handles u !! k) as [h|]; [|apply udp_same_refl].
  assert (udp_same u (readLoop u k h datagram src)) as H1 by (apply same_parts; unfold readLoop; by repeat case_match).
  set (u1 := readLoop u k h datagram src) in *. destruct (handles u1 !! k) as [h1|]; [|done].
  destruct (h_reader h1) as [|d| |]; try done.
  assert (udp_same u (dispatch u1 now k h1 d)) as H2.
  { eapply udp_same_trans; [exact H1|]. unfold dispatch. case_match; [by apply same_parts|]. case_match; [|by apply same_parts].
    destruct (TouchRoute _ _ _) as [r|] eqn:E; [|by apply same_parts]. apply touch_same in E.
    eapply udp_same_trans; [exact E|]. by apply same_parts. }
  set (u2 := dispatch u1 now k h1 d) in *. destruct (handles u2 !! k) as [h2|]; [|done]. destruct (h_reader h2); try done.
  eapply udp_same_trans; [exact H2|]. apply same_parts; unfold enqueue; by case_match.
Qed.

(** *** Opening a route *)

Lemma allocate_spec r now random reg rid e r' : AllocateRoute r now random reg rid = Ok (e, r') ->
  routes r' = <[rid := e]> (routes r) /\ view e = (reg, RouteStateAllocated, re_Credentials e) /\
  (forall i, is_Some (registrations r' !! i) <-> is_Some (registrations r !! i)).
Proof.
  unfold AllocateRoute. destruct (registrations r !! reg) as [g|] eqn:Eg; [|done]. case_bool_decide; [done|]. intros Hx.
  repeat case_match; simplify_eq; simpl. split_and!; [done|done|].
  intros i. destruct (decide (i = reg)) as [->|]; [rewrite lookup_insert_eq, Eg|rewrite lookup_insert_ne by done]; by split.
Qed.

Lemma open_spec r now reg rid e : routes r !! rid = Some e -> re_RegistrationID e = reg -> re_State e = RouteStateAllocated ->
  OpenRoute r r now reg rid =
    Ok (update_route e RouteStateOpen (re_Credentials e) (re_Endpoint e) now,
        put_routes r (<[rid := update_route e RouteStateOpen (re_Credentials e) (re_Endpoint e) now]> (routes r))).
Proof.
  intros He Ho Hs. unfold OpenRoute, getOwnedRoute, res_bind. rewrite He, (proj2 (same_str_true _ _) Ho). simpl. by rewrite Hs.
Qed.

Lemma endpoint_same u now reg rid ep : udp_same u match SetRouteEndpoint (registry u) (registry u) now reg rid ep with Ok r => on_registry u r | Err _ => u end.
Proof.
  destruct (SetRouteEndpoint _ _ _ _ _ _) as [r|] eqn:E; [|apply udp_same_refl].
  apply udp_same_registry; [by eapply rs_endpoint| |]; unfold SetRouteEndpoint, getOwnedRoute, res_bind in E; repeat case_match; simplify_eq; simpl; try done.
  intros i. rewrite owner_insert. case_decide; [subst|done]. unfold owner. by match goal with H : routes _ !! _ = Some _ |- _ => rewrite H end.
Qed.

(** The server after a route was opened. *)
Lemma serving_open s u reg rs rid c :
  serving s -> sv_conns s !! reg = Some rs -> owner (reg_of s) rid = None ->
  registry_inv (registry u) -> (forall i, is_Some (registrations (registry u) !! i) <-> is_Some (registrations (reg_of s) !! i)) ->
  (forall i, owner (registry u) i = if decide (i = rid) then Some (reg, RouteStateOpen, c) else owner (reg_of s) i) ->
  (forall i, is_Some (u_routes u !! i) <-> i = rid \/ is_Some (u_routes (sv_udp s) !! i)) -> sinks u = sinks (sv_udp s) ->
  serving (with_conns (with_udp s u) (<[reg := {[rid]} ∪ rs]> (sv_conns s))).
Proof.
  intros [H1 H2 H3 H4 H5 H6 H7 H8] Hc Hn Hi Hr Ho Hu Hs.
  assert (forall i, is_Some (<[reg := {[rid]} ∪ rs]> (sv_conns s) !! i) <-> is_Some (sv_conns s !! i)) as Hdom.
  { intros i. destruct (decide (i = reg)) as [->|]; [rewrite lookup_insert_eq, Hc|rewrite lookup_insert_ne by done]; by split. }
  split; simpl; try done.
  - intros i. by rewrite Hdom, Hr.
  - intros i rs' k. rewrite Ho. destruct (decide (i = reg)) as [->|].
    + rewrite lookup_insert_eq. intros [= <-]. rewrite elem_of_union, elem_of_singleton, (H3 _ _ k Hc). case_decide as Hk; [subst; split; [by eauto|by left]|]. split; [by intros [?|?]|by right].
    + rewrite lookup_insert_ne by done. intros Hi'. rewrite (H3 _ _ k Hi'). case_decide as Hk; [subst|done].
      rewrite Hn. split; [intros [? [=]]|intros (? & ?); simplify_eq].
  - intros k i st x. rewrite Ho. case_decide; [congruence|apply H4].
  - intros k. rewrite Hu, Ho, H5. case_decide; [subst; split; [by eauto|by left]|]. split; [by intros [?|?]|by right].
  - intros i. rewrite Hs, Hdom. apply H6.
  - intros k b Hb. rewrite Ho. destruct (H7 _ _ Hb) as [x Hx]. case_decide; [subst; congruence|by exists x].
Qed.

Lemma route_open_serving s now random sock reg rs rid cred :
  serving s -> sv_conns s !! reg = Some rs -> serving (handleRouteOpen s now random sock reg rs rid cred).2.
Proof.
  intros Hs Hc. pose proof Hs as [H1 H2 H3 H4 H5 H6 H7 H8]. unfold handleRouteOpen.
  destruct (ValidateControl _); [|done]. unfold Bind.
  destruct (u_closed (sv_udp s)); [by apply serving_same, udp_same_refl|].
  case_bool_decide as Hb; [by apply serving_same, udp_same_refl|].
  destruct sock as [ep|]; [|by apply serving_same, udp_same_refl].
  match goal with |- context [establish ?u _ _ _ _ _] => set (u1 := u) end.
  assert (owner (reg_of s) rid = None) as Hn by (apply eq_None_not_Some; by rewrite <- H5).
  assert (routes (reg_of s) !! rid = None) as Hn' by (unfold owner in Hn; by apply fmap_None in Hn).
  assert (is_Some (registrations (reg_of s) !! reg)) as [g Hg] by (apply H2; eauto).
  unfold establish. destruct (AllocateRoute (registry u1) now random reg rid) as [[e r1]|err] eqn:Ea.
  - pose proof (allocate_spec _ _ _ _ _ _ _ Ea) as (Hr1 & Hv & Hd). simpl in Hr1, Hd.
    assert (re_RegistrationID e = reg /\ re_State e = RouteStateAllocated) as [Eo Es] by (unfold view in Hv; split; congruence).
    rewrite (open_spec _ now reg rid e) by (simpl; rewrite ?Hr1, ?lookup_insert_eq; done).
    set (e2 := update_route e RouteStateOpen _ _ _).
    match goal with |- context [SetRouteEndpoint (registry ?u) _ _ _ _ _] => set (u2 := u) end.
    pose proof (endpoint_same u2 now reg rid ep) as [E1 E2 E3 E4 E5].
    set (u3 := match SetRouteEndpoint _ _ _ _ _ _ with Ok r => _ | Err _ => _ end) in *. cbn [snd].
    apply (serving_open s u3 reg rs rid (re_Credentials e)); try done.
    + apply E1. simpl. assert (registry_inv r1) as Hi1 by (by eapply allocate_inv).
      apply (put_route_inv r1 rid e e2); [done|by rewrite Hr1, lookup_insert_eq|done|done|by right].
    + intros i. rewrite E2. simpl. apply Hd.
    + intros i. rewrite E3. simpl. rewrite owner_insert. case_decide as Hi; [unfold view; simpl; by rewrite Eo|].
      unfold owner. by rewrite Hr1, lookup_insert_ne by done.
    + intros i. rewrite E4. simpl. destruct (decide (i = rid)) as [->|]; [rewrite lookup_insert_eq; split; [by left|by eauto]|].
      rewrite lookup_insert_ne by done. split; [by right|by intros [?|?]].
  - assert (serving (with_udp s (UDP_Close u1 rid).2)) as Hclose.
    { apply serving_same; [done|]. split; rewrite ?(proj2 (UDP_Close_routes u1 rid rid)); try done.
      - intros i. rewrite (proj1 (UDP_Close_routes u1 rid i)). simpl. case_decide as Hi; [subst; split; [by intros [? [=]]|done]|].
        by rewrite lookup_insert_ne by done.
      - unfold UDP_Close. by case_match. }
    destruct err; try exact Hclose. exfalso. revert Ea. unfold AllocateRoute. simpl. rewrite Hg, bool_decide_false by (rewrite Hn'; by intros [? [=]]).
    by repeat case_match.
Qed.

(** *** Closing routes *)

Lemma serving_drop s u conns body count (gone : gset Z) :
  serving s -> registry_inv (registry u) ->
  (forall i, is_Some (conns !! i) <-> is_Some (registrations (registry u) !! i)) ->
  (forall i rs', conns !! i = Some rs' -> exists rs, sv_conns s !! i = Some rs /\ rs' = rs ∖ gone) ->
  (forall i, owner (registry u) i = if decide (i ∈ gone) then None else owner (reg_of s) i) ->
  (forall i, is_Some (u_routes u !! i) <-> (i ∉ gone) /\ is_Some (u_routes (sv_udp s) !! i)) ->
  (forall i, i ∈ sinks u <-> is_Some (conns !! i)) ->
  (forall i b, body !! i = Some b -> (i ∉ gone) /\ sv_body s !! i = Some b) ->
  serving {| sv_config := sv_config s; sv_udp := u; sv_conns := conns; sv_body := body; sv_udpSendCount := count |}.
Proof.
  intros [H1 H2 H3 H4 H5 H6 H7 H8] Hi Hr Hc Ho Hu Hs Hb. split; simpl; try done.
  - intros reg rs' rid (rs & Hrs & ->)%Hc. rewrite elem_of_difference, (H3 _ _ rid Hrs), Ho. case_decide; [|by intuition].
    split; [by intros [_ ?]|by intros (? & ?)].
  - intros rid reg st c. rewrite Ho. case_decide; [done|apply H4].
  - intros rid. rewrite Hu, Ho, H5. case_decide; [|by intuition]. split; [by intros [? _]|by intros [? ?]].
  - intros rid b (Hg & Hb')%Hb. rewrite Ho, decide_False by done. by apply H7.
  - intros rid b (_ & Hb')%Hb. by eapply H8.
Qed.

(** A route of one Core is in no other Core's set. *)
Lemma routes_apart s reg rs rid i rs' : serving s -> sv_conns s !! reg = Some rs -> rid ∈ rs -> sv_conns s !! i = Some rs' -> i <> reg -> rid ∉ rs'.
Proof.
  intros Hs Hr Hin Hi Hne Hin'. apply (sg_routes _ Hs _ _ _ Hr) in Hin as [c Hc]. apply (sg_routes _ Hs _ _ _ Hi) in Hin' as [c' Hc']. congruence.
Qed.

Lemma close_registry u now reg rid c : registry_inv (registry u) -> owner (registry u) rid = Some (reg, RouteStateOpen, c) ->
  let u' := roll_back u now reg rid in
  registry_inv (registry u') /\ u_routes u' = u_routes u /\ sinks u' = sinks u /\
  (forall i, is_Some (registrations (registry u') !! i) <-> is_Some (registrations (registry u) !! i)) /\
  (forall i, owner (registry u') i = if decide (i = rid) then None else owner (registry u) i).
Proof.
  intros Hi Ho. unfold owner in Ho. apply fmap_Some in Ho as (e & He & Hv). unfold view in Hv.
  assert (re_RegistrationID e = reg /\ re_State e = RouteStateOpen) as [Er Es] by (split; congruence).
  destruct (ri_owner _ Hi _ _ He) as [_ (g & Hg & _)]. rewrite Er in Hg. unfold roll_back.
  destruct (CloseRoute (registry u) now reg rid) as [[cp r]|err] eqn:E.
  - cbv zeta. simpl. split_and!; try done; [by eapply registry_step_inv; [by eapply rs_close|]| |];
      unfold CloseRoute in E; rewrite He in E; repeat case_match; simplify_eq; simpl.
    + intros i. destruct (decide (i = re_RegistrationID e)) as [->|]; [rewrite lookup_insert_eq|by rewrite lookup_insert_ne].
      split; [by eauto|intros _; by eauto].
    + intros i. unfold owner. simpl. destruct (decide (i = rid)) as [->|]; [by rewrite lookup_delete_eq|by rewrite lookup_delete_ne].
  - exfalso. revert E. unfold CloseRoute. rewrite He, (proj2 (same_str_true _ _) Er), bool_decide_false by congruence. done.
Qed.

Lemma UDP_Close_same u rid : registry (UDP_Close u rid).2 = registry u /\ sinks (UDP_Close u rid).2 = sinks u.
Proof. unfold UDP_Close. by case_match. Qed.

Lemma route_close_serving s now reg rs rid : serving s -> sv_conns s !! reg = Some rs -> serving (handleRouteClose s now reg rs rid).2.
Proof.
  intros Hs Hc. unfold handleRouteClose. destruct (ValidateControl _); [|done]. case_bool_decide as Hin; [|done]. cbn [negb snd].
  pose proof Hin as [c Ho]%(sg_routes _ Hs _ _ _ Hc). pose proof (UDP_Close_same (sv_udp s) rid) as [Er Ek].
  pose proof (close_registry (UDP_Close (sv_udp s) rid).2 now reg rid c) as H. rewrite Er in H.
  destruct (H (sg_inv _ Hs) Ho) as (Hi & Hu & Hk & Hreg & Hown). clear H.
  assert (forall i, is_Some (<[reg := rs ∖ {[rid]}]> (sv_conns s) !! i) <-> is_Some (sv_conns s !! i)) as Hdom.
  { intros i. destruct (decide (i = reg)) as [->|]; [rewrite lookup_insert_eq, Hc|rewrite lookup_insert_ne by done]; by split. }
  apply (serving_drop s _ _ _ _ {[rid]}); try done; simpl.
  - intros i. rewrite Hdom, Hreg. apply (sg_conns _ Hs).
  - intros i rs'. destruct (decide (i = reg)) as [->|Hne]; [rewrite lookup_insert_eq; intros [= <-]; eauto|].
    rewrite lookup_insert_ne by done. intros Hr. exists rs'. split; [done|].
    pose proof (routes_apart s reg rs rid i rs' Hs Hc Hin Hr Hne) as Ha.
    apply set_eq. intros k. rewrite elem_of_difference, elem_of_singleton. split; [intros Hki; split; [done|by intros ->]|by intros [? _]].
  - intros i. rewrite Hown. destruct (decide (i = rid)) as [->|Hki]; [by rewrite decide_True by (by apply elem_of_singleton)|].
    by rewrite decide_False by (by rewrite elem_of_singleton).
  - intros i. rewrite Hu, (proj1 (UDP_Close_routes _ _ _)). case_decide; [subst; split; [by intros [? ?]|intros [Hx _]; by destruct Hx; apply elem_of_singleton]|].
    rewrite elem_of_singleton. tauto.
  - intros i. rewrite Hk, Ek, Hdom. apply (sg_sinks _ Hs).
  - intros i b. rewrite lookup_delete_Some, elem_of_singleton. intros [? ?]. by split.
Qed.

Lemma elem_of_cons_dec (i rid : Z) (l : list Z) (A : Type) (x y : A) :
  (if decide (i ∈ rid :: l) then x else y) = if decide (i = rid) then x else if decide (i ∈ l) then x else y.
Proof. destruct (decide (i ∈ rid :: l)) as [H|H]; rewrite elem_of_cons in H; repeat case_decide; try done; tauto. Qed.

Lemma release_fold l s :
  let s' := fold_left (fun s rid => detachBody (with_udp s (UDP_Close (sv_udp s) rid).2) rid) l s in
  sv_config s' = sv_config s /\ sv_conns s' = sv_conns s /\ reg_of s' = reg_of s /\ sinks (sv_udp s') = sinks (sv_udp s) /\
  (forall i, u_routes (sv_udp s') !! i = if decide (i ∈ l) then None else u_routes (sv_udp s) !! i) /\
  (forall i, sv_body s' !! i = if decide (i ∈ l) then None else sv_body s !! i).
Proof.
  revert s. induction l as [|rid l IH]; intros s; [done|]. cbn [fold_left].
  destruct (IH (detachBody (with_udp s (UDP_Close (sv_udp s) rid).2) rid)) as (-> & -> & -> & -> & Hu & Hb).
  pose proof (UDP_Close_same (sv_udp s) rid) as [Er Ek]. simpl. split_and!; try done.
  - intros i. rewrite Hu. simpl. rewrite (proj1 (UDP_Close_routes _ _ _)).
    rewrite elem_of_cons_dec. by destruct (decide (i = rid)), (decide (i ∈ l)).
  - intros i. rewrite Hb. simpl. rewrite elem_of_cons_dec.
    destruct (decide (i = rid)) as [->|]; [rewrite lookup_delete_eq|rewrite lookup_delete_ne by done]; by destruct (decide (_ ∈ l)).
Qed.

Lemma remove_registry r reg : registry_inv r ->
  registry_inv (RemoveRegistration r reg).2 /\
  (forall i, is_Some (registrations (RemoveRegistration r reg).2 !! i) <-> i <> reg /\ is_Some (registrations r !! i)) /\
  (forall i, owner (RemoveRegistration r reg).2 i = match owner r i with Some (o, st, c) => if decide (o = reg) then None else Some (o, st, c) | None => None end).
Proof.
  intros Hi. split; [by eapply registry_step_inv; [apply rs_remove|]|]. unfold RemoveRegistration. destruct (registrations r !! reg) as [g|] eqn:Hg; simpl.
  - split; intros i.
    + destruct (decide (i = reg)) as [->|]; [rewrite lookup_delete_eq; split; [by intros [? ?]|by intros [? _]]|rewrite lookup_delete_ne by done; tauto].
    + unfold owner. simpl. rewrite lookup_delete_routes. unfold RouteIDs. pose proof (owned_iff r reg g i Hi Hg) as Ho.
      destruct (routes r !! i) as [e|] eqn:He; simpl; [|by case_decide].
      destruct (decide (re_RegistrationID e = reg)) as [Hr|Hr], (decide (i ∈ elements (rg_routes g))) as [Hin|Hin]; try done.
      * exfalso. apply Hin, elem_of_elements, Ho. eauto.
      * exfalso. apply Hr. apply elem_of_elements, Ho in Hin as (e' & [= <-] & ?). done.
  - split; intros i; [split; [intros H; split; [intros ->; rewrite Hg in H; by destruct H|done]|by intros [_ ?]]|].
    unfold owner. destruct (routes r !! i) as [e|] eqn:He; simpl; [|done]. case_decide as Hr; [|done].
    destruct (ri_owner _ Hi _ _ He) as [_ (g & Hg' & _)]. congruence.
Qed.

Lemma core_gone_serving s reg : serving s -> serving (coreGone s reg).
Proof.
  intros Hs. unfold coreGone. destruct (sv_conns s !! reg) as [rs|] eqn:Hc; [|done]. cbv zeta.
  match goal with |- serving (fold_left _ _ ?x) => set (s1 := x) end.
  pose proof (release_fold (elements rs) s1) as (Ec & Ek & Er & Es & Hu & Hb).
  set (s2 := fold_left _ _ _) in *. destruct (remove_registry (reg_of s) reg (sg_inv _ Hs)) as (Hi & Hreg & Ho).
  assert (reg_of s1 = (RemoveRegistration (reg_of s) reg).2) as E1 by done.
  assert (s2 = {| sv_config := sv_config s; sv_udp := sv_udp s2; sv_conns := delete reg (sv_conns s); sv_body := sv_body s2; sv_udpSendCount := sv_udpSendCount s2 |}) as ->.
  { destruct s2. simpl in *. by subst. }
  apply (serving_drop s _ _ _ _ rs); try done; rewrite ?Er, ?E1; try done.
  - intros i. rewrite Hreg, <- (sg_conns _ Hs). destruct (decide (i = reg)) as [->|]; [rewrite lookup_delete_eq; split; [by intros [? ?]|by intros [? _]]|].
    rewrite lookup_delete_ne by done. tauto.
  - intros i rs'. rewrite lookup_delete_Some. intros [Hne Hr]. exists rs'. split; [done|].
    apply set_eq. intros k. rewrite elem_of_difference. split; [|by intros [? _]]. intros Hk. split; [done|]. intros Hk'.
    by eapply (routes_apart s reg rs k i rs').
  - intros i. rewrite Ho. pose proof (sg_routes _ Hs _ _ i Hc) as Hin. destruct (owner (reg_of s) i) as [[[o st] c]|] eqn:Eo; [|by case_decide].
    pose proof (sg_open _ Hs _ _ _ _ Eo) as ->. destruct (decide (o = reg)) as [->|], (decide (i ∈ rs)) as [Hx|Hx]; try done.
    + exfalso. apply Hx, Hin. eauto.
    + exfalso. apply Hin in Hx as [c' [= ]]. done.
  - intros i. rewrite Hu. simpl. destruct (decide (i ∈ elements rs)) as [Hx|Hx]; rewrite elem_of_elements in Hx; [|tauto].
    split; [by intros [? ?]|tauto].
  - intros i. rewrite Es. simpl. rewrite elem_of_difference, elem_of_singleton, (sg_sinks _ Hs).
    destruct (decide (i = reg)) as [->|]; [rewrite lookup_delete_eq; split; [tauto|by intros [? ?]]|rewrite lookup_delete_ne by done; tauto].
  - intros i b. rewrite Hb. simpl. destruct (decide (i ∈ elements rs)) as [Hx|Hx]; [done|]. rewrite elem_of_elements in Hx. done.
Qed.

Lemma register_serving s now first id : serving s -> serving (handleWS s now first id).2.
Proof.
  intros Hs. unfold handleWS. destruct first as [[token| | | | | | | |]|]; try done. destruct (empty_str token); [done|].
  destruct (VerifyRegistrationToken _ _); [|done]. destruct id as [reg|]; [|done]. cbn [negb].
  destruct (AddRegistration (reg_of s) now reg) as [r|] eqn:E; [|done]. cbn [snd].
  assert (registry_inv r) as Hi by (eapply registry_step_inv; [by eapply rs_add|apply Hs]).
  unfold AddRegistration in E. case_bool_decide as Hn; [done|]. case_match; [done|]. injection E as <-. cbn in Hi.
  assert (sv_conns s !! reg = None) as Hc by (apply eq_None_not_Some; by rewrite (sg_conns _ Hs)).
  pose proof Hs as [H1 H2 H3 H4 H5 H6 H7 H8]. split; simpl; try done.
  - intros i. destruct (decide (i = reg)) as [->|]; [rewrite !lookup_insert_eq; by split; eauto|]. by rewrite !lookup_insert_ne.
  - intros i rs rid. destruct (decide (i = reg)) as [->|]; [|rewrite lookup_insert_ne by done; apply H3].
    rewrite lookup_insert_eq. intros [= <-]. split; [set_solver|]. intros [c Ho]. exfalso. apply Hn.
    unfold owner in Ho. simpl in Ho. apply fmap_Some in Ho as (e & He & Hv). destruct (ri_owner _ H1 _ _ He) as [_ (g & Hg & _)].
    unfold view in Hv. exists g. congruence.
  - intros i. rewrite elem_of_union, elem_of_singleton, H6. destruct (decide (i = reg)) as [->|];
      [rewrite lookup_insert_eq; split; [by eauto|by left]|rewrite lookup_insert_ne by done; split; [by intros [?|?]|by right]].
Qed.

(** Changing a Body's connection without changing whose it is. *)
Lemma serving_body s rid b reg :
  serving s -> owner (reg_of s) rid = Some (reg, RouteStateOpen, bw_credential b) ->
  len (bw_inbox b) <= Z.max 0 (body_depth (sv_config s)) -> serving (with_body s (<[rid := b]> (sv_body s))).
Proof.
  intros [H1 H2 H3 H4 H5 H6 H7 H8] Ho Hl. split; simpl; try done.
  - intros i b'. rewrite lookup_insert_Some. intros [[<- <-]|[_ H]]; [by eauto|by apply H7].
  - intros i b'. rewrite lookup_insert_Some. intros [[<- <-]|[_ H]]; [done|by eapply H8].
Qed.

Lemma serving_detach s rid : serving s -> serving (detachBody s rid).
Proof.
  intros [H1 H2 H3 H4 H5 H6 H7 H8]. split; simpl; try done; intros i b; rewrite lookup_delete_Some; intros [_ H]; [by apply H7|by eapply H8].
Qed.

Lemma body_check_ok s first rid c : body_check s first = Some (rid, c) -> exists reg, owner (reg_of s) rid = Some (reg, RouteStateOpen, c).
Proof.
  unfold body_check, Route, RouteCredentialsFromEntry. destruct first as [[| | | | | | |version r credential|]|]; try done.
  do 3 (case_match; [done|]). destruct (routes (reg_of s) !! r) as [e|] eqn:He; [|done]. case_bool_decide as Hst; [|done]. cbn [negb].
  destruct (same_str credential (re_Credentials e)) eqn:Hc; [|done]. apply same_str_true in Hc. intros [= <- <-].
  exists (re_RegistrationID e). unfold owner, view. rewrite He. simpl. by rewrite Hst, Hc.
Qed.

Lemma attach_serving s first conn : serving s -> serving (handleBodyWS s first conn).2.
Proof.
  intros Hs. unfold handleBodyWS. destruct (body_check s first) as [[rid c]|] eqn:E; [|done]. apply body_check_ok in E as [reg Ho].
  cbn [snd]. eapply serving_body; [done|exact Ho|simpl; unfold len; simpl; lia].
Qed.

Lemma frame_serving s reg rs raw : serving s -> serving (handleCoreFrame s reg rs raw).2.
Proof.
  intros Hs. unfold handleCoreFrame. destruct (UnmarshalFrame raw) as [f|]; [|done]. case_match; [done|].
  destruct (sv_body s !! f_RouteID f) as [b|] eqn:Hb.
  - destruct (sg_body _ Hs _ _ Hb) as [o Ho]. pose proof (sg_depth _ Hs _ _ Hb) as Hd. destruct (Z.ltb_spec (len (bw_inbox b)) (body_depth (sv_config s))); cbn [snd].
    + eapply serving_body; [done|exact Ho|]. simpl. rewrite len_app. unfold len at 2. simpl. lia.
    + by eapply serving_body.
  - destruct Hs. by split.
Qed.

Lemma drain_serving s rid conn : serving s -> serving (drainInbox s rid conn).2.
Proof.
  intros Hs. unfold drainInbox, attached. destruct (sv_body s !! rid) as [b|] eqn:Hb; [|done]. destruct (Nat.eqb (bw_conn b) conn); [|done].
  destruct (bw_inbox b) as [|payload rest] eqn:Ei; [done|]. destruct (sg_body _ Hs _ _ Hb) as [o Ho]. pose proof (sg_depth _ Hs _ _ Hb) as Hd.
  rewrite Ei in Hd. cbn [snd]. eapply serving_body; [done|exact Ho|]. simpl. unfold len in *. simpl in Hd. lia.
Qed.

(** Every event but the liveness loop's. *)
Definition lasting (ev : ctl_event) : Prop := match ev with Expire _ _ => False | _ => True end.
Definition ctl_step : relation ControlServer := fun s s' => exists ev, lasting ev /\ s' = (serve s ev).2.

#[global] Instance serving_kept : Preserves ctl_step serving.
Proof.
  intros s s' (ev & Hl & ->) Hs. destruct ev; simpl; try done.
  - by apply register_serving.
  - unfold handleCore. destruct (sv_conns s !! reg) as [rs|] eqn:Hc; [|done]. destruct (refresh_same s now reg) as (u & -> & Hu).
    pose proof (serving_same s u Hs Hu) as Hs'. destruct m as [raw|[[]|]]; try done; [by apply frame_serving|by apply route_open_serving|by apply route_close_serving].
  - by apply core_gone_serving.
  - by apply attach_serving.
  - unfold bodyGone. case_match; [by apply serving_detach|done].
  - by apply drain_serving.
  - apply serving_same; [done|apply ingress_same].
Qed.

Lemma new_serving c : serving (NewControlServer c).
Proof.
  split; simpl; try done; [apply NewRegistry_inv|..].
  1-2: intros; by split; intros [? ?].
  intros reg. rewrite elem_of_empty. by split; [|intros [? ?]].
Qed.

(** ** Isolation *)

(** A Body attached to a route presented its credential. *)
Definition bound_to (s : ControlServer) (rid : Z) (conn : nat) (reg : string) : Prop :=
  exists b, sv_body s !! rid = Some b /\ bw_conn b = conn /\ owner (reg_of s) rid = Some (reg, RouteStateOpen, bw_credential b).

Definition authorised (s : ControlServer) (o : output) : Prop :=
  match o with
  | CoreToBody reg rid conn _ | BodyToCore rid conn reg _ => bound_to s rid conn reg
  | CoreDropped reg rid | CoreToUDP reg rid _ _ | ClosedRoute reg rid => exists c, owner (reg_of s) rid = Some (reg, RouteStateOpen, c)
  | Opened _ rid _ _ => owner (reg_of s) rid = None
  | BodyWritten rid conn _ => exists reg, bound_to s rid conn reg
  | Refusal _ _ _ => True
  end.

Lemma frame_authorised s reg rs raw : serving s -> sv_conns s !! reg = Some rs -> Forall (authorised s) (handleCoreFrame s reg rs raw).1.
Proof.
  intros Hs Hc. unfold handleCoreFrame. destruct (UnmarshalFrame raw) as [f|]; [|by constructor]. case_bool_decide as Hin; [|by constructor].
  cbn [negb]. pose proof Hin as [c Ho]%(sg_routes _ Hs _ _ _ Hc). destruct (sv_body s !! f_RouteID f) as [b|] eqn:Hb.
  - destruct (sg_body _ Hs _ _ Hb) as [o Ho']. case_match; apply Forall_singleton; simpl; [|by eauto]. exists b. split_and!; try done. congruence.
  - apply Forall_singleton. simpl. by eauto.
Qed.

Lemma body_authorised s rid conn b raw : serving s -> attached s rid conn = Some b -> Forall (authorised s) (handleBodyFrame s rid conn raw).
Proof.
  intros Hs Ha. unfold attached in Ha. destruct (sv_body s !! rid) as [b'|] eqn:Hb; [|done]. destruct (Nat.eqb_spec (bw_conn b') conn) as [Hk|]; [|done].
  unfold handleBodyFrame, RouteRegistration. destruct (UnmarshalFrame raw) as [f|]; [|by constructor]. do 2 (case_match; [by constructor|]).
  destruct (Z.eqb_spec (f_RouteID f) rid) as [->|]; [|by constructor]. cbn [negb]. case_match; [by constructor|].
  destruct (sg_body _ Hs _ _ Hb) as [o Ho]. pose proof Ho as (e & He & Hv)%fmap_Some. rewrite He. cbn [fmap option_fmap option_map].
  do 2 (case_match; [|by constructor]). apply Forall_singleton. exists b'. split_and!; try done. unfold view in Hv. congruence.
Qed.

Lemma core_authorised s now random sock reg m : serving s -> Forall (authorised s) (handleCore s now random sock reg m).1.
Proof.
  intros Hs. unfold handleCore. destruct (sv_conns s !! reg) as [rs|] eqn:Hc; [|by constructor]. destruct (refresh_same s now reg) as (u & -> & Hu).
  pose proof (serving_same s u Hs Hu) as Hs'. assert (forall o, authorised (with_udp s u) o -> authorised s o) as Hsame.
  { intros o. destruct Hu as [_ _ Ho _ _]. destruct o; unfold authorised, bound_to; simpl; try done; try setoid_rewrite Ho; done. }
  apply (Forall_impl (authorised (with_udp s u))); [|done]. destruct m as [raw|[[]|]]; try by constructor.
  - by apply frame_authorised.
  - unfold handleRouteOpen. destruct (ValidateControl _); [|by repeat constructor]. pose proof (sg_bound _ Hs' RouteID) as Hb. unfold Bind.
    destruct (u_closed _); [by repeat constructor|]. case_bool_decide as Hn; [by repeat constructor|]. destruct sock; [|by repeat constructor].
    repeat case_match; apply Forall_singleton; simpl; try done; apply eq_None_not_Some; by rewrite <- Hb.
  - unfold handleRouteClose. destruct (ValidateControl _); [|by repeat constructor]. case_bool_decide as Hin; [|by repeat constructor]. apply Forall_singleton. simpl.
    by apply (sg_routes _ Hs' reg rs).
Qed.

Lemma serve_authorised s ev outs s' : serving s -> serve s ev = (outs, s') -> Forall (authorised s) outs.
Proof.
  intros Hs He. assert (outs = (serve s ev).1) as -> by by rewrite He. clear He. destruct ev; simpl; try by constructor.
  - by apply core_authorised.
  - case_match; [by eapply body_authorised|by constructor].
  - unfold drainInbox. destruct (attached s rid conn) as [b|] eqn:Ha; [|by constructor]. case_match; [by constructor|]. cbn [fst].
    case_match; [|by constructor]. apply Forall_singleton. unfold attached in Ha. destruct (sv_body s !! rid) as [b'|] eqn:Hb; [|done].
    destruct (Nat.eqb_spec (bw_conn b') conn); [|done]. destruct (sg_body _ Hs _ _ Hb) as [o Ho]. exists o, b'. done.
Qed.

Lemma serve_config s ev : sv_config (serve s ev).2 = sv_config s.
Proof.
  destruct ev; simpl; try done.
  - unfold handleWS. by repeat case_match.
  - unfold handleCore. destruct (sv_conns s !! reg) as [rs|]; [|done]. destruct (refresh_same s now reg) as (u & -> & _).
    unfold handleCoreFrame, handleRouteOpen, handleRouteClose. by repeat case_match.
  - unfold coreGone. case_match; [|done]. cbv zeta. by rewrite (proj1 (release_fold _ _)).
  - unfold handleBodyWS. by destruct (body_check s first) as [[]|].
  - unfold bodyGone. by case_match.
  - unfold drainInbox. by repeat case_match.
Qed.

(** What is left when a Core is gone. *)
Lemma core_gone_effect s reg rid : serving s -> is_Some (sv_conns s !! reg) ->
  let s' := coreGone s reg in
  owner (reg_of s') rid = (match owner (reg_of s) rid with Some (o, st, x) => if decide (o = reg) then None else Some (o, st, x) | None => None end) /\
  (is_Some (u_routes (sv_udp s') !! rid) <-> is_Some (owner (reg_of s') rid)) /\
  sv_body s' !! rid = (match owner (reg_of s') rid with Some _ => sv_body s !! rid | None => None end).
Proof.
  intros Hs [rs Hc]. pose proof (core_gone_serving s reg Hs) as Hs'. cbv zeta. revert Hs'. unfold coreGone. rewrite Hc. cbv zeta.
  match goal with |- serving (fold_left _ _ ?x) -> _ => set (s1 := x) end.
  destruct (release_fold (elements rs) s1) as (_ & _ & Er & _ & _ & Hb). set (s2 := fold_left _ _ _) in *. intros Hs'.
  destruct (remove_registry (reg_of s) reg (sg_inv _ Hs)) as (_ & _ & Ho).
  assert (owner (reg_of s2) rid = owner (RemoveRegistration (reg_of s) reg).2 rid) as E2 by (by rewrite Er).
  split_and!; [by rewrite E2, Ho|apply (sg_bound _ Hs')|]. rewrite Hb, E2, Ho. simpl. pose proof (sg_routes _ Hs _ _ rid Hc) as Hin.
  destruct (owner (reg_of s) rid) as [[[o st] x]|] eqn:Eo.
  - pose proof (sg_open _ Hs _ _ _ _ Eo) as ->. destruct (decide (rid ∈ elements rs)) as [Hx|Hx]; rewrite elem_of_elements in Hx.
    + apply Hin in Hx as [y [= -> _]]. by rewrite decide_True.
    + rewrite decide_False; [done|]. intros ->. apply Hx, Hin. by eauto.
  - case_decide; [done|]. destruct (sv_body s !! rid) as [b|] eqn:Hbb; [|done]. destruct (sg_body _ Hs _ _ Hbb). congruence.
Qed.

(** Routes are isolated as long as no route expires and each message is handled without others in between.  Whatever
    Cores and Bodies send and however their connections come and go: a packet of a Core goes out only on an open route
    of that Core, and into a Body's queue only if that Body presented the credential of the route; a packet of a Body
    reaches only the Core that owns the route it is attached to; no route is opened or closed by anyone but its owner.
    Queues stay within their bound, every open route has its socket, and when a Core is gone none of its routes, sockets
    and attachments remain, while those of the others are untouched.  The two theorems after it show that both
    conditions are needed. *)
Theorem relay_isolation c s ev outs s' :
  rtc ctl_step (NewControlServer c) s -> serve s ev = (outs, s') ->
  Forall (authorised s) outs /\
  (forall rid b, sv_body s !! rid = Some b -> len (bw_inbox b) <= Z.max 0 (body_depth c)) /\
  (forall rid, is_Some (u_routes (sv_udp s) !! rid) <-> exists reg c, owner (reg_of s) rid = Some (reg, RouteStateOpen, c)) /\
  (forall reg rid, ev = CoreGone reg -> is_Some (sv_conns s !! reg) ->
     owner (reg_of s') rid = (match owner (reg_of s) rid with Some (o, st, x) => if decide (o = reg) then None else Some (o, st, x) | None => None end) /\
     (is_Some (u_routes (sv_udp s') !! rid) <-> is_Some (owner (reg_of s') rid)) /\
     sv_body s' !! rid = (match owner (reg_of s') rid with Some _ => sv_body s !! rid | None => None end)).
Proof.
  intros Hr He. assert (sv_config s = c) as Hcfg.
  { clear He. revert Hr. apply (rtc_ind_r (fun s => sv_config s = c)); [done|]. intros x y _ (e & _ & ->) <-. apply serve_config. }
  apply (reachable_keeps serving) in Hr; [|apply new_serving]. split_and!.
  - by eapply serve_authorised.
  - rewrite <- Hcfg. apply (sg_depth _ Hr).
  - intros rid. rewrite (sg_bound _ Hr). split; [intros [[[o st] x] Ho]; pose proof (sg_open _ Hr _ _ _ _ Ho) as ->; by eauto|by intros (? & ? & ->)].
  - intros reg rid -> Hc. injection He as _ <-. by apply core_gone_effect.
Qed.

(** ** Expiry breaks it

    The liveness loop removes an expired route from the registry and closes its socket, but the Core that opened it
    keeps it in its own set, and the Body stays attached.  A route expires when no UDP datagram arrived on it for
    [RouteTimeout]; traffic over the Body's WebSocket does not count. *)

Definition crossing_config : ServiceConfig :=
  {| MaxRegistrations := 8; MaxRoutes := 8; KeepaliveInterval := 10 * second; RouteTimeout := 60 * second; RegistrationTimeout := 60 * second;
     Credentials := [hex_encode (sha256 (bytes_of "alpha")); hex_encode (sha256 (bytes_of "beta"))];
     UDP := {| ListenAddress := ""; PortMin := 0; PortMax := 0; MaxPacketSize := 0; MaxQueueDepth := 0 |}; MaxBodyQueueDepth := 0 |}.

Definition crossing_frame : list byte := [x01; x00; x00; x00; x00; x00; x00; x00; x07; x00; x01; x2a].
Definition credential_of (b : byte) : string := hex_encode (replicate 32 b).

Definition alpha_events : list ctl_event :=
  [CoreRegisters 1 (Some (Register "alpha")) (Some "A");
   CoreSends 2 (Some (replicate 32 x0a)) (Some "0.0.0.0:40000") "A" (Text (Some (RouteOpen 7 "any")));
   BodyAttaches (Some (BodyAttach 1 7 (credential_of x0a))) 1;
   CoreSends (59 * second) None None "A" (Binary crossing_frame)].

Definition crossing_events : list ctl_event :=
  alpha_events ++
  [Expire (61 * second) ["A"];
   CoreRegisters (62 * second) (Some (Register "beta")) (Some "B");
   CoreSends (62 * second) (Some (replicate 32 x0b)) (Some "0.0.0.0:40001") "B" (Text (Some (RouteOpen 7 "any")))].

Definition run_server (c : ServiceConfig) (evs : list ctl_event) : ControlServer := foldl (fun s ev => (serve s ev).2) (NewControlServer c) evs.

(** An expired route that another Core opens again crosses over.  The route now belongs to Core B under a new
    credential; the Body that attached to it under the credential of Core A sends its packets to B, packets of A are
    delivered on it, and when A disconnects the socket of B's route is closed. *)
Theorem expired_route_crosses :
  let s := run_server crossing_config crossing_events in
  owner (reg_of s) 7 = Some ("B", RouteStateOpen, credential_of x0b) /\
  (exists b, sv_body s !! 7 = Some b /\ bw_credential b = credential_of x0a) /\
  (serve s (BodySends 7 1 crossing_frame)).1 = [BodyToCore 7 1 "B" crossing_frame] /\
  (serve s (CoreSends (63 * second) None None "A" (Binary crossing_frame))).1 = [CoreToBody "A" 7 1 [x2a]] /\
  u_routes (sv_udp (serve s (CoreGone "A")).2) !! 7 = None /\
  owner (reg_of (serve s (CoreGone "A")).2) 7 = Some ("B", RouteStateOpen, credential_of x0b).
Proof. cbv zeta. split_and!; try (vm_compute; reflexivity). eexists. split; vm_compute; reflexivity. Qed.

(** A route that is closed between the checks of an attachment and the attachment crosses over too.  Core A closes route 7
    and Core B opens it after the Body's credential was checked and before the Body is attached: the Body, which holds
    the credential of A, is attached to the route of B, and packets pass in both directions. *)
Definition closing_events : list ctl_event :=
  [CoreSends (3 * second) None None "A" (Text (Some (RouteClose 7)));
   CoreRegisters (4 * second) (Some (Register "beta")) (Some "B");
   CoreSends (5 * second) (Some (replicate 32 x0b)) (Some "0.0.0.0:40001") "B" (Text (Some (RouteOpen 7 "any")))].

Theorem late_attachment_crosses :
  let s := run_server crossing_config (take 2 alpha_events) in
  let s' := foldl (fun s ev => (serve s ev).2) s closing_events in
  body_check s (Some (BodyAttach 1 7 (credential_of x0a))) = Some (7, credential_of x0a) /\
  owner (reg_of s') 7 = Some ("B", RouteStateOpen, credential_of x0b) /\
  (serve (attach s' 7 (credential_of x0a) 1) (BodySends 7 1 crossing_frame)).1 = [BodyToCore 7 1 "B" crossing_frame] /\
  (serve (attach s' 7 (credential_of x0a) 1) (CoreSends (6 * second) None None "B" (Binary crossing_frame))).1 =
    [CoreToBody "B" 7 1 [x2a]].
Proof. cbv zeta. split_and!; vm_compute; reflexivity. Qed.

Lemma run_reachable c evs : Forall lasting evs -> rtc ctl_step (NewControlServer c) (run_server c evs).
Proof.
  unfold run_server. generalize (NewControlServer c). induction evs as [|ev evs IH]; intros s H; [done|]. inversion H; subst. cbn [foldl].
  eapply rtc_l; [|by apply IH]. by exists ev.
Qed.

(** A token is accepted when its digest is configured. *)
Lemma hex_decode_encode l : hex_decode (hex_encode l) = Some l.
Proof.
  assert (forall b, hex_value (hex_digit (b2z b / 16)) = Some (b2z b / 16) /\ hex_value (hex_digit (b2z b `mod` 16)) = Some (b2z b `mod` 16) /\
                    z2b (16 * (b2z b / 16) + b2z b `mod` 16) = b) as H by (intros b; destruct b; split_and!; vm_compute; reflexivity).
  induction l as [|b l IH]; [done|]. cbn [hex_encode hex_decode]. destruct (H b) as (-> & -> & E). by rewrite IH, E.
Qed.

Lemma configured_token_accepted token credentials : hex_encode (sha256 (bytes_of token)) ∈ credentials -> VerifyRegistrationToken token credentials = true.
Proof.
  intros Hin. unfold VerifyRegistrationToken. apply existsb_exists. eexists. split; [by apply list_elem_of_In|]. rewrite hex_decode_encode. by apply bool_decide_eq_true.
Qed.

(** ** Instances *)

Lemma relay_isolation_witness :
  bound_to (run_server crossing_config alpha_events) 7 1 "A" /\
  sv_body (serve (run_server crossing_config alpha_events) (CoreGone "A")).2 !! 7 = None.
Proof.
  destruct (relay_isolation crossing_config (run_server crossing_config alpha_events) (BodySends 7 1 crossing_frame) [BodyToCore 7 1 "A" crossing_frame]
              (run_server crossing_config alpha_events)) as (H & _ & _ & _); [apply run_reachable; by repeat constructor|vm_compute; reflexivity|].
  apply Forall_inv in H. split; [exact H|vm_compute; reflexivity].
Defined.
