(* ===== verification/RelayClient.v ===== *)
(** * The Core's side of the relay tunnel

    Models [src/Core/Relay/control_client.go], [control_exchange.go],
    [control_routes.go], the parts of [control_connection.go] and
    [control_reconnect.go] that change the client's tables, and the packet
    transport of [transport.go].  Requests to the relay run in goroutines of
    their callers: each is cut where it can be overtaken, between loading the
    connection's generation, entering the table of pending operations, writing,
    receiving and leaving the table, and the read loop of any connection may
    deliver any message at any time.  A channel of capacity one is an optional
    value, and a non-blocking send keeps the first.  [routeOpKey] prints the route
    with a prefix; keys are kept as the route they print, or the registration. *)
From stdpp Require Import pretty.
From S2P Require Import Prelude GoBytes RelayCodec.
From stdpp Require Import options.

(** ** Operations *)

Inductive op_key := KeyRegister | KeyRoute (rid : Z).

#[global] Instance op_key_eq : EqDecision op_key.
Proof. solve_decision. Defined.
#[global] Program Instance op_key_countable : Countable op_key :=
  inj_countable' (fun k => match k with KeyRegister => None | KeyRoute r => Some r end)
    (fun o => match o with None => KeyRegister | Some r => KeyRoute r end) _.
Next Obligation. by intros []. Qed.

Inductive client_error := ErrNotConnected | ErrClientClosed | ErrConnectionLost | WriteFailed | ContextDone.

(** What a waiting operation is sent; a message is marked with the generation of the read loop that received it. *)
Inductive errorOrMsg := Answer (m : ControlMessage) (from : Z) | Failure (e : client_error).

Inductive purpose := Opening | Closing | Restoring.

(** How far an exchange has got: it has loaded the generation; is in the table; has written its request; has its result
    and is about to leave the table; has returned; and its caller has acted on the result. *)
Inductive progress := Loaded | Entered | Written | Leaving (r : errorOrMsg) | Returned (r : errorOrMsg) | Settled (r : errorOrMsg).

Record operation := { op_purpose : purpose; op_route : Z; op_connGen : Z; op_ch : option errorOrMsg; op_progress : progress }.

Record managedRoute := { mr_Credentials : string; mr_AllocatedEndpoint : string }.

Record ControlClient := {
  connGen : Z;
  cl_routes : gmap Z managedRoute;
  cl_pending : gmap op_key (nat * Z);
  cl_ops : gmap nat operation;
  cl_closed : bool;
  RoutesRestored : Z;
}.

Definition NewControlClient : ControlClient :=
  {| connGen := 0; cl_routes := ∅; cl_pending := ∅; cl_ops := ∅; cl_closed := false; RoutesRestored := 0 |}.

Definition with_pending (c : ControlClient) (p : gmap op_key (nat * Z)) : ControlClient :=
  {| connGen := connGen c; cl_routes := cl_routes c; cl_pending := p; cl_ops := cl_ops c; cl_closed := cl_closed c; RoutesRestored := RoutesRestored c |}.
Definition with_ops (c : ControlClient) (o : gmap nat operation) : ControlClient :=
  {| connGen := connGen c; cl_routes := cl_routes c; cl_pending := cl_pending c; cl_ops := o; cl_closed := cl_closed c; RoutesRestored := RoutesRestored c |}.
Definition with_routes (c : ControlClient) (r : gmap Z managedRoute) (restored : Z) : ControlClient :=
  {| connGen := connGen c; cl_routes := r; cl_pending := cl_pending c; cl_ops := cl_ops c; cl_closed := cl_closed c; RoutesRestored := restored |}.

Definition at_progress (o : operation) (p : progress) : operation :=
  {| op_purpose := op_purpose o; op_route := op_route o; op_connGen := op_connGen o; op_ch := op_ch o; op_progress := p |}.
Definition set_op (c : ControlClient) (k : nat) (o : operation) : ControlClient := with_ops c (<[k := o]> (cl_ops c)).

(** [select { case ch <- v: default: }] *)
Definition offer (v : errorOrMsg) (o : operation) : operation :=
  {| op_purpose := op_purpose o; op_route := op_route o; op_connGen := op_connGen o;
     op_ch := match op_ch o with Some x => Some x | None => Some v end; op_progress := op_progress o |}.

Definition send (c : ControlClient) (k : nat) (v : errorOrMsg) : ControlClient := with_ops c (alter (offer v) k (cl_ops c)).

(** ** Exchanges *)

(** The calls that are refused at once; [connected] is the flag when it is read. *)
Inductive call_error := RouteIDZero | TokenMissing | NotConnected.

Definition check_open (connected : bool) (rid : Z) (token : string) : res call_error unit :=
  refuse rid =? 0 with RouteIDZero;
  refuse empty_str token with TokenMissing;
  refuse negb connected with NotConnected;
  Ok tt.

Definition check_close (connected : bool) (rid : Z) : res call_error unit :=
  refuse rid =? 0 with RouteIDZero;
  refuse negb connected with NotConnected;
  Ok tt.

Definition begin (c : ControlClient) (k : nat) (p : purpose) (rid : Z) : ControlClient :=
  set_op c k {| op_purpose := p; op_route := rid; op_connGen := connGen c; op_ch := None; op_progress := Loaded |}.

Definition enter (c : ControlClient) (k : nat) (o : operation) : ControlClient :=
  let key := KeyRoute (op_route o) in
  let c := match cl_pending c !! key with Some (existing, _) => send c existing (Failure ErrConnectionLost) | None => c end in
  with_pending (set_op c k (at_progress o Entered)) (<[key := (k, op_connGen o)]> (cl_pending c)).

Definition wrote (c : ControlClient) (k : nat) (o : operation) (failed : option client_error) : ControlClient :=
  set_op c k (at_progress o (match failed with None => Written | Some e => Leaving (Failure e) end)).

Definition receive (c : ControlClient) (k : nat) (o : operation) (v : errorOrMsg) : ControlClient :=
  set_op c k {| op_purpose := op_purpose o; op_route := op_route o; op_connGen := op_connGen o; op_ch := None; op_progress := Leaving v |}.

Definition cancelled (c : ControlClient) (k : nat) (o : operation) (e : client_error) : ControlClient := set_op c k (at_progress o (Leaving (Failure e))).

(** The deferred delete, by key. *)
Definition leave (c : ControlClient) (k : nat) (o : operation) (r : errorOrMsg) : ControlClient :=
  with_pending (set_op c k (at_progress o (Returned r))) (delete (KeyRoute (op_route o)) (cl_pending c)).

(** ** The read loop's dispatch *)

Definition message_key (m : ControlMessage) : option op_key :=
  match m with
  | Registered _ => Some KeyRegister
  | RouteOpened rid _ _ | RouteClosed rid => Some (KeyRoute rid)
  | RelayError _ _ rid => Some (if rid =? 0 then KeyRegister else KeyRoute rid)
  | _ => None
  end.

Definition client_dispatch (c : ControlClient) (m : ControlMessage) (gen : Z) : ControlClient :=
  match message_key m with
  | None => c
  | Some key =>
      match cl_pending c !! key with
      | Some (k, g) => if g =? gen then send c k (Answer m gen) else c
      | None => c
      end
  end.

(** Messages that do not validate are dropped before. *)
Definition readLoop_message (c : ControlClient) (m : option ControlMessage) (gen : Z) : ControlClient :=
  match m with
  | Some m => match ValidateControl m with Ok _ => client_dispatch c m gen | Err _ => c end
  | None => c
  end.

(** ** Connections *)

Definition failPending (c : ControlClient) (e : client_error) : ControlClient :=
  let c := fold_left (fun c v => send c v.1 (Failure e)) (map_to_list (cl_pending c)).*2 c in with_pending c ∅.

Definition connect (c : ControlClient) : ControlClient :=
  let c := failPending c ErrConnectionLost in
  {| connGen := connGen c + 1; cl_routes := cl_routes c; cl_pending := cl_pending c; cl_ops := cl_ops c; cl_closed := cl_closed c; RoutesRestored := RoutesRestored c |}.

Definition client_Shutdown (c : ControlClient) : ControlClient :=
  let c := failPending c ErrClientClosed in
  {| connGen := connGen c; cl_routes := cl_routes c; cl_pending := cl_pending c; cl_ops := cl_ops c; cl_closed := true; RoutesRestored := RoutesRestored c |}.

(** ** What callers do with a result *)

Definition settle_routes (c : ControlClient) (o : operation) (r : errorOrMsg) : ControlClient :=
  let rid := op_route o in
  match op_purpose o, r with
  | Opening, Answer (RouteOpened i ep creds) _ =>
      match ValidateControl (RouteOpened i ep creds) with
      | Ok _ => with_routes c (<[rid := {| mr_Credentials := creds; mr_AllocatedEndpoint := ep |}]> (cl_routes c)) (RoutesRestored c)
      | Err _ => c
      end
  | Closing, Answer (RouteClosed i) _ =>
      match ValidateControl (RouteClosed i) with
      | Ok _ => with_routes c (delete rid (cl_routes c)) (RoutesRestored c)
      | Err _ => c
      end
  | Restoring, Answer (RouteOpened i ep creds) _ =>
      match ValidateControl (RouteOpened i ep creds) with
      | Ok _ =>
          with_routes c (alter (fun mr => {| mr_Credentials := mr_Credentials mr; mr_AllocatedEndpoint := ep |}) rid (cl_routes c)) (RoutesRestored c + 1)
      | Err _ => c
      end
  | Restoring, Answer (RelayError _ _ _) _ => with_routes c (delete rid (cl_routes c)) (RoutesRestored c)
  | _, _ => c
  end.

Definition settle (c : ControlClient) (k : nat) (o : operation) (r : errorOrMsg) : ControlClient :=
  set_op (settle_routes c o r) k (at_progress o (Settled r)).

(** ** Interleavings *)

Inductive client_step : relation ControlClient :=
| ct_open c k connected rid token : cl_ops c !! k = None -> check_open connected rid token = Ok tt -> client_step c (begin c k Opening rid)
| ct_close c k connected rid : cl_ops c !! k = None -> check_close connected rid = Ok tt -> client_step c (begin c k Closing rid)
| ct_restore c k rid : cl_ops c !! k = None -> client_step c (begin c k Restoring rid)
| ct_enter c k o : cl_ops c !! k = Some o -> op_progress o = Loaded -> client_step c (enter c k o)
| ct_write c k o failed : cl_ops c !! k = Some o -> op_progress o = Entered -> client_step c (wrote c k o failed)
| ct_receive c k o v : cl_ops c !! k = Some o -> op_progress o = Written -> op_ch o = Some v -> client_step c (receive c k o v)
| ct_cancel c k o e : cl_ops c !! k = Some o -> op_progress o = Written -> client_step c (cancelled c k o e)
| ct_leave c k o r : cl_ops c !! k = Some o -> op_progress o = Leaving r -> client_step c (leave c k o r)
| ct_settle c k o r : cl_ops c !! k = Some o -> op_progress o = Returned r -> client_step c (settle c k o r)
| ct_message c m gen : gen <= connGen c -> client_step c (readLoop_message c m gen)
| ct_connect c : client_step c (connect c)
| ct_shutdown c : client_step c (client_Shutdown c).

(** ** The packet queue and the transport *)

Record PacketQueue := { pq_packets : list (Z * list byte); pq_max : Z; pq_closed : bool }.

Inductive queue_error := ErrTransportClosed | ErrQueueFull.

Definition NewPacketQueue (max : Z) : PacketQueue := {| pq_packets := []; pq_max := max; pq_closed := false |}.

Definition Push (q : PacketQueue) (rid : Z) (packet : list byte) : res queue_error PacketQueue :=
  refuse pq_closed q with ErrTransportClosed;
  refuse pq_max q <=? len (pq_packets q) with ErrQueueFull;
  Ok {| pq_packets := pq_packets q ++ [(rid, packet)]; pq_max := pq_max q; pq_closed := pq_closed q |}.

(** [None] while it waits; [Some None] when the queue is closed and drained. *)
Definition Pop (q : PacketQueue) : option (option (Z * list byte) * PacketQueue) :=
  match pq_packets q with
  | [] => if pq_closed q then Some (None, q) else None
  | p :: rest => Some (Some p, {| pq_packets := rest; pq_max := pq_max q; pq_closed := pq_closed q |})
  end.

Definition PacketQueue_Close (q : PacketQueue) : PacketQueue := {| pq_packets := pq_packets q; pq_max := pq_max q; pq_closed := true |}.

Definition MaxQueuePackets : Z := 256.

(** The transport with its current queue; [rt_handler] is whether frames are handed to it. *)
Record RelayTransport := { rt_queue : PacketQueue; rt_open : bool; rt_closed : bool; rt_handler : bool }.

Definition NewRelayTransport : RelayTransport := {| rt_queue := NewPacketQueue MaxQueuePackets; rt_open := false; rt_closed := false; rt_handler := false |}.

Definition transport_Open (t : RelayTransport) : RelayTransport :=
  let t := if rt_closed t then {| rt_queue := NewPacketQueue MaxQueuePackets; rt_open := false; rt_closed := false; rt_handler := rt_handler t |} else t in
  if rt_open t then t else {| rt_queue := rt_queue t; rt_open := true; rt_closed := false; rt_handler := true |}.

Definition transport_Close (t : RelayTransport) : RelayTransport :=
  {| rt_queue := PacketQueue_Close (rt_queue t); rt_open := rt_open t; rt_closed := true; rt_handler := false |}.

(** A frame from the tunnel: the transport after it, and whether it was lost. *)
Definition handle_frame (t : RelayTransport) (raw : list byte) : bool * RelayTransport :=
  if negb (rt_handler t) then (true, t)
  else match UnmarshalFrame raw with
       | Err _ => (true, t)
       | Ok f => match Push (rt_queue t) (f_RouteID f) (f_Payload f) with
                 | Ok q => (false, {| rt_queue := q; rt_open := rt_open t; rt_closed := rt_closed t; rt_handler := rt_handler t |})
                 | Err _ => (true, t)
                 end
       end.

Inductive send_error := SendClosed | ErrEndpointType | SendFrame (e : frame_error) | TunnelWrite.

(** [write] is the tunnel: whether it takes a frame.  The frames written, and the error. *)
Fixpoint send_frames (write : list byte -> bool) (rid : Z) (bufs : list (list byte)) : list (list byte) * option send_error :=
  match bufs with
  | [] => ([], None)
  | b :: rest =>
      match MarshalFrame (Some {| f_Version := ProtocolVersion; f_RouteID := rid; f_Payload := b |}) with
      | Err e => ([], Some (SendFrame e))
      | Ok data => if write data then let '(out, e) := send_frames write rid rest in (data :: out, e) else ([], Some TunnelWrite)
      end
  end.

Definition transport_Send (t : RelayTransport) (write : list byte -> bool) (bufs : list (list byte)) (endpoint : option Z) : list (list byte) * option send_error :=
  if rt_closed t then ([], Some SendClosed)
  else match bufs with
       | [] => ([], None)
       | _ => match endpoint with None => ([], Some ErrEndpointType) | Some rid => send_frames write rid bufs end
       end.

(** ** Endpoint names *)

Definition RelayEndpointPrefix := "relay:".
Definition RelayEndpointString (rid : Z) : string := RelayEndpointPrefix +:+ pretty (Z.to_N rid).

Definition decimal_digit (c : Ascii.ascii) : option Z := if (48 <=? code c) && (code c <=? 57) then Some (code c - 48) else None.

Fixpoint decimal (acc : Z) (s : string) : option Z :=
  match s with
  | EmptyString => Some acc
  | String c r => match decimal_digit c with Some d => decimal (10 * acc + d) r | None => None end
  end.

(** [strconv.ParseUint(s, 10, 64)] *)
Definition ParseUint (s : string) : option Z :=
  if empty_str s then None else match decimal 0 s with Some n => if n <? 2 ^ 64 then Some n else None | None => None end.

Inductive endpoint_error := ErrEndpointFormat | BadRouteID | RouteIDRange.

Definition ParseRelayEndpoint (s : string) : res endpoint_error Z :=
  refuse negb (String.prefix RelayEndpointPrefix s) with ErrEndpointFormat;
  match ParseUint (String.substring 6 (String.length s - 6) s) with
  | None => Err BadRouteID
  | Some id => refuse (id =? 0) || (MaxRouteID <? id) with RouteIDRange; Ok id
  end.

(** ** What happens to an operation in a step *)

Definition carries (o : operation) (v : errorOrMsg) : Prop :=
  op_ch o = Some v \/ op_progress o = Leaving v \/ op_progress o = Returned v \/ op_progress o = Settled v.

(** A value that was sent to operation [k]. *)
Definition sent_to (c : ControlClient) (k : nat) (v : errorOrMsg) : Prop :=
  match v with
  | Failure _ => True
  | Answer m gen => exists key, message_key m = Some key /\ ValidateControl m = Ok tt /\ cl_pending c !! key = Some (k, gen)
  end.

Definition advances (p p' : progress) : Prop := (forall r, p = Settled r -> p' = Settled r) /\ (p' = Loaded -> p = Loaded).

Definition evolves (c c' : ControlClient) : Prop :=
  forall k o', cl_ops c' !! k = Some o' ->
    (cl_ops c !! k = None /\ forall v, ~ carries o' v) \/
    exists o, cl_ops c !! k = Some o /\ op_purpose o' = op_purpose o /\ op_route o' = op_route o /\ op_connGen o' = op_connGen o /\
      advances (op_progress o) (op_progress o') /\
      forall v, carries o' v -> carries o v \/ sent_to c k v.

Lemma evolves_same c c' : cl_ops c' = cl_ops c -> evolves c c'.
Proof. intros E k o' H. rewrite E in H. right. exists o'. unfold advances. split_and!; auto. Qed.

Lemma evolves_set c c' k o o' :
  cl_ops c !! k = Some o -> cl_ops c' = <[k := o']> (cl_ops c) -> op_purpose o' = op_purpose o -> op_route o' = op_route o -> op_connGen o' = op_connGen o ->
  advances (op_progress o) (op_progress o') -> (forall v, carries o' v -> carries o v \/ sent_to c k v) -> evolves c c'.
Proof.
  intros Ho E H1 H2 H3 H4 H5 i x. rewrite E, lookup_insert_Some. intros [[<- <-]|[Hne Hx]]; right; [by exists o|]. exists x. unfold advances. split_and!; auto.
Qed.

(** Failures offered to some operations. *)
Definition fails (c c' : ControlClient) : Prop :=
  forall k o', cl_ops c' !! k = Some o' ->
    exists o, cl_ops c !! k = Some o /\ op_purpose o' = op_purpose o /\ op_route o' = op_route o /\ op_connGen o' = op_connGen o /\
      op_progress o' = op_progress o /\ (op_ch o' = op_ch o \/ exists e, op_ch o' = Some (Failure e)).

Lemma fails_evolves c c' : fails c c' -> evolves c c'.
Proof.
  intros H k o' Ho'. destruct (H k o' Ho') as (o & Ho & E1 & E2 & E3 & E4 & E5). right. exists o. split_and!; try done; [unfold advances; split; congruence|].
  intros v Hv. unfold carries in *. rewrite E4 in Hv. destruct Hv as [Hv|Hv]; [|by left; right]. destruct E5 as [E5|[e E5]]; [left; left; congruence|].
  right. assert (v = Failure e) as -> by congruence. done.
Qed.

Lemma send_fails c k e : fails c (send c k (Failure e)).
Proof.
  intros i o'. unfold send. simpl. destruct (decide (i = k)) as [->|].
  - rewrite lookup_alter_eq. intros (o & Ho & ->)%fmap_Some. exists o. split_and!; try done. simpl. destruct (op_ch o); eauto.
  - rewrite lookup_alter_ne by done. intros Ho. exists o'. split_and!; auto.
Qed.

Lemma fails_refl c c' : cl_ops c' = cl_ops c -> fails c c'.
Proof. intros E k o' H. rewrite E in H. exists o'. split_and!; auto. Qed.

Lemma fails_trans c d e : fails c d -> fails d e -> fails c e.
Proof.
  intros H1 H2 k o' Ho'. destruct (H2 k o' Ho') as (o & Ho & A1 & A2 & A3 & A4 & A5). destruct (H1 k o Ho) as (o0 & Ho0 & B1 & B2 & B3 & B4 & B5).
  exists o0. split_and!; try congruence. destruct A5 as [->|?]; auto.
Qed.

Lemma failPending_spec c e : fails c (failPending c e) /\ cl_pending (failPending c e) = ∅ /\ cl_routes (failPending c e) = cl_routes c.
Proof.
  unfold failPending. generalize ((map_to_list (cl_pending c)).*2) as l. intros l. split_and!; [|done|].
  - eapply fails_trans; [|by apply (fails_refl (fold_left (fun c v => send c v.1 (Failure e)) l c))].
    revert c. induction l as [|v l IH]; intros c; simpl; [by apply fails_refl|]. eapply fails_trans; [apply send_fails|apply IH].
  - simpl. revert c. induction l as [|v l IH]; intros c; simpl; [done|]. by rewrite IH.
Qed.

Lemma send_evolves c k v : sent_to c k v -> evolves c (send c k v).
Proof.
  intros Hs i o'. unfold send. simpl. destruct (decide (i = k)) as [->|].
  - rewrite lookup_alter_eq. intros (o & Ho & ->)%fmap_Some. right. exists o. split_and!; try done. unfold carries. simpl.
    intros w [Hw|Hw]; [|by left; right]. destruct (op_ch o); [by left; left|]. right. by simplify_eq.
  - rewrite lookup_alter_ne by done. intros Ho. right. exists o'. unfold advances. split_and!; auto.
Qed.

Lemma settle_ops c o r : cl_ops (settle_routes c o r) = cl_ops c /\ cl_pending (settle_routes c o r) = cl_pending c.
Proof. unfold settle_routes. by repeat case_match. Qed.

Lemma begin_evolves c k p rid : cl_ops c !! k = None -> evolves c (begin c k p rid).
Proof.
  intros Hn i o'. unfold begin. simpl. rewrite lookup_insert_Some. intros [[<- <-]|[_ H]]; [left|right; exists o'; unfold advances; split_and!; auto].
  split; [done|]. intros v. unfold carries. simpl. intros [[=]|[[=]|[[=]|[=]]]].
Qed.

Lemma enter_evolves c k o : cl_ops c !! k = Some o -> op_progress o = Loaded -> evolves c (enter c k o).
Proof.
  intros Ho Hp. unfold enter.
  match goal with |- evolves c (with_pending (set_op ?x _ _) _) => assert (fails c x) as Hf; [|set (c1 := x) in *] end.
  { destruct (cl_pending c !! _) as [[existing g]|]; [apply send_fails|by apply fails_refl]. }
  apply fails_evolves in Hf. intros i o'. simpl. rewrite lookup_insert_Some. intros [[<- <-]|[_ H]]; [|by apply Hf].
  right. exists o. split_and!; try done; [split; simpl; congruence|]. intros v. unfold carries. simpl. intros [Hv|[[=]|[[=]|[=]]]]. by left; left.
Qed.

Lemma step_evolves c c' : client_step c c' -> evolves c c'.
Proof.
  destruct 1 as [| | |c k o Ho Hp|c k o failed Ho Hp|c k o v Ho Hp Hv|c k o e Ho Hp|c k o r Ho Hp|c k o r Ho Hp|c m gen Hg|c|c];
    try (by apply begin_evolves); [by apply enter_evolves|..].
  - eapply evolves_set; try done; simpl; [split; [congruence|by destruct failed]|]. intros v. unfold carries. simpl. rewrite Hp.
    intros [?|[H|[H|H]]]; [by left; left|..]; destruct failed; simplify_eq. by right.
  - eapply evolves_set; try done; simpl; [split; congruence|]. intros w. unfold carries. simpl. intros [[=]|[H|[H|H]]]; simplify_eq. by left; left.
  - eapply evolves_set; try done; simpl; [split; congruence|]. intros w. unfold carries. simpl. intros [?|[H|[H|H]]]; simplify_eq; [by left; left|by right].
  - eapply evolves_set; try done; simpl; [split; congruence|]. intros w. unfold carries. simpl. rewrite Hp. intros [?|[H|[H|H]]]; simplify_eq; left; auto.
  - eapply evolves_set; [exact Ho|unfold settle; simpl; by rewrite (proj1 (settle_ops c o r))|done|done|done|split; simpl; congruence|].
    intros w. unfold carries. simpl. rewrite Hp. intros [?|[H|[H|H]]]; simplify_eq; left; auto.
  - unfold readLoop_message, client_dispatch. destruct m as [m|]; [|by apply evolves_same]. destruct (ValidateControl m) as [[]|] eqn:Hv; [|by apply evolves_same].
    destruct (message_key m) as [key|] eqn:Hk; [|by apply evolves_same]. destruct (cl_pending c !! key) as [[k g]|] eqn:Hpe; [|by apply evolves_same].
    destruct (Z.eqb_spec g gen) as [->|]; [|by apply evolves_same]. apply send_evolves. by exists key.
  - apply fails_evolves. eapply fails_trans; [apply (failPending_spec c ErrConnectionLost)|by apply fails_refl].
  - apply fails_evolves. eapply fails_trans; [apply (failPending_spec c ErrClientClosed)|by apply fails_refl].
Qed.


Lemma send_dom c i v k : is_Some (cl_ops (send c i v) !! k) <-> is_Some (cl_ops c !! k).
Proof. unfold send. simpl. by rewrite lookup_alter_is_Some. Qed.

Lemma failPending_dom c e k : is_Some (cl_ops (failPending c e) !! k) <-> is_Some (cl_ops c !! k).
Proof.
  unfold failPending. simpl. generalize ((map_to_list (cl_pending c)).*2) as l. intros l. revert c.
  induction l as [|v l IH]; intros c; simpl; [done|]. by rewrite IH, send_dom.
Qed.

Lemma insert_dom {A} (m : gmap nat A) i x k : is_Some (m !! k) -> is_Some (<[i := x]> m !! k).
Proof. intros H. destruct (decide (k = i)) as [->|]; [rewrite lookup_insert_eq; by eauto|by rewrite lookup_insert_ne]. Qed.

Lemma step_keeps_ops c c' k : client_step c c' -> is_Some (cl_ops c !! k) -> is_Some (cl_ops c' !! k).
Proof.
  intros Hst H. destruct Hst; try (simpl; by apply insert_dom).
  - unfold enter. simpl. apply insert_dom. case_match; [|done]. case_match. by rewrite send_dom.
  - simpl. rewrite (proj1 (settle_ops _ _ _)). by apply insert_dom.
  - unfold readLoop_message, client_dispatch. repeat case_match; try done. by rewrite send_dom.
  - unfold connect. cbn [cl_ops]. by rewrite failPending_dom.
  - unfold client_Shutdown. cbn [cl_ops]. by rewrite failPending_dom.
Qed.

(** An operation keeps its identity, and a settled one its result. *)
Lemma op_persists c c' k o : client_step c c' -> cl_ops c !! k = Some o ->
  exists o', cl_ops c' !! k = Some o' /\ op_purpose o' = op_purpose o /\ op_route o' = op_route o /\ op_connGen o' = op_connGen o /\
    (forall r, op_progress o = Settled r -> op_progress o' = Settled r).
Proof.
  intros Hst Ho. destruct (step_keeps_ops c c' k Hst) as [o' Ho']; [by eauto|]. exists o'. split; [done|].
  destruct (step_evolves c c' Hst k o' Ho') as [[Hn _]|(x & Hx & H1 & H2 & H3 & H4 & _)]; [congruence|]. assert (x = o) as -> by congruence. by destruct H4.
Qed.

Definition pending_ok (c : ControlClient) : Prop :=
  forall key k g, cl_pending c !! key = Some (k, g) -> exists o, cl_ops c !! k = Some o /\ key = KeyRoute (op_route o) /\ g = op_connGen o.

Definition answers_ok (c : ControlClient) : Prop :=
  forall k o m g, cl_ops c !! k = Some o -> carries o (Answer m g) ->
    message_key m = Some (KeyRoute (op_route o)) /\ g = op_connGen o /\ ValidateControl m = Ok tt.

Definition routes_ok (c : ControlClient) : Prop :=
  forall rid mr, cl_routes c !! rid = Some mr ->
    exists k o ep g, cl_ops c !! k = Some o /\ op_purpose o = Opening /\ op_route o = rid /\
      op_progress o = Settled (Answer (RouteOpened rid ep (mr_Credentials mr)) g).

Lemma step_pending c c' : client_step c c' ->
  forall key k g, cl_pending c' !! key = Some (k, g) ->
    cl_pending c !! key = Some (k, g) \/ exists o, cl_ops c !! k = Some o /\ key = KeyRoute (op_route o) /\ g = op_connGen o.
Proof.
  intros Hst key k g. destruct Hst; simpl; try (by left).
  - rewrite lookup_insert_Some. intros [[<- [= <- <-]]|[_ H']]; [by eauto|]. left. revert H'. by repeat case_match.
  - rewrite lookup_delete_Some. intros [_ ?]. by left.
  - rewrite (proj2 (settle_ops _ _ _)). by left.
  - unfold readLoop_message, client_dispatch. repeat case_match; by left.
Qed.

Lemma step_routes c c' : client_step c c' ->
  cl_routes c' = cl_routes c \/
  exists k o r, cl_ops c !! k = Some o /\ op_progress o = Returned r /\ c' = settle c k o r.
Proof.
  destruct 1; try (by left).
  - left. unfold enter. simpl. by repeat case_match.
  - right. by eauto 10.
  - left. unfold readLoop_message, client_dispatch. by repeat case_match.
  - left. apply (failPending_spec c ErrConnectionLost).
  - left. apply (failPending_spec c ErrClientClosed).
Qed.

Definition client_ok (c : ControlClient) : Prop := pending_ok c /\ answers_ok c /\ routes_ok c.

Lemma settled_routes c k o r rid mr :
  client_ok c -> cl_ops c !! k = Some o -> op_progress o = Returned r -> cl_routes (settle_routes c o r) !! rid = Some mr ->
  (exists mr0, cl_routes c !! rid = Some mr0 /\ mr_Credentials mr0 = mr_Credentials mr) \/
  (op_purpose o = Opening /\ op_route o = rid /\ exists ep g, r = Answer (RouteOpened rid ep (mr_Credentials mr)) g).
Proof.
  intros (_ & Ha & _) Ho Hp. unfold settle_routes.
  destruct (op_purpose o); destruct r as [m g|e]; try (by left; eauto); destruct m; try (by left; eauto);
    match goal with |- context [ValidateControl ?x] => destruct (ValidateControl x) | _ => idtac end; try (by left; eauto); simpl.
  - rewrite lookup_insert_Some. intros [[<- <-]|[_ H]]; [right|by left; eauto]. split_and!; [done|done|]. simpl.
    destruct (Ha k o _ _ Ho (or_intror (or_intror (or_introl Hp)))) as ([= ->] & _ & _). by eauto.
  - rewrite lookup_delete_Some. intros [_ H]. by left; eauto.
  - rewrite lookup_alter_Some. intros [(_ & x & Hx & ->)|[_ H]]; left; by eauto.
  - rewrite lookup_delete_Some. intros [_ H]. by left; eauto.
Qed.

#[global] Instance client_kept : Preserves client_step client_ok.
Proof.
  intros c c' Hst Hok. pose proof Hok as (Hp & Ha & Hr). split_and!.
  - intros key k g H. destruct (step_pending c c' Hst key k g H) as [H0|(o & Ho & -> & ->)]; [apply Hp in H0 as (o & Ho & -> & ->)|];
      destruct (op_persists c c' k o Hst Ho) as (o' & Ho' & _ & E2 & E3 & _); exists o'; split_and!; congruence.
  - intros k o' m g Ho' Hc. destruct (step_evolves c c' Hst k o' Ho') as [[_ Hn]|(o & Ho & E1 & E2 & E3 & _ & Hv)]; [by destruct (Hn _ Hc)|].
    rewrite E2, E3. destruct (Hv _ Hc) as [H0|(key & Hk & Hva & Hpe)]; [by apply (Ha k o)|].
    apply Hp in Hpe as (x & Hx & -> & ->). assert (x = o) as -> by congruence. done.
  - intros rid mr H. assert (forall k o ep g x, cl_ops c !! k = Some o -> op_purpose o = Opening -> op_route o = rid ->
      op_progress o = Settled (Answer (RouteOpened rid ep x) g) ->
      exists k o ep g, cl_ops c' !! k = Some o /\ op_purpose o = Opening /\ op_route o = rid /\ op_progress o = Settled (Answer (RouteOpened rid ep x) g)) as Hkeep.
    { intros k o ep g x Ho H1 H2 H3. destruct (op_persists c c' k o Hst Ho) as (o' & Ho' & E1 & E2 & _ & E4). exists k, o', ep, g. split_and!; [done|congruence|congruence|auto]. }
    destruct (step_routes c c' Hst) as [E|(k & o & r & Ho & Hpr & ->)].
    + rewrite E in H. destruct (Hr rid mr H) as (k & o & ep & g & Ho & H1 & H2 & H3). exact (Hkeep k o ep g _ Ho H1 H2 H3).
    + destruct (settled_routes c k o r rid mr Hok Ho Hpr H) as [(mr0 & H0 & <-)|(H1 & H2 & ep & g & ->)].
      * destruct (Hr rid mr0 H0) as (k' & o' & ep & g & Ho' & H1 & H2 & H3). exact (Hkeep k' o' ep g _ Ho' H1 H2 H3).
      * exists k. eexists _, ep, g. unfold settle. simpl. rewrite lookup_insert_eq. by split_and!.
Qed.

(** An exchange with the relay is answered only by the relay's answer to it.  However requests, timeouts, answers,
    reconnections and the shutdown interleave, and whatever the relay sends: a caller that gets a message gets a valid
    one that names its own route and that arrived over the connection on which it asked; and every route in the client's
    table was opened by such an exchange, with the credential the relay gave. *)
Theorem exchange_authentic c :
  rtc client_step NewControlClient c ->
  (forall k o m g, cl_ops c !! k = Some o -> op_progress o = Returned (Answer m g) \/ op_progress o = Settled (Answer m g) ->
     message_key m = Some (KeyRoute (op_route o)) /\ g = op_connGen o /\ ValidateControl m = Ok tt) /\
  (forall rid mr, cl_routes c !! rid = Some mr ->
     exists k o ep g, cl_ops c !! k = Some o /\ op_purpose o = Opening /\ op_route o = rid /\ g = op_connGen o /\
       op_progress o = Settled (Answer (RouteOpened rid ep (mr_Credentials mr)) g)).
Proof.
  intros (Hp & Ha & Hr)%(reachable_keeps client_ok); [|split_and!; [by intros ???|by intros ????|by intros ??]]. split.
  - intros k o m g Ho [H|H]; apply (Ha k o m g Ho); unfold carries; auto.
  - intros rid mr H. destruct (Hr rid mr H) as (k & o & ep & g & Ho & H1 & H2 & H3). exists k, o, ep, g. split_and!; try done.
    by destruct (Ha k o _ g Ho (or_intror (or_intror (or_intror H3)))) as (_ & ? & _).
Qed.

(** ** Overlapping requests

    Two requests on one route share a key.  The second fails the first, and the first, on leaving, deletes the entry of
    the second. *)

(** An operation in progress that no entry of the table leads to. *)
Definition stranded (k : nat) (c : ControlClient) : Prop :=
  (exists o, cl_ops c !! k = Some o /\ op_progress o <> Loaded /\ forall m g, ~ carries o (Answer m g)) /\
  (forall key g, cl_pending c !! key <> Some (k, g)).

#[global] Instance stranded_kept k : Preserves client_step (stranded k).
Proof.
  intros c c' Hst [(o & Ho & Hp & Hn) Hpe]. split.
  - destruct (step_keeps_ops c c' k Hst) as [o' Ho']; [by eauto|]. exists o'. split; [done|].
    destruct (step_evolves c c' Hst k o' Ho') as [[? _]|(x & Hx & _ & _ & _ & [_ Hadv] & Hv)]; [congruence|]. assert (x = o) as -> by congruence. split.
    + intros Hl. by apply Hp, Hadv.
    + intros m g Hc. destruct (Hv _ Hc) as [H0|(key & _ & _ & H0)]; [by apply (Hn m g)|by apply (Hpe key g)].
  - intros key g H. destruct Hst; simpl in H; try (by apply (Hpe key g)).
    + apply lookup_insert_Some in H as [[_ [= -> _]]|[_ H]]; [congruence|]. revert H. repeat case_match; apply Hpe.
    + apply lookup_delete_Some in H as [_ H]. by apply (Hpe key g).
    + rewrite (proj2 (settle_ops _ _ _)) in H. by apply (Hpe key g).
    + revert H. unfold readLoop_message, client_dispatch. repeat case_match; apply Hpe.
Qed.

Lemma stranded_unanswered k c c' o : stranded k c -> rtc client_step c c' -> cl_ops c' !! k = Some o -> forall m g, ~ carries o (Answer m g).
Proof.
  intros Hs Hr Ho. apply (reachable_keeps (stranded k)) in Hr; [|done]. destruct Hr as [(x & Hx & _ & Hn) _]. assert (x = o) as -> by congruence. done.
Qed.

(** Operation [k] after the steps that lead to a state, computed. *)
Definition on_op (k : nat) (f : ControlClient -> nat -> operation -> ControlClient) (c : ControlClient) : ControlClient :=
  match cl_ops c !! k with Some o => f c k o | None => c end.

(** Two requests to open route 7 over one connection: the second has written its request when the first leaves. *)
Definition overlap_entered : ControlClient := on_op 0 enter (begin (connect NewControlClient) 0 Opening 7).
Definition overlap_written : ControlClient := on_op 0 (fun c k o => wrote c k o None) overlap_entered.
Definition overlap_second : ControlClient := on_op 1 (fun c k o => wrote c k o None) (on_op 1 enter (begin overlap_written 1 Opening 7)).
Definition overlap_left : ControlClient :=
  on_op 0 (fun c k o => leave c k o (Failure ErrConnectionLost)) (on_op 0 (fun c k o => receive c k o (Failure ErrConnectionLost)) overlap_second).

Lemma overlap_reachable : rtc client_step NewControlClient overlap_left.
Proof.
  eapply rtc_l; [apply ct_connect|]. eapply rtc_l; [apply (ct_open _ 0 true 7 "t"); reflexivity|].
  eapply rtc_l; [eapply (ct_enter _ 0); [vm_compute; reflexivity|reflexivity]|].
  eapply rtc_l; [eapply (ct_write _ 0 _ None); [vm_compute; reflexivity|reflexivity]|].
  eapply rtc_l; [apply (ct_open _ 1 true 7 "t"); [vm_compute; reflexivity|reflexivity]|].
  eapply rtc_l; [eapply (ct_enter _ 1); [vm_compute; reflexivity|reflexivity]|].
  eapply rtc_l; [eapply (ct_write _ 1 _ None); [vm_compute; reflexivity|reflexivity]|].
  eapply rtc_l; [eapply (ct_receive _ 0); [vm_compute; reflexivity|reflexivity|reflexivity]|].
  eapply rtc_l; [eapply (ct_leave _ 0); [vm_compute; reflexivity|reflexivity]|]. vm_compute. reflexivity.
Qed.

(** Overlapping requests lose an answer.  After the first of two requests on one route has left, the second is still
    waiting on the current connection, and no answer of the relay can ever reach it. *)
Theorem overlapping_answer_lost :
  exists c o, rtc client_step NewControlClient c /\ cl_ops c !! 1%nat = Some o /\ op_progress o = Written /\ op_ch o = None /\ op_connGen o = connGen c /\
    forall c' o', rtc client_step c c' -> cl_ops c' !! 1%nat = Some o' -> forall m g, ~ carries o' (Answer m g).
Proof.
  exists overlap_left. eexists. split; [apply overlap_reachable|]. split; [vm_compute; reflexivity|]. split_and!; [reflexivity|reflexivity|vm_compute; reflexivity|].
  intros c' o' Hr Ho'. eapply stranded_unanswered; [|exact Hr|exact Ho']. split.
  - eexists. split; [vm_compute; reflexivity|]. split; [done|]. intros m g [[=]|[[=]|[[=]|[=]]]].
  - intros key g. replace (cl_pending overlap_left) with (∅ : gmap op_key (nat * Z)) by (vm_compute; reflexivity). by rewrite lookup_empty.
Qed.

(** A restored route keeps the credential it had, whatever the relay answered. *)
Theorem restore_keeps_credential c o i ep creds g rid mr :
  op_purpose o = Restoring -> cl_routes (settle_routes c o (Answer (RouteOpened i ep creds) g)) !! rid = Some mr ->
  exists mr0, cl_routes c !! rid = Some mr0 /\ mr_Credentials mr = mr_Credentials mr0.
Proof.
  intros Hp. unfold settle_routes. rewrite Hp. destruct (ValidateControl _); simpl; [|by eauto].
  rewrite lookup_alter_Some. intros [(_ & x & Hx & ->)|[_ H]]; by eauto.
Qed.

(** ** The transport is a bounded queue *)

Inductive transport_event := TOpen | TClose | TFrame (raw : list byte) | TReceive.

(** The events of a transport; packets taken and packets handed out accumulate. *)
Definition transport_step (st : RelayTransport * list (Z * list byte) * list (Z * list byte)) (ev : transport_event)
    : RelayTransport * list (Z * list byte) * list (Z * list byte) :=
  let '(t, taken, given) := st in
  match ev with
  | TOpen => (transport_Open t, if rt_closed t then [] else taken, if rt_closed t then [] else given)
  | TClose => (transport_Close t, taken, given)
  | TFrame raw =>
      let '(lost, t') := handle_frame t raw in
      (t', if lost then taken else match UnmarshalFrame raw with Ok f => taken ++ [(f_RouteID f, f_Payload f)] | Err _ => taken end, given)
  | TReceive =>
      match Pop (rt_queue t) with
      | Some (Some p, q) => ({| rt_queue := q; rt_open := rt_open t; rt_closed := rt_closed t; rt_handler := rt_handler t |}, taken, given ++ [p])
      | _ => st
      end
  end.

(** Packets of the tunnel are handed to WireGuard in order, each once and with the route it came on: since the
    transport was last opened, what was handed out and what is queued are together exactly the frames that were taken;
    at most the bound is queued, and after closing nothing is taken. *)
Theorem transport_in_order evs :
  let '(t, taken, given) := foldl transport_step (NewRelayTransport, [], []) evs in
  taken = given ++ pq_packets (rt_queue t) /\ len (pq_packets (rt_queue t)) <= MaxQueuePackets /\
  (rt_closed t = true -> forall raw, (handle_frame t raw).1 = true).
Proof.
  assert (forall st, let '(t, taken, given) := st in
    taken = given ++ pq_packets (rt_queue t) /\ len (pq_packets (rt_queue t)) <= MaxQueuePackets /\ pq_max (rt_queue t) = MaxQueuePackets /\
    (rt_closed t = true -> rt_handler t = false) ->
    let '(t, taken, given) := foldl transport_step st evs in
    taken = given ++ pq_packets (rt_queue t) /\ len (pq_packets (rt_queue t)) <= MaxQueuePackets /\ (rt_closed t = true -> rt_handler t = false)) as H.
  { induction evs as [|ev evs IH]; intros [[t taken] given]; [by intros (? & ? & _ & ?)|]. intros (H1 & H2 & H3 & H4). cbn [foldl].
    assert (let '(t', taken', given') := transport_step (t, taken, given) ev in
      taken' = given' ++ pq_packets (rt_queue t') /\ len (pq_packets (rt_queue t')) <= MaxQueuePackets /\ pq_max (rt_queue t') = MaxQueuePackets /\
      (rt_closed t' = true -> rt_handler t' = false)) as Hstep; [|specialize (IH (transport_step (t, taken, given) ev)); destruct (transport_step _ _) as [[t' taken'] given']; by apply IH].
    destruct ev as [| |raw|]; simpl.
    - unfold transport_Open. destruct (rt_closed t) eqn:Ec; simpl; [split_and!; [done|unfold len, MaxQueuePackets; simpl; lia|done|done]|].
      destruct (rt_open t); simpl; [by rewrite Ec in *|done].
    - done.
    - unfold handle_frame. destruct (rt_handler t) eqn:Eh; simpl; [|by rewrite Eh]. destruct (UnmarshalFrame raw) as [f|]; simpl; [|by rewrite Eh].
      unfold Push. destruct (pq_closed _); simpl; [by rewrite Eh|]. destruct (Z.leb_spec (pq_max (rt_queue t)) (len (pq_packets (rt_queue t)))); simpl; [by rewrite Eh|].
      split_and!; [by rewrite H1, app_assoc|rewrite len_app; unfold len at 2; simpl; lia|done|done].
    - unfold Pop. destruct (pq_packets (rt_queue t)) as [|p q] eqn:Eq; [destruct (pq_closed _); by rewrite Eq|]. simpl.
      split_and!; [by rewrite H1, <- app_assoc|unfold len in *; simpl in H2; lia|done|done]. }
  specialize (H (NewRelayTransport, [], [])). destruct (foldl _ _ _) as [[t taken] given].
  destruct H as (H1 & H2 & H3); [split_and!; [done|unfold len, MaxQueuePackets; simpl; lia|done|done]|]. split_and!; [done|done|].
  intros Hc raw. unfold handle_frame. by rewrite (H3 Hc).
Qed.

(** ** Endpoint names round trip *)

Lemma decimal_char n : (n < 10)%N -> decimal_digit (pretty_N_char n) = Some (Z.of_N n).
Proof.
  intros Hn. assert (exists k, (k < 10)%nat /\ n = N.of_nat k) as (k & Hk & ->) by (exists (N.to_nat n); lia).
  do 10 (destruct k as [|k]; [reflexivity|]). lia.
Qed.

Lemma decimal_pretty (x : N) s : decimal 0 (pretty_N_go x s) = decimal (Z.of_N x) s.
Proof.
  revert s. induction (N.lt_wf_0 x) as [x _ IH]; intros s. destruct (decide (x = 0%N)) as [->|Hx]; [by rewrite pretty_N_go_0|].
  rewrite pretty_N_go_step by lia. rewrite IH by (apply N.div_lt; lia). simpl.
  rewrite decimal_char by (apply N.mod_lt; lia). f_equal. pose proof (N.div_mod x 10 ltac:(lia)). lia.
Qed.

Lemma go_nonempty (x : N) s : s <> "" -> pretty_N_go x s <> "".
Proof.
  revert s. induction (N.lt_wf_0 x) as [x _ IH]; intros s Hs. destruct (decide (x = 0%N)) as [->|Hx]; [by rewrite pretty_N_go_0|].
  rewrite pretty_N_go_step by lia. apply IH; [apply N.div_lt; lia|done].
Qed.

Lemma pretty_nonempty (x : N) : pretty x <> "".
Proof.
  unfold pretty, pretty_N. case_decide as Hx; [done|]. rewrite pretty_N_go_step by lia. by apply go_nonempty.
Qed.

Lemma pretty_decimal (x : N) : decimal 0 (pretty x) = Some (Z.of_N x).
Proof. unfold pretty, pretty_N. case_decide as Hx; [by subst|]. by rewrite decimal_pretty. Qed.

Lemma endpoint_parts s : String.prefix RelayEndpointPrefix (RelayEndpointPrefix +:+ s) = true /\
  String.substring 6 (String.length (RelayEndpointPrefix +:+ s) - 6) (RelayEndpointPrefix +:+ s) = s.
Proof.
  unfold RelayEndpointPrefix. simpl. split; [by destruct s|]. rewrite Nat.sub_0_r. change ("" +:+ s) with s.
  induction s as [|a s IH]; [done|]. simpl. by rewrite IH.
Qed.

(** Endpoint names are read back: the name of every route that a frame can carry denotes that route. *)
Theorem endpoint_roundtrip rid : 0 < rid <= MaxRouteID -> ParseRelayEndpoint (RelayEndpointString rid) = Ok rid.
Proof.
  intros H. unfold ParseRelayEndpoint, RelayEndpointString. destruct (endpoint_parts (pretty (Z.to_N rid))) as [-> ->]. cbn [negb].
  unfold ParseUint. rewrite (proj2 (empty_str_false _)) by apply pretty_nonempty. rewrite pretty_decimal, Z2N.id by lia. unfold MaxRouteID in *.
  rewrite (proj2 (Z.ltb_lt _ _)) by lia. rewrite (proj2 (Z.eqb_neq _ _)), (proj2 (Z.ltb_ge _ _)) by lia. done.
Qed.

(** ** Instances *)

Definition answered : ControlClient :=
  on_op 0 (fun c k o => settle c k o (Answer (RouteOpened 7 "192.0.2.1:4000" "secret") 1))
    (on_op 0 (fun c k o => leave c k o (Answer (RouteOpened 7 "192.0.2.1:4000" "secret") 1))
       (on_op 0 (fun c k o => receive c k o (Answer (RouteOpened 7 "192.0.2.1:4000" "secret") 1))
          (readLoop_message overlap_written (Some (RouteOpened 7 "192.0.2.1:4000" "secret")) 1))).

Lemma exchange_authentic_witness :
  cl_routes answered !! 7 = Some {| mr_Credentials := "secret"; mr_AllocatedEndpoint := "192.0.2.1:4000" |} /\
  exists k o ep g, cl_ops answered !! k = Some o /\ op_purpose o = Opening /\ op_route o = 7 /\ g = op_connGen o /\
    op_progress o = Settled (Answer (RouteOpened 7 ep "secret") g).
Proof.
  split; [vm_compute; reflexivity|]. refine (proj2 (exchange_authentic answered _) 7 {| mr_Credentials := "secret"; mr_AllocatedEndpoint := "192.0.2.1:4000" |} _);
    [|vm_compute; reflexivity].
  eapply rtc_l; [apply ct_connect|]. eapply rtc_l; [apply (ct_open _ 0 true 7 "t"); reflexivity|].
  eapply rtc_l; [eapply (ct_enter _ 0); [vm_compute; reflexivity|reflexivity]|].
  eapply rtc_l; [eapply (ct_write _ 0 _ None); [vm_compute; reflexivity|reflexivity]|].
  eapply rtc_l; [apply (ct_message _ (Some (RouteOpened 7 "192.0.2.1:4000" "secret")) 1); vm_compute; discriminate|].
  eapply rtc_l; [eapply (ct_receive _ 0); [vm_compute; reflexivity|reflexivity|reflexivity]|].
  eapply rtc_l; [eapply (ct_leave _ 0); [vm_compute; reflexivity|reflexivity]|].
  eapply rtc_l; [eapply (ct_settle _ 0); [vm_compute; reflexivity|reflexivity]|]. vm_compute. reflexivity.
Defined.

Lemma endpoint_roundtrip_witness : ParseRelayEndpoint (RelayEndpointString 90125) = Ok 90125.
Proof. apply endpoint_roundtrip. vm_compute. split; [reflexivity|discriminate]. Defined.

Lemma restore_keeps_credential_witness :
  exists mr0, cl_routes answered !! 7 = Some mr0 /\ "secret" = mr_Credentials mr0.
Proof.
  refine (restore_keeps_credential answered {| op_purpose := Restoring; op_route := 7; op_connGen := 1; op_ch := None; op_progress := Written |}
            7 "192.0.2.1:4001" "other" 1 7 {| mr_Credentials := "secret"; mr_AllocatedEndpoint := "192.0.2.1:4001" |} eq_refl _). vm_compute. reflexivity.
Defined.
