(* ===== verification/Body.v ===== *)
(** * The Body boundary: capabilities, authority and the guarded execution path

    Models [src/Core/Body]: the capability registry ([capability.go]), the rule
    evaluator ([authority.go]), the Local Body ([local.go]) and the guard
    ([guard.go]), the one path from a requested operation to an invocation.
    A Body and an authority evaluator are interfaces of the source; they are
    dictionaries of operations acting on a world, and the guard is proved
    against them.  Reachable, capable, available and authorized are kept as
    separate as the source keeps them.  Human-readable error texts are
    abbreviated; codes and statuses are the source's. *)
From S2P Require Import Prelude.
From stdpp Require Import options.

(** ** Capabilities *)

Record Capability := {
  cap_ID : string;
  cap_Operations : list string;
  cap_Available : bool;
  cap_Constraints : option (gmap string string);
  cap_Metadata : option (gmap string string);
}.

Definition CapabilityRegistry : Type := gmap string Capability.
Definition NewCapabilityRegistry : CapabilityRegistry := ∅.

Inductive capability_error :=
| EmptyCapabilityID | NoOperations | CapabilityExists | DuplicateOperation.

(** The [seen] loop of [Register]. *)
Fixpoint has_duplicate (seen : gset string) (ops : list string) : bool :=
  match ops with
  | [] => false
  | op :: rest => if bool_decide (op ∈ seen) then true else has_duplicate ({[op]} ∪ seen) rest
  end.

Definition CapabilityRegistry_Register (cr : CapabilityRegistry) (c : Capability)
    : res capability_error CapabilityRegistry :=
  refuse empty_str (cap_ID c) with EmptyCapabilityID;
  refuse Nat.eqb (length (cap_Operations c)) 0 with NoOperations;
  refuse bool_decide (is_Some (cr !! cap_ID c)) with CapabilityExists;
  refuse has_duplicate ∅ (cap_Operations c) with DuplicateOperation;
  Ok (<[cap_ID c := c]> cr).

Definition CapabilityRegistry_Has (cr : CapabilityRegistry) (id : string) : bool :=
  bool_decide (is_Some (cr !! id)).

(** The source ranges over a map, so the order is the runtime's. *)
Definition CapabilityRegistry_All (cr : CapabilityRegistry) : list Capability :=
  (map_to_list cr).*2.

(** The sentinels a Body's resolution can report; [OtherBodyError] is any
    error that is none of them. *)
Inductive body_error :=
| ErrUnsupportedCapability | ErrUnsupportedOperation | ErrCapabilityUnavailable
| OtherBodyError (text : string).

#[global] Instance body_error_eq_dec : EqDecision body_error.
Proof. solve_decision. Defined.

Definition body_error_text (e : body_error) : string :=
  match e with
  | ErrUnsupportedCapability => "unsupported capability"
  | ErrUnsupportedOperation => "unsupported operation"
  | ErrCapabilityUnavailable => "capability unavailable"
  | OtherBodyError text => text
  end.

Definition CapabilityRegistry_Resolve (cr : CapabilityRegistry) (capID op : string)
    : option body_error :=
  match cr !! capID with
  | None => Some ErrUnsupportedCapability
  | Some c =>
      if negb (existsb (fun o => same_str o op) (cap_Operations c)) then Some ErrUnsupportedOperation
      else if negb (cap_Available c) then Some ErrCapabilityUnavailable
      else None
  end.

(** ** Requests, results and the Body interface *)

Section body.
Context {Any : Type}.

Record ExecutionRequest := {
  xr_ExecutionID : string;
  xr_Doll : string;
  xr_Body : string;
  xr_Capability : string;
  xr_Operation : string;
  xr_Arguments : option (gmap string Any);
}.

Record AuthorityRequest := {
  ar_Doll : string;
  ar_Body : string;
  ar_Capability : string;
  ar_Operation : string;
  ar_Arguments : option (gmap string Any);
}.

Record AuthorityResult := {
  Decision : string;
  Reason : string;
  Message : string;
  Scope : string;
}.

Record ExecutionResult := {
  xs_ExecutionID : string;
  xs_Status : string;
  xs_Output : string;
  xs_ErrorCode : string;
  xs_Error : string;
  xs_DenialScope : string;
}.

Definition AuthorityAllow := "allow".
Definition AuthorityDeny := "deny".

Definition IsAllow (r : AuthorityResult) : bool := same_str (Decision r) AuthorityAllow.
Definition IsDeny (r : AuthorityResult) : bool := negb (same_str (Decision r) AuthorityAllow).

(** What Core needs of a Body.  [Body_Execute] is the invocation, context aware
    or not; it may answer with no result and no error. *)
Record Body (Ctx World : Type) := {
  Body_ResolveCapability : World -> string -> string -> option body_error;
  Body_Execute : Ctx -> ExecutionRequest -> World ->
    (option ExecutionResult * option string) * World;
}.

Definition AuthorityEvaluator (World : Type) : Type :=
  AuthorityRequest -> World -> AuthorityResult * World.

(** ** The rule evaluator *)

Record AuthorityRule := {
  rule_Doll : string;
  rule_Body : string;
  rule_Capability : string;
  rule_Operation : string;
  rule_Decision : string;
  rule_Reason : string;
  rule_Message : string;
  rule_Scope : string;
}.

Definition rule_matches (r : AuthorityRule) (req : AuthorityRequest) : bool :=
  same_str (rule_Doll r) (ar_Doll req) && same_str (rule_Body r) (ar_Body req) &&
  same_str (rule_Capability r) (ar_Capability req) && same_str (rule_Operation r) (ar_Operation req).

Fixpoint RuleEvaluator_Evaluate (rules : list AuthorityRule) (req : AuthorityRequest)
    : AuthorityResult :=
  match rules with
  | [] => {| Decision := AuthorityDeny; Reason := "no_rule";
             Message := "no authority rule matches this request"; Scope := "" |}
  | r :: rest =>
      if rule_matches r req
      then {| Decision := rule_Decision r; Reason := rule_Reason r; Message := rule_Message r;
              Scope := rule_Scope r |}
      else RuleEvaluator_Evaluate rest req
  end.

(** ** The guard *)

Definition CoreStatusSuccess := "success".
Definition CoreStatusDenied := "denied".
Definition CoreStatusUnsupported := "unsupported".
Definition CoreStatusInvalid := "invalid".
Definition CoreStatusUnavailable := "unavailable".
Definition CoreStatusFailed := "failed".
Definition CoreStatusCancelled := "cancelled".
Definition CoreStatusExpired := "expired".

Definition terminal (req : ExecutionRequest) (status code message : string) : ExecutionResult :=
  {| xs_ExecutionID := xr_ExecutionID req; xs_Status := status; xs_Output := "";
     xs_ErrorCode := code; xs_Error := message; xs_DenialScope := "" |}.

Record Guard (Ctx World : Type) := {
  g_registry : gmap string (Body Ctx World);
  g_evaluator : AuthorityEvaluator World;
}.

Record GuardResult := {
  Eligible : bool;
  Denied : bool;
  gr_Reason : string;
  gr_Message : string;
  gr_Scope : string;
}.

Inductive guard_error := BodyNotFound | BodyAlreadyRegistered | ResolutionFailed (e : body_error).

Section guard.
Context {Ctx World : Type}.
Local Abbreviation registry_of := (g_registry Ctx World).
Local Abbreviation evaluate := (g_evaluator Ctx World).
Local Abbreviation resolve := (Body_ResolveCapability Ctx World).
Local Abbreviation invoke := (Body_Execute Ctx World).

(** The authority-only preflight. *)
Definition Authorize (g : Guard Ctx World) (req : AuthorityRequest) (w : World)
    : res guard_error GuardResult * World :=
  match registry_of g !! ar_Body req with
  | None => (Err BodyNotFound, w)
  | Some b =>
      match resolve b w (ar_Capability req) (ar_Operation req) with
      | Some e => (Err (ResolutionFailed e), w)
      | None =>
          let '(a, w1) := evaluate g req w in
          if IsDeny a
          then (Ok {| Eligible := false; Denied := true; gr_Reason := Reason a;
                      gr_Message := Message a; gr_Scope := Scope a |}, w1)
          else (Ok {| Eligible := true; Denied := false; gr_Reason := Reason a;
                      gr_Message := Message a; gr_Scope := "" |}, w1)
      end
  end.

Definition missing_fields (req : ExecutionRequest) : bool :=
  empty_str (xr_ExecutionID req) || empty_str (xr_Doll req) || empty_str (xr_Body req) ||
  empty_str (xr_Capability req) || empty_str (xr_Operation req).

Definition authority_request (req : ExecutionRequest) : AuthorityRequest :=
  {| ar_Doll := xr_Doll req; ar_Body := xr_Body req; ar_Capability := xr_Capability req;
     ar_Operation := xr_Operation req; ar_Arguments := xr_Arguments req |}.

(** The [switch] on a resolution error. *)
Definition resolution_result (req : ExecutionRequest) (e : body_error) : ExecutionResult :=
  match e with
  | ErrUnsupportedCapability =>
      terminal req CoreStatusUnsupported "unsupported_capability" (body_error_text e)
  | ErrUnsupportedOperation =>
      terminal req CoreStatusUnsupported "unsupported_operation" (body_error_text e)
  | ErrCapabilityUnavailable =>
      terminal req CoreStatusUnavailable "unavailable" (body_error_text e)
  | OtherBodyError _ => terminal req CoreStatusFailed "resolution_failed" (body_error_text e)
  end.

Definition ExecuteContext (g : Guard Ctx World) (ctx : Ctx) (req : ExecutionRequest) (w : World)
    : ExecutionResult * World :=
  if missing_fields req then
    (terminal req CoreStatusInvalid "invalid_request"
       "execution request is missing required fields (execution_id, doll, body, capability, operation)", w)
  else
    match registry_of g !! xr_Body req with
    | None => (terminal req CoreStatusInvalid "body_not_found" "body not found", w)
    | Some b =>
        match resolve b w (xr_Capability req) (xr_Operation req) with
        | Some e => (resolution_result req e, w)
        | None =>
            let '(a, w1) := evaluate g (authority_request req) w in
            if IsDeny a then
              ({| xs_ExecutionID := xr_ExecutionID req; xs_Status := CoreStatusDenied;
                  xs_Output := ""; xs_ErrorCode := Reason a; xs_Error := Message a;
                  xs_DenialScope := Scope a |}, w1)
            else
              let '((bodyRes, err), w2) := invoke b ctx req w1 in
              match err with
              | Some text => (terminal req CoreStatusFailed "invocation_failed" text, w2)
              | None =>
                  match bodyRes with
                  | None => (terminal req CoreStatusFailed "invocation_failed"
                               "body returned nil result", w2)
                  | Some r =>
                      ({| xs_ExecutionID := xr_ExecutionID req; xs_Status := xs_Status r;
                          xs_Output := xs_Output r; xs_ErrorCode := xs_ErrorCode r;
                          xs_Error := xs_Error r; xs_DenialScope := xs_DenialScope r |}, w2)
                  end
              end
        end
    end.

(** [Execute] is [ExecuteContext] with [context.Background()]. *)
Definition Guard_Execute (Background : Ctx) (g : Guard Ctx World) (req : ExecutionRequest)
    (w : World) : ExecutionResult * World := ExecuteContext g Background req w.

(** ** The Local Body *)

Definition LocalBodyID := "local::core".

Record LocalBody := { lb_id : string; lb_name : string; lb_caps : CapabilityRegistry }.

Definition runtime_info : Capability :=
  {| cap_ID := "runtime.info"; cap_Operations := ["read"; "list"]; cap_Available := true;
     cap_Constraints := None; cap_Metadata := None |}.

Definition NewLocal : LocalBody :=
  {| lb_id := LocalBodyID; lb_name := "local";
     lb_caps := match CapabilityRegistry_Register NewCapabilityRegistry runtime_info with
                | Ok cr => cr
                | Err _ => NewCapabilityRegistry
                end |}.

(** The two runtime payloads are JSON documents of the standard library's
    making, parameters here. *)
Definition LocalBody_Execute (info listing : string) (req : ExecutionRequest)
    : option ExecutionResult * option string :=
  let ok out := (Some {| xs_ExecutionID := ""; xs_Status := CoreStatusSuccess; xs_Output := out;
                         xs_ErrorCode := ""; xs_Error := ""; xs_DenialScope := "" |}, None) in
  if same_str (xr_Capability req) "runtime.info" && same_str (xr_Operation req) "read" then ok info
  else if same_str (xr_Capability req) "runtime.info" && same_str (xr_Operation req) "list"
  then ok listing
  else (None, Some "execution not available").

Definition LocalBody_as_Body (b : LocalBody) (info listing : string) : Body Ctx World :=
  {| Body_ResolveCapability := fun _ => CapabilityRegistry_Resolve (lb_caps b);
     Body_Execute := fun _ req w => (LocalBody_Execute info listing req, w) |}.

(** ** The Body registry *)

Definition BodyRegistry_Register (bodies : gmap string (Body Ctx World)) (id : string)
    (b : Body Ctx World) : res guard_error (gmap string (Body Ctx World)) :=
  if bool_decide (is_Some (bodies !! id)) then Err BodyAlreadyRegistered else Ok (<[id := b]> bodies).

Definition NewBodyRegistry (info listing : string) : gmap string (Body Ctx World) :=
  <[lb_id NewLocal := LocalBody_as_Body NewLocal info listing]> ∅.
End guard.
End body.

Arguments ExecutionRequest : clear implicits.
Arguments AuthorityRequest : clear implicits.
Arguments Body : clear implicits.
Arguments Guard : clear implicits.
Arguments AuthorityEvaluator : clear implicits.

(** ** Capability registry lemmas *)

Definition capability_ok (id : string) (c : Capability) : Prop :=
  cap_ID c = id /\ id <> "" /\ cap_Operations c <> [] /\ NoDup (cap_Operations c).

Definition capabilities_inv (cr : CapabilityRegistry) : Prop := map_Forall capability_ok cr.

Lemma has_duplicate_false seen ops :
  has_duplicate seen ops = false <-> NoDup ops /\ (forall op, op ∈ ops -> op ∉ seen).
Proof.
  revert seen. induction ops as [|op ops IH]; intros seen; simpl.
  { split; [|done]. intros _. split; [constructor|set_solver]. }
  case_bool_decide as Hin.
  - split; [done|]. intros [_ H]. exfalso. apply (H op); set_solver.
  - rewrite IH, NoDup_cons. set_solver.
Qed.

Lemma Register_ok cr c cr' :
  CapabilityRegistry_Register cr c = Ok cr' ->
  capability_ok (cap_ID c) c /\ cr !! cap_ID c = None /\ cr' = <[cap_ID c := c]> cr.
Proof.
  unfold CapabilityRegistry_Register. intros H. repeat case_match; simplify_eq.
  case_bool_decide as Hex; [done|]. apply eq_None_not_Some in Hex.
  rewrite has_duplicate_false, empty_str_false in *. split; [|done]. split_and!; try done; [|naive_solver].
  intros Hn. by rewrite Hn in *.
Qed.

Lemma Register_accepts cr c :
  capability_ok (cap_ID c) c -> cr !! cap_ID c = None ->
  CapabilityRegistry_Register cr c = Ok (<[cap_ID c := c]> cr).
Proof.
  intros (_ & Hid & Hops & Hnd) Hfresh. unfold CapabilityRegistry_Register.
  rewrite (proj2 (empty_str_false _)) by done.
  destruct (cap_Operations c) as [|op ops] eqn:E; [done|]. cbn [length Nat.eqb].
  rewrite bool_decide_false by (rewrite Hfresh; apply is_Some_None).
  by rewrite (proj2 (has_duplicate_false ∅ _)) by (split; [done|set_solver]).
Qed.

Lemma Register_inv cr c cr' :
  capabilities_inv cr -> CapabilityRegistry_Register cr c = Ok cr' -> capabilities_inv cr'.
Proof.
  intros Hi (Hok & _ & ->)%Register_ok. by apply map_Forall_insert_2.
Qed.

Lemma Resolve_None cr capID op :
  CapabilityRegistry_Resolve cr capID op = None <->
  exists c, cr !! capID = Some c /\ op ∈ cap_Operations c /\ cap_Available c = true.
Proof.
  unfold CapabilityRegistry_Resolve.
  destruct (cr !! capID) as [c|]; [|split; [done|by intros (c & [=] & _)]].
  assert (existsb (fun o => same_str o op) (cap_Operations c) = true <-> op ∈ cap_Operations c) as Hx.
  { rewrite existsb_exists, list_elem_of_In. setoid_rewrite same_str_true. naive_solver. }
  destruct (existsb _ _) eqn:He; simpl.
  - destruct (cap_Available c) eqn:Ha; simpl.
    + split; [|done]. intros _. exists c. split_and!; [done|by apply Hx|done].
    + split; [done|]. intros (c' & [= <-] & _ & ?). congruence.
  - split; [done|]. intros (c' & [= <-] & Hop%Hx & _). congruence.
Qed.

(** ** Guard lemmas *)

Section properties.
Context {Any Ctx World : Type}.
Implicit Types (g : Guard Any Ctx World) (req : ExecutionRequest Any) (w : World).

(** The guard lets [req] through to Body [b] in world [w], leaving [w1]. *)
Definition admitted g req w (b : Body Any Ctx World) (w1 : World) : Prop :=
  missing_fields req = false /\ g_registry Ctx World g !! xr_Body req = Some b /\
  Body_ResolveCapability Ctx World b w (xr_Capability req) (xr_Operation req) = None /\
  exists a, g_evaluator Ctx World g (authority_request req) w = (a, w1) /\ Decision a = AuthorityAllow.

Lemma guard_cases g ctx req w :
  let out := ExecuteContext g ctx req w in
  (exists b w1, admitted g req w b w1 /\ out.2 = (Body_Execute Ctx World b ctx req w1).2) \/
  ((out.2 = w \/ out.2 = (g_evaluator Ctx World g (authority_request req) w).2) /\
   xs_Status out.1 ∈ [CoreStatusInvalid; CoreStatusUnsupported; CoreStatusUnavailable;
                      CoreStatusFailed; CoreStatusDenied] /\ xs_Output out.1 = "").
Proof.
  unfold ExecuteContext, admitted.
  destruct (missing_fields req) eqn:Hm; [right; set_solver|].
  destruct (g_registry Ctx World g !! xr_Body req) as [b|] eqn:Hb; [|right; set_solver].
  destruct (Body_ResolveCapability Ctx World b w _ _) as [e|] eqn:Hr.
  { right. split; [by left|]. destruct e; set_solver. }
  destruct (g_evaluator Ctx World g _ w) as [a w1] eqn:Ha.
  destruct (IsDeny a) eqn:Hd; unfold IsDeny in Hd; bool_props.
  { right. simpl. set_solver. }
  left. exists b, w1. split; [split_and!; try done; exists a; by rewrite same_str_true in Hd|].
  destruct (Body_Execute Ctx World b ctx req w1) as [[r e] w2]. by repeat case_match.
Qed.

Lemma guard_execution_id g ctx req w :
  xs_ExecutionID (ExecuteContext g ctx req w).1 = xr_ExecutionID req.
Proof.
  unfold ExecuteContext. destruct (missing_fields req); [done|].
  destruct (g_registry Ctx World g !! xr_Body req) as [b|]; [|done].
  destruct (Body_ResolveCapability Ctx World b w _ _) as [e|]; [by destruct e|].
  destruct (g_evaluator Ctx World g _ w) as [a w1]. destruct (IsDeny a); [done|].
  destruct (Body_Execute Ctx World b ctx req w1) as [[r e] w2]. by repeat case_match.
Qed.

(** C9: default deny.  Whatever Bodies are registered and whatever the
    evaluator does, a Body is invoked only when the request is complete, names
    a registered Body, resolves to a supported and available operation, and
    the evaluator said exactly "allow" to the very request (arguments
    included) that is then executed; in every other case the Body's world is
    untouched, the outcome is invalid, unsupported, unavailable, failed or
    denied, and it carries no output. *)
Theorem guard_default_deny g ctx req w :
  let out := ExecuteContext g ctx req w in
  (exists b w1, admitted g req w b w1 /\ out.2 = (Body_Execute Ctx World b ctx req w1).2) \/
  ((out.2 = w \/ out.2 = (g_evaluator Ctx World g (authority_request req) w).2) /\
   xs_Status out.1 ∈ [CoreStatusInvalid; CoreStatusUnsupported; CoreStatusUnavailable;
                      CoreStatusFailed; CoreStatusDenied] /\ xs_Output out.1 = "").
Proof. apply guard_cases. Qed.

(** Every outcome is correlated and the failure classes stay apart: the
    result carries the request's execution id whatever id the Body wrote,
    "success" comes only from an admitted Body that returned it, and an
    admitted Body's own status and output are passed through unchanged. *)
Theorem guard_correlates g ctx req w :
  let out := ExecuteContext g ctx req w in
  xs_ExecutionID out.1 = xr_ExecutionID req /\
  (forall b w1 r w2, admitted g req w b w1 ->
     Body_Execute Ctx World b ctx req w1 = ((Some r, None), w2) ->
     xs_Status out.1 = xs_Status r /\ xs_Output out.1 = xs_Output r /\ out.2 = w2) /\
  (xs_Status out.1 = CoreStatusSuccess -> exists b w1 r w2, admitted g req w b w1 /\
     Body_Execute Ctx World b ctx req w1 = ((Some r, None), w2) /\ xs_Status r = CoreStatusSuccess).
Proof.
  unfold ExecuteContext, admitted. simpl.
  destruct (missing_fields req) eqn:Hm; [naive_solver|].
  destruct (g_registry Ctx World g !! xr_Body req) as [b|] eqn:Hb; [|naive_solver].
  destruct (Body_ResolveCapability Ctx World b w _ _) as [e|] eqn:Hr.
  { destruct e; naive_solver. }
  destruct (g_evaluator Ctx World g _ w) as [a w1] eqn:Ha.
  destruct (IsDeny a) eqn:Hd; unfold IsDeny in Hd; bool_props.
  { rewrite same_str_false in Hd. split_and!; naive_solver. }
  rewrite same_str_true in Hd.
  destruct (Body_Execute Ctx World b ctx req w1) as [[r e] w2] eqn:He.
  split; [by repeat case_match|]. split.
  - intros b' w1' r' w2' (_ & ? & _ & a' & ? & _) Hx. simplify_eq. rewrite He in Hx. by simplify_eq.
  - destruct e as [|]; [done|]. destruct r as [r|]; [|done]. simpl. intros Hs.
    exists b, w1, r, w2. split_and!; try done. by exists a.
Qed.

Lemma rules_first_match (rules : list AuthorityRule) (req : AuthorityRequest Any) :
  Decision (RuleEvaluator_Evaluate rules req) = AuthorityAllow ->
  exists before r after, rules = before ++ r :: after /\ rule_matches r req = true /\
    rule_Decision r = AuthorityAllow /\ Forall (fun r' => rule_matches r' req = false) before.
Proof.
  induction rules as [|r rules IH]; simpl; [done|].
  destruct (rule_matches r req) eqn:Hm; simpl.
  - intros Hd. exists [], r, rules. done.
  - intros (before & r' & after & -> & ? & ? & ?)%IH. exists (r :: before), r', after.
    split_and!; try done. by constructor.
Qed.

(** With the rule evaluator, an invocation always has a named
    authorisation: some allow rule for exactly this doll, Body, capability
    and operation, preceded by no other rule for them.  So no rule set without
    such a rule, and no earlier deny, can be bypassed. *)
Theorem rules_gate_execution (bodies : gmap string (Body Any Ctx World)) rules ctx req w :
  let g := {| g_registry := bodies;
              g_evaluator := fun a w => (RuleEvaluator_Evaluate rules a, w) |} in
  (ExecuteContext g ctx req w).2 = w \/
  exists before r after, rules = before ++ r :: after /\ rule_Decision r = AuthorityAllow /\
    rule_matches r (authority_request req) = true /\
    Forall (fun r' => rule_matches r' (authority_request req) = false) before.
Proof.
  intros g. destruct (guard_cases g ctx req w) as [(b & w1 & Had & _)|[[H|H] _]]; [|by left..].
  right. destruct Had as (_ & _ & _ & a & [= <- <-] & Hd).
  destruct (rules_first_match _ _ Hd) as (before & r & after & H). exists before, r, after. naive_solver.
Qed.
End properties.

(** The capability registry keeps its four invariants (nonempty unique ids,
    at least one operation, no repeated operation) under every registration,
    and resolution says yes exactly to a declared operation of an available
    capability. *)
Theorem capability_registry_sound (cs : list Capability) cr :
  foldr (fun c acc => try cr <- acc; CapabilityRegistry_Register cr c) (Ok ∅) cs = Ok cr ->
  capabilities_inv cr /\
  (forall capID op, CapabilityRegistry_Resolve cr capID op = None <->
     exists c, c ∈ cs /\ cap_ID c = capID /\ op ∈ cap_Operations c /\ cap_Available c = true).
Proof.
  intros Hf. assert (capabilities_inv cr /\ (forall id c, cr !! id = Some c <-> c ∈ cs /\ cap_ID c = id))
    as [Hi Hl].
  { revert cr Hf. induction cs as [|c cs IH]; simpl; intros cr Hf.
    - simplify_eq. split; [done|]. set_solver.
    - destruct (foldr _ _ cs) as [cr0|] eqn:E; [|done]. simpl in Hf.
      destruct (IH cr0 eq_refl) as [Hi0 Hl0]. split; [by eapply Register_inv|].
      apply Register_ok in Hf as (Hok & Hfresh & ->). intros id c'. unfold CapabilityRegistry in *.
      rewrite lookup_insert_Some, elem_of_cons, Hl0.
      assert (forall c0, c0 ∈ cs -> cap_ID c0 <> cap_ID c).
      { intros c0 Hc0 Heq. assert (cr0 !! cap_ID c = Some c0) by (apply Hl0; naive_solver). congruence. }
      naive_solver. }
  split; [done|]. intros capID op. rewrite Resolve_None. setoid_rewrite Hl. naive_solver.
Qed.

Lemma capability_registry_sound_witness :
  CapabilityRegistry_Resolve (lb_caps NewLocal) "runtime.info" "list" = None.
Proof.
  apply (capability_registry_sound [runtime_info]); [vm_compute; reflexivity|].
  exists runtime_info. split_and!; [apply list_elem_of_here|reflexivity| |reflexivity].
  apply list_elem_of_further, list_elem_of_here.
Defined.
