(* ===== verification/BodyRemote.v ===== *)
(** * Remote Bodies and their registrar

    Models [src/Core/Body/remote.go] and [remote_registration.go]: the adapter
    from the Core's execution request to the Body Protocol payload, and the
    registrar that ties a Body's advertised capabilities to the newest
    authenticated Doll Link session.

    The registrar shares each [*RemoteBody] with the Body registry, and
    neither ever removes one, so [remote] is the set of identities whose entry
    in [bodies] the registrar holds. *)
From S2P Require Import Prelude Network Execution Body.
From stdpp Require Import options.

(** ** The adapter *)

Section remote.
Context {Any : Type}.

Inductive status_error := UnsupportedExecutionStatus.

Definition coreExecutionStatus (status : string) : res status_error string :=
  if same_str status StatusSuccess then Ok CoreStatusSuccess
  else if same_str status StatusDenied then Ok CoreStatusDenied
  else if same_str status StatusUnsupported then Ok CoreStatusUnsupported
  else if same_str status StatusInvalid then Ok CoreStatusInvalid
  else if same_str status StatusUnavailable then Ok CoreStatusUnavailable
  else if same_str status StatusFailed then Ok CoreStatusFailed
  else if same_str status StatusCancelled then Ok CoreStatusCancelled
  else if same_str status StatusExpired then Ok CoreStatusExpired
  else Err UnsupportedExecutionStatus.

(** The transport and [json.Marshal] belong to other code. *)
Context {Ctx World : Type}.

Definition RemoteExecutionTransport : Type :=
  Ctx -> string -> string -> RequestPayload Any -> World -> res go_error (Result Any) * World.

Definition remote_result (id status output : string) : ExecutionResult :=
  {| xs_ExecutionID := id; xs_Status := status; xs_Output := output; xs_ErrorCode := "";
     xs_Error := ""; xs_DenialScope := "" |}.

Definition RemoteBody_ExecuteContext (marshal : gmap string Any -> option string)
    (transport : RemoteExecutionTransport) (id : string) (ctx : Ctx)
    (request : ExecutionRequest Any) (w : World)
    : (option ExecutionResult * option string) * World :=
  let arguments := match xr_Arguments request with None => ∅ | Some m => m end in
  let '(wire, w1) := transport ctx id (xr_Doll request)
    {| ExecutionID := xr_ExecutionID request; Execution.Capability := xr_Capability request;
       Operation := xr_Operation request; Arguments := Some arguments |} w in
  match wire with
  | Err err =>
      if errors_Is err Canceled
      then ((Some (remote_result (xr_ExecutionID request) CoreStatusCancelled ""), None), w1)
      else if errors_Is err DeadlineExceeded
      then ((Some (remote_result (xr_ExecutionID request) CoreStatusExpired ""), None), w1)
      else ((None, Some "execution transport error"), w1)
  | Ok result =>
      match coreExecutionStatus (rp_Status (r_Payload result)) with
      | Err _ => ((None, Some "remote body: unsupported execution status"), w1)
      | Ok status =>
          match rp_Result (r_Payload result) with
          | None => ((Some (remote_result (rp_ExecutionID (r_Payload result)) status ""), None), w1)
          | Some o =>
              match marshal o with
              | None => ((None, Some "remote body: encode execution result"), w1)
              | Some output =>
                  ((Some (remote_result (rp_ExecutionID (r_Payload result)) status output), None), w1)
              end
          end
      end
  end.
End remote.

(** ** The registrar *)

Record RemoteBody := { rb_id : string; rb_name : string; rb_caps : CapabilityRegistry }.

(** The Body registry's entries: the Local Body or a remote one. *)
Inductive AnyBody := ALocal (b : LocalBody) | ARemote (b : RemoteBody).


Record RemoteRegistrar := {
  bodies : gmap string AnyBody;
  sessions : gmap string string;
  remote : gset string;
}.

Definition NewRemoteRegistrar : RemoteRegistrar :=
  {| bodies := <[lb_id NewLocal := ALocal NewLocal]> ∅; sessions := ∅; remote := ∅ |}.

Inductive registrar_error :=
| IdentityRequired | MembershipListFailed | ErrRemoteMembershipUnknown | ErrRemoteMembershipRevoked
| ErrStaleRemoteSession | ErrRemoteBodyDisconnected | ConflictsWithLocal
| CapabilityInvalid (e : capability_error).

(** Register each capability into a fresh registry. *)
Fixpoint register_all (cr : CapabilityRegistry) (cs : list Capability)
    : res capability_error CapabilityRegistry :=
  match cs with
  | [] => Ok cr
  | c :: rest => try cr' <- CapabilityRegistry_Register cr c; register_all cr' rest
  end.

Definition set_available (connected : bool) (c : Capability) : Capability :=
  if negb connected
  then {| cap_ID := cap_ID c; cap_Operations := cap_Operations c; cap_Available := false;
          cap_Constraints := cap_Constraints c; cap_Metadata := cap_Metadata c |}
  else c.

Definition replaceCapabilities (b : RemoteBody) (cs : list Capability) (connected : bool)
    : res capability_error RemoteBody :=
  try next <- register_all NewCapabilityRegistry (map (set_available connected) cs);
  Ok {| rb_id := rb_id b; rb_name := rb_name b; rb_caps := next |}.

Definition setDisconnected (b : RemoteBody) : RemoteBody :=
  match replaceCapabilities b (CapabilityRegistry_All (rb_caps b)) false with
  | Ok b' => b'
  | Err _ => b
  end.

(** [memberships] is what [ListMemberships] returns; a nil entry is [None]. *)
Fixpoint find_membership (memberships : list (option Membership)) (bodyID : string)
    : res registrar_error unit :=
  match memberships with
  | [] => Err ErrRemoteMembershipUnknown
  | None :: rest => find_membership rest bodyID
  | Some m :: rest =>
      if negb (same_str (m_BodyID m) bodyID) then find_membership rest bodyID
      else if same_str (m_Status m) MembershipRevoked then Err ErrRemoteMembershipRevoked
      else if negb (same_str (m_Status m) MembershipActive) then Err ErrRemoteMembershipUnknown
      else Ok tt
  end.

Definition requireActiveMembership (memberships : option (list (option Membership)))
    (bodyID : string) : res registrar_error unit :=
  match memberships with
  | None => Err MembershipListFailed
  | Some ms => find_membership ms bodyID
  end.

Definition SessionConnected (r : RemoteRegistrar) (memberships : option (list (option Membership)))
    (sessionID bodyID : string) : res registrar_error RemoteRegistrar :=
  refuse empty_str sessionID || empty_str bodyID with IdentityRequired;
  try u <- requireActiveMembership memberships bodyID;
  match bodies r !! bodyID with
  | Some (ALocal _) => Err ConflictsWithLocal
  | Some (ARemote b) =>
      Ok {| bodies := <[bodyID := ARemote (setDisconnected b)]> (bodies r);
            sessions := <[bodyID := sessionID]> (sessions r);
            remote := {[bodyID]} ∪ remote r |}
  | None =>
      Ok {| bodies := <[bodyID := ARemote (setDisconnected {| rb_id := bodyID; rb_name := bodyID;
                                             rb_caps := NewCapabilityRegistry |})]> (bodies r);
            sessions := <[bodyID := sessionID]> (sessions r);
            remote := {[bodyID]} ∪ remote r |}
  end.

(** Go reads an absent session as the empty string. *)
Definition session_of (r : RemoteRegistrar) (bodyID : string) : string :=
  default "" (sessions r !! bodyID).

Definition CapabilitiesAdvertised (r : RemoteRegistrar)
    (memberships : option (list (option Membership))) (sessionID bodyID : string)
    (advertised : list Capability) : res registrar_error RemoteRegistrar :=
  try u <- requireActiveMembership memberships bodyID;
  refuse negb (same_str (session_of r bodyID) sessionID) with ErrStaleRemoteSession;
  refuse negb (bool_decide (bodyID ∈ remote r)) with ErrRemoteBodyDisconnected;
  match bodies r !! bodyID with
  | Some (ARemote b) =>
      match replaceCapabilities b advertised true with
      | Err e => Err (CapabilityInvalid e)
      | Ok b' => Ok {| bodies := <[bodyID := ARemote b']> (bodies r); sessions := sessions r;
                       remote := remote r |}
      end
  | _ => Err ErrRemoteBodyDisconnected
  end.

Definition SessionDisconnected (r : RemoteRegistrar) (sessionID bodyID : string) : RemoteRegistrar :=
  if negb (same_str (session_of r bodyID) sessionID) then r
  else
    {| bodies := match bodies r !! bodyID with
                 | Some (ARemote b) =>
                     if bool_decide (bodyID ∈ remote r)
                     then <[bodyID := ARemote (setDisconnected b)]> (bodies r) else bodies r
                 | _ => bodies r
                 end;
       sessions := delete bodyID (sessions r);
       remote := remote r |}.

(** The checks of the registrar's [Execute]; the rest is the transport. *)
Definition Registrar_admits (r : RemoteRegistrar) (memberships : option (list (option Membership)))
    (bodyID : string) : res registrar_error unit :=
  try u <- requireActiveMembership memberships bodyID;
  refuse empty_str (session_of r bodyID) with ErrRemoteBodyDisconnected;
  Ok tt.

Definition registrar_resolve (r : RemoteRegistrar) (bodyID capID op : string) : option body_error :=
  match bodies r !! bodyID with
  | None => Some (OtherBodyError "body not found")
  | Some (ALocal b) => CapabilityRegistry_Resolve (lb_caps b) capID op
  | Some (ARemote b) => CapabilityRegistry_Resolve (rb_caps b) capID op
  end.

(** Doll Link's events, each with a nonempty session id. *)
Inductive registrar_step : RemoteRegistrar -> RemoteRegistrar -> Prop :=
| rg_connect r ms sid bid r' : SessionConnected r ms sid bid = Ok r' -> registrar_step r r'
| rg_advertise r ms sid bid cs r' :
    sid <> "" -> CapabilitiesAdvertised r ms sid bid cs = Ok r' -> registrar_step r r'
| rg_disconnect r sid bid : registrar_step r (SessionDisconnected r sid bid).

(** ** Lemmas *)

Definition offline (c : Capability) : Capability := set_available false c.

Lemma register_all_ok cr cs cr' :
  register_all cr cs = Ok cr' -> capabilities_inv cr -> capabilities_inv cr' /\
  (forall id c, cr' !! id = Some c -> cr !! id = Some c \/ c ∈ cs).
Proof.
  revert cr. induction cs as [|c cs IH]; intros cr; simpl.
  { intros [= <-] Hi. split; [done|]. auto. }
  destruct (CapabilityRegistry_Register cr c) as [cr1|] eqn:E; [|done]. simpl. intros Hr Hi.
  destruct (IH cr1 Hr) as [Hi' Hl]; [by eapply Register_inv|]. split; [done|].
  intros id c' [H|H]%Hl; [|set_solver]. apply Register_ok in E as (_ & _ & ->).
  unfold CapabilityRegistry in *. apply lookup_insert_Some in H as [[_ <-]|[_ H]]; set_solver.
Qed.

(** Registering well-formed capabilities with distinct fresh ids succeeds. *)
Lemma register_all_accepts cs cr :
  Forall (fun c => capability_ok (cap_ID c) c /\ cr !! cap_ID c = None) cs -> NoDup (map cap_ID cs) ->
  exists cr', register_all cr cs = Ok cr'.
Proof.
  revert cr. induction cs as [|c cs IH]; intros cr Hf Hnd; simpl; [eauto|].
  apply Forall_cons in Hf as [[Hok Hfresh] Hf]. simpl in Hnd. apply NoDup_cons in Hnd as [Hnin Hnd].
  rewrite Register_accepts by done. simpl. apply IH; [|done].
  apply Forall_forall. intros c' Hc'. rewrite Forall_forall in Hf. destruct (Hf _ Hc') as [Hok' Hl].
  split; [done|]. unfold CapabilityRegistry in *. rewrite lookup_insert_ne; [done|].
  intros Heq. apply Hnin. rewrite Heq. by apply list_elem_of_fmap_2.
Qed.

Lemma offline_ok id c : capability_ok id c -> capability_ok (cap_ID (offline c)) (offline c).
Proof. intros (? & ? & ? & ?). subst. done. Qed.

Definition all_offline (cr : CapabilityRegistry) : Prop :=
  map_Forall (fun _ c => cap_Available c = false) cr.

Lemma setDisconnected_offline b :
  capabilities_inv (rb_caps b) ->
  capabilities_inv (rb_caps (setDisconnected b)) /\ all_offline (rb_caps (setDisconnected b)).
Proof.
  intros Hi. unfold setDisconnected, replaceCapabilities, CapabilityRegistry_All.
  destruct (register_all_accepts (map (set_available false) (map_to_list (rb_caps b)).*2)
    NewCapabilityRegistry) as [cr Hcr].
  - apply Forall_forall. intros c Hc. apply list_elem_of_fmap in Hc as (c0 & -> & Hc0).
    apply list_elem_of_fmap in Hc0 as ([id c1] & -> & Hin%elem_of_map_to_list). simpl.
    split; [|done]. eapply offline_ok, Hi, Hin.
  - rewrite map_map. change (NoDup ((fun c => cap_ID (offline c)) <$> (map_to_list (rb_caps b)).*2)).
    rewrite <- list_fmap_compose.
    assert ((compose (fun c => cap_ID (offline c)) snd) <$> map_to_list (rb_caps b)
            = (map_to_list (rb_caps b)).*1) as ->.
    { apply list_fmap_ext. intros i [id c] Hl. simpl.
      apply list_elem_of_lookup_2, elem_of_map_to_list in Hl. by destruct (Hi _ _ Hl). }
    apply NoDup_fst_map_to_list.
  - rewrite Hcr. simpl. destruct (register_all_ok _ _ _ Hcr) as [Hi' Hl]; [done|].
    split; [done|]. intros id c Hc. destruct (Hl _ _ Hc) as [H|H]; [done|].
    apply list_elem_of_fmap in H as (c0 & -> & _). done.
Qed.

Lemma all_offline_Resolve cr capID op : all_offline cr -> CapabilityRegistry_Resolve cr capID op <> None.
Proof.
  intros Ho (c & Hc & _ & Ha)%Resolve_None. specialize (Ho _ _ Hc). simpl in Ho. congruence.
Qed.

(** A remote Body's capabilities are well formed, and offline unless a session
    is current. *)
Record registrar_inv (r : RemoteRegistrar) : Prop := {
  rr_local : bodies r !! LocalBodyID = Some (ALocal NewLocal);
  rr_caps : forall id b, bodies r !! id = Some (ARemote b) -> capabilities_inv (rb_caps b);
  rr_offline : forall id b, bodies r !! id = Some (ARemote b) -> sessions r !! id = None ->
    all_offline (rb_caps b);
  rr_sessions : forall id sid, sessions r !! id = Some sid -> sid <> "" /\
    exists b, bodies r !! id = Some (ARemote b);
  rr_remote : forall id b, bodies r !! id = Some (ARemote b) -> id ∈ remote r;
}.

Lemma NewRemoteRegistrar_inv : registrar_inv NewRemoteRegistrar.
Proof.
  split; simpl; try done.
  all: intros id b; rewrite lookup_insert_Some, lookup_empty; naive_solver.
Qed.

Lemma put_remote_inv r id b ss rs :
  registrar_inv r -> id <> LocalBodyID -> capabilities_inv (rb_caps b) ->
  (ss !! id = None -> all_offline (rb_caps b)) ->
  (forall j, j <> id -> ss !! j = sessions r !! j) ->
  (forall sid, ss !! id = Some sid -> sid <> "") -> {[id]} ∪ remote r ⊆ rs ->
  registrar_inv {| bodies := <[id := ARemote b]> (bodies r); sessions := ss; remote := rs |}.
Proof.
  intros [H1 H2 H3 H4 H5] Hne Hc Ho Hs Hsid Hrs. split; simpl.
  - by rewrite lookup_insert_ne.
  - intros j b'. rewrite lookup_insert_Some. intros [[<- [= <-]]|[? ?]]; [done|by eapply H2].
  - intros j b'. rewrite lookup_insert_Some. intros [[<- [= <-]]|[? Hb]] Hn; [by apply Ho|].
    rewrite Hs in Hn by done. by eapply H3.
  - intros j sid Hj. destruct (decide (id = j)) as [<-|].
    + split; [by eapply Hsid|]. exists b. by rewrite lookup_insert_eq.
    + rewrite Hs in Hj by done. rewrite lookup_insert_ne by done. by eapply H4.
  - intros j b'. rewrite lookup_insert_Some. intros [[<- _]|[_ ?%H5]]; set_solver.
Qed.

Lemma registrar_step_inv r r' : registrar_step r r' -> registrar_inv r -> registrar_inv r'.
Proof.
  intros Hst Hi. destruct Hst as [r ms sid bid r' H|r ms sid bid cs r' Hsid H|r sid bid].
  - unfold SessionConnected, res_bind in H. destruct (_ || _) eqn:He; [done|]. bool_props.
    rewrite empty_str_false in *. destruct (requireActiveMembership ms bid); [|done].
    assert (Hput : forall b, capabilities_inv (rb_caps b) -> bid <> LocalBodyID ->
      registrar_inv {| bodies := <[bid := ARemote (setDisconnected b)]> (bodies r);
        sessions := <[bid := sid]> (sessions r); remote := {[bid]} ∪ remote r |}).
    { intros b Hb Hl. destruct (setDisconnected_offline b Hb). apply put_remote_inv; try done.
      - intros j Hj. by rewrite lookup_insert_ne.
      - intros s. rewrite lookup_insert_eq. naive_solver. }
    destruct (bodies r !! bid) as [[b|b]|] eqn:Hb; simplify_eq; apply Hput.
    + by eapply rr_caps.
    + intros ->. rewrite (rr_local _ Hi) in Hb. done.
    + done.
    + intros ->. rewrite (rr_local _ Hi) in Hb. done.
  - unfold CapabilitiesAdvertised, res_bind in H. destruct (requireActiveMembership ms bid); [|done].
    destruct (negb (same_str _ _)) eqn:Hs; [done|]. bool_props. apply same_str_true in Hs.
    destruct (negb _); [done|].
    destruct (bodies r !! bid) as [[b|b]|] eqn:Hb; [done| |done].
    unfold replaceCapabilities in H.
    destruct (register_all _ _) as [cr|] eqn:Hcr; [|done]. simpl in H. simplify_eq.
    destruct (register_all_ok _ _ _ Hcr) as [Hi' _]; [done|].
    assert (sessions r !! bid = Some (session_of r bid)) as Hsess.
    { unfold session_of in *. by destruct (sessions r !! bid). }
    apply put_remote_inv; try done; simpl.
    + intros ->. rewrite (rr_local _ Hi) in Hb. done.
    + congruence.
    + intros s. rewrite Hsess. by intros [= <-].
    + pose proof (rr_remote _ Hi _ _ Hb). set_solver.
  - unfold SessionDisconnected. destruct (negb _) eqn:Hs; [done|]. bool_props.
    apply same_str_true in Hs.
    assert (Hskip : (forall b, bodies r !! bid <> Some (ARemote b)) ->
      registrar_inv {| bodies := bodies r; sessions := delete bid (sessions r); remote := remote r |}).
    { intros Hno. destruct r as [bs ss rs]. simpl in *. rewrite delete_id; [done|].
      destruct (ss !! bid) eqn:E; [|done]. destruct (rr_sessions _ Hi _ _ E) as (_ & b & Hb).
      by apply Hno in Hb. }
    destruct (bodies r !! bid) as [[b|b]|] eqn:Hb; [by apply Hskip| |by apply Hskip].
    rewrite bool_decide_true by (by eapply rr_remote).
    destruct (setDisconnected_offline b) as [? ?]; [by eapply rr_caps|].
    pose proof (rr_remote _ Hi _ _ Hb). apply put_remote_inv; try done.
    + intros ->. rewrite (rr_local _ Hi) in Hb. done.
    + intros j Hj. by rewrite lookup_delete_ne.
    + intros s. by rewrite lookup_delete_eq.
    + set_solver.
Qed.

#[export] Instance registrar_preserves : Preserves registrar_step registrar_inv.
Proof. exact registrar_step_inv. Qed.

Lemma registrar_reach r : rtc registrar_step NewRemoteRegistrar r -> registrar_inv r.
Proof. intros Hr. apply (reachable_keeps registrar_inv _ _ Hr), NewRemoteRegistrar_inv. Qed.

(** ** Properties *)

(** A remote Body is usable only while its newest authenticated session is
    connected: in every registrar that Doll Link's events can produce, an
    operation of a remote Body that resolves has a current session, and the
    mandatory Local Body is still the one Core started with. *)
Theorem remote_needs_session r id b capID op :
  rtc registrar_step NewRemoteRegistrar r -> bodies r !! id = Some (ARemote b) ->
  registrar_resolve r id capID op = None ->
  (exists sid, sid <> "" /\ sessions r !! id = Some sid) /\
  bodies r !! LocalBodyID = Some (ALocal NewLocal).
Proof.
  intros Hi%registrar_reach Hb Hr. split; [|by apply rr_local].
  unfold registrar_resolve in Hr. rewrite Hb in Hr.
  destruct (sessions r !! id) as [sid|] eqn:Hs.
  - exists sid. by destruct (rr_sessions _ Hi _ _ Hs).
  - exfalso. by eapply all_offline_Resolve, Hr; eapply rr_offline.
Qed.

(** A replaced session is powerless: its advertisement is refused and its
    disconnect changes nothing; and a new session starts with every
    capability offline until it advertises. *)
Theorem stale_session_powerless r ms sid bid old cs r' :
  registrar_inv r -> SessionConnected r ms sid bid = Ok r' -> old <> sid ->
  is_ok (CapabilitiesAdvertised r' ms old bid cs) = false /\
  SessionDisconnected r' old bid = r' /\
  (forall capID op, registrar_resolve r' bid capID op <> None).
Proof.
  intros Hi Hc Hne.
  assert (sessions r' !! bid = Some sid /\ exists b, capabilities_inv (rb_caps b) /\
    bodies r' !! bid = Some (ARemote (setDisconnected b))) as [Hs (b & Hcap & Hb)].
  { unfold SessionConnected, res_bind in Hc. destruct (_ || _); [done|].
    destruct (requireActiveMembership ms bid); [|done].
    destruct (bodies r !! bid) as [[b|b]|] eqn:E; simplify_eq; simpl;
      rewrite !lookup_insert_eq; split; try done; eexists; (split; [|done]).
    - by eapply rr_caps.
    - done. }
  assert (same_str (session_of r' bid) old = false) as Hss.
  { unfold session_of. rewrite Hs. apply same_str_false. naive_solver. }
  split_and!.
  - unfold CapabilitiesAdvertised, res_bind. destruct (requireActiveMembership ms bid); [|done].
    by rewrite Hss.
  - unfold SessionDisconnected. by rewrite Hss.
  - intros capID op. unfold registrar_resolve. rewrite Hb.
    apply all_offline_Resolve. by apply setDisconnected_offline.
Qed.

(** An advertisement with an empty session id is accepted for a Body that
    has disconnected, because an absent session reads as the empty string; the
    Body's capabilities then resolve as available although it has no session
    and every execution is refused as disconnected. *)
Theorem empty_session_advertises r ms bid b c op :
  registrar_inv r -> bodies r !! bid = Some (ARemote b) -> sessions r !! bid = None ->
  requireActiveMembership ms bid = Ok tt -> capability_ok (cap_ID c) c ->
  op ∈ cap_Operations c -> cap_Available c = true ->
  exists r', CapabilitiesAdvertised r ms "" bid [c] = Ok r' /\
    registrar_resolve r' bid (cap_ID c) op = None /\
    Registrar_admits r' ms bid = Err ErrRemoteBodyDisconnected.
Proof.
  intros Hi Hb Hs Hm Hok Hop Hav. unfold CapabilitiesAdvertised, session_of. rewrite Hm, Hs. simpl.
  rewrite bool_decide_true by (by eapply rr_remote). simpl. rewrite Hb.
  unfold replaceCapabilities. simpl. rewrite Register_accepts by done. simpl.
  eexists. split; [done|]. unfold registrar_resolve, Registrar_admits, session_of. simpl.
  rewrite lookup_insert_eq, Hm, Hs. simpl. split; [|done].
  apply Resolve_None. exists c. unfold CapabilityRegistry. by rewrite lookup_insert_eq.
Qed.

(** ** A concrete registrar *)

Definition demo_members : option (list (option Membership)) :=
  Some [Some {| m_BodyID := "b1"; m_PeerID := "p1"; m_WireGuardPublicKey := None;
                m_OverlayAddress := []; m_Endpoint := ""; m_Status := MembershipActive |}].
Definition demo_cap : Capability :=
  {| cap_ID := "audio"; cap_Operations := ["play"]; cap_Available := true;
     cap_Constraints := None; cap_Metadata := None |}.
Definition get_registrar (x : res registrar_error RemoteRegistrar) : RemoteRegistrar :=
  match x with Ok r => r | Err _ => NewRemoteRegistrar end.
Definition demo_rr1 := get_registrar (SessionConnected NewRemoteRegistrar demo_members "s1" "b1").
Definition demo_rr2 := get_registrar (CapabilitiesAdvertised demo_rr1 demo_members "s1" "b1" [demo_cap]).
Definition demo_rr3 := SessionDisconnected demo_rr2 "s1" "b1".

Lemma demo_rr2_reachable : rtc registrar_step NewRemoteRegistrar demo_rr2.
Proof.
  eapply rtc_l; [apply (rg_connect _ demo_members "s1" "b1" demo_rr1); vm_compute; reflexivity|].
  apply rtc_once, (rg_advertise _ demo_members "s1" "b1" [demo_cap]); [discriminate|].
  vm_compute. reflexivity.
Qed.

Definition demo_remote (r : RemoteRegistrar) : RemoteBody :=
  match bodies r !! "b1" with
  | Some (ARemote b) => b
  | _ => {| rb_id := ""; rb_name := ""; rb_caps := ∅ |}
  end.

Lemma remote_needs_session_witness : exists sid, sid <> "" /\ sessions demo_rr2 !! "b1" = Some sid.
Proof.
  apply (remote_needs_session demo_rr2 "b1" (demo_remote demo_rr2) "audio" "play");
    [exact demo_rr2_reachable|vm_compute; reflexivity|vm_compute; reflexivity].
Defined.

Lemma stale_session_powerless_witness :
  exists r', SessionConnected demo_rr2 demo_members "s2" "b1" = Ok r' /\
    SessionDisconnected r' "s1" "b1" = r'.
Proof.
  destruct (SessionConnected demo_rr2 demo_members "s2" "b1") as [r'|] eqn:E;
    [|vm_compute in E; discriminate].
  exists r'. split; [reflexivity|].
  apply (stale_session_powerless demo_rr2 demo_members "s2" "b1" "s1" [] r');
    [exact (registrar_reach _ demo_rr2_reachable)|exact E|discriminate].
Defined.

Lemma empty_session_advertises_witness :
  exists r', CapabilitiesAdvertised demo_rr3 demo_members "" "b1" [demo_cap] = Ok r' /\
    registrar_resolve r' "b1" "audio" "play" = None.
Proof.
  destruct (empty_session_advertises demo_rr3 demo_members "b1" (demo_remote demo_rr3) demo_cap "play")
    as (r' & H1 & H2 & _).
  - exact (registrar_step_inv _ _ (rg_disconnect demo_rr2 "s1" "b1") (registrar_reach _ demo_rr2_reachable)).
  - vm_compute. reflexivity.
  - vm_compute. reflexivity.
  - vm_compute. reflexivity.
  - split_and!; [reflexivity|discriminate|discriminate|]. apply NoDup_singleton.
  - apply list_elem_of_here.
  - reflexivity.
  - exists r'. split; assumption.
Defined.
