(* ===== verification/Resolver.v ===== *)
(** * Choosing and trying Bodies

    Models [src/Core/BodyResolver]: [Resolve], which filters candidate Bodies
    and orders the eligible ones, and the coordinator, which tries them in that
    order through the guard of [Body].

    The resolver reads four methods of a Body, which are a record here.  A
    rejection's detail keeps the parts of the message instead of its rendering.
    [sort.Slice] is a comparison sort; the comparison is a strict total order on
    the candidates, whose ids are distinct, so the sorted list is unique and a
    merge sort gives it. *)
From stdpp Require Import pretty.
From S2P Require Import Prelude Body.
From stdpp Require Import options.

(** ** Requirements, constraints and candidates *)

Record ActionRequirement := {
  rq_Capability : string;
  rq_Operation : string;
  rq_RequiredResources : gmap string string;
  rq_RequiredData : gmap string string;
  rq_RequiredCapabilityConstraints : gmap string string;
}.

Record TaskConstraints := {
  tc_AllowedBodyIDs : list string;
  tc_ExcludedBodyIDs : list string;
  tc_AllowedKinds : list string;
  tc_RequiredAttributes : gmap string string;
}.

Record OwnerPolicy := {
  op_AllowedBodyIDs : list string;
  op_DeniedBodyIDs : gmap string string;
}.

(** What the resolver asks of a Body. *)
Record BodyView := {
  bv_ID : string;
  bv_Kind : string;
  bv_ResolveCapability : string -> string -> option body_error;
  bv_Describe : list Capability;
}.

Record Candidate := {
  cd_Body : option BodyView;
  cd_Resources : gmap string string;
  cd_Data : gmap string string;
  cd_Attributes : gmap string string;
  cd_Unavailable : bool;
  cd_Preference : Z;
}.

Inductive RejectionCode :=
| RejectedUnsupportedCapability | RejectedUnsupportedOperation | RejectedUnavailable
| RejectedCapabilityConstraint | RejectedMissingResource | RejectedMissingData
| RejectedTaskConstraint | RejectedOwnerPolicy.

Inductive detail := Text (s : string) | RequiredUnavailable (label key value : string).

Record Rejection := { rj_Code : RejectionCode; rj_Detail : detail }.

Record ExecutionCandidate := {
  ec_Body : BodyView;
  ec_Capability : Capability;
  ec_Preference : Z;
}.

Record RejectedCandidate := { rc_Body : string; rc_Reasons : list Rejection }.

Record Result := {
  rs_Requirement : ActionRequirement;
  rs_Eligible : list ExecutionCandidate;
  rs_Rejected : list RejectedCandidate;
}.

Inductive resolve_error := ErrInvalidRequest | DuplicateCandidate (id : string) | ErrNoEligibleCandidates.

(** ** Filtering *)

Definition contains (l : list string) (x : string) : bool := bool_decide (x ∈ l).

Definition matchValues (code : RejectionCode) (label : string) (required available : gmap string string)
    : list Rejection :=
  omap (fun key =>
    let want := default "" (required !! key) in
    if bool_decide (available !! key = Some want) then None
    else Some {| rj_Code := code; rj_Detail := RequiredUnavailable label key want |})
    (merge_sort str_le (map_to_list required).*1).

Definition no_capability : Capability :=
  {| cap_ID := ""; cap_Operations := []; cap_Available := false; cap_Constraints := None; cap_Metadata := None |}.

Definition reject (code : RejectionCode) (text : string) : Rejection :=
  {| rj_Code := code; rj_Detail := Text text |}.

Definition evaluateCapability (b : BodyView) (r : ActionRequirement) : Capability * list Rejection :=
  match bv_ResolveCapability b (rq_Capability r) (rq_Operation r) with
  | Some e =>
      (no_capability,
       [match e with
        | ErrUnsupportedCapability => reject RejectedUnsupportedCapability (body_error_text e)
        | ErrUnsupportedOperation => reject RejectedUnsupportedOperation (body_error_text e)
        | ErrCapabilityUnavailable => reject RejectedUnavailable (body_error_text e)
        | OtherBodyError _ => reject RejectedUnavailable "capability resolution failed"
        end])
  | None =>
      match List.find (fun c => same_str (cap_ID c) (rq_Capability r)) (bv_Describe b) with
      | Some c => (c, matchValues RejectedCapabilityConstraint "capability constraint"
                        (rq_RequiredCapabilityConstraints r) (default ∅ (cap_Constraints c)))
      | None => (no_capability, [reject RejectedUnsupportedCapability "resolved capability is not described"])
      end
  end.

(** Everything that speaks against a candidate, in the source's order. *)
Definition reasons_for (r : ActionRequirement) (tc : TaskConstraints) (policy : OwnerPolicy)
    (cd : Candidate) (b : BodyView) : list Rejection :=
  (evaluateCapability b r).2 ++
  (if cd_Unavailable cd then [reject RejectedUnavailable "candidate execution path is unavailable"] else []) ++
  matchValues RejectedMissingResource "resource" (rq_RequiredResources r) (cd_Resources cd) ++
  matchValues RejectedMissingData "data" (rq_RequiredData r) (cd_Data cd) ++
  (if negb (bool_decide (tc_AllowedBodyIDs tc = [])) && negb (contains (tc_AllowedBodyIDs tc) (bv_ID b))
   then [reject RejectedTaskConstraint "Body is not in the task allowlist"] else []) ++
  (if contains (tc_ExcludedBodyIDs tc) (bv_ID b)
   then [reject RejectedTaskConstraint "Body is excluded by task constraints"] else []) ++
  (if negb (bool_decide (tc_AllowedKinds tc = [])) && negb (contains (tc_AllowedKinds tc) (bv_Kind b))
   then [reject RejectedTaskConstraint "Body kind is not allowed"] else []) ++
  matchValues RejectedTaskConstraint "attribute" (tc_RequiredAttributes tc) (cd_Attributes cd) ++
  (if negb (bool_decide (op_AllowedBodyIDs policy = [])) && negb (contains (op_AllowedBodyIDs policy) (bv_ID b))
   then [reject RejectedOwnerPolicy "Body is not allowed by owner policy"] else []) ++
  match op_DeniedBodyIDs policy !! bv_ID b with
  | Some text => [reject RejectedOwnerPolicy (if blank text then "Body is denied by owner policy" else text)]
  | None => []
  end.

(** The loop over the candidates; the lists grow at their ends. *)
Fixpoint classify (r : ActionRequirement) (tc : TaskConstraints) (policy : OwnerPolicy) (seen : gset string)
    (cds : list Candidate) (eligible : list ExecutionCandidate) (rejected : list RejectedCandidate)
    : res resolve_error (list ExecutionCandidate * list RejectedCandidate) :=
  match cds with
  | [] => Ok (eligible, rejected)
  | cd :: rest =>
      match cd_Body cd with
      | None => Err ErrInvalidRequest
      | Some b =>
          refuse empty_str (bv_ID b) with ErrInvalidRequest;
          refuse bool_decide (bv_ID b ∈ seen) with DuplicateCandidate (bv_ID b);
          let reasons := reasons_for r tc policy cd b in
          if bool_decide (length reasons = 0%nat)
          then classify r tc policy ({[ bv_ID b ]} ∪ seen) rest
                 (eligible ++ [{| ec_Body := b; ec_Capability := (evaluateCapability b r).1;
                                  ec_Preference := cd_Preference cd |}]) rejected
          else classify r tc policy ({[ bv_ID b ]} ∪ seen) rest eligible
                 (rejected ++ [{| rc_Body := bv_ID b; rc_Reasons := reasons |}])
      end
  end.

(** ** Ordering *)

Definition eligible_before (a b : ExecutionCandidate) : Prop :=
  if ec_Preference a =? ec_Preference b then str_le (bv_ID (ec_Body a)) (bv_ID (ec_Body b))
  else ec_Preference b < ec_Preference a.

#[global] Instance eligible_before_dec : RelDecision eligible_before.
Proof. intros a b. unfold eligible_before. destruct (_ =? _); apply _. Defined.

Definition rejected_before (a b : RejectedCandidate) : Prop := str_le (rc_Body a) (rc_Body b).

#[global] Instance rejected_before_dec : RelDecision rejected_before.
Proof. intros a b. unfold rejected_before. apply _. Defined.

(** The result comes with the error when nothing is eligible. *)
Definition Resolve (r : ActionRequirement) (tc : TaskConstraints) (policy : OwnerPolicy) (cds : list Candidate)
    : option Result * option resolve_error :=
  if blank (rq_Capability r) || blank (rq_Operation r) then (None, Some ErrInvalidRequest) else
  match classify r tc policy ∅ cds [] [] with
  | Err e => (None, Some e)
  | Ok (eligible, rejected) =>
      let result := {| rs_Requirement := r; rs_Eligible := merge_sort eligible_before eligible;
                       rs_Rejected := merge_sort rejected_before rejected |} in
      (Some result, if bool_decide (length eligible = 0%nat) then Some ErrNoEligibleCandidates else None)
  end.

(** ** The coordinator *)

Definition AuthorityScopeBody := "body".
Definition AuthorityScopeGlobal := "global".

Inductive coordinator_error :=
| InvalidExecution | ErrNoExecutionCandidates | ErrCandidatesExhausted | ErrGlobalProhibition
| ErrTerminalExecution | ContextDone.

#[global] Instance coordinator_error_eq_dec : EqDecision coordinator_error.
Proof. solve_decision. Defined.

Record Attempt := { at_BodyID : string; at_ExecutionID : string; at_Result : ExecutionResult }.

(** How the loop goes on after a result: [None] tries the next candidate. *)
Definition verdict (r : ExecutionResult) : option (option coordinator_error) :=
  if same_str (xs_Status r) CoreStatusSuccess then Some None
  else if same_str (xs_Status r) CoreStatusDenied then
    if same_str (xs_DenialScope r) AuthorityScopeGlobal then Some (Some ErrGlobalProhibition)
    else if empty_str (xs_DenialScope r) || same_str (xs_DenialScope r) AuthorityScopeBody then None
    else Some (Some ErrTerminalExecution)
  else if same_str (xs_Status r) CoreStatusUnavailable || same_str (xs_Status r) CoreStatusFailed then None
  else Some (Some ErrTerminalExecution).

Section coordinator.
Context {Any Ctx World : Type} (g : Guard Any Ctx World).
(** [ctx.Err() != nil], which may become true at any time. *)
Context (done : Ctx -> World -> bool).

Record CoordinatorRequest := {
  cq_ExecutionID : string;
  cq_Doll : string;
  cq_Arguments : option (gmap string Any);
}.

Definition attempt_id (id : string) (index : nat) : string := id +:+ "/attempt/" +:+ pretty (S index).

Definition attempt_request (r : ActionRequirement) (q : CoordinatorRequest) (index : nat)
    (c : ExecutionCandidate) : ExecutionRequest Any :=
  {| xr_ExecutionID := attempt_id (cq_ExecutionID q) index; xr_Doll := cq_Doll q;
     xr_Body := bv_ID (ec_Body c); xr_Capability := rq_Capability r; xr_Operation := rq_Operation r;
     xr_Arguments := cq_Arguments q |}.

Fixpoint attempts (r : ActionRequirement) (q : CoordinatorRequest) (ctx : Ctx) (index : nat)
    (cs : list ExecutionCandidate) (history : list Attempt) (w : World)
    : (list Attempt * option coordinator_error) * World :=
  match cs with
  | [] => ((history, Some ErrCandidatesExhausted), w)
  | c :: rest =>
      if done ctx w then ((history, Some ContextDone), w) else
      let req := attempt_request r q index c in
      let '(result, w') := ExecuteContext g ctx req w in
      let history := history ++ [{| at_BodyID := bv_ID (ec_Body c); at_ExecutionID := xr_ExecutionID req;
                                    at_Result := result |}] in
      if done ctx w' then ((history, Some ContextDone), w') else
      match verdict result with
      | None => attempts r q ctx (S index) rest history w'
      | Some e => ((history, e), w')
      end
  end.

(** The outcome's result is the last attempt's. *)
Definition Execute (ctx : Ctx) (resolved : Result) (q : CoordinatorRequest) (w : World)
    : (list Attempt * option coordinator_error) * World :=
  if empty_str (cq_ExecutionID q) || empty_str (cq_Doll q) || empty_str (rq_Capability (rs_Requirement resolved)) ||
     empty_str (rq_Operation (rs_Requirement resolved)) then (([], Some InvalidExecution), w) else
  if bool_decide (length (rs_Eligible resolved) = 0%nat) then (([], Some ErrNoExecutionCandidates), w) else
  attempts (rs_Requirement resolved) q ctx 0 (rs_Eligible resolved) [] w.
End coordinator.

(** ** Lemmas *)

(** What it takes to be eligible. *)
Record fits (r : ActionRequirement) (tc : TaskConstraints) (policy : OwnerPolicy) (cd : Candidate) (b : BodyView)
    : Prop := {
  ft_resolves : bv_ResolveCapability b (rq_Capability r) (rq_Operation r) = None;
  ft_described : exists c, List.find (fun c => same_str (cap_ID c) (rq_Capability r)) (bv_Describe b) = Some c /\
    rq_RequiredCapabilityConstraints r ⊆ default ∅ (cap_Constraints c);
  ft_available : cd_Unavailable cd = false;
  ft_resources : rq_RequiredResources r ⊆ cd_Resources cd;
  ft_data : rq_RequiredData r ⊆ cd_Data cd;
  ft_attributes : tc_RequiredAttributes tc ⊆ cd_Attributes cd;
  ft_task : tc_AllowedBodyIDs tc = [] \/ bv_ID b ∈ tc_AllowedBodyIDs tc;
  ft_not_excluded : bv_ID b ∉ tc_ExcludedBodyIDs tc;
  ft_kind : tc_AllowedKinds tc = [] \/ bv_Kind b ∈ tc_AllowedKinds tc;
  ft_owner : op_AllowedBodyIDs policy = [] \/ bv_ID b ∈ op_AllowedBodyIDs policy;
  ft_not_denied : op_DeniedBodyIDs policy !! bv_ID b = None;
}.

Lemma matchValues_nil code label (required available : gmap string string) :
  matchValues code label required available = [] <-> required ⊆ available.
Proof.
  unfold matchValues. rewrite map_subseteq_spec. split.
  - intros Hm k v Hk. destruct (decide (available !! k = Some v)) as [|Hne]; [done|exfalso].
    assert (Hin : {| rj_Code := code; rj_Detail := RequiredUnavailable label k v |} ∈ ([] : list Rejection));
      [|by apply elem_of_nil in Hin].
    rewrite <- Hm. apply list_elem_of_omap. exists k. split.
    + rewrite merge_sort_Permutation. apply list_elem_of_fmap. exists (k, v). split; [done|].
      by apply elem_of_map_to_list.
    + rewrite Hk. simpl. by rewrite bool_decide_eq_false_2.
  - intros Hs. destruct (omap _ _) as [|x l] eqn:E; [done|exfalso].
    assert (Hin : x ∈ x :: l) by apply list_elem_of_here. rewrite <- E in Hin.
    apply list_elem_of_omap in Hin as (k & Hk & Hx). rewrite merge_sort_Permutation in Hk.
    apply list_elem_of_fmap in Hk as ([k' v] & -> & Hk). apply elem_of_map_to_list in Hk. simpl in *.
    rewrite Hk in Hx. simpl in Hx. by rewrite bool_decide_eq_true_2 in Hx by auto.
Qed.

Lemma if_nil {A} (c : bool) (x : A) : (if c then [x] else []) = [] <-> c = false.
Proof. by destruct c. Qed.

Lemma not_listed (l : list string) x :
  negb (bool_decide (l = [])) && negb (contains l x) = false <-> l = [] \/ x ∈ l.
Proof.
  unfold contains. rewrite andb_false_iff, !negb_false_iff, !bool_decide_eq_true. done.
Qed.

Lemma reasons_nil r tc policy cd b : reasons_for r tc policy cd b = [] <-> fits r tc policy cd b.
Proof.
  unfold reasons_for. rewrite !app_nil, !if_nil, !matchValues_nil, !not_listed.
  assert (Hcap : (evaluateCapability b r).2 = [] <->
    bv_ResolveCapability b (rq_Capability r) (rq_Operation r) = None /\
    exists c, List.find (fun c => same_str (cap_ID c) (rq_Capability r)) (bv_Describe b) = Some c /\
      rq_RequiredCapabilityConstraints r ⊆ default ∅ (cap_Constraints c)).
  { unfold evaluateCapability. destruct (bv_ResolveCapability _ _ _); [split; [done|naive_solver]|].
    destruct (List.find _ _) as [c|]; simpl; [rewrite matchValues_nil|]; naive_solver. }
  rewrite Hcap. unfold contains at 1. rewrite bool_decide_eq_false.
  assert (Hden : match op_DeniedBodyIDs policy !! bv_ID b with
    | Some text => [reject RejectedOwnerPolicy (if blank text then "Body is denied by owner policy" else text)]
    | None => [] end = [] <-> op_DeniedBodyIDs policy !! bv_ID b = None) by (by destruct (op_DeniedBodyIDs _ !! _)).
  rewrite Hden. split.
  - intros ([? ?] & ? & ? & ? & ? & ? & ? & ? & ? & ?). by split.
  - intros []. by split_and!.
Qed.

Definition eligible_of (r : ActionRequirement) (tc : TaskConstraints) (policy : OwnerPolicy) (cd : Candidate)
    : option ExecutionCandidate :=
  b ← cd_Body cd;
  if bool_decide (length (reasons_for r tc policy cd b) = 0%nat)
  then Some {| ec_Body := b; ec_Capability := (evaluateCapability b r).1; ec_Preference := cd_Preference cd |}
  else None.

Definition rejected_of (r : ActionRequirement) (tc : TaskConstraints) (policy : OwnerPolicy) (cd : Candidate)
    : option RejectedCandidate :=
  b ← cd_Body cd;
  if bool_decide (length (reasons_for r tc policy cd b) = 0%nat) then None
  else Some {| rc_Body := bv_ID b; rc_Reasons := reasons_for r tc policy cd b |}.

Definition candidate_id (cd : Candidate) : string :=
  match cd_Body cd with Some b => bv_ID b | None => "" end.

Lemma classify_iff r tc policy seen cds el rj E R :
  classify r tc policy seen cds el rj = Ok (E, R) <->
  Forall (fun cd => candidate_id cd <> "") cds /\ NoDup (candidate_id <$> cds) /\
  (forall cd, cd ∈ cds -> candidate_id cd ∉ seen) /\
  E = el ++ omap (eligible_of r tc policy) cds /\ R = rj ++ omap (rejected_of r tc policy) cds.
Proof.
  revert seen el rj. induction cds as [|cd cds IH]; intros seen el rj.
  { simpl. rewrite !app_nil_r. split; [intros [= <- <-]|by intros (_ & _ & _ & -> & ->)].
    split_and!; [constructor|constructor|set_solver|done|done]. }
  cbn [classify]. rewrite fmap_cons, NoDup_cons, Forall_cons.
  assert (Hid : cd_Body cd = None \/ exists b, cd_Body cd = Some b /\ candidate_id cd = bv_ID b)
    by (unfold candidate_id; destruct (cd_Body cd); eauto).
  destruct Hid as [Hn|(b & Hb & Hid)].
  { rewrite Hn. split; [done|]. intros ([Hne _] & _). unfold candidate_id in Hne. by rewrite Hn in Hne. }
  rewrite Hb, Hid. destruct (empty_str (bv_ID b)) eqn:Ee.
  { apply empty_str_true in Ee. split; [done|]. intros ([? _] & _). done. }
  apply empty_str_false in Ee. case_bool_decide as Hseen.
  { split; [done|]. intros (_ & _ & Hfresh & _). destruct (Hfresh cd); [set_solver|]. by rewrite Hid. }
  assert (Hstep : forall el' rj', classify r tc policy ({[ bv_ID b ]} ∪ seen) cds el' rj' = Ok (E, R) <->
    (bv_ID b <> "" /\ Forall (fun cd => candidate_id cd <> "") cds) /\
    (bv_ID b ∉ candidate_id <$> cds /\ NoDup (candidate_id <$> cds)) /\
    (forall cd', cd' ∈ cd :: cds -> candidate_id cd' ∉ seen) /\
    E = el' ++ omap (eligible_of r tc policy) cds /\ R = rj' ++ omap (rejected_of r tc policy) cds).
  { intros el' rj'. rewrite IH. split.
    - intros (H1 & H2 & H3 & -> & ->). split_and!; try done.
      + intros (cd' & He & Hin)%list_elem_of_fmap. specialize (H3 _ Hin). set_solver.
      + intros cd' [->|Hin]%elem_of_cons; [by rewrite Hid|]. specialize (H3 _ Hin). set_solver.
    - intros ([_ H1] & [H2 H3] & H4 & -> & ->). split_and!; try done. intros cd' Hin.
      rewrite elem_of_union, elem_of_singleton. intros [He|He].
      + apply H2. rewrite <- He. by apply list_elem_of_fmap_2.
      + by apply (H4 cd'); [set_solver|]. }
  simpl. unfold eligible_of at 1, rejected_of at 1. rewrite Hb. simpl.
  case_bool_decide; rewrite Hstep; simpl; by rewrite <- ?app_assoc.
Qed.

#[global] Instance eligible_before_total : Total eligible_before.
Proof.
  intros a b. unfold eligible_before. rewrite (Z.eqb_sym (ec_Preference b)).
  destruct (ec_Preference a =? ec_Preference b) eqn:E; [apply (total str_le)|]. bool_props. lia.
Qed.

#[global] Instance eligible_before_trans : Transitive eligible_before.
Proof.
  intros a b c. unfold eligible_before.
  destruct (ec_Preference a =? ec_Preference b) eqn:E1, (ec_Preference b =? ec_Preference c) eqn:E2; bool_props;
    destruct (ec_Preference a =? ec_Preference c) eqn:E3; bool_props; intros H1 H2; try lia.
  by etrans.
Qed.

#[global] Instance rejected_before_total : Total rejected_before.
Proof. intros a b. apply (total str_le). Qed.
#[global] Instance rejected_before_trans : Transitive rejected_before.
Proof. intros a b c. unfold rejected_before. apply str_le_trans. Qed.

Lemma eligible_of_inv r tc policy cd ec :
  eligible_of r tc policy cd = Some ec <->
  exists b, cd_Body cd = Some b /\ fits r tc policy cd b /\
    ec = {| ec_Body := b; ec_Capability := (evaluateCapability b r).1; ec_Preference := cd_Preference cd |}.
Proof.
  unfold eligible_of. destruct (cd_Body cd) as [b|]; simpl; [|naive_solver].
  pose proof (reasons_nil r tc policy cd b) as Hr. destruct (reasons_for r tc policy cd b); simpl.
  - naive_solver.
  - naive_solver.
Qed.

Lemma rejected_of_inv r tc policy cd rc :
  rejected_of r tc policy cd = Some rc <->
  exists b, cd_Body cd = Some b /\ ~ fits r tc policy cd b /\
    rc = {| rc_Body := bv_ID b; rc_Reasons := reasons_for r tc policy cd b |}.
Proof.
  unfold rejected_of. destruct (cd_Body cd) as [b|]; simpl; [|naive_solver].
  pose proof (reasons_nil r tc policy cd b) as Hr. destruct (reasons_for r tc policy cd b) eqn:E; simpl.
  - split; [done|]. intros (b' & [= <-] & Hn & _). destruct Hn. by apply Hr.
  - split; [|by intros (b' & [= <-] & _ & ->); rewrite E]. intros [= <-]. exists b. rewrite E. split_and!; [done| |done].
    by intros ?%Hr.
Qed.

(** Distinct candidates make distinct entries. *)
Lemma candidates_same_id (cds : list Candidate) cd cd' :
  NoDup (candidate_id <$> cds) -> cd ∈ cds -> cd' ∈ cds -> candidate_id cd = candidate_id cd' -> cd = cd'.
Proof.
  induction cds as [|c cds IH]; [set_solver|]. rewrite fmap_cons, NoDup_cons. intros [Hn Hnd] Hi Hi' He.
  apply elem_of_cons in Hi as [->|Hi], Hi' as [->|Hi']; [done| | |by apply IH].
  - destruct Hn. rewrite He. by apply list_elem_of_fmap_2.
  - destruct Hn. rewrite <- He. by apply list_elem_of_fmap_2.
Qed.

Lemma Resolve_inv r tc policy cds result e :
  Resolve r tc policy cds = (Some result, e) <->
  blank (rq_Capability r) = false /\ blank (rq_Operation r) = false /\
  Forall (fun cd => candidate_id cd <> "") cds /\ NoDup (candidate_id <$> cds) /\
  result = {| rs_Requirement := r;
              rs_Eligible := merge_sort eligible_before (omap (eligible_of r tc policy) cds);
              rs_Rejected := merge_sort rejected_before (omap (rejected_of r tc policy) cds) |} /\
  e = (if bool_decide (length (omap (eligible_of r tc policy) cds) = 0%nat) then Some ErrNoEligibleCandidates else None).
Proof.
  unfold Resolve. split.
  - destruct (_ || _) eqn:Eb; [done|]. apply orb_false_iff in Eb as [? ?].
    destruct (classify _ _ _ _ _ _ _) as [[E R]|] eqn:Ec; [|done].
    apply classify_iff in Ec as (? & ? & _ & -> & ->). intros [= <- <-]. by split_and!.
  - intros (-> & -> & H1 & H2 & -> & ->). simpl.
    destruct (classify r tc policy ∅ cds [] []) as [[E R]|er] eqn:Ec.
    + apply classify_iff in Ec as (_ & _ & _ & -> & ->). done.
    + assert (classify r tc policy ∅ cds [] [] = Ok (omap (eligible_of r tc policy) cds, omap (rejected_of r tc policy) cds))
        as Hok by (apply classify_iff; split_and!; [done|done|set_solver|done|done]). congruence.
Qed.

(** ** Properties *)

(** C31: resolution selects exactly the candidates that fit and does not depend on
    the order they are presented in.  When it answers, a Body is eligible if and
    only if it satisfies every requirement, task constraint and owner policy,
    and is otherwise rejected with the reasons; the eligible ones are sorted by
    preference, then id; the error says precisely whether there are none; and
    every permutation of the candidates gives the same answer. *)
Theorem resolution_exact r tc policy cds result e :
  Resolve r tc policy cds = (Some result, e) ->
  (forall ec, ec ∈ rs_Eligible result <-> exists cd b, cd ∈ cds /\ cd_Body cd = Some b /\ fits r tc policy cd b /\
     ec = {| ec_Body := b; ec_Capability := (evaluateCapability b r).1; ec_Preference := cd_Preference cd |}) /\
  (forall rc, rc ∈ rs_Rejected result <-> exists cd b, cd ∈ cds /\ cd_Body cd = Some b /\ ~ fits r tc policy cd b /\
     rc = {| rc_Body := bv_ID b; rc_Reasons := reasons_for r tc policy cd b |}) /\
  StronglySorted eligible_before (rs_Eligible result) /\
  (e = None <-> rs_Eligible result <> []) /\
  (forall cds', cds' ≡ₚ cds -> Resolve r tc policy cds' = (Some result, e)).
Proof.
  intros (Hb1 & Hb2 & Hne & Hnd & -> & ->)%Resolve_inv. simpl. split_and!.
  - intros ec. rewrite merge_sort_Permutation, list_elem_of_omap. setoid_rewrite eligible_of_inv. naive_solver.
  - intros rc. rewrite merge_sort_Permutation, list_elem_of_omap. setoid_rewrite rejected_of_inv. naive_solver.
  - apply StronglySorted_merge_sort; apply _.
  - pose proof (merge_sort_Permutation eligible_before (omap (eligible_of r tc policy) cds)) as Hp.
    apply Permutation_length in Hp. destruct (merge_sort _ _), (omap _ _); simpl in *; try lia; by split.
  - intros cds' Hp. apply Resolve_inv. split_and!; try done; try by rewrite Hp.
    + assert (Hsame : forall A (f : Candidate -> option A) (g : A -> string) (R : relation A) `{!RelDecision R}
        `{!Transitive R} `{!Total R},
        (forall cd x, f cd = Some x -> g x = candidate_id cd) -> (forall x y, R x y -> R y x -> g x = g y) ->
        merge_sort R (omap f cds) = merge_sort R (omap f cds')).
      { intros A f g R ? ? ? Hg Hanti. apply (StronglySorted_unique_strong R).
        - intros x y Hx Hy H1 H2. rewrite merge_sort_Permutation, list_elem_of_omap in Hx, Hy.
          destruct Hx as (cd & Hcd & Hfx), Hy as (cd' & Hcd' & Hfy). rewrite Hp in Hcd'.
          assert (cd = cd') as -> by (apply (candidates_same_id cds); [done..|];
            rewrite <- (Hg _ _ Hfx), <- (Hg _ _ Hfy); by apply Hanti). congruence.
        - apply StronglySorted_merge_sort; apply _.
        - apply StronglySorted_merge_sort; apply _.
        - by rewrite !merge_sort_Permutation, Hp. }
      f_equal.
      * apply (Hsame _ _ (fun ec => bv_ID (ec_Body ec))); [apply _..| |].
        -- intros cd x (b & Hb & _ & ->)%eligible_of_inv. unfold candidate_id. by rewrite Hb.
        -- intros x y. unfold eligible_before. rewrite (Z.eqb_sym (ec_Preference y)).
           destruct (_ =? _); [|lia]. apply (anti_symm str_le).
      * apply (Hsame _ _ rc_Body); [apply _..| |].
        -- intros cd x (b & Hb & _ & ->)%rejected_of_inv. unfold candidate_id. by rewrite Hb.
        -- intros x y. apply (anti_symm str_le).
    + assert (Hl : length (omap (eligible_of r tc policy) cds') = length (omap (eligible_of r tc policy) cds))
        by (apply Permutation_length; by rewrite Hp). by rewrite Hl.
Qed.

Section coordinator_properties.
Context {Any Ctx World : Type} (g : Guard Any Ctx World) (done : Ctx -> World -> bool).

(** A history that agrees with the guard: each attempt, in the given world, is
    the guard's answer to the request for the next candidate. *)
Inductive guarded (r : ActionRequirement) (q : CoordinatorRequest) (ctx : Ctx)
    : nat -> list ExecutionCandidate -> World -> list Attempt -> World -> Prop :=
| guarded_nil index cs w : guarded r q ctx index cs w [] w
| guarded_cons index c cs w result w1 hist w2 :
    ExecuteContext g ctx (attempt_request r q index c) w = (result, w1) ->
    guarded r q ctx (S index) cs w1 hist w2 ->
    guarded r q ctx index (c :: cs) w
      ({| at_BodyID := bv_ID (ec_Body c); at_ExecutionID := attempt_id (cq_ExecutionID q) index;
          at_Result := result |} :: hist) w2.

(** How a history may end, given what is left to try. *)
Definition ends (cs : list ExecutionCandidate) (hist : list Attempt) (e : option coordinator_error) : Prop :=
  match e with
  | None => exists a, last hist = Some a /\ xs_Status (at_Result a) = CoreStatusSuccess
  | Some ErrGlobalProhibition =>
      exists a, last hist = Some a /\ xs_Status (at_Result a) = CoreStatusDenied /\
        xs_DenialScope (at_Result a) = AuthorityScopeGlobal
  | Some ErrTerminalExecution => exists a, last hist = Some a /\ verdict (at_Result a) = Some (Some ErrTerminalExecution)
  | Some ErrCandidatesExhausted => length hist = length cs /\ Forall (fun a => verdict (at_Result a) = None) hist
  | Some ContextDone => True
  | Some _ => False
  end.

Lemma verdict_not_exhausted r : verdict r <> Some (Some ErrCandidatesExhausted).
Proof. unfold verdict. by repeat case_match. Qed.

Lemma verdict_ends cs a hist e : verdict (at_Result a) = Some e -> ends cs (hist ++ [a]) e.
Proof.
  intros Hv. pose proof Hv as Hv0. unfold verdict in Hv.
  assert (Hl : last (hist ++ [a]) = Some a) by apply last_snoc.
  destruct (same_str (xs_Status _) CoreStatusSuccess) eqn:E1.
  { injection Hv as <-. exists a. by apply same_str_true in E1. }
  destruct (same_str (xs_Status _) CoreStatusDenied) eqn:E2.
  { destruct (same_str (xs_DenialScope _) AuthorityScopeGlobal) eqn:E3.
    - injection Hv as <-. exists a. by apply same_str_true in E2, E3.
    - destruct (_ || _); [done|]. injection Hv as <-. by exists a. }
  destruct (_ || _); [done|]. injection Hv as <-. by exists a.
Qed.

Lemma attempts_spec r q ctx index cs hist w out e w' :
  Forall (fun a => verdict (at_Result a) = None) hist ->
  attempts g done r q ctx index cs hist w = ((out, e), w') ->
  exists more, out = hist ++ more /\ guarded r q ctx index cs w more w' /\
    (forall i a, more !! i = Some a -> (S i < length more)%nat -> verdict (at_Result a) = None) /\
    (e = Some ErrCandidatesExhausted -> length more = length cs /\ Forall (fun a => verdict (at_Result a) = None) more) /\
    (e <> Some ErrCandidatesExhausted -> ends cs out e).
Proof.
  revert index hist w. induction cs as [|c cs IH]; intros index hist w Hhist; simpl.
  { intros [= <- <- <-]. exists []. rewrite app_nil_r. split_and!; try done. constructor. }
  destruct (done ctx w).
  { intros [= <- <- <-]. exists []. rewrite app_nil_r. split_and!; try done. constructor. }
  destruct (ExecuteContext g ctx _ w) as [result w1] eqn:Ex.
  set (a := {| at_BodyID := bv_ID (ec_Body c); at_ExecutionID := attempt_id (cq_ExecutionID q) index;
               at_Result := result |}).
  assert (Hone : guarded r q ctx index (c :: cs) w [a] w1) by (econstructor; [exact Ex|constructor]).
  assert (Hlt : forall i (b : Attempt), [a] !! i = Some b -> (S i < length [a])%nat -> verdict (at_Result b) = None)
    by (intros i b _ Hi; simpl in Hi; lia).
  destruct (done ctx w1).
  { intros [= <- <- <-]. exists [a]. split_and!; [done|exact Hone|exact Hlt|discriminate|done]. }
  destruct (verdict result) as [e0|] eqn:Ev.
  { intros [= <- <- <-]. exists [a]. pose proof (verdict_ends (c :: cs) a hist e0 Ev) as He.
    split_and!; try done. intros ->. by apply verdict_not_exhausted in Ev. }
  intros Hrun. destruct (IH (S index) (hist ++ [a]) w1) as (more & -> & Hg & Hm & Hx & He); [|exact Hrun|].
  { apply Forall_app. split; [done|]. by constructor. }
  exists (a :: more). rewrite <- app_assoc in *. split_and!; [done|econstructor; [exact Ex|exact Hg]| | |].
  - intros [|i] b; simpl; [by intros [= <-] _|]. intros Hi Hl. apply (Hm i b); [done|lia].
  - intros Hex. destruct (Hx Hex) as [Hl Hall]. split; [simpl; lia|by constructor].
  - intros Hne. specialize (He Hne). by destruct e as [[]|].
Qed.

(** The coordinator tries the eligible Bodies in order, each through the
    guard, and stops at the first decisive answer.  Its history is the guard's
    answers to the requests for the first candidates in turn, under the ids
    "<execution>/attempt/1", "/2", ...; every answer but the last one allows
    another try (a Body-scoped denial, an unavailable Body, a failure); it
    reports success exactly when the last answer is a success, a global
    prohibition when it is a denial of global scope, and exhaustion only after
    every candidate has been tried and failed. *)
Theorem coordinator_first_decisive ctx resolved q w :
  cq_ExecutionID q <> "" -> cq_Doll q <> "" -> rq_Capability (rs_Requirement resolved) <> "" ->
  rq_Operation (rs_Requirement resolved) <> "" -> rs_Eligible resolved <> [] ->
  let '((hist, e), w') := Execute g done ctx resolved q w in
  guarded (rs_Requirement resolved) q ctx 0 (rs_Eligible resolved) w hist w' /\
  (forall i a, hist !! i = Some a -> (S i < length hist)%nat -> verdict (at_Result a) = None) /\
  ends (rs_Eligible resolved) hist e.
Proof.
  intros H1 H2 H3 H4 H5. destruct (Execute g done ctx resolved q w) as [[hist e] w'] eqn:E. unfold Execute in E.
  apply empty_str_false in H1, H2, H3, H4. rewrite H1, H2, H3, H4 in E. simpl in E.
  rewrite bool_decide_eq_false_2 in E by (by destruct (rs_Eligible resolved)).
  apply attempts_spec in E as (more & -> & Hg & Hm & Hx & He); [|constructor]. simpl in *. split_and!; try done.
  destruct (decide (e = Some ErrCandidatesExhausted)) as [->|Hne]; [by apply Hx|by apply He].
Qed.

(** Attempts are told apart by their ids. *)
Lemma attempt_id_inj id i j : attempt_id id i = attempt_id id j -> i = j.
Proof.
  unfold attempt_id. intros H%(inj (String.app id)). apply (inj (String.app "/attempt/")) in H.
  by apply (inj pretty) in H; injection H.
Qed.
End coordinator_properties.

(** ** Two concrete Bodies: the preferred one is unavailable when it is tried. *)

Definition demo_view (id : string) : BodyView :=
  {| bv_ID := id; bv_Kind := "local"; bv_ResolveCapability := CapabilityRegistry_Resolve (lb_caps NewLocal);
     bv_Describe := [runtime_info] |}.

Definition demo_candidate (id : string) (preference : Z) : Candidate :=
  {| cd_Body := Some (demo_view id); cd_Resources := ∅; cd_Data := ∅; cd_Attributes := ∅;
     cd_Unavailable := false; cd_Preference := preference |}.

Definition demo_requirement : ActionRequirement :=
  {| rq_Capability := "runtime.info"; rq_Operation := "read"; rq_RequiredResources := ∅; rq_RequiredData := ∅;
     rq_RequiredCapabilityConstraints := ∅ |}.

Definition no_constraints : TaskConstraints :=
  {| tc_AllowedBodyIDs := []; tc_ExcludedBodyIDs := ["c"]; tc_AllowedKinds := []; tc_RequiredAttributes := ∅ |}.

Definition no_policy : OwnerPolicy := {| op_AllowedBodyIDs := []; op_DeniedBodyIDs := ∅ |}.

Definition demo_result : Result :=
  match (Resolve demo_requirement no_constraints no_policy
           [demo_candidate "a" 1; demo_candidate "c" 9; demo_candidate "b" 5]).1 with
  | Some res => res
  | None => {| rs_Requirement := demo_requirement; rs_Eligible := []; rs_Rejected := [] |}
  end.

Definition eligible_ids (res : Result) : list string := (fun ec => bv_ID (ec_Body ec)) <$> rs_Eligible res.

Lemma resolution_exact_witness :
  Resolve demo_requirement no_constraints no_policy
    [demo_candidate "c" 9; demo_candidate "a" 1; demo_candidate "b" 5] = (Some demo_result, None) /\
  eligible_ids demo_result = ["b"; "a"].
Proof.
  assert (Hr : Resolve demo_requirement no_constraints no_policy
           [demo_candidate "a" 1; demo_candidate "c" 9; demo_candidate "b" 5] = (Some demo_result, None))
    by (vm_compute; reflexivity).
  split; [|vm_compute; reflexivity].
  apply (resolution_exact _ _ _ _ _ _ Hr). apply Permutation_swap.
Defined.

(** Body "b" is registered but cannot run the operation; Body "a" can. *)
Definition demo_guard : Guard string unit unit :=
  {| g_registry := <["a" := LocalBody_as_Body NewLocal "{}" "[]"]>
       (<["b" := {| Body_ResolveCapability := fun _ _ _ => Some ErrCapabilityUnavailable;
                    Body_Execute := fun _ _ w => ((None, None), w) |}]> ∅);
     g_evaluator := fun _ w => ({| Decision := AuthorityAllow; Reason := ""; Message := ""; Scope := "" |}, w) |}.

Definition demo_request : CoordinatorRequest :=
  {| cq_ExecutionID := "x"; cq_Doll := "doll"; cq_Arguments := None (A := gmap string string) |}.

Lemma coordinator_first_decisive_witness :
  let '((hist, e), _) := Execute demo_guard (fun _ _ => false) tt demo_result demo_request tt in
  e = None /\ at_ExecutionID <$> hist = ["x/attempt/1"; "x/attempt/2"] /\
  exists a, last hist = Some a /\ xs_Status (at_Result a) = CoreStatusSuccess.
Proof.
  pose proof (coordinator_first_decisive demo_guard (fun _ _ => false) tt demo_result demo_request tt
    ltac:(discriminate) ltac:(discriminate) ltac:(vm_compute; discriminate) ltac:(vm_compute; discriminate)
    ltac:(vm_compute; discriminate)) as Hc.
  destruct (Execute demo_guard (fun _ _ => false) tt demo_result demo_request tt) as [[hist e] w] eqn:E.
  destruct Hc as (_ & _ & He).
  assert (Hh : e = None /\ at_ExecutionID <$> hist = ["x/attempt/1"; "x/attempt/2"]).
  { vm_compute in E. injection E as <- <- _. split; vm_compute; reflexivity. }
  destruct Hh as [-> Hids]. split; [reflexivity|]. split; [exact Hids|exact He].
Defined.
