(* ===== verification/ActionPolicy.v ===== *)
(** * Owner action policy

    Models [src/Core/ActionPolicy/policy.go]: the Owner's restrictions on an
    action, evaluated before any Body is considered.  Deny outranks required
    approval, which outranks allow, whatever the order of the rules. *)
From S2P Require Import Prelude.
From stdpp Require Import options.

Definition DecisionAllow := "allow".
Definition DecisionDeny := "deny".
Definition DecisionRequireApproval := "require_approval".

Record PolicyRequest {Any : Type} := {
  pq_Doll : string;
  pq_Capability : string;
  pq_Operation : string;
  pq_Arguments : gmap string Any;
}.
Arguments PolicyRequest : clear implicits.

Record PolicyResult := { p_Decision : string; p_Reason : string; p_Message : string }.

Record Rule := {
  r_Doll : string;
  r_Capability : string;
  r_Operation : string;
  r_Decision : string;
  r_Reason : string;
  r_Message : string;
}.

Inductive policy_error := ErrInvalidPolicy (index : nat) | DuplicateRule (index : nat).

Definition rule_key (r : Rule) : string :=
  r_Doll r +:+ NUL +:+ r_Capability r +:+ NUL +:+ r_Operation r.

Definition valid_decision (d : string) : bool :=
  same_str d DecisionAllow || same_str d DecisionDeny || same_str d DecisionRequireApproval.

Fixpoint check_rules (index : nat) (seen : gset string) (rules : list Rule)
    : res policy_error unit :=
  match rules with
  | [] => Ok tt
  | r :: rest =>
      refuse blank (r_Capability r) || blank (r_Operation r) || negb (valid_decision (r_Decision r))
        with ErrInvalidPolicy index;
      refuse bool_decide (rule_key r ∈ seen) with DuplicateRule index;
      check_rules (S index) ({[rule_key r]} ∪ seen) rest
  end.

Definition New (rules : list Rule) : res policy_error (list Rule) :=
  try u <- check_rules 0 ∅ rules; Ok rules.

Definition Default : list Rule := [].

Section evaluate.
Context {Any : Type}.

Definition applies (r : Rule) (q : PolicyRequest Any) : bool :=
  same_str (r_Capability r) (pq_Capability q) && same_str (r_Operation r) (pq_Operation q) &&
  (empty_str (r_Doll r) || same_str (r_Doll r) (pq_Doll q)).

Definition rule_result (r : Rule) : PolicyResult :=
  {| p_Decision := r_Decision r; p_Reason := r_Reason r; p_Message := r_Message r |}.

Fixpoint evaluate_from (matched : option PolicyResult) (rules : list Rule) (q : PolicyRequest Any)
    : PolicyResult :=
  match rules with
  | [] => match matched with
          | Some m => m
          | None => {| p_Decision := DecisionAllow; p_Reason := "unrestricted"; p_Message := "" |}
          end
  | r :: rest =>
      if applies r q then
        if same_str (r_Decision r) DecisionDeny then rule_result r
        else evaluate_from
               (match matched with
                | None => Some (rule_result r)
                | Some m => if same_str (r_Decision r) DecisionRequireApproval
                            then Some (rule_result r) else Some m
                end) rest q
      else evaluate_from matched rest q
  end.

Definition Evaluate (rules : list Rule) (q : PolicyRequest Any) : PolicyResult :=
  evaluate_from None rules q.

(** ** Lemmas *)

Definition hit (rules : list Rule) (q : PolicyRequest Any) (d : string) : Prop :=
  exists r, r ∈ rules /\ applies r q = true /\ r_Decision r = d.

Lemma hit_cons r rules q d :
  hit (r :: rules) q d <-> (applies r q = true /\ r_Decision r = d) \/ hit rules q d.
Proof. unfold hit. setoid_rewrite elem_of_cons. naive_solver. Qed.

Lemma hit_nil q d : ~ hit [] q d.
Proof. intros (r & H & _). by apply elem_of_nil in H. Qed.

Lemma evaluate_from_spec matched rules q :
  (forall m, matched = Some m -> p_Decision m = DecisionAllow \/ p_Decision m = DecisionRequireApproval) ->
  Forall (fun r => valid_decision (r_Decision r) = true) rules ->
  let d := p_Decision (evaluate_from matched rules q) in
  (d = DecisionDeny <-> hit rules q DecisionDeny) /\
  (d = DecisionRequireApproval <-> ~ hit rules q DecisionDeny /\
     (hit rules q DecisionRequireApproval \/
      exists m, matched = Some m /\ p_Decision m = DecisionRequireApproval)) /\
  (d = DecisionAllow \/ d = DecisionDeny \/ d = DecisionRequireApproval).
Proof.
  revert matched. induction rules as [|r rules IH]; intros matched Hm Hv; simpl.
  { assert (forall d, hit [] q d <-> False) as Hn by (intros d; split; [apply hit_nil|done]).
    rewrite !Hn. destruct matched as [m|]; [destruct (Hm m eq_refl) as [E|E]; rewrite E|].
    - split_and!; [done| |by left]. split; [done|]. intros [_ [[]|(m' & [= <-] & E')]]. congruence.
    - split_and!; [done| |by right; right]. split; [|done]. intros _. split; [tauto|]. right. by exists m.
    - split_and!; [done| |by left]. split; [done|]. by intros [_ [[]|(m' & [=] & _)]]. }
  apply Forall_cons in Hv as [Hr Hv].
  rewrite !hit_cons. destruct (applies r q) eqn:Ha; [|destruct (IH matched Hm Hv) as (A & B & C);
    split_and!; [rewrite A; naive_solver|rewrite B; naive_solver|done]].
  destruct (same_str (r_Decision r) DecisionDeny) eqn:Hd.
  { apply same_str_true in Hd. simpl. rewrite Hd. split_and!; naive_solver. }
  apply same_str_false in Hd.
  destruct (decide (r_Decision r = DecisionRequireApproval)) as [Hq|Hq].
  - set (m' := match matched with None => _ | Some m => _ end).
    assert (m' = Some (rule_result r)) as ->.
    { subst m'. destruct matched; [|done]. by rewrite (proj2 (same_str_true _ _)). }
    destruct (IH (Some (rule_result r))) as (A & B & C); [intros m [= <-]; simpl; auto|done|].
    split_and!; [rewrite A; naive_solver| |done]. rewrite B. split; [naive_solver|].
    intros [Hn _]. split; [naive_solver|]. right. eexists. done.
  - assert (r_Decision r = DecisionAllow) as Hallow.
    { unfold valid_decision in Hr. apply orb_true_iff in Hr as [Hr|Hr];
        [apply orb_true_iff in Hr as [Hr|Hr]|]; by apply same_str_true in Hr. }
    rewrite (proj2 (same_str_false _ DecisionRequireApproval)) by done.
    set (m' := match matched with None => _ | Some m => _ end).
    destruct (IH m') as (A & B & C); [|done|].
    { subst m'. destruct matched; naive_solver. }
    split_and!; [rewrite A; naive_solver| |done]. rewrite B. subst m'. destruct matched; naive_solver.
Qed.
End evaluate.

Lemma check_rules_decisions index seen rules :
  check_rules index seen rules = Ok tt ->
  Forall (fun r => valid_decision (r_Decision r) = true) rules.
Proof.
  revert index seen. induction rules as [|r rules IH]; intros index seen H; simpl in H; [constructor|].
  destruct (_ || _) eqn:E in H; [done|]. bool_props. case_bool_decide; [done|]. constructor; eauto.
Qed.

(** ** Properties *)

(** Precedence does not depend on rule order.  For an accepted policy the
    decision is deny exactly when some applicable rule denies, otherwise
    approval exactly when some applicable rule requires it, otherwise allow;
    in particular the default without an applicable rule is allow. *)
Theorem policy_precedence {Any} (rules : list Rule) (q : PolicyRequest Any) :
  New rules = Ok rules ->
  (p_Decision (Evaluate rules q) = DecisionDeny <-> hit rules q DecisionDeny) /\
  (p_Decision (Evaluate rules q) = DecisionRequireApproval <->
     ~ hit rules q DecisionDeny /\ hit rules q DecisionRequireApproval) /\
  (p_Decision (Evaluate rules q) = DecisionAllow <->
     ~ hit rules q DecisionDeny /\ ~ hit rules q DecisionRequireApproval).
Proof.
  unfold New, res_bind. destruct (check_rules 0 ∅ rules) as [[]|] eqn:E; [intros _|done].
  apply check_rules_decisions in E.
  destruct (evaluate_from_spec None rules q) as (A & B & C); [done|done|].
  change (evaluate_from None rules q) with (Evaluate rules q) in A, B, C.
  split_and!; [done|rewrite B; naive_solver|]. split.
  - intros Ha. rewrite Ha in A, B. split; [intros Hd; by apply A in Hd|].
    intros Hq. assert (DecisionAllow = DecisionRequireApproval) as Hx; [|discriminate Hx].
    apply B. split; [|by left]. intros Hd. by apply A in Hd.
  - intros [H1 H2]. destruct C as [C|[C|C]]; [exact C|by apply A in C|].
    apply B in C as [_ [C|(m & [=] & _)]]. done.
Qed.

Definition demo_rules : list Rule :=
  [{| r_Doll := "doll"; r_Capability := "camera"; r_Operation := "capture";
      r_Decision := DecisionAllow; r_Reason := ""; r_Message := "" |};
   {| r_Doll := ""; r_Capability := "camera"; r_Operation := "capture";
      r_Decision := DecisionDeny; r_Reason := "owner_prohibited"; r_Message := "" |}].

Definition demo_action (capability : string) : PolicyRequest nat :=
  {| pq_Doll := "doll"; pq_Capability := capability; pq_Operation := "capture"; pq_Arguments := ∅ |}.

Lemma policy_precedence_witness :
  p_Decision (Evaluate demo_rules (demo_action "camera")) = DecisionDeny.
Proof.
  apply (policy_precedence demo_rules (demo_action "camera")); [vm_compute; reflexivity|].
  eexists. split_and!; [apply list_elem_of_further, list_elem_of_here|reflexivity|reflexivity].
Defined.

(** A rule is checked trimmed but matched untrimmed.  A deny rule whose
    capability carries a trailing space is accepted as a policy, and the
    action it names stays allowed. *)
Theorem padded_rule_is_inert :
  let rule := {| r_Doll := ""; r_Capability := "camera "; r_Operation := "capture";
                 r_Decision := DecisionDeny; r_Reason := ""; r_Message := "" |} in
  New [rule] = Ok [rule] /\
  p_Decision (Evaluate [rule] (demo_action "camera")) = DecisionAllow.
Proof. split; vm_compute; reflexivity. Qed.
