(* ===== verification/Permission.v ===== *)
(** * Permission requests

    Models the durable lifecycle of Owner permission requests: the manager
    ([src/Core/PermissionRequest/service.go]), the authenticated decision entry
    point ([decision.go]) and the SQL statements behind them
    ([src/Core/Persistence/permission_requests.go]) as conditional updates of a
    table.  The manager holds its mutex across each operation, so an operation
    is one function on the table; [now] is the clock during it.  Database
    failures are not modelled: every statement takes effect.

    Times are compared chronologically in Go, but the notification lease is
    compared in SQL as RFC 3339 text; [text_le] models that comparison. *)
From S2P Require Import Prelude GoTime ActionPolicy.
From stdpp Require Import options.

(** ** Data *)

Inductive Status := StatusPending | StatusApproved | StatusDenied | StatusExpired | StatusCancelled.
Inductive ContinuationStatus :=
| ContinuationNone | ContinuationWaiting | ContinuationReady | ContinuationRunning
| ContinuationSucceeded | ContinuationFailed | ContinuationDenied.
Inductive NotificationStatus :=
| NotificationNone | NotificationPending | NotificationDelivering | NotificationDelivered.
Inductive Origin := OriginPolicyRequired | OriginVoluntary | OriginOther (s : string).

#[global] Instance Status_eq_dec : EqDecision Status.
Proof. solve_decision. Defined.
#[global] Instance ContinuationStatus_eq_dec : EqDecision ContinuationStatus.
Proof. solve_decision. Defined.
#[global] Instance NotificationStatus_eq_dec : EqDecision NotificationStatus.
Proof. solve_decision. Defined.
#[global] Instance Origin_eq_dec : EqDecision Origin.
Proof. solve_decision. Defined.

Record Correlation := {
  CognitiveRunID : string; SessionID : string; TurnID : string; ToolCallID : string;
  IntentionID : string;
}.

Record Request := {
  q_ID : string;
  q_DollID : string;
  q_OwnerID : string;
  q_Origin : Origin;
  q_Action : string;
  q_Question : string;
  q_Capability : string;
  q_Operation : string;
  q_Arguments : string;
  q_Status : Status;
  q_CreatedAt : time;
  q_ExpiresAt : time;
  q_ResolvedAt : option time;
  q_ResolvingAuthority : string;
  q_Correlation : Correlation;
  q_Continuation : ContinuationStatus;
  q_ContinuationResult : string;
  q_ContinuationUpdatedAt : option time;
  q_Notification : NotificationStatus;
  q_LeaseUntil : option time;
  q_DeliveredAt : option time;
  q_Attempts : Z;
  q_NotificationError : string;
}.

Record CreateRequest := {
  c_DollID : string; c_OwnerID : string; c_Origin : Origin; c_Action : string; c_Question : string;
  c_Capability : string; c_Operation : string; c_Arguments : string; c_ExpiresAt : time;
  c_Correlation : Correlation;
}.

Inductive permission_error :=
| ErrNotFound | ErrInvalidRequest | ErrInvalidTransition | ErrUnauthenticated | ErrUnauthorized
| ErrExpired | ErrContinuationClaimed | ErrNotificationClaimed.

Abbreviation table := (gmap string Request) (only parsing).

(** *** Row updates *)

Definition set_status (q : Request) (st : Status) (at_ : option time) (auth : string)
    (c : ContinuationStatus) (upd : option time) : Request :=
  {| q_ID := q_ID q; q_DollID := q_DollID q; q_OwnerID := q_OwnerID q; q_Origin := q_Origin q;
     q_Action := q_Action q; q_Question := q_Question q; q_Capability := q_Capability q;
     q_Operation := q_Operation q; q_Arguments := q_Arguments q; q_Status := st;
     q_CreatedAt := q_CreatedAt q; q_ExpiresAt := q_ExpiresAt q; q_ResolvedAt := at_;
     q_ResolvingAuthority := auth; q_Correlation := q_Correlation q; q_Continuation := c;
     q_ContinuationResult := q_ContinuationResult q; q_ContinuationUpdatedAt := upd;
     q_Notification := q_Notification q; q_LeaseUntil := q_LeaseUntil q;
     q_DeliveredAt := q_DeliveredAt q; q_Attempts := q_Attempts q;
     q_NotificationError := q_NotificationError q |}.

Definition set_continuation (q : Request) (c : ContinuationStatus) (result : string)
    (upd : option time) : Request :=
  {| q_ID := q_ID q; q_DollID := q_DollID q; q_OwnerID := q_OwnerID q; q_Origin := q_Origin q;
     q_Action := q_Action q; q_Question := q_Question q; q_Capability := q_Capability q;
     q_Operation := q_Operation q; q_Arguments := q_Arguments q; q_Status := q_Status q;
     q_CreatedAt := q_CreatedAt q; q_ExpiresAt := q_ExpiresAt q; q_ResolvedAt := q_ResolvedAt q;
     q_ResolvingAuthority := q_ResolvingAuthority q; q_Correlation := q_Correlation q;
     q_Continuation := c; q_ContinuationResult := result; q_ContinuationUpdatedAt := upd;
     q_Notification := q_Notification q; q_LeaseUntil := q_LeaseUntil q;
     q_DeliveredAt := q_DeliveredAt q; q_Attempts := q_Attempts q;
     q_NotificationError := q_NotificationError q |}.

Definition set_notification (q : Request) (n : NotificationStatus) (lease delivered : option time)
    (attempts : Z) (err : string) : Request :=
  {| q_ID := q_ID q; q_DollID := q_DollID q; q_OwnerID := q_OwnerID q; q_Origin := q_Origin q;
     q_Action := q_Action q; q_Question := q_Question q; q_Capability := q_Capability q;
     q_Operation := q_Operation q; q_Arguments := q_Arguments q; q_Status := q_Status q;
     q_CreatedAt := q_CreatedAt q; q_ExpiresAt := q_ExpiresAt q; q_ResolvedAt := q_ResolvedAt q;
     q_ResolvingAuthority := q_ResolvingAuthority q; q_Correlation := q_Correlation q;
     q_Continuation := q_Continuation q; q_ContinuationResult := q_ContinuationResult q;
     q_ContinuationUpdatedAt := q_ContinuationUpdatedAt q; q_Notification := n;
     q_LeaseUntil := lease; q_DeliveredAt := delivered; q_Attempts := attempts;
     q_NotificationError := err |}.

(** SQL's [ORDER BY column, request_id] on a column of times: NULL first, then
    the text of the time, then the identifier. *)
Definition row_le (key : Request -> option time) (a b : Request) : bool :=
  match key a, key b with
  | None, None => String.leb (q_ID a) (q_ID b)
  | None, Some _ => true
  | Some _, None => false
  | Some x, Some y => text_le x y && (negb (text_le y x) || String.leb (q_ID a) (q_ID b))
  end.

Definition row_before (key : Request -> option time) (a b : Request) : Prop := row_le key a b = true.

#[global] Instance row_before_dec key : RelDecision (row_before key).
Proof. intros a b. unfold row_before. apply _. Defined.

(** [SELECT ... WHERE cond ORDER BY key, request_id]. *)
Definition select_rows (t : table) (cond : Request -> bool) (key : Request -> option time)
    : list Request :=
  merge_sort (row_before key) (List.filter cond (map_to_list t).*2).

(** ** Store statements

    Each returns whether a row changed. *)

Definition update_row (t : table) (id : string) (cond : Request -> bool) (f : Request -> Request)
    : bool * table :=
  match t !! id with
  | Some q => if cond q then (true, <[id := f q]> t) else (false, t)
  | None => (false, t)
  end.

Definition TransitionPermissionRequest (t : table) (id : string) (status : Status) (at_ : time)
    (authority : string) : bool * table :=
  update_row t id (fun q => bool_decide (q_Status q = StatusPending)) (fun q =>
    set_status q status (Some at_) authority
      (if bool_decide (status = StatusApproved) && bool_decide (q_Continuation q = ContinuationWaiting)
       then ContinuationReady
       else if bool_decide (status = StatusDenied) && bool_decide (q_Continuation q = ContinuationWaiting)
       then ContinuationDenied else q_Continuation q)
      (if bool_decide (q_Continuation q = ContinuationNone) then q_ContinuationUpdatedAt q
       else Some at_)).

(** The continuation may be claimed: approved and ready, or denied and not yet
    reported. *)
Definition claimable (q : Request) : bool :=
  (bool_decide (q_Status q = StatusApproved) && bool_decide (q_Continuation q = ContinuationReady)) ||
  (bool_decide (q_Status q = StatusDenied) && bool_decide (q_Continuation q = ContinuationDenied)).

Definition ListReadyPermissionContinuations (t : table) : list Request :=
  select_rows t claimable q_ResolvedAt.

Definition ClaimPermissionContinuation (t : table) (id : string) (at_ : time) : bool * table :=
  update_row t id claimable (fun q =>
    set_continuation q ContinuationRunning (q_ContinuationResult q) (Some at_)).

Definition ReleasePermissionContinuation (t : table) (id : string) (at_ : time) : bool * table :=
  update_row t id (fun q => bool_decide (q_Status q = StatusApproved) &&
                            bool_decide (q_Continuation q = ContinuationRunning))
    (fun q => set_continuation q ContinuationReady (q_ContinuationResult q) (Some at_)).

Definition finish (status : ContinuationStatus) (result : string) (at_ : time) (q : Request) : Request :=
  set_notification (set_continuation q status result (Some at_)) NotificationPending None None
    (q_Attempts q) "".

Definition CompletePermissionContinuation (t : table) (id : string) (status : ContinuationStatus)
    (result : string) (at_ : time) : bool * table :=
  update_row t id (fun q => bool_decide (q_Continuation q = ContinuationRunning))
    (finish status result at_).

Definition recover_row (ambiguous : string) (at_ : time) (q : Request) : Request :=
  if bool_decide (q_Continuation q = ContinuationRunning) then
    if bool_decide (q_Status q = StatusApproved) then finish ContinuationFailed ambiguous at_ q
    else if bool_decide (q_Status q = StatusDenied)
    then set_continuation q ContinuationDenied (q_ContinuationResult q) (Some at_)
    else q
  else q.

Definition RecoverInterruptedPermissionContinuations (t : table) (ambiguous : string) (at_ : time)
    : table := recover_row ambiguous at_ <$> t.

(** A pending notification, or one whose lease has run out by the text. *)
Definition deliverable (now : time) (q : Request) : bool :=
  bool_decide (q_Notification q = NotificationPending) ||
  (bool_decide (q_Notification q = NotificationDelivering) &&
   match q_LeaseUntil q with Some lease => text_le lease now | None => false end).

Definition ListPermissionOutcomeNotifications (t : table) (now : time) : list Request :=
  select_rows t (fun q =>
    (bool_decide (q_Continuation q = ContinuationSucceeded) ||
     bool_decide (q_Continuation q = ContinuationFailed)) && deliverable now q)
    q_ContinuationUpdatedAt.

Definition ClaimPermissionOutcomeNotification (t : table) (id : string) (now leaseUntil : time)
    : bool * table :=
  update_row t id (deliverable now) (fun q =>
    set_notification q NotificationDelivering (Some leaseUntil) (q_DeliveredAt q) (q_Attempts q + 1) "").

Definition CompletePermissionOutcomeNotification (t : table) (id : string) (at_ : time)
    : bool * table :=
  update_row t id (fun q => bool_decide (q_Notification q = NotificationDelivering)) (fun q =>
    set_notification q NotificationDelivered None (Some at_) (q_Attempts q) "").

Definition ReleasePermissionOutcomeNotification (t : table) (id message : string) : bool * table :=
  update_row t id (fun q => bool_decide (q_Notification q = NotificationDelivering)) (fun q =>
    set_notification q NotificationPending None (q_DeliveredAt q) (q_Attempts q) message).

Definition HasUnresolvedPermissionForIntention (t : table) (intentionID exclude : string) : bool :=
  existsb (fun e : string * Request =>
    same_str (IntentionID (q_Correlation e.2)) intentionID && negb (same_str e.1 exclude) &&
    (bool_decide (q_Status e.2 = StatusPending) ||
     bool_decide (q_Continuation e.2 ∈ [ContinuationReady; ContinuationRunning; ContinuationDenied]) ||
     bool_decide (q_Notification e.2 ∈ [NotificationPending; NotificationDelivering])))
    (map_to_list t).

(** ** Manager *)

Definition load (t : table) (id : string) : res permission_error Request :=
  match t !! id with Some q => Ok q | None => Err ErrNotFound end.

Section create.
(** [json.Unmarshal] of the arguments into an object, and the action policy. *)
Context {Any : Type} (decode : string -> option (gmap string Any)).
Context (policy : option (PolicyRequest Any -> PolicyResult)).

Definition validateCreate (i : CreateRequest) (now : time) : res permission_error unit :=
  refuse blank (c_DollID i) || blank (c_OwnerID i) || negb (After (c_ExpiresAt i) now)
    with ErrInvalidRequest;
  refuse negb (bool_decide (c_Origin i = OriginPolicyRequired)) &&
         negb (bool_decide (c_Origin i = OriginVoluntary)) with ErrInvalidRequest;
  let hasAction := negb (blank (c_Action i)) in
  refuse negb hasAction && blank (c_Question i) with ErrInvalidRequest;
  if negb hasAction then
    refuse negb (bool_decide (c_Origin i = OriginVoluntary)) || negb (blank (c_Capability i)) ||
           negb (blank (c_Operation i)) with ErrInvalidRequest;
    Ok tt
  else
    match policy with
    | None => Err ErrInvalidRequest
    | Some evaluate =>
        refuse blank (c_Capability i) || blank (c_Operation i) with ErrInvalidRequest;
        match (if empty_str (c_Arguments i) then Some ∅ else decode (c_Arguments i)) with
        | None => Err ErrInvalidRequest
        | Some arguments =>
            let decision := p_Decision (evaluate {| pq_Doll := TrimSpace (c_DollID i);
              pq_Capability := TrimSpace (c_Capability i); pq_Operation := TrimSpace (c_Operation i);
              pq_Arguments := arguments |}) in
            refuse same_str decision DecisionDeny ||
              (bool_decide (c_Origin i = OriginPolicyRequired) &&
               negb (same_str decision DecisionRequireApproval)) ||
              (bool_decide (c_Origin i = OriginVoluntary) && negb (same_str decision DecisionAllow))
              with ErrInvalidRequest;
            Ok tt
        end
    end.

Definition hasExecutableAction (i : CreateRequest) : bool :=
  negb (blank (c_Action i)) && negb (blank (c_Capability i)) && negb (blank (c_Operation i)).

(** [uuid] is the fresh identifier; the insert fails if the key exists. *)
Definition Create (t : table) (now : time) (uuid : string) (i : CreateRequest)
    : res permission_error (Request * table) :=
  try u <- validateCreate i now;
  let q := {| q_ID := uuid; q_DollID := TrimSpace (c_DollID i); q_OwnerID := TrimSpace (c_OwnerID i);
    q_Origin := c_Origin i; q_Action := TrimSpace (c_Action i); q_Question := TrimSpace (c_Question i);
    q_Capability := TrimSpace (c_Capability i); q_Operation := TrimSpace (c_Operation i);
    q_Arguments := c_Arguments i; q_Status := StatusPending; q_CreatedAt := now;
    q_ExpiresAt := c_ExpiresAt i; q_ResolvedAt := None; q_ResolvingAuthority := "";
    q_Correlation := c_Correlation i;
    q_Continuation := if hasExecutableAction i then ContinuationWaiting else ContinuationNone;
    q_ContinuationResult := ""; q_ContinuationUpdatedAt := None; q_Notification := NotificationNone;
    q_LeaseUntil := None; q_DeliveredAt := None; q_Attempts := 0; q_NotificationError := "" |} in
  refuse bool_decide (is_Some (t !! uuid)) with ErrInvalidRequest;
  Ok (q, <[uuid := q]> t).
End create.

Definition transition (t : table) (now : time) (id : string) (target : Status) (authority : string)
    : res permission_error Request * table :=
  let '(changed, t') := TransitionPermissionRequest t id target now authority in
  match load t' id with
  | Err e => (Err e, t')
  | Ok q => if negb changed && negb (bool_decide (q_Status q = target))
            then (Err ErrInvalidTransition, t') else (Ok q, t')
  end.

Definition expireIfDue (t : table) (now : time) (q : Request) : res permission_error Request * table :=
  if negb (bool_decide (q_Status q = StatusPending)) || Before now (q_ExpiresAt q) then (Ok q, t)
  else match transition t now (q_ID q) StatusExpired "" with
       | (Err ErrInvalidTransition, t') => (load t' (q_ID q), t')
       | out => out
       end.

Definition Get (t : table) (now : time) (id : string) : res permission_error Request * table :=
  if blank id then (Err ErrInvalidRequest, t)
  else match load t id with
       | Err e => (Err e, t)
       | Ok q => expireIfDue t now q
       end.

Definition resolve (t : table) (now : time) (id : string) (target : Status) (authority : string)
    : res permission_error Request * table :=
  if blank id || ((bool_decide (target = StatusApproved) || bool_decide (target = StatusDenied)) &&
                  blank authority) then (Err ErrInvalidRequest, t)
  else match load t id with
       | Err e => (Err e, t)
       | Ok q =>
           if bool_decide (q_Status q = target) then (Ok q, t)
           else if negb (bool_decide (q_Status q = StatusPending)) then (Err ErrInvalidTransition, t)
           else if negb (Before now (q_ExpiresAt q)) then
             match transition t now (q_ID q) StatusExpired "" with
             | (Ok _, t') | (Err ErrInvalidTransition, t') => (Err ErrInvalidTransition, t')
             | (Err e, t') => (Err e, t')
             end
           else transition t now (q_ID q) target (TrimSpace authority)
       end.

Definition Approve (t : table) (now : time) (id authority : string) := resolve t now id StatusApproved authority.
Definition Deny (t : table) (now : time) (id authority : string) := resolve t now id StatusDenied authority.
Definition CancelRequest (t : table) (now : time) (id : string) := resolve t now id StatusCancelled "".

Definition Expire (t : table) (now : time) (id : string) : res permission_error Request * table :=
  if blank id then (Err ErrInvalidRequest, t)
  else match load t id with
       | Err e => (Err e, t)
       | Ok q =>
           if bool_decide (q_Status q = StatusExpired) then (Ok q, t)
           else if negb (bool_decide (q_Status q = StatusPending)) || Before now (q_ExpiresAt q)
           then (Err ErrInvalidTransition, t)
           else transition t now (q_ID q) StatusExpired ""
       end.

(** The row order is the database's; [order] lists the pending rows read. *)
Fixpoint ListPending (t : table) (now : time) (order : list Request)
    : res permission_error (list Request) * table :=
  match order with
  | [] => (Ok [], t)
  | q :: rest =>
      match expireIfDue t now q with
      | (Err e, t1) => (Err e, t1)
      | (Ok q', t1) =>
          match ListPending t1 now rest with
          | (Err e, t2) => (Err e, t2)
          | (Ok qs, t2) => (Ok (if bool_decide (q_Status q' = StatusPending) then q' :: qs else qs), t2)
          end
      end
  end.

Definition ClaimContinuation (t : table) (now : time) (id : string)
    : res permission_error Request * table :=
  let '(changed, t') := ClaimPermissionContinuation t id now in
  match load t' id with
  | Err e => (Err e, t')
  | Ok q => if negb changed then (Err ErrContinuationClaimed, t') else (Ok q, t')
  end.

Definition ReleaseContinuation (t : table) (now : time) (id : string)
    : res permission_error Request * table :=
  let '(changed, t') := ReleasePermissionContinuation t id now in
  match load t' id with
  | Err e => (Err e, t')
  | Ok q => if negb changed && negb (bool_decide (q_Continuation q = ContinuationReady))
            then (Err ErrInvalidTransition, t') else (Ok q, t')
  end.

(** [encoded] is the JSON of the outcome. *)
Definition CompleteContinuation (t : table) (now : time) (id : string) (success : bool)
    (encoded : string) : res permission_error Request * table :=
  let target := if success then ContinuationSucceeded else ContinuationFailed in
  let '(changed, t') := CompletePermissionContinuation t id target encoded now in
  match load t' id with
  | Err e => (Err e, t')
  | Ok q => if negb changed && negb (bool_decide (q_Continuation q = target))
            then (Err ErrInvalidTransition, t') else (Ok q, t')
  end.

Definition ClaimOutcomeNotification (t : table) (now : time) (id : string) (lease : duration)
    : res permission_error Request * table :=
  if lease <=? 0 then (Err ErrInvalidRequest, t)
  else
    let '(changed, t') := ClaimPermissionOutcomeNotification t id now (now + lease) in
    match load t' id with
    | Err e => (Err e, t')
    | Ok q => if negb changed then (Err ErrNotificationClaimed, t') else (Ok q, t')
    end.

Definition CompleteOutcomeNotification (t : table) (now : time) (id : string)
    : res permission_error Request * table :=
  let '(changed, t') := CompletePermissionOutcomeNotification t id now in
  match load t' id with
  | Err e => (Err e, t')
  | Ok q => if negb changed && negb (bool_decide (q_Notification q = NotificationDelivered))
            then (Err ErrInvalidTransition, t') else (Ok q, t')
  end.

Definition ReleaseOutcomeNotification (t : table) (id message : string)
    : res permission_error Request * table :=
  let '(changed, t') := ReleasePermissionOutcomeNotification t id message in
  match load t' id with
  | Err e => (Err e, t')
  | Ok q => if negb changed && negb (bool_decide (q_Notification q = NotificationPending))
            then (Err ErrInvalidTransition, t') else (Ok q, t')
  end.

Definition HasUnresolvedIntention (t : table) (intentionID exclude : string) : bool :=
  if blank intentionID then false else HasUnresolvedPermissionForIntention t intentionID exclude.

(** ** The decision service *)

(** The source's strings "approve" and "deny", and any other. *)
Inductive Decision := DecisionApprove | DecisionRefuse | DecisionOther (s : string).

(** [actor] is what [AuthenticateOwner] returned, [authorized] the answer of
    [AuthorizeDoll] for an owner and a doll.  The manager's lock is released
    between the look-up and the decision: [between] is what other operations do
    to the table there, [now'] the clock at the decision. *)
Definition Resolve (t : table) (now now' : time) (between : table -> table) (actor : option string)
    (authorized : string -> string -> bool) (id : string) (d : Decision)
    : res permission_error Request * table :=
  if blank id || match d with DecisionOther _ => true | _ => false end then (Err ErrInvalidRequest, t)
  else
    match actor with
    | None => (Err ErrUnauthenticated, t)
    | Some who =>
        if blank who then (Err ErrUnauthenticated, t)
        else
          match Get t now id with
          | (Err e, t1) => (Err e, t1)
          | (Ok q, t1) =>
              if bool_decide (q_Status q = StatusExpired) then (Err ErrExpired, t1)
              else if negb (same_str who (q_OwnerID q)) then (Err ErrUnauthorized, t1)
              else if negb (authorized who (q_DollID q)) then (Err ErrUnauthorized, t1)
              else match d with
                   | DecisionApprove => Approve (between t1) now' id who
                   | _ => Deny (between t1) now' id who
                   end
          end
    end.

(** ** Histories

    Every operation the manager offers, labelled when it hands out or takes
    back the right to execute an approved action. *)

Inductive event := Claimed (id : string) | Released (id : string) | Quiet.

#[global] Instance event_eq_dec : EqDecision event.
Proof. solve_decision. Defined.

Inductive perm_step : table -> event -> table -> Prop :=
| ps_create {Any} (decode : string -> option (gmap string Any)) policy t now uuid i q t' :
    Create decode policy t now uuid i = Ok (q, t') -> perm_step t Quiet t'
| ps_get t now id : perm_step t Quiet (Get t now id).2
| ps_due t now q q0 :
    t !! q_ID q = Some q0 -> q_ExpiresAt q0 = q_ExpiresAt q ->
    perm_step t Quiet (expireIfDue t now q).2
| ps_approve t now id authority : perm_step t Quiet (Approve t now id authority).2
| ps_deny t now id authority : perm_step t Quiet (Deny t now id authority).2
| ps_cancel t now id : perm_step t Quiet (CancelRequest t now id).2
| ps_expire t now id : perm_step t Quiet (Expire t now id).2
| ps_claim t now id :
    perm_step t (match (ClaimContinuation t now id).1 with
                 | Ok q => if decide (q_Status q = StatusApproved) then Claimed id else Quiet
                 | Err _ => Quiet
                 end) (ClaimContinuation t now id).2
| ps_release t now id :
    perm_step t (if (ReleasePermissionContinuation t id now).1 then Released id else Quiet)
      (ReleaseContinuation t now id).2
| ps_complete t now id success encoded :
    perm_step t Quiet (CompleteContinuation t now id success encoded).2
| ps_recover t now ambiguous :
    perm_step t Quiet (RecoverInterruptedPermissionContinuations t ambiguous now)
| ps_claim_note t now id lease : perm_step t Quiet (ClaimOutcomeNotification t now id lease).2
| ps_complete_note t now id : perm_step t Quiet (CompleteOutcomeNotification t now id).2
| ps_release_note t id message : perm_step t Quiet (ReleaseOutcomeNotification t id message).2.

Inductive perm_run : table -> list event -> table -> Prop :=
| run_nil t : perm_run t [] t
| run_cons t e t1 es t2 : perm_step t e t1 -> perm_run t1 es t2 -> perm_run t (e :: es) t2.

(** ** Lemmas *)

(** What never changes in a row. *)
Definition same_terms (q q' : Request) : Prop :=
  q_ID q' = q_ID q /\ q_DollID q' = q_DollID q /\ q_OwnerID q' = q_OwnerID q /\
  q_Origin q' = q_Origin q /\ q_Action q' = q_Action q /\ q_Question q' = q_Question q /\
  q_Capability q' = q_Capability q /\ q_Operation q' = q_Operation q /\
  q_Arguments q' = q_Arguments q /\ q_CreatedAt q' = q_CreatedAt q /\
  q_ExpiresAt q' = q_ExpiresAt q /\ q_Correlation q' = q_Correlation q.

Definition settled (q q' : Request) : Prop :=
  q_Status q' = q_Status q /\ q_ResolvedAt q' = q_ResolvedAt q /\
  q_ResolvingAuthority q' = q_ResolvingAuthority q.

Definition done_phase (c : ContinuationStatus) : bool :=
  match c with ContinuationSucceeded | ContinuationFailed => true | _ => false end.

(** The right to execute is out, or was used: the request is approved and its
    continuation runs or has ended. *)
Definition busy (oq : option Request) : nat :=
  match oq with
  | Some q =>
      if decide (q_Status q = StatusApproved) then
        match q_Continuation q with
        | ContinuationRunning | ContinuationSucceeded | ContinuationFailed => 1
        | _ => 0
        end
      else 0
  | None => 0
  end.

Definition row_ok (id : string) (q : Request) : Prop :=
  q_ID q = id /\
  (q_Status q = StatusPending ->
   q_Continuation q = ContinuationNone \/ q_Continuation q = ContinuationWaiting).

Definition table_ok (t : table) : Prop := map_Forall row_ok t.

(** One row's part of a step labelled [e]. *)
Definition row_step (id : string) (e : event) (q q' : Request) : Prop :=
  same_terms q q' /\
  (q_Status q <> StatusPending -> settled q q') /\
  (done_phase (q_Continuation q) = true -> q_Continuation q' = q_Continuation q) /\
  ((if decide (e = Claimed id) then 1 else 0) + busy (Some q) =
   (if decide (e = Released id) then 1 else 0) + busy (Some q'))%nat /\
  row_ok id q'.

Lemma row_step_refl id q : row_ok id q -> row_step id Quiet q q.
Proof. intros H. by split_and!. Qed.

(** An [UPDATE] of one row is a step if it is one on that row. *)
Lemma update_row_step t id cond f e :
  table_ok t ->
  (forall q, t !! id = Some q -> cond q = true -> row_step id e q (f q)) ->
  ((update_row t id cond f).1 = false -> e = Quiet) -> (forall j, e = Claimed j \/ e = Released j -> j = id) ->
  forall j q, t !! j = Some q ->
    exists q', (update_row t id cond f).2 !! j = Some q' /\ row_step j e q q'.
Proof.
  intros Hok Hf Hquiet He j q Hj. unfold update_row in *. destruct (t !! id) as [qi|] eqn:Hi.
  - destruct (cond qi) eqn:Hc; simpl in *.
    + destruct (decide (id = j)) as [<-|Hne].
      * assert (qi = q) as -> by congruence. exists (f q). rewrite lookup_insert_eq. auto.
      * exists q. rewrite lookup_insert_ne by done. split; [done|].
        assert (e <> Claimed j /\ e <> Released j) as [H1 H2] by (split; intros ->; naive_solver).
        destruct (Hok _ _ Hj) as [? ?].
        split_and!; try done. by rewrite !decide_False by done.
    + exists q. rewrite Hquiet by done. split; [done|]. apply row_step_refl, Hok, Hj.
  - exists q. rewrite Hquiet by done. split; [done|]. apply row_step_refl, Hok, Hj.
Qed.

Lemma transition_row id q target at_ auth :
  row_ok id q -> q_Status q = StatusPending -> target <> StatusPending ->
  row_step id Quiet q (set_status q target (Some at_) auth
      (if bool_decide (target = StatusApproved) && bool_decide (q_Continuation q = ContinuationWaiting)
       then ContinuationReady
       else if bool_decide (target = StatusDenied) && bool_decide (q_Continuation q = ContinuationWaiting)
       then ContinuationDenied else q_Continuation q)
      (if bool_decide (q_Continuation q = ContinuationNone) then q_ContinuationUpdatedAt q
       else Some at_)).
Proof.
  intros [Hid Hp] Hs Hne. specialize (Hp Hs).
  split; [done|]. split; [done|]. split; [|split].
  - destruct Hp as [E|E]; rewrite E; done.
  - rewrite !decide_False by done. unfold busy. simpl. rewrite Hs.
    destruct Hp as [E|E]; rewrite E; destruct target; done.
  - split; [done|]. simpl. done.
Qed.

Lemma Transition_steps t id target at_ auth :
  table_ok t -> target <> StatusPending ->
  forall j q, t !! j = Some q ->
    exists q', (TransitionPermissionRequest t id target at_ auth).2 !! j = Some q' /\ row_step j Quiet q q'.
Proof.
  intros Hok Hne. apply update_row_step; try done.
  - intros q Hq Hc%bool_decide_eq_true. apply transition_row; [by apply Hok|done|done].
  - intros j [?|?]; done.
Qed.

Lemma transition_table t now id target auth :
  (transition t now id target auth).2 = (TransitionPermissionRequest t id target now auth).2.
Proof.
  unfold transition. destruct (TransitionPermissionRequest _ _ _ _ _) as [c t']. simpl.
  destruct (load t' id); [|done]. by destruct (_ && _).
Qed.

(** Every operation that only ever transitions one pending row. *)
Lemma expireIfDue_table t now q :
  (expireIfDue t now q).2 = t \/
  (q_Status q = StatusPending /\ q_ExpiresAt q <= now /\
   (expireIfDue t now q).2 = (TransitionPermissionRequest t (q_ID q) StatusExpired now "").2).
Proof.
  unfold expireIfDue. destruct (_ || _) eqn:E; [by left|]. right. bool_props.
  unfold Before in *. bool_props. rewrite <- transition_table.
  split_and!; [done|done|]. destruct (transition _ _ _ _ _) as [[?|[]] ?]; done.
Qed.

Lemma resolve_table t now id target auth :
  (resolve t now id target auth).2 = t \/
  (exists q, t !! id = Some q /\ q_Status q = StatusPending /\ q_ExpiresAt q <= now /\
     (resolve t now id target auth).2 = (TransitionPermissionRequest t (q_ID q) StatusExpired now "").2) \/
  (exists q, t !! id = Some q /\ q_Status q = StatusPending /\ now < q_ExpiresAt q /\
     (target = StatusApproved \/ target = StatusDenied -> blank auth = false) /\
     (resolve t now id target auth).2 =
       (TransitionPermissionRequest t (q_ID q) target now (TrimSpace auth)).2).
Proof.
  unfold resolve, load. destruct (_ || _) eqn:E1; [by left|]. apply orb_false_iff in E1 as [_ E1].
  destruct (t !! id) as [q|]; [|by left].
  destruct (bool_decide (q_Status q = target)) eqn:E2; [by left|].
  destruct (bool_decide (q_Status q = StatusPending)) eqn:E3; simpl; [|by left].
  apply bool_decide_eq_true in E3.
  destruct (Before now (q_ExpiresAt q)) eqn:Hb; simpl; unfold Before in Hb; bool_props; right.
  - right. exists q. rewrite transition_table. split_and!; try done.
    intros Ht. destruct (blank auth); [|done]. exfalso.
    destruct Ht as [-> | ->]; discriminate E1.
  - left. exists q. rewrite <- transition_table. split_and!; try done.
    destruct (transition _ _ _ _ _) as [[?|[]] ?]; done.
Qed.

Lemma Expire_table t now id :
  (Expire t now id).2 = t \/
  exists q, t !! id = Some q /\ q_Status q = StatusPending /\ q_ExpiresAt q <= now /\
    (Expire t now id).2 = (TransitionPermissionRequest t (q_ID q) StatusExpired now "").2.
Proof.
  unfold Expire, load. destruct (blank id); [by left|]. destruct (t !! id) as [q|]; [|by left].
  destruct (bool_decide (q_Status q = StatusExpired)); [by left|].
  destruct (_ || _) eqn:E; [by left|]. right. bool_props. unfold Before in *. bool_props.
  exists q. by rewrite transition_table.
Qed.

(** The table after an operation of the form update, load, check. *)
Lemma guarded_table (u : bool * table) id (c : bool -> Request -> bool) (e : permission_error) :
  ((let '(changed, t') := u in
    match load t' id with
    | Err x => (Err x, t')
    | Ok q => if c changed q then (Err e, t') else (Ok q, t')
    end) : res permission_error Request * table).2 = u.2.
Proof. destruct u as [b t']. simpl. destruct (load t' id); [|done]. by destruct (c b a). Qed.

Lemma ClaimContinuation_table t now id :
  (ClaimContinuation t now id).2 = (ClaimPermissionContinuation t id now).2.
Proof. exact (guarded_table _ id (fun b _ => negb b) _). Qed.

Lemma ReleaseContinuation_table t now id :
  (ReleaseContinuation t now id).2 = (ReleasePermissionContinuation t id now).2.
Proof. exact (guarded_table _ id (fun b q => negb b && _) _). Qed.

Lemma CompleteContinuation_table t now id ok encoded :
  (CompleteContinuation t now id ok encoded).2 =
  (CompletePermissionContinuation t id (if ok then ContinuationSucceeded else ContinuationFailed)
     encoded now).2.
Proof. exact (guarded_table _ id (fun b q => negb b && _) _). Qed.

Lemma claim_label t now id :
  match (ClaimContinuation t now id).1 with
  | Ok q => if decide (q_Status q = StatusApproved) then Claimed id else Quiet
  | Err _ => Quiet
  end =
  match t !! id with
  | Some q => if decide (claimable q = true /\ q_Status q = StatusApproved) then Claimed id else Quiet
  | None => Quiet
  end.
Proof.
  unfold ClaimContinuation, ClaimPermissionContinuation, update_row, load.
  destruct (t !! id) as [q|] eqn:E; simpl; [|by rewrite E].
  destruct (claimable q) eqn:Hc; simpl.
  - rewrite lookup_insert_eq. simpl. repeat case_decide; naive_solver.
  - rewrite E. done.
Qed.

Lemma claimable_cases q : claimable q = true ->
  (q_Status q = StatusApproved /\ q_Continuation q = ContinuationReady) \/
  (q_Status q = StatusDenied /\ q_Continuation q = ContinuationDenied).
Proof.
  unfold claimable. rewrite orb_true_iff, !andb_true_iff, !bool_decide_eq_true. done.
Qed.

Lemma claim_steps t now id j q :
  table_ok t -> t !! j = Some q ->
  exists q', (ClaimContinuation t now id).2 !! j = Some q' /\
    row_step j (match (ClaimContinuation t now id).1 with
                | Ok q => if decide (q_Status q = StatusApproved) then Claimed id else Quiet
                | Err _ => Quiet
                end) q q'.
Proof.
  intros Hok Hj. rewrite claim_label, ClaimContinuation_table.
  revert j q Hj. apply update_row_step; try done.
  - intros q Hq Hc. rewrite Hq. destruct (Hok _ _ Hq) as [Hid Hp].
    destruct (claimable_cases _ Hc) as [[Hs Hk]|[Hs Hk]].
    + rewrite decide_True by done. split; [done|]. split; [done|]. rewrite Hk. split; [done|].
      split; [|split; [done|simpl; congruence]].
      rewrite decide_True, decide_False by done. unfold busy. simpl. rewrite Hs, Hk. done.
    + rewrite decide_False by (intros [_ ?]; congruence). split; [done|]. split; [done|]. rewrite Hk.
      split; [done|]. split; [|split; [done|simpl; congruence]].
      unfold busy. simpl. by rewrite Hs.
  - unfold update_row. destruct (t !! id) as [q|]; [|done].
    destruct (claimable q) eqn:Hc; [done|]. intros _. by rewrite decide_False by naive_solver.
  - intros j Hj. destruct (t !! id); [|naive_solver]. destruct (decide _); naive_solver.
Qed.

Lemma release_steps t now id j q :
  table_ok t -> t !! j = Some q ->
  exists q', (ReleaseContinuation t now id).2 !! j = Some q' /\
    row_step j (if (ReleasePermissionContinuation t id now).1 then Released id else Quiet) q q'.
Proof.
  intros Hok Hj. rewrite ReleaseContinuation_table. revert j q Hj.
  unfold ReleasePermissionContinuation. apply update_row_step; try done.
  - intros q Hq Hc. unfold update_row. rewrite Hq, Hc. simpl. destruct (Hok _ _ Hq) as [Hid Hp].
    apply andb_true_iff in Hc as [Hs%bool_decide_eq_true Hk%bool_decide_eq_true].
    split; [done|]. split; [done|]. rewrite Hk. split; [done|].
    split; [|split; [done|simpl; congruence]].
    rewrite decide_False, decide_True by done. unfold busy. simpl. rewrite Hs, Hk. done.
  - intros ->. done.
  - intros j Hj. destruct (update_row _ _ _ _) as [[] ?]; simpl in Hj; naive_solver.
Qed.

Lemma finish_row id q status result at_ :
  row_ok id q -> q_Continuation q = ContinuationRunning -> done_phase status = true ->
  row_step id Quiet q (finish status result at_ q).
Proof.
  intros [Hid Hp] Hk Hd. split; [done|]. split; [done|]. rewrite Hk. split; [done|].
  split; [|split; [done|]].
  - unfold busy. simpl. case_decide; [|done]. rewrite Hk. by destruct status.
  - simpl. intros Hs. destruct (Hp Hs); congruence.
Qed.

Lemma complete_steps t now id ok encoded j q :
  table_ok t -> t !! j = Some q ->
  exists q', (CompleteContinuation t now id ok encoded).2 !! j = Some q' /\ row_step j Quiet q q'.
Proof.
  intros Hok Hj. rewrite CompleteContinuation_table. revert j q Hj. apply update_row_step; try done.
  - intros q Hq Hc%bool_decide_eq_true. apply finish_row; [by apply Hok|done|by destruct ok].
  - by intros j [?|?].
Qed.

Lemma recover_steps t now ambiguous j q :
  table_ok t -> t !! j = Some q ->
  exists q', RecoverInterruptedPermissionContinuations t ambiguous now !! j = Some q' /\
    row_step j Quiet q q'.
Proof.
  intros Hok Hj. pose proof (Hok _ _ Hj) as Hr.
  exists (recover_row ambiguous now q). unfold RecoverInterruptedPermissionContinuations.
  rewrite lookup_fmap, Hj. split; [done|]. unfold recover_row.
  destruct (bool_decide (q_Continuation q = ContinuationRunning)) eqn:Hk; [|by apply row_step_refl].
  apply bool_decide_eq_true in Hk.
  destruct (bool_decide (q_Status q = StatusApproved)) eqn:Hs; [by apply finish_row|].
  destruct (bool_decide (q_Status q = StatusDenied)) eqn:Hs2; [|by apply row_step_refl].
  apply bool_decide_eq_true in Hs2. destruct Hr as [Hid Hp].
  split; [done|]. split; [done|]. rewrite Hk. split; [done|]. split; [|split; [done|simpl; congruence]].
  unfold busy. simpl. by rewrite Hs2.
Qed.

Lemma note_row id q n l d a e :
  row_ok id q -> row_step id Quiet q (set_notification q n l d a e).
Proof. intros [Hid Hp]. by split_and!. Qed.

(** A step seen at one key, present or not. *)
Definition step_at (j : string) (e : event) (oq oq' : option Request) : Prop :=
  match oq, oq' with
  | Some q, Some q' => row_step j e q q'
  | None, Some q' => e = Quiet /\ row_ok j q' /\ busy (Some q') = 0%nat
  | None, None => e <> Claimed j /\ e <> Released j
  | Some _, None => False
  end.

Lemma update_row_none t id cond f j : t !! j = None -> (update_row t id cond f).2 !! j = None.
Proof.
  intros Hj. unfold update_row. destruct (t !! id) as [q|] eqn:Hi; [|done].
  destruct (cond q); [|done]. simpl. rewrite lookup_insert_ne; [done|congruence].
Qed.

Lemma rows_step_at (t : table) e (t' : table) j :
  (forall q, t !! j = Some q -> exists q', t' !! j = Some q' /\ row_step j e q q') ->
  (t !! j = None -> t' !! j = None /\ e <> Claimed j /\ e <> Released j) ->
  step_at j e (t !! j) (t' !! j).
Proof.
  intros Hs Hn. destruct (t !! j) as [q|].
  - destruct (Hs q eq_refl) as (q' & -> & ?). done.
  - destruct (Hn eq_refl) as (-> & ? & ?). done.
Qed.

Lemma quiet_step_at (t t' : table) j :
  (forall q, t !! j = Some q -> exists q', t' !! j = Some q' /\ row_step j Quiet q q') ->
  (t !! j = None -> t' !! j = None) -> step_at j Quiet (t !! j) (t' !! j).
Proof. intros Hs Hn. apply rows_step_at; [done|]. intros H. by split; [apply Hn|]. Qed.

Lemma same_step_at t j : table_ok t -> step_at j Quiet (t !! j) (t !! j).
Proof.
  intros Hok. apply quiet_step_at; [|done]. intros q Hq. exists q. split; [done|].
  apply row_step_refl, Hok, Hq.
Qed.

Lemma transition_step_at t id target at_ auth j :
  table_ok t -> target <> StatusPending ->
  step_at j Quiet (t !! j) ((TransitionPermissionRequest t id target at_ auth).2 !! j).
Proof.
  intros Hok Hne. apply quiet_step_at; [intros q; by apply Transition_steps|apply update_row_none].
Qed.

Lemma expireIfDue_step_at t now q j :
  table_ok t -> step_at j Quiet (t !! j) ((expireIfDue t now q).2 !! j).
Proof.
  intros Hok. destruct (expireIfDue_table t now q) as [-> | (_ & _ & ->)];
    [by apply same_step_at|by apply transition_step_at].
Qed.

Lemma resolve_step_at t now id target auth j :
  table_ok t -> target <> StatusPending ->
  step_at j Quiet (t !! j) ((resolve t now id target auth).2 !! j).
Proof.
  intros Hok Hne.
  destruct (resolve_table t now id target auth) as [-> | [(q & _ & _ & _ & ->)|(q & _ & _ & _ & _ & ->)]];
    [by apply same_step_at|by apply transition_step_at..].
Qed.

Lemma note_step_at t id cond n l d (a : Request -> Z) err j :
  table_ok t ->
  step_at j Quiet (t !! j)
    ((update_row t id cond (fun q => set_notification q n l (d q) (a q) err)).2 !! j).
Proof.
  intros Hok. apply quiet_step_at; [|apply update_row_none].
  intros q. apply update_row_step; try done.
  - intros q0 Hq0 _. by apply note_row, Hok.
  - by intros i [?|?].
Qed.

Lemma perm_step_at t e t' j : perm_step t e t' -> table_ok t -> step_at j e (t !! j) (t' !! j).
Proof.
  intros Hst Hok. destruct Hst.
  - unfold Create, res_bind in H. destruct (validateCreate _ _ _ _); [|done].
    case_bool_decide as Hex; [done|]. simplify_eq. apply eq_None_not_Some in Hex.
    destruct (decide (uuid = j)) as [<-|].
    + rewrite lookup_insert_eq, Hex. split_and!; [done| |done]. split; [done|]. simpl. intros _.
      destruct (hasExecutableAction i); auto.
    + rewrite lookup_insert_ne by done. by apply same_step_at.
  - unfold Get, load. destruct (blank id); [by apply same_step_at|].
    destruct (t !! id) as [q|]; [by apply expireIfDue_step_at|by apply same_step_at].
  - by apply expireIfDue_step_at.
  - by apply resolve_step_at.
  - by apply resolve_step_at.
  - by apply resolve_step_at.
  - destruct (Expire_table t now id) as [-> | (q & _ & _ & _ & ->)];
      [by apply same_step_at|by apply transition_step_at].
  - apply rows_step_at; [intros q; by apply claim_steps|]. intros Hj.
    rewrite claim_label, ClaimContinuation_table. split; [by apply update_row_none|].
    destruct (t !! id) eqn:Hi; [|done]. destruct (decide _); [|done]. split; congruence.
  - apply rows_step_at; [intros q; by apply release_steps|]. intros Hj.
    rewrite ReleaseContinuation_table. split; [by apply update_row_none|].
    unfold ReleasePermissionContinuation, update_row. destruct (t !! id) eqn:Hi; [|done].
    destruct (_ && _); simpl; [|done]. split; congruence.
  - apply quiet_step_at; [intros q; by apply complete_steps|].
    rewrite CompleteContinuation_table. apply update_row_none.
  - apply quiet_step_at; [intros q; by apply recover_steps|].
    unfold RecoverInterruptedPermissionContinuations. intros Hj. by rewrite lookup_fmap, Hj.
  - unfold ClaimOutcomeNotification. destruct (lease <=? 0); [by apply same_step_at|].
    rewrite (guarded_table _ id (fun b _ => negb b)).
    by apply (note_step_at t id _ _ _ q_DeliveredAt (fun q => q_Attempts q + 1)).
  - unfold CompleteOutcomeNotification. rewrite (guarded_table _ id (fun b q => negb b && _)).
    by apply (note_step_at t id _ _ _ (fun _ => Some now) q_Attempts).
  - unfold ReleaseOutcomeNotification. rewrite (guarded_table _ id (fun b q => negb b && _)).
    by apply (note_step_at t id _ _ _ q_DeliveredAt q_Attempts).
Qed.

Lemma perm_step_ok t e t' : perm_step t e t' -> table_ok t -> table_ok t'.
Proof.
  intros Hst Hok j q' Hj. pose proof (perm_step_at t e t' j Hst Hok) as Hs. rewrite Hj in Hs.
  destruct (t !! j); simpl in Hs; [by destruct Hs as (_ & _ & _ & _ & ?)|tauto].
Qed.

Definition count (e : event) (es : list event) : nat := length (filter (fun x => x = e) es).

Lemma count_cons e x es :
  count e (x :: es) = ((if decide (x = e) then 1 else 0) + count e es)%nat.
Proof. unfold count. rewrite filter_cons. by case_decide. Qed.

Lemma perm_run_count t es t' j :
  perm_run t es t' -> table_ok t ->
  (count (Claimed j) es + busy (t !! j) = count (Released j) es + busy (t' !! j))%nat /\ table_ok t'.
Proof.
  induction 1 as [t|t e t1 es t2 Hst _ IH]; intros Hok; [done|].
  destruct (IH (perm_step_ok _ _ _ Hst Hok)) as [Hc Hok2]. split; [|done].
  pose proof (perm_step_at t e t1 j Hst Hok) as Hs. rewrite !count_cons.
  assert ((if decide (e = Claimed j) then 1 else 0) + busy (t !! j) =
          (if decide (e = Released j) then 1 else 0) + busy (t1 !! j))%nat; [|lia].
  destruct (t !! j) as [q|], (t1 !! j) as [q1|]; cbn [step_at] in Hs.
  - by destruct Hs as (_ & _ & _ & Hb & _).
  - done.
  - destruct Hs as (-> & _ & Hb). rewrite Hb. by rewrite !decide_False by done.
  - destruct Hs. by rewrite !decide_False by done.
Qed.

Lemma perm_run_done t es t' j q :
  perm_run t es t' -> table_ok t -> t !! j = Some q -> done_phase (q_Continuation q) = true ->
  exists q', t' !! j = Some q' /\ q_Continuation q' = q_Continuation q /\ count (Claimed j) es = 0%nat.
Proof.
  intros Hr. revert q. induction Hr as [t|t e t1 es t2 Hst _ IH]; intros q Hok Hj Hd; [eauto|].
  pose proof (perm_step_at t e t1 j Hst Hok) as Hs. rewrite Hj in Hs.
  destruct (t1 !! j) as [q1|] eqn:Hj1; [|done]. destruct Hs as (_ & Hset & Hkeep & Hb & _).
  specialize (Hkeep Hd).
  destruct (IH q1 (perm_step_ok _ _ _ Hst Hok) eq_refl) as (q' & ? & ? & Hc); [by rewrite Hkeep|].
  exists q'. split_and!; [done|congruence|]. rewrite count_cons, Hc.
  destruct (decide (e = Claimed j)) as [->|]; [exfalso|done].
  rewrite decide_False in Hb by done.
  assert (q_Status q1 = q_Status q) as Hst1.
  { apply Hset. intros Hp. destruct (Hok _ _ Hj) as [_ Hw]. destruct (Hw Hp) as [E|E];
      rewrite E in Hd; done. }
  unfold busy in Hb. rewrite Hkeep, Hst1 in Hb. lia.
Qed.

Lemma perm_run_rows t es t' j q :
  perm_run t es t' -> table_ok t -> t !! j = Some q ->
  exists q', t' !! j = Some q' /\ same_terms q q' /\ (q_Status q <> StatusPending -> settled q q').
Proof.
  intros Hr. revert q. induction Hr as [t|t e t1 es t2 Hst _ IH]; intros q Hok Hj.
  { exists q. split; [done|]. by split. }
  pose proof (perm_step_at t e t1 j Hst Hok) as Hs. rewrite Hj in Hs.
  destruct (t1 !! j) as [q1|] eqn:Hj1; [|done]. destruct Hs as (Ht1 & Hset1 & _).
  destruct (IH q1 (perm_step_ok _ _ _ Hst Hok) eq_refl) as (q' & Hq' & Ht2 & Hset2).
  exists q'. split; [done|]. unfold same_terms, settled in *. split; [naive_solver congruence|].
  intros Hne. destruct (Hset1 Hne) as (E1 & E2 & E3). rewrite E1 in Hset2.
  destruct (Hset2 Hne) as (F1 & F2 & F3). split_and!; congruence.
Qed.

Lemma Transition_lookup t id target at_ auth q :
  t !! id = Some q -> q_Status q = StatusPending ->
  exists q', (TransitionPermissionRequest t id target at_ auth).2 !! id = Some q' /\
    q_Status q' = target /\ q_ResolvingAuthority q' = auth.
Proof.
  intros Hq Hs. unfold TransitionPermissionRequest, update_row. rewrite Hq, bool_decide_true by done.
  eexists. simpl. rewrite lookup_insert_eq. done.
Qed.

Lemma Get_ok t now id q t1 :
  table_ok t -> Get t now id = (Ok q, t1) -> t1 !! id = Some q.
Proof.
  intros Hok. unfold Get, load. destruct (blank id); [done|].
  destruct (t !! id) as [q0|] eqn:Hq0; [|done]. destruct (Hok _ _ Hq0) as [Hid _].
  unfold expireIfDue. destruct (_ || _); [by intros [= <- <-]|]. rewrite Hid.
  unfold transition. destruct (TransitionPermissionRequest _ _ _ _ _) as [c t']. unfold load.
  destruct (t' !! id) as [q1|] eqn:Hq1; simpl; [|done].
  destruct (_ && _); simpl; [rewrite Hq1|]; intros [= <- <-]; done.
Qed.

(** *** Listings *)

#[global] Instance row_before_total key : Total (row_before key).
Proof.
  intros a b. unfold row_before, row_le.
  pose proof (String.leb_total (q_ID a) (q_ID b)) as Hs.
  destruct (key a) as [x|], (key b) as [y|]; auto.
  destruct (text_le_total x y) as [H|H]; rewrite H; simpl.
  - destruct (text_le y x); simpl; [|auto]. by destruct Hs as [->| ->]; auto.
  - destruct (text_le x y); simpl; [|auto]. by destruct Hs as [->| ->]; auto.
Qed.

Lemma elem_of_select_rows t cond key q :
  q ∈ select_rows t cond key <-> exists id, t !! id = Some q /\ cond q = true.
Proof.
  unfold select_rows. rewrite merge_sort_Permutation, list_elem_of_In, filter_In, <- list_elem_of_In.
  rewrite list_elem_of_fmap. split.
  - intros [([id q'] & -> & Hin) Hc]. apply elem_of_map_to_list in Hin. eauto.
  - intros (id & Hid & Hc). split; [|done]. exists (id, q). split; [done|]. by apply elem_of_map_to_list.
Qed.

Lemma select_rows_sorted t cond key : Sorted (row_before key) (select_rows t cond key).
Proof. apply Sorted_merge_sort, _. Qed.

(** ** Properties *)

(** The work list is exactly what can be claimed.  In every reachable table
    a request is listed as ready if and only if claiming it now succeeds, the
    claim makes it running and takes it off the list, and the list is in the
    statement's order. *)
Theorem ready_list_is_claimable es t now id :
  perm_run ∅ es t ->
  (id ∈ map q_ID (ListReadyPermissionContinuations t) <->
   exists q, (ClaimContinuation t now id).1 = Ok q) /\
  (forall q, (ClaimContinuation t now id).1 = Ok q -> q_Continuation q = ContinuationRunning /\
     id ∉ map q_ID (ListReadyPermissionContinuations (ClaimContinuation t now id).2)) /\
  Sorted (row_before q_ResolvedAt) (ListReadyPermissionContinuations t).
Proof.
  intros Hr. destruct (perm_run_count ∅ es t id Hr) as [_ Hok]; [done|].
  pose proof (perm_step_ok _ _ _ (ps_claim t now id) Hok) as Hok'.
  assert (forall t0, table_ok t0 -> id ∈ map q_ID (ListReadyPermissionContinuations t0) <->
    exists q, t0 !! id = Some q /\ claimable q = true) as Hl.
  { intros t0 H0. unfold ListReadyPermissionContinuations. rewrite list_elem_of_fmap.
    setoid_rewrite elem_of_select_rows. split.
    - intros (q & -> & j & Hj & Hc). destruct (H0 _ _ Hj) as [<- _]. eauto.
    - intros (q & Hq & Hc). exists q. split; [by destruct (H0 _ _ Hq)|eauto]. }
  split_and!; [|intros q0|apply select_rows_sorted].
  all: rewrite Hl by done; clear Hl Hok'.
  all: unfold ClaimContinuation, ClaimPermissionContinuation, update_row, load.
  all: destruct (t !! id) as [q|] eqn:Hq;
    [|simpl; rewrite Hq; simpl; first [done | split; [by intros (? & ? & _)|by intros (? & ?)]]].
  all: destruct (claimable q) eqn:Hc; simpl; [rewrite lookup_insert_eq|rewrite Hq]; simpl.
  - split; eauto.
  - split; [intros (? & [= <-] & ?); congruence|by intros [? ?]].
  - intros [= <-]. split; [done|]. intros (q1 & Hq1 & H1). simpl in Hq1.
    rewrite ?lookup_insert_eq in Hq1. injection Hq1 as <-. unfold claimable in H1. simpl in H1. by rewrite !andb_false_r in H1.
  - done.
Qed.

(** C2: an approved action is executed at most once per release.  In every
    history of the table, from its creation on, the times the right to execute
    a request was handed out exceed the times it was given back by at most
    one; and once a continuation has succeeded or failed (which a restart
    makes of every interrupted one) it stays so and is never handed out again,
    whatever is done to the table. *)
Theorem permission_executes_once es t id :
  perm_run ∅ es t ->
  (count (Claimed id) es <= count (Released id) es + 1)%nat /\
  (forall q es' t', t !! id = Some q -> done_phase (q_Continuation q) = true -> perm_run t es' t' ->
     count (Claimed id) es' = 0%nat).
Proof.
  intros Hr. destruct (perm_run_count ∅ es t id Hr) as [Hc Hok]; [done|]. split.
  - rewrite lookup_empty in Hc. assert (busy (t !! id) <= 1)%nat; [|simpl in Hc; lia].
    unfold busy. repeat case_match; lia.
  - intros q es' t' Hq Hd Hr'. by destruct (perm_run_done t es' t' id q Hr' Hok Hq Hd) as (? & _ & _ & ?).
Qed.

(** A decision is final and a request's terms are fixed.  Whatever operation
    is applied, a stored request keeps its owner, doll, action, arguments and
    expiry, and once it is approved, denied, expired or cancelled it keeps
    that status, its time and its authority. *)
Theorem permission_final es t e t' id q :
  perm_run ∅ es t -> perm_step t e t' -> t !! id = Some q ->
  exists q', t' !! id = Some q' /\ same_terms q q' /\ (q_Status q <> StatusPending -> settled q q').
Proof.
  intros Hr Hst Hq. destruct (perm_run_count ∅ es t id Hr) as [_ Hok]; [done|].
  pose proof (perm_step_at t e t' id Hst Hok) as Hs. rewrite Hq in Hs.
  destruct (t' !! id) as [q'|]; [|done]. destruct Hs as (H1 & H2 & _). eauto.
Qed.

(** C17: approval needs the authenticated owner in time.  If a decision turns a
    pending request into an approved one, the acting identity was
    authenticated, is the request's own owner, is authorised for its doll, is
    recorded as the authority, and the clock was before the expiry; other
    operations between the look-up and the decision cannot change that. *)
Theorem approval_needs_owner es0 es t now now' between actor authorized id d q q' out t' :
  perm_run ∅ es0 t -> perm_run (Get t now id).2 es (between (Get t now id).2) ->
  Resolve t now now' between actor authorized id d = (out, t') ->
  between (Get t now id).2 !! id = Some q -> q_Status q = StatusPending ->
  t' !! id = Some q' -> q_Status q' = StatusApproved ->
  d = DecisionApprove /\ actor = Some (q_OwnerID q) /\ blank (q_OwnerID q) = false /\
  authorized (q_OwnerID q) (q_DollID q) = true /\ now' < q_ExpiresAt q /\
  q_ResolvingAuthority q' = TrimSpace (q_OwnerID q).
Proof.
  intros Hr0 Hrun HR Hq Hp Hq' Ha.
  destruct (perm_run_count ∅ es0 t id Hr0) as [_ Hok]; [done|].
  pose proof (perm_step_ok _ _ _ (ps_get t now id) Hok) as Hok1.
  destruct (perm_run_count _ _ _ id Hrun Hok1) as [_ Hokb].
  assert (Hearly : t' = (Get t now id).2 -> False).
  { intros ->. destruct (perm_run_rows _ _ _ _ _ Hrun Hok1 Hq') as (q2 & Hq2 & _ & Hset).
    destruct Hset as [Hs2 _]; congruence. }
  assert (Hnone : t' = t -> False).
  { intros ->. pose proof (run_cons _ _ _ _ _ (ps_get t now id) Hrun) as Hrun'.
    destruct (perm_run_rows _ _ _ _ _ Hrun' Hok Hq') as (q2 & Hq2 & _ & Hset).
    destruct Hset as [Hs2 _]; congruence. }
  unfold Resolve in HR. destruct (blank id || _); [exfalso; naive_solver|].
  destruct actor as [who|]; [|exfalso; naive_solver]. destruct (blank who) eqn:Hw; [exfalso; naive_solver|].
  destruct (Get t now id) as [[q0|] t1] eqn:HG; simpl in *; [|exfalso; naive_solver].
  pose proof (Get_ok _ _ _ _ _ Hok HG) as Hq0.
  destruct (perm_run_rows _ _ _ _ _ Hrun Hok1 Hq0) as (q2 & Hq2 & Hterms & _).
  rewrite Hq in Hq2. injection Hq2 as <-. destruct Hterms as (_ & Hdoll & Howner & _).
  destruct (bool_decide (q_Status q0 = StatusExpired)); [exfalso; naive_solver|].
  destruct (same_str who (q_OwnerID q0)) eqn:Hown; [|exfalso; naive_solver]. apply same_str_true in Hown.
  destruct (authorized who (q_DollID q0)) eqn:Hauth; [|exfalso; naive_solver]. simpl in HR.
  destruct (Hokb _ _ Hq) as [Hid _].
  assert (Hdec : forall target, t' = (resolve (between t1) now' id target who).2 ->
    target = StatusApproved /\ now' < q_ExpiresAt q /\ q_ResolvingAuthority q' = TrimSpace who).
  { intros target ->.
    destruct (resolve_table (between t1) now' id target who)
      as [E|[(q3 & Hq3 & Hp3 & _ & E)|(q3 & Hq3 & Hp3 & Hlt & _ & E)]]; rewrite E in Hq'.
    - congruence.
    - rewrite Hq in Hq3. injection Hq3 as <-. rewrite Hid in Hq'.
      destruct (Transition_lookup _ _ StatusExpired now' "" _ Hq Hp3) as (q4 & Hq4 & Hs4 & _). congruence.
    - rewrite Hq in Hq3. injection Hq3 as <-. rewrite Hid in Hq'.
      destruct (Transition_lookup _ _ target now' (TrimSpace who) _ Hq Hp3) as (q4 & Hq4 & Hs4 & Ha4).
      assert (q4 = q') as -> by congruence. split_and!; congruence || done. }
  rewrite Hown in *. rewrite Howner, Hdoll.
  destruct d; destruct (Hdec _ (f_equal snd (eq_sym HR))) as (Ht & Hlt & Hra); [|discriminate Ht..].
  by split_and!.
Qed.

(** ** A concrete request: created, approved by its owner, claimed, completed. *)

Definition demo_input : CreateRequest :=
  {| c_DollID := "doll"; c_OwnerID := "owner"; c_Origin := OriginVoluntary; c_Action := "take a picture";
     c_Question := ""; c_Capability := "camera"; c_Operation := "capture"; c_Arguments := "";
     c_ExpiresAt := 1000 * second;
     c_Correlation := {| CognitiveRunID := ""; SessionID := ""; TurnID := ""; ToolCallID := "";
                         IntentionID := "i1" |} |}.

Definition demo_policy : option (PolicyRequest nat -> PolicyResult) := Some (Evaluate Default).

Definition demo_created : table :=
  match Create (fun _ => None) demo_policy ∅ (10 * second) "p1" demo_input with
  | Ok (_, t) => t
  | Err _ => ∅
  end.
Definition demo_approved : table := (Approve demo_created (20 * second) "p1" "owner").2.
Definition demo_claimed : table := (ClaimContinuation demo_approved (30 * second) "p1").2.
Definition demo_completed : table := (CompleteContinuation demo_claimed (40 * second) "p1" true "{}").2.

Lemma demo_created_run : perm_run ∅ [Quiet] demo_created.
Proof.
  eapply run_cons; [|apply run_nil].
  eapply (ps_create (fun _ => None) demo_policy ∅ (10 * second) "p1" demo_input). reflexivity.
Qed.

Lemma demo_completed_run : perm_run ∅ [Quiet; Quiet; Claimed "p1"; Quiet] demo_completed.
Proof.
  eapply run_cons; [eapply (ps_create (fun _ => None) demo_policy ∅ (10 * second) "p1" demo_input);
                    reflexivity|].
  eapply run_cons; [apply (ps_approve _ (20 * second) "p1" "owner")|].
  eapply run_cons; [apply (ps_claim demo_approved (30 * second) "p1")|].
  eapply run_cons; [apply (ps_complete demo_claimed (40 * second) "p1" true "{}")|apply run_nil].
Qed.

Lemma permission_executes_once_witness :
  (count (Claimed "p1") [Quiet; Quiet; Claimed "p1"; Quiet] <= 1)%nat /\
  forall es t, perm_run demo_completed es t -> count (Claimed "p1") es = 0%nat.
Proof.
  destruct (permission_executes_once _ demo_completed "p1" demo_completed_run) as [H1 H2].
  split; [exact H1|]. intros es t Hr.
  destruct (demo_completed !! "p1") as [q|] eqn:E; [|vm_compute in E; discriminate].
  apply (H2 q es t eq_refl); [|exact Hr]. vm_compute in E. injection E as <-. reflexivity.
Defined.

Lemma ready_list_is_claimable_witness :
  "p1" ∈ map q_ID (ListReadyPermissionContinuations demo_approved) /\
  "p1" ∉ map q_ID (ListReadyPermissionContinuations demo_claimed).
Proof.
  destruct (ready_list_is_claimable [Quiet; Quiet] demo_approved (30 * second) "p1") as [H1 [H2 _]].
  { eapply run_cons; [eapply (ps_create (fun _ => None) demo_policy ∅ (10 * second) "p1" demo_input);
                      reflexivity|].
    eapply run_cons; [apply (ps_approve _ (20 * second) "p1" "owner")|apply run_nil]. }
  destruct (ClaimContinuation demo_approved (30 * second) "p1").1 as [q|] eqn:E;
    [|vm_compute in E; discriminate].
  split; [apply H1; eauto|]. by destruct (H2 q eq_refl).
Defined.

Lemma permission_final_witness :
  exists q', (CancelRequest demo_completed (50 * second) "p1").2 !! "p1" = Some q' /\
    q_Status q' = StatusApproved.
Proof.
  destruct (demo_completed !! "p1") as [q|] eqn:E; [|vm_compute in E; discriminate].
  destruct (permission_final _ demo_completed Quiet _ "p1" q demo_completed_run
    (ps_cancel demo_completed (50 * second) "p1") E) as (q' & Hq' & _ & Hs).
  exists q'. split; [exact Hq'|]. vm_compute in E. injection E as <-.
  destruct Hs as [Hs _]; [discriminate|exact Hs].
Defined.

Lemma approval_needs_owner_witness :
  exists out t', Resolve demo_created (15 * second) (20 * second) (fun t => t) (Some "owner")
    (fun _ _ => true) "p1" DecisionApprove = (out, t') /\ 20 * second < 1000 * second.
Proof.
  destruct (demo_created !! "p1") as [q|] eqn:E; [|vm_compute in E; discriminate].
  destruct (Resolve demo_created (15 * second) (20 * second) (fun t => t) (Some "owner")
    (fun _ _ => true) "p1" DecisionApprove) as [out t'] eqn:ER.
  exists out, t'. split; [reflexivity|].
  destruct (t' !! "p1") as [q'|] eqn:E'; cycle 1.
  { vm_compute in ER. injection ER as <- <-. vm_compute in E'. discriminate. }
  pose proof (approval_needs_owner [Quiet] [] demo_created (15 * second) (20 * second) (fun t => t)
    (Some "owner") (fun _ _ => true) "p1" DecisionApprove q q' out t' demo_created_run
    (run_nil _) ER) as H.
  assert ((Get demo_created (15 * second) "p1").2 !! "p1" = Some q) as Hg.
  { rewrite <- E. vm_compute. reflexivity. }
  assert (q_Status q = StatusPending /\ q_ExpiresAt q = 1000 * second) as [Hs Hx].
  { vm_compute in E. injection E as <-. split; reflexivity. }
  assert (q_Status q' = StatusApproved) as Hs'.
  { vm_compute in ER. injection ER as <- <-. vm_compute in E'. injection E' as <-. reflexivity. }
  destruct (H Hg Hs E' Hs') as (_ & _ & _ & _ & Hlt & _). rewrite Hx in Hlt. exact Hlt.
Defined.

(** The notification lease is compared as text.  Between different seconds
    the comparison is chronological, but within a second it is not: a lease
    that runs until half past a second counts as expired at the start of that
    second, so a second worker can claim a notification that the first still
    holds. *)
Theorem lease_compared_as_text :
  (forall a b, a / second <> b / second -> text_le a b = (a <=? b)) /\
  (exists q1 t1 q2 t2,
     ClaimOutcomeNotification demo_completed (50 * second) "p1" (3 * second / 2) = (Ok q1, t1) /\
     q_LeaseUntil q1 = Some (50 * second + 3 * second / 2) /\
     51 * second < 50 * second + 3 * second / 2 /\
     ClaimOutcomeNotification t1 (51 * second) "p1" (3 * second / 2) = (Ok q2, t2)).
Proof.
  split.
  - intros a b Hne. unfold text_le. rewrite (proj2 (Z.eqb_neq _ _)) by done.
    unfold second in *. pose proof (Z.div_mod a 1000000000). pose proof (Z.div_mod b 1000000000).
    pose proof (Z.mod_pos_bound a 1000000000). pose proof (Z.mod_pos_bound b 1000000000).
    destruct (a / 1000000000 <? b / 1000000000) eqn:E; bool_props; symmetry.
    + apply Z.leb_le. lia.
    + apply Z.leb_gt. lia.
  - eexists _, _, _, _. split; [vm_compute; reflexivity|]. split; [vm_compute; reflexivity|].
    split; [vm_compute; reflexivity|]. vm_compute. reflexivity.
Qed.
