(* ===== verification/Recovery.v ===== *)
(** * Body path selection and recovery

    Models [src/Body/recovery_epoch.go] (who may commit a new WireGuard path),
    [src/Body/path_select.go] (trying the paths in order) and
    [src/Body/recovery.go] (a recovery attempt).  Tunnels are named by numbers,
    the pointers of the source; [None] is nil.  What a tunnel does (start,
    handshake, stop) is WireGuard's: each attempt's outcome is a parameter, and
    the calls made are recorded as effects.  Every method of the epoch holds its
    mutex, so it is one function on the epoch. *)
From S2P Require Import Prelude.
From stdpp Require Import options.

Abbreviation tunnel := (option nat) (only parsing).

(** ** The epoch *)

Record RecoveryEpoch := {
  gen : Z;
  active : tunnel;
  committed : bool;
  pendingRecovery : tunnel;
  e_closed : bool;
}.

Definition NewRecoveryEpoch (initial : tunnel) : RecoveryEpoch :=
  {| gen := 0; active := initial; committed := false; pendingRecovery := None; e_closed := false |}.

Definition NextGen (e : RecoveryEpoch) : Z * RecoveryEpoch :=
  if e_closed e then (0, e)
  else let g := u64 (gen e + 1) in
       (g, {| gen := g; active := active e; committed := false;
              pendingRecovery := pendingRecovery e; e_closed := e_closed e |}).

Definition NextGenForTunnel (e : RecoveryEpoch) (old : tunnel) : Z * RecoveryEpoch :=
  if e_closed e then (0, e)
  else if negb (bool_decide (active e = None)) && negb (bool_decide (active e = old)) then (0, e)
  else if negb (bool_decide (pendingRecovery e = None)) && bool_decide (pendingRecovery e = old)
  then (0, e)
  else let g := u64 (gen e + 1) in
       (g, {| gen := g; active := active e; committed := false; pendingRecovery := old;
              e_closed := e_closed e |}).

Definition set_pending (e : RecoveryEpoch) (p : tunnel) : RecoveryEpoch :=
  {| gen := gen e; active := active e; committed := committed e; pendingRecovery := p;
     e_closed := e_closed e |}.

Definition TryCommit (e : RecoveryEpoch) (g : Z) (candidate : tunnel) : bool * RecoveryEpoch :=
  if e_closed e || negb (g =? gen e) || committed e then
    (false, if g =? gen e then set_pending e None else e)
  else
    (true, {| gen := gen e; active := candidate; committed := true; pendingRecovery := None;
              e_closed := e_closed e |}).

Definition TryCancel (e : RecoveryEpoch) (g : Z) : RecoveryEpoch :=
  if negb (e_closed e) && (g =? gen e) then set_pending e None else e.

Definition IsCurrent (e : RecoveryEpoch) (g : Z) : bool := negb (e_closed e) && (g =? gen e).

Definition TryReserveMigration (e : RecoveryEpoch) (g : Z) : bool :=
  if e_closed e then false else if negb (g =? gen e) then false else true.

Definition IsRecovering (e : RecoveryEpoch) : bool := negb (bool_decide (pendingRecovery e = None)).

(** The stopped tunnel, if any, and the epoch after. *)
Definition Shutdown (e : RecoveryEpoch) : tunnel * RecoveryEpoch :=
  (active e, {| gen := gen e; active := None; committed := committed e;
                pendingRecovery := pendingRecovery e; e_closed := true |}).

(** *** Interleavings: any sequence of calls, with what each reported *)

Inductive call :=
| CNextGen | CNextGenForTunnel (old : tunnel) | CTryCommit (g : Z) (candidate : tunnel)
| CTryCancel (g : Z) | CShutdown.

Inductive report := Generation (g : Z) | CommittedTo (g : Z) (candidate : tunnel) | Refused.

Definition perform (e : RecoveryEpoch) (c : call) : report * RecoveryEpoch :=
  match c with
  | CNextGen => let '(g, e') := NextGen e in (Generation g, e')
  | CNextGenForTunnel old => let '(g, e') := NextGenForTunnel e old in (Generation g, e')
  | CTryCommit g cand =>
      let '(ok, e') := TryCommit e g cand in (if ok then CommittedTo g cand else Refused, e')
  | CTryCancel g => (Refused, TryCancel e g)
  | CShutdown => (Refused, (Shutdown e).2)
  end.

Fixpoint perform_all (e : RecoveryEpoch) (cs : list call) : list report * RecoveryEpoch :=
  match cs with
  | [] => ([], e)
  | c :: rest =>
      let '(r, e1) := perform e c in
      let '(rs, e2) := perform_all e1 rest in (r :: rs, e2)
  end.

Fixpoint commits (rs : list report) : list Z :=
  match rs with
  | [] => []
  | CommittedTo g _ :: rest => g :: commits rest
  | _ :: rest => commits rest
  end.

(** ** Path selection *)

Inductive path := Direct | RelayUDP | RelayWSS.

#[global] Instance path_eq_dec : EqDecision path.
Proof. solve_decision. Defined.

Inductive attempt := StartFailed | HandshakeFailed | HandshakeDone.

#[global] Instance attempt_eq_dec : EqDecision attempt.
Proof. solve_decision. Defined.

Inductive effect :=
| Started (p : path) | Stopped (p : path) | BindOpened | BindClosed | OldStopped.

#[global] Instance effect_eq_dec : EqDecision effect.
Proof. solve_decision. Defined.

Record PathSelectorConfig := {
  DirectEndpoint : string; RelayWGUDPEndpoint : string; RelayWSSURL : string;
}.

Inductive path_error :=
| ErrAllPathsFailed (attempted : list path) | ErrPathCancelled | ErrEpochClosed
| ErrRecoverySuperseded | StopFailed.

#[global] Instance path_error_eq_dec : EqDecision path_error.
Proof. solve_decision. Defined.

Definition endpoint (cfg : PathSelectorConfig) (p : path) : string :=
  match p with
  | Direct => DirectEndpoint cfg
  | RelayUDP => RelayWGUDPEndpoint cfg
  | RelayWSS => RelayWSSURL cfg
  end.

Section select.
(** How each attempt goes, and whether the context is cancelled after it. *)
Context (outcome : path -> attempt) (cancelled : path -> bool).

(** The effects of a failed attempt, cleaned up. *)
Definition failed_effects (p : path) : list effect :=
  match p, outcome p with
  | RelayWSS, StartFailed => [BindOpened; BindClosed]
  | RelayWSS, _ => [BindOpened; Started RelayWSS; Stopped RelayWSS; BindClosed]
  | _, StartFailed => []
  | _, _ => [Started p; Stopped p]
  end.

Definition won_effects (p : path) : list effect :=
  match p with RelayWSS => [BindOpened; Started RelayWSS] | _ => [Started p] end.

(** The three sections of [SelectInitialPath], in order; [tried] accumulates
    the attempted paths and [fx] the effects. *)
Fixpoint select_from (cfg : PathSelectorConfig) (ps : list path) (tried : list path)
    (fx : list effect) : res path_error path * list effect :=
  match ps with
  | [] => (Err (ErrAllPathsFailed tried), fx)
  | p :: rest =>
      if empty_str (endpoint cfg p) then select_from cfg rest tried fx
      else match outcome p with
           | HandshakeDone => (Ok p, fx ++ won_effects p)
           | _ =>
               if cancelled p then (Err ErrPathCancelled, fx ++ failed_effects p)
               else select_from cfg rest (tried ++ [p]) (fx ++ failed_effects p)
           end
  end.

Definition SelectInitialPath (cfg : PathSelectorConfig) : res path_error path * list effect :=
  select_from cfg [Direct; RelayUDP; RelayWSS] [] [].

(** ** A recovery attempt

    [name] gives the selected path's tunnel its identity; [meanwhile] is what
    other goroutines do to the epoch while the path is selected; [stops] is
    whether the old tunnel stops cleanly. *)
Definition RecoverPath (name : path -> nat) (meanwhile : RecoveryEpoch -> RecoveryEpoch)
    (stops : bool) (old : tunnel) (cfg : PathSelectorConfig) (e : RecoveryEpoch)
    : (res path_error path * list effect) * RecoveryEpoch :=
  let '(g, e1) := NextGenForTunnel e old in
  if g =? 0 then ((Err ErrEpochClosed, []), e1)
  else if negb stops then ((Err StopFailed, [OldStopped]), TryCancel (meanwhile e1) g)
  else
    let '(result, fx) := SelectInitialPath cfg in
    match result with
    | Err err => ((Err err, OldStopped :: fx), TryCancel (meanwhile e1) g)
    | Ok p =>
        let '(ok, e2) := TryCommit (meanwhile e1) g (Some (name p)) in
        if negb ok then
          ((Err ErrRecoverySuperseded,
            OldStopped :: fx ++ [Stopped p] ++ (match p with RelayWSS => [BindClosed] | _ => [] end)), e2)
        else ((Ok p, OldStopped :: fx), e2)
    end.
End select.

(** ** Lemmas *)

Definition commits_ok (e : RecoveryEpoch) (done : list Z) : Prop :=
  NoDup done /\ (forall g, g ∈ done -> g <= gen e) /\ (gen e ∈ done -> committed e = true).

Lemma NextGenForTunnel_cases e old :
  NextGenForTunnel e old = (0, e) \/
  NextGenForTunnel e old =
    (u64 (gen e + 1), {| gen := u64 (gen e + 1); active := active e; committed := false;
                         pendingRecovery := old; e_closed := e_closed e |}).
Proof. unfold NextGenForTunnel. repeat case_match; auto. Qed.

Lemma perform_gen e c : 0 <= gen e < 2 ^ 64 - 1 ->
  gen e <= gen (perform e c).2 <= gen e + 1.
Proof.
  intros Hg. destruct c; simpl.
  - unfold NextGen. destruct (e_closed e); simpl; [lia|]. rewrite u64_small; lia.
  - destruct (NextGenForTunnel_cases e old) as [-> | ->]; simpl; [lia|]. rewrite u64_small; lia.
  - unfold TryCommit. destruct (e_closed e || negb (g =? gen e) || committed e); simpl;
      [case_match; simpl; lia|lia].
  - unfold TryCancel. case_match; simpl; lia.
  - lia.
Qed.

Lemma perform_commits e c done :
  0 <= gen e < 2 ^ 64 - 1 -> commits_ok e done ->
  commits_ok (perform e c).2 (done ++ commits [(perform e c).1]).
Proof.
  intros Hg (Hnd & Hle & Hcur). unfold commits_ok.
  assert (Hbump : NoDup (done ++ []) /\ (forall g, g ∈ done ++ [] -> g <= gen e + 1) /\
                  (gen e + 1 ∈ done ++ [] -> false = true)).
  { rewrite app_nil_r. split_and!; [done|intros g ?%Hle; lia|intros ?%Hle; lia]. }
  assert (Hsame : NoDup (done ++ []) /\ (forall g, g ∈ done ++ [] -> g <= gen e) /\
                  (gen e ∈ done ++ [] -> committed e = true)) by (by rewrite app_nil_r).
  destruct c; simpl.
  - unfold NextGen. destruct (e_closed e); simpl; [done|]. by rewrite u64_small by lia.
  - destruct (NextGenForTunnel_cases e old) as [-> | ->]; simpl; [done|]. by rewrite u64_small by lia.
  - unfold TryCommit.
    destruct (e_closed e || negb (g =? gen e) || committed e) eqn:E; simpl; [by case_match|].
    bool_props. subst. split_and!.
    + apply NoDup_app. split_and!; [done| |apply NoDup_singleton].
      intros x Hx Hin%list_elem_of_singleton. subst. apply Hcur in Hx. congruence.
    + intros x. rewrite elem_of_app, list_elem_of_singleton. intros [?%Hle | ->]; lia.
    + done.
  - unfold TryCancel. by case_match.
  - done.
Qed.

Lemma commits_app rs rs' : commits (rs ++ rs') = commits rs ++ commits rs'.
Proof. induction rs as [|[]]; simpl; congruence. Qed.

Lemma commits_cons r rs : commits (r :: rs) = commits [r] ++ commits rs.
Proof. apply (commits_app [r]). Qed.

Lemma perform_all_commits cs e done :
  0 <= gen e -> gen e + len cs < 2 ^ 64 - 1 -> commits_ok e done ->
  commits_ok (perform_all e cs).2 (done ++ commits (perform_all e cs).1).
Proof.
  revert e done. induction cs as [|c cs IH]; intros e done H0 Hl Hok; simpl.
  { by rewrite app_nil_r. }
  unfold len in *. simpl in Hl.
  pose proof (perform_gen e c ltac:(lia)) as Hg. pose proof (perform_commits e c done ltac:(lia) Hok) as H1.
  destruct (perform e c) as [r e1]. cbn [fst snd] in Hg, H1.
  specialize (IH e1 _ ltac:(lia) ltac:(lia) H1). destruct (perform_all e1 cs) as [rs e2]. cbn [fst snd] in *.
  rewrite <- app_assoc, <- commits_app in IH. exact IH.
Qed.

Lemma perform_closed e c : e_closed e = true ->
  e_closed (perform e c).2 = true /\ commits [(perform e c).1] = [] /\
  active (perform e c).2 = match c with CShutdown => None | _ => active e end.
Proof.
  intros Hc. destruct c; simpl.
  - unfold NextGen. by rewrite Hc.
  - unfold NextGenForTunnel. by rewrite Hc.
  - unfold TryCommit. rewrite Hc. simpl. by case_match.
  - unfold TryCancel. by rewrite Hc.
  - done.
Qed.

Lemma perform_all_closed cs e : e_closed e = true -> active e = None ->
  commits (perform_all e cs).1 = [] /\ active (perform_all e cs).2 = None.
Proof.
  revert e. induction cs as [|c cs IH]; intros e Hc Ha; [done|]. cbn [perform_all].
  destruct (perform_closed e c Hc) as (H1 & H2 & H3).
  destruct (perform e c) as [r e1]. cbn [fst snd] in *.
  destruct (IH e1) as [H4 H5]; [done|rewrite H3; by destruct c|].
  destruct (perform_all e1 cs) as [rs e2]. cbn [fst snd] in *.
  by rewrite commits_cons, H2, H4.
Qed.

Lemma perform_all_app e cs cs' :
  perform_all e (cs ++ cs') =
  ((perform_all e cs).1 ++ (perform_all (perform_all e cs).2 cs').1,
   (perform_all (perform_all e cs).2 cs').2).
Proof.
  revert e. induction cs as [|c cs IH]; intros e; simpl; [by destruct (perform_all e cs')|].
  destruct (perform e c) as [r e1]. rewrite IH. by destruct (perform_all e1 cs).
Qed.

Lemma perform_all_gen cs e : 0 <= gen e -> gen e + len cs < 2 ^ 64 - 1 ->
  gen e <= gen (perform_all e cs).2 <= gen e + len cs.
Proof.
  revert e. unfold len. induction cs as [|c cs IH]; intros e H0 Hl; simpl; [lia|]. simpl in Hl.
  pose proof (perform_gen e c ltac:(lia)) as Hg. destruct (perform e c) as [r e1]. simpl in Hg.
  specialize (IH e1 ltac:(lia) ltac:(lia)). destruct (perform_all e1 cs). simpl in *. lia.
Qed.

(** Only the current generation commits, and the current generation only grows. *)
Lemma stale_never_commits cs e g : 0 <= g < gen e -> gen e + len cs < 2 ^ 64 - 1 ->
  g ∉ commits (perform_all e cs).1.
Proof.
  revert e. unfold len. induction cs as [|c cs IH]; intros e Hg Hl; [apply not_elem_of_nil|].
  cbn [length perform_all] in *. pose proof (perform_gen e c ltac:(lia)) as Hgen.
  assert (g ∉ commits [(perform e c).1]) as H1.
  { destruct c; simpl; try (by apply not_elem_of_nil).
    - destruct (NextGen e); apply not_elem_of_nil.
    - destruct (NextGenForTunnel e old); apply not_elem_of_nil.
    - unfold TryCommit. destruct (e_closed e || negb (g0 =? gen e) || committed e) eqn:E; simpl;
        [apply not_elem_of_nil|]. bool_props. rewrite list_elem_of_singleton. lia. }
  destruct (perform e c) as [r e1]. cbn [fst snd] in Hgen, H1.
  specialize (IH e1 ltac:(lia) ltac:(lia)). destruct (perform_all e1 cs) as [rs e2]. cbn [fst snd] in *.
  rewrite commits_cons, elem_of_app. naive_solver.
Qed.

(** The selector on the rest of the list. *)
Lemma select_from_spec outcome cancelled cfg ps tried fx :
  match select_from outcome cancelled cfg ps tried fx with
  | (Ok p, fx') => exists before after, ps = before ++ p :: after /\ endpoint cfg p <> "" /\
      outcome p = HandshakeDone /\
      Forall (fun q => endpoint cfg q = "" \/ (outcome q <> HandshakeDone /\ cancelled q = false)) before /\
      fx' = fx ++ mjoin (map (fun q => if empty_str (endpoint cfg q) then [] else
                                        failed_effects outcome q) before) ++ won_effects p
  | (Err _, fx') => exists before after, ps = before ++ after /\
      Forall (fun q => endpoint cfg q = "" \/ outcome q <> HandshakeDone) before /\
      fx' = fx ++ mjoin (map (fun q => if empty_str (endpoint cfg q) then [] else
                                        failed_effects outcome q) before)
  end.
Proof.
  revert tried fx. induction ps as [|p ps IH]; intros tried fx; simpl.
  { exists [], []. simpl. rewrite app_nil_r. split_and!; [done|constructor|done]. }
  destruct (empty_str (endpoint cfg p)) eqn:He.
  { specialize (IH tried fx). apply empty_str_true in He as He'.
    destruct (select_from _ _ _ _ _ _) as [[q|] fx'].
    - destruct IH as (b & a & -> & ? & ? & ? & ->). exists (p :: b), a. simpl. rewrite He.
      split_and!; try done. constructor; auto.
    - destruct IH as (b & a & -> & ? & ->). exists (p :: b), a. simpl. rewrite He.
      split_and!; try done. constructor; auto. }
  apply empty_str_false in He as He'.
  destruct (decide (outcome p = HandshakeDone)) as [Ho|Ho].
  { rewrite Ho. exists [], ps. simpl. split_and!; done. }
  assert (forall (A : Type) (x y : A), match outcome p with HandshakeDone => x | _ => y end = y) as ->
    by (intros; destruct (outcome p); done).
  destruct (cancelled p) eqn:Hc.
  { exists [p], ps. simpl. rewrite He, app_nil_r. split_and!; [done| |done]. constructor; auto. }
  specialize (IH (tried ++ [p]) (fx ++ failed_effects outcome p)).
  destruct (select_from _ _ _ _ _ _) as [[q|] fx'].
  - destruct IH as (b & a & -> & ? & ? & ? & ->). exists (p :: b), a. simpl. rewrite He.
    split_and!; try done; [constructor; auto|by rewrite <- !app_assoc].
  - destruct IH as (b & a & -> & ? & ->). exists (p :: b), a. simpl. rewrite He.
    split_and!; try done; [constructor; auto|by rewrite <- !app_assoc].
Qed.

(** Tunnels of a path, and WSS binds, left open by a list of effects. *)
Definition running (p : path) (fx : list effect) : Z :=
  len (filter (fun x => x = Started p) fx) - len (filter (fun x => x = Stopped p) fx).
Definition open_binds (fx : list effect) : Z :=
  len (filter (fun x => x = BindOpened) fx) - len (filter (fun x => x = BindClosed) fx).

Lemma running_app p fx fx' : running p (fx ++ fx') = running p fx + running p fx'.
Proof. unfold running. rewrite !filter_app, !len_app. lia. Qed.

Lemma running_old p fx : running p (OldStopped :: fx) = running p fx.
Proof. reflexivity. Qed.

Lemma open_binds_old fx : open_binds (OldStopped :: fx) = open_binds fx.
Proof. reflexivity. Qed.

Lemma open_binds_app fx fx' : open_binds (fx ++ fx') = open_binds fx + open_binds fx'.
Proof. unfold open_binds. rewrite !filter_app, !len_app. lia. Qed.

Lemma failed_effects_clean outcome p q :
  running q (failed_effects outcome p) = 0 /\ open_binds (failed_effects outcome p) = 0.
Proof. unfold failed_effects. destruct p, q, (outcome _); split; reflexivity. Qed.

Lemma skipped_clean outcome cfg q ps :
  let fx := mjoin (map (fun q => if empty_str (endpoint cfg q) then [] else
                                   failed_effects outcome q) ps) in
  running q fx = 0 /\ open_binds fx = 0.
Proof.
  induction ps as [|p ps [IH1 IH2]]; [done|]. cbn [map mjoin list_join].
  rewrite running_app, open_binds_app. destruct (failed_effects_clean outcome p q) as [H1 H2].
  destruct (empty_str (endpoint cfg p)); [done|]. rewrite H1, H2. done.
Qed.

Lemma won_effects_running p q :
  running q (won_effects p) = (if decide (q = p) then 1 else 0) /\
  open_binds (won_effects p) = (if decide (p = RelayWSS) then 1 else 0).
Proof. destruct p, q; split; reflexivity. Qed.

Lemma select_effects outcome cancelled cfg q :
  let out := SelectInitialPath outcome cancelled cfg in
  running q out.2 = (if decide (out.1 = Ok q) then 1 else 0) /\
  open_binds out.2 = (if decide (out.1 = Ok RelayWSS) then 1 else 0).
Proof.
  unfold SelectInitialPath.
  pose proof (select_from_spec outcome cancelled cfg [Direct; RelayUDP; RelayWSS] [] []) as Hs.
  destruct (select_from _ _ _ _ _ _) as [[p|e] fx]; simpl.
  - destruct Hs as (b & a & _ & _ & _ & _ & ->). simpl. rewrite running_app, open_binds_app.
    destruct (skipped_clean outcome cfg q b) as [-> ->], (won_effects_running p q) as [-> ->].
    repeat case_decide; naive_solver.
  - destruct Hs as (b & a & _ & _ & ->). simpl.
    destruct (skipped_clean outcome cfg q b) as [-> ->]. by repeat case_decide.
Qed.

(** ** Properties *)

(** C19: a generation commits at most once and a superseded one never: in any
    interleaving of calls on an epoch (shorter than the generation counter's
    range), no generation is reported committed twice, from any point on a
    generation older than the current one is never committed, and after a
    shutdown nothing is committed and no tunnel is active. *)
Theorem one_commit_per_generation initial before after :
  len before + len after < 2 ^ 64 - 1 ->
  let e := (perform_all (NewRecoveryEpoch initial) before).2 in
  NoDup (commits (perform_all (NewRecoveryEpoch initial) (before ++ after)).1) /\
  (forall g, 0 <= g < gen e -> g ∉ commits (perform_all e after).1) /\
  (commits (perform_all (Shutdown e).2 after).1 = [] /\
   active (perform_all (Shutdown e).2 after).2 = None).
Proof.
  intros Hl e. pose proof (len_nonneg before). pose proof (len_nonneg after). split_and!.
  - pose proof (perform_all_commits (before ++ after) (NewRecoveryEpoch initial) []) as Hc.
    rewrite len_app in Hc. simpl gen in Hc. destruct Hc as [Hnd _]; [lia|lia| |exact Hnd].
    split_and!; [constructor|set_solver|set_solver].
  - intros g Hg. apply stale_never_commits; [done|].
    pose proof (perform_all_gen before (NewRecoveryEpoch initial)) as Hgen. simpl gen in Hgen.
    fold e in Hgen. lia.
  - by apply perform_all_closed.
  - by apply perform_all_closed.
Qed.

(** The selector picks the first path that works and cleans up the others:
    a selected path is configured and completed its handshake, every earlier
    configured path was tried and failed without the context being cancelled,
    and exactly the selected tunnel (and its WSS bind) is left open; when
    nothing is selected, nothing is left open. *)
Theorem select_first_working outcome cancelled cfg :
  let out := SelectInitialPath outcome cancelled cfg in
  (forall q, running q out.2 = if decide (out.1 = Ok q) then 1 else 0) /\
  (open_binds out.2 = if decide (out.1 = Ok RelayWSS) then 1 else 0) /\
  (forall p, out.1 = Ok p -> exists earlier later,
     [Direct; RelayUDP; RelayWSS] = earlier ++ p :: later /\
     endpoint cfg p <> "" /\ outcome p = HandshakeDone /\
     Forall (fun q => endpoint cfg q = "" \/ (outcome q <> HandshakeDone /\ cancelled q = false)) earlier).
Proof.
  split; [intros q; by apply select_effects|]. split; [by apply (select_effects _ _ _ Direct)|].
  intros p. unfold SelectInitialPath.
  pose proof (select_from_spec outcome cancelled cfg [Direct; RelayUDP; RelayWSS] [] []) as Hs.
  destruct (select_from _ _ _ _ _ _) as [[p'|e] fx]; [|done]. simpl. intros [= ->].
  destruct Hs as (b & a & ? & ? & ? & ? & _). exists b, a. by split_and!.
Qed.

(** A recovery attempt leaks nothing and never overrides a newer one: it
    returns a path only when its tunnel has become the epoch's active tunnel
    under its own generation, after the old tunnel was stopped; in every other case no tunnel or bind it opened
    is left running, whatever happened to the epoch in the meantime. *)
Theorem recovery_leaks_nothing outcome cancelled name meanwhile stops old cfg e :
  let '((result, fx), e') := RecoverPath outcome cancelled name meanwhile stops old cfg e in
  match result with
  | Ok p => active e' = Some (name p) /\ committed e' = true /\ e_closed e' = false /\
            (forall q, running q fx = if decide (q = p) then 1 else 0) /\
            open_binds fx = (if decide (p = RelayWSS) then 1 else 0) /\
            head fx = Some OldStopped /\ gen e' = (NextGenForTunnel e old).1
  | Err _ => (forall q, running q fx = 0) /\ open_binds fx = 0
  end.
Proof.
  unfold RecoverPath. destruct (NextGenForTunnel e old) as [g e1] eqn:Eg.
  destruct (g =? 0); [done|]. destruct stops; [|done]. simpl negb. cbn match.
  pose proof (select_effects outcome cancelled cfg) as Hs.
  destruct (SelectInitialPath outcome cancelled cfg) as [[p|err] fx]; cbn [fst snd] in Hs; cycle 1.
  { setoid_rewrite running_old. rewrite open_binds_old. split; [intros q; destruct (Hs q) as [-> _]|destruct (Hs Direct) as [_ ->]]; by rewrite decide_False. }
  unfold TryCommit. set (em := meanwhile e1).
  destruct (e_closed em || negb (g =? gen em) || committed em) eqn:E; simpl negb; cbn match.
  - rewrite open_binds_old. split.
    + intros q. rewrite running_old, !running_app. destruct (Hs q) as [-> _].
      destruct (decide (q = p)) as [->|Hne].
      * rewrite decide_True by done. by destruct p.
      * rewrite decide_False by naive_solver. destruct p, q; done.
    + rewrite !open_binds_app. destruct (Hs p) as [_ ->].
      destruct p; [rewrite decide_False by done..|rewrite decide_True by done]; done.
  - bool_props. split_and!; try done.
    + intros q. rewrite running_old. destruct (Hs q) as [-> _]. repeat case_decide; naive_solver.
    + rewrite open_binds_old. destruct (Hs p) as [_ ->]. repeat case_decide; naive_solver.
Qed.

Definition demo_calls : list call := [CNextGenForTunnel (Some 1%nat); CTryCommit 1 (Some 2%nat)].

Lemma one_commit_per_generation_witness :
  0 ∉ commits (perform_all (perform_all (NewRecoveryEpoch (Some 1%nat)) demo_calls).2
                 [CTryCommit 0 (Some 3%nat)]).1.
Proof.
  apply (one_commit_per_generation (Some 1%nat) demo_calls [CTryCommit 0 (Some 3%nat)]);
    [vm_compute; reflexivity|vm_compute; split; [discriminate|reflexivity]].
Defined.
