(* ===== verification/Peer.v ===== *)
(** * Peers: identity evidence, allegiance and portable authority

    Core/Peer: who a recognised Peer is (identity.go), which Peer is the Primary
    one (relationship.go), what a Peer may decide for a doll (authority.go), the
    doll's own description of a relationship (description.go) and the import of
    a legacy owner (compatibility.go).  Everything here is a pure function of a
    portable history, so the histories are lists in the order a document lists
    them and the functions replay them.

    The string types of the source stay strings, since imported documents may
    hold any text.  An error wrapping a sentinel is identified with the
    sentinel.  [sort.Slice] is a comparison sort, modelled by merge sort; where
    two records compare equal they share their identifier, and the replay
    refuses every arrangement of such records. *)
From S2P Require Import Prelude GoStrings.

(** ** Identity *)

Definition SchemaVersion : Z := 1.

Inductive peer_error :=
| ErrInvalidIdentity | ErrInvalidRelationship | ErrInvalidDecision | ErrInsufficientAssurance.

#[global] Instance peer_error_eq_dec : EqDecision peer_error.
Proof. solve_decision. Defined.

Definition validID (id : string) : bool := negb (blank id).

Record Identity := { id_SchemaVersion : Z; id_ID : string; id_CreatedAt : time }.

Definition Identity_Validate (i : Identity) : res peer_error unit :=
  refuse negb (id_SchemaVersion i =? SchemaVersion) || negb (validID (id_ID i)) || IsZero (id_CreatedAt i)
    with ErrInvalidIdentity;
  Ok tt.

Record Claim := { cl_Namespace : string; cl_Subject : string; cl_DisplayName : string }.

Record TransportEvidence := {
  te_EvidenceID : string;
  te_GatewayInstance : string;
  te_Transport : string;
  te_AccountNamespace : string;
  te_AccountSubject : string;
  te_DeviceID : string;
  te_Method : string;
  te_AuthenticatedAt : time;
  te_FreshUntil : option time;
}.

Definition AssuranceNone := "none".
Definition AssuranceAccount := "authenticated_account".
Definition AssuranceReverified := "reverified".

Definition rank (a : string) : Z :=
  if same_str a AssuranceNone then 0
  else if same_str a AssuranceAccount then 1
  else if same_str a AssuranceReverified then 2
  else -1.

Record Verification := {
  vf_Method : string;
  vf_Scope : list string;
  vf_Assurance : string;
  vf_VerifiedAt : time;
  vf_FreshUntil : option time;
  vf_Provenance : string;
}.

Record Binding := {
  bi_SchemaVersion : Z;
  bi_BindingID : string;
  bi_PeerID : string;
  bi_Claim : Claim;
  bi_Evidence : TransportEvidence;
  bi_Verification : Verification;
  bi_RevokedAt : option time;
}.

(** [t != nil && !t.After(u)]: a limit that is set and not later than [u]. *)
Definition ended (t : option time) (u : time) : bool :=
  match t with Some x => negb (After x u) | None => false end.

Definition Binding_Validate (b : Binding) : res peer_error unit :=
  let e := bi_Evidence b in
  let v := bi_Verification b in
  refuse negb (bi_SchemaVersion b =? SchemaVersion) || blank (bi_BindingID b) || negb (validID (bi_PeerID b)) ||
    blank (cl_Namespace (bi_Claim b)) || blank (cl_Subject (bi_Claim b)) ||
    blank (te_EvidenceID e) || blank (te_Transport e) || blank (te_Method e) || IsZero (te_AuthenticatedAt e) ||
    blank (vf_Method v) || blank (vf_Provenance v) || IsZero (vf_VerifiedAt v) || (rank (vf_Assurance v) <? 0)
    with ErrInvalidIdentity;
  refuse ended (te_FreshUntil e) (te_AuthenticatedAt e) with ErrInvalidIdentity;
  refuse ended (vf_FreshUntil v) (vf_VerifiedAt v) with ErrInvalidIdentity;
  refuse len (vf_Scope v) =? 0 with ErrInvalidIdentity;
  refuse existsb blank (vf_Scope v) with ErrInvalidIdentity;
  Ok tt.

Definition AuthorizesEvidence (b : Binding) (at_ : time) (scope required : string) : bool :=
  let e := bi_Evidence b in
  let v := bi_Verification b in
  if negb (is_ok (Binding_Validate b)) || IsZero at_ || blank scope || (rank required <? 0) ||
     ended (bi_RevokedAt b) at_ || After (te_AuthenticatedAt e) at_ || After (vf_VerifiedAt v) at_ ||
     ended (te_FreshUntil e) at_ || ended (vf_FreshUntil v) at_ || (rank (vf_Assurance v) <? rank required)
  then false
  else existsb (fun candidate => same_str candidate scope) (vf_Scope v).

Definition ResolutionUnknown := "unknown".
Definition ResolutionVerified := "verified".

Record Resolution := {
  ro_Status : string;
  ro_PeerID : string;
  ro_Evidence : TransportEvidence;
  ro_Binding : option Binding;
}.

Definition Resolution_Validate (r : Resolution) : res peer_error unit :=
  if same_str (ro_Status r) ResolutionUnknown then
    refuse negb (empty_str (ro_PeerID r)) || bool_decide (is_Some (ro_Binding r)) with ErrInvalidIdentity;
    Ok tt
  else if same_str (ro_Status r) ResolutionVerified then
    match ro_Binding r with
    | None => Err ErrInvalidIdentity
    | Some b =>
        refuse negb (same_str (ro_PeerID r) (bi_PeerID b)) ||
               negb (same_str (te_EvidenceID (ro_Evidence r)) (te_EvidenceID (bi_Evidence b))) with ErrInvalidIdentity;
        Binding_Validate b
    end
  else Err ErrInvalidIdentity.

Definition OperationRoutineConversation := "routine_conversation".
Definition OperationPrimaryPeerChange := "primary_peer_change".
Definition OperationCredentialChange := "credential_change".

Definition RequiredAssurance (class : string) : res peer_error string :=
  if same_str class OperationRoutineConversation then Ok AssuranceAccount
  else if same_str class OperationPrimaryPeerChange || same_str class OperationCredentialChange
       then Ok AssuranceReverified
  else Err ErrInvalidIdentity.

Definition RequireAssurance (actual class : string) : res peer_error unit :=
  try required <- RequiredAssurance class;
  refuse rank actual <? rank required with ErrInsufficientAssurance;
  Ok tt.

(** ** The order of a history

    The comparison both replays sort by: time, then tie breaker, then the
    record's own identifier. *)

Definition history_key : Type := time * string * string.

Definition key_le (a b : history_key) : Prop :=
  let '(t, x, i) := a in
  let '(u, y, j) := b in
  if t =? u then (if same_str x y then str_le i j else str_lt x y = true) else t < u.

(** ** Allegiance *)

Record Relationship := { rl_PeerID : string; rl_RecognizedAt : time }.

Definition PrimaryEstablish := "establish".
Definition PrimaryAffirm := "affirm".
Definition PrimaryReleaseRequest := "release_request".
Definition PrimaryReleaseGrant := "release_grant".
Definition PrimaryTransfer := "transfer".

Definition ActorDoll := "doll".
Definition ActorPeer := "peer".

Record PrimaryEvent := {
  pe_SchemaVersion : Z;
  pe_EventID : string;
  pe_Type : string;
  pe_At : time;
  pe_TieBreaker : string;
  pe_ActorKind : string;
  pe_ActorPeerID : string;
  pe_PeerID : string;
  pe_TargetPeerID : string;
  pe_Assurance : string;
  pe_Provenance : string;
}.

(** The Primary Peer acts for itself and names no target. *)
Definition by_primary (e : PrimaryEvent) : bool :=
  same_str (pe_ActorKind e) ActorPeer && same_str (pe_ActorPeerID e) (pe_PeerID e).

Definition PrimaryEvent_Validate (e : PrimaryEvent) : res peer_error unit :=
  refuse negb (pe_SchemaVersion e =? SchemaVersion) || blank (pe_EventID e) || IsZero (pe_At e) ||
    blank (pe_TieBreaker e) || negb (validID (pe_PeerID e)) || blank (pe_Provenance e) || (rank (pe_Assurance e) <? 0)
    with ErrInvalidRelationship;
  refuse same_str (pe_ActorKind e) ActorPeer && negb (validID (pe_ActorPeerID e)) with ErrInvalidRelationship;
  refuse same_str (pe_ActorKind e) ActorDoll && negb (empty_str (pe_ActorPeerID e)) with ErrInvalidRelationship;
  if same_str (pe_Type e) PrimaryEstablish then
    refuse negb (by_primary e) || negb (empty_str (pe_TargetPeerID e)) with ErrInvalidRelationship;
    RequireAssurance (pe_Assurance e) OperationPrimaryPeerChange
  else if same_str (pe_Type e) PrimaryAffirm then
    refuse negb (by_primary e) || negb (empty_str (pe_TargetPeerID e)) with ErrInvalidRelationship;
    Ok tt
  else if same_str (pe_Type e) PrimaryReleaseRequest then
    refuse negb (same_str (pe_ActorKind e) ActorDoll) || negb (empty_str (pe_TargetPeerID e)) with ErrInvalidRelationship;
    Ok tt
  else if same_str (pe_Type e) PrimaryReleaseGrant then
    refuse negb (by_primary e) || negb (empty_str (pe_TargetPeerID e)) with ErrInvalidRelationship;
    RequireAssurance (pe_Assurance e) OperationPrimaryPeerChange
  else if same_str (pe_Type e) PrimaryTransfer then
    refuse negb (by_primary e) || negb (validID (pe_TargetPeerID e)) ||
           same_str (pe_TargetPeerID e) (pe_PeerID e) with ErrInvalidRelationship;
    RequireAssurance (pe_Assurance e) OperationPrimaryPeerChange
  else Err ErrInvalidRelationship.

Record PrimaryState := { ps_PeerID : string; ps_ReleaseRequested : bool; ps_LastEventID : string }.

Definition no_primary : PrimaryState :=
  {| ps_PeerID := ""; ps_ReleaseRequested := false; ps_LastEventID := "" |}.

Definition event_key (e : PrimaryEvent) : history_key := (pe_At e, pe_TieBreaker e, pe_EventID e).
Definition event_before (a b : PrimaryEvent) : Prop := key_le (event_key a) (event_key b).

(** One case of the replay's switch; an event type that is none of the five
    would leave the state alone, but has not passed validation. *)
Definition apply_event (state : PrimaryState) (e : PrimaryEvent) : res peer_error PrimaryState :=
  if same_str (pe_Type e) PrimaryEstablish then
    refuse negb (empty_str (ps_PeerID state)) with ErrInvalidRelationship;
    Ok {| ps_PeerID := pe_PeerID e; ps_ReleaseRequested := false; ps_LastEventID := pe_EventID e |}
  else if same_str (pe_Type e) PrimaryAffirm then
    refuse negb (same_str (ps_PeerID state) (pe_PeerID e)) with ErrInvalidRelationship;
    Ok {| ps_PeerID := ps_PeerID state; ps_ReleaseRequested := ps_ReleaseRequested state;
          ps_LastEventID := pe_EventID e |}
  else if same_str (pe_Type e) PrimaryReleaseRequest then
    refuse negb (same_str (ps_PeerID state) (pe_PeerID e)) with ErrInvalidRelationship;
    Ok {| ps_PeerID := ps_PeerID state; ps_ReleaseRequested := true; ps_LastEventID := pe_EventID e |}
  else if same_str (pe_Type e) PrimaryReleaseGrant then
    refuse negb (same_str (ps_PeerID state) (pe_PeerID e)) || negb (ps_ReleaseRequested state)
      with ErrInvalidRelationship;
    Ok {| ps_PeerID := ""; ps_ReleaseRequested := false; ps_LastEventID := pe_EventID e |}
  else if same_str (pe_Type e) PrimaryTransfer then
    refuse negb (same_str (ps_PeerID state) (pe_PeerID e)) with ErrInvalidRelationship;
    Ok {| ps_PeerID := pe_TargetPeerID e; ps_ReleaseRequested := false; ps_LastEventID := pe_EventID e |}
  else Ok state.

Fixpoint replay (seen : gset string) (state : PrimaryState) (ordered : list PrimaryEvent)
    : res peer_error PrimaryState :=
  match ordered with
  | [] => Ok state
  | e :: rest =>
      refuse bool_decide (pe_EventID e ∈ seen) with ErrInvalidRelationship;
      try state' <- apply_event state e;
      replay ({[pe_EventID e]} ∪ seen) state' rest
  end.

(** The loop that returns the first error. *)
Fixpoint validate_all {A} (validate : A -> res peer_error unit) (l : list A) : res peer_error unit :=
  match l with
  | [] => Ok tt
  | x :: rest => try u <- validate x; validate_all validate rest
  end.

#[global] Instance key_le_dec : RelDecision key_le.
Proof. intros [[t x] i] [[u y] j]. unfold key_le. destruct (t =? u); [destruct (same_str x y)|]; apply _. Defined.

#[global] Instance event_before_dec : RelDecision event_before.
Proof. intros a b. unfold event_before. apply _. Defined.

Definition ReplayPrimary (events : list PrimaryEvent) : res peer_error PrimaryState :=
  try u <- validate_all PrimaryEvent_Validate events;
  replay ∅ no_primary (merge_sort event_before events).

(** The loop over the relationships, with the set of Peers met so far. *)
Fixpoint recognized (seen : gset string) (relationships : list Relationship) : res peer_error (gset string) :=
  match relationships with
  | [] => Ok seen
  | r :: rest =>
      refuse negb (validID (rl_PeerID r)) || IsZero (rl_RecognizedAt r) || bool_decide (rl_PeerID r ∈ seen)
        with ErrInvalidRelationship;
      recognized ({[rl_PeerID r]} ∪ seen) rest
  end.

Definition ValidateRelationships (relationships : list Relationship) (primary : PrimaryState)
    : res peer_error unit :=
  try seen <- recognized ∅ relationships;
  refuse negb (empty_str (ps_PeerID primary)) && negb (bool_decide (ps_PeerID primary ∈ seen))
    with ErrInvalidRelationship;
  Ok tt.

(** ** The doll's description of a relationship *)

Record RelationshipDescription := {
  ds_SchemaVersion : Z;
  ds_PeerID : string;
  ds_Revision : Z;
  ds_Content : string;
  ds_UpdatedAt : time;
  ds_AuthoredBy : string;
  ds_Provenance : string;
}.

Definition RelationshipDescription_Validate (d : RelationshipDescription) : res peer_error unit :=
  refuse negb (ds_SchemaVersion d =? SchemaVersion) || negb (validID (ds_PeerID d)) || (ds_Revision d =? 0) ||
    blank (ds_Content d) || IsZero (ds_UpdatedAt d) || negb (same_str (ds_AuthoredBy d) "doll") ||
    blank (ds_Provenance d) with ErrInvalidRelationship;
  Ok tt.

(** ** The legacy owner *)

Record LegacyOwner := { lo_OwnerID : string; lo_Name : string; lo_Content : string }.

Record LegacyOwnerMigration := {
  lm_Peer : Identity;
  lm_Relationship : Relationship;
  lm_PrimaryEvent : PrimaryEvent;
  lm_LegacyProse : string;
  lm_ProseProvenance : string;
}.

Definition MigrateLegacyOwner (owner : LegacyOwner) (at_ : time) (assurance : string)
    : res peer_error LegacyOwnerMigration :=
  let id := TrimSpace (lo_OwnerID owner) in
  refuse negb (validID id) || IsZero at_ with ErrInvalidIdentity;
  try u <- RequireAssurance assurance OperationPrimaryPeerChange;
  let event := {| pe_SchemaVersion := SchemaVersion; pe_EventID := "legacy-owner-establishment:" +:+ id;
                  pe_Type := PrimaryEstablish; pe_At := at_; pe_TieBreaker := "legacy-owner-import";
                  pe_ActorKind := ActorPeer; pe_ActorPeerID := id; pe_PeerID := id; pe_TargetPeerID := "";
                  pe_Assurance := assurance; pe_Provenance := "core5-owner-import:reverified" |} in
  try u <- PrimaryEvent_Validate event;
  Ok {| lm_Peer := {| id_SchemaVersion := SchemaVersion; id_ID := id; id_CreatedAt := at_ |};
        lm_Relationship := {| rl_PeerID := id; rl_RecognizedAt := at_ |};
        lm_PrimaryEvent := event; lm_LegacyProse := lo_Content owner;
        lm_ProseProvenance := "core5:owner/owner.md" |}.

(** ** Authority *)

Definition EffectAllow := "allow".
Definition EffectProhibit := "prohibit".
Definition EffectRevoke := "revoke".

Definition IssuerPeer := "peer".
Definition IssuerPrimaryPeer := "primary_peer".

Definition GrantReusable := "reusable".
Definition GrantOneTime := "one_time".

Record AuthoritySubject := { su_DollID : string; su_PeerID : string }.
Record ActionScope := { sc_Capability : string; sc_Operation : string; sc_Resource : string }.

#[global] Instance AuthoritySubject_eq_dec : EqDecision AuthoritySubject.
Proof. solve_decision. Defined.
#[global] Instance ActionScope_eq_dec : EqDecision ActionScope.
Proof. solve_decision. Defined.

Record AuthorityDecision := {
  ad_SchemaVersion : Z;
  ad_DecisionID : string;
  ad_IssuerPeerID : string;
  ad_IssuerRoleAtIssue : string;
  ad_Subject : AuthoritySubject;
  ad_Action : ActionScope;
  ad_Effect : string;
  ad_Use : string;
  ad_CorrelationID : string;
  ad_RevokesDecisionID : string;
  ad_IssuedAt : time;
  ad_ExpiresAt : option time;
  ad_TieBreaker : string;
  ad_Provenance : string;
  ad_Assurance : string;
}.

Definition AuthorityDecision_Validate (d : AuthorityDecision) : res peer_error unit :=
  refuse negb (ad_SchemaVersion d =? SchemaVersion) || blank (ad_DecisionID d) || negb (validID (ad_IssuerPeerID d)) ||
    blank (su_DollID (ad_Subject d)) || blank (sc_Capability (ad_Action d)) || blank (sc_Operation (ad_Action d)) ||
    IsZero (ad_IssuedAt d) || blank (ad_TieBreaker d) || blank (ad_Provenance d) ||
    (rank (ad_Assurance d) <? rank AssuranceAccount) ||
    (negb (same_str (ad_IssuerRoleAtIssue d) IssuerPeer) && negb (same_str (ad_IssuerRoleAtIssue d) IssuerPrimaryPeer))
    with ErrInvalidDecision;
  refuse ended (ad_ExpiresAt d) (ad_IssuedAt d) with ErrInvalidDecision;
  if same_str (ad_Effect d) EffectAllow then
    refuse negb (same_str (ad_Use d) GrantReusable) && negb (same_str (ad_Use d) GrantOneTime) with ErrInvalidDecision;
    refuse same_str (ad_Use d) GrantOneTime && blank (ad_CorrelationID d) with ErrInvalidDecision;
    refuse same_str (ad_Use d) GrantReusable && negb (empty_str (ad_CorrelationID d)) with ErrInvalidDecision;
    refuse negb (empty_str (ad_RevokesDecisionID d)) with ErrInvalidDecision;
    Ok tt
  else if same_str (ad_Effect d) EffectProhibit then
    refuse negb (empty_str (ad_Use d)) || negb (empty_str (ad_CorrelationID d)) ||
           negb (empty_str (ad_RevokesDecisionID d)) with ErrInvalidDecision;
    Ok tt
  else if same_str (ad_Effect d) EffectRevoke then
    refuse negb (empty_str (ad_Use d)) || negb (empty_str (ad_CorrelationID d)) ||
           bool_decide (is_Some (ad_ExpiresAt d)) || blank (ad_RevokesDecisionID d) ||
           same_str (ad_RevokesDecisionID d) (ad_DecisionID d) with ErrInvalidDecision;
    Ok tt
  else Err ErrInvalidDecision.

Record AuthorityQuery := {
  aq_Subject : AuthoritySubject;
  aq_Action : ActionScope;
  aq_CorrelationID : string;
  aq_AttemptID : string;
  aq_RequireExplicitApproval : bool;
  aq_At : time;
}.

Definition EffectiveAllow := "allow".
Definition EffectiveProhibit := "prohibit".
Definition EffectiveRequireApproval := "require_approval".

Record ApprovalConsumption := {
  ap_SchemaVersion : Z;
  ap_ConsumptionID : string;
  ap_DecisionID : string;
  ap_CorrelationID : string;
  ap_AttemptID : string;
  ap_ConsumedAt : time;
  ap_Provenance : string;
}.

Record AuthorityResult := {
  ar_Effect : string;
  ar_BasisDecisionID : string;
  ar_DefaultAutonomy : bool;
  ar_PendingConsumption : option ApprovalConsumption;
}.

Record Delegation := {
  dg_SchemaVersion : Z;
  dg_DelegationID : string;
  dg_GrantorPeerID : string;
  dg_GrantorRoleAtIssue : string;
  dg_GranteePeerID : string;
  dg_Subject : AuthoritySubject;
  dg_Action : ActionScope;
  dg_IssuedAt : time;
  dg_ExpiresAt : option time;
  dg_RevokedAt : option time;
  dg_VerifiedAt : time;
  dg_Assurance : string;
  dg_Provenance : string;
}.

Definition Delegation_Validate (d : Delegation) : res peer_error unit :=
  refuse negb (dg_SchemaVersion d =? SchemaVersion) || blank (dg_DelegationID d) ||
    negb (validID (dg_GrantorPeerID d)) || negb (validID (dg_GranteePeerID d)) ||
    negb (same_str (dg_GrantorRoleAtIssue d) IssuerPrimaryPeer) ||
    same_str (dg_GrantorPeerID d) (dg_GranteePeerID d) || blank (su_DollID (dg_Subject d)) ||
    blank (sc_Capability (dg_Action d)) || blank (sc_Operation (dg_Action d)) || IsZero (dg_IssuedAt d) ||
    IsZero (dg_VerifiedAt d) || negb (same_str (dg_Assurance d) AssuranceReverified) || blank (dg_Provenance d)
    with ErrInvalidDecision;
  refuse ended (dg_ExpiresAt d) (dg_IssuedAt d) ||
         match dg_RevokedAt d with Some t => Before t (dg_IssuedAt d) | None => false end with ErrInvalidDecision;
  Ok tt.

Definition ApprovalConsumption_Validate (c : ApprovalConsumption) : res peer_error unit :=
  refuse negb (ap_SchemaVersion c =? SchemaVersion) || blank (ap_ConsumptionID c) || blank (ap_DecisionID c) ||
    blank (ap_CorrelationID c) || blank (ap_AttemptID c) || IsZero (ap_ConsumedAt c) || blank (ap_Provenance c)
    with ErrInvalidDecision;
  Ok tt.

(** *** Replay *)

Definition decision_key (d : AuthorityDecision) : history_key := (ad_IssuedAt d, ad_TieBreaker d, ad_DecisionID d).
Definition decision_before (a b : AuthorityDecision) : Prop := key_le (decision_key a) (decision_key b).

#[global] Instance decision_before_dec : RelDecision decision_before.
Proof. intros a b. unfold decision_before. apply _. Defined.

Fixpoint delegations_from (seen : gset string) (delegations : list Delegation) : res peer_error unit :=
  match delegations with
  | [] => Ok tt
  | d :: rest =>
      refuse negb (is_ok (Delegation_Validate d)) || bool_decide (dg_DelegationID d ∈ seen) with ErrInvalidDecision;
      delegations_from ({[dg_DelegationID d]} ∪ seen) rest
  end.

Definition validateDelegations (delegations : list Delegation) : res peer_error unit :=
  delegations_from ∅ delegations.

Definition hasDelegation (record : AuthorityDecision) (delegations : list Delegation) (at_ : time) : bool :=
  existsb (fun d =>
    same_str (dg_GranteePeerID d) (ad_IssuerPeerID record) && bool_decide (dg_Subject d = ad_Subject record) &&
    bool_decide (dg_Action d = ad_Action record) && negb (Before (ad_IssuedAt record) (dg_IssuedAt d)) &&
    negb (After (ad_IssuedAt record) at_) && negb (After (dg_VerifiedAt d) at_) &&
    negb (ended (dg_ExpiresAt d) at_) && negb (ended (dg_RevokedAt d) at_)) delegations.

Definition byDecision (decisions : list AuthorityDecision) : gmap string AuthorityDecision :=
  foldl (fun m d => <[ad_DecisionID d := d]> m) ∅ decisions.

(** One consumption against the decision it claims. *)
Definition consumption_fits (decisions : gmap string AuthorityDecision) (c : ApprovalConsumption) : bool :=
  match decisions !! ap_DecisionID c with
  | None => false
  | Some d =>
      is_ok (ApprovalConsumption_Validate c) && same_str (ad_Effect d) EffectAllow &&
      same_str (ad_Use d) GrantOneTime && same_str (ap_CorrelationID c) (ad_CorrelationID d) &&
      negb (Before (ap_ConsumedAt c) (ad_IssuedAt d)) && negb (ended (ad_ExpiresAt d) (ap_ConsumedAt c))
  end.

Fixpoint consumptions_from (decisions : gmap string AuthorityDecision) (at_ : time)
    (ids consumedDecision consumed : gset string) (cs : list ApprovalConsumption)
    : res peer_error (gset string) :=
  match cs with
  | [] => Ok consumed
  | c :: rest =>
      refuse negb (consumption_fits decisions c) || bool_decide (ap_ConsumptionID c ∈ ids) ||
             bool_decide (ap_DecisionID c ∈ consumedDecision) with ErrInvalidDecision;
      consumptions_from decisions at_ ({[ap_ConsumptionID c]} ∪ ids) ({[ap_DecisionID c]} ∪ consumedDecision)
        (if negb (After (ap_ConsumedAt c) at_) then {[ap_DecisionID c]} ∪ consumed else consumed) rest
  end.

Definition validateConsumptions (cs : list ApprovalConsumption) (decisions : list AuthorityDecision) (at_ : time)
    : res peer_error (gset string) :=
  consumptions_from (byDecision decisions) at_ ∅ ∅ ∅ cs.

Definition is_primary (d : AuthorityDecision) : bool := same_str (ad_IssuerRoleAtIssue d) IssuerPrimaryPeer.
Definition is_revocation (d : AuthorityDecision) : bool := same_str (ad_Effect d) EffectRevoke.

Definition check_revocation (byID : gmap string AuthorityDecision) (r : AuthorityDecision) : bool :=
  match byID !! ad_RevokesDecisionID r with
  | None => false
  | Some target =>
      bool_decide (ad_Subject target = ad_Subject r) && bool_decide (ad_Action target = ad_Action r) &&
      (is_primary r || (negb (is_primary target) && same_str (ad_IssuerPeerID target) (ad_IssuerPeerID r)))
  end.

(** An authority record counts at a time when a Primary Peer issued it or its issuer holds a delegation. *)
Definition authoritative (d : AuthorityDecision) (delegations : list Delegation) (at_ : time) : bool :=
  is_primary d || hasDelegation d delegations at_.

Fixpoint scan_history (delegations : list Delegation) (at_ : time) (byID : gmap string AuthorityDecision)
    (revoked : gset string) (ordered : list AuthorityDecision) : res peer_error (gset string) :=
  match ordered with
  | [] => Ok revoked
  | r :: rest =>
      refuse bool_decide (is_Some (byID !! ad_DecisionID r)) with ErrInvalidDecision;
      refuse is_revocation r && negb (check_revocation byID r) with ErrInvalidDecision;
      scan_history delegations at_ (<[ad_DecisionID r := r]> byID)
        (if is_revocation r && negb (After (ad_IssuedAt r) at_) && authoritative r delegations at_
         then {[ad_RevokesDecisionID r]} ∪ revoked else revoked) rest
  end.

Definition applicable (record : AuthorityDecision) (query : AuthorityQuery) : bool :=
  if negb (bool_decide (ad_Subject record = aq_Subject query)) ||
     negb (bool_decide (ad_Action record = aq_Action query)) || After (ad_IssuedAt record) (aq_At query) ||
     ended (ad_ExpiresAt record) (aq_At query) then false
  else negb (same_str (ad_Effect record) EffectAllow) || negb (same_str (ad_Use record) GrantOneTime) ||
       same_str (ad_CorrelationID record) (aq_CorrelationID query).

Definition skipped (revoked consumed : gset string) (query : AuthorityQuery) (d : AuthorityDecision) : bool :=
  is_revocation d || bool_decide (ad_DecisionID d ∈ revoked) || bool_decide (ad_DecisionID d ∈ consumed) ||
  negb (applicable d query).

(** The second loop: the last ordinary and the last primary decision. *)
Fixpoint select_decision (delegations : list Delegation) (revoked consumed : gset string) (query : AuthorityQuery)
    (ordinary primary : option AuthorityDecision) (ordered : list AuthorityDecision)
    : option AuthorityDecision * option AuthorityDecision :=
  match ordered with
  | [] => (ordinary, primary)
  | d :: rest =>
      let go := select_decision delegations revoked consumed query in
      if skipped revoked consumed query d then go ordinary primary rest
      else if is_primary d then go ordinary (Some d) rest
      else if hasDelegation d delegations (aq_At query) then go (Some d) primary rest
      else go ordinary primary rest
  end.

Definition pending_consumption (d : AuthorityDecision) (query : AuthorityQuery) : ApprovalConsumption :=
  {| ap_SchemaVersion := SchemaVersion;
     ap_ConsumptionID := "consume:" +:+ ad_DecisionID d +:+ ":" +:+ aq_AttemptID query;
     ap_DecisionID := ad_DecisionID d; ap_CorrelationID := aq_CorrelationID query;
     ap_AttemptID := aq_AttemptID query; ap_ConsumedAt := aq_At query;
     ap_Provenance := "core:one-time-consumption" |}.

Definition effective (query : AuthorityQuery) (selected : option AuthorityDecision) : res peer_error AuthorityResult :=
  match selected with
  | None =>
      Ok (if aq_RequireExplicitApproval query
          then {| ar_Effect := EffectiveRequireApproval; ar_BasisDecisionID := ""; ar_DefaultAutonomy := false;
                  ar_PendingConsumption := None |}
          else {| ar_Effect := EffectiveAllow; ar_BasisDecisionID := ""; ar_DefaultAutonomy := true;
                  ar_PendingConsumption := None |})
  | Some d =>
      if same_str (ad_Effect d) EffectProhibit then
        Ok {| ar_Effect := EffectiveProhibit; ar_BasisDecisionID := ad_DecisionID d; ar_DefaultAutonomy := false;
              ar_PendingConsumption := None |}
      else if same_str (ad_Use d) GrantOneTime then
        refuse blank (aq_AttemptID query) with ErrInvalidDecision;
        Ok {| ar_Effect := EffectiveAllow; ar_BasisDecisionID := ad_DecisionID d; ar_DefaultAutonomy := false;
              ar_PendingConsumption := Some (pending_consumption d query) |}
      else Ok {| ar_Effect := EffectiveAllow; ar_BasisDecisionID := ad_DecisionID d; ar_DefaultAutonomy := false;
                 ar_PendingConsumption := None |}
  end.

Definition bad_query (query : AuthorityQuery) : bool :=
  blank (su_DollID (aq_Subject query)) || blank (sc_Capability (aq_Action query)) ||
  blank (sc_Operation (aq_Action query)) || IsZero (aq_At query).

Definition ReconcileAuthority (records : list AuthorityDecision) (delegations : list Delegation)
    (consumptions : list ApprovalConsumption) (query : AuthorityQuery) : res peer_error AuthorityResult :=
  refuse bad_query query with ErrInvalidDecision;
  try u <- validate_all AuthorityDecision_Validate records;
  let ordered := merge_sort decision_before records in
  try u <- validateDelegations delegations;
  try consumed <- validateConsumptions consumptions ordered (aq_At query);
  try revoked <- scan_history delegations (aq_At query) ∅ ∅ ordered;
  let '(ordinary, primary) := select_decision delegations revoked consumed query None None ordered in
  effective query (match primary with Some d => Some d | None => ordinary end).

(** ** Lemmas on histories *)

#[global] Instance key_le_total : Total key_le.
Proof.
  intros [[t x] i] [[u y] j]. unfold key_le. rewrite (Z.eqb_sym u t).
  destruct (t =? u) eqn:E; bool_props; [|lia].
  destruct (same_str x y) eqn:F; [rewrite (proj2 (same_str_true y x)) by (by apply same_str_true in F)|].
  { apply (total str_le). }
  apply same_str_false in F as F'. rewrite (proj2 (same_str_false y x)) by congruence.
  destruct (str_lt_total x y) as [?|[?|?]]; naive_solver.
Qed.

#[global] Instance key_le_trans : Transitive key_le.
Proof.
  intros [[t x] i] [[u y] j] [[v z] k]. unfold key_le.
  destruct (t =? u) eqn:E1, (u =? v) eqn:E2, (t =? v) eqn:E3; bool_props; try lia; subst.
  destruct (same_str x y) eqn:F1, (same_str y z) eqn:F2, (same_str x z) eqn:F3;
    rewrite ?same_str_true, ?same_str_false in *; subst; try done; try congruence.
  - by intros; etrans.
  - intros H1 H2. pose proof (str_lt_trans _ _ _ H1 H2) as H. by rewrite str_lt_irrefl in H.
  - apply str_lt_trans.
Qed.

#[global] Instance key_le_antisymm : AntiSymm eq key_le.
Proof.
  intros [[t x] i] [[u y] j]. unfold key_le. rewrite (Z.eqb_sym u t).
  destruct (t =? u) eqn:E; bool_props; [subst|lia].
  destruct (same_str x y) eqn:F.
  - apply same_str_true in F as ->. rewrite (proj2 (same_str_true y y) eq_refl).
    intros H1 H2. by rewrite (anti_symm str_le _ _ H1 H2).
  - apply same_str_false in F as F'. rewrite (proj2 (same_str_false y x)) by congruence.
    intros H1 H2. pose proof (str_lt_trans _ _ _ H1 H2) as H. by rewrite str_lt_irrefl in H.
Qed.

#[global] Instance event_before_total : Total event_before.
Proof. intros a b. apply (total key_le). Qed.
#[global] Instance event_before_trans : Transitive event_before.
Proof. intros a b c. unfold event_before. apply transitivity. Qed.
#[global] Instance decision_before_total : Total decision_before.
Proof. intros a b. apply (total key_le). Qed.
#[global] Instance decision_before_trans : Transitive decision_before.
Proof. intros a b c. unfold decision_before. apply transitivity. Qed.

Lemma NoDup_same {A B} (f : A -> B) (l : list A) x y :
  NoDup (f <$> l) -> x ∈ l -> y ∈ l -> f x = f y -> x = y.
Proof.
  intros Hnd (i & Hi)%list_elem_of_lookup (j & Hj)%list_elem_of_lookup He.
  assert (i = j) as <-; [|congruence].
  eapply NoDup_lookup; [done|rewrite list_lookup_fmap, Hi; done|]. by rewrite list_lookup_fmap, Hj, He.
Qed.

Lemma validate_all_ok {A} (validate : A -> res peer_error unit) l :
  validate_all validate l = Ok tt <-> Forall (fun x => validate x = Ok tt) l.
Proof.
  induction l as [|x l IH]; simpl; [by split|]. rewrite Forall_cons, <- IH.
  destruct (validate x) as [[]|] eqn:E; simpl; [tauto|naive_solver].
Qed.

Lemma existsb_perm {A} (f : A -> bool) l l' : l ≡ₚ l' -> existsb f l = existsb f l'.
Proof.
  intros Hp. apply eq_bool_prop_intro. rewrite !Is_true_true, !existsb_exists.
  by setoid_rewrite <- list_elem_of_In; setoid_rewrite Hp.
Qed.

(** *** Allegiance *)

Lemma replay_ids l : forall seen s st, replay seen s l = Ok st ->
  NoDup (pe_EventID <$> l) /\ forall e, e ∈ l -> pe_EventID e ∉ seen.
Proof.
  induction l as [|e l IH]; intros seen s st; simpl.
  { intros _. split; [constructor|set_solver]. }
  destruct (bool_decide _) eqn:Eb; [done|]. bool_props. destruct (apply_event s e) as [s'|]; [|done]. simpl.
  intros (Hnd & Hseen)%IH. split.
  - constructor; [|done]. intros (e' & He & Hin)%list_elem_of_fmap. apply (Hseen _ Hin). set_solver.
  - intros e' [->|Hin]%elem_of_cons; [done|]. specialize (Hseen _ Hin). set_solver.
Qed.

(** A replay that succeeds passes through the states of its prefixes. *)
Lemma replay_split pre e post seen s st :
  replay seen s (pre ++ e :: post) = Ok st ->
  exists s1 s2, replay seen s pre = Ok s1 /\ apply_event s1 e = Ok s2 /\ replay seen s (pre ++ [e]) = Ok s2.
Proof.
  revert seen s. induction pre as [|e' pre IH]; intros seen s; simpl.
  - destruct (bool_decide _); [done|]. destruct (apply_event s e) as [s2|] eqn:E; [|done]. intros _.
    by exists s, s2.
  - destruct (bool_decide _); [done|]. destruct (apply_event s e') as [s'|]; [|done]. simpl. apply IH.
Qed.

Lemma protected_assurance a : RequireAssurance a OperationPrimaryPeerChange = Ok tt <-> a = AssuranceReverified.
Proof.
  unfold RequireAssurance. simpl. split; [|by intros ->].
  destruct (rank a <? rank AssuranceReverified) eqn:E; [done|]. intros _. revert E. unfold rank.
  destruct (same_str a AssuranceNone); [done|]. destruct (same_str a AssuranceAccount); [done|].
  destruct (same_str a AssuranceReverified) eqn:E; [by apply same_str_true in E|done].
Qed.

Lemma by_primary_true e : by_primary e = true <-> pe_ActorKind e = ActorPeer /\ pe_ActorPeerID e = pe_PeerID e.
Proof. unfold by_primary. by rewrite andb_true_iff, !same_str_true. Qed.

(** What a valid event may do to the state. *)
Lemma apply_event_change s1 e s2 :
  PrimaryEvent_Validate e = Ok tt -> apply_event s1 e = Ok s2 -> ps_PeerID s1 <> ps_PeerID s2 ->
  pe_ActorKind e = ActorPeer /\ pe_Assurance e = AssuranceReverified /\
  (ps_PeerID s1 = "" -> pe_ActorPeerID e = ps_PeerID s2) /\
  (ps_PeerID s1 <> "" -> pe_ActorPeerID e = ps_PeerID s1) /\
  (ps_PeerID s2 = "" -> ps_ReleaseRequested s1 = true).
Proof.
  unfold PrimaryEvent_Validate, apply_event. intros Hv Ha Hne.
  destruct (_ || _) eqn:E0 in Hv; [done|]. repeat (apply orb_false_iff in E0 as [E0 ?]).
  destruct (_ && _) in Hv; [done|]. destruct (_ && _) in Hv; [done|].
  destruct (same_str (pe_Type e) PrimaryEstablish).
  { destruct (_ || _) eqn:E in Hv; [done|]. apply orb_false_iff in E as [Hb _]. apply negb_false_iff, by_primary_true in Hb.
    apply protected_assurance in Hv. destruct (negb _) eqn:E in Ha; [done|].
    apply negb_false_iff, empty_str_true in E. simplify_eq/=. destruct Hb as [Hk Hid].
    split_and!; try done. intros Hz. rewrite Hz in Hne. congruence. }
  destruct (same_str (pe_Type e) PrimaryAffirm); [destruct (negb _) in Ha; by simplify_eq/=|].
  destruct (same_str (pe_Type e) PrimaryReleaseRequest); [destruct (negb _) in Ha; by simplify_eq/=|].
  destruct (same_str (pe_Type e) PrimaryReleaseGrant).
  { destruct (_ || _) eqn:E in Hv; [done|]. apply orb_false_iff in E as [Hb _]. apply negb_false_iff, by_primary_true in Hb.
    apply protected_assurance in Hv. destruct (_ || _) eqn:E in Ha; [done|]. apply orb_false_iff in E as [E1 E2].
    apply negb_false_iff, same_str_true in E1. apply negb_false_iff in E2. simplify_eq/=. destruct Hb as [Hk Hid].
    split_and!; try done; congruence. }
  destruct (same_str (pe_Type e) PrimaryTransfer); [|done].
  destruct (_ || _) eqn:E in Hv; [done|]. repeat (apply orb_false_iff in E as [E ?]). bool_props.
  apply by_primary_true in E as [Hk Hid]. apply protected_assurance in Hv.
  destruct (negb _) eqn:E' in Ha; [done|]. apply negb_false_iff, same_str_true in E'. simplify_eq/=.
  split_and!; try done; try congruence.
  - intros Hz. match goal with H : validID (pe_PeerID e) = true |- _ => revert H end. by rewrite <- E', Hz.
  - intros Hz. match goal with H : validID (pe_TargetPeerID e) = true |- _ => revert H end. by rewrite Hz.
Qed.

Lemma ReplayPrimary_ok evs st :
  ReplayPrimary evs = Ok st <->
  Forall (fun e => PrimaryEvent_Validate e = Ok tt) evs /\ replay ∅ no_primary (merge_sort event_before evs) = Ok st.
Proof.
  unfold ReplayPrimary. rewrite <- validate_all_ok. destruct (validate_all _ evs) as [[]|]; simpl; naive_solver.
Qed.

Lemma ReplayPrimary_ids evs st : ReplayPrimary evs = Ok st -> NoDup (pe_EventID <$> evs).
Proof.
  intros (_ & (Hnd & _)%replay_ids)%ReplayPrimary_ok. revert Hnd. apply NoDup_Permutation_proper.
  by rewrite merge_sort_Permutation.
Qed.

(** Allegiance is protected and does not depend on the arrangement of the
    history.  A history that replays gives the same Primary Peer however its
    events are listed.  Along its chronological order the Primary changes only
    by a Peer that acts for itself with re-verified assurance: a Peer that
    establishes itself where there is none, or the present Primary that grants
    the release the doll asked for or transfers its place.  No event of the doll
    changes it. *)
Theorem allegiance_protected evs st :
  ReplayPrimary evs = Ok st ->
  (forall evs', evs' ≡ₚ evs -> ReplayPrimary evs' = Ok st) /\
  forall pre e post, merge_sort event_before evs = pre ++ e :: post ->
    exists s1 s2, replay ∅ no_primary pre = Ok s1 /\ replay ∅ no_primary (pre ++ [e]) = Ok s2 /\
      (ps_PeerID s1 <> ps_PeerID s2 ->
       pe_ActorKind e = ActorPeer /\ pe_Assurance e = AssuranceReverified /\
       (ps_PeerID s1 = "" -> pe_ActorPeerID e = ps_PeerID s2) /\
       (ps_PeerID s1 <> "" -> pe_ActorPeerID e = ps_PeerID s1) /\
       (ps_PeerID s2 = "" -> ps_ReleaseRequested s1 = true)).
Proof.
  intros H. pose proof (ReplayPrimary_ids _ _ H) as Hnd. apply ReplayPrimary_ok in H as [Hv Hr]. split.
  - intros evs' Hp. apply ReplayPrimary_ok. split; [by rewrite Hp|].
    rewrite <- (merge_sort_order_free _ evs evs'); [done|done|].
    intros x y Hx Hy H1 H2. apply (NoDup_same pe_EventID evs); [done..|].
    pose proof (anti_symm key_le _ _ H1 H2) as He. unfold event_key in He. congruence.
  - intros pre e post Hs. rewrite Hs in Hr. apply replay_split in Hr as (s1 & s2 & H1 & Ha & H2).
    exists s1, s2. split_and!; [done..|]. apply apply_event_change; [|done].
    rewrite Forall_forall in Hv. apply Hv. rewrite <- (merge_sort_Permutation event_before), Hs. set_solver.
Qed.

(** *** Authority *)

Lemma delegations_from_ok ds : forall seen,
  delegations_from seen ds = Ok tt <->
  Forall (fun d => Delegation_Validate d = Ok tt) ds /\ NoDup (dg_DelegationID <$> ds) /\
  forall d, d ∈ ds -> dg_DelegationID d ∉ seen.
Proof.
  induction ds as [|d ds IH]; intros seen; simpl.
  { split; [|done]. intros _. split_and!; [constructor..|set_solver]. }
  rewrite Forall_cons, NoDup_cons, list_elem_of_fmap.
  destruct (Delegation_Validate d) as [[]|] eqn:Ev; simpl; [|naive_solver].
  destruct (bool_decide (dg_DelegationID d ∈ seen)) eqn:Eb; bool_props; simpl.
  { split; [done|]. intros (_ & _ & Hs). exfalso. by apply (Hs d (list_elem_of_here _ _)). }
  rewrite IH. split.
  - intros (Hf & Hnd & Hs). split_and!; try done.
    + intros (d' & He & Hin). apply (Hs _ Hin). set_solver.
    + intros d' [->|Hin]%elem_of_cons; [done|]. specialize (Hs _ Hin). set_solver.
  - intros ((_ & Hf) & (Hn & Hnd) & Hs). split_and!; try done. intros d' Hin.
    pose proof (Hs d' (list_elem_of_further _ _ _ Hin)). assert (dg_DelegationID d' <> dg_DelegationID d) by naive_solver.
    set_solver.
Qed.

(** The accepted consumptions and the set the loop collects. *)
Lemma consumptions_from_ok dec at_ cs : forall ids cd S0 S,
  consumptions_from dec at_ ids cd S0 cs = Ok S <->
  Forall (fun c => consumption_fits dec c = true) cs /\
  NoDup (ap_ConsumptionID <$> cs) /\ NoDup (ap_DecisionID <$> cs) /\
  (forall c, c ∈ cs -> ap_ConsumptionID c ∉ ids /\ ap_DecisionID c ∉ cd) /\
  S = S0 ∪ list_to_set (ap_DecisionID <$> filter (fun c => ap_ConsumedAt c <= at_) cs).
Proof.
  induction cs as [|c cs IH]; intros ids cd S0 S; simpl.
  { rewrite !(right_id_L ∅ (∪)). split; [intros [= <-]|by intros (_ & _ & _ & _ & ->)].
    split_and!; [constructor..|set_solver|done]. }
  rewrite Forall_cons, !NoDup_cons, !list_elem_of_fmap.
  destruct (consumption_fits dec c) eqn:Ef; simpl; [|naive_solver].
  destruct (bool_decide (ap_ConsumptionID c ∈ ids)) eqn:E1; bool_props; simpl.
  { split; [done|]. intros (_ & _ & _ & Hs & _). by destruct (Hs c (list_elem_of_here _ _)). }
  destruct (bool_decide (ap_DecisionID c ∈ cd)) eqn:E2; bool_props; simpl.
  { split; [done|]. intros (_ & _ & _ & Hs & _). by destruct (Hs c (list_elem_of_here _ _)). }
  assert (HS : (if negb (After (ap_ConsumedAt c) at_) then {[ap_DecisionID c]} ∪ S0 else S0) ∪
      list_to_set (ap_DecisionID <$> filter (fun c => ap_ConsumedAt c <= at_) cs) =
    S0 ∪ list_to_set (ap_DecisionID <$> filter (fun c => ap_ConsumedAt c <= at_) (c :: cs)) :> gset string).
  { rewrite filter_cons. unfold After. destruct (at_ <? ap_ConsumedAt c) eqn:E; bool_props; simpl;
      destruct (decide _); simpl; try lia; set_solver. }
  rewrite IH, HS. split.
  - intros (Hf & H1 & H2 & Hs & ->). split_and!; try done.
    + intros (c' & He & Hin). destruct (Hs _ Hin). set_solver.
    + intros (c' & He & Hin). destruct (Hs _ Hin). set_solver.
    + intros c' [->|Hin]%elem_of_cons; [done|]. specialize (Hs _ Hin). set_solver.
  - intros ((_ & Hf) & (Hn1 & H1) & (Hn2 & H2) & Hs & ->). split_and!; try done. intros c' Hin.
    destruct (Hs c' (list_elem_of_further _ _ _ Hin)).
    assert (ap_ConsumptionID c' <> ap_ConsumptionID c) by naive_solver.
    assert (ap_DecisionID c' <> ap_DecisionID c) by naive_solver. set_solver.
Qed.

(** The revocations that count at a time. *)
Definition counts (dels : list Delegation) (at_ : time) (r : AuthorityDecision) : bool :=
  is_revocation r && negb (After (ad_IssuedAt r) at_) && authoritative r dels at_.

Lemma scan_history_ok dels at_ l : forall byID R R',
  scan_history dels at_ byID R l = Ok R' ->
  NoDup (ad_DecisionID <$> l) /\ (forall d, d ∈ l -> byID !! ad_DecisionID d = None) /\
  forall x, x ∈ R' <-> x ∈ R \/ exists r, r ∈ l /\ counts dels at_ r = true /\ ad_RevokesDecisionID r = x.
Proof.
  induction l as [|d l IH]; intros byID R R'; simpl.
  { intros [= <-]. split_and!; [constructor|set_solver|set_solver]. }
  destruct (bool_decide _) eqn:Eb; [done|]. bool_props. destruct (_ && negb _); [done|].
  intros (Hnd & Hfresh & HR)%IH. split_and!.
  - constructor; [|done]. intros (d' & He & Hin)%list_elem_of_fmap. specialize (Hfresh _ Hin).
    rewrite <- He, lookup_insert_eq in Hfresh. done.
  - intros d' [->|Hin]%elem_of_cons; [by apply eq_None_not_Some|].
    specialize (Hfresh _ Hin). by apply lookup_insert_None in Hfresh as [? _].
  - intros x. rewrite HR. fold (counts dels at_ d). setoid_rewrite elem_of_cons.
    destruct (counts dels at_ d) eqn:Ec; rewrite ?elem_of_union, ?elem_of_singleton; split.
    + intros [[->|?]|(r & ? & ? & ?)]; [|by left|]; right; eauto 6.
    + intros [?|(r & [->|?] & ? & <-)]; [by left; right|by left; left|]. right. eauto 6.
    + intros [?|(r & ? & ? & ?)]; [by left|]. right; eauto 6.
    + intros [?|(r & [->|?] & ? & <-)]; [by left|congruence|]. right. eauto 6.
Qed.

(** Whether the scan accepts a history does not depend on the time of the query. *)
Lemma scan_history_total dels dels' at_ at_' l : forall byID R R2 R',
  scan_history dels at_ byID R l = Ok R' -> is_ok (scan_history dels' at_' byID R2 l) = true.
Proof.
  induction l as [|d l IH]; intros byID R R2 R'; simpl; [done|].
  destruct (bool_decide _); [done|]. destruct (_ && negb _); [done|]. apply IH.
Qed.

Lemma scan_history_ext dels dels' at_ l : dels ≡ₚ dels' -> forall byID R,
  scan_history dels at_ byID R l = scan_history dels' at_ byID R l.
Proof.
  intros Hp. induction l as [|d l IH]; intros byID R; simpl; [done|].
  unfold authoritative, hasDelegation. rewrite (existsb_perm _ _ _ Hp).
  destruct (bool_decide _); [done|]. destruct (_ && negb _); [done|]. apply IH.
Qed.

(** The last element of a list that passes a test. *)
Definition last_such {A} (f : A -> bool) (init : option A) (l : list A) : option A :=
  foldl (fun acc d => if f d then Some d else acc) init l.

Lemma last_such_spec {A} (R : relation A) `{!Total R} (f : A -> bool) l : forall init,
  StronglySorted R l ->
  (last_such f init l = init /\ forall d, d ∈ l -> f d = false) \/
  exists w, last_such f init l = Some w /\ w ∈ l /\ f w = true /\ forall d, d ∈ l -> f d = true -> R d w.
Proof.
  induction l as [|d l IH]; intros init Hs; [left; split; [done|set_solver]|].
  apply StronglySorted_inv in Hs as [Hs Hd]. rewrite Forall_forall in Hd. simpl.
  assert (Hrefl : forall x, R x x) by (intros x; by destruct (total R x x)).
  destruct (IH (if f d then Some d else init) Hs) as [[He Hn]|(w & He & Hin & Hf & Hall)].
  - destruct (f d) eqn:E.
    + right. exists d. split_and!; [done|set_solver|done|]. intros d' [->|Hd']%elem_of_cons; [done|].
      rewrite Hn by done. done.
    + left. split; [done|]. intros d' [->|Hd']%elem_of_cons; [done|by apply Hn].
  - right. exists w. split_and!; [done|set_solver|done|]. intros d' [->|Hd']%elem_of_cons; [auto|by apply Hall].
Qed.

(** The decisions the second loop considers. *)
Definition candidate (dels : list Delegation) (revoked consumed : gset string) (q : AuthorityQuery)
    (d : AuthorityDecision) : bool :=
  negb (skipped revoked consumed q d) && authoritative d dels (aq_At q).

Lemma select_last dels revoked consumed q l : forall o p,
  select_decision dels revoked consumed q o p l =
  (last_such (fun d => candidate dels revoked consumed q d && negb (is_primary d)) o l,
   last_such (fun d => candidate dels revoked consumed q d && is_primary d) p l).
Proof.
  induction l as [|d l IH]; intros o p; simpl; [done|]. rewrite !IH. unfold candidate, authoritative.
  destruct (skipped revoked consumed q d), (is_primary d), (hasDelegation d dels (aq_At q)); done.
Qed.

Definition winner (dels : list Delegation) (revoked consumed : gset string) (q : AuthorityQuery)
    (l : list AuthorityDecision) : option AuthorityDecision :=
  let '(ordinary, primary) := select_decision dels revoked consumed q None None l in
  match primary with Some d => Some d | None => ordinary end.

(** The winner outranks every other candidate: a Primary Peer's decision an ordinary one, a later one an earlier one. *)
Definition outranks (w d : AuthorityDecision) : Prop :=
  (is_primary w = true /\ is_primary d = false) \/ (is_primary w = is_primary d /\ decision_before d w).

Lemma winner_spec dels revoked consumed q l :
  StronglySorted decision_before l ->
  match winner dels revoked consumed q l with
  | None => forall d, d ∈ l -> candidate dels revoked consumed q d = false
  | Some w => w ∈ l /\ candidate dels revoked consumed q w = true /\
              forall d, d ∈ l -> candidate dels revoked consumed q d = true -> outranks w d
  end.
Proof.
  intros Hs. unfold winner. rewrite select_last.
  destruct (last_such_spec decision_before (fun d => candidate dels revoked consumed q d && is_primary d) l None Hs)
    as [[-> Hn]|(w & -> & Hin & Hf & Hall)].
  - destruct (last_such_spec decision_before (fun d => candidate dels revoked consumed q d && negb (is_primary d)) l None Hs)
      as [[-> Hn']|(w & -> & Hin & Hf & Hall)].
    + intros d Hd. specialize (Hn d Hd). specialize (Hn' d Hd). by destruct (candidate _ _ _ _ d), (is_primary d).
    + apply andb_true_iff in Hf as [Hc Hp%negb_true_iff]. split_and!; [done..|]. intros d Hd Hcd. right.
      specialize (Hn d Hd). rewrite Hcd in Hn. simpl in Hn. split; [congruence|]. apply Hall; [done|]. by rewrite Hcd, Hn.
  - apply andb_true_iff in Hf as [Hc Hp]. split_and!; [done..|]. intros d Hd Hcd. unfold outranks.
    destruct (is_primary d) eqn:E; [|by left]. right. split; [congruence|]. apply Hall; [done|]. by rewrite Hcd, E.
Qed.

Lemma ReconcileAuthority_ok recs dels cons q r :
  let ordered := merge_sort decision_before recs in
  ReconcileAuthority recs dels cons q = Ok r <->
  bad_query q = false /\ Forall (fun d => AuthorityDecision_Validate d = Ok tt) recs /\
  validateDelegations dels = Ok tt /\
  exists consumed revoked, validateConsumptions cons ordered (aq_At q) = Ok consumed /\
    scan_history dels (aq_At q) ∅ ∅ ordered = Ok revoked /\
    effective q (winner dels revoked consumed q ordered) = Ok r.
Proof.
  simpl. unfold ReconcileAuthority, winner. rewrite <- validate_all_ok.
  destruct (bad_query q); [by split; [|intros (? & _)]|].
  destruct (validate_all _ recs) as [[]|]; simpl; [|by split; [|intros (_ & ? & _)]].
  destruct (validateDelegations dels) as [[]|]; simpl; [|by split; [|intros (_ & _ & ? & _)]].
  destruct (validateConsumptions _ _ _) as [consumed|]; simpl; [|by split; [|intros (_ & _ & _ & ? & ? & ? & _)]].
  destruct (scan_history _ _ _ _ _) as [revoked|]; simpl; [|by split; [|intros (_ & _ & _ & ? & ? & _ & ? & _)]].
  destruct (select_decision dels revoked consumed q None None _) as [o p] eqn:E. split.
  - intros H. split_and!; [done..|]. exists consumed, revoked. by rewrite E.
  - intros (_ & _ & _ & c' & r' & [= <-] & [= <-] & H). by rewrite E in H.
Qed.

(** Every refusal is the same error. *)
Lemma AuthorityDecision_Validate_err d e : AuthorityDecision_Validate d = Err e -> e = ErrInvalidDecision.
Proof. unfold AuthorityDecision_Validate. repeat (destruct (if _ then _ else _) eqn:? || case_match); congruence. Qed.

Lemma ReconcileAuthority_err recs dels cons q e :
  ReconcileAuthority recs dels cons q = Err e -> e = ErrInvalidDecision.
Proof.
  assert (H1 : forall l e, validate_all AuthorityDecision_Validate l = Err e -> e = ErrInvalidDecision).
  { induction l as [|d l IH]; intros e'; simpl; [done|].
    destruct (AuthorityDecision_Validate d) as [[]|] eqn:E; simpl; [apply IH|].
    intros [= <-]. by eapply AuthorityDecision_Validate_err. }
  assert (H2 : forall l seen e, delegations_from seen l = Err e -> e = ErrInvalidDecision).
  { induction l as [|d l IH]; intros seen e'; simpl; [done|]. destruct (_ || _); [congruence|apply IH]. }
  assert (H3 : forall dec t l ids cd S e, consumptions_from dec t ids cd S l = Err e -> e = ErrInvalidDecision).
  { intros dec t. induction l as [|c l IH]; intros ids cd S e'; simpl; [done|]. destruct (_ || _); [congruence|apply IH]. }
  assert (H4 : forall t l byID R e, scan_history dels t byID R l = Err e -> e = ErrInvalidDecision).
  { intros t. induction l as [|d l IH]; intros byID R e'; simpl; [done|]. destruct (bool_decide _); [congruence|].
    destruct (_ && negb _); [congruence|apply IH]. }
  unfold ReconcileAuthority. destruct (bad_query q); [congruence|].
  destruct (validate_all _ recs) as [[]|] eqn:E1; simpl; [|intros [= <-]; by eapply H1].
  destruct (validateDelegations dels) as [[]|] eqn:E2; simpl; [|intros [= <-]; by eapply H2].
  destruct (validateConsumptions _ _ _) as [consumed|] eqn:E3; simpl; [|intros [= <-]; by eapply H3].
  destruct (scan_history _ _ _ _ _) as [revoked|] eqn:E4; simpl; [|intros [= <-]; by eapply H4].
  destruct (select_decision _ _ _ _ _ _ _) as [o p]. unfold effective. repeat case_match; congruence.
Qed.

(** A decision that is in force for a query: it applies, whoever made it had the
    right to, and nobody with the right to has revoked it nor has it been used
    up, at the time of the query. *)
Record in_force (recs : list AuthorityDecision) (dels : list Delegation) (cons : list ApprovalConsumption)
    (q : AuthorityQuery) (d : AuthorityDecision) : Prop := {
  if_recorded : d ∈ recs;
  if_decides : is_revocation d = false;
  if_applies : applicable d q = true;
  if_authority : authoritative d dels (aq_At q) = true;
  if_not_revoked : forall r, r ∈ recs -> counts dels (aq_At q) r = true -> ad_RevokesDecisionID r <> ad_DecisionID d;
  if_not_used : forall c, c ∈ cons -> ap_DecisionID c = ad_DecisionID d -> aq_At q < ap_ConsumedAt c;
}.

Lemma validateConsumptions_ok cons l at_ S :
  validateConsumptions cons l at_ = Ok S ->
  Forall (fun c => consumption_fits (byDecision l) c = true) cons /\
  NoDup (ap_ConsumptionID <$> cons) /\ NoDup (ap_DecisionID <$> cons) /\
  forall x, x ∈ S <-> exists c, c ∈ cons /\ ap_DecisionID c = x /\ ap_ConsumedAt c <= at_.
Proof.
  intros (Hf & H1 & H2 & _ & ->)%consumptions_from_ok. split_and!; [done..|]. intros x.
  rewrite elem_of_union, elem_of_list_to_set, list_elem_of_fmap. setoid_rewrite list_elem_of_filter. set_solver.
Qed.

Lemma candidate_in_force recs dels cons q consumed revoked d :
  let ordered := merge_sort decision_before recs in
  validateConsumptions cons ordered (aq_At q) = Ok consumed ->
  scan_history dels (aq_At q) ∅ ∅ ordered = Ok revoked ->
  d ∈ ordered /\ candidate dels revoked consumed q d = true <-> in_force recs dels cons q d.
Proof.
  intros ordered (_ & _ & _ & Hc)%validateConsumptions_ok (_ & _ & Hr)%scan_history_ok.
  assert (Hin : forall x, x ∈ ordered <-> x ∈ recs) by (intros x; unfold ordered; by rewrite merge_sort_Permutation).
  rewrite Hin. unfold candidate, skipped. rewrite andb_true_iff, negb_true_iff, !orb_false_iff, !bool_decide_eq_false,
    negb_false_iff, Hr, Hc. split.
  - intros (Hd & ((([Hrev Hnr] & Hnc) & Happ) & Hau)). constructor; try done.
    + intros r Hrr Hcr He. apply Hnr. right. exists r. by rewrite Hin.
    + intros c Hcc He. destruct (Z.lt_ge_cases (aq_At q) (ap_ConsumedAt c)); [done|]. exfalso. apply Hnc. by exists c.
  - intros [Hd Hrev Happ Hau Hnr Hnc]. split_and!; try done.
    + intros [?|(r & Hrr & Hcr & He)]; [set_solver|]. apply (Hnr r); [by apply Hin|done|done].
    + intros (c & Hcc & He & Hle). pose proof (Hnc c Hcc He). lia.
Qed.

Lemma last_such_ext {A} (f g : A -> bool) init l : (forall x, f x = g x) -> last_such f init l = last_such g init l.
Proof. intros H. revert init. induction l as [|x l IH]; intros init; simpl; [done|]. by rewrite H, IH. Qed.

Lemma reconcile_perm recs dels cons recs' dels' cons' q r :
  recs' ≡ₚ recs -> dels' ≡ₚ dels -> cons' ≡ₚ cons ->
  ReconcileAuthority recs dels cons q = Ok r -> ReconcileAuthority recs' dels' cons' q = Ok r.
Proof.
  intros Hp1 Hp2 Hp3 (Hq & Hv & Hd & consumed & revoked & Hc & Hr & He)%ReconcileAuthority_ok.
  assert (Hs : merge_sort decision_before recs' = merge_sort decision_before recs).
  { apply (merge_sort_order_free decision_before); [done|]. intros x y Hx Hy H1 H2.
    apply scan_history_ok in Hr as (Hnd & _). rewrite merge_sort_Permutation in Hnd.
    apply (NoDup_same ad_DecisionID recs); [done|by rewrite <- Hp1|by rewrite <- Hp1|].
    pose proof (anti_symm key_le _ _ H1 H2) as Hk. unfold decision_key in Hk. congruence. }
  apply ReconcileAuthority_ok. rewrite Hs. split_and!; [done|by rewrite Hp1| |].
  - apply delegations_from_ok in Hd as (? & ? & ?). apply delegations_from_ok. setoid_rewrite Hp2. by split_and!.
  - exists consumed, revoked. split_and!; [|by rewrite (scan_history_ext _ _ _ _ Hp2)|].
    + apply consumptions_from_ok in Hc as (Hf & H1 & H2 & Hi & ->). apply consumptions_from_ok.
      split_and!; [by rewrite Hp3..|by setoid_rewrite Hp3|]. f_equal. apply list_to_set_perm_L. by rewrite Hp3.
    + rewrite <- He. f_equal. unfold winner. rewrite !select_last.
      assert (Hcd : forall d, candidate dels' revoked consumed q d = candidate dels revoked consumed q d).
      { intros d. unfold candidate, authoritative, hasDelegation. by rewrite (existsb_perm _ _ _ Hp2). }
      rewrite !(last_such_ext _ _ _ _ (fun d => f_equal2 andb (Hcd d) eq_refl)). done.
Qed.

(** The latest decision of the highest authority in force decides, and
    without one the default does.  Whenever a history reconciles, the result is
    that of a decision in force which outranks every other one in force (a
    Primary Peer's before a delegated Peer's, later before earlier), or, when
    none is in force, autonomy or a request for approval as the query asks; and
    it does not depend on how decisions, delegations and consumptions are
    listed. *)
Theorem authority_latest_in_force recs dels cons q :
  (forall r, ReconcileAuthority recs dels cons q = Ok r ->
     exists o, effective q o = Ok r /\
       match o with
       | None => forall d, ~ in_force recs dels cons q d
       | Some w => in_force recs dels cons q w /\ forall d, in_force recs dels cons q d -> outranks w d
       end) /\
  (forall recs' dels' cons', recs' ≡ₚ recs -> dels' ≡ₚ dels -> cons' ≡ₚ cons ->
     ReconcileAuthority recs' dels' cons' q = ReconcileAuthority recs dels cons q).
Proof.
  split.
  - intros r (_ & _ & _ & consumed & revoked & Hc & Hr & He)%ReconcileAuthority_ok.
    eexists. split; [exact He|].
    pose proof (fun d => candidate_in_force recs dels cons q consumed revoked d Hc Hr) as Hiff. simpl in Hiff.
    pose proof (winner_spec dels revoked consumed q _ (StronglySorted_merge_sort decision_before recs)) as Hw.
    destruct (winner _ _ _ _ _) as [w|].
    + destruct Hw as (Hin & Hcw & Hall). split; [by apply Hiff|].
      intros d [? ?]%Hiff. by apply Hall.
    + intros d [Hin Hcd]%Hiff. rewrite Hw in Hcd by done. done.
  - intros recs' dels' cons' Hp1 Hp2 Hp3.
    destruct (ReconcileAuthority recs dels cons q) as [r|e] eqn:E; [by eapply reconcile_perm|].
    destruct (ReconcileAuthority recs' dels' cons' q) as [r|e'] eqn:E'.
    + rewrite (reconcile_perm _ _ _ _ _ _ _ _ (symmetry Hp1) (symmetry Hp2) (symmetry Hp3) E') in E. done.
    + by rewrite (ReconcileAuthority_err _ _ _ _ _ E), (ReconcileAuthority_err _ _ _ _ _ E').
Qed.

(** *** One-time approvals *)

Lemma byDecision_lookup l d : NoDup (ad_DecisionID <$> l) -> d ∈ l -> byDecision l !! ad_DecisionID d = Some d.
Proof.
  unfold byDecision. intros Hnd Hin.
  assert (H : forall m : gmap string AuthorityDecision, (d ∈ l \/ (m !! ad_DecisionID d = Some d /\ forall d', d' ∈ l -> ad_DecisionID d' <> ad_DecisionID d)) ->
    foldl (fun m d => <[ad_DecisionID d := d]> m) m l !! ad_DecisionID d = Some d); [|by apply H; left].
  clear Hin. induction l as [|x l IH]; intros m; simpl; [set_solver|].
  apply NoDup_cons in Hnd as [Hx Hnd]. intros H. apply IH; [done|].
  assert (Hfresh : forall d', d' ∈ l -> ad_DecisionID d' <> ad_DecisionID x).
  { intros d' Hd' He. apply Hx, list_elem_of_fmap. by exists d'. }
  destruct H as [[->|Hin]%elem_of_cons|[Hm Hne]]; [right|by left|right].
  - by rewrite lookup_insert_eq.
  - split; [|set_solver]. rewrite lookup_insert_ne; [done|]. apply Hne. set_solver.
Qed.

Lemma effective_pending q o r c :
  effective q o = Ok r -> ar_PendingConsumption r = Some c ->
  exists d, o = Some d /\ c = pending_consumption d q /\ ad_Use d = GrantOneTime /\
    same_str (ad_Effect d) EffectProhibit = false /\ blank (aq_AttemptID q) = false.
Proof.
  unfold effective. destruct o as [d|]; [|destruct (aq_RequireExplicitApproval q); by intros [= <-]].
  destruct (same_str (ad_Effect d) _) eqn:Ee; [by intros [= <-]|].
  destruct (same_str (ad_Use d) _) eqn:Eu; [|by intros [= <-]].
  destruct (blank _) eqn:Eb; [done|]. intros [= <-]. simpl. intros [= <-]. exists d. by apply same_str_true in Eu.
Qed.

Lemma effective_basis q o r : effective q o = Ok r -> ar_BasisDecisionID r = from_option ad_DecisionID "" o.
Proof.
  unfold effective. destruct o as [d|]; [|by destruct (aq_RequireExplicitApproval q); intros [= <-]].
  destruct (same_str _ _); [by intros [= <-]|]. destruct (same_str _ _); [|by intros [= <-]].
  destruct (blank _); by intros [= <-].
Qed.

(** What a valid, one-time allowing decision states. *)
Lemma one_time_valid d :
  AuthorityDecision_Validate d = Ok tt -> is_revocation d = false -> same_str (ad_Effect d) EffectProhibit = false ->
  ad_Use d = GrantOneTime ->
  ad_Effect d = EffectAllow /\ blank (ad_DecisionID d) = false /\ blank (ad_CorrelationID d) = false.
Proof.
  unfold AuthorityDecision_Validate, is_revocation. intros Hv Hr Hp Hu. rewrite Hr, Hp, Hu in Hv.
  destruct (_ || _) eqn:E in Hv; [done|]. repeat (apply orb_false_iff in E as [E ?]).
  destruct (ended _ _); [done|]. destruct (same_str (ad_Effect d) EffectAllow) eqn:Ea; [|done].
  apply same_str_true in Ea. simpl in Hv. destruct (blank (ad_CorrelationID d)); done.
Qed.

(** The claim an approval asks for is a valid one. *)
Lemma pending_fits l d q :
  NoDup (ad_DecisionID <$> l) -> d ∈ l -> AuthorityDecision_Validate d = Ok tt -> is_revocation d = false ->
  same_str (ad_Effect d) EffectProhibit = false -> ad_Use d = GrantOneTime -> applicable d q = true ->
  bad_query q = false -> blank (aq_AttemptID q) = false ->
  consumption_fits (byDecision l) (pending_consumption d q) = true.
Proof.
  intros Hnd Hin Hv Hr Hp Hu Happ Hq Hb. destruct (one_time_valid d Hv Hr Hp Hu) as (Ha & Hid & Hcor).
  unfold applicable in Happ. destruct (_ || _) eqn:E in Happ; [done|].
  apply orb_false_iff in E as [E Hexp]. apply orb_false_iff in E as [_ Hat]. rewrite Ha, Hu in Happ. simpl in Happ.
  apply same_str_true in Happ. unfold bad_query in Hq. apply orb_false_iff in Hq as [_ Hz].
  unfold consumption_fits. cbn [ap_DecisionID pending_consumption]. rewrite (byDecision_lookup _ _ Hnd Hin).
  unfold ApprovalConsumption_Validate, pending_consumption. cbn [ap_SchemaVersion ap_ConsumptionID ap_DecisionID
    ap_CorrelationID ap_AttemptID ap_ConsumedAt ap_Provenance].
  assert (B1 : blank ("consume:" +:+ ad_DecisionID d +:+ ":" +:+ aq_AttemptID q) = false)
    by (by apply (blank_letter (Ascii.ascii_of_nat 99))).
  assert (B2 : blank "core:one-time-consumption" = false) by (by vm_compute).
  rewrite B1, B2, Hid, <- Happ, Hcor, Hb, Hz, Ha, Hu, Hexp. simpl.
  unfold After in Hat. unfold Before. by rewrite Hat, (proj2 (same_str_true _ _) eq_refl).
Qed.

Lemma record_consumption cons c l at_ S :
  validateConsumptions cons l at_ = Ok S -> consumption_fits (byDecision l) c = true ->
  (forall c', c' ∈ cons -> ap_ConsumptionID c' <> ap_ConsumptionID c /\ ap_DecisionID c' <> ap_DecisionID c) ->
  forall at_', exists S', validateConsumptions (c :: cons) l at_' = Ok S'.
Proof.
  intros (Hf & H1 & H2 & _)%validateConsumptions_ok Hc Hfresh at_'. eexists.
  apply consumptions_from_ok. split_and!; [by constructor| | |set_solver|reflexivity].
  - constructor; [|done]. intros (c' & He & Hin)%list_elem_of_fmap. by destruct (Hfresh _ Hin).
  - constructor; [|done]. intros (c' & He & Hin)%list_elem_of_fmap. by destruct (Hfresh _ Hin).
Qed.

(** A history that reconciles for one query reconciles for every well-formed one. *)
Lemma reconcile_total recs dels cons cons' q r q' S :
  ReconcileAuthority recs dels cons q = Ok r ->
  validateConsumptions cons' (merge_sort decision_before recs) (aq_At q') = Ok S ->
  bad_query q' = false -> blank (aq_AttemptID q') = false ->
  is_ok (ReconcileAuthority recs dels cons' q') = true.
Proof.
  intros (_ & Hv & Hd & _ & revoked & _ & Hr & _)%ReconcileAuthority_ok Hc Hq Hb.
  pose proof (scan_history_total dels dels (aq_At q) (aq_At q') _ _ _ ∅ _ Hr) as Ht.
  destruct (scan_history dels (aq_At q') ∅ ∅ _) as [revoked'|] eqn:Es; [|done].
  destruct (effective q' (winner dels revoked' S q' (merge_sort decision_before recs))) as [r'|] eqn:Ee.
  - by rewrite (proj2 (ReconcileAuthority_ok recs dels cons' q' r')) by eauto 10.
  - revert Ee. unfold effective. rewrite Hb. repeat case_match; done.
Qed.

(** C34: a one-time approval is used at most once.  When reconciliation allows an
    action on a one-time approval it names the decision in force for exactly
    this correlation and the claim to record; once that claim is part of a
    history, no later query of any history is allowed on that approval again;
    and recording it, in a history that holds nothing from the future and no
    claim of the same identifier, keeps the history valid for every well-formed
    query. *)
Theorem approval_used_once recs dels cons q r c :
  ReconcileAuthority recs dels cons q = Ok r -> ar_PendingConsumption r = Some c ->
  (exists d, in_force recs dels cons q d /\ ap_DecisionID c = ad_DecisionID d /\
     ar_BasisDecisionID r = ad_DecisionID d /\ ad_Use d = GrantOneTime /\
     ad_CorrelationID d = aq_CorrelationID q /\ ap_AttemptID c = aq_AttemptID q) /\
  (forall recs' dels' cons' q' r', c ∈ cons' -> aq_At q <= aq_At q' ->
     ReconcileAuthority recs' dels' cons' q' = Ok r' -> ar_BasisDecisionID r' <> ap_DecisionID c) /\
  ((forall c', c' ∈ cons -> ap_ConsumedAt c' <= aq_At q /\ ap_ConsumptionID c' <> ap_ConsumptionID c) ->
   forall q', bad_query q' = false -> blank (aq_AttemptID q') = false ->
     is_ok (ReconcileAuthority recs dels (c :: cons) q') = true).
Proof.
  intros HR0 Hp. apply ReconcileAuthority_ok in HR0 as HR. destruct HR as (Hq & Hv & Hd & consumed & revoked & Hc & Hr & He).
  destruct (effective_pending _ _ _ _ He Hp) as (d & Hw & -> & Hu & Hpro & Hb).
  pose proof (winner_spec dels revoked consumed q _ (StronglySorted_merge_sort decision_before recs)) as Hspec.
  rewrite Hw in Hspec. destruct Hspec as (Hin & Hcand & _).
  destruct (proj1 (candidate_in_force _ _ _ _ _ _ d Hc Hr) (conj Hin Hcand)) as [Hrec Hdec Happ Hau Hnr Hnu].
  assert (Hdv : AuthorityDecision_Validate d = Ok tt) by (by rewrite Forall_forall in Hv; apply Hv).
  destruct (one_time_valid d Hdv Hdec Hpro Hu) as (Ha & Hid & Hcor).
  apply scan_history_ok in Hr as Hscan. destruct Hscan as (Hnd & _).
  split_and!.
  - exists d. split_and!; try done.
    + rewrite (effective_basis _ _ _ He), Hw. done.
    + unfold applicable in Happ. destruct (_ || _) in Happ; [done|]. rewrite Ha, Hu in Happ. simpl in Happ.
      by apply same_str_true in Happ.
  - intros recs' dels' cons' q' r' Hcin Hle HR' Hbas.
    destruct (proj1 (authority_latest_in_force recs' dels' cons' q') r' HR') as (o & He' & Ho).
    rewrite (effective_basis _ _ _ He') in Hbas. destruct o as [w|]; simpl in Hbas.
    + destruct Ho as [[_ _ _ _ _ Hnu'] _]. pose proof (Hnu' _ Hcin ltac:(done)) as H. simpl in H. lia.
    + rewrite <- Hbas in Hid. done.
  - intros Hfresh q' Hq' Hb'.
    destruct (record_consumption _ (pending_consumption d q) _ _ _ Hc) with (at_' := aq_At q') as [S' HS'].
    + by apply pending_fits.
    + intros c' Hc'. destruct (Hfresh _ Hc') as [Hle Hne]. split; [done|]. intros He'.
      pose proof (Hnu _ Hc' He'). lia.
    + by eapply reconcile_total.
Qed.

(** *** The legacy owner *)

Definition establishment (id : string) (at_ : time) : PrimaryEvent :=
  {| pe_SchemaVersion := SchemaVersion; pe_EventID := "legacy-owner-establishment:" +:+ id;
     pe_Type := PrimaryEstablish; pe_At := at_; pe_TieBreaker := "legacy-owner-import";
     pe_ActorKind := ActorPeer; pe_ActorPeerID := id; pe_PeerID := id; pe_TargetPeerID := "";
     pe_Assurance := AssuranceReverified; pe_Provenance := "core5-owner-import:reverified" |}.

Lemma establishment_valid id at_ :
  validID id = true -> IsZero at_ = false -> PrimaryEvent_Validate (establishment id at_) = Ok tt.
Proof.
  intros Hid Hz. unfold PrimaryEvent_Validate, by_primary. simpl.
  assert (B : blank ("legacy-owner-establishment:" +:+ id) = false) by (by apply (blank_letter (Ascii.ascii_of_nat 108))).
  rewrite B, Hz, Hid. cbn. by rewrite (proj2 (same_str_true id id) eq_refl).
Qed.

Lemma MigrateLegacyOwner_ok owner at_ assurance m :
  let id := TrimSpace (lo_OwnerID owner) in
  MigrateLegacyOwner owner at_ assurance = Ok m <->
  validID id = true /\ IsZero at_ = false /\ assurance = AssuranceReverified /\
  m = {| lm_Peer := {| id_SchemaVersion := SchemaVersion; id_ID := id; id_CreatedAt := at_ |};
         lm_Relationship := {| rl_PeerID := id; rl_RecognizedAt := at_ |};
         lm_PrimaryEvent := establishment id at_; lm_LegacyProse := lo_Content owner;
         lm_ProseProvenance := "core5:owner/owner.md" |}.
Proof.
  intros id. unfold MigrateLegacyOwner. fold id. split.
  - destruct (validID id) eqn:Hid; [|done]. destruct (IsZero at_) eqn:Hz; [done|]. cbn [negb orb].
    destruct (RequireAssurance assurance OperationPrimaryPeerChange) as [[]|] eqn:E; [|done].
    apply protected_assurance in E as ->. cbn [res_bind]. fold (establishment id at_).
    rewrite establishment_valid by done. by intros [= <-].
  - intros (Hid & Hz & -> & ->). rewrite Hid, Hz. cbn [negb orb].
    rewrite (proj2 (protected_assurance AssuranceReverified) eq_refl). cbn [res_bind].
    fold (establishment id at_). by rewrite establishment_valid.
Qed.

(** The legacy owner becomes the Primary Peer, and only after re-verification.
    The import succeeds exactly for a named owner, a set time and re-verified
    assurance; what it produces is a valid identity, and its event alone replays
    to that identity as the one Primary, recognised by the imported
    relationship. *)
Theorem legacy_owner_established owner at_ assurance :
  let id := TrimSpace (lo_OwnerID owner) in
  (is_ok (MigrateLegacyOwner owner at_ assurance) = true <->
     validID id = true /\ IsZero at_ = false /\ assurance = AssuranceReverified) /\
  forall m, MigrateLegacyOwner owner at_ assurance = Ok m ->
    id_ID (lm_Peer m) = id /\ Identity_Validate (lm_Peer m) = Ok tt /\
    exists st, ReplayPrimary [lm_PrimaryEvent m] = Ok st /\ ps_PeerID st = id /\ ps_ReleaseRequested st = false /\
      ValidateRelationships [lm_Relationship m] st = Ok tt.
Proof.
  intros id. split.
  - split.
    + destruct (MigrateLegacyOwner owner at_ assurance) eqn:E; [|done]. intros _.
      by apply MigrateLegacyOwner_ok in E as (? & ? & ? & _).
    + intros (H1 & H2 & ->). erewrite (proj2 (MigrateLegacyOwner_ok _ _ _ _)); [done|].
      split_and!; [exact H1|exact H2|reflexivity|reflexivity].
  - intros m (Hid & Hz & -> & ->)%MigrateLegacyOwner_ok. fold id in Hid |- *. simpl. split_and!; [done| |].
    { unfold Identity_Validate. simpl. by rewrite Hid, Hz. }
    exists {| ps_PeerID := id; ps_ReleaseRequested := false; ps_LastEventID := pe_EventID (establishment id at_) |}.
    split_and!; [|done..|].
    + apply ReplayPrimary_ok. split; [by constructor; [apply establishment_valid|]|].
      change (merge_sort event_before [establishment id at_]) with [establishment id at_]. cbn [replay].
      by rewrite bool_decide_eq_false_2 by set_solver.
    + unfold ValidateRelationships. simpl. rewrite Hid, Hz, bool_decide_eq_false_2 by set_solver. simpl.
      rewrite bool_decide_eq_true_2 by set_solver. by rewrite andb_false_r.
Qed.

(** ** Evaluation on concrete histories *)

Definition demo_subject : AuthoritySubject := {| su_DollID := "doll"; su_PeerID := "" |}.
Definition demo_scope : ActionScope := {| sc_Capability := "fs"; sc_Operation := "write"; sc_Resource := "" |}.

Definition demo_grant (id : string) : AuthorityDecision :=
  {| ad_SchemaVersion := 1; ad_DecisionID := id; ad_IssuerPeerID := "p"; ad_IssuerRoleAtIssue := IssuerPrimaryPeer;
     ad_Subject := demo_subject; ad_Action := demo_scope; ad_Effect := EffectAllow; ad_Use := GrantOneTime;
     ad_CorrelationID := "call"; ad_RevokesDecisionID := ""; ad_IssuedAt := 5; ad_ExpiresAt := None;
     ad_TieBreaker := "t"; ad_Provenance := "owner"; ad_Assurance := AssuranceReverified |}.

Definition demo_ban : AuthorityDecision :=
  {| ad_SchemaVersion := 1; ad_DecisionID := "ban"; ad_IssuerPeerID := "p"; ad_IssuerRoleAtIssue := IssuerPrimaryPeer;
     ad_Subject := demo_subject; ad_Action := demo_scope; ad_Effect := EffectProhibit; ad_Use := "";
     ad_CorrelationID := ""; ad_RevokesDecisionID := ""; ad_IssuedAt := 3; ad_ExpiresAt := None;
     ad_TieBreaker := "t"; ad_Provenance := "owner"; ad_Assurance := AssuranceReverified |}.

Definition demo_query (attempt : string) (at_ : time) : AuthorityQuery :=
  {| aq_Subject := demo_subject; aq_Action := demo_scope; aq_CorrelationID := "call"; aq_AttemptID := attempt;
     aq_RequireExplicitApproval := false; aq_At := at_ |}.

Definition effect_of (r : res peer_error AuthorityResult) : string :=
  match r with Ok x => ar_Effect x | Err _ => "error" end.

(** The grant, issued later than the ban, allows once; afterwards the ban is back. *)
Example grant_then_ban :
  effect_of (ReconcileAuthority [demo_grant "g"; demo_ban] [] [] (demo_query "a" 7)) = EffectiveAllow /\
  effect_of (ReconcileAuthority [demo_grant "g"; demo_ban] []
    [pending_consumption (demo_grant "g") (demo_query "a" 7)] (demo_query "b" 8)) = EffectiveProhibit.
Proof. split; vm_compute; reflexivity. Qed.

Lemma approval_used_once_witness :
  ReconcileAuthority [demo_grant "g"; demo_ban] [] [] (demo_query "a" 7) =
    effective (demo_query "a" 7) (Some (demo_grant "g")) /\
  is_ok (ReconcileAuthority [demo_grant "g"; demo_ban] []
    [pending_consumption (demo_grant "g") (demo_query "a" 7)] (demo_query "b" 8)) = true.
Proof.
  split; [vm_compute; reflexivity|].
  destruct (approval_used_once [demo_grant "g"; demo_ban] [] [] (demo_query "a" 7)
    {| ar_Effect := EffectiveAllow; ar_BasisDecisionID := "g"; ar_DefaultAutonomy := false;
       ar_PendingConsumption := Some (pending_consumption (demo_grant "g") (demo_query "a" 7)) |}
    (pending_consumption (demo_grant "g") (demo_query "a" 7))) as (_ & _ & H);
    [vm_compute; reflexivity|reflexivity|].
  apply H; [intros c' Hc'; inversion Hc'|vm_compute; reflexivity|vm_compute; reflexivity].
Defined.

Lemma authority_latest_in_force_witness :
  exists o, effective (demo_query "a" 7) o =
    effective (demo_query "a" 7) (Some (demo_grant "g")) /\ is_Some o.
Proof.
  destruct (proj1 (authority_latest_in_force [demo_grant "g"; demo_ban] [] [] (demo_query "a" 7)))
    with (r := {| ar_Effect := EffectiveAllow; ar_BasisDecisionID := "g"; ar_DefaultAutonomy := false;
       ar_PendingConsumption := Some (pending_consumption (demo_grant "g") (demo_query "a" 7)) |}) as (o & He & Ho);
    [vm_compute; reflexivity|].
  exists o. rewrite He. split; [vm_compute; reflexivity|]. destruct o as [w|]; [by exists w|].
  vm_compute in He. discriminate.
Defined.

(** Two claims on different approvals can share their identifier, and a history with both is refused. *)
Lemma consumption_ids_clash :
  let c1 := pending_consumption (demo_grant "a:b") (demo_query "c" 7) in
  let c2 := pending_consumption (demo_grant "a") (demo_query "b:c" 8) in
  ap_DecisionID c1 <> ap_DecisionID c2 /\ ap_ConsumptionID c1 = ap_ConsumptionID c2 /\
  effect_of (ReconcileAuthority [demo_grant "a:b"; demo_grant "a"] [] [c1] (demo_query "d" 9)) = EffectiveAllow /\
  ReconcileAuthority [demo_grant "a:b"; demo_grant "a"] [] [c1; c2] (demo_query "d" 9) = Err ErrInvalidDecision.
Proof. split_and!; vm_compute; congruence. Qed.

Definition demo_event (id typ actor peer target : string) (at_ : time) : PrimaryEvent :=
  {| pe_SchemaVersion := 1; pe_EventID := id; pe_Type := typ; pe_At := at_; pe_TieBreaker := "t";
     pe_ActorKind := if empty_str actor then ActorDoll else ActorPeer; pe_ActorPeerID := actor; pe_PeerID := peer;
     pe_TargetPeerID := target; pe_Assurance := AssuranceReverified; pe_Provenance := "import" |}.

Definition demo_allegiance : list PrimaryEvent :=
  [demo_event "e3" PrimaryTransfer "p" "p" "q" 9; demo_event "e1" PrimaryEstablish "p" "p" "" 5;
   demo_event "e2" PrimaryReleaseRequest "" "p" "" 7].

Lemma allegiance_protected_witness :
  ReplayPrimary (rev demo_allegiance) =
    Ok {| ps_PeerID := "q"; ps_ReleaseRequested := false; ps_LastEventID := "e3" |}.
Proof.
  apply (proj1 (allegiance_protected demo_allegiance _ ltac:(vm_compute; reflexivity))).
  apply Permutation_sym, Permutation_rev.
Defined.

Lemma legacy_owner_established_witness :
  exists m, MigrateLegacyOwner {| lo_OwnerID := " ada "; lo_Name := "Ada"; lo_Content := "" |} 9 AssuranceReverified = Ok m /\
    id_ID (lm_Peer m) = "ada".
Proof.
  destruct (legacy_owner_established {| lo_OwnerID := " ada "; lo_Name := "Ada"; lo_Content := "" |} 9
    AssuranceReverified) as [_ H].
  eexists. split; [vm_compute; reflexivity|]. eapply H. vm_compute. reflexivity.
Defined.
