(* ===== verification/ExternalIdentity.v ===== *)
(** * External identities

    Core/ExternalIdentity/resolver.go: the immutable table that maps an identity
    observed by an authenticated Gateway (instance, platform, subject) to a
    Core-owned principal and its authority class.  The claims a platform event
    carries are part of what is presented and are never read.  The maps of the
    resolver are the maps of the source; a context that is already done is a
    case of its own. *)
From S2P Require Import Prelude GoStrings.
From stdpp Require Import options.

Definition AuthorityParticipant := "participant".
Definition AuthorityOwner := "owner".
Definition AuthorityPeer := "peer".

Inductive identity_error :=
| ErrInvalidMapping | ErrInvalidIdentity | ErrUnmapped | ContextDone.

#[global] Instance identity_error_eq_dec : EqDecision identity_error.
Proof. solve_decision. Defined.

Record Identity := { i_GatewayInstanceID : string; i_Platform : string; i_SubjectID : string }.

Record PresentedIdentity := { p_Identity : Identity; p_Claims : gmap string string }.

Record Principal := { pr_ID : string; pr_Authority : string }.

#[global] Instance Principal_eq_dec : EqDecision Principal.
Proof. solve_decision. Defined.

Record Mapping := { mp_Identity : Identity; mp_Principal : Principal }.

(** [identityKey]: gateway, platform and subject. *)
Abbreviation identityKey := (string * string * string)%type (only parsing).

Record MemoryResolver := {
  mr_mappings : gmap identityKey Principal;
  mr_principals : gmap string Principal;
}.

Definition validatedKey (i : Identity) : res identity_error identityKey :=
  let gateway := TrimSpace (i_GatewayInstanceID i) in
  let platform := TrimSpace (i_Platform i) in
  let subject := TrimSpace (i_SubjectID i) in
  refuse empty_str gateway || empty_str platform || empty_str subject with ErrInvalidIdentity;
  Ok (gateway, platform, subject).

Definition validPrincipal (p : Principal) : bool :=
  negb (blank (pr_ID p)) &&
  (same_str (pr_Authority p) AuthorityParticipant || same_str (pr_Authority p) AuthorityOwner ||
   same_str (pr_Authority p) AuthorityPeer).

(** The loop over the configured mappings. *)
Fixpoint add_mappings (resolved : gmap identityKey Principal) (authorities : gmap string string)
    (mappings : list Mapping) : res identity_error (gmap identityKey Principal * gmap string string) :=
  match mappings with
  | [] => Ok (resolved, authorities)
  | m :: rest =>
      match validatedKey (mp_Identity m) with
      | Err _ => Err ErrInvalidMapping
      | Ok key =>
          refuse negb (validPrincipal (mp_Principal m)) with ErrInvalidMapping;
          refuse bool_decide (is_Some (resolved !! key)) with ErrInvalidMapping;
          let p := {| pr_ID := TrimSpace (pr_ID (mp_Principal m)); pr_Authority := pr_Authority (mp_Principal m) |} in
          refuse match authorities !! pr_ID p with Some a => negb (same_str a (pr_Authority p)) | None => false end
            with ErrInvalidMapping;
          add_mappings (<[key := p]> resolved) (<[pr_ID p := pr_Authority p]> authorities) rest
      end
  end.

Definition NewMemoryResolver (mappings : list Mapping) : res identity_error MemoryResolver :=
  try r <- add_mappings ∅ ∅ mappings;
  Ok {| mr_mappings := fst r;
        mr_principals := map_imap (fun id authority => Some {| pr_ID := id; pr_Authority := authority |}) (snd r) |}.

Definition LookupPrincipal (r : MemoryResolver) (done : bool) (id : string) : res identity_error Principal :=
  refuse done with ContextDone;
  refuse blank id with ErrInvalidIdentity;
  match mr_principals r !! TrimSpace id with
  | None => Err ErrUnmapped
  | Some p => Ok p
  end.

Definition Resolve (r : MemoryResolver) (done : bool) (presented : PresentedIdentity) : res identity_error Principal :=
  refuse done with ContextDone;
  try key <- validatedKey (p_Identity presented);
  match mr_mappings r !! key with
  | None => Err ErrUnmapped
  | Some p => Ok p
  end.

Record PrincipalRecord := { rec_Principal : Principal; rec_Identities : list Identity }.

Definition identity_before (a b : Identity) : Prop :=
  if same_str (i_Platform a) (i_Platform b) then
    if same_str (i_GatewayInstanceID a) (i_GatewayInstanceID b) then str_le (i_SubjectID a) (i_SubjectID b)
    else str_lt (i_GatewayInstanceID a) (i_GatewayInstanceID b) = true
  else str_lt (i_Platform a) (i_Platform b) = true.

#[global] Instance identity_before_dec : RelDecision identity_before.
Proof. intros a b. unfold identity_before. repeat case_match; apply _. Defined.

Definition record_before (a b : PrincipalRecord) : Prop := str_le (pr_ID (rec_Principal a)) (pr_ID (rec_Principal b)).

#[global] Instance record_before_dec : RelDecision record_before.
Proof. intros a b. unfold record_before. apply _. Defined.

(** The identities the second loop files under a principal. *)
Definition identities_of (r : MemoryResolver) (id : string) : list Identity :=
  omap (fun e : identityKey * Principal =>
    let '((g, p, s), principal) := e in
    if same_str (pr_ID principal) id then Some {| i_GatewayInstanceID := g; i_Platform := p; i_SubjectID := s |}
    else None) (map_to_list (mr_mappings r)).

Definition ListPrincipals (r : MemoryResolver) (done : bool) : res identity_error (list PrincipalRecord) :=
  refuse done with ContextDone;
  Ok (merge_sort record_before
    ((fun e : string * Principal =>
        {| rec_Principal := snd e; rec_Identities := merge_sort identity_before (identities_of r (fst e)) |})
      <$> map_to_list (mr_principals r))).

(** ** What the table promises *)

(** Every mapped principal is listed under its own id with a known authority. *)
Record resolver_ok (r : MemoryResolver) : Prop := {
  ro_listed : forall key p, mr_mappings r !! key = Some p -> mr_principals r !! pr_ID p = Some p;
  ro_named : forall id p, mr_principals r !! id = Some p -> pr_ID p = id;
  ro_used : forall id p, mr_principals r !! id = Some p -> exists key, mr_mappings r !! key = Some p;
}.

(** The configured mapping an entry of the table comes from. *)
Definition maps_to (m : Mapping) (key : identityKey) (p : Principal) : Prop :=
  validatedKey (mp_Identity m) = Ok key /\ validPrincipal (mp_Principal m) = true /\
  p = {| pr_ID := TrimSpace (pr_ID (mp_Principal m)); pr_Authority := pr_Authority (mp_Principal m) |}.

Lemma add_mappings_inv ms : forall res0 auth0 res1 auth1,
  add_mappings res0 auth0 ms = Ok (res1, auth1) ->
  (forall key p, res0 !! key = Some p -> auth0 !! pr_ID p = Some (pr_Authority p)) ->
  (forall id a, auth0 !! id = Some a -> exists key, res0 !! key = Some {| pr_ID := id; pr_Authority := a |}) ->
  (forall key p, res1 !! key = Some p <-> res0 !! key = Some p \/ exists m, m ∈ ms /\ maps_to m key p) /\
  (forall key p, res1 !! key = Some p -> auth1 !! pr_ID p = Some (pr_Authority p)) /\
  (forall id a, auth1 !! id = Some a -> exists key, res1 !! key = Some {| pr_ID := id; pr_Authority := a |}).
Proof.
  induction ms as [|m ms IH]; intros res0 auth0 res1 auth1; simpl.
  { intros [= <- <-] H1 H2. split_and!; [|done..]. intros key p. split; [by left|].
    intros [?|(m & Hm & _)]; [done|]. by apply not_elem_of_nil in Hm. }
  destruct (validatedKey (mp_Identity m)) as [key|] eqn:Ek; [|done].
  destruct (validPrincipal (mp_Principal m)) eqn:Ev; [|done]. cbn [negb].
  destruct (bool_decide _) eqn:Ed; [done|]. bool_props. apply eq_None_not_Some in Ed.
  set (p := {| pr_ID := TrimSpace (pr_ID (mp_Principal m)); pr_Authority := pr_Authority (mp_Principal m) |}).
  assert (Hm : maps_to m key p) by done.
  destruct (match auth0 !! pr_ID p with Some a => _ | None => _ end) eqn:Ea; [done|].
  intros Hadd H1 H2. apply IH in Hadd as (Hiff & Ha & Hb).
  - split_and!; [|done..]. intros key' p'. rewrite Hiff, lookup_insert_Some. setoid_rewrite elem_of_cons. split.
    + intros [[[-> <-]|[_ ?]]|(m' & ? & ?)]; [right; by exists m; auto|by left|right; by exists m'; auto].
    + intros [Hin|(m' & [->|?] & Hm')]; [|destruct Hm as (Hk1 & _ & Hp1), Hm' as (Hk2 & _ & Hp2)|right; by exists m'].
      * left. right. split; [congruence|done].
      * left. left. split; congruence.
  - intros key' p' [[-> <-]|[Hne Hin]]%lookup_insert_Some; [by rewrite lookup_insert_eq|].
    specialize (H1 _ _ Hin). destruct (decide (pr_ID p = pr_ID p')) as [He|He].
    + rewrite <- He in H1 |- *. rewrite lookup_insert_eq. rewrite H1 in Ea.
      apply negb_false_iff, same_str_true in Ea. congruence.
    + by rewrite lookup_insert_ne.
  - intros id a [[<- <-]|[Hne Hin]]%lookup_insert_Some.
    + exists key. rewrite lookup_insert_eq. reflexivity.
    + destruct (H2 _ _ Hin) as (key' & Hk'). exists key'. rewrite lookup_insert_ne; [done|]. congruence.
Qed.

Lemma NewMemoryResolver_ok ms r :
  NewMemoryResolver ms = Ok r ->
  resolver_ok r /\ forall key p, mr_mappings r !! key = Some p <-> exists m, m ∈ ms /\ maps_to m key p.
Proof.
  unfold NewMemoryResolver. destruct (add_mappings ∅ ∅ ms) as [[res1 auth1]|] eqn:E; simpl; [|done]. intros [= <-].
  apply add_mappings_inv in E as (Hiff & Ha & Hb); [|intros ? ?; by rewrite lookup_empty..]. simpl. split.
  - constructor; simpl.
    + intros key p Hp. rewrite map_lookup_imap, (Ha _ _ Hp). by destruct p.
    + intros id p. rewrite map_lookup_imap. destruct (auth1 !! id); simpl; by intros [= <-].
    + intros id p. rewrite map_lookup_imap. destruct (auth1 !! id) as [a|] eqn:E; simpl; [|done]. intros [= <-].
      apply (Hb _ _ E).
  - intros key p. rewrite Hiff, lookup_empty. naive_solver.
Qed.

Lemma maps_to_trimmed m key p : maps_to m key p -> TrimSpace (pr_ID p) = pr_ID p /\ blank (pr_ID p) = false.
Proof.
  intros (_ & Hv & ->). simpl. rewrite TrimSpace_idem, blank_trim. split; [done|].
  unfold validPrincipal in Hv. apply andb_true_iff in Hv as [Hb%negb_true_iff _]. done.
Qed.

(** Resolution depends on the presented tuple alone, never on claims; it answers
    with exactly what the configuration maps the tuple to; and the reverse
    look-up agrees with it. *)
Theorem identity_from_configuration ms r presented p :
  NewMemoryResolver ms = Ok r ->
  (Resolve r false presented = Ok p <->
     exists m key, m ∈ ms /\ maps_to m key p /\ validatedKey (p_Identity presented) = Ok key) /\
  (Resolve r false presented = Ok p -> LookupPrincipal r false (pr_ID p) = Ok p).
Proof.
  intros [[Hl Hn _] Hiff]%NewMemoryResolver_ok. unfold Resolve, LookupPrincipal. simpl.
  destruct (validatedKey (p_Identity presented)) as [key|]; simpl; [|by split; [split; [|intros (? & ? & _ & _ & ?)]|]].
  destruct (mr_mappings r !! key) as [p'|] eqn:E.
  - split.
    + split; [intros [= <-]; apply Hiff in E as (m & ? & ?); by exists m, key|].
      intros (m & key' & Hm & Hmt & [= <-]). f_equal. apply Some_inj. rewrite <- E. apply Hiff. by exists m.
    + intros [= <-]. apply Hiff in E as Hm. destruct Hm as (m & _ & [Ht Hb]%maps_to_trimmed).
      by rewrite Hb, Ht, (Hl _ _ E).
  - split; [|done]. split; [done|]. intros (m & key' & Hm & Hmt & [= <-]).
    rewrite (proj2 (Hiff key p)) in E by eauto. done.
Qed.

(** The principals of the table are those that configured mappings name. *)
Lemma LookupPrincipal_configured ms r id p :
  NewMemoryResolver ms = Ok r -> LookupPrincipal r false id = Ok p ->
  pr_ID p = TrimSpace id /\ exists m key, m ∈ ms /\ maps_to m key p.
Proof.
  intros [[Hl Hn Hu] Hiff]%NewMemoryResolver_ok. unfold LookupPrincipal. simpl.
  destruct (blank id); [done|]. destruct (mr_principals r !! TrimSpace id) as [p'|] eqn:E; [|done]. intros [= <-].
  split; [by apply Hn|]. destruct (Hu _ _ E) as (key & Hk). apply Hiff in Hk as (m & ? & ?). by exists m, key.
Qed.

(** Nobody resolves to more than one authority. *)
Lemma one_authority ms r id p p' :
  NewMemoryResolver ms = Ok r -> LookupPrincipal r false id = Ok p ->
  (exists m key, m ∈ ms /\ maps_to m key p' /\ pr_ID p' = pr_ID p) -> p' = p.
Proof.
  intros Hr Hp (m & key & Hm & Hmt & He). pose proof Hr as [[Hl Hn _] Hiff]%NewMemoryResolver_ok.
  destruct (LookupPrincipal_configured _ _ _ _ Hr Hp) as (Hid & m' & key' & Hm' & Hmt').
  assert (H1 : mr_principals r !! pr_ID p' = Some p') by (apply (Hl key), Hiff; by exists m).
  assert (H2 : mr_principals r !! pr_ID p = Some p) by (apply (Hl key'), Hiff; by exists m'). congruence.
Qed.
