(* ===== verification/Session.v ===== *)
(** * Interaction sessions

    Core/Session/service.go over the statements of
    Core/Persistence/sessions.go and session_participants.go.  The manager holds
    its lock during an operation, so an operation is one function on the tables;
    [now] is the clock during it and [uuid] the identifier it draws.

    The schema declares that participants and their sources belong to a session.
    SQLite enforces this per connection: [fk] says whether the connection that
    runs a statement does.  Database failures are not modelled. *)
From S2P Require Import Prelude GoStrings GoTime SQL.
From stdpp Require Import options.

(** ** Data *)

Definition OwnerBody := "body".
Definition OwnerGateway := "gateway".

Inductive Status := StatusActive | StatusClosed.

#[global] Instance Status_eq_dec : EqDecision Status.
Proof. solve_decision. Defined.

Inductive session_error :=
| ErrNotFound | ErrInvalidRequest | ErrInvalidTransition | ErrConversationInUse | CreateFailed | BindFailed.

#[global] Instance session_error_eq_dec : EqDecision session_error.
Proof. solve_decision. Defined.

Record Owner := { o_Kind : string; o_InstanceID : string }.

#[global] Instance Owner_eq_dec : EqDecision Owner.
Proof. solve_decision. Defined.

Record InteractionSession := {
  s_ID : string;
  s_Owner : Owner;
  s_ExternalConversationRef : string;
  s_Status : Status;
  s_CreatedAt : time;
  s_UpdatedAt : time;
}.

Record ParticipantBinding := {
  pb_SessionID : string;
  pb_PrincipalID : string;
  pb_JoinedAt : time;
  pb_LastSeenAt : time;
}.

Record ParticipantSource := {
  src_SessionID : string;
  src_GatewayInstanceID : string;
  src_Platform : string;
  src_SubjectID : string;
  src_PrincipalID : string;
}.

(** The primary keys. *)
Abbreviation participant_key := (string * string)%type (only parsing).
Abbreviation source_key := (string * string * string * string)%type (only parsing).

Record sessions_db := {
  t_sessions : gmap string InteractionSession;
  t_participants : gmap participant_key ParticipantBinding;
  t_sources : gmap source_key ParticipantSource;
}.

Definition put_sessions (db : sessions_db) (m : gmap string InteractionSession) : sessions_db :=
  {| t_sessions := m; t_participants := t_participants db; t_sources := t_sources db |}.
Definition put_participants (db : sessions_db) (m : gmap participant_key ParticipantBinding) : sessions_db :=
  {| t_sessions := t_sessions db; t_participants := m; t_sources := t_sources db |}.
Definition put_sources (db : sessions_db) (m : gmap source_key ParticipantSource) : sessions_db :=
  {| t_sessions := t_sessions db; t_participants := t_participants db; t_sources := m |}.

(** ** Statements on sessions *)

(** The rows of [interaction_sessions_active_conversation]. *)
Definition in_conversation (owner : Owner) (ref : string) (s : InteractionSession) : bool :=
  bool_decide (s_Owner s = owner) && same_str (s_ExternalConversationRef s) ref &&
  bool_decide (s_Status s = StatusActive).

Definition LoadSession (db : sessions_db) (id : string) : res session_error InteractionSession :=
  match t_sessions db !! id with Some s => Ok s | None => Err ErrNotFound end.

Definition LoadActiveSessionByConversation (db : sessions_db) (owner : Owner) (ref : string)
    : res session_error InteractionSession :=
  match find_row (t_sessions db) (in_conversation owner ref) with Some s => Ok s | None => Err ErrNotFound end.

(** The insertion fails on a used identifier, and on the unique index of active
    conversations unless the reference is empty. *)
Definition CreateSession (db : sessions_db) (s : InteractionSession) : res session_error sessions_db :=
  let ref := s_ExternalConversationRef s in
  if bool_decide (is_Some (t_sessions db !! s_ID s)) ||
     (bool_decide (s_Status s = StatusActive) && negb (empty_str ref) &&
      any_row (t_sessions db) (in_conversation (s_Owner s) ref))
  then
    if negb (empty_str ref) && is_ok (LoadActiveSessionByConversation db (s_Owner s) ref)
    then Err ErrConversationInUse else Err CreateFailed
  else Ok (put_sessions db (<[s_ID s := s]> (t_sessions db))).

(** [UPDATE ... SET ... WHERE session_id = ? AND status = 'active'] and [sessionTransitionResult]. *)
Definition update_active (db : sessions_db) (id : string) (f : InteractionSession -> InteractionSession)
    : res session_error InteractionSession * sessions_db :=
  match t_sessions db !! id with
  | None => (Err ErrNotFound, db)
  | Some s =>
      if bool_decide (s_Status s = StatusActive)
      then (Ok (f s), put_sessions db (<[id := f s]> (t_sessions db)))
      else (Err ErrInvalidTransition, db)
  end.

Definition touched (now : time) (s : InteractionSession) : InteractionSession :=
  {| s_ID := s_ID s; s_Owner := s_Owner s; s_ExternalConversationRef := s_ExternalConversationRef s;
     s_Status := s_Status s; s_CreatedAt := s_CreatedAt s; s_UpdatedAt := now |}.

Definition closed (now : time) (s : InteractionSession) : InteractionSession :=
  {| s_ID := s_ID s; s_Owner := s_Owner s; s_ExternalConversationRef := s_ExternalConversationRef s;
     s_Status := StatusClosed; s_CreatedAt := s_CreatedAt s; s_UpdatedAt := now |}.

Definition ResumeSession (db : sessions_db) (id : string) (now : time) := update_active db id (touched now).
Definition CloseSession (db : sessions_db) (id : string) (now : time) := update_active db id (closed now).

Definition ListActiveSessions (db : sessions_db) (owner : option Owner) : list InteractionSession :=
  select_by s_CreatedAt s_ID (t_sessions db) (fun s =>
    bool_decide (s_Status s = StatusActive) &&
    match owner with Some o => bool_decide (s_Owner s = o) | None => true end).

(** ** Statements on participants *)

Definition upsert_participant (db : sessions_db) (sessionID principalID : string) (seenAt : time)
    : ParticipantBinding * sessions_db :=
  let b := match t_participants db !! (sessionID, principalID) with
           | Some b => {| pb_SessionID := pb_SessionID b; pb_PrincipalID := pb_PrincipalID b;
                          pb_JoinedAt := pb_JoinedAt b; pb_LastSeenAt := seenAt |}
           | None => {| pb_SessionID := sessionID; pb_PrincipalID := principalID; pb_JoinedAt := seenAt;
                        pb_LastSeenAt := seenAt |}
           end in
  (b, put_participants db (<[(sessionID, principalID) := b]> (t_participants db))).

Definition orphan (fk : bool) (db : sessions_db) (sessionID : string) : bool :=
  fk && negb (bool_decide (is_Some (t_sessions db !! sessionID))).

Definition BindSessionParticipant (fk : bool) (db : sessions_db) (sessionID principalID : string) (seenAt : time)
    : res session_error ParticipantBinding * sessions_db :=
  if orphan fk db sessionID then (Err ErrNotFound, db)
  else let '(b, db') := upsert_participant db sessionID principalID seenAt in (Ok b, db').

Definition referenced (db : sessions_db) (sessionID principalID : string) : bool :=
  any_row (t_sources db) (fun s => same_str (src_SessionID s) sessionID && same_str (src_PrincipalID s) principalID).

Definition removeUnreferencedParticipant (db : sessions_db) (sessionID principalID : string) : sessions_db :=
  if referenced db sessionID principalID then db
  else put_participants db (delete (sessionID, principalID) (t_participants db)).

Definition key_of (s : ParticipantSource) : source_key :=
  (src_SessionID s, src_GatewayInstanceID s, src_Platform s, src_SubjectID s).

(** The source with the session the transaction is about; a refused insertion rolls back. *)
Definition BindResolvedSessionParticipant (fk : bool) (db : sessions_db) (sessionID : string)
    (source : ParticipantSource) (seenAt : time) : res session_error ParticipantBinding * sessions_db :=
  if orphan fk db sessionID then (Err BindFailed, db)
  else
    let row := {| src_SessionID := sessionID; src_GatewayInstanceID := src_GatewayInstanceID source;
                  src_Platform := src_Platform source; src_SubjectID := src_SubjectID source;
                  src_PrincipalID := src_PrincipalID source |} in
    let previous := t_sources db !! key_of row in
    let '(b, db1) := upsert_participant db sessionID (src_PrincipalID source) seenAt in
    let db2 := put_sources db1 (<[key_of row := row]> (t_sources db1)) in
    (Ok b, match previous with
           | Some p => if same_str (src_PrincipalID p) (src_PrincipalID source) then db2
                       else removeUnreferencedParticipant db2 sessionID (src_PrincipalID p)
           | None => db2
           end).

(** *** Reconciliation with the configuration *)

Definition config_key (s : ParticipantSource) : string :=
  src_GatewayInstanceID s +:+ NUL +:+ src_Platform s +:+ NUL +:+ src_SubjectID s.

Definition allowed_principals (configured : list ParticipantSource) : gmap string string :=
  foldl (fun m s => <[config_key s := src_PrincipalID s]> m) ∅ configured.

(** Looking up a key the map does not hold gives the empty string. *)
Definition is_stale (allowed : gmap string string) (s : ParticipantSource) : bool :=
  negb (same_str (default "" (allowed !! config_key s)) (src_PrincipalID s)).

Definition drop_source (db : sessions_db) (s : ParticipantSource) : sessions_db :=
  removeUnreferencedParticipant (put_sources db (delete (key_of s) (t_sources db)))
    (src_SessionID s) (src_PrincipalID s).

(** [rows] are the sources in the order the database returns them, [bindings]
    the participants left after the stale sources were dropped, likewise. *)
Definition ReconcileSessionParticipantSources (db : sessions_db) (configured rows : list ParticipantSource)
    (bindings : sessions_db -> list participant_key) : sessions_db :=
  let stale := filter (fun s => is_stale (allowed_principals configured) s = true) rows in
  let db1 := foldl drop_source db stale in
  foldl (fun db k => removeUnreferencedParticipant db k.1 k.2) db1 (bindings db1).

Definition ListSessionParticipants (db : sessions_db) (sessionID : string) : list ParticipantBinding :=
  select_by pb_JoinedAt pb_PrincipalID (t_participants db) (fun b => same_str (pb_SessionID b) sessionID).

Definition ListPrincipalSessions (db : sessions_db) (principalID : string) : list ParticipantBinding :=
  select_by pb_JoinedAt pb_SessionID (t_participants db) (fun b => same_str (pb_PrincipalID b) principalID).

(** ** The manager *)

Definition validOwner (o : Owner) : bool :=
  (same_str (o_Kind o) OwnerBody || same_str (o_Kind o) OwnerGateway) && negb (blank (o_InstanceID o)).

Definition Create (db : sessions_db) (now : time) (uuid : string) (owner : Owner) (ref : string)
    : res session_error InteractionSession * sessions_db :=
  if negb (validOwner owner) then (Err ErrInvalidRequest, db)
  else
    let created := {| s_ID := uuid; s_Owner := owner; s_ExternalConversationRef := ref; s_Status := StatusActive;
                      s_CreatedAt := now; s_UpdatedAt := now |} in
    match CreateSession db created with
    | Err e => (Err e, db)
    | Ok db' => (Ok created, db')
    end.

Definition Lookup (db : sessions_db) (id : string) : res session_error InteractionSession :=
  refuse blank id with ErrInvalidRequest;
  LoadSession db id.

Record ResumeRequest := { rr_SessionID : string; rr_Owner : Owner; rr_ExternalConversationRef : string }.

Definition Resume (db : sessions_db) (now : time) (r : ResumeRequest)
    : res session_error InteractionSession * sessions_db :=
  let byID := negb (blank (rr_SessionID r)) in
  let byConversation := validOwner (rr_Owner r) && negb (empty_str (rr_ExternalConversationRef r)) in
  if Bool.eqb byID byConversation then (Err ErrInvalidRequest, db)
  else if byID then ResumeSession db (rr_SessionID r) now
  else match LoadActiveSessionByConversation db (rr_Owner r) (rr_ExternalConversationRef r) with
       | Err e => (Err e, db)
       | Ok found => ResumeSession db (s_ID found) now
       end.

Definition Close (db : sessions_db) (now : time) (id : string) : res session_error InteractionSession * sessions_db :=
  if blank id then (Err ErrInvalidRequest, db) else CloseSession db id now.

Definition ListActive (db : sessions_db) (filter_owner : option Owner) : res session_error (list InteractionSession) :=
  match filter_owner with
  | Some o => refuse negb (validOwner o) with ErrInvalidRequest; Ok (ListActiveSessions db (Some o))
  | None => Ok (ListActiveSessions db None)
  end.

Definition BindParticipant (fk : bool) (db : sessions_db) (now : time) (sessionID principalID : string)
    : res session_error ParticipantBinding * sessions_db :=
  if blank sessionID || blank principalID then (Err ErrInvalidRequest, db)
  else BindSessionParticipant fk db sessionID (TrimSpace principalID) now.

Definition BindResolvedParticipant (fk : bool) (db : sessions_db) (now : time) (sessionID : string)
    (source : ParticipantSource) : res session_error ParticipantBinding * sessions_db :=
  if blank sessionID || negb (same_str (src_SessionID source) sessionID) || blank (src_GatewayInstanceID source) ||
     blank (src_Platform source) || blank (src_SubjectID source) || blank (src_PrincipalID source)
  then (Err ErrInvalidRequest, db)
  else BindResolvedSessionParticipant fk db sessionID source now.

Definition ReconcileParticipantSources := ReconcileSessionParticipantSources.

Definition ListParticipants (db : sessions_db) (sessionID : string) : res session_error (list ParticipantBinding) :=
  refuse blank sessionID with ErrInvalidRequest;
  Ok (ListSessionParticipants db sessionID).

Definition ListParticipantSessions (db : sessions_db) (principalID : string)
    : res session_error (list ParticipantBinding) :=
  refuse blank principalID with ErrInvalidRequest;
  Ok (ListPrincipalSessions db (TrimSpace principalID)).

(** ** Histories *)

(** One operation of the manager, whatever it answers. *)
Inductive session_step (fk : bool) : sessions_db -> sessions_db -> Prop :=
| step_create db now uuid owner ref : session_step fk db (Create db now uuid owner ref).2
| step_resume db now r : session_step fk db (Resume db now r).2
| step_close db now id : session_step fk db (Close db now id).2
| step_bind db now sid pid : session_step fk db (BindParticipant fk db now sid pid).2
| step_bind_resolved db now sid src : session_step fk db (BindResolvedParticipant fk db now sid src).2
| step_reconcile db configured rows bindings :
    rows ≡ₚ (map_to_list (t_sources db)).*2 ->
    (forall db', bindings db' ≡ₚ (map_to_list (t_participants db')).*1) ->
    session_step fk db (ReconcileParticipantSources db configured rows bindings).

Definition empty_db : sessions_db := {| t_sessions := ∅; t_participants := ∅; t_sources := ∅ |}.

Record db_ok (db : sessions_db) : Prop := {
  ok_id : forall id s, t_sessions db !! id = Some s -> s_ID s = id;
  ok_conversation : forall id id' s s', t_sessions db !! id = Some s -> t_sessions db !! id' = Some s' ->
    s_Status s = StatusActive -> s_Status s' = StatusActive -> s_Owner s = s_Owner s' ->
    s_ExternalConversationRef s = s_ExternalConversationRef s' -> s_ExternalConversationRef s <> "" -> id = id';
  ok_participant : forall k b, t_participants db !! k = Some b ->
    k = (pb_SessionID b, pb_PrincipalID b) /\ is_Some (t_sessions db !! pb_SessionID b);
  ok_source : forall k s, t_sources db !! k = Some s ->
    k = key_of s /\ is_Some (t_participants db !! (src_SessionID s, src_PrincipalID s)) /\ src_PrincipalID s <> "";
}.

(** Closed sessions stay closed, and what identifies a session never changes. *)
Definition session_kept (s s' : InteractionSession) : Prop :=
  s_ID s' = s_ID s /\ s_Owner s' = s_Owner s /\ s_ExternalConversationRef s' = s_ExternalConversationRef s /\
  s_CreatedAt s' = s_CreatedAt s /\ (s_Status s = StatusClosed -> s' = s).

Definition keeps_sessions (db db' : sessions_db) : Prop :=
  forall id s, t_sessions db !! id = Some s -> exists s', t_sessions db' !! id = Some s' /\ session_kept s s'.

Lemma referenced_true db sid pid :
  referenced db sid pid = true <->
  exists k s, t_sources db !! k = Some s /\ src_SessionID s = sid /\ src_PrincipalID s = pid.
Proof.
  unfold referenced. rewrite any_row_true. setoid_rewrite andb_true_iff. setoid_rewrite same_str_true. naive_solver.
Qed.

Lemma session_kept_refl s : session_kept s s.
Proof. by repeat split. Qed.

#[local] Hint Resolve session_kept_refl : neon.

(** *** Sessions *)

Lemma in_conversation_true o ref s :
  in_conversation o ref s = true <->
  s_Owner s = o /\ s_ExternalConversationRef s = ref /\ s_Status s = StatusActive.
Proof. unfold in_conversation. rewrite !andb_true_iff, !bool_decide_eq_true, same_str_true. tauto. Qed.

Lemma CreateSession_ok db s db' :
  CreateSession db s = Ok db' ->
  t_sessions db !! s_ID s = None /\ db' = put_sessions db (<[s_ID s := s]> (t_sessions db)) /\
  (s_Status s = StatusActive -> s_ExternalConversationRef s <> "" ->
   any_row (t_sessions db) (in_conversation (s_Owner s) (s_ExternalConversationRef s)) = false).
Proof.
  unfold CreateSession. cbn zeta. destruct (_ || _) eqn:E; [destruct (negb _ && is_ok _); done|]. intros [= <-].
  apply orb_false_iff in E as [E1 E2]. bool_props. split_and!; [by apply eq_None_not_Some|done|].
  intros Ha Hr. rewrite (bool_decide_eq_true_2 _ Ha), (proj2 (empty_str_false _) Hr) in E2. done.
Qed.

(** *** What no operation changes

    This needs no foreign keys. *)

Lemma removeUnreferenced_sessions db sid pid :
  t_sessions (removeUnreferencedParticipant db sid pid) = t_sessions db.
Proof. unfold removeUnreferencedParticipant. by destruct (referenced _ _ _). Qed.

Lemma foldl_sessions {A} (f : sessions_db -> A -> sessions_db) (l : list A) :
  (forall db x, t_sessions (f db x) = t_sessions db) -> forall db, t_sessions (foldl f db l) = t_sessions db.
Proof. intros Hf. induction l as [|x l IH]; intros db; simpl; [done|]. by rewrite IH, Hf. Qed.

Lemma BindResolved_sessions fk db sid src now :
  t_sessions (BindResolvedSessionParticipant fk db sid src now).2 = t_sessions db.
Proof.
  unfold BindResolvedSessionParticipant. destruct (orphan _ _ _); [done|]. simpl.
  destruct (t_sources db !! _); simpl; [|done]. destruct (same_str _ _); [done|]. by rewrite removeUnreferenced_sessions.
Qed.

(** What a step does to the sessions: nothing, a new row, or an update of an active row. *)
Lemma session_step_rows fk db db' :
  session_step fk db db' ->
  t_sessions db' = t_sessions db \/
  (exists s, t_sessions db !! s_ID s = None /\ t_sessions db' = <[s_ID s := s]> (t_sessions db) /\
     (s_Status s = StatusActive -> s_ExternalConversationRef s <> "" ->
      any_row (t_sessions db) (in_conversation (s_Owner s) (s_ExternalConversationRef s)) = false)) \/
  (exists id s s', t_sessions db !! id = Some s /\ s_Status s = StatusActive /\ session_kept s s' /\
     t_sessions db' = <[id := s']> (t_sessions db)).
Proof.
  assert (Hup : forall d id f, (forall s, s_Status s = StatusActive -> session_kept s (f s)) ->
    t_sessions (update_active d id f).2 = t_sessions d \/
    exists i s s', t_sessions d !! i = Some s /\ s_Status s = StatusActive /\ session_kept s s' /\
      t_sessions (update_active d id f).2 = <[i := s']> (t_sessions d)).
  { intros d id f Hf. unfold update_active. destruct (t_sessions d !! id) as [s|] eqn:E; [|by left].
    destruct (bool_decide _) eqn:Ea; [|by left]. bool_props. right. exists id, s, (f s). auto. }
  assert (Hkept : forall now s, s_Status s = StatusActive -> session_kept s (touched now s) /\ session_kept s (closed now s)).
  { intros now s Ha. repeat split; simpl; congruence. }
  destruct 1 as [db now uuid owner ref|db now r|db now id|db now sid pid|db now sid src|db conf rows bs _ _].
  - unfold Create. destruct (negb _); [by left|]. destruct (CreateSession _ _) as [d|] eqn:E; [|by left].
    apply CreateSession_ok in E as (Hn & -> & Hc). right. left. eexists. split; [exact Hn|]. split; [done|exact Hc].
  - unfold Resume. destruct (Bool.eqb _ _); [by left|].
    destruct (negb _); [|destruct (LoadActiveSessionByConversation _ _ _) as [found|]; [|by left]].
    + destruct (Hup db (rr_SessionID r) (touched now)); [by intros; apply Hkept|by left|by right; right].
    + destruct (Hup db (s_ID found) (touched now)); [by intros; apply Hkept|by left|by right; right].
  - unfold Close. destruct (blank id); [by left|].
    destruct (Hup db id (closed now)); [by intros; apply Hkept|by left|by right; right].
  - left. unfold BindParticipant, BindSessionParticipant. destruct (_ || _); [done|]. by destruct (orphan _ _ _).
  - left. unfold BindResolvedParticipant. destruct (_ || _); [done|]. apply BindResolved_sessions.
  - left. unfold ReconcileParticipantSources, ReconcileSessionParticipantSources.
    rewrite !foldl_sessions; [done|intros; unfold drop_source; by rewrite removeUnreferenced_sessions|].
    intros; by rewrite removeUnreferenced_sessions.
Qed.

Lemma session_step_keeps fk db db' : session_step fk db db' -> keeps_sessions db db'.
Proof.
  intros [He|[(s & Hn & He & _)|(id & s & s' & Hs & _ & Hk & He)]]%session_step_rows i x Hx; rewrite He.
  - eauto with neon.
  - exists x. rewrite lookup_insert_ne by congruence. auto with neon.
  - destruct (decide (i = id)) as [->|Hne]; [|rewrite lookup_insert_ne by done; eauto with neon].
    rewrite lookup_insert_eq. simplify_eq. eauto.
Qed.

(** Rows are filed under their own identifier. *)
Definition sessions_named (db : sessions_db) : Prop := forall id s, t_sessions db !! id = Some s -> s_ID s = id.

Lemma session_step_named fk db db' : session_step fk db db' -> sessions_named db -> sessions_named db'.
Proof.
  intros [He|[(s & Hn & He & _)|(id & s & s' & Hs & _ & Hk & He)]]%session_step_rows Hok i x; rewrite He; [auto| |].
  - intros [[<- <-]|[_ Hx]]%lookup_insert_Some; auto.
  - intros [[<- <-]|[_ Hx]]%lookup_insert_Some; [|auto]. destruct Hk as (-> & _). by apply Hok.
Qed.

Lemma session_kept_trans s1 s2 s3 : session_kept s1 s2 -> session_kept s2 s3 -> session_kept s1 s3.
Proof.
  intros (A1 & B1 & C1 & D1 & E1) (A2 & B2 & C2 & D2 & E2). repeat split; try congruence.
  intros Hc. rewrite <- (E1 Hc) in Hc |- *. auto.
Qed.

#[global] Instance keeps_sessions_preorder : PreOrder keeps_sessions.
Proof.
  split; [intros db i s H; exists s; auto with neon|]. intros a b c Hab Hbc i s H.
  destruct (Hab _ _ H) as (s1 & H1 & K1). destruct (Hbc _ _ H1) as (s2 & H2 & K2). exists s2.
  eauto using session_kept_trans.
Qed.

Lemma create_ok db s db' :
  s_Status s = StatusActive -> CreateSession db s = Ok db' -> db_ok db -> db_ok db'.
Proof.
  intros Hact (Hn & -> & Hc)%CreateSession_ok [Hid Hcv Hp Hs].
  constructor; simpl.
  - intros id s' [[<- <-]|[_ H]]%lookup_insert_Some; [done|by apply Hid].
  - assert (Hne : forall id s', t_sessions db !! id = Some s' -> s_Status s' = StatusActive ->
      s_Owner s' = s_Owner s -> s_ExternalConversationRef s' = s_ExternalConversationRef s ->
      s_ExternalConversationRef s <> "" -> False).
    { intros id s' H Ha Ho Hr Hne. pose proof (proj1 (any_row_false _ _) (Hc Hact Hne) _ _ H) as Hf.
      rewrite (proj2 (in_conversation_true _ _ _)) in Hf; [done|by split_and!]. }
    intros id id' s1 s2 [[<- <-]|[_ H1]]%lookup_insert_Some [[<- <-]|[_ H2]]%lookup_insert_Some Ha1 Ha2 Ho Hr Hz;
      [done|destruct (Hne _ _ H2); congruence|destruct (Hne _ _ H1); congruence|by eapply Hcv].
  - intros k b H. destruct (Hp _ _ H) as [? He]. split; [done|]. apply lookup_insert_is_Some'. by right.
  - intros k s' H. by apply Hs.
Qed.

Lemma update_active_ok db id f :
  (forall s, s_ID (f s) = s_ID s /\ s_Owner (f s) = s_Owner s /\
     s_ExternalConversationRef (f s) = s_ExternalConversationRef s /\ s_CreatedAt (f s) = s_CreatedAt s) ->
  db_ok db -> db_ok (update_active db id f).2.
Proof.
  intros Hf Hok.   unfold update_active. destruct (t_sessions db !! id) as [s|] eqn:E; [|done].
  destruct (bool_decide _) eqn:Ea; [|done]. bool_props. simpl. destruct Hok as [Hid Hcv Hp Hs].
  destruct (Hf s) as (Fi & Fo & Fr & Fc). constructor; simpl.
  - intros i s' [[<- <-]|[_ H]]%lookup_insert_Some; [rewrite Fi|]; by apply Hid.
  - intros i i' s1 s2 [[<- <-]|[_ H1]]%lookup_insert_Some [[<- <-]|[_ H2]]%lookup_insert_Some A1 A2 Ho Hr Hz.
    + done.
    + apply (Hcv _ _ s s2); try done; congruence.
    + apply (Hcv _ _ s1 s); try done; congruence.
    + by apply (Hcv _ _ s1 s2).
  - intros k b H. destruct (Hp _ _ H) as [? He]. split; [done|]. apply lookup_insert_is_Some'. by right.
  - intros k s' H. by apply Hs.
Qed.

(** *** Participants *)

Lemma upsert_ok db sid pid now :
  is_Some (t_sessions db !! sid) -> db_ok db ->
  db_ok (upsert_participant db sid pid now).2 /\
  t_sessions (upsert_participant db sid pid now).2 = t_sessions db /\
  t_sources (upsert_participant db sid pid now).2 = t_sources db /\
  t_participants (upsert_participant db sid pid now).2 !! (sid, pid) = Some (upsert_participant db sid pid now).1.
Proof.
  intros Hex [Hid Hcv Hp Hs]. simpl. rewrite lookup_insert_eq. split_and!; [|done..]. constructor; simpl; [done..| |].
  - intros k b [[<- <-]|[_ H]]%lookup_insert_Some; [|by apply Hp].
    destruct (t_participants db !! (sid, pid)) as [b0|] eqn:E; [|done].
    destruct (Hp _ _ E) as [[= -> ->] ?]. done.
  - intros k s H. destruct (Hs _ _ H) as (? & He & ?). split_and!; [done| |done]. apply lookup_insert_is_Some'. by right.
Qed.

(** Removing an unreferenced participant. *)
Lemma remove_ok db sid pid :
  db_ok db -> let db' := removeUnreferencedParticipant db sid pid in
  db_ok db' /\ t_sessions db' = t_sessions db /\ t_sources db' = t_sources db /\
  forall k b, t_participants db' !! k = Some b <->
    t_participants db !! k = Some b /\ (k = (sid, pid) -> referenced db sid pid = true).
Proof.
  intros [Hid Hcv Hp Hs]. unfold removeUnreferencedParticipant. destruct (referenced db sid pid) eqn:Er; simpl.
  { split_and!; [by constructor|done|done|]. intros k b. naive_solver. }
  split_and!; [|done|done|].
  - constructor; simpl; [done..| |].
    + intros k b [_ H]%lookup_delete_Some. by apply Hp.
    + intros k s H. destruct (Hs _ _ H) as (? & He & ?). split_and!; [done| |done].
      rewrite lookup_delete_ne; [done|]. intros Hk.
      assert (referenced db sid pid = true); [|congruence]. apply referenced_true. exists k, s. naive_solver.
  - intros k b. rewrite lookup_delete_Some. split; [|intros [? Hk]; split; [intros <-; by discriminate (Hk eq_refl)|done]].
    intros [? ?]. split; [done|]. congruence.
Qed.

Lemma put_source_ok db row :
  db_ok db -> is_Some (t_participants db !! (src_SessionID row, src_PrincipalID row)) -> src_PrincipalID row <> "" ->
  db_ok (put_sources db (<[key_of row := row]> (t_sources db))).
Proof.
  intros [Hid Hcv Hp Hs] Hin Hne. constructor; simpl; [done..|].
  intros k s [[<- <-]|[_ H]]%lookup_insert_Some; [done|by apply Hs].
Qed.

Lemma drop_source_ok db s :
  db_ok db -> t_sources db !! key_of s = Some s -> let db' := drop_source db s in
  db_ok db' /\ t_sessions db' = t_sessions db /\ t_sources db' = delete (key_of s) (t_sources db) /\
  forall k b, t_participants db' !! k = Some b <-> t_participants db !! k = Some b /\
    (k = (src_SessionID s, src_PrincipalID s) -> referenced db' k.1 k.2 = true).
Proof.
  intros Hok Hin. unfold drop_source.
  assert (Hok1 : db_ok (put_sources db (delete (key_of s) (t_sources db)))).
  { destruct Hok as [Hid Hcv Hp Hs]. constructor; simpl; [done..|]. intros k s' [_ H]%lookup_delete_Some. by apply Hs. }
  destruct (remove_ok _ (src_SessionID s) (src_PrincipalID s) Hok1) as (H1 & H2 & H3 & H4). cbn zeta in *.
  split_and!; [done|done|done|]. intros k b. rewrite H4. simpl. unfold referenced. rewrite H3. simpl.
  split; intros [? Hr]; (split; [done|]); intros ->; by apply Hr.
Qed.

Lemma referenced_same db db' sid pid : t_sources db' = t_sources db -> referenced db' sid pid = referenced db sid pid.
Proof. unfold referenced. by intros ->. Qed.

Lemma referenced_mono db db' sid pid :
  (forall k s, t_sources db' !! k = Some s -> t_sources db !! k = Some s) ->
  referenced db' sid pid = true -> referenced db sid pid = true.
Proof. rewrite !referenced_true. intros Hsub (k & s & ? & ?). exists k, s. auto. Qed.

Lemma drop_all_ok stale : forall db, db_ok db -> NoDup stale ->
  (forall s, s ∈ stale -> t_sources db !! key_of s = Some s) -> let db' := foldl drop_source db stale in
  db_ok db' /\ t_sessions db' = t_sessions db /\
  (forall k s, t_sources db' !! k = Some s <-> t_sources db !! k = Some s /\ s ∉ stale) /\
  (forall k b, t_participants db' !! k = Some b -> t_participants db !! k = Some b) /\
  (forall k b, t_participants db !! k = Some b -> referenced db' k.1 k.2 = true -> t_participants db' !! k = Some b).
Proof.
  induction stale as [|s stale IH]; intros db Hok Hnd Hin; simpl.
  { split_and!; [done|done|set_solver|done|done]. }
  apply NoDup_cons in Hnd as [Hns Hnd].
  destruct (drop_source_ok db s Hok (Hin s (list_elem_of_here _ _))) as (H1 & H2 & H3 & H4).
  assert (Hkey : forall k x, t_sources db !! k = Some x -> k = key_of x) by (intros k x H; by apply (ok_source _ Hok)).
  destruct (IH (drop_source db s) H1 Hnd) as (I1 & I2 & I3 & I4 & I5).
  { intros x Hx. rewrite H3, lookup_delete_ne; [apply Hin; set_solver|].
    intros He. pose proof (Hin s (list_elem_of_here _ _)) as E1. pose proof (Hin x (list_elem_of_further _ _ _ Hx)) as E2.
    rewrite He, E2 in E1. simplify_eq. done. }
  split_and!; [done|congruence| | |].
  - intros k x. rewrite I3, H3, lookup_delete_Some, not_elem_of_cons. split; [|].
    + intros [[Hne Hx] Hnx]. split_and!; try done. intros ->. apply Hne. symmetry. by apply Hkey.
    + intros (Hx & Hxs & Hnx). split_and!; try done. intros <-. apply Hxs.
      pose proof (Hin s (list_elem_of_here _ _)). congruence.
  - intros k b H. apply I4 in H. by apply H4 in H as [? _].
  - intros k b H Hr. apply I5; [|done]. apply H4. split; [done|]. intros _.
    revert Hr. apply referenced_mono. intros k' x' Hx'. by apply I3 in Hx' as [? _].
Qed.

Lemma remove_all_ok L : forall db, db_ok db ->
  let db' := foldl (fun db (k : participant_key) => removeUnreferencedParticipant db k.1 k.2) db L in
  db_ok db' /\ t_sessions db' = t_sessions db /\ t_sources db' = t_sources db /\
  forall k b, t_participants db' !! k = Some b <->
    t_participants db !! k = Some b /\ (k ∈ L -> referenced db k.1 k.2 = true).
Proof.
  induction L as [|[sid pid] L IH]; intros db Hok; simpl; [split_and!; [done..|set_solver]|].
  destruct (remove_ok db sid pid Hok) as (H1 & H2 & H3 & H4). destruct (IH _ H1) as (I1 & I2 & I3 & I4).
  split_and!; [done|congruence|congruence|]. intros k b. rewrite I4, H4, (referenced_same _ _ _ _ H3). set_solver.
Qed.

(** What reconciliation leaves: the sources the configuration still maps to
    their principal, and the participants one of those refers to. *)
Lemma reconcile_spec db configured rows bindings :
  db_ok db -> rows ≡ₚ (map_to_list (t_sources db)).*2 ->
  (forall db', bindings db' ≡ₚ (map_to_list (t_participants db')).*1) ->
  let db' := ReconcileParticipantSources db configured rows bindings in
  let allowed := allowed_principals configured in
  db_ok db' /\ t_sessions db' = t_sessions db /\
  (forall k s, t_sources db' !! k = Some s <-> t_sources db !! k = Some s /\ is_stale allowed s = false) /\
  (forall k b, t_participants db' !! k = Some b <-> t_participants db !! k = Some b /\ referenced db' k.1 k.2 = true).
Proof.
  intros Hok Hrows Hb. unfold ReconcileParticipantSources, ReconcileSessionParticipantSources. cbn zeta.
  set (stale := filter _ rows).
  assert (Hin : forall s, s ∈ rows <-> exists k, t_sources db !! k = Some s).
  { intros s. rewrite Hrows, list_elem_of_fmap. split.
    - intros ([k x] & -> & Hx%elem_of_map_to_list). by exists k.
    - intros (k & Hk). exists (k, s). split; [done|]. by apply elem_of_map_to_list. }
  assert (Hinj : forall k s, t_sources db !! k = Some s -> k = key_of s) by (intros; by apply (ok_source _ Hok)).
  assert (Hnd : NoDup stale).
  { apply NoDup_filter. rewrite Hrows. apply (NoDup_fmap_1 key_of). rewrite <- list_fmap_compose.
    erewrite list_fmap_ext; [apply (NoDup_fst_map_to_list (t_sources db))|].
    intros i [k s] Hi. simpl. symmetry. apply Hinj, elem_of_map_to_list. by eapply list_elem_of_lookup_2. }
  destruct (drop_all_ok stale db Hok Hnd) as (H1 & H2 & H3 & H4 & H5).
  { intros s [_ (k & Hk)%Hin]%list_elem_of_filter. by rewrite <- (Hinj _ _ Hk). }
  set (db1 := foldl drop_source db stale) in *.
  destruct (remove_all_ok (bindings db1) db1 H1) as (I1 & I2 & I3 & I4).
  split_and!; [done|congruence| |].
  - intros k s. rewrite I3, H3. unfold stale. rewrite list_elem_of_filter, Hin.
    destruct (is_stale (allowed_principals configured) s) eqn:E; naive_solver.
  - intros k b. rewrite I4, (referenced_same _ _ _ _ I3). split.
    + intros [Hk Hr]. split; [by apply H4|]. apply Hr. rewrite (Hb db1), list_elem_of_fmap.
      exists (k, b). split; [done|]. by apply elem_of_map_to_list.
    + intros [Hk Hr]. split; [by apply H5|done].
Qed.

(** *** Every operation *)

Lemma bind_resolved_ok db sid src now :
  src_PrincipalID src <> "" -> db_ok db -> db_ok (BindResolvedSessionParticipant true db sid src now).2 /\
  t_sessions (BindResolvedSessionParticipant true db sid src now).2 = t_sessions db.
Proof.
  intros Hne Hok. unfold BindResolvedSessionParticipant, orphan. cbn [andb].
  destruct (bool_decide _) eqn:E; [|done]. bool_props. cbn [negb].
  destruct (upsert_ok db sid (src_PrincipalID src) now E Hok) as (H1 & H2 & H3 & H4).
  destruct (upsert_participant db sid (src_PrincipalID src) now) as [b db1]. cbn [fst snd] in *.
  set (row := {| src_SessionID := sid |}).
  assert (H5 : db_ok (put_sources db1 (<[key_of row := row]> (t_sources db1)))) by (apply put_source_ok; [done|by eexists|done]).
  destruct (t_sources db !! key_of row) as [p|]; [|done]. destruct (same_str _ _); [done|].
  destruct (remove_ok _ sid (src_PrincipalID p) H5) as (I1 & I2 & _). simpl in I2. cbn [snd]. split; congruence.
Qed.

Lemma session_step_ok db db' : session_step true db db' -> db_ok db -> db_ok db'.
Proof.
  destruct 1 as [db now uuid owner ref|db now r|db now id|db now sid pid|db now sid src|db conf rows bs Hr Hb]; intros Hok.
  - unfold Create. destruct (negb _); [done|]. destruct (CreateSession _ _) as [d|] eqn:E; [|done].
    by apply create_ok in E.
  - unfold Resume. destruct (Bool.eqb _ _); [done|]. destruct (negb _); [by apply update_active_ok|].
    destruct (LoadActiveSessionByConversation _ _ _); [by apply update_active_ok|done].
  - unfold Close. destruct (blank id); [done|]. by apply update_active_ok.
  - unfold BindParticipant, BindSessionParticipant, orphan. destruct (_ || _); [done|]. cbn [andb].
    destruct (bool_decide _) eqn:E; [|done]. bool_props. cbn [negb].
    destruct (upsert_ok db sid (TrimSpace pid) now E Hok) as (H1 & H2 & _).
    destruct (upsert_participant _ _ _ _) as [b d]. cbn [snd] in *. auto.
  - unfold BindResolvedParticipant. destruct (_ || _ || _ || _ || _ || _) eqn:E; [done|].
    apply orb_false_iff in E as [_ E]. destruct (bind_resolved_ok db sid src now) as [H1 H2]; [|done|auto].
    intros Hz. rewrite Hz in E. done.
  - destruct (reconcile_spec db conf rows bs Hok Hr Hb) as (H1 & H2 & _). auto.
Qed.

#[global] Instance db_ok_preserved : Preserves (session_step true) db_ok.
Proof. intros db db' Hst Hok. by eapply session_step_ok. Qed.

(** ** Theorems *)

Lemma session_steps_keep fk db db' : rtc (session_step fk) db db' -> keeps_sessions db db'.
Proof. induction 1; [reflexivity|]. etransitivity; [by eapply session_step_keeps|done]. Qed.

Lemma empty_db_ok : db_ok empty_db.
Proof. constructor; simpl; intros *; rewrite lookup_empty; done. Qed.

(** A step over any connection: [PRAGMA foreign_keys] holds for the one it ran on. *)
Definition any_step (db db' : sessions_db) : Prop := exists fk, session_step fk db db'.

Lemma any_steps_keep db db' : rtc any_step db db' -> keeps_sessions db db'.
Proof. induction 1 as [|? ? ? [fk ?]]; [reflexivity|]. etransitivity; [by eapply session_step_keeps|done]. Qed.

(** An owner's conversation has at most one active session. *)
Definition one_active (db : sessions_db) : Prop :=
  forall id id' s s', t_sessions db !! id = Some s -> t_sessions db !! id' = Some s' ->
    s_Status s = StatusActive -> s_Status s' = StatusActive -> s_Owner s = s_Owner s' ->
    s_ExternalConversationRef s = s_ExternalConversationRef s' -> s_ExternalConversationRef s <> "" -> id = id'.

#[global] Instance one_active_preserved : Preserves any_step one_active.
Proof.
  intros db db' [fk [He|[(s & Hn & He & Hc)|(id & s & s' & Hs & Ha & Hk & He)]]%session_step_rows] Hok i i' x x'; rewrite He.
  - by apply Hok.
  - assert (Hne : forall j y, t_sessions db !! j = Some y -> s_Status s = StatusActive -> s_Status y = StatusActive ->
      s_Owner y = s_Owner s -> s_ExternalConversationRef y = s_ExternalConversationRef s ->
      s_ExternalConversationRef s <> "" -> False).
    { intros j y Hy Hs1 Hy1 Ho Hr Hz. pose proof (proj1 (any_row_false _ _) (Hc Hs1 Hz) _ _ Hy) as Hf.
      rewrite (proj2 (in_conversation_true _ _ _)) in Hf; [done|by split_and!]. }
    intros [[<- <-]|[_ Hx]]%lookup_insert_Some [[<- <-]|[_ Hx']]%lookup_insert_Some A1 A2 Ho Hr Hz;
      [done|destruct (Hne _ _ Hx'); congruence|destruct (Hne _ _ Hx); congruence|by eapply Hok].
  - destruct Hk as (_ & Ko & Kr & _ & _).
    intros [[<- <-]|[_ Hx]]%lookup_insert_Some [[<- <-]|[_ Hx']]%lookup_insert_Some A1 A2 Ho Hr Hz;
      [done|eapply (Hok _ _ s x')|eapply (Hok _ _ x s)|by eapply Hok]; try done; congruence.
Qed.

(** C23: sessions stay consistent.  Whatever the manager is asked from an empty
    store on, over connections that enforce foreign keys or do not: an owner has
    at most one active session for each non-empty conversation reference, and
    from there on a session keeps its identity, owner, conversation and creation
    time, and a closed session is never changed again.  If every connection used
    enforces foreign keys, each participant belongs to a known session, and each
    recorded source to a participant. *)
Theorem sessions_consistent db :
  rtc any_step empty_db db ->
  one_active db /\
  (forall db', rtc any_step db db' -> keeps_sessions db db') /\
  (rtc (session_step true) empty_db db ->
   (forall k b, t_participants db !! k = Some b ->
      k = (pb_SessionID b, pb_PrincipalID b) /\ is_Some (t_sessions db !! pb_SessionID b)) /\
   (forall k s, t_sources db !! k = Some s ->
      k = key_of s /\ is_Some (t_participants db !! (src_SessionID s, src_PrincipalID s)) /\ src_PrincipalID s <> "")).
Proof.
  intros Hr. split; [exact (reachable_keeps one_active _ _ Hr (ok_conversation _ empty_db_ok))|]. split; [by apply any_steps_keep|].
  intros Hf. destruct (reachable_keeps db_ok _ _ Hf empty_db_ok) as [_ _ H3 H4]. done.
Qed.

(** Reconciliation leaves exactly what the configuration supports.  After
    the sources were compared with the configuration, in whatever order the
    database returns rows: a participant remains if and only if it was there and
    a remaining source names it; a source remains if and only if the
    configuration maps its gateway, platform and subject to its principal; and
    the sessions are untouched. *)
Theorem reconcile_matches_configuration db configured rows bindings :
  db_ok db -> rows ≡ₚ (map_to_list (t_sources db)).*2 ->
  (forall db', bindings db' ≡ₚ (map_to_list (t_participants db')).*1) ->
  let db' := ReconcileParticipantSources db configured rows bindings in
  t_sessions db' = t_sessions db /\
  (forall k b, t_participants db' !! k = Some b <-> t_participants db !! k = Some b /\
     exists key s, t_sources db' !! key = Some s /\ src_SessionID s = k.1 /\ src_PrincipalID s = k.2) /\
  (forall key s, t_sources db' !! key = Some s <-> t_sources db !! key = Some s /\
     allowed_principals configured !! config_key s = Some (src_PrincipalID s)).
Proof.
  intros Hok Hr Hb db'. destruct (reconcile_spec db configured rows bindings Hok Hr Hb) as (_ & H2 & H3 & H4).
  split_and!; [done| |].
  - intros k b. unfold db'. rewrite H4, referenced_true. done.
  - intros key s. unfold db'. rewrite H3. unfold is_stale. rewrite negb_false_iff, same_str_true.
    split; intros [Hs Ha]; (split; [done|]); destruct (ok_source _ Hok _ _ Hs) as (_ & _ & Hne);
      destruct (allowed_principals configured !! config_key s); simpl in *; congruence.
Qed.

(** ** Examples *)

Definition telegram : Owner := {| o_Kind := OwnerGateway; o_InstanceID := "gw" |}.
Definition alice_source : ParticipantSource :=
  {| src_SessionID := "s1"; src_GatewayInstanceID := "gw"; src_Platform := "tg"; src_SubjectID := "7";
     src_PrincipalID := "alice" |}.
Definition opened_db : sessions_db := (Create empty_db 5%Z "s1" telegram "chat").2.
Definition bound_db : sessions_db := (BindResolvedParticipant true opened_db 6%Z "s1" alice_source).2.

Lemma bound_db_reachable : rtc (session_step true) empty_db bound_db.
Proof.
  eapply rtc_l; [exact (step_create true empty_db 5%Z "s1" telegram "chat")|].
  eapply rtc_l; [exact (step_bind_resolved true opened_db 6%Z "s1" alice_source)|]. apply rtc_refl.
Qed.

(** A second session of the conversation is refused; the first one, closed,
    stays closed; a participant bound without foreign keys changes nothing of that. *)
Lemma sessions_consistent_witness :
  (Create bound_db 7%Z "s2" telegram "chat").1 = Err ErrConversationInUse /\
  is_Some (t_sessions bound_db !! "s1") /\
  keeps_sessions bound_db (Resume (Close (BindParticipant false bound_db 7%Z "s9" "bob").2 8%Z "s1").2 9%Z
    {| rr_SessionID := "s1"; rr_Owner := telegram; rr_ExternalConversationRef := "" |}).2.
Proof.
  assert (Hany : rtc any_step empty_db bound_db).
  { apply (rtc_subrel (session_step true)); [intros a b Hst; by exists true|exact bound_db_reachable]. }
  destruct (sessions_consistent bound_db Hany) as (_ & Hk & Hf). destruct (Hf bound_db_reachable) as [Hp _]. split_and!.
  - vm_compute. reflexivity.
  - destruct (Hp ("s1", "alice") {| pb_SessionID := "s1"; pb_PrincipalID := "alice"; pb_JoinedAt := 6%Z;
      pb_LastSeenAt := 6%Z |}) as [_ H]; [vm_compute; reflexivity|exact H].
  - apply Hk. eapply rtc_l; [exists false; apply step_bind|].
    eapply rtc_l; [exists true; apply step_close|]. eapply rtc_l; [exists true; apply step_resume|]. apply rtc_refl.
Defined.

(** A configuration that no longer names Alice removes her. *)
Lemma reconcile_matches_configuration_witness :
  is_Some (t_participants bound_db !! ("s1", "alice")) /\
  t_participants (ReconcileParticipantSources bound_db [] (map_to_list (t_sources bound_db)).*2
    (fun d => (map_to_list (t_participants d)).*1)) !! ("s1", "alice") = None.
Proof.
  split; [vm_compute; by eexists|]. apply eq_None_not_Some. intros [b Hb].
  destruct (reconcile_matches_configuration bound_db [] (map_to_list (t_sources bound_db)).*2
    (fun d => (map_to_list (t_participants d)).*1)) as (_ & Hp & Hs).
  - exact (reachable_keeps db_ok _ _ bound_db_reachable empty_db_ok).
  - reflexivity.
  - reflexivity.
  - apply Hp in Hb as (_ & key & s & Hsrc & _). apply Hs in Hsrc as [_ H]. discriminate H.
Defined.

(** On a connection that does not enforce foreign keys, a participant can be
    bound to a session that does not exist. *)
Lemma unenforced_orphan :
  let db := (BindParticipant false empty_db 5%Z "s1" "alice").2 in
  is_Some (t_participants db !! ("s1", "alice")) /\ t_sessions db !! "s1" = None.
Proof. split; [vm_compute; by eexists|reflexivity]. Qed.
