(* ===== verification/SessionEvent.v ===== *)
(** * Session events and their delivery

    Core/SessionEvent (types.go, service.go, permission.go) over the tables of
    Core/Persistence/session_events.go.  An event is validated, recorded as a
    pending delivery together with the Body or Gateway that owns its session,
    and handed to a transport; the outcome is recorded.  The permission bridge
    presents a permission request to its owner in one session and accepts a
    decision only from there.

    The service takes no lock.  Its operations are functions on the tables;
    [sys_step] cuts them where they read or write a table and runs any number of
    them in any interleaving, with the session and the request managers.
    [event_step] is a statement together with what the call that runs it has
    checked: every step of an interleaving is shown to be at most one of them,
    so what is proved of sequences of statements holds of interleaved calls.  The
    decision, whose checks and effect are separate calls, is modelled with
    arbitrary other activity between them.

    [encoding/json] is a parameter: what it answers about a payload.  A row is
    read back as it was written, and database failures are not modelled. *)
From S2P Require Import Prelude GoStrings GoTime SQL ActionPolicy Permission Session ExternalIdentity.
From stdpp Require Import options.

(** ** Data *)

Definition Version : Z := 1.

Inductive EventType :=
| TypeMessage | TypePermissionRequested | TypePermissionDecided | TypeStatus | TypeError | TypeOther (s : string).
Inductive PartType := PartText | PartImage | PartFile | PartAudio | PartVideo | PartOther (s : string).
Inductive DeliveryStatus := DeliveryPending | DeliveryAccepted | DeliveryFailed.

#[global] Instance EventType_eq_dec : EqDecision EventType.
Proof. solve_decision. Defined.
#[global] Instance DeliveryStatus_eq_dec : EqDecision DeliveryStatus.
Proof. solve_decision. Defined.

Record Correlation := {
  co_CausationEventID : string; co_TurnID : string; co_RequestID : string; co_ToolCallID : string;
  co_CognitiveRunID : string; co_IntentionID : string;
}.

Record MessagePart := {
  mp_Type : PartType; mp_Text : string; mp_MediaID : string; mp_Filename : string; mp_MIMEType : string;
  mp_SizeBytes : Z;
}.

Record ActionDetails := { ad_Action : string; ad_Capability : string; ad_Operation : string; ad_Arguments : string }.

Record PermissionRequestedPayload := {
  rq_RequestID : string; rq_Question : string; rq_Origin : Origin; rq_Action : ActionDetails; rq_ExpiresAt : time;
}.

Record PermissionDecidedPayload := { dp_RequestID : string; dp_Decision : Decision }.

(** What the code asks of [encoding/json] about the payload of an event. *)
Class EventJSON := {
  RawMessage : Type;
  json_Valid : RawMessage -> bool;
  unmarshal_message : RawMessage -> option (list MessagePart);
  unmarshal_requested : RawMessage -> option PermissionRequestedPayload;
  unmarshal_decided : RawMessage -> option PermissionDecidedPayload;
  unmarshal_status : RawMessage -> option string;
  unmarshal_error : RawMessage -> option (string * string);
  marshal_message : list MessagePart -> option RawMessage;
  marshal_requested : PermissionRequestedPayload -> option RawMessage;
}.

(** Errors of a transport: a plain one, one marked terminal, and one that wraps another. *)
Inductive transport_error :=
| PlainError (text : string)
| TerminalDeliveryError (inner : transport_error)
| WrappedError (prefix : string) (inner : transport_error).

Fixpoint isTerminalDeliveryError (e : transport_error) : bool :=
  match e with
  | PlainError _ => false
  | TerminalDeliveryError _ => true
  | WrappedError _ inner => isTerminalDeliveryError inner
  end.

Fixpoint transport_text (e : transport_error) : string :=
  match e with
  | PlainError text => text
  | TerminalDeliveryError inner => transport_text inner
  | WrappedError prefix inner => prefix +:+ transport_text inner
  end.

Inductive event_error :=
| ErrInvalidEvent | ErrSessionUnavailable | ErrRecipientUnavailable | ErrPresentationNotFound | CreateDeliveryFailed
| TransportFailed (e : transport_error) | SessionFailed (e : session_error) | PermissionFailed (e : permission_error)
| ResolutionFailed (text : string).

Definition session_error_text (e : session_error) : string :=
  match e with
  | Session.ErrNotFound => "session: not found"
  | Session.ErrInvalidRequest => "session: invalid request"
  | Session.ErrInvalidTransition => "session: invalid lifecycle transition"
  | Session.ErrConversationInUse => "session: external conversation already has an active session"
  | CreateFailed | BindFailed => "constraint failed"
  end.

(** Go's pair of a value, if any, and an error, if any. *)
Abbreviation answer A := (option A * option event_error)%type (only parsing).

Section events.
Context `{EventJSON}.

Record Event := {
  ev_Version : Z;
  ev_ID : string;
  ev_SessionID : string;
  ev_Type : EventType;
  ev_Timestamp : time;
  ev_Correlation : Correlation;
  ev_Payload : RawMessage;
}.

Record Delivery := {
  d_ID : string;
  d_Event : Event;
  d_TargetPrincipalID : string;
  d_Owner : Owner;
  d_Status : DeliveryStatus;
  d_Error : string;
  d_CreatedAt : time;
  d_UpdatedAt : time;
}.

Record PermissionPresentation := {
  pp_RequestID : string; pp_SessionID : string; pp_DeliveryID : string; pp_CreatedAt : time;
}.

(** ** Events *)

Definition validPart (p : MessagePart) : bool :=
  match mp_Type p with
  | PartText => negb (blank (mp_Text p)) && empty_str (mp_MediaID p)
  | PartImage | PartFile | PartAudio | PartVideo => negb (blank (mp_MediaID p)) && (0 <=? mp_SizeBytes p)
  | PartOther _ => false
  end.

(** The event is about the request its payload names. *)
Definition correlates (c : Correlation) (requestID : string) : bool :=
  empty_str (co_RequestID c) || same_str (co_RequestID c) requestID.

Definition valid_payload (e : Event) : bool :=
  match ev_Type e with
  | TypeMessage =>
      match unmarshal_message (ev_Payload e) with
      | Some (p :: ps) => forallb validPart (p :: ps)
      | _ => false
      end
  | TypePermissionRequested =>
      match unmarshal_requested (ev_Payload e) with
      | Some p => negb (blank (rq_RequestID p)) && negb (blank (rq_Question p)) && negb (IsZero (rq_ExpiresAt p)) &&
                  correlates (ev_Correlation e) (rq_RequestID p)
      | None => false
      end
  | TypePermissionDecided =>
      match unmarshal_decided (ev_Payload e) with
      | Some p => negb (blank (dp_RequestID p)) &&
                  match dp_Decision p with DecisionOther _ => false | _ => true end &&
                  correlates (ev_Correlation e) (dp_RequestID p)
      | None => false
      end
  | TypeStatus =>
      match unmarshal_status (ev_Payload e) with Some status => negb (blank status) | None => false end
  | TypeError =>
      match unmarshal_error (ev_Payload e) with
      | Some (code, message) => negb (blank code) && negb (blank message)
      | None => false
      end
  | TypeOther _ => false
  end.

Definition Event_Validate (e : Event) : res event_error unit :=
  refuse negb (ev_Version e =? Version) || blank (ev_ID e) || blank (ev_SessionID e) || IsZero (ev_Timestamp e) ||
         negb (json_Valid (ev_Payload e)) with ErrInvalidEvent;
  refuse negb (valid_payload e) with ErrInvalidEvent;
  Ok tt.

(** [encoded] is what [json.Marshal] made of the payload. *)
Definition NewEvent (sessionID : string) (typ : EventType) (encoded : option RawMessage) (c : Correlation)
    (now : time) (uuid : string) : res event_error Event :=
  match encoded with
  | None => Err ErrInvalidEvent
  | Some raw =>
      let e := {| ev_Version := Version; ev_ID := uuid; ev_SessionID := sessionID; ev_Type := typ;
                  ev_Timestamp := now; ev_Correlation := c; ev_Payload := raw |} in
      try u <- Event_Validate e;
      Ok e
  end.

Definition DecodePermissionDecision (e : Event) : res event_error PermissionDecidedPayload :=
  refuse negb (bool_decide (ev_Type e = TypePermissionDecided)) || negb (is_ok (Event_Validate e)) with ErrInvalidEvent;
  match unmarshal_decided (ev_Payload e) with Some p => Ok p | None => Err ErrInvalidEvent end.

(** ** Tables *)

Record world := {
  w_sessions : sessions_db;
  w_requests : gmap string Request;
  w_deliveries : gmap string Delivery;
  w_presentations : gmap string PermissionPresentation;
}.

Definition put_session_db (w : world) (db : sessions_db) : world :=
  {| w_sessions := db; w_requests := w_requests w; w_deliveries := w_deliveries w;
     w_presentations := w_presentations w |}.
Definition put_requests (w : world) (t : gmap string Request) : world :=
  {| w_sessions := w_sessions w; w_requests := t; w_deliveries := w_deliveries w;
     w_presentations := w_presentations w |}.
Definition put_deliveries (w : world) (m : gmap string Delivery) : world :=
  {| w_sessions := w_sessions w; w_requests := w_requests w; w_deliveries := m;
     w_presentations := w_presentations w |}.
Definition put_presentations (w : world) (m : gmap string PermissionPresentation) : world :=
  {| w_sessions := w_sessions w; w_requests := w_requests w; w_deliveries := w_deliveries w;
     w_presentations := m |}.

(** The delivery's id is the primary key and its event's id is unique; [fk] says
    whether the connection enforces foreign keys. *)
Definition insertDelivery (fk : bool) (w : world) (d : Delivery) : res event_error world :=
  refuse bool_decide (is_Some (w_deliveries w !! d_ID d)) ||
         any_row (w_deliveries w) (fun x => same_str (ev_ID (d_Event x)) (ev_ID (d_Event d))) ||
         orphan fk (w_sessions w) (ev_SessionID (d_Event d)) with CreateDeliveryFailed;
  Ok (put_deliveries w (<[d_ID d := d]> (w_deliveries w))).

Definition CreateDelivery := insertDelivery.

(** A refused presentation rolls the delivery back. *)
Definition CreatePermissionDelivery (fk : bool) (w : world) (d : Delivery) (p : PermissionPresentation)
    : res event_error world :=
  try w1 <- insertDelivery fk w d;
  refuse bool_decide (is_Some (w_presentations w1 !! pp_RequestID p)) ||
         any_row (w_presentations w1) (fun x => same_str (pp_DeliveryID x) (pp_DeliveryID p)) ||
         (fk && negb (bool_decide (is_Some (w_requests w1 !! pp_RequestID p)))) ||
         orphan fk (w_sessions w1) (pp_SessionID p) ||
         (fk && negb (bool_decide (is_Some (w_deliveries w1 !! pp_DeliveryID p)))) with CreateDeliveryFailed;
  Ok (put_presentations w1 (<[pp_RequestID p := p]> (w_presentations w1))).

Definition LoadPermissionPresentation (w : world) (requestID : string) : res event_error PermissionPresentation :=
  match w_presentations w !! requestID with Some p => Ok p | None => Err ErrPresentationNotFound end.

Definition LoadDelivery (w : world) (id : string) : res event_error Delivery :=
  match w_deliveries w !! id with Some d => Ok d | None => Err ErrInvalidEvent end.

Definition with_outcome (d : Delivery) (status : DeliveryStatus) (failure : string) (now : time) : Delivery :=
  {| d_ID := d_ID d; d_Event := d_Event d; d_TargetPrincipalID := d_TargetPrincipalID d; d_Owner := d_Owner d;
     d_Status := status; d_Error := failure; d_CreatedAt := d_CreatedAt d; d_UpdatedAt := now |}.

(** [UPDATE ... SET status, error, updated_at WHERE delivery_id = ?]. *)
Definition UpdateDelivery (w : world) (id : string) (status : DeliveryStatus) (failure : string) (now : time)
    : res event_error Delivery * world :=
  match w_deliveries w !! id with
  | None => (Err ErrInvalidEvent, w)
  | Some d => let d' := with_outcome d status failure now in
              (Ok d', put_deliveries w (<[id := d']> (w_deliveries w)))
  end.

Definition ListPendingDeliveries (w : world) : list Delivery :=
  select_by d_CreatedAt d_ID (w_deliveries w) (fun d => bool_decide (d_Status d = DeliveryPending)).

(** ** The delivery service *)

Definition participates (bindings : list ParticipantBinding) (principalID : string) : bool :=
  existsb (fun b => same_str (pb_PrincipalID b) principalID) bindings.

(** The answer of [DeliverSessionEvent] for a delivery. *)
Abbreviation transport_fn := (Owner -> Delivery -> option transport_error) (only parsing).

(** [UpdateDelivery], then the error of the attempt. *)
Definition recorded (w : world) (id : string) (status : DeliveryStatus) (failure : string) (err : option event_error)
    (now : time) : answer Delivery * world :=
  match UpdateDelivery w id status failure now with
  | (Err e, w') => ((None, Some e), w')
  | (Ok d, w') => ((Some d, err), w')
  end.

Definition error_text (e : event_error) : string :=
  match e with
  | ErrSessionUnavailable => "session event: session unavailable"
  | ErrRecipientUnavailable => "session event: recipient unavailable"
  | ErrInvalidEvent => "session event: invalid event"
  | ErrPresentationNotFound => "session event: permission presentation not found"
  | CreateDeliveryFailed => "create session event delivery: constraint failed"
  | TransportFailed t => transport_text t
  | SessionFailed s => session_error_text s
  | PermissionFailed _ => "permission request"
  | ResolutionFailed t => t
  end.

Definition recordAttempt (w : world) (d : Delivery) (err : event_error) (terminal : bool) (now : time)
    : answer Delivery * world :=
  recorded w (d_ID d) (if terminal then DeliveryFailed else DeliveryPending) (error_text err) (Some err) now.

Definition attempt (w : world) (transport : transport_fn) (now : time) (d : Delivery) : answer Delivery * world :=
  let unavailable := recorded w (d_ID d) DeliveryFailed (error_text ErrSessionUnavailable)
                       (Some ErrSessionUnavailable) now in
  let deliver :=
    match transport (d_Owner d) d with
    | Some e => recordAttempt w d (TransportFailed e) (isTerminalDeliveryError e) now
    | None => recorded w (d_ID d) DeliveryAccepted "" None now
    end in
  match Lookup (w_sessions w) (ev_SessionID (d_Event d)) with
  | Err _ => unavailable
  | Ok resolved =>
      if negb (bool_decide (s_Status resolved = Session.StatusActive)) || negb (bool_decide (s_Owner resolved = d_Owner d))
      then unavailable
      else if empty_str (d_TargetPrincipalID d) then deliver
      else match ListParticipants (w_sessions w) (ev_SessionID (d_Event d)) with
           | Err e => recordAttempt w d (SessionFailed e) false now
           | Ok bindings =>
               if negb (participates bindings (d_TargetPrincipalID d))
               then recordAttempt w d ErrRecipientUnavailable true now
               else deliver
           end
  end.

(** The first check of [emit]: the event is valid and its session active; its owner. *)
Definition emit_session (w : world) (e : Event) : res event_error Owner :=
  try u <- Event_Validate e;
  match Lookup (w_sessions w) (ev_SessionID e) with
  | Err _ => Err ErrSessionUnavailable
  | Ok resolved =>
      refuse negb (bool_decide (s_Status resolved = Session.StatusActive)) with ErrSessionUnavailable;
      Ok (s_Owner resolved)
  end.

(** The second: the addressee, if any, takes part in the session. *)
Definition emit_recipient (w : world) (e : Event) (target : string) : res event_error unit :=
  if empty_str target then Ok tt
  else match ListParticipants (w_sessions w) (ev_SessionID e) with
       | Err err => Err (SessionFailed err)
       | Ok bindings => refuse negb (participates bindings target) with ErrRecipientUnavailable; Ok tt
       end.

Definition emit_checks (w : world) (e : Event) (target : string) : res event_error Owner :=
  try owner <- emit_session w e;
  try u <- emit_recipient w e target;
  Ok owner.

Definition new_delivery (uuid : string) (e : Event) (target : string) (owner : Owner) (now : time) : Delivery :=
  {| d_ID := uuid; d_Event := e; d_TargetPrincipalID := target; d_Owner := owner;
     d_Status := DeliveryPending; d_Error := ""; d_CreatedAt := now; d_UpdatedAt := now |}.

Definition create (fk : bool) (w : world) (d : Delivery) (requestID : string) (now : time) : res event_error world :=
  if empty_str requestID then CreateDelivery fk w d
  else CreatePermissionDelivery fk w d {| pp_RequestID := requestID; pp_SessionID := ev_SessionID (d_Event d);
         pp_DeliveryID := d_ID d; pp_CreatedAt := now |}.

(** [now] is the clock when the delivery is created, [now'] when the attempt is recorded. *)
Definition emit (fk : bool) (w : world) (transport : transport_fn) (now now' : time) (uuid : string) (e : Event)
    (target requestID : string) : answer Delivery * world :=
  match emit_checks w e target with
  | Err err => ((None, Some err), w)
  | Ok owner =>
      let d := new_delivery uuid e target owner now in
      match create fk w d requestID now with
      | Err err => ((None, Some err), w)
      | Ok w1 => attempt w1 transport now' d
      end
  end.

Definition Emit (fk : bool) (w : world) (transport : transport_fn) (now now' : time) (uuid : string) (e : Event)
    (target : string) : answer Delivery * world := emit fk w transport now now' uuid e target "".

Definition permission_event_ok (e : Event) (requestID : string) : bool :=
  negb (blank requestID || negb (bool_decide (ev_Type e = TypePermissionRequested)) ||
        negb (same_str (co_RequestID (ev_Correlation e)) requestID)).

Definition EmitPermission (fk : bool) (w : world) (transport : transport_fn) (now now' : time) (uuid : string)
    (e : Event) (target requestID : string) : answer Delivery * world :=
  if negb (permission_event_ok e requestID) then ((None, Some ErrInvalidEvent), w)
  else emit fk w transport now now' uuid e target requestID.

Definition GetDelivery (w : world) (id : string) : res event_error Delivery :=
  refuse blank id with ErrInvalidEvent;
  LoadDelivery w id.

Definition RetryDelivery (w : world) (transport : transport_fn) (now : time) (id : string) : answer Delivery * world :=
  match GetDelivery w id with
  | Err e => ((None, Some e), w)
  | Ok d => if negb (bool_decide (d_Status d = DeliveryPending)) then ((Some d, None), w)
            else attempt w transport now d
  end.

(** The loop over the pending deliveries; [clock] gives the time at each. *)
Fixpoint replay (w : world) (transport : transport_fn) (clock : Delivery -> time) (pending : list Delivery)
    : res event_error (list Delivery) * world :=
  match pending with
  | [] => (Ok [], w)
  | d :: rest =>
      match attempt w transport (clock d) d with
      | ((Some updated, _), w1) =>
          match replay w1 transport clock rest with
          | (Err e, w2) => (Err e, w2)
          | (Ok ds, w2) => (Ok (updated :: ds), w2)
          end
      | ((None, e), w1) => (Err (default ErrInvalidEvent e), w1)
      end
  end.

Definition ReplayPending (w : world) (transport : transport_fn) (clock : Delivery -> time)
    : res event_error (list Delivery) * world :=
  replay w transport clock (ListPendingDeliveries w).

(** ** The permission bridge *)

Definition session_before (a b : ParticipantBinding) : Prop := str_le (pb_SessionID a) (pb_SessionID b).

#[global] Instance session_before_dec : RelDecision session_before.
Proof. intros a b. unfold session_before. apply _. Defined.

(** The loop over the owner's sessions: the request's own session if it is
    active, else the first active one. *)
Fixpoint select_session (db : sessions_db) (preferred selected : string) (bindings : list ParticipantBinding) : string :=
  match bindings with
  | [] => selected
  | b :: rest =>
      match Lookup db (pb_SessionID b) with
      | Ok candidate =>
          if bool_decide (s_Status candidate = Session.StatusActive) then
            if same_str preferred (s_ID candidate) then s_ID candidate
            else select_session db preferred (if empty_str selected then s_ID candidate else selected) rest
          else select_session db preferred selected rest
      | Err _ => select_session db preferred selected rest
      end
  end.

(** The event that presents a request. *)
Definition permission_event (q : Request) (selected : string) (now : time) (uuid : string) : res event_error Event :=
  let question := if empty_str (q_Question q) then q_Action q else q_Question q in
  let payload := {| rq_RequestID := q_ID q; rq_Question := question; rq_Origin := q_Origin q;
    rq_Action := {| ad_Action := q_Action q; ad_Capability := q_Capability q; ad_Operation := q_Operation q;
      ad_Arguments := q_Arguments q |};
    rq_ExpiresAt := q_ExpiresAt q |} in
  let c := {| co_CausationEventID := ""; co_TurnID := TurnID (q_Correlation q); co_RequestID := q_ID q;
    co_ToolCallID := ToolCallID (q_Correlation q); co_CognitiveRunID := CognitiveRunID (q_Correlation q);
    co_IntentionID := "" |} in
  NewEvent selected TypePermissionRequested (marshal_requested payload) c now uuid.

(** [nowg] is the clock of the request manager, [nowe], [now] and [now'] those
    of the event, its delivery and the attempt; [uuide] and [uuid] the ids drawn. *)
Definition Present (fk : bool) (w : world) (principals : MemoryResolver) (done : bool) (transport : transport_fn)
    (nowg nowe now now' : time) (uuide uuid : string) (requestID : string) : answer Delivery * world :=
  match Get (w_requests w) nowg requestID with
  | (Err e, t) => ((None, Some (PermissionFailed e)), put_requests w t)
  | (Ok q, t) =>
      let w1 := put_requests w t in
      if bool_decide (q_Status q = StatusExpired) then ((None, Some (PermissionFailed ErrExpired)), w1)
      else if negb (bool_decide (q_Status q = StatusPending))
      then ((None, Some (PermissionFailed Permission.ErrInvalidTransition)), w1)
      else
        match LoadPermissionPresentation w1 requestID with
        | Ok p => RetryDelivery w1 transport now (pp_DeliveryID p)
        | Err _ =>
            match LookupPrincipal principals done (q_OwnerID q) with
            | Err _ => ((None, Some (PermissionFailed ErrUnauthorized)), w1)
            | Ok principal =>
                if negb (same_str (pr_Authority principal) AuthorityOwner)
                then ((None, Some (PermissionFailed ErrUnauthorized)), w1)
                else
                  match ListParticipantSessions (w_sessions w1) (q_OwnerID q) with
                  | Err e => ((None, Some (SessionFailed e)), w1)
                  | Ok bindings =>
                      let selected := select_session (w_sessions w1) (SessionID (q_Correlation q)) ""
                                        (merge_sort session_before bindings) in
                      if empty_str selected then ((None, Some ErrRecipientUnavailable), w1)
                      else
                        match permission_event q selected nowe uuide with
                        | Err e => ((None, Some e), w1)
                        | Ok e => EmitPermission fk w1 transport now now' uuid e (q_OwnerID q) (q_ID q)
                        end
                  end
            end
        end
  end.

(** The handler that is told about a decision, and its error. *)
Abbreviation resolution_fn := (world -> Request -> option string * world) (only parsing).

(** [between1], [between2] and [between3] are what else happens between the four
    calls: the participants, the presentation, the request and the decision. *)
Definition Decide (w : world) (principals : MemoryResolver) (done : bool) (between1 between2 between3 : world -> world)
    (nowg now : time) (resolution : option resolution_fn) (sessionID : string) (acting : Principal)
    (p : PermissionDecidedPayload) : answer Request * world :=
  let unauthorized w := ((None, Some (PermissionFailed ErrUnauthorized)), w) in
  match LookupPrincipal principals done (pr_ID acting) with
  | Err _ => unauthorized w
  | Ok configured =>
      if negb (bool_decide (configured = acting)) || negb (same_str (pr_Authority configured) AuthorityOwner)
      then unauthorized w
      else
        match ListParticipants (w_sessions w) sessionID with
        | Err e => ((None, Some (SessionFailed e)), w)
        | Ok bindings =>
            if negb (participates bindings (pr_ID acting)) then unauthorized w
            else
              let w1 := between1 w in
              match LoadPermissionPresentation w1 (dp_RequestID p) with
              | Err _ => unauthorized w1
              | Ok presentation =>
                  if negb (same_str (pp_SessionID presentation) sessionID) then unauthorized w1
                  else
                    let w2 := between2 w1 in
                    match Get (w_requests w2) nowg (dp_RequestID p) with
                    | (Err e, t) => ((None, Some (PermissionFailed e)), put_requests w2 t)
                    | (Ok q, t) =>
                        let w3 := put_requests w2 t in
                        if bool_decide (q_Status q = StatusExpired)
                        then ((None, Some (PermissionFailed ErrExpired)), w3)
                        else if negb (same_str (q_OwnerID q) (pr_ID acting)) then unauthorized w3
                        else
                          let finish w3 (decided : res permission_error Request * gmap string Request) :=
                            match decided with
                            | (Err e, t') => ((None, Some (PermissionFailed e)), put_requests w3 t')
                            | (Ok resolved, t') =>
                                match resolution with
                                | None => ((Some resolved, None), put_requests w3 t')
                                | Some handle =>
                                    let '(err, w5) := handle (put_requests w3 t') resolved in
                                    ((Some resolved, ResolutionFailed <$> err), w5)
                                end
                            end in
                          match dp_Decision p with
                          | DecisionApprove =>
                              finish (between3 w3) (Approve (w_requests (between3 w3)) now (q_ID q) (pr_ID acting))
                          | DecisionRefuse =>
                              finish (between3 w3) (Deny (w_requests (between3 w3)) now (q_ID q) (pr_ID acting))
                          | DecisionOther _ => ((None, Some (PermissionFailed Permission.ErrInvalidRequest)), w3)
                          end
                    end
              end
        end
  end.
End events.

(** ** Statements and what they keep *)

Section histories.
Context `{EventJSON}.

(** The session of the event is known and owned by the delivery's owner. *)
Definition owned (w : world) (d : Delivery) : Prop :=
  exists s, t_sessions (w_sessions w) !! ev_SessionID (d_Event d) = Some s /\ s_Owner s = d_Owner d.

(** One statement: of the session manager, of the request manager, or of this
    service, with what the call that runs it has checked ([sys_step_statement]
    shows that the calls do). *)
Inductive event_step (fk : bool) : relation world :=
| es_session w db' : session_step fk (w_sessions w) db' -> event_step fk w (put_session_db w db')
| es_request w e t' : perm_step (w_requests w) e t' -> event_step fk w (put_requests w t')
| es_create w d w' :
    is_ok (Event_Validate (d_Event d)) = true -> owned w d -> CreateDelivery fk w d = Ok w' -> event_step fk w w'
| es_present w d p q w' :
    is_ok (Event_Validate (d_Event d)) = true -> owned w d ->
    ev_Type (d_Event d) = TypePermissionRequested -> co_RequestID (ev_Correlation (d_Event d)) = pp_RequestID p ->
    ev_SessionID (d_Event d) = pp_SessionID p -> d_ID d = pp_DeliveryID p ->
    w_requests w !! pp_RequestID p = Some q -> d_TargetPrincipalID d = q_OwnerID q ->
    CreatePermissionDelivery fk w d p = Ok w' -> event_step fk w w'
| es_outcome w id status failure now : event_step fk w (UpdateDelivery w id status failure now).2.

(** All a statement changes in a delivery is its outcome. *)
Definition same_delivery (d d' : Delivery) : Prop :=
  d_ID d' = d_ID d /\ d_Event d' = d_Event d /\ d_TargetPrincipalID d' = d_TargetPrincipalID d /\
  d_Owner d' = d_Owner d /\ d_CreatedAt d' = d_CreatedAt d.

Record world_kept (w w' : world) : Prop := {
  wk_sessions : keeps_sessions (w_sessions w) (w_sessions w');
  wk_requests : forall id q, w_requests w !! id = Some q ->
    exists q', w_requests w' !! id = Some q' /\ same_terms q q' /\ (q_Status q <> StatusPending -> settled q q');
  wk_deliveries : forall id d, w_deliveries w !! id = Some d ->
    exists d', w_deliveries w' !! id = Some d' /\ same_delivery d d';
  wk_presentations : w_presentations w ⊆ w_presentations w';
}.

(** A presentation points at the delivery that carried the request to its owner. *)
Definition presented (w : world) (p : PermissionPresentation) : Prop :=
  exists d q, w_deliveries w !! pp_DeliveryID p = Some d /\ ev_SessionID (d_Event d) = pp_SessionID p /\
    ev_Type (d_Event d) = TypePermissionRequested /\ co_RequestID (ev_Correlation (d_Event d)) = pp_RequestID p /\
    w_requests w !! pp_RequestID p = Some q /\ d_TargetPrincipalID d = q_OwnerID q.

Record events_ok (w : world) : Prop := {
  eo_named : sessions_named (w_sessions w);
  eo_requests : table_ok (w_requests w);
  eo_delivery : forall id d, w_deliveries w !! id = Some d ->
    d_ID d = id /\ is_ok (Event_Validate (d_Event d)) = true /\ owned w d;
  eo_unique : forall id id' d d', w_deliveries w !! id = Some d -> w_deliveries w !! id' = Some d' ->
    ev_ID (d_Event d) = ev_ID (d_Event d') -> id = id';
  eo_presented : forall r p, w_presentations w !! r = Some p -> pp_RequestID p = r /\ presented w p;
}.

Definition empty_world : world :=
  {| w_sessions := empty_db; w_requests := ∅; w_deliveries := ∅; w_presentations := ∅ |}.

Lemma same_delivery_refl d : same_delivery d d.
Proof. by repeat split. Qed.

#[local] Hint Resolve same_delivery_refl : neon.

Lemma same_terms_refl q : same_terms q q /\ (q_Status q <> StatusPending -> settled q q).
Proof. unfold same_terms, settled. auto 20. Qed.

#[local] Hint Resolve same_terms_refl : neon.

#[global] Instance world_kept_preorder : PreOrder world_kept.
Proof.
  split.
  - intros w. constructor; [reflexivity|eauto with neon..|done].
  - intros a b c [S1 R1 D1 P1] [S2 R2 D2 P2]. constructor.
    + by etransitivity.
    + intros id q Hq. destruct (R1 _ _ Hq) as (q1 & Hq1 & T1 & E1). destruct (R2 _ _ Hq1) as (q2 & Hq2 & T2 & E2).
      exists q2. split; [done|]. unfold same_terms, settled in *. split; [intuition congruence|].
      intros Hne. destruct (E1 Hne) as (F1 & F2 & F3). rewrite F1 in E2. destruct (E2 Hne) as (G1 & G2 & G3).
      split_and!; congruence.
    + intros id d Hd. destruct (D1 _ _ Hd) as (d1 & Hd1 & T1). destruct (D2 _ _ Hd1) as (d2 & Hd2 & T2).
      exists d2. split; [done|]. unfold same_delivery in *. intuition congruence.
    + by etransitivity.
Qed.

Lemma insertDelivery_ok fk w d w' :
  insertDelivery fk w d = Ok w' ->
  w' = put_deliveries w (<[d_ID d := d]> (w_deliveries w)) /\ w_deliveries w !! d_ID d = None /\
  (forall id x, w_deliveries w !! id = Some x -> ev_ID (d_Event x) <> ev_ID (d_Event d)).
Proof.
  unfold insertDelivery. destruct (_ || _) eqn:E; [done|]. intros [= <-].
  apply orb_false_iff in E as [[E1 E2]%orb_false_iff _]. bool_props. split_and!; [done|by apply eq_None_not_Some|].
  intros id x Hx. by apply same_str_false, (proj1 (any_row_false _ _) E2 id).
Qed.

Lemma CreatePermissionDelivery_ok fk w d p w' :
  CreatePermissionDelivery fk w d p = Ok w' ->
  exists w1, insertDelivery fk w d = Ok w1 /\ w_presentations w1 !! pp_RequestID p = None /\
    w' = put_presentations w1 (<[pp_RequestID p := p]> (w_presentations w1)).
Proof.
  unfold CreatePermissionDelivery. destruct (insertDelivery fk w d) as [w1|]; simpl; [|done].
  destruct (_ || _) eqn:E; [done|]. intros [= <-]. exists w1. split_and!; [done| |done].
  rewrite !orb_false_iff in E. destruct E as [[[[E _] _] _] _]. bool_props. by apply eq_None_not_Some.
Qed.

(** *** Every statement keeps what is there *)

Lemma insert_kept fk w d w' : insertDelivery fk w d = Ok w' -> world_kept w w'.
Proof.
  intros (-> & Hn & _)%insertDelivery_ok. constructor; simpl; [reflexivity|eauto with neon| |done].
  intros id x Hx. exists x. rewrite lookup_insert_ne by congruence. auto with neon.
Qed.

Lemma UpdateDelivery_kept w id status failure now : world_kept w (UpdateDelivery w id status failure now).2.
Proof.
  unfold UpdateDelivery. destruct (w_deliveries w !! id) as [d|] eqn:E; simpl; [|reflexivity].
  constructor; simpl; [reflexivity|eauto with neon| |done]. intros i x Hx.
  destruct (decide (i = id)) as [->|Hne]; [rewrite lookup_insert_eq|rewrite lookup_insert_ne by done; eauto with neon].
  simplify_eq. eexists. split; [done|]. by repeat split.
Qed.

Lemma request_step_kept w e t' :
  perm_step (w_requests w) e t' -> table_ok (w_requests w) -> world_kept w (put_requests w t').
Proof.
  intros Hst Hok. constructor; simpl; [reflexivity| |eauto with neon|done].
  intros id q Hq. pose proof (perm_step_at _ _ _ id Hst Hok) as Hs. rewrite Hq in Hs.
  destruct (t' !! id) as [q'|]; [|done]. destruct Hs as (H1 & H2 & _). eauto.
Qed.

Lemma event_step_kept fk w w' : event_step fk w w' -> table_ok (w_requests w) -> world_kept w w'.
Proof.
  destruct 1 as [w db' Hs|w e t' Hs|w d w' _ _ Hc|w d p q w' _ _ _ _ _ _ _ _ Hc|w id st f now]; intros Hok.
  - constructor; simpl; [by eapply session_step_keeps|eauto with neon..|done].
  - by eapply request_step_kept.
  - by eapply insert_kept.
  - apply CreatePermissionDelivery_ok in Hc as (w1 & Hi & Hn & ->). transitivity w1; [by eapply insert_kept|].
    constructor; simpl; [reflexivity|eauto with neon..|]. by apply insert_subseteq.
  - apply UpdateDelivery_kept.
Qed.

Lemma owned_kept w w' d : world_kept w w' -> owned w d -> owned w' d.
Proof.
  intros [Hk _ _ _] (s & Hs & Ho). destruct (Hk _ _ Hs) as (s' & Hs' & (_ & Ho' & _)). exists s'. split; congruence.
Qed.

Lemma presented_kept w w' p : world_kept w w' -> presented w p -> presented w' p.
Proof.
  intros [_ Hr Hd _] (d & q & Hd1 & A & B & C & Hq & D). destruct (Hd _ _ Hd1) as (d' & Hd' & (_ & E1 & E2 & _)).
  destruct (Hr _ _ Hq) as (q' & Hq' & (_ & _ & E3 & _) & _). exists d', q'. rewrite E1, E2, E3. done.
Qed.

(** *** The invariant *)

Lemma eo_insert fk w d w' :
  insertDelivery fk w d = Ok w' -> is_ok (Event_Validate (d_Event d)) = true -> owned w d -> events_ok w -> events_ok w'.
Proof.
  intros Hi Hv Ho [Hnm Ht Hd Hu Hp]. pose proof (insert_kept _ _ _ _ Hi) as Hk.
  apply insertDelivery_ok in Hi as (-> & Hn & Huq). constructor; simpl.
  - done.
  - done.
  - intros id x [[<- <-]|[_ Hx]]%lookup_insert_Some; [done|by apply Hd].
  - intros i i' x x' [[<- <-]|[_ Hx]]%lookup_insert_Some [[<- <-]|[_ Hx']]%lookup_insert_Some He;
      [done|by destruct (Huq _ _ Hx')|by destruct (Huq _ _ Hx)|by eapply Hu].
  - intros r p Hr. destruct (Hp _ _ Hr) as [? ?]. split; [done|]. by eapply presented_kept.
Qed.

Lemma event_step_ok fk w w' : event_step fk w w' -> events_ok w -> events_ok w'.
Proof.
  intros Hst Hok. pose proof (event_step_kept _ _ _ Hst (eo_requests _ Hok)) as Hk.
  destruct Hst as [w db' Hs|w e t' Hs|w d w' Hv Ho Hc|w d p q w' Hv Ho Hty Hco Hse Hid Hq Htg Hc|w id st f now].
  - destruct Hok as [Hnm Ht Hd Hu Hp]. constructor; simpl; [by eapply session_step_named|done| |done|].
    + intros id d Hi. destruct (Hd _ _ Hi) as (? & ? & ?). split_and!; [done|done|]. by eapply (owned_kept w).
    + intros r p Hr. destruct (Hp _ _ Hr). split; [done|]. by eapply (presented_kept w).
  - destruct Hok as [Hnm Ht Hd Hu Hp]. constructor; simpl; [done|by eapply perm_step_ok|done|done|].
    intros r p Hr. destruct (Hp _ _ Hr). split; [done|]. by eapply (presented_kept w).
  - by eapply eo_insert.
  - apply CreatePermissionDelivery_ok in Hc as (w1 & Hi & Hn & ->).
    pose proof (eo_insert _ _ _ _ Hi Hv Ho Hok) as [Hnm Ht Hd Hu Hp].
    constructor; simpl; [done|done|intros; by apply Hd|done|].
    intros r x [[<- <-]|[_ Hx]]%lookup_insert_Some; [|by apply Hp]. split; [done|].
    apply insertDelivery_ok in Hi as (-> & _). exists d, q. simpl. rewrite <- Hid, lookup_insert_eq. done.
  - destruct Hok as [Hnm Ht Hd Hu Hp]. unfold UpdateDelivery in *. destruct (w_deliveries w !! id) as [d|] eqn:E; [|done].
    constructor; simpl; [done|done| | |].
    + intros i x [[<- <-]|[_ Hx]]%lookup_insert_Some; [|by apply Hd]. by apply (Hd _ _ E).
    + intros i i' x x' [[<- <-]|[_ Hx]]%lookup_insert_Some [[<- <-]|[_ Hx']]%lookup_insert_Some He;
        [done|by eapply (Hu _ _ d x')|by eapply (Hu _ _ x d)|by eapply Hu].
    + intros r p Hr. destruct (Hp _ _ Hr). split; [done|]. by eapply (presented_kept w).
Qed.

#[global] Instance events_ok_preserved fk : Preserves (event_step fk) events_ok.
Proof. intros w w' Hst Hok. by eapply event_step_ok. Qed.

Lemma empty_world_ok : events_ok empty_world.
Proof. constructor; simpl; [intros ? ?; simpl|done|intros *..]; try done; by rewrite lookup_empty. Qed.

Lemma event_steps_kept fk w w' : rtc (event_step fk) w w' -> events_ok w -> world_kept w w'.
Proof.
  induction 1 as [w|w w1 w2 Hst _ IH]; intros Hok; [reflexivity|].
  transitivity w1; [by eapply event_step_kept, eo_requests|]. apply IH. by eapply event_step_ok.
Qed.
End histories.

(** ** Operations are sequences of statements *)

Section operations.
Context `{EventJSON}.

Lemma recorded_step fk w id st f err now : event_step fk w (recorded w id st f err now).2.
Proof.
  replace ((recorded w id st f err now).2) with ((UpdateDelivery w id st f now).2); [apply es_outcome|].
  unfold recorded. by destruct (UpdateDelivery _ _ _ _ _) as [[]].
Qed.

Lemma attempt_step fk w transport now d : event_step fk w (attempt w transport now d).2.
Proof. unfold attempt, recordAttempt. repeat case_match; apply recorded_step. Qed.

Lemma Lookup_ok db id s : Lookup db id = Ok s -> t_sessions db !! id = Some s /\ blank id = false.
Proof. unfold Lookup, LoadSession. destruct (blank id); [done|]. destruct (t_sessions db !! id); [by intros [= ->]|done]. Qed.

Lemma emit_session_ok w e owner :
  emit_session w e = Ok owner ->
  is_ok (Event_Validate e) = true /\
  exists s, t_sessions (w_sessions w) !! ev_SessionID e = Some s /\ s_Owner s = owner /\ s_Status s = Session.StatusActive.
Proof.
  unfold emit_session. destruct (Event_Validate e); simpl; [|done].
  destruct (Lookup _ _) as [s|] eqn:E; [|done]. apply Lookup_ok in E as [Hs _].
  destruct (bool_decide _) eqn:Ea; [|done]. bool_props. intros [= <-]. split; [done|]. by exists s.
Qed.

Lemma emit_checks_ok w e target owner :
  emit_checks w e target = Ok owner ->
  is_ok (Event_Validate e) = true /\ exists s, t_sessions (w_sessions w) !! ev_SessionID e = Some s /\ s_Owner s = owner.
Proof.
  unfold emit_checks. destruct (emit_session w e) as [o|] eqn:E; simpl; [|done].
  destruct (emit_recipient _ _ _); simpl; [|done]. intros [= ->].
  apply emit_session_ok in E as (Hv & s & Hs & Ho & _). eauto.
Qed.

Lemma permission_event_ok_true e r :
  permission_event_ok e r = true ->
  blank r = false /\ ev_Type e = TypePermissionRequested /\ co_RequestID (ev_Correlation e) = r.
Proof.
  unfold permission_event_ok. intros E%negb_true_iff. apply orb_false_iff in E as [[Hr Hty]%orb_false_iff Hco].
  apply negb_false_iff, bool_decide_eq_true in Hty. by apply negb_false_iff, same_str_true in Hco.
Qed.

(** The row [create] writes for checked contents is one statement. *)
Definition checked (w : world) (owner : Owner) (e : Event) (target requestID : string) : Prop :=
  is_ok (Event_Validate e) = true /\
  (exists s, t_sessions (w_sessions w) !! ev_SessionID e = Some s /\ s_Owner s = owner) /\
  (requestID <> "" -> ev_Type e = TypePermissionRequested /\ co_RequestID (ev_Correlation e) = requestID /\
     exists q, w_requests w !! requestID = Some q /\ target = q_OwnerID q).

Lemma create_step fk w uuid e target owner now requestID w' :
  checked w owner e target requestID -> create fk w (new_delivery uuid e target owner now) requestID now = Ok w' ->
  event_step fk w w'.
Proof.
  intros (Hv & (s & Hs & Ho) & Hq). unfold create. destruct (empty_str requestID) eqn:Er.
  - apply es_create; [done|by exists s].
  - apply empty_str_false in Er. destruct (Hq Er) as (Hty & Hco & q & Hq' & ->).
    eapply es_present; [done|by exists s|done..].
Qed.

Lemma emit_runs fk w transport now now' uuid e target requestID :
  (requestID <> "" -> ev_Type e = TypePermissionRequested /\ co_RequestID (ev_Correlation e) = requestID /\
     exists q, w_requests w !! requestID = Some q /\ target = q_OwnerID q) ->
  rtc (event_step fk) w (emit fk w transport now now' uuid e target requestID).2.
Proof.
  intros Hq. unfold emit. destruct (emit_checks w e target) as [owner|] eqn:E; [|apply rtc_refl].
  apply emit_checks_ok in E as [Hv Hs]. cbn zeta.
  destruct (create _ _ _ _ _) as [w1|] eqn:Hc; [|apply rtc_refl].
  eapply rtc_l; [by eapply create_step|]. apply rtc_once, attempt_step.
Qed.

Lemma emit_steps fk w transport now now' uuid e target :
  rtc (event_step fk) w (Emit fk w transport now now' uuid e target).2.
Proof. by apply emit_runs. Qed.

Lemma EmitPermission_steps fk w transport now now' uuid e requestID q :
  w_requests w !! requestID = Some q ->
  rtc (event_step fk) w (EmitPermission fk w transport now now' uuid e (q_OwnerID q) requestID).2.
Proof.
  intros Hq. unfold EmitPermission. destruct (permission_event_ok e requestID) eqn:E; [|apply rtc_refl].
  apply permission_event_ok_true in E as (_ & Hty & Hco). apply emit_runs. eauto.
Qed.

Lemma RetryDelivery_steps fk w transport now id : rtc (event_step fk) w (RetryDelivery w transport now id).2.
Proof.
  unfold RetryDelivery. destruct (GetDelivery w id) as [d|]; [|apply rtc_refl].
  destruct (negb _); [apply rtc_refl|]. apply rtc_once, attempt_step.
Qed.

Lemma replay_steps fk transport clock ds : forall w, rtc (event_step fk) w (replay w transport clock ds).2.
Proof.
  induction ds as [|d ds IH]; intros w; simpl; [apply rtc_refl|].
  pose proof (attempt_step fk w transport (clock d) d) as Ha.
  destruct (attempt w transport (clock d) d) as [[[u|] e] w1]; [|by apply rtc_once].
  specialize (IH w1). destruct (replay w1 transport clock ds) as [[]]; by eapply rtc_l.
Qed.

Lemma Get_step fk w now id : event_step fk w (put_requests w (Get (w_requests w) now id).2).
Proof. eapply es_request, ps_get. Qed.

Lemma Present_steps fk w principals dn transport ng ne now now' ide id r :
  events_ok w -> rtc (event_step fk) w (Present fk w principals dn transport ng ne now now' ide id r).2.
Proof.
  intros Hok. pose proof (Get_step fk w ng r) as Hg. unfold Present.
  destruct (Get (w_requests w) ng r) as [[q|e] t] eqn:EG; simpl in Hg; [|by apply rtc_once].
  assert (Hq : t !! r = Some q /\ table_ok t).
  { split; [by apply (Get_ok _ _ _ _ _ (eo_requests _ Hok) EG)|].
    replace t with ((Get (w_requests w) ng r).2) by by rewrite EG. eapply perm_step_ok; [apply ps_get|apply Hok]. }
  destruct Hq as [Hq Ht]. destruct (Ht _ _ Hq) as [Hid _].
  repeat (match goal with |- context [if ?b then _ else _] => destruct b; [by apply rtc_once|] end).
  destruct (LoadPermissionPresentation _ _) as [p|]; [eapply rtc_l; [done|]; apply RetryDelivery_steps|].
  destruct (LookupPrincipal _ _ _); [|by apply rtc_once]. destruct (negb _); [by apply rtc_once|].
  destruct (ListParticipantSessions _ _) as [bs|]; [|by apply rtc_once]. cbn zeta.
  destruct (empty_str (select_session _ _ _ _)); [by apply rtc_once|].
  destruct (permission_event _ _ _ _) as [ev|]; [|by apply rtc_once].
  eapply rtc_l; [done|]. apply EmitPermission_steps. simpl. by rewrite Hid.
Qed.

(** *** Reading tables *)

Lemma participates_true db sid bs pid :
  ListParticipants db sid = Ok bs ->
  participates bs pid = true <->
  exists k b, t_participants db !! k = Some b /\ pb_SessionID b = sid /\ pb_PrincipalID b = pid.
Proof.
  unfold ListParticipants. destruct (blank sid); [done|]. intros [= <-]. unfold participates.
  rewrite existsb_exists. setoid_rewrite same_str_true. setoid_rewrite <- list_elem_of_In.
  unfold ListSessionParticipants. setoid_rewrite elem_of_select_by. setoid_rewrite same_str_true. naive_solver.
Qed.

Lemma resolve_answer t now id target auth q t' :
  table_ok t -> resolve t now id target auth = (Ok q, t') -> q_Status q = target /\ q_ID q = id /\ t' !! id = Some q.
Proof.
  intros Hok. unfold resolve, load. destruct (_ || _); [done|]. destruct (t !! id) as [q0|] eqn:E; [|done].
  destruct (Hok _ _ E) as [Hid _]. destruct (bool_decide (q_Status q0 = target)) eqn:Es.
  { intros [= <- <-]. bool_props. done. }
  destruct (bool_decide (q_Status q0 = StatusPending)) eqn:Ep; simpl; [|done]. bool_props.
  destruct (Before now (q_ExpiresAt q0)); simpl; [|destruct (transition _ _ _ _ _) as [[?|[]] ?]; done].
  unfold transition, TransitionPermissionRequest, update_row. rewrite Hid, E, bool_decide_true by done.
  unfold load. rewrite lookup_insert_eq. simpl. intros [= <- <-]. rewrite lookup_insert_eq. done.
Qed.

Lemma transition_expired (t : gmap string Request) id i now q' :
  (TransitionPermissionRequest t i StatusExpired now "").2 !! id = Some q' ->
  t !! id = Some q' \/ (id = i /\ q_Status q' = StatusExpired).
Proof.
  unfold TransitionPermissionRequest, update_row. destruct (t !! i) as [q|] eqn:E; [|by left].
  destruct (bool_decide _); simpl; [|by left]. rewrite lookup_insert_Some. intros [[<- <-]|[_ ?]]; auto.
Qed.

(** Looking a request up can only expire it. *)
Lemma Get_expires t now id j q' :
  table_ok t -> (Get t now id).2 !! j = Some q' -> t !! j = Some q' \/ (j = id /\ q_Status q' = StatusExpired).
Proof.
  intros Hok. unfold Get, load. destruct (blank id); [by left|]. destruct (t !! id) as [q|] eqn:E; [|by left].
  destruct (Hok _ _ E) as [Hid _]. destruct (expireIfDue_table t now q) as [->|(_ & _ & ->)]; [by left|].
  rewrite Hid. apply transition_expired.
Qed.

Lemma resolve_refused t now id target auth e t' j q' :
  table_ok t -> resolve t now id target auth = (Err e, t') -> t' !! j = Some q' ->
  t !! j = Some q' \/ (j = id /\ q_Status q' = StatusExpired).
Proof.
  intros Hok. unfold resolve, load. destruct (_ || _); [intros [= _ <-]; by left|].
  destruct (t !! id) as [q0|] eqn:E; [|intros [= _ <-]; by left]. destruct (Hok _ _ E) as [Hid _].
  destruct (bool_decide (q_Status q0 = target)); [done|].
  destruct (bool_decide (q_Status q0 = StatusPending)) eqn:Ep; simpl; [|intros [= _ <-]; by left]. bool_props.
  pose proof (transition_table t now (q_ID q0) StatusExpired "") as Htr.
  destruct (Before now (q_ExpiresAt q0)); simpl.
  - unfold transition, TransitionPermissionRequest, update_row. rewrite Hid, E, bool_decide_true by done.
    unfold load. by rewrite lookup_insert_eq.
  - rewrite Hid in *. destruct (transition _ _ _ _ _) as [[?|[]] t1]; simpl in Htr; intros [= _ <-]; rewrite Htr;
      apply transition_expired.
Qed.
End operations.

(** ** Theorems *)

Section theorems.
Context `{EventJSON}.

(** The principal is a participant of the session. *)
Definition bound (w : world) (sid pid : string) : Prop :=
  exists k b, t_participants (w_sessions w) !! k = Some b /\ pb_SessionID b = sid /\ pb_PrincipalID b = pid.

Definition active_session (w : world) (sid : string) : Prop :=
  exists s, t_sessions (w_sessions w) !! sid = Some s /\ s_Status s = Session.StatusActive.

Definition activity (fk : bool) (f : world -> world) : Prop := forall v, rtc (event_step fk) v (f v).

(** The checks a decided request has passed. *)
Lemma Decide_answered w principals dn b1 b2 b3 nowg now resolution sid acting p q err w' :
  Decide w principals dn b1 b2 b3 nowg now resolution sid acting p = ((Some q, err), w') ->
  LookupPrincipal principals dn (pr_ID acting) = Ok acting /\ pr_Authority acting = AuthorityOwner /\
  bound w sid (pr_ID acting) /\
  exists pres q0 t target t', w_presentations (b1 w) !! dp_RequestID p = Some pres /\ pp_SessionID pres = sid /\
    Get (w_requests (b2 (b1 w))) nowg (dp_RequestID p) = (Ok q0, t) /\ q_OwnerID q0 = pr_ID acting /\
    resolve (w_requests (b3 (put_requests (b2 (b1 w)) t))) now (q_ID q0) target (pr_ID acting) = (Ok q, t') /\
    match dp_Decision p with
    | DecisionApprove => target = StatusApproved
    | DecisionRefuse => target = StatusDenied
    | DecisionOther _ => False
    end.
Proof.
  unfold Decide. destruct (LookupPrincipal principals dn (pr_ID acting)) as [conf|] eqn:EL; [|done].
  destruct (_ || _) eqn:Ec; [done|]. apply orb_false_iff in Ec as [Ec Eo].
  apply negb_false_iff, bool_decide_eq_true in Ec. subst conf. apply negb_false_iff, same_str_true in Eo.
  destruct (ListParticipants (w_sessions w) sid) as [bs|] eqn:Eb; [|done].
  destruct (participates bs (pr_ID acting)) eqn:Ep; [|done]. cbn [negb]. cbn zeta.
  apply (participates_true _ _ _ _ Eb) in Ep. unfold LoadPermissionPresentation.
  destruct (w_presentations (b1 w) !! dp_RequestID p) as [pres|]; [|done].
  destruct (same_str (pp_SessionID pres) sid) eqn:Es; [|done]. apply same_str_true in Es. cbn [negb].
  destruct (Get (w_requests (b2 (b1 w))) nowg (dp_RequestID p)) as [[q0|] t]; [|done].
  destruct (bool_decide _); [done|]. destruct (same_str (q_OwnerID q0) (pr_ID acting)) eqn:Eown; [|done].
  apply same_str_true in Eown. cbn [negb]. unfold Approve, Deny. intros HD. do 3 (split; [done|]).
  destruct (dp_Decision p); [| |done];
    destruct (resolve _ _ _ _ _) as [[x|] t'] eqn:Eres; try done;
    (assert (x = q) as -> by (destruct resolution as [h|]; [destruct (h _ _)|]; congruence));
    exists pres, q0, t; do 2 eexists; split_and!; done.
Qed.

(** A decided request is the request that was there, with its owner. *)
Lemma resolve_owner t now id target auth q t' :
  table_ok t -> target <> StatusPending -> resolve t now id target auth = (Ok q, t') ->
  exists x, t !! id = Some x /\ q_OwnerID q = q_OwnerID x.
Proof.
  intros Hok Hne Hres. pose proof (resolve_step_at t now id target auth id Hok Hne) as Hst.
  pose proof (resolve_answer _ _ _ _ _ _ _ Hok Hres) as (_ & _ & Hin). rewrite Hres in Hst. simpl in Hst. rewrite Hin in Hst.
  destruct (t !! id) as [x|] eqn:Ex; [destruct Hst as ((_ & _ & Ho & _) & _); eauto|].
  unfold resolve, load in Hres. rewrite Ex in Hres. by destruct (_ || _).
Qed.

Lemma owner_kept w w' r q q' :
  world_kept w w' -> w_requests w !! r = Some q -> w_requests w' !! r = Some q' -> q_OwnerID q' = q_OwnerID q.
Proof.
  intros Hk Hq Hq'. destruct (wk_requests _ _ Hk _ _ Hq) as (x & Hx & (_ & _ & Ho & _) & _). congruence.
Qed.

(** A decision comes from the owner, from where it was presented.  If the
    bridge answers a decision with the decided request, whatever else happens
    between its checks, then: the acting principal is configured as an owner; it
    was a participant of the session; the request was presented in that session,
    in a delivery addressed to it; it owns the request; and the answer is the
    request in the state the decision asked for. *)
Theorem decision_facts fk w principals dn b1 b2 b3 nowg now resolution sid acting p q err w' :
  rtc (event_step fk) empty_world w -> activity fk b1 -> activity fk b2 -> activity fk b3 ->
  Decide w principals dn b1 b2 b3 nowg now resolution sid acting p = ((Some q, err), w') ->
  LookupPrincipal principals dn (pr_ID acting) = Ok acting /\ pr_Authority acting = AuthorityOwner /\
  bound w sid (pr_ID acting) /\
  (exists pres d, w_presentations (b1 w) !! dp_RequestID p = Some pres /\ pp_SessionID pres = sid /\
     w_deliveries (b1 w) !! pp_DeliveryID pres = Some d /\ ev_SessionID (d_Event d) = sid /\
     d_TargetPrincipalID d = pr_ID acting) /\
  q_ID q = dp_RequestID p /\ q_OwnerID q = pr_ID acting /\
  match dp_Decision p with
  | DecisionApprove => q_Status q = StatusApproved
  | DecisionRefuse => q_Status q = StatusDenied
  | DecisionOther _ => False
  end.
Proof.
  intros Hr H1 H2 H3 (HL & HA & Hb & pres & q0 & t & target & t' & Hpres & Hsid & HG & Hown & Hres & Hdec)%Decide_answered.
  assert (Hok : events_ok w) by exact (reachable_keeps events_ok _ _ Hr empty_world_ok).
  assert (Hok1 : events_ok (b1 w)) by exact (reachable_keeps events_ok _ _ (H1 w) Hok).
  assert (Hok2 : events_ok (b2 (b1 w))) by exact (reachable_keeps events_ok _ _ (H2 _) Hok1).
  pose proof (Get_step fk (b2 (b1 w)) nowg (dp_RequestID p)) as Hg. rewrite HG in Hg. cbn [snd] in Hg.
  pose proof (event_step_ok _ _ _ Hg Hok2) as Hok3. set (w3 := put_requests (b2 (b1 w)) t) in *.
  assert (Hq0 : w_requests w3 !! dp_RequestID p = Some q0) by exact (Get_ok _ _ _ _ _ (eo_requests _ Hok2) HG).
  assert (Hok4 : events_ok (b3 w3)) by exact (reachable_keeps events_ok _ _ (H3 w3) Hok3).
  destruct (eo_requests _ Hok3 _ _ Hq0) as [Hid _]. rewrite Hid in Hres.
  destruct (eo_presented _ Hok1 _ _ Hpres) as [Hpid (d & qp & Hd & Hds & _ & _ & Hqp & Htg)]. rewrite Hpid in Hqp.
  assert (Hk13 : world_kept (b1 w) w3).
  { transitivity (b2 (b1 w)); [by eapply event_steps_kept|by eapply event_step_kept, eo_requests]. }
  pose proof (owner_kept _ _ _ _ _ Hk13 Hqp Hq0) as Ho1.
  assert (Hne : target <> StatusPending) by (destruct (dp_Decision p); [by subst..|done]).
  destruct (resolve_owner _ _ _ _ _ _ _ (eo_requests _ Hok4) Hne Hres) as (x & Hx & Ho2).
  pose proof (owner_kept _ _ _ _ _ (event_steps_kept _ _ _ (H3 w3) Hok3) Hq0 Hx) as Ho3.
  destruct (resolve_answer _ _ _ _ _ _ _ (eo_requests _ Hok4) Hres) as (Hst & Hqid & _).
  do 3 (split; [done|]). split; [exists pres, d; split_and!; congruence|]. split_and!; [done|congruence|].
  destruct (dp_Decision p); congruence.
Qed.

(** At most the request [r] expired. *)
Definition undecided (w w' : world) (r : string) : Prop :=
  w_sessions w' = w_sessions w /\ w_deliveries w' = w_deliveries w /\ w_presentations w' = w_presentations w /\
  (forall i q', w_requests w' !! i = Some q' ->
     w_requests w !! i = Some q' \/ (i = r /\ q_Status q' = StatusExpired)).

(** A refused decision decides nothing: at most the request it names expires. *)
Theorem decision_refused fk w principals dn nowg now resolution sid acting p err w' :
  rtc (event_step fk) empty_world w ->
  Decide w principals dn id id id nowg now resolution sid acting p = ((None, err), w') ->
  undecided w w' (dp_RequestID p).
Proof.
  intros Hr. assert (Hok : events_ok w) by exact (reachable_keeps events_ok _ _ Hr empty_world_ok).
  assert (Hnone : w' = w -> undecided w w' (dp_RequestID p)) by (intros ->; split_and!; auto).
  unfold Decide, id. destruct (LookupPrincipal _ _ _); [|naive_solver]. destruct (_ || _); [naive_solver|].
  destruct (ListParticipants _ _); [|naive_solver]. destruct (negb _); [naive_solver|].
  destruct (LoadPermissionPresentation _ _); [|naive_solver]. destruct (negb _); [naive_solver|].
  pose proof (Get_step fk w nowg (dp_RequestID p)) as Hg.
  pose proof (fun j q' => Get_expires (w_requests w) nowg (dp_RequestID p) j q' (eo_requests _ Hok)) as Hexp.
  destruct (Get (w_requests w) nowg (dp_RequestID p)) as [[q0|] t] eqn:EG; cbn [snd] in *;
    [|intros [= _ <-]; by split_and!].
  assert (Hget : w' = put_requests w t -> undecided w w' (dp_RequestID p)) by (intros ->; by split_and!).
  destruct (bool_decide _); [naive_solver|]. destruct (negb _); [naive_solver|].
  pose proof (event_step_ok _ _ _ Hg Hok) as Hok3.
  assert (Hid : q_ID q0 = dp_RequestID p)
    by by apply (eo_requests _ Hok3 (dp_RequestID p)), (Get_ok _ _ _ _ _ (eo_requests _ Hok) EG).
  unfold Approve, Deny. simpl. rewrite Hid. destruct (dp_Decision p); [| |naive_solver];
    destruct (resolve _ _ _ _ _) as [[x|] t'] eqn:Eres;
    try (destruct resolution as [h|]; [destruct (h _ _)|]; done); intros [= _ <-]; split_and!; try done;
    intros r q' Hq'; destruct (resolve_refused _ _ _ _ _ _ _ _ _ (eo_requests _ Hok3) Eres Hq'); auto.
Qed.

(** The session is active and still owned by the delivery's owner, and the addressee, if any, takes part in it. *)
Definition can_receive (w : world) (d : Delivery) : Prop :=
  exists s, t_sessions (w_sessions w) !! ev_SessionID (d_Event d) = Some s /\ s_Status s = Session.StatusActive /\
    s_Owner s = d_Owner d /\
    (d_TargetPrincipalID d <> "" -> bound w (ev_SessionID (d_Event d)) (d_TargetPrincipalID d)).

Lemma valid_session_id e : is_ok (Event_Validate e) = true -> blank (ev_SessionID e) = false.
Proof.
  unfold Event_Validate. destruct (_ || _) eqn:E; [done|]. intros _.
  rewrite !orb_false_iff in E. by destruct E as [[[[_ _] ?] _] _].
Qed.

Lemma attempt_cases w transport now d :
  blank (ev_SessionID (d_Event d)) = false ->
  (can_receive w d /\
   attempt w transport now d =
     match transport (d_Owner d) d with
     | Some e => recordAttempt w d (TransportFailed e) (isTerminalDeliveryError e) now
     | None => recorded w (d_ID d) DeliveryAccepted "" None now
     end) \/
  (~ can_receive w d /\ exists e, attempt w transport now d = recordAttempt w d e true now).
Proof.
  intros Hb. unfold attempt, can_receive, Lookup, LoadSession. rewrite Hb.
  destruct (t_sessions _ !! _) as [s|]; [|right; split; [by intros (? & ? & _)|by exists ErrSessionUnavailable]].
  destruct (bool_decide (s_Status s = _)) eqn:Ea; bool_props; cbn [negb orb];
    [|right; split; [intros (? & [= <-] & ? & _); done|by exists ErrSessionUnavailable]].
  destruct (bool_decide (s_Owner s = _)) eqn:Eo; bool_props; cbn [negb orb];
    [|right; split; [intros (? & [= <-] & _ & ? & _); done|by exists ErrSessionUnavailable]].
  destruct (empty_str (d_TargetPrincipalID d)) eqn:Et.
  { left. split; [|done]. exists s. split_and!; try done. by apply empty_str_true in Et. }
  destruct (ListParticipants _ _) as [bs|] eqn:El; [|unfold ListParticipants in El; by rewrite Hb in El].
  pose proof (participates_true _ _ _ (d_TargetPrincipalID d) El) as Hp.
  destruct (participates bs _); cbn [negb].
  - left. split; [|done]. exists s. split_and!; [done..|]. intros _. by apply Hp.
  - right. split; [|by exists ErrRecipientUnavailable]. intros (? & [= <-] & _ & _ & Hbd).
    apply empty_str_false in Et. by apply Hp in Hbd.
Qed.

Lemma recorded_outcome w id st f err now row :
  w_deliveries w !! id = Some row -> let row' := with_outcome row st f now in
  recorded w id st f err now = ((Some row', err), put_deliveries w (<[id := row']> (w_deliveries w))).
Proof. intros Hrow. unfold recorded, UpdateDelivery. by rewrite Hrow. Qed.

(** What an attempt records.  For a recorded delivery, whatever its state,
    an attempt records exactly one outcome in its row and answers the row:
    accepted if and only if the delivery could still be received and the
    transport took it; pending, to be tried again, if and only if it could be
    received and the transport failed without calling the failure final; failed
    otherwise.  An error is answered if and only if it was not accepted. *)
Theorem delivery_outcome w transport now d row :
  is_ok (Event_Validate (d_Event d)) = true -> w_deliveries w !! d_ID d = Some row ->
  exists row', same_delivery row row' /\ (attempt w transport now d).1.1 = Some row' /\
    (attempt w transport now d).2 = put_deliveries w (<[d_ID d := row']> (w_deliveries w)) /\
    (d_Status row' = DeliveryAccepted <-> can_receive w d /\ transport (d_Owner d) d = None) /\
    (d_Status row' = DeliveryPending <->
     can_receive w d /\ exists e, transport (d_Owner d) d = Some e /\ isTerminalDeliveryError e = false) /\
    ((attempt w transport now d).1.2 = None <-> d_Status row' = DeliveryAccepted).
Proof.
  intros Hv%valid_session_id Hrow.
  destruct (attempt_cases w transport now d Hv) as [[Hc ->]|[Hc [e ->]]]; unfold recordAttempt;
    revert Hc; generalize (can_receive w d); intros C Hc.
  - destruct (transport (d_Owner d) d) as [e|] eqn:Et; rewrite (recorded_outcome _ _ _ _ _ _ _ Hrow);
      eexists; simpl; (split; [|split; [reflexivity|split; [reflexivity|]]]); try by repeat split.
    + destruct (isTerminalDeliveryError e) eqn:Ee; simpl; (split_and!; [naive_solver| |done]); split; try done.
      * intros (_ & e' & [= <-] & ?). congruence.
      * intros _. split; [done|]. by exists e.
    + simpl. split_and!; [done|naive_solver|done].
  - rewrite (recorded_outcome _ _ _ _ _ _ _ Hrow). eexists. simpl.
    split; [|split; [reflexivity|split; [reflexivity|]]]; [by repeat split|]. simpl.
    split_and!; (split; [done|]); [by intros [? _]..|done].
Qed.

(** An attempt does not look at the state of the row: one that started from an
    earlier copy and fails in transit makes an accepted delivery pending again. *)
Lemma stale_attempt_reopens w transport now d row e :
  is_ok (Event_Validate (d_Event d)) = true -> w_deliveries w !! d_ID d = Some row -> d_Status row = DeliveryAccepted ->
  can_receive w d -> transport (d_Owner d) d = Some e -> isTerminalDeliveryError e = false ->
  exists row', w_deliveries (attempt w transport now d).2 !! d_ID d = Some row' /\ d_Status row' = DeliveryPending.
Proof.
  intros Hv Hrow _ Hc He Ht. destruct (attempt_cases w transport now d (valid_session_id _ Hv)) as [[_ ->]|[? _]]; [|done].
  rewrite He. unfold recordAttempt. rewrite (recorded_outcome _ _ _ _ _ _ _ Hrow), Ht. eexists. simpl. by rewrite lookup_insert_eq.
Qed.

(** *** Where a request is presented *)

(** An active session one of the bindings belongs to. *)
Definition eligible (db : sessions_db) (bs : list ParticipantBinding) (sid : string) : Prop :=
  exists b s, b ∈ bs /\ pb_SessionID b = sid /\ t_sessions db !! sid = Some s /\
    s_Status s = Session.StatusActive /\ blank sid = false.

Lemma eligible_cons db b bs sid :
  eligible db (b :: bs) sid <-> eligible db [b] sid \/ eligible db bs sid.
Proof. unfold eligible. setoid_rewrite elem_of_cons. setoid_rewrite elem_of_nil. naive_solver. Qed.

Lemma select_session_spec db preferred bs : sessions_named db -> forall selected,
  let r := select_session db preferred selected bs in
  (r = selected \/ eligible db bs r) /\ (eligible db bs preferred -> r = preferred) /\
  (r = "" -> selected = "" /\ forall sid, ~ eligible db bs sid).
Proof.
  intros Hn. induction bs as [|b bs IH]; intros selected; cbn zeta; simpl.
  { unfold eligible. split_and!; [by left|set_solver|]. intros ->. split; [done|set_solver]. }
  setoid_rewrite (eligible_cons db b bs).
  assert (Hfirst : forall sid, eligible db [b] sid -> sid = pb_SessionID b /\ exists s,
    t_sessions db !! sid = Some s /\ s_Status s = Session.StatusActive /\ blank sid = false).
  { intros sid (b0 & s & ->%list_elem_of_singleton & <- & ?). split; [done|]. by exists s. }
  unfold Lookup, LoadSession.
  destruct (blank (pb_SessionID b)) eqn:Eb; [|destruct (t_sessions db !! pb_SessionID b) as [s|] eqn:Es;
    [destruct (bool_decide _) eqn:Ea; bool_props|]].
  2: {
    assert (Hel : eligible db [b] (pb_SessionID b)) by (exists b, s; split_and!; set_solver).
    rewrite (Hn _ _ Es). destruct (same_str preferred _) eqn:Ep.
    { apply same_str_true in Ep as ->. split_and!; [by right; left|done|]. intros Hz. by rewrite Hz in Eb. }
    apply same_str_false in Ep. destruct (IH (if empty_str selected then pb_SessionID b else selected)) as (I1 & I2 & I3).
    split_and!.
    - destruct I1 as [->|?]; [destruct (empty_str selected); auto|auto].
    - intros [[? _]%Hfirst|?]; [done|auto].
    - intros Hr. destruct (I3 Hr) as [Hsel _]. destruct (empty_str selected) eqn:Ee; [by rewrite Hsel in Eb|].
      by apply empty_str_false in Ee. }
  all: assert (Hno : forall sid, ~ eligible db [b] sid) by (intros sid (-> & s' & ? & ? & ?)%Hfirst; congruence);
    destruct (IH selected) as (I1 & I2 & I3); split_and!; [tauto|intros [?%Hno|?]; [done|auto]|];
    intros Hr; destruct (I3 Hr) as [? Hno2]; split; [done|]; intros sid [?%Hno|?%Hno2]; done.
Qed.

Lemma attempt_answer w transport now d x err w' :
  attempt w transport now d = ((Some x, err), w') ->
  exists row, w_deliveries w !! d_ID d = Some row /\ same_delivery row x /\
    w' = put_deliveries w (<[d_ID d := x]> (w_deliveries w)).
Proof.
  assert (Hrec : forall st f er, recorded w (d_ID d) st f er now = ((Some x, err), w') ->
    exists row, w_deliveries w !! d_ID d = Some row /\ same_delivery row x /\
      w' = put_deliveries w (<[d_ID d := x]> (w_deliveries w))).
  { intros st f er. unfold recorded, UpdateDelivery. destruct (w_deliveries w !! d_ID d) as [row|]; [|done].
    intros [= <- <- <-]. exists row. by repeat split. }
  unfold attempt, recordAttempt. repeat case_match; eauto.
Qed.

(** What the checks of an addressed event have established. *)
Lemma emit_checks_target w e target owner :
  emit_checks w e target = Ok owner -> target <> "" ->
  active_session w (ev_SessionID e) /\ bound w (ev_SessionID e) target.
Proof.
  unfold emit_checks. destruct (emit_session w e) as [o|] eqn:E; simpl; [|done].
  apply emit_session_ok in E as (_ & s & Hs & _ & Ha). intros Ho Hne. unfold emit_recipient in Ho.
  rewrite (proj2 (empty_str_false _) Hne) in Ho. destruct (ListParticipants _ _) as [bs|] eqn:El; [|done].
  destruct (participates bs target) eqn:Ep; [|done]. split; [by exists s|]. by apply (participates_true _ _ _ _ El).
Qed.

Lemma EmitPermission_answer fk w transport now now' uuid e target r d err w' :
  EmitPermission fk w transport now now' uuid e target r = ((Some d, err), w') -> target <> "" ->
  active_session w (ev_SessionID e) /\ bound w (ev_SessionID e) target /\
  d_Event d = e /\ d_TargetPrincipalID d = target /\ w_requests w' = w_requests w /\
  exists pres, w_presentations w' !! r = Some pres /\ pp_SessionID pres = ev_SessionID e /\ pp_DeliveryID pres = d_ID d.
Proof.
  intros He Hne. unfold EmitPermission in He. destruct (permission_event_ok e r) eqn:E0; [|done].
  apply permission_event_ok_true in E0 as (Hr & _ & _). cbn [negb] in He. unfold emit, create in He.
  destruct (emit_checks w e target) as [owner|] eqn:E; [|done].
  destruct (emit_checks_target _ _ _ _ E Hne) as [Ha Hb].
  destruct (empty_str r) eqn:Er; [apply empty_str_true in Er; by rewrite Er in Hr|]. cbn zeta in He.
  destruct (CreatePermissionDelivery _ _ _ _) as [w1|] eqn:Hc; [|done].
  apply CreatePermissionDelivery_ok in Hc as (w2 & Hi & _ & ->). apply insertDelivery_ok in Hi as (-> & _ & _).
  apply attempt_answer in He as (row & Hrow & (Hid & Hev & Htg & _) & ->). simpl in *.
  rewrite lookup_insert_eq in Hrow. injection Hrow as <-. simpl in *. split_and!; try done.
  eexists. rewrite lookup_insert_eq. by split_and!.
Qed.

Lemma Emit_answer fk w transport now now' uuid e target d err w' :
  Emit fk w transport now now' uuid e target = ((Some d, err), w') ->
  d_Event d = e /\ d_TargetPrincipalID d = target /\ w_deliveries w' !! d_ID d = Some d /\
  exists s, t_sessions (w_sessions w) !! ev_SessionID e = Some s /\ s_Owner s = d_Owner d.
Proof.
  unfold Emit, emit, create. destruct (emit_checks w e target) as [owner|] eqn:E; [|done]. simpl.
  apply emit_checks_ok in E as [_ (s & Hs & Ho)].
  destruct (CreateDelivery _ _ _) as [w1|] eqn:Hc; [|done]. apply insertDelivery_ok in Hc as (-> & _ & _).
  intros (row & Hrow & (Hid & Hev & Htg & How & _) & ->)%attempt_answer. simpl in *.
  rewrite lookup_insert_eq in Hrow. injection Hrow as <-. simpl in *. rewrite Hid, lookup_insert_eq.
  split_and!; try done. exists s. split; [done|congruence].
Qed.

Lemma NewEvent_session sid typ raw c now uuid e : NewEvent sid typ raw c now uuid = Ok e -> ev_SessionID e = sid.
Proof. unfold NewEvent. destruct raw; [|done]. destruct (Event_Validate _); simpl; [by intros [= <-]|done]. Qed.

(** Membership as the bridge reads it, with the trimmed principal. *)
Lemma elem_of_principal_sessions db pid bs b :
  ListParticipantSessions db pid = Ok bs ->
  b ∈ merge_sort session_before bs <-> exists k, t_participants db !! k = Some b /\ pb_PrincipalID b = TrimSpace pid.
Proof.
  unfold ListParticipantSessions. destruct (blank pid); [done|]. intros [= <-]. rewrite merge_sort_Permutation.
  unfold ListPrincipalSessions. rewrite elem_of_select_by. by setoid_rewrite same_str_true.
Qed.

(** A request is presented to its owner.  When a request that was not
    presented before is presented with a delivery as the answer: the request is
    pending, its owner is configured as an owner, the delivery is addressed to
    that owner in an active session the owner takes part in, the session the
    request came from if that is one, and the presentation of the request names
    exactly this session and delivery. *)
Theorem request_presented_to_owner fk w principals dn transport ng ne now now' ide id r d err w' :
  rtc (event_step fk) empty_world w -> w_presentations w !! r = None ->
  Present fk w principals dn transport ng ne now now' ide id r = ((Some d, err), w') ->
  exists q, w_requests w' !! r = Some q /\ q_Status q = StatusPending /\
    (exists p, LookupPrincipal principals dn (q_OwnerID q) = Ok p /\ pr_Authority p = AuthorityOwner) /\
    d_TargetPrincipalID d = q_OwnerID q /\
    active_session w (ev_SessionID (d_Event d)) /\ bound w (ev_SessionID (d_Event d)) (q_OwnerID q) /\
    (let own := SessionID (q_Correlation q) in
     active_session w own -> blank own = false -> bound w own (TrimSpace (q_OwnerID q)) -> ev_SessionID (d_Event d) = own) /\
    exists pres, w_presentations w' !! r = Some pres /\ pp_SessionID pres = ev_SessionID (d_Event d) /\
      pp_DeliveryID pres = d_ID d.
Proof.
  intros Hr Hnew. assert (Hok : events_ok w) by exact (reachable_keeps events_ok _ _ Hr empty_world_ok).
  pose proof (Get_step fk w ng r) as Hg. unfold Present.
  destruct (Get (w_requests w) ng r) as [[q|e] t] eqn:EG; simpl in Hg; [|done].
  pose proof (event_step_ok _ _ _ Hg Hok) as Hok1.
  assert (Hq : t !! r = Some q) by exact (Get_ok _ _ _ _ _ (eo_requests _ Hok) EG).
  destruct (eo_requests _ Hok1 _ _ Hq) as [Hid _].
  destruct (bool_decide (q_Status q = StatusExpired)); [done|].
  destruct (bool_decide (q_Status q = StatusPending)) eqn:Ep; [|done]. bool_props. cbn [negb].
  unfold LoadPermissionPresentation. simpl. rewrite Hnew.
  destruct (LookupPrincipal _ _ _) as [p|] eqn:EL; [|done].
  destruct (same_str (pr_Authority p) _) eqn:Eo; [|done]. apply same_str_true in Eo. cbn [negb].
  assert (Hne : q_OwnerID q <> "").
  { intros Hz. rewrite Hz in EL. unfold LookupPrincipal in EL. by destruct dn. }
  destruct (ListParticipantSessions _ _) as [bs|] eqn:Eb; [|done]. cbn zeta.
  set (sel := select_session _ _ _ _). destruct (empty_str sel) eqn:Es; [done|].
  destruct (permission_event _ _ _ _) as [ev|] eqn:Ee; [|done]. apply NewEvent_session in Ee.
  intros (Ha & Hbd & Hdev & Htg & Hreq & Hpres)%EmitPermission_answer; [|done]. rewrite Hid in Hpres. subst ev.
  exists q. rewrite Hreq. split_and!; [done|done|by exists p|done|done|done| |done].
  intros (s & Hs & Hact) Hnb (k & b & Hk & Hbs & Hbp). rewrite Ee. unfold sel.
  destruct (select_session_spec (w_sessions w) (SessionID (q_Correlation q)) (merge_sort session_before bs)
    (eo_named _ Hok) "") as (_ & Hpref & _). apply Hpref.
  exists b, s. split_and!; try done. apply (elem_of_principal_sessions _ _ _ _ Eb). by exists k.
Qed.
End theorems.

(** ** Calls in flight

    The calls of the service, cut where they read or write a table: between two
    pieces of one call anything else may run, other calls included. *)

Section interleaving.
Context `{EventJSON}.

Inductive call :=
| Presenting (requestID : string) (q : Request)
| Placing (q : Request)
| Retrying (deliveryID : string)
| Addressing (owner : Owner) (e : Event) (target requestID : string)
| Creating (owner : Owner) (e : Event) (target requestID : string)
| Attempting (ds : list Delivery).

Record system := { y_world : world; y_calls : gmap nat call }.

Definition goes (y : system) (w : world) (k : nat) (c : call) : system :=
  {| y_world := w; y_calls := <[k := c]> (y_calls y) |}.

(** What the sessions say of a request's owner, and what an attempt finds out
    and the transport answers, is left open: [sy_place] takes any session and
    [sy_attempt] any outcome.  A call may end at any point, with an error. *)
Inductive sys_step (fk : bool) (y : system) : system -> Prop :=
| sy_session db' : session_step fk (w_sessions (y_world y)) db' ->
    sys_step fk y {| y_world := put_session_db (y_world y) db'; y_calls := y_calls y |}
| sy_request e t' : perm_step (w_requests (y_world y)) e t' ->
    sys_step fk y {| y_world := put_requests (y_world y) t'; y_calls := y_calls y |}
| sy_get k now r q t' : y_calls y !! k = None -> Get (w_requests (y_world y)) now r = (Ok q, t') ->
    q_Status q = StatusPending -> sys_step fk y (goes y (put_requests (y_world y) t') k (Presenting r q))
| sy_again k r q p : y_calls y !! k = Some (Presenting r q) -> LoadPermissionPresentation (y_world y) r = Ok p ->
    sys_step fk y (goes y (y_world y) k (Retrying (pp_DeliveryID p)))
| sy_first k r q err : y_calls y !! k = Some (Presenting r q) -> LoadPermissionPresentation (y_world y) r = Err err ->
    sys_step fk y (goes y (y_world y) k (Placing q))
| sy_place k q selected now uuid e owner : y_calls y !! k = Some (Placing q) ->
    permission_event q selected now uuid = Ok e -> permission_event_ok e (q_ID q) = true ->
    emit_session (y_world y) e = Ok owner ->
    sys_step fk y (goes y (y_world y) k (Addressing owner e (q_OwnerID q) (q_ID q)))
| sy_emit k e target owner : y_calls y !! k = None -> emit_session (y_world y) e = Ok owner ->
    sys_step fk y (goes y (y_world y) k (Addressing owner e target ""))
| sy_address k owner e target r : y_calls y !! k = Some (Addressing owner e target r) ->
    emit_recipient (y_world y) e target = Ok tt -> sys_step fk y (goes y (y_world y) k (Creating owner e target r))
| sy_create k owner e target r uuid now w' : y_calls y !! k = Some (Creating owner e target r) ->
    create fk (y_world y) (new_delivery uuid e target owner now) r now = Ok w' ->
    sys_step fk y (goes y w' k (Attempting [new_delivery uuid e target owner now]))
| sy_retry k id d : y_calls y !! k = None \/ y_calls y !! k = Some (Retrying id) -> GetDelivery (y_world y) id = Ok d ->
    d_Status d = DeliveryPending -> sys_step fk y (goes y (y_world y) k (Attempting [d]))
| sy_replay k : y_calls y !! k = None ->
    sys_step fk y (goes y (y_world y) k (Attempting (ListPendingDeliveries (y_world y))))
| sy_attempt k d ds status failure now : y_calls y !! k = Some (Attempting (d :: ds)) ->
    sys_step fk y (goes y (UpdateDelivery (y_world y) (d_ID d) status failure now).2 k (Attempting ds))
| sy_end k : sys_step fk y {| y_world := y_world y; y_calls := delete k (y_calls y) |}.

Definition start : system := {| y_world := empty_world; y_calls := ∅ |}.

(** What a call in flight has checked, still true. *)
Definition call_ok (w : world) (c : call) : Prop :=
  match c with
  | Presenting r q => exists q', w_requests w !! q_ID q = Some q' /\ q_OwnerID q' = q_OwnerID q
  | Placing q => exists q', w_requests w !! q_ID q = Some q' /\ q_OwnerID q' = q_OwnerID q
  | Addressing owner e target r | Creating owner e target r => checked w owner e target r
  | Retrying _ | Attempting _ => True
  end.

Definition sys_ok (y : system) : Prop :=
  events_ok (y_world y) /\ forall k c, y_calls y !! k = Some c -> call_ok (y_world y) c.

Lemma checked_kept w w' owner e target r : world_kept w w' -> checked w owner e target r -> checked w' owner e target r.
Proof.
  intros [Hk Hr _ _] (Hv & (s & Hs & Ho) & Hq). split; [done|]. split.
  - destruct (Hk _ _ Hs) as (s' & Hs' & (_ & Ho' & _)). exists s'. split; congruence.
  - intros Hne. destruct (Hq Hne) as (? & ? & q & Hq1 & ->). split_and!; try done.
    destruct (Hr _ _ Hq1) as (q' & Hq' & (_ & _ & E & _) & _). exists q'. by rewrite E.
Qed.

Lemma call_ok_kept w w' c : world_kept w w' -> call_ok w c -> call_ok w' c.
Proof.
  intros Hk. assert (Hq : forall q, (exists q', w_requests w !! q_ID q = Some q' /\ q_OwnerID q' = q_OwnerID q) ->
    exists q', w_requests w' !! q_ID q = Some q' /\ q_OwnerID q' = q_OwnerID q).
  { intros q (q1 & Hq1 & E). destruct (wk_requests _ _ Hk _ _ Hq1) as (q' & Hq' & (_ & _ & E' & _) & _).
    exists q'. split; congruence. }
  destruct c; simpl; auto; by apply checked_kept.
Qed.

(** A step that runs at most one statement and leaves its call in order. *)
Lemma sys_ok_goes fk y w' k c :
  sys_ok y -> w' = y_world y \/ event_step fk (y_world y) w' -> (events_ok w' -> world_kept (y_world y) w' -> call_ok w' c) ->
  sys_ok (goes y w' k c).
Proof.
  intros [Hok Hc] Hst Hnew. assert (events_ok w' /\ world_kept (y_world y) w') as [Hok' Hk].
  { destruct Hst as [->|Hst]; [by split|]. split; [by eapply event_step_ok|by eapply event_step_kept, eo_requests]. }
  split; [done|]. simpl. intros i x [[<- <-]|[_ Hx]]%lookup_insert_Some; [auto|by eapply call_ok_kept, Hc].
Qed.

(** Every step is at most one statement, for calls that checked what they carry. *)
Lemma sys_step_statement fk y y' : sys_step fk y y' -> sys_ok y -> y_world y' = y_world y \/ event_step fk (y_world y) (y_world y').
Proof.
  intros Hst [Hok Hc]. destruct Hst; simpl; try (by left); right.
  - by apply es_session.
  - by eapply es_request.
  - replace t' with (Get (w_requests (y_world y)) now r).2 by by rewrite H1. eapply es_request, ps_get.
  - by eapply create_step; [apply (Hc _ _ H0)|].
  - apply es_outcome.
Qed.

Lemma sys_step_ok fk y y' : sys_step fk y y' -> sys_ok y -> sys_ok y'.
Proof.
  intros Hst Hy. pose proof (sys_step_statement _ _ _ Hst Hy) as Hw. pose proof Hy as [Hok Hc].
  assert (Hquiet : y_calls y' ⊆ y_calls y -> sys_ok y').
  { intros Hsub. destruct Hw as [Hw|Hw].
    - split; rewrite Hw; [done|]. intros k c Hk. by eapply Hc, lookup_weaken.
    - split; [by eapply event_step_ok|]. intros k c Hk. eapply call_ok_kept; [by eapply event_step_kept, eo_requests|].
      by eapply Hc, lookup_weaken. }
  destruct Hst as [| |k now r q t' _ HG _|k r q p Hk _|k r q err Hk _|k q sel now uuid e owner Hk _ He Hs
    |k e target owner _ Hs|k owner e target r Hk _|k owner e target r uuid now w' Hk _|k id d _ _ _|k _|k d ds st f now Hk|k];
    try (apply Hquiet; simpl; done); try (eapply sys_ok_goes; [done|exact Hw|]; intros Hok' Hkept; simpl in *; try done).
  - pose proof (Get_ok _ _ _ _ _ (eo_requests _ Hok) HG) as Hq. destruct (eo_requests _ Hok' r q Hq) as [-> _].
    by exists q.
  - exact (Hc _ _ Hk).
  - destruct (Hc _ _ Hk) as (q' & Hq' & Ho). apply permission_event_ok_true in He as (_ & ? & ?).
    apply emit_session_ok in Hs as (? & s & ? & ? & _). split_and!; [done|by exists s|]. intros _. split_and!; [done..|].
    by exists q'.
  - apply emit_session_ok in Hs as (? & s & ? & ? & _). split_and!; [done|by exists s|done].
  - exact (Hc _ _ Hk).
  - apply Hquiet. simpl. apply delete_subseteq.
Qed.

#[global] Instance sys_ok_preserved fk : Preserves (sys_step fk) sys_ok.
Proof. intros y y' Hst Hok. by eapply sys_step_ok. Qed.

Lemma start_ok : sys_ok start.
Proof. split; [apply empty_world_ok|]. intros k c. simpl. by rewrite lookup_empty. Qed.

(** Whatever the calls in flight, the tables go through statements only. *)
Lemma sys_steps_kept fk y y' : rtc (sys_step fk) y y' -> sys_ok y -> world_kept (y_world y) (y_world y').
Proof.
  induction 1 as [y|y y1 y2 Hst _ IH]; intros Hok; [reflexivity|]. transitivity (y_world y1).
  - destruct (sys_step_statement _ _ _ Hst Hok) as [->|Hs]; [reflexivity|]. eapply event_step_kept, eo_requests, Hok. done.
  - apply IH. by eapply sys_step_ok.
Qed.

(** *** The operations are runs of their pieces *)

Definition done_with (y : system) (w : world) (k : nat) : system := {| y_world := w; y_calls := delete k (y_calls y) |}.

Lemma attempt_update w transport now d :
  exists status failure, (attempt w transport now d).2 = (UpdateDelivery w (d_ID d) status failure now).2.
Proof.
  unfold attempt, recordAttempt, recorded. repeat case_match; simplify_eq/=; do 2 eexists;
    match goal with H : UpdateDelivery _ _ _ _ _ = _ |- _ => by rewrite H end.
Qed.

Lemma run_attempts fk transport clock ds k : forall y,
  y_calls y !! k = Some (Attempting ds) ->
  rtc (sys_step fk) y (done_with y (replay (y_world y) transport clock ds).2 k).
Proof.
  induction ds as [|d ds IH]; intros y Hk; simpl; [apply rtc_once, sy_end|].
  destruct (attempt_update (y_world y) transport (clock d) d) as (st & f & Hu).
  destruct (attempt (y_world y) transport (clock d) d) as [[a e] w1]. simpl in Hu. subst w1.
  eapply rtc_l; [by apply (sy_attempt _ _ k d ds st f (clock d))|].
  set (y1 := goes _ _ _ _). assert (Hd : forall w, done_with y1 w k = done_with y w k)
    by (intros w; unfold done_with; simpl; by rewrite delete_insert_eq).
  destruct a as [x|]; simpl.
  - specialize (IH y1). rewrite Hd in IH. simpl in IH. rewrite lookup_insert_eq in IH.
    destruct (replay _ transport clock ds) as [[]]; by apply IH.
  - rewrite <- Hd. apply rtc_once, sy_end.
Qed.

Lemma run_attempt fk y transport now d k :
  y_calls y !! k = Some (Attempting [d]) ->
  rtc (sys_step fk) y (done_with y (attempt (y_world y) transport now d).2 k).
Proof.
  intros Hk. pose proof (run_attempts fk transport (fun _ => now) [d] k y Hk) as Hr. simpl in Hr.
  by destruct (attempt _ _ _ _) as [[[]]].
Qed.

Lemma done_with_goes y w k c w' : done_with (goes y w k c) w' k = done_with y w' k.
Proof. unfold done_with. simpl. by rewrite delete_insert_eq. Qed.

Lemma run_end fk y k : rtc (sys_step fk) y (done_with y (y_world y) k).
Proof. apply rtc_once, sy_end. Qed.

(** One step of a call, then the rest of its run. *)
Lemma run_step fk y w k c w' :
  sys_step fk y (goes y w k c) -> rtc (sys_step fk) (goes y w k c) (done_with (goes y w k c) w' k) ->
  rtc (sys_step fk) y (done_with y w' k).
Proof. intros Hst Hr. rewrite done_with_goes in Hr. by eapply rtc_l. Qed.

Lemma goes_at y w k c : y_calls (goes y w k c) !! k = Some c.
Proof. apply lookup_insert_eq. Qed.

Lemma run_emit fk y transport now now' uuid e target r k :
  (forall owner, emit_session (y_world y) e = Ok owner ->
     sys_step fk y (goes y (y_world y) k (Addressing owner e target r))) ->
  rtc (sys_step fk) y (done_with y (emit fk (y_world y) transport now now' uuid e target r).2 k).
Proof.
  intros Hfirst. unfold emit, emit_checks. destruct (emit_session _ e) as [owner|] eqn:Es; simpl; [|apply run_end].
  eapply run_step; [by apply Hfirst|]. set (y1 := goes _ _ _ _). assert (H1 := goes_at y (y_world y) k _ : y_calls y1 !! k = _).
  destruct (emit_recipient _ e target) as [[]|] eqn:Er; simpl; [|apply (run_end fk y1)].
  eapply run_step; [eapply (sy_address fk y1); done|]. set (y2 := goes _ _ _ _).
  assert (H2 := goes_at y1 (y_world y1) k _ : y_calls y2 !! k = _).
  destruct (create _ _ _ _ _) as [w1|] eqn:Ec; simpl; [|apply (run_end fk y2)].
  eapply run_step; [eapply (sy_create fk y2); done|]. apply run_attempt, goes_at.
Qed.

Lemma run_retry fk y transport now id k :
  y_calls y !! k = None \/ y_calls y !! k = Some (Retrying id) ->
  rtc (sys_step fk) y (done_with y (RetryDelivery (y_world y) transport now id).2 k).
Proof.
  intros Hk. unfold RetryDelivery. destruct (GetDelivery _ id) as [d|] eqn:Eg; simpl; [|apply run_end].
  destruct (bool_decide _) eqn:Ep; simpl; [|apply run_end]. bool_props.
  eapply run_step; [by eapply sy_retry|]. apply (run_attempt fk (goes y (y_world y) k _)), goes_at.
Qed.

Lemma run_present fk y principals dn transport ng ne now now' ide id r k :
  y_calls y !! k = None ->
  rtc (sys_step fk) y (done_with y (Present fk (y_world y) principals dn transport ng ne now now' ide id r).2 k).
Proof.
  intros Hk. unfold Present. destruct (Get (w_requests (y_world y)) ng r) as [a t] eqn:EG.
  assert (Hgot : rtc (sys_step fk) y (done_with y (put_requests (y_world y) t) k)).
  { eapply rtc_l; [|eapply (run_end _ {| y_world := put_requests (y_world y) t; y_calls := y_calls y |})].
    replace t with (Get (w_requests (y_world y)) ng r).2 by by rewrite EG. eapply sy_request, ps_get. }
  destruct a as [q|]; simpl; [|exact Hgot]. destruct (bool_decide (_ = StatusExpired)); [exact Hgot|].
  destruct (bool_decide _) eqn:Ep; simpl; [|exact Hgot]. bool_props.
  eapply run_step; [by eapply sy_get|]. set (y1 := goes _ _ _ _). set (w1 := put_requests _ t).
  assert (H1 := goes_at y w1 k _ : y_calls y1 !! k = _).
  destruct (LoadPermissionPresentation w1 r) as [p|err] eqn:El.
  { eapply run_step; [by apply (sy_again fk y1 k r q p)|]. apply (run_retry fk (goes y1 w1 k _)). right. apply goes_at. }
  eapply run_step; [by apply (sy_first fk y1 k r q err)|]. set (y2 := goes y1 _ _ _).
  assert (H2 := goes_at y1 w1 k _ : y_calls y2 !! k = _).
  repeat (match goal with |- context [match ?x with _ => _ end] =>
    lazymatch x with permission_event _ _ _ _ => fail | _ => destruct x; try apply (run_end fk y2) end end).
  destruct (permission_event _ _ _ _) as [e|] eqn:Ee; [|apply (run_end fk y2)].
  unfold EmitPermission. destruct (permission_event_ok e (q_ID q)) eqn:Eo; simpl; [|apply (run_end fk y2)].
  apply (run_emit fk y2). intros owner Hs. by eapply sy_place.
Qed.

Abbreviation transport_fn := (Owner -> Delivery -> option transport_error) (only parsing).

Inductive operation :=
| OpEmit (e : Event) (target : string) (transport : transport_fn) (now now' : time) (uuid : string)
| OpRetryDelivery (id : string) (transport : transport_fn) (now : time)
| OpReplayPending (transport : transport_fn) (clock : Delivery -> time)
| OpPresent (requestID : string) (principals : MemoryResolver) (done : bool) (transport : transport_fn)
    (nowg nowe now now' : time) (uuide uuid : string).

Definition operate (fk : bool) (w : world) (op : operation) : world :=
  match op with
  | OpEmit e target transport now now' uuid => (Emit fk w transport now now' uuid e target).2
  | OpRetryDelivery id transport now => (RetryDelivery w transport now id).2
  | OpReplayPending transport clock => (ReplayPending w transport clock).2
  | OpPresent r principals dn transport ng ne now now' ide id =>
      (Present fk w principals dn transport ng ne now now' ide id r).2
  end.

(** A whole operation, run alone, is a run of its pieces. *)
Lemma run_operation fk y op k :
  y_calls y !! k = None -> rtc (sys_step fk) y {| y_world := operate fk (y_world y) op; y_calls := y_calls y |}.
Proof.
  intros Hk. assert (Hd : forall w, done_with y w k = {| y_world := w; y_calls := y_calls y |})
    by (intros w; unfold done_with; by rewrite delete_id).
  rewrite <- Hd. destruct op; simpl.
  - apply run_emit. intros owner Hs. by apply sy_emit.
  - apply run_retry. by left.
  - eapply run_step; [by apply sy_replay|]. apply (run_attempts fk transport clock _ k (goes y (y_world y) k _)), goes_at.
  - by apply run_present.
Qed.

(** C22: deliveries stay consistent, however calls interleave.  The calls of
    the service run cut into pieces at every read and write of the tables, in any
    interleaving with each other and with the session and the request managers.
    In every reachable state: a delivery is filed under its id, carries a valid
    event and goes to the owner of the event's session; no event is delivered
    twice under different ids; a presentation names its request, and points at a
    delivery of that request, in the presentation's session, addressed to the
    request's owner.  From there on a delivery changes in its outcome only, and a
    presentation never changes.  The operations, run whole, are such runs, and
    what [Emit] answers is the recorded delivery of the event to the addressee
    it was given. *)
Theorem deliveries_consistent fk y :
  rtc (sys_step fk) start y ->
  (let w := y_world y in
   (forall id d, w_deliveries w !! id = Some d ->
      d_ID d = id /\ is_ok (Event_Validate (d_Event d)) = true /\ owned w d) /\
   (forall id id' d d', w_deliveries w !! id = Some d -> w_deliveries w !! id' = Some d' ->
      ev_ID (d_Event d) = ev_ID (d_Event d') -> id = id') /\
   (forall r p, w_presentations w !! r = Some p -> pp_RequestID p = r /\ presented w p)) /\
  (forall y', rtc (sys_step fk) y y' ->
     (forall id d, w_deliveries (y_world y) !! id = Some d ->
        exists d', w_deliveries (y_world y') !! id = Some d' /\ same_delivery d d') /\
     w_presentations (y_world y) ⊆ w_presentations (y_world y')) /\
  (forall op, rtc (sys_step fk) y {| y_world := operate fk (y_world y) op; y_calls := y_calls y |}) /\
  (forall transport now now' uuid e target d err w',
     Emit fk (y_world y) transport now now' uuid e target = ((Some d, err), w') ->
     d_Event d = e /\ d_TargetPrincipalID d = target /\ w_deliveries w' !! d_ID d = Some d).
Proof.
  intros Hr. pose proof (reachable_keeps sys_ok _ _ Hr start_ok) as Hy. pose proof Hy as [Hok _].
  split; [|split; [|split]].
  - split_and!; [apply (eo_delivery _ Hok)|apply (eo_unique _ Hok)|apply (eo_presented _ Hok)].
  - intros y' Hr'. by destruct (sys_steps_kept _ _ _ Hr' Hy) as [_ _ ? ?].
  - intros op. apply (run_operation fk y op (fresh (dom (y_calls y)))). apply not_elem_of_dom, is_fresh.
  - intros * (? & ? & ? & _)%Emit_answer. done.
Qed.
End interleaving.

(** ** Examples: a request presented in a chat, approved there *)

Inductive sample_payload :=
| SMessage (parts : list MessagePart)
| SRequested (p : PermissionRequestedPayload)
| SDecided (p : PermissionDecidedPayload).

#[local] Instance sample_json : EventJSON := {|
  RawMessage := sample_payload;
  json_Valid _ := true;
  unmarshal_message r := match r with SMessage ps => Some ps | _ => None end;
  unmarshal_requested r := match r with SRequested p => Some p | _ => None end;
  unmarshal_decided r := match r with SDecided p => Some p | _ => None end;
  unmarshal_status _ := None;
  unmarshal_error _ := None;
  marshal_message ps := Some (SMessage ps);
  marshal_requested p := Some (SRequested p);
|}.

Definition chat_owner : Owner := {| o_Kind := OwnerGateway; o_InstanceID := "gw" |}.
Definition chat_source : ParticipantSource :=
  {| src_SessionID := "s1"; src_GatewayInstanceID := "gw"; src_Platform := "tg"; src_SubjectID := "7";
     src_PrincipalID := "owner" |}.
Definition chat_opened : sessions_db := (Session.Create empty_db 5%Z "s1" chat_owner "chat").2.
Definition chat_bound : sessions_db := (BindResolvedParticipant true chat_opened 6%Z "s1" chat_source).2.

Definition chat_identity : Identity := {| i_GatewayInstanceID := "gw"; i_Platform := "tg"; i_SubjectID := "7" |}.
Definition the_owner : Principal := {| pr_ID := "owner"; pr_Authority := AuthorityOwner |}.
Definition chat_principals : MemoryResolver :=
  match NewMemoryResolver [{| mp_Identity := chat_identity; mp_Principal := the_owner |}] with
  | Ok r => r
  | Err _ => {| mr_mappings := ∅; mr_principals := ∅ |}
  end.

Definition asked_world : world :=
  {| w_sessions := chat_bound; w_requests := demo_created; w_deliveries := ∅; w_presentations := ∅ |}.

Lemma asked_reachable : rtc (event_step true) empty_world asked_world.
Proof.
  eapply rtc_l; [exact (es_session true empty_world _ (step_create true empty_db 5%Z "s1" chat_owner "chat"))|].
  eapply rtc_l; [apply (es_session true (put_session_db empty_world chat_opened) chat_bound);
    exact (step_bind_resolved true chat_opened 6%Z "s1" chat_source)|].
  eapply rtc_l; [|apply rtc_refl].
  apply (es_request true (put_session_db (put_session_db empty_world chat_opened) chat_bound) Quiet demo_created).
  eapply (ps_create (fun _ => None) demo_policy ∅ (10 * second) "p1" demo_input). reflexivity.
Qed.

Definition works : Owner -> Delivery -> option transport_error := fun _ _ => None.
Definition shown := Present true asked_world chat_principals false works (11 * second) (12 * second) (13 * second)
  (14 * second) "e1" "d1" "p1".
Definition shown_world : world := shown.2.

Lemma shown_reachable : rtc (event_step true) empty_world shown_world.
Proof.
  transitivity asked_world; [exact asked_reachable|]. apply Present_steps.
  exact (reachable_keeps events_ok _ _ asked_reachable empty_world_ok).
Qed.

Definition approval : PermissionDecidedPayload := {| dp_RequestID := "p1"; dp_Decision := DecisionApprove |}.
Definition approved := Decide shown_world chat_principals false id id id (20 * second) (21 * second) None "s1" the_owner approval.

Lemma no_activity : activity true id.
Proof. intros v. apply rtc_refl. Qed.

(** The owner approves in the chat. *)
Lemma decision_facts_example :
  exists q err w', approved = ((Some q, err), w') /\ q_Status q = StatusApproved /\ q_OwnerID q = "owner" /\
    bound shown_world "s1" "owner".
Proof.
  destruct approved as [[[q|] err] w'] eqn:E; [|vm_compute in E; discriminate E].
  exists q, err, w'.
  destruct (decision_facts true shown_world chat_principals false id id id (20 * second) (21 * second) None "s1"
    the_owner approval q err w' shown_reachable no_activity no_activity no_activity E)
    as (_ & _ & Hb & _ & _ & Ho & Hs).
  split; [reflexivity|]. split; [exact Hs|]. split; [exact Ho|exact Hb].
Defined.

(** Someone else, or the owner from another session, is refused. *)
Lemma decision_refused_witness :
  undecided shown_world (Decide shown_world chat_principals false id id id (20 * second) (21 * second) None "s2"
    the_owner approval).2 "p1".
Proof.
  refine (decision_refused true shown_world chat_principals false (20 * second) (21 * second) None "s2" the_owner approval
    (Some (PermissionFailed ErrUnauthorized)) _ shown_reachable _). vm_compute. reflexivity.
Defined.


Definition asked : system := {| y_world := asked_world; y_calls := ∅ |}.
Definition shown_system : system := {| y_world := shown_world; y_calls := ∅ |}.

Lemma asked_runs : rtc (sys_step true) start asked.
Proof.
  eapply rtc_l; [exact (sy_session true start _ (step_create true empty_db 5%Z "s1" chat_owner "chat"))|].
  eapply rtc_l; [apply (sy_session true {| y_world := put_session_db empty_world chat_opened; y_calls := ∅ |} chat_bound);
    exact (step_bind_resolved true chat_opened 6%Z "s1" chat_source)|].
  eapply rtc_l; [|apply rtc_refl].
  apply (sy_request true {| y_world := put_session_db (put_session_db empty_world chat_opened) chat_bound; y_calls := ∅ |}
    Quiet demo_created).
  eapply (ps_create (fun _ => None) demo_policy ∅ (10 * second) "p1" demo_input). reflexivity.
Qed.

Lemma shown_runs : rtc (sys_step true) start shown_system.
Proof.
  transitivity asked; [exact asked_runs|].
  exact (run_operation true asked (OpPresent "p1" chat_principals false works (11 * second) (12 * second) (13 * second)
    (14 * second) "e1" "d1") 0%nat eq_refl).
Qed.

Lemma deliveries_consistent_witness :
  is_Some (w_deliveries shown_world !! "d1") /\
  (forall d, w_deliveries shown_world !! "d1" = Some d ->
     owned shown_world d /\ is_ok (Event_Validate (d_Event d)) = true) /\
  exists p, w_presentations shown_world !! "p1" = Some p /\ presented shown_world p.
Proof.
  destruct (deliveries_consistent true shown_system shown_runs) as ((Hd & _ & Hp) & _). split_and!.
  - vm_compute. by eexists.
  - intros d H. destruct (Hd _ _ H) as (_ & ? & ?). by split.
  - destruct (w_presentations shown_world !! "p1") as [p|] eqn:E; [|vm_compute in E; discriminate E].
    exists p. split; [reflexivity|]. apply (Hp _ _ E).
Defined.

Definition shown_delivery : option Delivery := shown.1.1.

Lemma request_presented_to_owner_witness :
  exists d, shown_delivery = Some d /\ d_TargetPrincipalID d = "owner" /\ d_Status d = DeliveryAccepted /\
    active_session asked_world (ev_SessionID (d_Event d)).
Proof.
  unfold shown_delivery. destruct shown as [[[d|] err] w'] eqn:E; [|vm_compute in E; discriminate E]. exists d.
  destruct (request_presented_to_owner true asked_world chat_principals false works (11 * second) (12 * second)
    (13 * second) (14 * second) "e1" "d1" "p1" d err w' asked_reachable eq_refl E)
    as (q & _ & _ & _ & _ & Ha & _).
  split_and!; [reflexivity| | |exact Ha]; vm_compute in E; injection E as <- _ _; reflexivity.
Defined.

(** A transport that fails for now leaves the delivery pending. *)
Lemma delivery_outcome_witness :
  exists d row', w_deliveries shown_world !! "d1" = Some d /\
    w_deliveries (attempt shown_world (fun _ _ => Some (PlainError "offline")) (30 * second) d).2 !! "d1" = Some row' /\
    d_Status row' = DeliveryPending.
Proof.
  destruct (w_deliveries shown_world !! "d1") as [d|] eqn:E; [|vm_compute in E; discriminate E].
  assert (Hd : d_ID d = "d1" /\ is_ok (Event_Validate (d_Event d)) = true)
    by (vm_compute in E; injection E as <-; split; reflexivity).
  destruct Hd as [Hid Hv].
  destruct (delivery_outcome shown_world (fun _ _ => Some (PlainError "offline")) (30 * second) d d Hv)
    as (row' & _ & _ & Hw & _ & Hp & _); [rewrite Hid; exact E|].
  exists d, row'. split; [reflexivity|]. rewrite Hw, Hid.
  split; [exact (lookup_insert_eq (w_deliveries shown_world) "d1" row')|].
  apply Hp. split; [|exists (PlainError "offline"); split; reflexivity]. vm_compute in E. injection E as <-. eexists. split; [vm_compute; reflexivity|].
  split; [reflexivity|]. split; [reflexivity|]. intros _. exists ("s1", "owner"). eexists.
  split; [vm_compute; reflexivity|]. split; reflexivity.
Defined.
