(* ===== verification/Interaction.v ===== *)
(** * Routing interactions to sessions

    Core/Interaction: the router (router.go), the ingress of authenticated
    Bodies (body_ingress.go) with the session-control messages of
    DollLink/SessionControl, and the ingress of a Gateway (gateway_ingress.go).
    Each session operation is atomic (Session.v); where the code makes several,
    a [between] function stands for what other operations do there.  The routed
    event and its handler are opaque: a route ends with the session the handler
    is called with. *)
From S2P Require Import Prelude GoStrings GoTime SQL ActionPolicy Permission Session ExternalIdentity SessionEvent.
From stdpp Require Import options.

(** ** The router *)

Inductive route_error :=
| ErrInvalidRoute | ErrUnknownSession | ErrUnauthorizedSession | ErrClosedSession
| ErrUnauthenticatedBody | ErrUnauthenticatedGateway
| RouteSession (e : session_error) | HookFailed (e : session_error) | RouteIdentity (e : identity_error).

Definition validRouteOwner (o : Owner) : bool :=
  (same_str (o_Kind o) OwnerBody || same_str (o_Kind o) OwnerGateway) && negb (blank (o_InstanceID o)).

(** What trusted ingress records once a session is authorized. *)
Abbreviation hook := (sessions_db -> InteractionSession -> option session_error * sessions_db) (only parsing).

Definition by_id (id : string) : ResumeRequest :=
  {| rr_SessionID := id; rr_Owner := {| o_Kind := ""; o_InstanceID := "" |}; rr_ExternalConversationRef := "" |}.

Definition AuthorizeSession (db : sessions_db) (between : sessions_db -> sessions_db) (now : time) (sessionID : string)
    (owner : Owner) (onAuthorized : option hook) : res route_error InteractionSession * sessions_db :=
  if blank sessionID || negb (validRouteOwner owner) then (Err ErrInvalidRoute, db)
  else
    match Lookup db sessionID with
    | Err Session.ErrNotFound => (Err ErrUnknownSession, db)
    | Err e => (Err (RouteSession e), db)
    | Ok found =>
        if negb (bool_decide (s_Owner found = owner)) then (Err ErrUnauthorizedSession, db)
        else if negb (bool_decide (s_Status found = Session.StatusActive)) then (Err ErrClosedSession, db)
        else
          match Resume (between db) now (by_id sessionID) with
          | (Err Session.ErrNotFound, db1) => (Err ErrUnknownSession, db1)
          | (Err Session.ErrInvalidTransition, db1) => (Err ErrClosedSession, db1)
          | (Err e, db1) => (Err (RouteSession e), db1)
          | (Ok resolved, db1) =>
              match onAuthorized with
              | None => (Ok resolved, db1)
              | Some h => match h db1 resolved with
                          | (Some e, db2) => (Err (HookFailed e), db2)
                          | (None, db2) => (Ok resolved, db2)
                          end
              end
          end
    end.

(** [event] says whether there is an event; the answer is the session the
    handler is called with. *)
Definition RouteInteraction (db : sessions_db) (between : sessions_db -> sessions_db) (now : time) (sessionID : string)
    (owner : Owner) (event : bool) (onAuthorized : option hook) : res route_error InteractionSession * sessions_db :=
  if blank sessionID || negb (validRouteOwner owner) || negb event then (Err ErrInvalidRoute, db)
  else AuthorizeSession db between now sessionID owner onAuthorized.

(** ** Session control messages *)

Definition ControlVersion : Z := 1.

Inductive MessageType :=
| TypeCreate | TypeList | TypeSelect | TypeClose | TypeResult | TypeInteraction | TypeUnknown (s : string).
Inductive ControlStatus := StatusOK | StatusError.
Inductive ErrorCode :=
| ErrorInvalidRequest | ErrorUnsupportedVersion | ErrorRequestIDConflict | ErrorUnauthenticated
| ErrorHandlerUnavailable | ErrorSessionUnavailable | ErrorInternal.
Inductive control_error := ErrInvalidControl | ErrUnsupportedVersion.

#[global] Instance MessageType_eq_dec : EqDecision MessageType.
Proof. solve_decision. Defined.

Record ControlRequest := {
  cr_Version : Z; cr_Type : MessageType; cr_ID : string; cr_ExternalConversationRef : string; cr_SessionID : string;
}.

Record WireSession := {
  ws_ID : string; ws_ExternalConversationRef : string; ws_Status : Session.Status; ws_CreatedAt : time;
  ws_UpdatedAt : time;
}.

Record ControlResponse := {
  cs_ID : string;
  cs_CorrelationID : string;
  cs_Operation : MessageType;
  cs_Status : ControlStatus;
  cs_Session : option WireSession;
  cs_Sessions : list WireSession;
  cs_Error : option (ErrorCode * string);
}.

Definition Request_Validate (r : ControlRequest) : res control_error unit :=
  refuse negb (cr_Version r =? ControlVersion) with ErrUnsupportedVersion;
  refuse blank (cr_ID r) with ErrInvalidControl;
  match cr_Type r with
  | TypeCreate => refuse negb (empty_str (cr_SessionID r)) with ErrInvalidControl; Ok tt
  | TypeList => refuse negb (empty_str (cr_SessionID r)) || negb (empty_str (cr_ExternalConversationRef r))
                  with ErrInvalidControl; Ok tt
  | TypeSelect | TypeClose =>
      refuse blank (cr_SessionID r) || negb (empty_str (cr_ExternalConversationRef r)) with ErrInvalidControl; Ok tt
  | _ => Err ErrInvalidControl
  end.

Definition Interaction_Validate (version : Z) (typ : MessageType) (sessionID eventID : string) : res control_error unit :=
  refuse negb (version =? ControlVersion) with ErrUnsupportedVersion;
  refuse negb (bool_decide (typ = TypeInteraction)) || blank sessionID || blank eventID with ErrInvalidControl;
  Ok tt.

(** ** Body ingress *)

Definition BodyConversationReference := "doll-link/default".

Definition body_owner (bodyID : string) : Owner := {| o_Kind := OwnerBody; o_InstanceID := bodyID |}.

Definition body_conversation (owner : Owner) : ResumeRequest :=
  {| rr_SessionID := ""; rr_Owner := owner; rr_ExternalConversationRef := BodyConversationReference |}.

(** [between1] and [between2] are what happens before the creation and before the second look. *)
Definition resolveBodySession (db : sessions_db) (between1 between2 : sessions_db -> sessions_db)
    (now1 now2 now3 : time) (uuid : string) (owner : Owner) : res route_error InteractionSession * sessions_db :=
  match Resume db now1 (body_conversation owner) with
  | (Ok s, db1) => (Ok s, db1)
  | (Err Session.ErrNotFound, db1) =>
      match Session.Create (between1 db1) now2 uuid owner BodyConversationReference with
      | (Ok s, db2) => (Ok s, db2)
      | (Err Session.ErrConversationInUse, db2) =>
          match Resume (between2 db2) now3 (body_conversation owner) with
          | (Ok s, db3) => (Ok s, db3)
          | (Err e, db3) => (Err (RouteSession e), db3)
          end
      | (Err e, db2) => (Err (RouteSession e), db2)
      end
  | (Err e, db1) => (Err (RouteSession e), db1)
  end.

(** The five [between] functions of a route through the implicit session. *)
Definition HandleSelectedSessionEvent (db : sessions_db) (b1 b2 b3 b4 : sessions_db -> sessions_db)
    (now1 now2 now3 now4 : time) (uuid : string) (bodyID selected : string) (event : bool)
    : res route_error InteractionSession * sessions_db :=
  if blank bodyID then (Err ErrUnauthenticatedBody, db)
  else
    let owner := body_owner bodyID in
    if negb (empty_str selected) then RouteInteraction db b4 now4 selected owner event None
    else match resolveBodySession db b1 b2 now1 now2 now3 uuid owner with
         | (Err e, db1) => (Err e, db1)
         | (Ok resolved, db1) => RouteInteraction (b3 db1) b4 now4 (s_ID resolved) owner event None
         end.

Definition HandleAuthenticatedEvent (db : sessions_db) b1 b2 b3 b4 now1 now2 now3 now4 uuid bodyID event :=
  HandleSelectedSessionEvent db b1 b2 b3 b4 now1 now2 now3 now4 uuid bodyID "" event.

Definition HandleSessionInteraction (db : sessions_db) (between : sessions_db -> sessions_db) (now : time)
    (bodyID sessionID : string) (event : bool) : res route_error InteractionSession * sessions_db :=
  if blank bodyID then (Err ErrUnauthenticatedBody, db)
  else RouteInteraction db between now sessionID (body_owner bodyID) event None.

Definition wireSession (s : InteractionSession) : WireSession :=
  {| ws_ID := s_ID s; ws_ExternalConversationRef := s_ExternalConversationRef s; ws_Status := s_Status s;
     ws_CreatedAt := s_CreatedAt s; ws_UpdatedAt := s_UpdatedAt s |}.

Definition ownedActiveSession (db : sessions_db) (owner : Owner) (id : string) : res session_error InteractionSession :=
  match Lookup db id with
  | Err _ => Err Session.ErrNotFound
  | Ok s => refuse negb (bool_decide (s_Owner s = owner)) || negb (bool_decide (s_Status s = Session.StatusActive))
              with Session.ErrNotFound;
            Ok s
  end.

(** The response, the selection of the connection afterwards, and the tables. *)
Definition HandleSessionControl (db : sessions_db) (between : sessions_db -> sessions_db) (now : time)
    (uuid responseID : string) (bodyID selected : string) (r : ControlRequest)
    : ControlResponse * string * sessions_db :=
  let response status session sessions err :=
    {| cs_ID := responseID; cs_CorrelationID := cr_ID r; cs_Operation := cr_Type r; cs_Status := status;
       cs_Session := session; cs_Sessions := sessions; cs_Error := err |} in
  let fail code message db := (response StatusError None [] (Some (code, message)), selected, db) in
  let unavailable db := fail ErrorSessionUnavailable "session is not available" db in
  let owner := body_owner bodyID in
  if blank bodyID then fail ErrorInvalidRequest "authenticated Body required" db
  else
    match Request_Validate r with
    | Err ErrUnsupportedVersion => fail ErrorUnsupportedVersion "unsupported session-control version" db
    | Err _ => fail ErrorInvalidRequest "invalid session-control request" db
    | Ok _ =>
        match cr_Type r with
        | TypeCreate =>
            match Session.Create db now uuid owner (cr_ExternalConversationRef r) with
            | (Err (Session.ErrInvalidRequest | Session.ErrConversationInUse), db1) =>
                fail ErrorInvalidRequest "session could not be created" db1
            | (Err _, db1) => fail ErrorInternal "session service unavailable" db1
            | (Ok created, db1) => (response StatusOK (Some (wireSession created)) [] None, selected, db1)
            end
        | TypeList =>
            match ListActive db (Some owner) with
            | Err _ => fail ErrorInternal "sessions could not be listed" db
            | Ok active => (response StatusOK None (wireSession <$> active) None, selected, db)
            end
        | TypeSelect =>
            match ownedActiveSession db owner (cr_SessionID r) with
            | Err _ => unavailable db
            | Ok resolved => (response StatusOK (Some (wireSession resolved)) [] None, s_ID resolved, db)
            end
        | TypeClose =>
            match ownedActiveSession db owner (cr_SessionID r) with
            | Err _ => unavailable db
            | Ok resolved =>
                match Close (between db) now (s_ID resolved) with
                | (Err _, db1) => unavailable db1
                | (Ok c, db1) => (response StatusOK (Some (wireSession c)) [] None,
                                       if same_str selected (s_ID resolved) then "" else selected, db1)
                end
            end
        | _ => (response StatusError None [] None, selected, db)
        end
    end.

(** ** Gateway ingress *)

Record VerifiedExternalSender := { vs_Platform : string; vs_SubjectID : string; vs_Claims : gmap string string }.

Definition gateway_owner (gateway : string) : Owner := {| o_Kind := OwnerGateway; o_InstanceID := gateway |}.

Definition presented_identity (gateway : string) (sender : VerifiedExternalSender) : PresentedIdentity :=
  {| p_Identity := {| i_GatewayInstanceID := gateway; i_Platform := vs_Platform sender;
                      i_SubjectID := vs_SubjectID sender |};
     p_Claims := vs_Claims sender |}.

(** The hook that records the resolved sender as a participant. *)
Definition bind_sender (fk : bool) (now : time) (gateway : string) (sender : VerifiedExternalSender) (p : Principal) : hook :=
  fun db resolved =>
    match BindResolvedParticipant fk db now (s_ID resolved)
            {| src_SessionID := s_ID resolved; src_GatewayInstanceID := gateway; src_Platform := vs_Platform sender;
               src_SubjectID := vs_SubjectID sender; src_PrincipalID := pr_ID p |} with
    | (Ok _, db1) => (None, db1)
    | (Err e, db1) => (Some e, db1)
    end.

Definition HandleVerifiedInteraction (fk : bool) (db : sessions_db) (resolver : MemoryResolver) (done : bool)
    (between : sessions_db -> sessions_db) (now now' : time) (gateway sessionID : string)
    (sender : VerifiedExternalSender) (event : bool) : res route_error InteractionSession * sessions_db :=
  if blank gateway then (Err ErrUnauthenticatedGateway, db)
  else if blank (vs_Platform sender) || blank (vs_SubjectID sender) || negb event then (Err ErrInvalidRoute, db)
  else
    match Resolve resolver done (presented_identity gateway sender) with
    | Ok p => RouteInteraction db between now sessionID (gateway_owner gateway) event
                (Some (bind_sender fk now' gateway sender p))
    | Err ErrUnmapped => RouteInteraction db between now sessionID (gateway_owner gateway) event None
    | Err e => (Err (RouteIdentity e), db)
    end.

Inductive ingress_error := IngressRoute (e : route_error) | IngressEvent (e : event_error).

Section structured.
Context `{EventJSON}.

(** [between] is what happens between the checks of the route, [between0] before the
    decision, and [b1], [b2], [b3] during it. *)
Definition HandleSessionEvent (fk : bool) (w : world) (resolver : MemoryResolver) (done : bool)
    (between : sessions_db -> sessions_db) (between0 b1 b2 b3 : world -> world) (now now' nowg nowd : time)
    (resolution : option (world -> Request -> option string * world)) (gateway : string)
    (sender : VerifiedExternalSender) (e : Event) : option Request * option ingress_error * world :=
  if blank gateway then (None, Some (IngressRoute ErrInvalidRoute), w)
  else
    match Event_Validate e with
    | Err err => (None, Some (IngressEvent err), w)
    | Ok _ =>
        match DecodePermissionDecision e with
        | Err err => (None, Some (IngressEvent err), w)
        | Ok payload =>
            match ExternalIdentity.Resolve resolver done (presented_identity gateway sender) with
            | Err _ => (None, Some (IngressEvent (PermissionFailed ErrUnauthorized)), w)
            | Ok principal =>
                match AuthorizeSession (w_sessions w) between now (ev_SessionID e) (gateway_owner gateway)
                        (Some (bind_sender fk now' gateway sender principal)) with
                | (Err err, db) => (None, Some (IngressRoute err), put_session_db w db)
                | (Ok _, db) =>
                    let '((answer, err), w') := Decide (between0 (put_session_db w db)) resolver done b1 b2 b3 nowg nowd
                                                  resolution (ev_SessionID e) principal payload in
                    (answer, IngressEvent <$> err, w')
                end
            end
        end
    end.
End structured.

(** ** Lemmas *)

Definition session_activity (fk : bool) (f : sessions_db -> sessions_db) : Prop := forall d, rtc (session_step fk) d (f d).

(** A hook that leaves the sessions alone. *)
Definition hook_ok (h : option hook) : Prop :=
  match h with Some f => forall d s, t_sessions (f d s).2 = t_sessions d | None => True end.

#[global] Instance sessions_named_preserved fk : Preserves (session_step fk) sessions_named.
Proof. intros db db' Hst Hok. by eapply session_step_named. Qed.

Lemma empty_named : sessions_named empty_db.
Proof. intros id s. simpl. by rewrite lookup_empty. Qed.

Lemma Resume_by_id db now id :
  blank id = false -> Resume db now (by_id id) = update_active db id (touched now).
Proof. intros Hb. unfold Resume, by_id, validOwner. simpl. by rewrite Hb. Qed.

Lemma update_active_ok_inv db id f s db' :
  update_active db id f = (Ok s, db') ->
  exists s0, t_sessions db !! id = Some s0 /\ s_Status s0 = Session.StatusActive /\ s = f s0 /\
    db' = put_sessions db (<[id := s]> (t_sessions db)).
Proof.
  unfold update_active. destruct (t_sessions db !! id) as [s0|]; [|done].
  destruct (bool_decide _) eqn:E; [|done]. bool_props. intros [= <- <-]. eauto.
Qed.

Lemma bind_sender_ok fk now gateway sender p : hook_ok (Some (bind_sender fk now gateway sender p)).
Proof.
  intros db s. unfold bind_sender, BindResolvedParticipant. destruct (_ || _); [done|].
  set (src := {| src_SessionID := s_ID s |}). pose proof (BindResolved_sessions fk db (s_ID s) src now) as Hb.
  by destruct (BindResolvedSessionParticipant _ _ _ _ _) as [[]].
Qed.

(** What an authorized route has established. *)
Lemma AuthorizeSession_ok fk db between now sid owner h s db' :
  sessions_named db -> session_activity fk between -> hook_ok h ->
  AuthorizeSession db between now sid owner h = (Ok s, db') ->
  s_ID s = sid /\ s_Owner s = owner /\ s_Status s = Session.StatusActive /\ t_sessions db' !! sid = Some s /\
  (exists s0, t_sessions (between db) !! sid = Some s0 /\ s = touched now s0) /\
  (exists db1, t_sessions db1 !! sid = Some s /\ t_participants db1 = t_participants (between db) /\
     match h with None => db' = db1 | Some f => f db1 s = (None, db') end).
Proof.
  intros Hn Hact Hh. unfold AuthorizeSession. destruct (_ || _) eqn:Eb; [done|]. apply orb_false_iff in Eb as [Eb _].
  destruct (Lookup db sid) as [found|[]] eqn:EL; try done. apply Lookup_ok in EL as [Hf _].
  destruct (bool_decide (s_Owner found = owner)) eqn:Eo; [|done]. bool_props. cbn [negb].
  destruct (negb _); [done|]. rewrite (Resume_by_id _ _ _ Eb).
  destruct (update_active (between db) sid (touched now)) as [[r|e] db1] eqn:Eu; [|by destruct e].
  apply update_active_ok_inv in Eu as (s0 & Hs0 & Ha & -> & ->).
  destruct (session_steps_keep _ _ _ (Hact db) _ _ Hf) as (x & Hx & (Hid & Hown & _)). simplify_eq.
  intros Hres. assert (Hr : s = touched now s0 /\ t_sessions db' = <[sid := touched now s0]> (t_sessions (between db)) /\
    match h with None => db' = put_sessions (between db) (<[sid := touched now s0]> (t_sessions (between db)))
    | Some f => f (put_sessions (between db) (<[sid := touched now s0]> (t_sessions (between db)))) s = (None, db') end).
  { destruct h as [f|]; [|by injection Hres as <- <-]. simpl in Hh. specialize (Hh (put_sessions (between db)
      (<[sid := touched now s0]> (t_sessions (between db)))) (touched now s0)).
    destruct (f _ _) as [[e|] db2] eqn:Ef; [done|]. injection Hres as <- <-. by rewrite Ef. }
  destruct Hr as (-> & Hdb & Hhook). rewrite Hdb, lookup_insert_eq. split_and!; try done.
  - simpl. rewrite Hid. by apply Hn.
  - by exists s0.
  - exists (put_sessions (between db) (<[sid := touched now s0]> (t_sessions (between db)))).
    split_and!; [|done|exact Hhook]. simpl. by rewrite lookup_insert_eq.
Qed.

(** Resuming the default conversation finds its active session, if there is one. *)
Lemma Resume_conversation d now o :
  sessions_named d -> validOwner o = true ->
  (exists s, Resume d now (body_conversation o) = (Ok s, put_sessions d (<[s_ID s := s]> (t_sessions d))) /\
     s_Owner s = o /\ s_ExternalConversationRef s = BodyConversationReference /\ s_Status s = Session.StatusActive) \/
  (Resume d now (body_conversation o) = (Err Session.ErrNotFound, d) /\
   any_row (t_sessions d) (in_conversation o BodyConversationReference) = false).
Proof.
  intros Hd Hv. unfold Resume, body_conversation, LoadActiveSessionByConversation.
  cbn [rr_SessionID rr_Owner rr_ExternalConversationRef]. rewrite Hv. cbn.
  destruct (find_row _ _) as [s|] eqn:Ef; [|right; split; [done|by apply find_row_none]].
  apply find_row_some in Ef as (k & Hk & (Ho & Hre & Ha)%in_conversation_true). rewrite (Hd _ _ Hk). left.
  exists (touched now s). unfold ResumeSession, update_active. rewrite Hk, bool_decide_true by done. simpl.
  by rewrite (Hd _ _ Hk).
Qed.

(** ** Theorems *)

(** Only the owner of an active session is routed into it.  If the router
    hands an interaction to a session, then, whatever else happened between its
    look-up and its resumption of the session: the session is the selected one,
    belongs to the ingress that sent the interaction, was active at the moment
    of the resumption and is active in the state the handler starts from. *)
Theorem routing_authorized fk db between now sid owner event h s db' :
  rtc (session_step fk) empty_db db -> session_activity fk between -> hook_ok h ->
  RouteInteraction db between now sid owner event h = (Ok s, db') ->
  event = true /\ s_ID s = sid /\ s_Owner s = owner /\ s_Status s = Session.StatusActive /\
  t_sessions db' !! sid = Some s /\
  exists s0, t_sessions (between db) !! sid = Some s0 /\ s_Status s0 = Session.StatusActive /\ s = touched now s0.
Proof.
  intros Hr Hact Hh. unfold RouteInteraction. destruct (_ || _) eqn:Eb; [done|].
  apply orb_false_iff in Eb as [_ Ev%negb_false_iff].
  assert (Hn : sessions_named db) by exact (reachable_keeps sessions_named _ _ Hr empty_named).
  intros (Hid & Ho & Ha & Hin & (s0 & Hs0 & ->) & _)%(AuthorizeSession_ok fk); try done.
  split_and!; try done. by exists s0.
Qed.

(** Undisturbed, the router's answer is decided by the session's row. *)
Theorem routing_exact db now sid owner :
  blank sid = false -> validRouteOwner owner = true ->
  (AuthorizeSession db id now sid owner None).1 =
  match t_sessions db !! sid with
  | None => Err ErrUnknownSession
  | Some s => if decide (s_Owner s = owner) then
                match s_Status s with StatusActive => Ok (touched now s) | StatusClosed => Err ErrClosedSession end
              else Err ErrUnauthorizedSession
  end.
Proof.
  intros Hb Hv. unfold AuthorizeSession, Lookup, LoadSession, id. rewrite Hb, Hv, (Resume_by_id _ _ _ Hb). cbn [negb orb].
  unfold update_active. destruct (t_sessions db !! sid) as [s|]; [|done].
  destruct (decide (s_Owner s = owner)); [rewrite (bool_decide_true (s_Owner s = _)) by done|by rewrite bool_decide_false].
  destruct (s_Status s); [by rewrite bool_decide_true|by rewrite bool_decide_false].
Qed.

(** A Body always has its implicit session.  If the conversation's session
    is missing, other activity may run before it is created, even another first
    interaction that creates it: with a fresh identifier the Body still gets an
    active session of its own default conversation, and never a second one. *)
Theorem body_session_resolved fk db between now1 now2 now3 uuid bodyID :
  rtc (session_step fk) empty_db db -> session_activity fk between ->
  blank bodyID = false -> t_sessions (between (Resume db now1 (body_conversation (body_owner bodyID))).2) !! uuid = None ->
  exists s, (resolveBodySession db between id now1 now2 now3 uuid (body_owner bodyID)).1 = Ok s /\
    s_Owner s = body_owner bodyID /\ s_ExternalConversationRef s = BodyConversationReference /\
    s_Status s = Session.StatusActive /\
    t_sessions (resolveBodySession db between id now1 now2 now3 uuid (body_owner bodyID)).2 !! s_ID s = Some s.
Proof.
  intros Hr Hact Hb Hfresh. set (o := body_owner bodyID) in *.
  assert (Hv : validOwner o = true) by (unfold validOwner; simpl; by rewrite Hb).
  assert (Hn : sessions_named db) by exact (reachable_keeps sessions_named _ _ Hr empty_named).
  unfold resolveBodySession. destruct (Resume_conversation db now1 o Hn Hv) as [(s & -> & ?)|[E _]].
  { exists s. split_and!; try tauto. simpl. by rewrite lookup_insert_eq. }
  rewrite E in *. cbn [snd] in Hfresh.
  assert (Hn1 : sessions_named (between db)) by exact (reachable_keeps sessions_named _ _ (Hact db) Hn).
  unfold Session.Create, CreateSession, id. rewrite Hv. cbn zeta.
  cbn [negb s_ID s_Owner s_ExternalConversationRef s_Status]. rewrite Hfresh.
  rewrite bool_decide_false by (by intros [? ?]). rewrite bool_decide_true by done.
  rewrite (eq_refl : empty_str BodyConversationReference = false). cbn [orb andb negb].
  destruct (any_row _ _) eqn:Ea.
  - unfold LoadActiveSessionByConversation. destruct (find_row _ _) eqn:Ef; [|apply find_row_none in Ef; by rewrite Ef in Ea].
    cbn [is_ok]. destruct (Resume_conversation (between db) now3 o Hn1 Hv) as [(s & -> & ?)|[_ E2]]; [|congruence].
    exists s. split_and!; try tauto. simpl. by rewrite lookup_insert_eq.
  - cbn. eexists. split_and!; try done. by rewrite lookup_insert_eq.
Qed.

(** The session is the Body's own and active. *)
Definition owned_active (db : sessions_db) (bodyID id : string) : Prop :=
  exists s, t_sessions db !! id = Some s /\ s_Owner s = body_owner bodyID /\ s_Status s = Session.StatusActive.

Lemma ownedActiveSession_ok db bodyID id s :
  ownedActiveSession db (body_owner bodyID) id = Ok s ->
  t_sessions db !! id = Some s /\ s_Owner s = body_owner bodyID /\ s_Status s = Session.StatusActive.
Proof.
  unfold ownedActiveSession. destruct (Lookup db id) as [x|] eqn:E; [|done]. apply Lookup_ok in E as [Hx _].
  destruct (_ || _) eqn:Eb; [done|]. apply orb_false_iff in Eb as [Ho Ha]. bool_props. by intros [= <-].
Qed.

Lemma ownedActiveSession_err db bodyID id e :
  ownedActiveSession db (body_owner bodyID) id = Err e -> blank id = false -> ~ owned_active db bodyID id.
Proof.
  intros He Hb (s & Hs & Ho & Ha). unfold ownedActiveSession, Lookup, LoadSession in He. rewrite Hb, Hs in He.
  rewrite !bool_decide_true in He by done. done.
Qed.

(** A response that shows rows of the table owned by the Body. *)
Definition shows_own (db : sessions_db) (bodyID : string) (r : ControlResponse) : Prop :=
  forall ws, cs_Session r = Some ws \/ ws ∈ cs_Sessions r ->
    exists s, t_sessions db !! ws_ID ws = Some s /\ s_Owner s = body_owner bodyID /\ ws = wireSession s.

(** The rows of every other owner are as before. *)
Definition foreign_same (db db' : sessions_db) (bodyID : string) : Prop :=
  forall id s, t_sessions db !! id = Some s -> s_Owner s <> body_owner bodyID -> t_sessions db' !! id = Some s.

Definition own_selection (db' : sessions_db) (bodyID selected selected' : string) : Prop :=
  selected' = selected \/ selected' = "" \/ owned_active db' bodyID selected'.

Lemma ListActive_own db bodyID ss :
  sessions_named db -> ListActive db (Some (body_owner bodyID)) = Ok ss ->
  forall ws, ws ∈ wireSession <$> ss ->
  exists s, t_sessions db !! ws_ID ws = Some s /\ s_Owner s = body_owner bodyID /\ ws = wireSession s.
Proof.
  intros Hn. unfold ListActive. destruct (negb _); [done|]. intros [= <-] ws (s & -> & Hs)%list_elem_of_fmap.
  unfold ListActiveSessions in Hs. apply elem_of_select_by in Hs as (k & Hk & Hc). bool_props.
  exists s. simpl. by rewrite (Hn _ _ Hk).
Qed.

Lemma Create_own db now uuid bodyID ref s db' :
  Session.Create db now uuid (body_owner bodyID) ref = (Ok s, db') ->
  foreign_same db db' bodyID /\ t_sessions db' !! s_ID s = Some s /\ s_Owner s = body_owner bodyID.
Proof.
  unfold Session.Create. destruct (negb _); [done|]. destruct (CreateSession _ _) as [d|] eqn:E; [|done].
  apply CreateSession_ok in E as (Hn & -> & _). intros [= <- <-]. simpl in *. rewrite lookup_insert_eq.
  split_and!; [|done|done]. intros i x Hx _. simpl. by rewrite lookup_insert_ne by congruence.
Qed.

Lemma Create_refused db now uuid owner ref e db' : Session.Create db now uuid owner ref = (Err e, db') -> db' = db.
Proof.
  unfold Session.Create. destruct (negb _); [by intros [= _ <-]|]. destruct (CreateSession _ _); [done|by intros [= _ <-]].
Qed.

(** Closing an own session. *)
Lemma Close_own fk db between now bodyID id s0 :
  sessions_named db -> session_activity fk between -> t_sessions db !! id = Some s0 -> s_Owner s0 = body_owner bodyID ->
  foreign_same (between db) (Close (between db) now id).2 bodyID /\
  match (Close (between db) now id).1 with
  | Ok c => t_sessions (Close (between db) now id).2 !! s_ID c = Some c /\ s_Owner c = body_owner bodyID
  | Err _ => True
  end.
Proof.
  intros Hn Hact Hs0 Ho. assert (Hsame : foreign_same (between db) (between db) bodyID) by by intros ? ?.
  unfold Close. destruct (blank id); [done|]. unfold CloseSession, update_active.
  destruct (session_steps_keep _ _ _ (Hact db) _ _ Hs0) as (x & Hx & (Hid & Hown & _)). rewrite Hx.
  destruct (bool_decide _); [|done]. simpl. rewrite Hid, (Hn _ _ Hs0), lookup_insert_eq. split; [|split; congruence].
  intros i y Hy Hne. simpl. rewrite lookup_insert_ne; [done|]. intros <-. congruence.
Qed.

(** A refusal: nothing shown, nothing changed. *)
Local Ltac refused :=
  split_and!; [try (intros ws [?|H]; [done|by apply not_elem_of_nil in H])|by left|left; by intros ? ?|try done;
    try by intros _ _ []].

(** A Body controls its own sessions only.  Whatever a Body asks: every
    session the response shows is its own; the rows of other owners are as
    before the operation; the selection stays, is cleared, or becomes an own
    active session; and a session that is unknown, closed or another owner's is
    answered with the one same error and nothing is changed. *)
Theorem session_control_scoped fk db between now uuid rid bodyID selected r resp selected' db' :
  rtc (session_step fk) empty_db db -> session_activity fk between ->
  HandleSessionControl db between now uuid rid bodyID selected r = (resp, selected', db') ->
  shows_own db' bodyID resp /\ own_selection db' bodyID selected selected' /\
  (foreign_same db db' bodyID \/ foreign_same (between db) db' bodyID) /\
  (blank bodyID = false -> is_ok (Request_Validate r) = true -> cr_Type r = TypeSelect \/ cr_Type r = TypeClose ->
   ~ owned_active db bodyID (cr_SessionID r) ->
   resp = {| cs_ID := rid; cs_CorrelationID := cr_ID r; cs_Operation := cr_Type r; cs_Status := StatusError;
             cs_Session := None; cs_Sessions := []; cs_Error := Some (ErrorSessionUnavailable, "session is not available") |} /\
   selected' = selected /\ db' = db).
Proof.
  intros Hr Hact. assert (Hn : sessions_named db) by exact (reachable_keeps sessions_named _ _ Hr empty_named).
  unfold HandleSessionControl. destruct (blank bodyID) eqn:Eb; [intros [= <- <- <-]; refused|].
  destruct (Request_Validate r) as [[]|[]] eqn:EV; [|intros [= <- <- <-]; refused..].
  destruct (cr_Type r) eqn:ET; try (intros [= <- <- <-]; refused).
  - destruct (Session.Create _ _ _ _ _) as [[s|e] db1] eqn:EC.
    + apply Create_own in EC as (Hf & Hs & Ho). intros [= <- <- <-]. split_and!; [|by left|by left|by intros _ _ []].
      intros ws [[= <-]|H]; [by exists s|by apply not_elem_of_nil in H].
    + apply Create_refused in EC as ->. destruct e; intros [= <- <- <-]; refused.
  - destruct (ListActive _ _) as [ss|] eqn:EL; intros [= <- <- <-]; refused.
    intros ws [H|H]; [done|]. by eapply ListActive_own.
  - destruct (ownedActiveSession _ _ _) as [s|] eqn:EO; intros [= <- <- <-]; [|refused].
    apply ownedActiveSession_ok in EO as (Hs & Ho & Ha). pose proof (Hn _ _ Hs) as Hid. rewrite Hid.
    split_and!; [|right; right; by exists s|left; by intros ? ?|].
    + intros ws [[= <-]|H]; [exists s; simpl; by rewrite Hid|by apply not_elem_of_nil in H].
    + intros _ _ _ []. by exists s.
  - destruct (ownedActiveSession _ _ _) as [s|] eqn:EO; [|intros [= <- <- <-]; refused].
    apply ownedActiveSession_ok in EO as (Hs & Ho & Ha). rewrite (Hn _ _ Hs).
    destruct (Close_own fk db between now bodyID _ s Hn Hact Hs Ho) as [Hf Hc].
    destruct (Close _ _ _) as [[c|] db1]; intros [= <- <- <-]; simpl in *.
    + split_and!; [|destruct (same_str _ _); [by right; left|by left]|by right|intros _ _ _ []; by exists s].
      intros ws [[= <-]|H]; [destruct Hc; by exists c|by apply not_elem_of_nil in H].
    + split_and!; [intros ws [?|H]; [done|by apply not_elem_of_nil in H]|by left|by right|intros _ _ _ []; by exists s].
Qed.

(** *** The Gateway's ingress *)

Lemma bind_sender_step fk now gateway sender p db s :
  rtc (session_step fk) db (bind_sender fk now gateway sender p db s).2.
Proof.
  unfold bind_sender. set (src := {| src_SessionID := s_ID s |}).
  pose proof (step_bind_resolved fk db now (s_ID s) src) as Hst.
  destruct (BindResolvedParticipant _ _ _ _ _) as [[]]; by apply rtc_once.
Qed.

Lemma AuthorizeSession_steps fk db between now sid owner gateway sender now' p :
  session_activity fk between ->
  rtc (session_step fk) db (AuthorizeSession db between now sid owner (Some (bind_sender fk now' gateway sender p))).2.
Proof.
  intros Hact. unfold AuthorizeSession. destruct (_ || _); [apply rtc_refl|].
  destruct (Lookup db sid) as [found|[]]; try apply rtc_refl. destruct (negb _); [apply rtc_refl|].
  destruct (negb _); [apply rtc_refl|]. pose proof (step_resume fk (between db) now (by_id sid)) as Hst.
  assert (Hto : rtc (session_step fk) db (Resume (between db) now (by_id sid)).2) by (eapply rtc_r; [apply Hact|done]).
  destruct (Resume _ _ _) as [[s|[]] db1]; try done. simpl in Hto.
  pose proof (bind_sender_step fk now' gateway sender p db1 s) as Hb.
  destruct (bind_sender _ _ _ _ _ _ _) as [[]]; by etransitivity.
Qed.

(** A bound participant is there. *)
Lemma BindResolved_bound fk db now sid src b db' :
  BindResolvedParticipant fk db now sid src = (Ok b, db') ->
  is_Some (t_participants db' !! (sid, src_PrincipalID src)) /\
  exists row, t_sources db' !! key_of row = Some row /\ src_SessionID row = sid /\
    src_PrincipalID row = src_PrincipalID src /\ src_SubjectID row = src_SubjectID src.
Proof.
  unfold BindResolvedParticipant, BindResolvedSessionParticipant. destruct (_ || _); [done|].
  destruct (orphan _ _ _); [done|]. simpl. set (row := {| src_SessionID := sid |}). intros [= _ <-].
  assert (Hend : forall d, t_sources d = <[key_of row := row]> (t_sources db) ->
    is_Some (t_participants d !! (sid, src_PrincipalID src)) -> is_Some (t_participants d !! (sid, src_PrincipalID src)) /\
    exists row, t_sources d !! key_of row = Some row /\ src_SessionID row = sid /\
      src_PrincipalID row = src_PrincipalID src /\ src_SubjectID row = src_SubjectID src)
    by (intros d -> ?; split; [done|]; exists row; by rewrite lookup_insert_eq).
  destruct (t_sources db !! key_of row) as [p|]; [destruct (same_str (src_PrincipalID p) _) eqn:E|];
    [by apply Hend; simpl; rewrite ?lookup_insert_eq| |by apply Hend; simpl; rewrite ?lookup_insert_eq].
  apply same_str_false in E. unfold removeUnreferencedParticipant.
  destruct (referenced _ _ _); apply Hend; try done; simpl; rewrite ?lookup_delete_ne, lookup_insert_eq by congruence; done.
Qed.

(** An interaction from a Gateway.  If a verified sender's interaction is
    handed to a session: the session is active and belongs to that Gateway; a
    sender the configuration maps to a principal is recorded as that principal,
    under the identity the Gateway verified; and a sender it does not map leaves
    the participants untouched. *)
Theorem gateway_interaction_bound fk db ms r dn between now now' gateway sid sender event s db' :
  NewMemoryResolver ms = Ok r -> rtc (session_step fk) empty_db db -> session_activity fk between ->
  HandleVerifiedInteraction fk db r dn between now now' gateway sid sender event = (Ok s, db') ->
  s_ID s = sid /\ s_Owner s = gateway_owner gateway /\ s_Status s = Session.StatusActive /\
  ((exists p m key, m ∈ ms /\ maps_to m key p /\
      validatedKey (p_Identity (presented_identity gateway sender)) = Ok key /\
      is_Some (t_participants db' !! (sid, pr_ID p)) /\
      exists row, t_sources db' !! key_of row = Some row /\ src_SessionID row = sid /\ src_PrincipalID row = pr_ID p /\
        src_SubjectID row = vs_SubjectID sender) \/
   (Resolve r dn (presented_identity gateway sender) = Err ErrUnmapped /\
    t_participants db' = t_participants (between db))).
Proof.
  intros Hms Hr Hact. unfold HandleVerifiedInteraction. destruct (blank gateway); [done|]. destruct (_ || _); [done|].
  assert (Hn : sessions_named db) by exact (reachable_keeps sessions_named _ _ Hr empty_named).
  unfold RouteInteraction. destruct (Resolve _ _ _) as [p|e] eqn:Ep.
  - destruct (_ || _); [done|].
    intros (Hid & Ho & Ha & _ & _ & db1 & _ & _ & Hb)%(AuthorizeSession_ok fk); [|done|done|apply bind_sender_ok].
    do 3 (split; [done|]). left. assert (dn = false) as -> by by destruct dn.
    destruct (identity_from_configuration ms r (presented_identity gateway sender) p Hms) as [Hc _]. apply Hc in Ep as (m & key & Hm & Hmt & Hk).
    exists p, m, key. do 3 (split; [done|]). unfold bind_sender in Hb.
    destruct (BindResolvedParticipant _ _ _ _ _) as [[b|] db2] eqn:Eb; [|done]. injection Hb as ->.
    apply BindResolved_bound in Eb as [? (row & ? & ? & ? & ?)]. rewrite <- Hid. split; [done|]. by exists row.
  - destruct e; try done. destruct (_ || _); [done|].
    intros (Hid & Ho & Ha & _ & _ & db1 & _ & Hpart & ->)%(AuthorizeSession_ok fk); [|done..].
    do 3 (split; [done|]). by right.
Qed.

Section gateway.
Context `{EventJSON}.

Lemma lift_session_steps fk w db' : rtc (session_step fk) (w_sessions w) db' -> rtc (event_step fk) w (put_session_db w db').
Proof.
  remember (w_sessions w) as db eqn:E. intros Hr. revert w E. induction Hr as [db|db db1 db2 Hst _ IH]; intros w ->.
  - destruct w. apply rtc_refl.
  - eapply rtc_l; [by apply es_session|]. by apply (IH (put_session_db w db1)).
Qed.

(** C32: a decision through a Gateway.  If a structured event of a Gateway is
    answered with a decided request: the event is a valid decision; the sender is
    mapped by the configuration, through this Gateway, to a principal with owner
    authority; the event's session belongs to this Gateway; the request was
    presented in that session, in a delivery addressed to the principal; the principal owns the request; and the request is
    in the state the event asked for.  Other activity may run between all of the
    calls. *)
Theorem gateway_decision_authorized fk w ms r dn between b0 b1 b2 b3 now now' nowg nowd resolution gateway sender e q err w' :
  NewMemoryResolver ms = Ok r -> rtc (event_step fk) empty_world w -> session_activity fk between ->
  activity fk b0 -> activity fk b1 -> activity fk b2 -> activity fk b3 ->
  HandleSessionEvent fk w r dn between b0 b1 b2 b3 now now' nowg nowd resolution gateway sender e = (Some q, err, w') ->
  exists payload p m key v pres d,
    DecodePermissionDecision e = Ok payload /\
    m ∈ ms /\ maps_to m key p /\ validatedKey (p_Identity (presented_identity gateway sender)) = Ok key /\
    pr_Authority p = AuthorityOwner /\ q_OwnerID q = pr_ID p /\ q_ID q = dp_RequestID payload /\
    (exists s, t_sessions (w_sessions v) !! ev_SessionID e = Some s /\ s_Owner s = gateway_owner gateway) /\
    rtc (event_step fk) w v /\ w_presentations v !! q_ID q = Some pres /\ pp_SessionID pres = ev_SessionID e /\
    w_deliveries v !! pp_DeliveryID pres = Some d /\ d_TargetPrincipalID d = pr_ID p /\
    match dp_Decision payload with
    | DecisionApprove => q_Status q = StatusApproved
    | DecisionRefuse => q_Status q = StatusDenied
    | DecisionOther _ => False
    end.
Proof.
  intros Hms Hr Hact H0 H1 H2 H3. assert (Hok : events_ok w) by exact (reachable_keeps events_ok _ _ Hr empty_world_ok).
  unfold HandleSessionEvent. destruct (blank gateway); [done|]. destruct (Event_Validate e); [|done].
  destruct (DecodePermissionDecision e) as [payload|]; [|done].
  destruct (Resolve r dn _) as [p|] eqn:Ep; [|done]. assert (dn = false) as -> by by destruct dn.
  pose proof (AuthorizeSession_steps fk (w_sessions w) between now (ev_SessionID e) (gateway_owner gateway) gateway sender now' p Hact) as Hs.
  destruct (AuthorizeSession _ _ _ _ _ _) as [[s|] db] eqn:EA; [|done]. cbn [snd] in Hs.
  apply (AuthorizeSession_ok fk) in EA as (_ & Ho & _ & Hin & _); [|apply Hok|done|apply bind_sender_ok].
  apply lift_session_steps in Hs.
  destruct (Decide _ _ _ _ _ _ _ _ _ _ _ _) as [[answer er] w2] eqn:ED. intros [= -> _ _].
  assert (Hr0 : rtc (event_step fk) w (b0 (put_session_db w db))) by (etransitivity; [exact Hs|apply H0]).
  apply (decision_facts fk) in ED as (_ & Hauth & _ & (pres & d & Hpres & Hsid & Hd & _ & Htg) & Hqid & Hown & Hdec);
    [|by etransitivity|done..].
  destruct (identity_from_configuration ms r (presented_identity gateway sender) p Hms) as [Hc _].
  apply Hc in Ep as (m & key & Hm & Hmt & Hk).
  assert (Hv : rtc (event_step fk) (put_session_db w db) (b1 (b0 (put_session_db w db)))) by (etransitivity; [apply H0|apply H1]).
  assert (Hok' : events_ok (put_session_db w db)) by exact (reachable_keeps events_ok _ _ Hs Hok).
  destruct (wk_sessions _ _ (event_steps_kept _ _ _ Hv Hok') _ _ Hin) as (s' & Hs' & (_ & Ho' & _)).
  exists payload, p, m, key, (b1 (b0 (put_session_db w db))), pres, d. rewrite Hqid.
  split_and!; try done; [exists s'; split; [done|congruence]|]. by etransitivity.
Qed.
End gateway.

(** ** Examples *)

#[local] Existing Instance sample_json.

Lemma no_session_activity fk : session_activity fk id.
Proof. intros d. apply rtc_refl. Qed.

Lemma chat_reachable : rtc (session_step true) empty_db chat_bound.
Proof.
  eapply rtc_l; [exact (step_create true empty_db 5%Z "s1" chat_owner "chat")|].
  apply rtc_once. exact (step_bind_resolved true chat_opened 6%Z "s1" chat_source).
Qed.

Lemma routing_authorized_witness :
  exists s db', RouteInteraction chat_bound id 9%Z "s1" chat_owner true None = (Ok s, db') /\ s_Owner s = chat_owner.
Proof.
  destruct (RouteInteraction chat_bound id 9%Z "s1" chat_owner true None) as [[s|] db'] eqn:E;
    [|vm_compute in E; discriminate E].
  destruct (routing_authorized true chat_bound id 9%Z "s1" chat_owner true None s db' chat_reachable
    (no_session_activity true) I E) as (_ & _ & Ho & _). exists s, db'. split; [reflexivity|exact Ho].
Defined.

(** A session of the Gateway is not the Body's to route into or to select. *)
Example routing_refused :
  (RouteInteraction chat_bound id 9%Z "s1" (body_owner "b") true None).1 = Err ErrUnauthorizedSession.
Proof. reflexivity. Qed.

Lemma body_session_resolved_witness :
  exists s, (resolveBodySession chat_bound id id 10%Z 11%Z 12%Z "s2" (body_owner "b")).1 = Ok s /\
    s_Owner s = body_owner "b".
Proof.
  destruct (body_session_resolved true chat_bound id 10%Z 11%Z 12%Z "s2" "b" chat_reachable (no_session_activity true))
    as (s & Hs & Ho & _); [reflexivity|vm_compute; reflexivity|]. exists s. split; [exact Hs|exact Ho].
Defined.

Definition close_foreign : ControlRequest :=
  {| cr_Version := 1; cr_Type := TypeClose; cr_ID := "m1"; cr_ExternalConversationRef := ""; cr_SessionID := "s1" |}.

Lemma session_control_scoped_witness :
  let '(resp, selected, db') := HandleSessionControl chat_bound id 9%Z "u" "r1" "b" "" close_foreign in
  cs_Error resp = Some (ErrorSessionUnavailable, "session is not available") /\ selected = "" /\ db' = chat_bound.
Proof.
  destruct (HandleSessionControl chat_bound id 9%Z "u" "r1" "b" "" close_foreign) as [[resp selected] db'] eqn:E.
  destruct (session_control_scoped true chat_bound id 9%Z "u" "r1" "b" "" close_foreign resp selected db' chat_reachable
    (no_session_activity true) E) as (_ & _ & _ & Hu).
  destruct Hu as (-> & -> & ->); [reflexivity|reflexivity|by right| |].
  - intros (s & Hs & Ho & _). vm_compute in Hs. injection Hs as <-. discriminate Ho.
  - split; [reflexivity|]. split; reflexivity.
Defined.

Definition chat_sender : VerifiedExternalSender := {| vs_Platform := "tg"; vs_SubjectID := "7"; vs_Claims := ∅ |}.
Definition chat_mappings : list Mapping := [{| mp_Identity := chat_identity; mp_Principal := the_owner |}].

Lemma gateway_interaction_bound_witness :
  exists s db', HandleVerifiedInteraction true chat_opened chat_principals false id 7%Z 8%Z "gw" "s1" chat_sender true
    = (Ok s, db') /\ s_Owner s = gateway_owner "gw" /\ is_Some (t_participants db' !! ("s1", "owner")).
Proof.
  destruct (HandleVerifiedInteraction true chat_opened chat_principals false id 7%Z 8%Z "gw" "s1" chat_sender true)
    as [[s|] db'] eqn:E; [|vm_compute in E; discriminate E].
  destruct (gateway_interaction_bound true chat_opened chat_mappings chat_principals false id 7%Z 8%Z "gw" "s1" chat_sender
    true s db' eq_refl (rtc_once _ _ (step_create true empty_db 5%Z "s1" chat_owner "chat")) (no_session_activity true) E)
    as (_ & Ho & _ & Hp).
  exists s, db'. split; [reflexivity|]. split; [exact Ho|].
  destruct Hp as [(p & m & key & Hm & (_ & _ & ->) & _ & Hpart & _)|[Hz _]]; [|vm_compute in Hz; discriminate Hz].
  apply list_elem_of_singleton in Hm as ->. exact Hpart.
Defined.

Definition decision_event : Event :=
  {| ev_Version := 1; ev_ID := "e9"; ev_SessionID := "s1"; ev_Type := TypePermissionDecided; ev_Timestamp := 19 * second;
     ev_Correlation := {| co_CausationEventID := ""; co_TurnID := ""; co_RequestID := "p1"; co_ToolCallID := "";
       co_CognitiveRunID := ""; co_IntentionID := "" |};
     ev_Payload := SDecided approval |}.

Definition decided := HandleSessionEvent true shown_world chat_principals false id id id id id (15 * second) (16 * second)
  (20 * second) (21 * second) None "gw" chat_sender decision_event.

Lemma gateway_decision_authorized_witness :
  exists q err w', decided = (Some q, err, w') /\ q_Status q = StatusApproved.
Proof.
  destruct decided as [[[q|] err] w'] eqn:E; [|vm_compute in E; discriminate E].
  destruct (gateway_decision_authorized true shown_world chat_mappings chat_principals false id id id id id (15 * second)
    (16 * second) (20 * second) (21 * second) None "gw" chat_sender decision_event q err w' eq_refl shown_reachable
    (no_session_activity true) no_activity no_activity no_activity no_activity E)
    as (payload & _ & _ & _ & _ & _ & _ & Hd & _ & _ & _ & _ & _ & _ & _ & _ & _ & _ & _ & _ & Hs).
  exists q, err, w'. split; [reflexivity|]. vm_compute in Hd. injection Hd as <-. exact Hs.
Defined.
