(* ===== verification/KeyedLocks.v ===== *)
(** * Keyed locks

    Core/Interaction/locks.go: one lock per key, in entries that are counted by
    the calls that own or wait for them and removed with the last.  A state
    holds the map from keys to entries, the entries (a token in a channel of
    capacity one, and a count) and the calls of [acquire] in progress; a step is
    what one call does between two points where others may run: the part under
    the mutex, the receive from the channel, the cancellation, the send of the
    release function and the final [drop]. *)
From S2P Require Import Prelude.
From stdpp Require Import options.

Record keyedLock := { kl_token : bool; kl_refs : Z }.

(** A call that waits for the token, owns it, or has given it up and not yet dropped its reference. *)
Inductive phase := Waiting | Holding | Leaving.

#[global] Instance phase_eq_dec : EqDecision phase.
Proof. solve_decision. Defined.

Record call := { c_phase : phase; c_key : string; c_entry : nat }.

Record keyedLocks := {
  l_entries : gmap string nat;
  l_heap : gmap nat keyedLock;
  l_calls : gmap nat call;
}.

Definition no_locks : keyedLocks := {| l_entries := ∅; l_heap := ∅; l_calls := ∅ |}.

(** The first part of [acquire], under the mutex: [fresh] is the address a new entry gets. *)
Definition acquire (l : keyedLocks) (g : nat) (key : string) (fresh : nat) : keyedLocks :=
  let '(e, entry, entries) :=
    match l_entries l !! key with
    | Some e => (e, default {| kl_token := false; kl_refs := 0 |} (l_heap l !! e), l_entries l)
    | None => (fresh, {| kl_token := true; kl_refs := 0 |}, <[key := fresh]> (l_entries l))
    end in
  {| l_entries := entries;
     l_heap := <[e := {| kl_token := kl_token entry; kl_refs := kl_refs entry + 1 |}]> (l_heap l);
     l_calls := <[g := {| c_phase := Waiting; c_key := key; c_entry := e |}]> (l_calls l) |}.

Definition set_phase (l : keyedLocks) (g : nat) (c : call) (ph : phase) (token : bool) (n : keyedLock) : keyedLocks :=
  {| l_entries := l_entries l;
     l_heap := <[c_entry c := {| kl_token := token; kl_refs := kl_refs n |}]> (l_heap l);
     l_calls := <[g := {| c_phase := ph; c_key := c_key c; c_entry := c_entry c |}]> (l_calls l) |}.

(** [<-entry.token]: blocks while the channel is empty. *)
Definition receive (l : keyedLocks) (g : nat) (c : call) (n : keyedLock) : option keyedLocks :=
  if kl_token n then Some (set_phase l g c Holding false n) else None.

(** [entry.token <- struct{}{}]: blocks while the channel is full. *)
Definition send (l : keyedLocks) (g : nat) (c : call) (n : keyedLock) : option keyedLocks :=
  if kl_token n then None else Some (set_phase l g c Leaving true n).

Definition cancel (l : keyedLocks) (g : nat) (c : call) (n : keyedLock) : keyedLocks :=
  set_phase l g c Leaving (kl_token n) n.

(** [drop], under the mutex. *)
Definition drop (l : keyedLocks) (g : nat) (c : call) (n : keyedLock) : keyedLocks :=
  let refs := kl_refs n - 1 in
  {| l_entries := if (refs =? 0) && bool_decide (l_entries l !! c_key c = Some (c_entry c))
                  then delete (c_key c) (l_entries l) else l_entries l;
     l_heap := <[c_entry c := {| kl_token := kl_token n; kl_refs := refs |}]> (l_heap l);
     l_calls := delete g (l_calls l) |}.

Definition doing (l : keyedLocks) (g : nat) (ph : phase) (c : call) (n : keyedLock) : Prop :=
  l_calls l !! g = Some c /\ c_phase c = ph /\ l_heap l !! c_entry c = Some n.

Inductive lock_step : relation keyedLocks :=
| l_acquire l g key fresh : l_calls l !! g = None -> l_heap l !! fresh = None -> lock_step l (acquire l g key fresh)
| l_receive l g c n l' : doing l g Waiting c n -> receive l g c n = Some l' -> lock_step l l'
| l_cancel l g c n : doing l g Waiting c n -> lock_step l (cancel l g c n)
| l_send l g c n l' : doing l g Holding c n -> send l g c n = Some l' -> lock_step l l'
| l_drop l g c n : doing l g Leaving c n -> lock_step l (drop l g c n).

(** ** Counting calls *)

Definition count (P : call -> bool) (m : gmap nat call) : Z := Z.of_nat (size (filter (fun x => P x.2 = true) m)).

Definition one (b : bool) : Z := if b then 1 else 0.

Lemma count_insert P m g c : m !! g = None -> count P (<[g := c]> m) = count P m + one (P c).
Proof.
  intros Hn. unfold count, one. destruct (P c) eqn:E.
  - rewrite map_filter_insert_True by done. rewrite map_size_insert_None; [lia|]. rewrite map_lookup_filter, Hn. done.
  - rewrite map_filter_insert_not'; [lia|simpl; congruence|intros y Hy; congruence].
Qed.

Lemma count_delete P m g c : m !! g = Some c -> count P (delete g m) = count P m - one (P c).
Proof.
  intros Hg. assert (H : count P m = count P (<[g := c]> (delete g m))) by by rewrite insert_delete_id.
  rewrite count_insert in H by apply lookup_delete_eq. lia.
Qed.

Lemma count_update P m g c c' : m !! g = Some c -> count P (<[g := c']> m) = count P m - one (P c) + one (P c').
Proof.
  intros Hg. rewrite <- insert_delete_eq, count_insert by apply lookup_delete_eq. by rewrite (count_delete _ _ _ c).
Qed.

Lemma count_zero P m g c : count P m = 0 -> m !! g = Some c -> P c = false.
Proof.
  intros Hz Hg. destruct (P c) eqn:E; [|done]. exfalso. unfold count in Hz.
  assert (Hs : size (filter (fun x : nat * call => P x.2 = true) m) = 0%nat) by lia.
  apply map_size_empty_inv in Hs. assert (Hf : filter (fun x : nat * call => P x.2 = true) m !! g = Some c).
  { by apply map_lookup_filter_Some. }
  by rewrite Hs, lookup_empty in Hf.
Qed.

Lemma count_pos P m : 0 < count P m -> exists g c, m !! g = Some c /\ P c = true.
Proof.
  unfold count. intros Hp. destruct (map_choose (filter (fun x : nat * call => P x.2 = true) m)) as (g & c & Hg).
  { intros Hz. rewrite Hz, map_size_empty in Hp. lia. }
  apply map_lookup_filter_Some in Hg as [? ?]. eauto.
Qed.

Lemma count_nonneg P m : 0 <= count P m.
Proof. unfold count. lia. Qed.

Definition uses (e : nat) (c : call) : bool := bool_decide (c_entry c = e).
Definition holds (e : nat) (c : call) : bool := bool_decide (c_phase c = Holding) && bool_decide (c_entry c = e).

(** ** The invariant

    An entry's count is the number of calls that use it, its token is there
    exactly if no call holds it, and the map holds exactly the entries in use. *)
Record locks_ok (l : keyedLocks) : Prop := {
  lo_call : forall g c, l_calls l !! g = Some c ->
    l_entries l !! c_key c = Some (c_entry c) /\ is_Some (l_heap l !! c_entry c);
  lo_entry : forall e n, l_heap l !! e = Some n ->
    kl_refs n = count (uses e) (l_calls l) /\ count (holds e) (l_calls l) + one (kl_token n) = 1;
  lo_used : forall k e, l_entries l !! k = Some e -> is_Some (l_heap l !! e) /\ 0 < count (uses e) (l_calls l);
  lo_inj : forall k k' e, l_entries l !! k = Some e -> l_entries l !! k' = Some e -> k = k';
}.

Lemma set_phase_ok l g c ph token n :
  locks_ok l -> l_calls l !! g = Some c -> l_heap l !! c_entry c = Some n ->
  one (bool_decide (c_phase c = Holding)) + one (kl_token n) = one (bool_decide (ph = Holding)) + one token ->
  locks_ok (set_phase l g c ph token n).
Proof.
  intros [Hc He Hu Hi] Hg Hn Hone. constructor; simpl.
  - intros g' c' [[<- <-]|[_ H]]%lookup_insert_Some; simpl.
    + split; [by apply (Hc _ _ Hg)|rewrite lookup_insert_eq; by eexists].
    + destruct (Hc _ _ H) as [? ?]. split; [done|]. apply lookup_insert_is_Some'. by right.
  - intros e n' H. rewrite !(count_update _ _ _ c) by done. unfold uses, holds. cbn [c_phase c_key c_entry].
    apply lookup_insert_Some in H as [[<- <-]|[Hne H]]; cbn [kl_refs kl_token].
    + destruct (He _ _ Hn) as [H1 H2]. rewrite (bool_decide_true (c_entry c = c_entry c)), !andb_true_r by done.
      unfold uses, holds in *. lia.
    + destruct (He _ _ H) as [H1 H2]. rewrite (bool_decide_false (c_entry c = e)), !andb_false_r by done.
      unfold uses, holds in *. simpl. lia.
  - intros k e H. destruct (Hu _ _ H) as [? ?]. split; [apply lookup_insert_is_Some'; by right|].
    rewrite (count_update _ _ _ c) by done. unfold uses in *. simpl. lia.
  - done.
Qed.

Lemma acquire_ok l g key fresh :
  locks_ok l -> l_calls l !! g = None -> l_heap l !! fresh = None -> locks_ok (acquire l g key fresh).
Proof.
  intros [Hc He Hu Hi] Hg Hf. unfold acquire. destruct (l_entries l !! key) as [e|] eqn:Ek.
  - destruct (Hu _ _ Ek) as [[n Hn] Hpos]. rewrite Hn. simpl. constructor; simpl.
    + intros g' c' [[<- <-]|[_ H]]%lookup_insert_Some; simpl; [rewrite lookup_insert_eq; split; [done|by eexists]|].
      destruct (Hc _ _ H) as [? ?]. split; [done|]. apply lookup_insert_is_Some'. by right.
    + intros e' n' H. rewrite !count_insert by done. unfold uses, holds. simpl. rewrite Z.add_0_r.
      apply lookup_insert_Some in H as [[<- <-]|[Hne H]]; simpl.
      * destruct (He _ _ Hn) as [H1 H2]. rewrite bool_decide_true by done. unfold uses, holds in *. simpl. lia.
      * destruct (He _ _ H) as [H1 H2]. rewrite bool_decide_false by done. unfold uses, holds in *. simpl. lia.
    + intros k e' H. destruct (Hu _ _ H) as [? ?]. split; [apply lookup_insert_is_Some'; by right|].
      rewrite count_insert by done. unfold one. case_match; lia.
    + done.
  - assert (Hnew : forall g' c', l_calls l !! g' = Some c' -> c_entry c' <> fresh).
    { intros g' c' H Heq. destruct (Hc _ _ H) as [_ Hz]. rewrite Heq, Hf in Hz. by apply is_Some_None in Hz. }
    assert (Hz : forall P, (forall c', P c' = true -> c_entry c' = fresh) -> count P (l_calls l) = 0).
    { intros P HP. pose proof (count_nonneg P (l_calls l)). destruct (decide (count P (l_calls l) = 0)) as [|Hne]; [done|].
      destruct (count_pos P (l_calls l)) as (g' & c' & H1 & H2); [lia|]. destruct (Hnew _ _ H1). auto. }
    constructor; simpl.
    + intros g' c' [[<- <-]|[_ H]]%lookup_insert_Some; simpl; [rewrite !lookup_insert_eq; split; [done|by eexists]|].
      destruct (Hc _ _ H) as [Hx ?]. rewrite lookup_insert_ne by congruence. split; [done|].
      apply lookup_insert_is_Some'. by right.
    + intros e' n' H. rewrite !count_insert by done. unfold uses, holds. simpl. rewrite Z.add_0_r.
      apply lookup_insert_Some in H as [[<- <-]|[Hne H]]; simpl.
      * rewrite !Hz by (intros c' Hb; bool_props; done). by rewrite bool_decide_true.
      * destruct (He _ _ H) as [H1 H2]. rewrite bool_decide_false by done. unfold uses, holds in *. simpl. lia.
    + intros k e' [[<- <-]|[_ H]]%lookup_insert_Some; rewrite count_insert by done.
      * rewrite lookup_insert_eq. split; [by eexists|]. pose proof (count_nonneg (uses fresh) (l_calls l)).
        unfold uses at 2. simpl. rewrite bool_decide_true by done. simpl. lia.
      * destruct (Hu _ _ H) as [? ?]. split; [apply lookup_insert_is_Some'; by right|]. unfold one. case_match; lia.
    + assert (Hne : forall k e, l_entries l !! k = Some e -> e <> fresh).
      { intros k e H ->. destruct (Hu _ _ H) as [Hx _]. rewrite Hf in Hx. by apply is_Some_None in Hx. }
      intros k k' e [[<- <-]|[_ H]]%lookup_insert_Some [[<- ?]|[_ H']]%lookup_insert_Some; subst; try done;
        [by destruct (Hne _ _ H')|by destruct (Hne _ _ H)|by eapply Hi].
Qed.

Lemma drop_ok l g c n :
  locks_ok l -> doing l g Leaving c n -> locks_ok (drop l g c n).
Proof.
  intros [Hc He Hu Hi] (Hg & Hph & Hn). destruct (Hc _ _ Hg) as [Hkey _]. destruct (He _ _ Hn) as [Hrefs Htok].
  assert (Hu1 : one (uses (c_entry c) c) = 1) by (unfold uses; by rewrite bool_decide_true).
  assert (Hnz : forall g' c', delete g (l_calls l) !! g' = Some c' -> c_entry c' = c_entry c -> kl_refs n - 1 <> 0).
  { intros g' c' H Heq Hz. rewrite Hrefs in Hz. pose proof (count_delete (uses (c_entry c)) _ _ _ Hg) as Hd.
    pose proof (count_zero (uses (c_entry c)) _ _ _ ltac:(rewrite Hd; lia) H) as Hf. unfold uses in Hf. bool_props. done. }
  unfold drop. rewrite (bool_decide_true (_ = Some (c_entry c))), andb_true_r by done. constructor; simpl.
  - intros g' c' H. pose proof H as [Hne H0]%lookup_delete_Some. destruct (Hc _ _ H0) as [Hk ?].
    split; [|apply lookup_insert_is_Some'; by right]. destruct (_ =? 0) eqn:Ez; [|done].
    rewrite lookup_delete_ne; [done|]. intros Heq. apply (Hnz _ _ H); [congruence|lia].
  - intros e n' H. rewrite !(count_delete _ _ _ c) by done.
    apply lookup_insert_Some in H as [[<- <-]|[Hne H]]; simpl.
    + rewrite Hu1. unfold holds at 2. rewrite Hph. simpl. lia.
    + destruct (He _ _ H) as [H1 H2]. unfold uses at 2, holds at 2. rewrite Hph, (bool_decide_false (c_entry c = e)) by done.
      simpl. lia.
  - assert (Hothers : forall k e, l_entries l !! k = Some e -> (e = c_entry c -> kl_refs n - 1 <> 0) ->
      is_Some (<[c_entry c := {| kl_token := kl_token n; kl_refs := kl_refs n - 1 |}]> (l_heap l) !! e) /\
      0 < count (uses e) (delete g (l_calls l))).
    { intros k e H Hne. destruct (Hu _ _ H) as [? Hpos]. split; [apply lookup_insert_is_Some'; by right|].
      rewrite (count_delete _ _ _ c) by done. unfold uses at 2. destruct (decide (c_entry c = e)) as [<-|Hd].
      - rewrite bool_decide_true by done. simpl. rewrite <- Hrefs in *. specialize (Hne eq_refl). lia.
      - rewrite bool_decide_false by done. simpl. lia. }
    destruct (_ =? 0) eqn:Ez; intros k e H; [|apply (Hothers _ _ H); lia].
    apply lookup_delete_Some in H as [Hne H]. apply (Hothers _ _ H). intros ->. destruct Hne. by eapply Hi.
  - intros k k' e. destruct (_ =? 0); [rewrite !lookup_delete_Some; intros [_ ?] [_ ?]|]; by eapply Hi.
Qed.

#[global] Instance locks_ok_preserved : Preserves lock_step locks_ok.
Proof.
  intros l l' Hst Hok. destruct Hst as [l g key fresh Hg Hf|l g c n l' (Hg & Hp & Hn) Hr|l g c n (Hg & Hp & Hn)|
    l g c n l' (Hg & Hp & Hn) Hs|l g c n Hd].
  - by apply acquire_ok.
  - unfold receive in Hr. destruct (kl_token n) eqn:Et; [|done]. injection Hr as <-. apply set_phase_ok; try done.
    by rewrite Hp, Et.
  - apply set_phase_ok; try done. by rewrite Hp.
  - unfold send in Hs. destruct (kl_token n) eqn:Et; [done|]. injection Hs as <-. apply set_phase_ok; try done.
    by rewrite Hp, Et.
  - by apply drop_ok.
Qed.

Lemma no_locks_ok : locks_ok no_locks.
Proof. constructor; simpl; intros *; rewrite lookup_empty; done. Qed.

(** ** Theorem *)

Lemma holder_unique l g g' c c' :
  locks_ok l -> l_calls l !! g = Some c -> l_calls l !! g' = Some c' -> c_phase c = Holding -> c_phase c' = Holding ->
  c_entry c = c_entry c' -> g = g'.
Proof.
  intros [Hc He _ _] Hg Hg' Hh Hh' Heq. destruct (decide (g = g')) as [|Hne]; [done|]. exfalso.
  destruct (Hc _ _ Hg) as [_ [n Hn]]. destruct (He _ _ Hn) as [_ Ht].
  assert (Hd : count (holds (c_entry c)) (delete g (l_calls l)) = 0).
  { rewrite (count_delete _ _ _ c) by done. unfold holds at 2. rewrite Hh, !bool_decide_true by done. simpl.
    pose proof (count_nonneg (holds (c_entry c)) (delete g (l_calls l))) as Hnn. rewrite (count_delete _ _ _ c) in Hnn by done.
    unfold holds at 2 in Hnn. rewrite Hh, !bool_decide_true in Hnn by done. simpl in Hnn. unfold one in *. case_match; lia. }
  assert (Hg2 : delete g (l_calls l) !! g' = Some c') by by rewrite lookup_delete_ne.
  pose proof (count_zero _ _ _ _ Hd Hg2) as Hf. unfold holds in Hf. rewrite Hh', !bool_decide_true in Hf by done. done.
Qed.

(** C36: keyed locks exclude, and are cleaned up.  However calls interleave: two
    calls that hold the lock of one key are the same call; the map has an entry
    for a key if and only if some call is using that key; the release of a holder
    never blocks; and a waiting call is not kept waiting by a key nobody holds. *)
Theorem keyed_locks_exclusive l :
  rtc lock_step no_locks l ->
  (forall g g' c c', l_calls l !! g = Some c -> l_calls l !! g' = Some c' -> c_phase c = Holding ->
     c_phase c' = Holding -> c_key c = c_key c' -> g = g') /\
  (forall k, is_Some (l_entries l !! k) <-> exists g c, l_calls l !! g = Some c /\ c_key c = k) /\
  (forall g c n, doing l g Holding c n -> is_Some (send l g c n)) /\
  (forall g c n, doing l g Waiting c n ->
     (forall g' c', l_calls l !! g' = Some c' -> c_key c' = c_key c -> c_phase c' <> Holding) ->
     is_Some (receive l g c n)).
Proof.
  intros Hr. assert (Hok : locks_ok l) by exact (reachable_keeps locks_ok _ _ Hr no_locks_ok).
  destruct (Hok) as [Hc He Hu Hi]. split_and!.
  - intros g g' c c' Hg Hg' Hh Hh' Hk. eapply holder_unique; try done.
    destruct (Hc _ _ Hg) as [E1 _], (Hc _ _ Hg') as [E2 _]. congruence.
  - intros k. split.
    + intros [e Hk]. destruct (Hu _ _ Hk) as [_ (g & c & Hg & Huse)%count_pos]. unfold uses in Huse. bool_props.
      exists g, c. split; [done|]. destruct (Hc _ _ Hg) as [E _]. eapply Hi; [done|congruence].
    + intros (g & c & Hg & <-). destruct (Hc _ _ Hg) as [E _]. by eexists.
  - intros g c n (Hg & Hh & Hn). unfold send. destruct (kl_token n) eqn:Et; [|by eexists]. exfalso.
    destruct (He _ _ Hn) as [_ Ht]. rewrite Et in Ht. simpl in Ht.
    assert (Hz : count (holds (c_entry c)) (l_calls l) = 0) by lia.
    pose proof (count_zero _ _ _ _ Hz Hg) as Hf. unfold holds in Hf. by rewrite Hh, !bool_decide_true in Hf.
  - intros g c n (Hg & Hw & Hn) Hfree. unfold receive. destruct (kl_token n) eqn:Et; [by eexists|]. exfalso.
    destruct (He _ _ Hn) as [_ Ht]. rewrite Et in Ht. simpl in Ht.
    destruct (count_pos (holds (c_entry c)) (l_calls l)) as (g' & c' & Hg' & Hh); [lia|].
    unfold holds in Hh. bool_props. apply (Hfree _ _ Hg'); [|done].
    destruct (Hc _ _ Hg) as [E1 _], (Hc _ _ Hg') as [E2 _]. eapply Hi; [done|congruence].
Qed.

(** Two turns of one session: the second waits until the first has released. *)
Definition two_calls : keyedLocks := acquire (acquire no_locks 0 "s" 7) 1 "s" 8.
Definition held : keyedLocks :=
  set_phase two_calls 0 {| c_phase := Waiting; c_key := "s"; c_entry := 7 |} Holding false
    {| kl_token := true; kl_refs := 2 |}.

Lemma held_reachable : rtc lock_step no_locks held.
Proof.
  eapply rtc_l; [by apply (l_acquire no_locks 0 "s" 7)|].
  eapply rtc_l; [by apply (l_acquire (acquire no_locks 0 "s" 7) 1 "s" 8)|].
  apply rtc_once. apply (l_receive two_calls 0 {| c_phase := Waiting; c_key := "s"; c_entry := 7 |}
    {| kl_token := true; kl_refs := 2 |}); [|reflexivity]. by vm_compute.
Qed.

Lemma keyed_locks_exclusive_witness :
  is_Some (l_entries held !! "s") /\ l_entries held !! "t" = None /\
  receive held 1 {| c_phase := Waiting; c_key := "s"; c_entry := 7 |} {| kl_token := false; kl_refs := 2 |} = None /\
  is_Some (send held 0 {| c_phase := Holding; c_key := "s"; c_entry := 7 |} {| kl_token := false; kl_refs := 2 |}).
Proof.
  destruct (keyed_locks_exclusive held held_reachable) as (_ & Hk & Hs & _). split; [|split; [|split]].
  - apply Hk. exists 0%nat. eexists. split; reflexivity.
  - reflexivity.
  - reflexivity.
  - apply Hs. split; [reflexivity|]. split; reflexivity.
Defined.
