(* ===== verification/Communication.v ===== *)
(** * Messages a Doll starts

    Core/Communication/service.go: a message to a principal is sent through the
    Gateway session in which that principal was last seen, as a session event;
    the list of peers says who can be reached, by the same rule. *)
From S2P Require Import Prelude GoStrings GoTime SQL ActionPolicy Permission Session ExternalIdentity SessionEvent.
From stdpp Require Import options.

Inductive communication_error :=
| ErrInvalidMessage | ErrUnknownRecipient | ErrRecipientUnreachable
| CommunicationSession (e : session_error) | CommunicationEvent (e : event_error) | CommunicationIdentity (e : identity_error).

Record MessageCorrelation := {
  mc_SessionID : string; mc_TurnID : string; mc_ToolCallID : string; mc_CognitiveRunID : string; mc_IntentionID : string;
}.

Record SendTextRequest := { st_RecipientPrincipalID : string; st_Text : string; st_Correlation : MessageCorrelation }.

Record SendResult := { sr_DeliveryID : string; sr_SessionID : string; sr_Status : DeliveryStatus; sr_Failure : string }.

Record Peer := {
  pe_PrincipalID : string;
  pe_Authority : string;
  pe_Platforms : list string;
  pe_IdentityCount : Z;
  pe_RelationshipAvailable : bool;
  pe_ActiveGatewayRoute : bool;
  pe_EligibleSessionCount : Z;
  pe_KnownSessionCount : Z;
}.

(** ** Routes *)

(** Last seen first, then by session. *)
Definition seen_before (a b : ParticipantBinding) : Prop :=
  if pb_LastSeenAt a =? pb_LastSeenAt b then str_le (pb_SessionID a) (pb_SessionID b)
  else After (pb_LastSeenAt a) (pb_LastSeenAt b) = true.

#[global] Instance seen_before_dec : RelDecision seen_before.
Proof. intros a b. unfold seen_before. destruct (_ =? _); apply _. Defined.

(** An active session that a Gateway owns. *)
Definition route_of (db : sessions_db) (b : ParticipantBinding) : option InteractionSession :=
  match Lookup db (pb_SessionID b) with
  | Ok s => if bool_decide (s_Status s = Session.StatusActive) && same_str (o_Kind (s_Owner s)) OwnerGateway
            then Some s else None
  | Err _ => None
  end.

(** The first candidate and the number of candidates. *)
Fixpoint scan_routes (db : sessions_db) (selected : option InteractionSession) (eligible : Z)
    (bindings : list ParticipantBinding) : option InteractionSession * Z :=
  match bindings with
  | [] => (selected, eligible)
  | b :: rest =>
      match route_of db b with
      | Some s => scan_routes db (match selected with None => Some s | _ => selected end) (eligible + 1) rest
      | None => scan_routes db selected eligible rest
      end
  end.

Definition selectRoute (db : sessions_db) (bindings : list ParticipantBinding) : option InteractionSession * Z :=
  scan_routes db None 0 (merge_sort seen_before bindings).

(** ** Peers *)

Definition platforms_of (r : PrincipalRecord) : list string :=
  merge_sort str_le (remove_dups (filter (fun p => p <> "") (i_Platform <$> rec_Identities r))).

Definition peer_of (db : sessions_db) (r : PrincipalRecord) (bindings : list ParticipantBinding) : Peer :=
  let eligible := (selectRoute db bindings).2 in
  {| pe_PrincipalID := pr_ID (rec_Principal r); pe_Authority := pr_Authority (rec_Principal r);
     pe_Platforms := platforms_of r; pe_IdentityCount := len (rec_Identities r);
     pe_RelationshipAvailable := 0 <? len bindings; pe_ActiveGatewayRoute := 0 <? eligible;
     pe_EligibleSessionCount := eligible; pe_KnownSessionCount := len bindings |}.

Fixpoint list_peers (db : sessions_db) (records : list PrincipalRecord) : res communication_error (list Peer) :=
  match records with
  | [] => Ok []
  | r :: rest =>
      match ListParticipantSessions db (pr_ID (rec_Principal r)) with
      | Err e => Err (CommunicationSession e)
      | Ok bindings => try ps <- list_peers db rest; Ok (peer_of db r bindings :: ps)
      end
  end.

Definition ListPeers (db : sessions_db) (directory : MemoryResolver) (done : bool) : res communication_error (list Peer) :=
  match ListPrincipals directory done with
  | Err e => Err (CommunicationIdentity e)
  | Ok records => list_peers db records
  end.

Section send.
Context `{EventJSON}.

Definition text_part (text : string) : MessagePart :=
  {| mp_Type := PartText; mp_Text := text; mp_MediaID := ""; mp_Filename := ""; mp_MIMEType := ""; mp_SizeBytes := 0 |}.

(** [nowe] is the time of the event, [now] and [now'] the clock of the delivery and of the attempt. *)
Definition SendText (fk : bool) (w : world) (transport : Owner -> Delivery -> option transport_error)
    (nowe now now' : time) (uuide uuid : string) (r : SendTextRequest)
    : option SendResult * option communication_error * world :=
  let recipient := TrimSpace (st_RecipientPrincipalID r) in
  let text := TrimSpace (st_Text r) in
  if empty_str recipient || empty_str text then (None, Some ErrInvalidMessage, w)
  else
    match ListParticipantSessions (w_sessions w) recipient with
    | Err e => (None, Some (CommunicationSession e), w)
    | Ok bindings =>
        match (selectRoute (w_sessions w) bindings).1 with
        | None => (None, Some (match bindings with [] => ErrUnknownRecipient | _ => ErrRecipientUnreachable end), w)
        | Some selected =>
            let c := {| co_CausationEventID := ""; co_TurnID := mc_TurnID (st_Correlation r); co_RequestID := "";
                        co_ToolCallID := mc_ToolCallID (st_Correlation r);
                        co_CognitiveRunID := mc_CognitiveRunID (st_Correlation r);
                        co_IntentionID := mc_IntentionID (st_Correlation r) |} in
            match NewEvent (s_ID selected) TypeMessage (marshal_message [text_part text]) c nowe uuide with
            | Err e => (None, Some (CommunicationEvent e), w)
            | Ok event =>
                match Emit fk w transport now now' uuid event recipient with
                | ((None, err), w') => (None, CommunicationEvent <$> err, w')
                | ((Some d, err), w') =>
                    (Some {| sr_DeliveryID := d_ID d; sr_SessionID := s_ID selected; sr_Status := d_Status d;
                             sr_Failure := d_Error d |}, CommunicationEvent <$> err, w')
                end
            end
        end
    end.
End send.

(** ** Lemmas *)

#[global] Instance seen_before_total : Total seen_before.
Proof.
  intros a b. unfold seen_before. rewrite (Z.eqb_sym (pb_LastSeenAt b)). destruct (_ =? _) eqn:E; [apply total, _|].
  unfold After. apply Z.eqb_neq in E. rewrite !Z.ltb_lt. lia.
Qed.

#[global] Instance seen_before_trans : Transitive seen_before.
Proof.
  intros a b c. unfold seen_before, After. destruct (_ =? _) eqn:E1, (pb_LastSeenAt b =? _) eqn:E2; bool_props; intros H1 H2.
  - rewrite E1, E2, Z.eqb_refl. by etransitivity.
  - rewrite E1. by rewrite (proj2 (Z.eqb_neq _ _) E2).
  - rewrite <- E2. by rewrite (proj2 (Z.eqb_neq _ _) E1).
  - assert (pb_LastSeenAt a =? pb_LastSeenAt c = false) as -> by lia. lia.
Qed.

Lemma scan_routes_spec db bs : forall selected n,
  scan_routes db selected n bs =
  (match selected with Some _ => selected | None => head (omap (route_of db) bs) end, n + len (omap (route_of db) bs)).
Proof.
  induction bs as [|b bs IH]; intros selected n; simpl.
  - destruct selected; f_equal; unfold len; simpl; lia.
  - destruct (route_of db b) as [s|]; rewrite IH; [|done]. unfold len. cbn [length head].
    rewrite Nat2Z.inj_succ. fold (omap (route_of db) bs). unfold omap. destruct selected; (apply f_equal2; [done|lia]).
Qed.

Lemma selectRoute_spec db bs :
  selectRoute db bs = let routes := omap (route_of db) (merge_sort seen_before bs) in (head routes, len routes).
Proof. unfold selectRoute. by rewrite scan_routes_spec. Qed.

Lemma route_of_some db b s :
  route_of db b = Some s ->
  t_sessions db !! pb_SessionID b = Some s /\ s_Status s = Session.StatusActive /\ o_Kind (s_Owner s) = OwnerGateway.
Proof.
  unfold route_of. destruct (Lookup _ _) as [x|] eqn:E; [|done]. apply Lookup_ok in E as [Hx _].
  destruct (_ && _) eqn:Eb; [|done]. apply andb_true_iff in Eb as [Ha Hk%same_str_true]. bool_props. by intros [= <-].
Qed.

(** The first route of a sorted list belongs to the first binding that has one. *)
Lemma head_route_sorted (f : ParticipantBinding -> option InteractionSession) bs s :
  StronglySorted seen_before bs -> head (omap f bs) = Some s ->
  exists b, b ∈ bs /\ f b = Some s /\ forall b', b' ∈ bs -> is_Some (f b') -> seen_before b b' \/ b' = b.
Proof.
  induction bs as [|b bs IH]; simpl; [done|]. intros [Hs Hall]%StronglySorted_inv. destruct (f b) as [x|] eqn:E; simpl.
  - intros [= <-]. exists b. split_and!; [set_solver|done|]. intros b' [->|Hin]%elem_of_cons _; [by right|left].
    by apply (proj1 (List.Forall_forall _ _) Hall), list_elem_of_In.
  - intros Hh. destruct (IH Hs Hh) as (b0 & Hin & Hf & Hmin). exists b0. split_and!; [set_solver|done|].
    intros b' [->|Hin']%elem_of_cons Hsome; [rewrite E in Hsome; by apply is_Some_None in Hsome|auto].
Qed.

Lemma seen_before_later a b : seen_before a b -> pb_LastSeenAt b <= pb_LastSeenAt a.
Proof. unfold seen_before, After. destruct (_ =? _) eqn:E; bool_props; lia. Qed.

Lemma elem_of_recipient_sessions db pid bs b :
  ListParticipantSessions db pid = Ok bs ->
  b ∈ bs <-> exists k, t_participants db !! k = Some b /\ pb_PrincipalID b = TrimSpace pid.
Proof.
  intros Hl. rewrite <- (elem_of_principal_sessions _ _ _ b Hl). by rewrite merge_sort_Permutation.
Qed.

Section theorems.
Context `{EventJSON}.

(** The event a message becomes. *)
Lemma NewEvent_ok sid typ raw c now uuid e :
  NewEvent sid typ raw c now uuid = Ok e -> ev_SessionID e = sid /\ ev_Type e = typ.
Proof. unfold NewEvent. destruct raw; [|done]. destruct (Event_Validate _); simpl; [by intros [= <-]|done]. Qed.

(** A message reaches the recipient where it was last seen.  If a text is
    sent, its delivery is recorded, addressed to the recipient and to the owner
    of the session; the session is active, belongs to a Gateway, and the
    recipient takes part in it; and in no other such session was the recipient
    seen later. *)
Theorem text_sent_to_latest_session fk w transport nowe now now' ide id r result err w' :
  rtc (event_step fk) empty_world w ->
  SendText fk w transport nowe now now' ide id r = (Some result, err, w') ->
  let recipient := TrimSpace (st_RecipientPrincipalID r) in
  exists b s d, pb_PrincipalID b = recipient /\ (exists k, t_participants (w_sessions w) !! k = Some b) /\
    pb_SessionID b = sr_SessionID result /\
    t_sessions (w_sessions w) !! sr_SessionID result = Some s /\ s_Status s = Session.StatusActive /\
    o_Kind (s_Owner s) = OwnerGateway /\
    w_deliveries w' !! sr_DeliveryID result = Some d /\ d_TargetPrincipalID d = recipient /\ d_Owner d = s_Owner s /\
    ev_SessionID (d_Event d) = sr_SessionID result /\ ev_Type (d_Event d) = TypeMessage /\ d_Status d = sr_Status result /\
    (forall k b', t_participants (w_sessions w) !! k = Some b' -> pb_PrincipalID b' = recipient ->
       is_Some (route_of (w_sessions w) b') -> pb_LastSeenAt b' <= pb_LastSeenAt b).
Proof.
  intros Hr. assert (Hok : events_ok w) by exact (reachable_keeps events_ok _ _ Hr empty_world_ok).
  unfold SendText. cbn zeta. destruct (_ || _); [done|].
  destruct (ListParticipantSessions _ _) as [bs|] eqn:El; [|done]. rewrite selectRoute_spec. cbn zeta. cbn [fst].
  destruct (head _) as [s|] eqn:Eh; [|done].
  apply head_route_sorted in Eh as (b & Hb & Hroute & Hmin); [|by apply (StronglySorted_merge_sort _)].
  destruct (NewEvent _ _ _ _ _ _) as [e|] eqn:Ee; [|done]. apply NewEvent_ok in Ee as [Hsid Hty].
  destruct (Emit _ _ _ _ _ _ _ _) as [[[d|] er] w2] eqn:Em; [|done]. intros [= <- _ <-]. simpl.
  apply Emit_answer in Em as (Hev & Htg & Hd & s' & Hs' & Ho). subst e.
  destruct (route_of_some _ _ _ Hroute) as (Hs & Ha & Hk). pose proof (eo_named _ Hok _ _ Hs) as Hid.
  rewrite merge_sort_Permutation, (elem_of_recipient_sessions _ _ _ _ El), TrimSpace_idem in Hb. destruct Hb as (k & Hkb & Hbp).
  exists b, s, d. rewrite Hsid, Hid, Hs in Hs'. injection Hs' as <-. rewrite Hid. split_and!; try done; [by exists k|congruence|].
  intros k' b' Hk' Hp' Hroute'. destruct (Hmin b') as [Hle| ->]; [|done|by apply seen_before_later|done].
  rewrite merge_sort_Permutation, (elem_of_recipient_sessions _ _ _ _ El), TrimSpace_idem. by exists k'.
Qed.

Lemma list_peers_elem db records : forall peers p, list_peers db records = Ok peers -> p ∈ peers ->
  exists r bs, r ∈ records /\ ListParticipantSessions db (pr_ID (rec_Principal r)) = Ok bs /\ p = peer_of db r bs.
Proof.
  induction records as [|r records IH]; simpl; intros peers p; [intros [= <-] Hp; by apply not_elem_of_nil in Hp|].
  destruct (ListParticipantSessions _ _) as [bs|] eqn:El; [|done]. destruct (list_peers db records) as [ps|]; [|done].
  intros [= <-] [->|Hp]%elem_of_cons; [exists r, bs; set_solver|].
  destruct (IH ps p eq_refl Hp) as (r' & bs' & ? & ? & ?). exists r', bs'. set_solver.
Qed.

(** Principals of the directory are listed under a trimmed, non-blank id. *)
Lemma listed_principal_trimmed ms directory dn records r :
  NewMemoryResolver ms = Ok directory -> ListPrincipals directory dn = Ok records -> r ∈ records ->
  TrimSpace (pr_ID (rec_Principal r)) = pr_ID (rec_Principal r) /\ blank (pr_ID (rec_Principal r)) = false.
Proof.
  intros [[_ _ Hu] Hiff]%NewMemoryResolver_ok. unfold ListPrincipals. destruct dn; [done|]. intros [= <-].
  rewrite merge_sort_Permutation, list_elem_of_fmap. intros ([id p] & -> & Hin%elem_of_map_to_list). simpl.
  destruct (Hu _ _ Hin) as (key & Hk). apply Hiff in Hk as (m & _ & Hm). by eapply maps_to_trimmed.
Qed.

(** The list of peers says what sending will do.  For every listed peer, a
    non-blank text to it is refused as addressed to an unknown recipient exactly
    if the list shows no relationship, and refused for want of a route exactly if
    the list shows a relationship without an active Gateway route. *)
Theorem peers_agree_with_sending fk w ms directory dn peers p transport nowe now now' ide id r :
  NewMemoryResolver ms = Ok directory -> ListPeers (w_sessions w) directory dn = Ok peers -> p ∈ peers ->
  st_RecipientPrincipalID r = pe_PrincipalID p -> blank (st_Text r) = false ->
  let err := (SendText fk w transport nowe now now' ide id r).1.2 in
  (err = Some ErrUnknownRecipient <-> pe_RelationshipAvailable p = false) /\
  (err = Some ErrRecipientUnreachable <-> pe_RelationshipAvailable p = true /\ pe_ActiveGatewayRoute p = false).
Proof.
  intros Hms. unfold ListPeers. destruct (ListPrincipals directory dn) as [records|] eqn:Er; [|done].
  intros Hl Hp Hrec Ht. destruct (list_peers_elem _ _ _ _ Hl Hp) as (rec & bs & Hin & Hbs & ->).
  destruct (listed_principal_trimmed _ _ _ _ _ Hms Er Hin) as [Htr Hnb]. unfold SendText. cbn zeta.
  rewrite Hrec. cbn [peer_of pe_PrincipalID]. unfold blank in Ht, Hnb. rewrite Htr in Hnb. rewrite Htr, Hnb, Ht. cbn [orb].
  rewrite Hbs. unfold peer_of. cbn [pe_RelationshipAvailable pe_ActiveGatewayRoute]. rewrite selectRoute_spec. cbn zeta.
  cbn [fst snd]. assert (Hnone : bs = [] -> omap (route_of (w_sessions w)) (merge_sort seen_before bs) = []) by by intros ->.
  destruct (omap _ _) as [|s L] eqn:Eo; cbn [head].
  - destruct bs; unfold len; simpl; naive_solver.
  - assert (Hlen : (0 <? len (s :: L)) = true /\ (0 <? len bs) = true).
    { unfold len. split; apply Z.ltb_lt; [simpl; lia|]. destruct bs; [by discriminate Hnone|simpl; lia]. }
    destruct Hlen as [-> ->]. destruct (NewEvent _ _ _ _ _ _); [|simpl; naive_solver].
    destruct (Emit _ _ _ _ _ _ _ _) as [[[d|] [er|]] w2]; simpl; naive_solver.
Qed.
End theorems.

(** ** Examples *)

#[local] Existing Instance sample_json.

Definition hello : SendTextRequest :=
  {| st_RecipientPrincipalID := " owner"; st_Text := "hello"; st_Correlation := {| mc_SessionID := ""; mc_TurnID := "";
     mc_ToolCallID := ""; mc_CognitiveRunID := ""; mc_IntentionID := "" |} |}.

Lemma text_sent_to_latest_session_witness :
  exists result err w' d, SendText true asked_world works (30 * second) (31 * second) (32 * second) "e2" "d2" hello
    = (Some result, err, w') /\ w_deliveries w' !! sr_DeliveryID result = Some d /\ d_TargetPrincipalID d = "owner".
Proof.
  destruct (SendText true asked_world works (30 * second) (31 * second) (32 * second) "e2" "d2" hello)
    as [[[result|] err] w'] eqn:E; [|vm_compute in E; discriminate E].
  destruct (text_sent_to_latest_session true asked_world works (30 * second) (31 * second) (32 * second) "e2" "d2" hello
    result err w' asked_reachable E) as (b & s & d & _ & _ & _ & _ & _ & _ & Hd & Htg & _).
  exists result, err, w', d. split; [reflexivity|]. split; [exact Hd|exact Htg].
Defined.

Definition empty_chat : world := put_session_db asked_world empty_db.
Definition unseen_owner : Peer :=
  {| pe_PrincipalID := "owner"; pe_Authority := AuthorityOwner; pe_Platforms := ["tg"]; pe_IdentityCount := 1;
     pe_RelationshipAvailable := false; pe_ActiveGatewayRoute := false; pe_EligibleSessionCount := 0;
     pe_KnownSessionCount := 0 |}.

Definition hello_owner : SendTextRequest :=
  {| st_RecipientPrincipalID := "owner"; st_Text := "hello"; st_Correlation := st_Correlation hello |}.

Lemma peers_agree_with_sending_witness :
  (SendText true empty_chat works (30 * second) (31 * second) (32 * second) "e2" "d2" hello_owner).1.2
  = Some ErrUnknownRecipient.
Proof.
  destruct (peers_agree_with_sending true empty_chat [{| mp_Identity := chat_identity; mp_Principal := the_owner |}]
    chat_principals false [unseen_owner] unseen_owner works (30 * second) (31 * second) (32 * second) "e2" "d2" hello_owner)
    as [Hu _].
  - reflexivity.
  - vm_compute. reflexivity.
  - apply list_elem_of_singleton. reflexivity.
  - reflexivity.
  - reflexivity.
  - apply Hu. reflexivity.
Defined.
