(* ===== verification/ContextBuilder.v ===== *)
(** * Model context

    Core/ContextBuilder: the records of one source are resolved (source.go), a
    window of them is selected under a token budget (window.go) and the messages
    for the model are assembled (builder.go, types.go); the history of a session
    is the table of Core/Persistence/session_messages.go.  Token counts are sums
    of estimates that are bounded by the length of the text; they are modelled
    as integers without wrap-around. *)
From stdpp Require Import pretty.
From S2P Require Import Prelude GoStrings GoTime SQL Session.
From stdpp Require Import options.

(** ** Data *)

Inductive Role := RoleSystem | RoleUser | RoleAssistant | RoleTool | RoleOther (s : string).

#[global] Instance Role_eq_dec : EqDecision Role.
Proof. solve_decision. Defined.

Definition OmittedBudget := "token_budget".
Definition OmittedIncompleteTurn := "incomplete_turn".

Inductive context_error :=
| ErrInvalidContextRequest | ErrRequiredContextExceedsBudget | ErrInvalidSource | ErrSourceNotFound | ErrSourceUnauthorized
| ErrSourceUnsupported | ErrSourceIsolation | SourceSession (e : session_error).

Inductive SourceKind := SourceInteractionSession | SourceCognitionRun | SourceOther (s : string).

#[global] Instance SourceKind_eq_dec : EqDecision SourceKind.
Proof. solve_decision. Defined.

Record ContextSource := { cs_Kind : SourceKind; cs_SourceID : string }.

#[global] Instance ContextSource_eq_dec : EqDecision ContextSource.
Proof. solve_decision. Defined.

Record ContextRecord := {
  r_ID : string;
  r_Source : ContextSource;
  r_Sequence : Z;
  r_Role : Role;
  r_Content : string;
  r_Provenance : string;
  r_Required : bool;
  r_WindowGroup : string;
  r_OmitReason : string;
  r_CreatedAt : time;
}.

Record Message := { m_Role : Role; m_Content : string; m_Provenance : string }.

Record HistoryMessage := {
  h_ID : string; h_SessionID : string; h_TurnID : string; h_Sequence : Z; h_Role : Role; h_Content : string;
  h_CreatedAt : time;
}.

Record NewHistoryMessage := { nh_TurnID : string; nh_Role : Role; nh_Content : string }.

Record WindowItem := { wi_Record : ContextRecord; wi_EstimatedTokens : Z; wi_Required : bool }.

Record OmittedMessage := {
  om_ID : string; om_Sequence : Z; om_EstimatedTokens : Z; om_Reason : string; om_Provenance : string;
}.

Record Window := {
  w_Items : list WindowItem;
  w_OmittedMessages : list OmittedMessage;
  w_EstimatedTokens : Z;
  w_StartSequence : option Z;
  w_EndSequence : option Z;
}.

Record TransientMessage := { tm_ID : string; tm_Message : Message; tm_Required : bool; tm_WindowGroup : string }.

Record SourceRequest := {
  sq_Source : ContextSource;
  sq_TokenBudget : Z;
  sq_SystemInstructions : list string;
  sq_RequiredMessages : list Message;
  sq_TransientMessages : list TransientMessage;
}.

Record Metadata := {
  md_TokenBudget : Z;
  md_EstimatedTokens : Z;
  md_HistoryMessages : Z;
  md_HistoryStartSequence : option Z;
  md_HistoryEndSequence : option Z;
  md_WindowStartSequence : option Z;
  md_WindowEndSequence : option Z;
  md_IncludedHistoryMessages : Z;
  md_OmittedHistoryMessages : Z;
  md_IncludedMessageIDs : list string;
  md_OmittedMessages : list OmittedMessage;
}.

Record ContextResult := { cx_SessionID : string; cx_Messages : list Message; cx_Metadata : Metadata }.

Definition validRole (r : Role) : bool := match r with RoleOther _ => false | _ => true end.

(** ** Tokens *)

(** [utf8.RuneCountInString]: well-formed sequences count once, every other byte counts once. *)
Fixpoint RuneCountInString (s : string) : Z :=
  match s with
  | EmptyString => 0
  | String a s1 =>
      let z := code a in
      let alone := 1 + RuneCountInString s1 in
      if (z <? 0xC2) || (0xF4 <? z) then alone
      else
        match s1 with
        | EmptyString => alone
        | String b s2 =>
            let '(lo, hi) := second_range z in
            if negb (cont b lo hi) then alone
            else if z <? 0xE0 then 1 + RuneCountInString s2
            else
              match s2 with
              | EmptyString => alone
              | String c s3 =>
                  if negb (cont c 0x80 0xBF) then alone
                  else if z <? 0xF0 then 1 + RuneCountInString s3
                  else
                    match s3 with
                    | EmptyString => alone
                    | String d s4 => if negb (cont d 0x80 0xBF) then alone else 1 + RuneCountInString s4
                    end
              end
        end
  end.

Definition ApproximateEstimator (m : Message) : Z := 4 + (RuneCountInString (m_Content m) + 3) / 4.

(** ** The window *)

Definition selectable (i : WindowItem) : bool := negb (wi_Required i) && empty_str (r_OmitReason (wi_Record i)).

Definition group_key (i : WindowItem) : string :=
  if empty_str (r_WindowGroup (wi_Record i)) then "record:" +:+ r_ID (wi_Record i)
  else "group:" +:+ r_WindowGroup (wi_Record i).

(** The first loop: every estimate is positive, no required item is to be omitted; the tokens of the required ones. *)
Fixpoint required_tokens (acc : Z) (items : list WindowItem) : res context_error Z :=
  match items with
  | [] => Ok acc
  | i :: rest =>
      refuse wi_EstimatedTokens i <=? 0 with ErrInvalidContextRequest;
      if wi_Required i then
        refuse negb (empty_str (r_OmitReason (wi_Record i))) with ErrInvalidContextRequest;
        required_tokens (acc + wi_EstimatedTokens i) rest
      else required_tokens acc rest
  end.

Record selectionGroup := { sg_tokens : Z; sg_indexes : list nat }.

(** The second loop: the selectable items by group. *)
Fixpoint group_items (groups : gmap string selectionGroup) (index : nat) (items : list WindowItem) : gmap string selectionGroup :=
  match items with
  | [] => groups
  | i :: rest =>
      group_items
        (if selectable i then
           let g := default {| sg_tokens := 0; sg_indexes := [] |} (groups !! group_key i) in
           <[group_key i := {| sg_tokens := sg_tokens g + wi_EstimatedTokens i; sg_indexes := sg_indexes g ++ [index] |}]> groups
         else groups) (S index) rest
  end.

(** The third loop, from the newest item backwards. *)
Fixpoint choose (groups : gmap string selectionGroup) (remaining : Z) (seen : gset string) (selected : gset nat)
    (newest_first : list WindowItem) : gset nat :=
  match newest_first with
  | [] => selected
  | i :: rest =>
      if negb (selectable i) || bool_decide (group_key i ∈ seen) then choose groups remaining seen selected rest
      else
        let g := default {| sg_tokens := 0; sg_indexes := [] |} (groups !! group_key i) in
        if remaining <? sg_tokens g then selected
        else choose groups (remaining - sg_tokens g) ({[group_key i]} ∪ seen)
               (list_to_set (sg_indexes g) ∪ selected) rest
  end.

Definition omission (i : WindowItem) : OmittedMessage :=
  {| om_ID := r_ID (wi_Record i); om_Sequence := r_Sequence (wi_Record i); om_EstimatedTokens := wi_EstimatedTokens i;
     om_Reason := if empty_str (r_OmitReason (wi_Record i)) then OmittedBudget else r_OmitReason (wi_Record i);
     om_Provenance := r_Provenance (wi_Record i) |}.

(** The last loop. *)
Fixpoint collect (selected : gset nat) (w : Window) (index : nat) (items : list WindowItem) : Window :=
  match items with
  | [] => w
  | i :: rest =>
      collect selected
        (if wi_Required i || bool_decide (index ∈ selected) then
           {| w_Items := w_Items w ++ [i]; w_OmittedMessages := w_OmittedMessages w;
              w_EstimatedTokens := if wi_Required i then w_EstimatedTokens w else w_EstimatedTokens w + wi_EstimatedTokens i;
              w_StartSequence := if wi_Required i then w_StartSequence w
                                 else match w_StartSequence w with None => Some (r_Sequence (wi_Record i)) | s => s end;
              w_EndSequence := if wi_Required i then w_EndSequence w else Some (r_Sequence (wi_Record i)) |}
         else {| w_Items := w_Items w; w_OmittedMessages := w_OmittedMessages w ++ [omission i];
                 w_EstimatedTokens := w_EstimatedTokens w; w_StartSequence := w_StartSequence w;
                 w_EndSequence := w_EndSequence w |}) (S index) rest
  end.

Definition SlidingWindow_Select (items : list WindowItem) (budget : Z) : res context_error Window :=
  refuse budget <? 0 with ErrRequiredContextExceedsBudget;
  try required <- required_tokens 0 items;
  refuse budget <? required with ErrRequiredContextExceedsBudget;
  let groups := group_items ∅ 0 items in
  let selected := choose groups (budget - required) ∅ ∅ (reverse items) in
  Ok (collect selected {| w_Items := []; w_OmittedMessages := []; w_EstimatedTokens := required;
                          w_StartSequence := None; w_EndSequence := None |} 0 items).

(** ** History of a session *)

Abbreviation history_table := (gmap (string * Z) HistoryMessage) (only parsing).

Definition session_rows (t : history_table) (sessionID : string) : list HistoryMessage :=
  where_rows t (fun h => same_str (h_SessionID h) sessionID).

(** [COALESCE(MAX(sequence) + 1, 0)]. *)
Definition next_sequence (t : history_table) (sessionID : string) : Z :=
  match session_rows t sessionID with
  | [] => 0
  | h :: rest => foldr (fun x m => Z.max (h_Sequence x) m) (h_Sequence h) rest + 1
  end.

(** The insertions of one transaction; [uuid] and [clock] give the identifier and time of each. *)
Fixpoint insert_messages (t : history_table) (sessionID : string) (next : Z) (uuid : Z -> string) (clock : Z -> time)
    (index : Z) (messages : list NewHistoryMessage) : res context_error (list HistoryMessage * history_table) :=
  match messages with
  | [] => Ok ([], t)
  | m :: rest =>
      refuse empty_str (nh_TurnID m) with ErrInvalidContextRequest;
      refuse negb (validRole (nh_Role m)) with ErrInvalidContextRequest;
      let h := {| h_ID := uuid index; h_SessionID := sessionID; h_TurnID := nh_TurnID m; h_Sequence := next + index;
                  h_Role := nh_Role m; h_Content := nh_Content m; h_CreatedAt := clock index |} in
      refuse bool_decide (is_Some (t !! (sessionID, next + index))) || any_row t (fun x => same_str (h_ID x) (h_ID h))
        with SourceSession CreateFailed;
      try r <- insert_messages (<[(sessionID, next + index) := h]> t) sessionID next uuid clock (index + 1) rest;
      Ok (h :: fst r, snd r)
  end.

(** A refused message rolls the transaction back. *)
Definition AppendSessionMessages (db : sessions_db) (t : history_table) (sessionID : string) (uuid : Z -> string)
    (clock : Z -> time) (messages : list NewHistoryMessage) : res context_error (list HistoryMessage) * history_table :=
  if empty_str sessionID then (Err ErrInvalidContextRequest, t)
  else
    match LoadSession db sessionID with
    | Err e => (Err (SourceSession e), t)
    | Ok _ =>
        match insert_messages t sessionID (next_sequence t sessionID) uuid clock 0 messages with
        | Err e => (Err e, t)
        | Ok (created, t') => (Ok created, t')
        end
    end.

Definition sequence_before (a b : HistoryMessage) : Prop := h_Sequence a <= h_Sequence b.

#[global] Instance sequence_before_dec : RelDecision sequence_before.
Proof. intros a b. unfold sequence_before. apply _. Defined.

Definition ListSessionMessages (db : sessions_db) (t : history_table) (sessionID : string)
    : res context_error (list HistoryMessage) :=
  refuse empty_str sessionID with ErrInvalidContextRequest;
  match LoadSession db sessionID with
  | Err e => Err (SourceSession e)
  | Ok _ => Ok (merge_sort sequence_before (session_rows t sessionID))
  end.

(** ** Sources *)

Definition InteractionSessionSource (id : string) : ContextSource :=
  {| cs_Kind := SourceInteractionSession; cs_SourceID := id |}.

Record turnSelection := { ts_group : string; ts_omitReason : string }.

(** The first loop: records with a turn. *)
Fixpoint turn_marks (seenUser : gset string) (history : list HistoryMessage) : list turnSelection :=
  match history with
  | [] => []
  | m :: rest =>
      if empty_str (h_TurnID m) then {| ts_group := ""; ts_omitReason := "" |} :: turn_marks seenUser rest
      else
        let group := "turn:" +:+ h_TurnID m in
        match h_Role m with
        | RoleUser => {| ts_group := group; ts_omitReason := "" |} :: turn_marks ({[h_TurnID m]} ∪ seenUser) rest
        | RoleAssistant | RoleTool =>
            {| ts_group := group;
               ts_omitReason := if bool_decide (h_TurnID m ∈ seenUser) then "" else OmittedIncompleteTurn |} ::
            turn_marks seenUser rest
        | _ => {| ts_group := group; ts_omitReason := "" |} :: turn_marks seenUser rest
        end
  end.

Definition answered (rest : list HistoryMessage) : bool :=
  match rest with
  | n :: _ => empty_str (h_TurnID n) && bool_decide (h_Role n = RoleAssistant)
  | [] => false
  end.

(** The second loop: older records without a turn; [carried] is the group a
    user's message gave to the answer after it. *)
Fixpoint pair_turns (carried : string) (history : list HistoryMessage) (marks : list turnSelection) : list turnSelection :=
  match history, marks with
  | m :: rest, t :: ts =>
      if negb (empty_str (h_TurnID m)) then t :: pair_turns "" rest ts
      else
        match h_Role m with
        | RoleUser =>
            if answered rest then
              {| ts_group := "turn:" +:+ h_ID m; ts_omitReason := ts_omitReason t |} ::
              pair_turns ("turn:" +:+ h_ID m) rest ts
            else {| ts_group := "message:" +:+ h_ID m; ts_omitReason := ts_omitReason t |} :: pair_turns "" rest ts
        | RoleAssistant =>
            {| ts_group := if empty_str carried then ts_group t else carried;
               ts_omitReason := if empty_str carried && empty_str (ts_group t) then OmittedIncompleteTurn
                                else ts_omitReason t |} :: pair_turns "" rest ts
        | _ => t :: pair_turns "" rest ts
        end
  | _, _ => []
  end.

Definition interactionTurnGroups (history : list HistoryMessage) : list turnSelection :=
  pair_turns "" history (turn_marks ∅ history).

Definition history_record (source : ContextSource) (m : HistoryMessage) (t : turnSelection) : ContextRecord :=
  {| r_ID := h_ID m; r_Source := source; r_Sequence := h_Sequence m; r_Role := h_Role m; r_Content := h_Content m;
     r_Provenance := ""; r_Required := bool_decide (h_Role m = RoleSystem); r_WindowGroup := ts_group t;
     r_OmitReason := ts_omitReason t; r_CreatedAt := h_CreatedAt m |}.

Fixpoint history_records (source : ContextSource) (history : list HistoryMessage) (marks : list turnSelection)
    : res context_error (list ContextRecord) :=
  match history, marks with
  | m :: rest, t :: ts =>
      refuse negb (same_str (h_SessionID m) (cs_SourceID source)) with ErrSourceIsolation;
      try rs <- history_records source rest ts;
      Ok (history_record source m t :: rs)
  | _, _ => Ok []
  end.

(** [ErrSourceNotFound] stands for the joined error. *)
Definition session_error_of (e : context_error) : context_error :=
  match e with SourceSession Session.ErrNotFound => ErrSourceNotFound | _ => e end.

Definition resolve_session (db : sessions_db) (t : history_table) (source : ContextSource)
    : res context_error (ContextSource * list ContextRecord) :=
  refuse negb (bool_decide (cs_Kind source = SourceInteractionSession)) with ErrSourceUnsupported;
  refuse blank (cs_SourceID source) with ErrInvalidSource;
  match Lookup db (cs_SourceID source) with
  | Err e => Err (session_error_of (SourceSession e))
  | Ok _ =>
      match ListSessionMessages db t (cs_SourceID source) with
      | Err e => Err (session_error_of e)
      | Ok history =>
          try records <- history_records source history (interactionTurnGroups history);
          Ok (source, records)
      end
  end.

(** [SourceMux]. *)
Definition source_fn := ContextSource -> res context_error (ContextSource * list ContextRecord).

Definition SourceMux_Resolve (sessions runs : option source_fn) (source : ContextSource)
    : res context_error (ContextSource * list ContextRecord) :=
  match cs_Kind source with
  | SourceInteractionSession => match sessions with Some f => f source | None => Err ErrSourceUnsupported end
  | SourceCognitionRun => match runs with Some f => f source | None => Err ErrSourceUnsupported end
  | SourceOther _ => Err ErrInvalidSource
  end.

(** *** A cognition run *)

Definition NL : string := String (Ascii.ascii_of_nat 10) EmptyString.

(** The dash of the headings, in UTF-8. *)
Definition DASH : string :=
  String (Ascii.ascii_of_nat 226) (String (Ascii.ascii_of_nat 128) (String (Ascii.ascii_of_nat 148) EmptyString)).

Definition heading (what text : string) : string := "Context data " +:+ DASH +:+ " " +:+ what +:+ ":" +:+ NL +:+ text.

Record CognitionWorkingRecord := { cw_Role : Role; cw_Content : string; cw_Provenance : string; cw_Required : bool }.

Record CognitionRunResolver := {
  cn_source : ContextSource; cn_objective : string; cn_wakeEvidence : string; cn_working : list CognitionWorkingRecord;
}.

(** What [json.Marshal] makes of the parts of the mind's state. *)
Record mind_texts := { mt_identity : string; mt_mind : string; mt_goals : string; mt_intentions : string; mt_memory : string }.

Definition validateCognitionWorking (records : list CognitionWorkingRecord) : bool :=
  forallb (fun r => validRole (cw_Role r) && negb (bool_decide (cw_Role r = RoleSystem)) && negb (blank (cw_Content r))) records.

Definition put_working (r : CognitionRunResolver) (ws : list CognitionWorkingRecord) : CognitionRunResolver :=
  {| cn_source := cn_source r; cn_objective := cn_objective r; cn_wakeEvidence := cn_wakeEvidence r; cn_working := ws |}.

Definition Append (r : CognitionRunResolver) (records : list CognitionWorkingRecord) : res context_error CognitionRunResolver :=
  refuse negb (validateCognitionWorking records) with ErrInvalidContextRequest;
  Ok (put_working r (cn_working r ++ records)).

Definition ReplaceWorking (r : CognitionRunResolver) (records : list CognitionWorkingRecord)
    : res context_error CognitionRunResolver :=
  refuse negb (validateCognitionWorking records) with ErrInvalidContextRequest;
  Ok (put_working r records).

Definition NewCognitionRunResolver (id objective wake : string) (mind : bool) (working : list CognitionWorkingRecord)
    : res context_error CognitionRunResolver :=
  refuse blank id || blank objective || negb mind with ErrInvalidSource;
  Append {| cn_source := {| cs_Kind := SourceCognitionRun; cs_SourceID := id |}; cn_objective := objective;
            cn_wakeEvidence := wake; cn_working := [] |} working.

Definition run_record (r : CognitionRunResolver) (suffix : string) (sequence : Z) (content provenance : string)
    (required : bool) : ContextRecord :=
  {| r_ID := cs_SourceID (cn_source r) +:+ suffix; r_Source := cn_source r; r_Sequence := sequence; r_Role := RoleSystem;
     r_Content := content; r_Provenance := provenance; r_Required := required; r_WindowGroup := ""; r_OmitReason := "";
     r_CreatedAt := 0 |}.

Definition stateRecords (r : CognitionRunResolver) (t : mind_texts) : list ContextRecord :=
  [run_record r "/identity" 0 ("Doll identity:" +:+ NL +:+ mt_identity t) "doll.identity" true;
   run_record r "/mind" 1 (heading "authoritative Doll Mind state" (mt_mind t)) "doll_mind.state" false;
   run_record r "/goals" 2 (heading "authoritative Goals" (mt_goals t)) "doll_mind.goals" false;
   run_record r "/intentions" 3 (heading "authoritative Intentions" (mt_intentions t)) "doll_mind.intentions" false;
   run_record r "/memory" 4 (heading "recent Memory references" (mt_memory t)) "doll_mind.memory" false;
   run_record r "/objective" 5 ("Cognition Run objective:" +:+ NL +:+ cn_objective r) "cognition_run.objective" true] ++
  (if empty_str (cn_wakeEvidence r) then []
   else [run_record r "/wake" 6 (heading "Cognition Run wake evidence" (cn_wakeEvidence r)) "cognition_run.wake_evidence" false]).

Fixpoint working_records (r : CognitionRunResolver) (n : Z) (working : list CognitionWorkingRecord) : list ContextRecord :=
  match working with
  | [] => []
  | w :: rest =>
      {| r_ID := cs_SourceID (cn_source r) +:+ "/working/" +:+ pretty n; r_Source := cn_source r; r_Sequence := n;
         r_Role := cw_Role w; r_Content := cw_Content w;
         r_Provenance := if empty_str (cw_Provenance w) then "cognition_run.working" else cw_Provenance w;
         r_Required := cw_Required w; r_WindowGroup := ""; r_OmitReason := ""; r_CreatedAt := 0 |} ::
      working_records r (n + 1) rest
  end.

(** [state] is the mind's state, if it has one, and its encodings. *)
Definition resolve_run (r : CognitionRunResolver) (state : option mind_texts) (source : ContextSource)
    : res context_error (ContextSource * list ContextRecord) :=
  refuse negb (bool_decide (cs_Kind source = SourceCognitionRun)) with ErrSourceUnsupported;
  refuse negb (bool_decide (source = cn_source r)) with ErrSourceNotFound;
  match state with
  | None => Err ErrSourceNotFound
  | Some t => let records := stateRecords r t in
              Ok (source, records ++ working_records r (len records) (cn_working r))
  end.

(** ** The builder *)

Definition validSource (s : ContextSource) : bool :=
  negb (blank (cs_SourceID s)) && match cs_Kind s with SourceOther _ => false | _ => true end.

(** Every record is of the source, and sequences increase. *)
Fixpoint check_records (source : ContextSource) (previous : option Z) (records : list ContextRecord) : res context_error unit :=
  match records with
  | [] => Ok tt
  | r :: rest =>
      refuse negb (bool_decide (r_Source r = source)) with ErrSourceIsolation;
      refuse blank (r_ID r) || (r_Sequence r <? 0) ||
             match previous with Some p => r_Sequence r <=? p | None => false end with ErrInvalidSource;
      check_records source (Some (r_Sequence r)) rest
  end.

Section build.
Context (estimator : Message -> Z).

Definition estimate (m : Message) : Z := let v := estimator m in if 0 <? v then v else 1.

Definition instruction (s : string) : Message := {| m_Role := RoleSystem; m_Content := s; m_Provenance := "" |}.

(** Messages that must fit: the tokens used with them. *)
Fixpoint charge (check : Message -> bool) (budget used : Z) (messages : list Message) : res context_error Z :=
  match messages with
  | [] => Ok used
  | m :: rest =>
      refuse negb (check m) with ErrInvalidContextRequest;
      refuse budget <? used + estimate m with ErrRequiredContextExceedsBudget;
      charge check budget (used + estimate m) rest
  end.

Definition valid_message (m : Message) : bool := validRole (m_Role m) && negb (blank (m_Content m)).

Definition record_message (r : ContextRecord) : Message :=
  {| m_Role := r_Role r; m_Content := r_Content r; m_Provenance := r_Provenance r |}.

Definition record_item (r : ContextRecord) : WindowItem :=
  {| wi_Record := r; wi_EstimatedTokens := estimate (record_message r); wi_Required := r_Required r |}.

Definition transient_record (source : ContextSource) (sequence : Z) (t : TransientMessage) : ContextRecord :=
  {| r_ID := tm_ID t; r_Source := source; r_Sequence := sequence; r_Role := m_Role (tm_Message t);
     r_Content := m_Content (tm_Message t); r_Provenance := m_Provenance (tm_Message t); r_Required := tm_Required t;
     r_WindowGroup := tm_WindowGroup t; r_OmitReason := ""; r_CreatedAt := 0 |}.

Fixpoint transient_items (source : ContextSource) (historyIDs seen : gset string) (sequence : Z) (ts : list TransientMessage)
    : res context_error (list WindowItem) :=
  match ts with
  | [] => Ok []
  | t :: rest =>
      refuse blank (tm_ID t) || negb (valid_message (tm_Message t)) with ErrInvalidContextRequest;
      refuse bool_decide (tm_ID t ∈ historyIDs) || bool_decide (tm_ID t ∈ seen) with ErrInvalidContextRequest;
      try items <- transient_items source historyIDs ({[tm_ID t]} ∪ seen) (sequence + 1) rest;
      Ok (record_item (transient_record source sequence t) :: items)
  end.

(** The loop over the window: history goes to the messages, the rest to the tail. *)
Record assembly := {
  as_messages : list Message; as_ids : list string; as_start : option Z; as_end : option Z; as_tail : list Message;
}.

Definition assemble_one (historyIDs : gset string) (a : assembly) (i : WindowItem) : assembly :=
  let r := wi_Record i in
  if bool_decide (r_ID r ∈ historyIDs) then
    {| as_messages := as_messages a ++ [record_message r]; as_ids := as_ids a ++ [r_ID r];
       as_start := if wi_Required i then as_start a else match as_start a with None => Some (r_Sequence r) | s => s end;
       as_end := if wi_Required i then as_end a else Some (r_Sequence r); as_tail := as_tail a |}
  else {| as_messages := as_messages a; as_ids := as_ids a; as_start := as_start a; as_end := as_end a;
          as_tail := as_tail a ++ [record_message r] |}.

Definition BuildSource (policy : list WindowItem -> Z -> res context_error Window) (resolver : source_fn)
    (q : SourceRequest) : res context_error ContextResult :=
  let budget := sq_TokenBudget q in
  refuse negb (validSource (sq_Source q)) with ErrInvalidSource;
  refuse budget <=? 0 with ErrInvalidContextRequest;
  try resolved <- resolver (sq_Source q);
  let records := snd resolved in
  refuse negb (bool_decide (fst resolved = sq_Source q)) with ErrSourceIsolation;
  try u <- check_records (sq_Source q) None records;
  let system := instruction <$> sq_SystemInstructions q in
  try used1 <- charge (fun _ => true) budget 0 system;
  try used2 <- charge valid_message budget used1 (sq_RequiredMessages q);
  refuse negb (forallb (fun r => validRole (r_Role r)) records) with ErrInvalidContextRequest;
  let historyIDs : gset string := list_to_set (r_ID <$> records) in
  let next := match last records with Some r => r_Sequence r + 1 | None => 0 end in
  try extra <- transient_items (sq_Source q) historyIDs ∅ next (sq_TransientMessages q);
  try window <- policy ((record_item <$> records) ++ extra) (budget - used2);
  let a := foldl (assemble_one historyIDs)
             {| as_messages := system; as_ids := []; as_start := None; as_end := None; as_tail := [] |} (w_Items window) in
  Ok {| cx_SessionID := match cs_Kind (sq_Source q) with SourceInteractionSession => cs_SourceID (sq_Source q) | _ => "" end;
        cx_Messages := as_messages a ++ sq_RequiredMessages q ++ as_tail a;
        cx_Metadata := {| md_TokenBudget := budget; md_EstimatedTokens := used2 + w_EstimatedTokens window;
          md_HistoryMessages := len records; md_HistoryStartSequence := r_Sequence <$> head records;
          md_HistoryEndSequence := r_Sequence <$> last records; md_WindowStartSequence := as_start a;
          md_WindowEndSequence := as_end a; md_IncludedHistoryMessages := len (as_ids a);
          md_OmittedHistoryMessages := len (filter (fun o => om_ID o ∈ historyIDs) (w_OmittedMessages window));
          md_IncludedMessageIDs := as_ids a; md_OmittedMessages := w_OmittedMessages window |} |}.

Definition Build (policy : list WindowItem -> Z -> res context_error Window) (resolver : source_fn) (sessionID : string)
    (budget : Z) (instructions : list string) (required : list Message) (transient : list TransientMessage)
    : res context_error ContextResult :=
  refuse blank sessionID || (budget <=? 0) with ErrInvalidContextRequest;
  try r <- BuildSource policy resolver {| sq_Source := InteractionSessionSource sessionID; sq_TokenBudget := budget;
             sq_SystemInstructions := instructions; sq_RequiredMessages := required; sq_TransientMessages := transient |};
  Ok {| cx_SessionID := sessionID; cx_Messages := cx_Messages r; cx_Metadata := cx_Metadata r |}.
End build.

(** ** What a window should be

    The groups of the selectable items, newest first by their newest item; as
    many of them, in that order, as fit. *)

Definition tokens (items : list WindowItem) : Z := foldr (fun i n => wi_EstimatedTokens i + n) 0 items.

(** First occurrences. *)
Fixpoint firsts (seen : gset string) (l : list string) : list string :=
  match l with
  | [] => []
  | x :: rest => if bool_decide (x ∈ seen) then firsts seen rest else x :: firsts ({[x]} ∪ seen) rest
  end.

Definition newest_groups (items : list WindowItem) : list string :=
  firsts ∅ (group_key <$> filter (fun i => selectable i = true) (reverse items)).

Definition in_group (g : string) (i : WindowItem) : bool := selectable i && same_str (group_key i) g.

Definition group_tokens (items : list WindowItem) (g : string) : Z := tokens (filter (fun i => in_group g i = true) items).

Fixpoint fitting (items : list WindowItem) (remaining : Z) (groups : list string) : list string :=
  match groups with
  | [] => []
  | g :: rest => if remaining <? group_tokens items g then [] else g :: fitting items (remaining - group_tokens items g) rest
  end.

(** The items the window keeps. *)
Definition kept (chosen : list string) (i : WindowItem) : bool :=
  wi_Required i || (selectable i && bool_decide (group_key i ∈ chosen)).

(** ** Lemmas *)

Lemma tokens_app l k : tokens (l ++ k) = tokens l + tokens k.
Proof. induction l as [|i l IH]; simpl; lia. Qed.

Lemma tokens_cons i l : tokens (i :: l) = wi_EstimatedTokens i + tokens l.
Proof. done. Qed.

Lemma filter_true {A} (f : A -> bool) x (l : list A) :
  filter (fun y => f y = true) (x :: l) = (if f x then x :: filter (fun y => f y = true) l else filter (fun y => f y = true) l).
Proof. rewrite filter_cons. destruct (decide (f x = true)) as [->|Hn]; [done|]. by destruct (f x). Qed.

(** *** The groups the second loop makes *)

Fixpoint positions (n : nat) (g : string) (items : list WindowItem) : list nat :=
  match items with
  | [] => []
  | i :: rest => if in_group g i then n :: positions (S n) g rest else positions (S n) g rest
  end.

Definition group_at (groups : gmap string selectionGroup) (g : string) : selectionGroup :=
  default {| sg_tokens := 0; sg_indexes := [] |} (groups !! g).

Lemma group_at_insert groups g x : group_at (<[g := x]> groups) g = x.
Proof. unfold group_at. by rewrite lookup_insert_eq. Qed.

Lemma group_at_insert_ne groups g g' x : g <> g' -> group_at (<[g := x]> groups) g' = group_at groups g'.
Proof. intros Hne. unfold group_at. by rewrite lookup_insert_ne. Qed.

Lemma group_items_spec items : forall groups n g,
  group_at (group_items groups n items) g =
  {| sg_tokens := sg_tokens (group_at groups g) + group_tokens items g;
     sg_indexes := sg_indexes (group_at groups g) ++ positions n g items |}.
Proof.
  induction items as [|i items IH]; intros groups n g; simpl.
  { rewrite app_nil_r. unfold group_tokens. simpl. rewrite Z.add_0_r. by destruct (group_at groups g). }
  rewrite IH. unfold group_tokens. rewrite filter_true. unfold in_group.
  destruct (selectable i); [|done]. cbn [andb]. destruct (same_str (group_key i) g) eqn:E.
  - apply same_str_true in E as <-. rewrite group_at_insert. cbn [sg_tokens sg_indexes]. rewrite <- app_assoc, tokens_cons.
    fold (group_at groups (group_key i)). f_equal. lia.
  - apply same_str_false in E. by rewrite group_at_insert_ne.
Qed.

Lemma elem_of_positions g items : forall n k,
  k ∈ positions n g items <-> exists i it, k = (n + i)%nat /\ items !! i = Some it /\ in_group g it = true.
Proof.
  induction items as [|it items IH]; intros n k; simpl.
  { split; [intros H; by apply not_elem_of_nil in H|]. by intros (i & x & _ & H & _). }
  assert (Hrest : k ∈ positions (S n) g items <-> exists i x, k = (n + S i)%nat /\ items !! i = Some x /\ in_group g x = true).
  { rewrite IH. split; intros (i & x & -> & H); exists i, x; (split; [lia|done]). }
  destruct (in_group g it) eqn:E; [rewrite elem_of_cons|]; rewrite Hrest; split.
  - intros [->|(i & x & -> & H)]; [exists 0%nat, it; split; [lia|done]|by exists (S i), x].
  - intros ([|i] & x & -> & H1 & H2); [left; lia|right; by exists i, x].
  - intros (i & x & -> & H). by exists (S i), x.
  - intros ([|i] & x & -> & H1 & H2); [simpl in H1; congruence|by exists i, x].
Qed.

(** *** The choice of groups *)

Lemma choose_spec items groups l : (forall g, group_at groups g = {| sg_tokens := group_tokens items g; sg_indexes := positions 0 g items |}) ->
  forall remaining seen selected k,
  k ∈ choose groups remaining seen selected l <->
  k ∈ selected \/ exists g, g ∈ fitting items remaining (firsts seen (group_key <$> filter (fun i => selectable i = true) l)) /\
                            k ∈ positions 0 g items.
Proof.
  intros Hg. induction l as [|i l IH]; intros remaining seen selected k; simpl.
  { split; [by left|]. intros [?|(g & H & _)]; [done|]. by apply not_elem_of_nil in H. }
  rewrite filter_true. destruct (selectable i); cbn [negb orb]; [|apply IH]. cbn [fmap list_fmap firsts].
  destruct (bool_decide (group_key i ∈ seen)); [apply IH|].
  fold (group_at groups (group_key i)). rewrite Hg. cbn [sg_tokens sg_indexes fitting].
  destruct (remaining <? group_tokens items (group_key i)).
  { split; [by left|]. intros [?|(g & H & _)]; [done|]. by apply not_elem_of_nil in H. }
  rewrite IH, elem_of_union, elem_of_list_to_set. setoid_rewrite elem_of_cons. naive_solver.
Qed.

Lemma firsts_spec l : forall seen, NoDup (firsts seen l) /\ forall x, x ∈ firsts seen l <-> x ∈ l /\ x ∉ seen.
Proof.
  induction l as [|y l IH]; intros seen; simpl; [split; [constructor|set_solver]|].
  destruct (bool_decide (y ∈ seen)) eqn:E; bool_props.
  - destruct (IH seen) as [H1 H2]. split; [done|]. intros x. rewrite H2, elem_of_cons. naive_solver.
  - destruct (IH ({[y]} ∪ seen)) as [H1 H2]. split.
    + apply NoDup_cons. split; [|done]. rewrite H2. intros [_ Hn]. apply Hn. by apply elem_of_union_l, elem_of_singleton.
    + intros x. rewrite elem_of_cons, H2, not_elem_of_union, not_elem_of_singleton, elem_of_cons.
      destruct (decide (x = y)) as [->|]; naive_solver.
Qed.

Lemma fitting_prefix items gs : forall remaining, fitting items remaining gs `prefix_of` gs.
Proof.
  induction gs as [|g gs IH]; intros remaining; simpl; [done|].
  destruct (_ <? _); [apply prefix_nil|]. by apply prefix_cons.
Qed.

Lemma NoDup_fitting items remaining : NoDup (fitting items remaining (newest_groups items)).
Proof.
  destruct (fitting_prefix items (newest_groups items) remaining) as [rest Hr].
  assert (Hn : NoDup (newest_groups items)) by apply firsts_spec. rewrite Hr in Hn. by apply NoDup_app in Hn as [? _].
Qed.

(** *** Sums *)

Definition in_groups (gs : list string) (i : WindowItem) : bool := selectable i && bool_decide (group_key i ∈ gs).

Lemma tokens_groups items gs :
  NoDup gs -> tokens (filter (fun i => in_groups gs i = true) items) = foldr (fun g n => group_tokens items g + n) 0 gs.
Proof.
  induction gs as [|g gs IH]; intros Hn.
  { simpl. assert (Hz : filter (fun i => in_groups [] i = true) items = []); [|by rewrite Hz].
    induction items as [|i items IH]; [done|]. rewrite filter_true, IH. unfold in_groups.
    rewrite bool_decide_false by apply not_elem_of_nil. by rewrite andb_false_r. }
  apply NoDup_cons in Hn as [Hg Hn]. simpl. rewrite <- (IH Hn). unfold group_tokens. clear IH.
  induction items as [|i items IH]; [done|]. rewrite !filter_true. unfold in_groups, in_group in *.
  destruct (selectable i); [|done]. cbn [andb]. destruct (same_str (group_key i) g) eqn:E.
  - apply same_str_true in E. rewrite (bool_decide_true (group_key i ∈ g :: gs)) by set_solver.
    rewrite (bool_decide_false (group_key i ∈ gs)) by congruence. rewrite !tokens_cons. lia.
  - apply same_str_false in E. destruct (bool_decide (group_key i ∈ gs)) eqn:Eg; bool_props.
    + rewrite (bool_decide_true (group_key i ∈ g :: gs)) by set_solver. rewrite !tokens_cons. lia.
    + rewrite (bool_decide_false (group_key i ∈ g :: gs)) by set_solver. lia.
Qed.

Lemma fitting_fits items gs : forall remaining, 0 <= remaining ->
  foldr (fun g n => group_tokens items g + n) 0 (fitting items remaining gs) <= remaining.
Proof.
  induction gs as [|g gs IH]; intros remaining Hr; simpl; [done|].
  destruct (remaining <? group_tokens items g) eqn:E; simpl; [done|]. bool_props.
  specialize (IH (remaining - group_tokens items g)). lia.
Qed.

(** The choice stops at the first group that does not fit. *)
Lemma fitting_maximal items gs : forall remaining g rest,
  gs = fitting items remaining gs ++ g :: rest ->
  remaining < foldr (fun g n => group_tokens items g + n) 0 (fitting items remaining gs) + group_tokens items g.
Proof.
  induction gs as [|x gs IH]; intros remaining g rest; simpl; [done|].
  destruct (remaining <? group_tokens items x) eqn:E; simpl.
  - intros [= <- _]. bool_props. lia.
  - intros [= Hgs]. apply IH in Hgs. lia.
Qed.

(** *** The last loop *)

Lemma collect_spec selected (keep : WindowItem -> bool) items : forall w n,
  (forall k i, items !! k = Some i -> wi_Required i || bool_decide ((n + k)%nat ∈ selected) = keep i) ->
  let w' := collect selected w n items in
  w_Items w' = w_Items w ++ filter (fun i => keep i = true) items /\
  w_OmittedMessages w' = w_OmittedMessages w ++ (omission <$> filter (fun i => negb (keep i) = true) items) /\
  w_EstimatedTokens w' = w_EstimatedTokens w + tokens (filter (fun i => keep i && negb (wi_Required i) = true) items).
Proof.
  induction items as [|i items IH]; intros w n Hk; simpl.
  { rewrite !app_nil_r, Z.add_0_r. done. }
  pose proof (Hk 0%nat i eq_refl) as H0. rewrite Nat.add_0_r in H0. rewrite !filter_true.
  match goal with |- context [collect selected ?x (S n) items] => set (w1 := x) end.
  destruct (IH w1 (S n)) as (I1 & I2 & I3).
  { intros k x Hx. by rewrite <- (Hk (S k) x Hx), Nat.add_succ_r. }
  rewrite I1, I2, I3. unfold w1. rewrite H0. destruct (keep i); simpl.
  - destruct (wi_Required i); rewrite ?tokens_cons, <- ?app_assoc; simpl; split_and!; try done; lia.
  - rewrite <- app_assoc. by split_and!.
Qed.

Lemma required_tokens_spec items : forall acc,
  (forall n, required_tokens acc items = Ok n <->
     n = acc + tokens (filter (fun i => wi_Required i = true) items) /\
     Forall (fun i => 0 < wi_EstimatedTokens i /\ (wi_Required i = true -> r_OmitReason (wi_Record i) = "")) items).
Proof.
  induction items as [|i items IH]; intros acc n; simpl.
  { rewrite Z.add_0_r. split; [intros [= <-]; by split; [|constructor]|]. by intros [-> _]. }
  rewrite filter_true, Forall_cons. destruct (wi_EstimatedTokens i <=? 0) eqn:Ez; bool_props.
  { split; [done|]. intros (_ & (? & _) & _). lia. }
  destruct (wi_Required i).
  - destruct (empty_str (r_OmitReason (wi_Record i))) eqn:Ee; cbn [negb].
    + apply empty_str_true in Ee. rewrite IH, tokens_cons. split; intros [-> ?]; split; try done; try lia; tauto || (split; [split; [lia|done]|tauto]).
    + split; [done|]. intros (_ & (_ & Hr) & _). by rewrite Hr in Ee.
  - rewrite IH. split; intros [-> ?]; split; try done; tauto || (split; [split; [lia|done]|tauto]).
Qed.

(** *** The window *)

Lemma kept_split chosen items :
  tokens (filter (fun i => kept chosen i = true) items) =
  tokens (filter (fun i => wi_Required i = true) items) + tokens (filter (fun i => in_groups chosen i = true) items) /\
  filter (fun i => kept chosen i && negb (wi_Required i) = true) items = filter (fun i => in_groups chosen i = true) items.
Proof.
  induction items as [|i items [IH1 IH2]]; [done|]. rewrite !filter_true, IH2. unfold kept, in_groups, selectable in *.
  destruct (wi_Required i); cbn [negb andb orb].
  - rewrite !tokens_cons. split; [lia|done].
  - rewrite andb_true_r. destruct (empty_str _ && _); rewrite ?tokens_cons; (split; [lia|done]).
Qed.

Lemma selected_kept items groups budget k i :
  (forall g, group_at groups g = {| sg_tokens := group_tokens items g; sg_indexes := positions 0 g items |}) ->
  items !! k = Some i ->
  wi_Required i || bool_decide (k ∈ choose groups budget ∅ ∅ (reverse items)) =
  kept (fitting items budget (newest_groups items)) i.
Proof.
  intros Hg Hi. unfold kept. destruct (wi_Required i) eqn:Er; [done|]. cbn [orb]. apply eq_bool_prop_intro.
  rewrite bool_decide_spec, Is_true_true, andb_true_iff, bool_decide_eq_true, (choose_spec items) by done. split.
  - intros [Hn|(g & Hf & (k' & x & -> & Hx & Hin)%elem_of_positions)]; [by apply not_elem_of_empty in Hn|].
    simpl in Hi. simplify_eq. unfold in_group in Hin. apply andb_true_iff in Hin as [Hs Hk%same_str_true]. by rewrite Hk.
  - intros [Hs Hin]. right. exists (group_key i). split; [done|]. apply elem_of_positions. exists k, i.
    split_and!; [done|done|]. unfold in_group. rewrite Hs. by apply same_str_true.
Qed.

Lemma window_spec items budget w :
  SlidingWindow_Select items budget = Ok w ->
  let required := tokens (filter (fun i => wi_Required i = true) items) in
  let chosen := fitting items (budget - required) (newest_groups items) in
  required <= budget /\
  w_Items w = filter (fun i => kept chosen i = true) items /\
  w_OmittedMessages w = omission <$> filter (fun i => negb (kept chosen i) = true) items /\
  w_EstimatedTokens w = tokens (w_Items w) /\ tokens (w_Items w) <= budget.
Proof.
  unfold SlidingWindow_Select. destruct (budget <? 0); [done|].
  destruct (required_tokens 0 items) as [n|] eqn:Er; simpl; [|done].
  apply required_tokens_spec in Er as [-> _]. rewrite Z.add_0_l. destruct (_ <? _) eqn:Eb; [done|]. bool_props.
  set (required := tokens _) in *. set (chosen := fitting _ _ _). intros [= <-].
  set (groups := group_items ∅ 0 items).
  assert (Hg : forall g, group_at groups g = {| sg_tokens := group_tokens items g; sg_indexes := positions 0 g items |}).
  { intros g. unfold groups. by rewrite group_items_spec. }
  destruct (collect_spec (choose groups (budget - required) ∅ ∅ (reverse items)) (kept chosen) items
    {| w_Items := []; w_OmittedMessages := []; w_EstimatedTokens := required; w_StartSequence := None; w_EndSequence := None |} 0)
    as (H1 & H2 & H3); [intros k i Hi; by apply selected_kept|]. simpl in *. rewrite H1, H2, H3.
  destruct (kept_split chosen items) as [Hs Hf]. rewrite Hf, Hs. split_and!; try done.
  rewrite tokens_groups by apply NoDup_fitting.
  pose proof (fitting_fits items (newest_groups items) (budget - required)). unfold chosen. fold required. lia.
Qed.

(** The window is the newest that fits.  A window is selected if and only if
    the budget is not negative, every estimate is positive, no required item is
    marked for omission, and the required items fit.  It then holds, in their
    order, the required items and the items of the chosen groups; every other
    item is listed as omitted; the chosen groups are those, newest first, up to
    the first that no longer fits; and the window's tokens are those of its
    items, within the budget. *)
Theorem window_newest_that_fits items budget :
  let required := tokens (filter (fun i => wi_Required i = true) items) in
  let chosen := fitting items (budget - required) (newest_groups items) in
  ((exists w, SlidingWindow_Select items budget = Ok w) <->
   0 <= budget /\ required <= budget /\
   Forall (fun i => 0 < wi_EstimatedTokens i /\ (wi_Required i = true -> r_OmitReason (wi_Record i) = "")) items) /\
  (forall w, SlidingWindow_Select items budget = Ok w ->
   w_Items w = filter (fun i => kept chosen i = true) items /\
   w_OmittedMessages w = omission <$> filter (fun i => negb (kept chosen i) = true) items /\
   w_EstimatedTokens w = tokens (w_Items w) /\ w_EstimatedTokens w <= budget) /\
  chosen `prefix_of` newest_groups items /\
  (forall g rest, newest_groups items = chosen ++ g :: rest ->
   budget - required < tokens (filter (fun i => in_groups chosen i = true) items) + group_tokens items g).
Proof.
  intros required chosen. split_and!.
  - unfold SlidingWindow_Select. pose proof (required_tokens_spec items 0) as Hr. fold required in Hr. split.
    + intros [w Hw]. destruct (budget <? 0) eqn:E0; [done|]. destruct (required_tokens 0 items) as [n|]; [|done].
      destruct (proj1 (Hr n) eq_refl) as [-> Hall]. simpl in Hw. rewrite Z.add_0_l in Hw.
      destruct (budget <? required) eqn:Eb; [done|]. bool_props. split_and!; [lia|lia|done].
    + intros (H0 & Hb & Hall). rewrite (proj2 (Z.ltb_ge _ _) H0), (proj2 (Hr required)) by (split; [lia|done]). simpl.
      rewrite (proj2 (Z.ltb_ge _ _) Hb). by eexists.
  - intros w Hw. destruct (window_spec _ _ _ Hw) as (_ & H1 & H2 & H3 & H4). fold required chosen in H1, H2.
    split_and!; try done. by rewrite H3.
  - apply fitting_prefix.
  - intros g rest Hg. rewrite tokens_groups by apply NoDup_fitting. by apply (fitting_maximal items _ _ g rest).
Qed.

(** *** The built context *)

Section context.
Context (estimator : Message -> Z).

Definition cost (ms : list Message) : Z := foldr (fun m n => estimate estimator m + n) 0 ms.

Lemma cost_app l k : cost (l ++ k) = cost l + cost k.
Proof. induction l as [|m l IH]; simpl; lia. Qed.

Lemma charge_spec check budget ms : forall used n,
  charge estimator check budget used ms = Ok n -> used <= budget -> n = used + cost ms /\ n <= budget.
Proof.
  induction ms as [|m ms IH]; intros used n; simpl; [intros [= <-] ?; split; lia|].
  destruct (negb _); [done|]. destruct (_ <? _) eqn:E; [done|]. bool_props. intros Hc _.
  apply IH in Hc as [-> ?]; [|lia]. split; lia.
Qed.

Lemma check_records_spec source records : forall previous,
  check_records source previous records = Ok tt -> Forall (fun r => r_Source r = source) records.
Proof.
  induction records as [|r records IH]; intros previous; simpl; [constructor|].
  destruct (bool_decide (r_Source r = source)) eqn:E; [|done]. bool_props. cbn [negb]. destruct (_ || _); [done|].
  intros H. constructor; [done|]. by eapply IH.
Qed.

Lemma fmap_sublist {A B} (f : A -> B) l k : l `sublist_of` k -> f <$> l `sublist_of` f <$> k.
Proof. induction 1; simpl; [constructor|by apply sublist_skip|by apply sublist_cons]. Qed.

(** A transient item is not history and stands for its message. *)
Definition transient_of (history : gset string) (i : WindowItem) (t : TransientMessage) : Prop :=
  r_ID (wi_Record i) ∉ history /\ record_message (wi_Record i) = tm_Message t /\ wi_Required i = tm_Required t /\
  wi_EstimatedTokens i = estimate estimator (record_message (wi_Record i)).

Lemma transient_items_spec source history ts : forall seen n items,
  transient_items estimator source history seen n ts = Ok items -> Forall2 (transient_of history) items ts.
Proof.
  induction ts as [|t ts IH]; intros seen n items; simpl; [intros [= <-]; constructor|].
  destruct (_ || negb _); [done|]. destruct (_ || _) eqn:E; [done|]. apply orb_false_iff in E as [E _]. bool_props.
  destruct (transient_items _ _ _ _ _ _) as [rest|] eqn:Er; simpl; [|done]. intros [= <-]. constructor; [|by eapply IH].
  split_and!; try done. unfold record_message. simpl. by destruct (tm_Message t).
Qed.

Lemma assemble_spec (history : gset string) items : forall a,
  let a' := foldl (assemble_one history) a items in
  let old := filter (fun i => r_ID (wi_Record i) ∈ history) items in
  as_messages a' = as_messages a ++ (record_message ∘ wi_Record <$> old) /\
  as_ids a' = as_ids a ++ (r_ID ∘ wi_Record <$> old) /\
  as_tail a' = as_tail a ++ (record_message ∘ wi_Record <$> filter (fun i => r_ID (wi_Record i) ∉ history) items).
Proof.
  induction items as [|i items IH]; intros a; simpl; [by rewrite !app_nil_r|].
  destruct (IH (assemble_one history a i)) as (I1 & I2 & I3). rewrite I1, I2, I3, !filter_cons. unfold assemble_one.
  destruct (decide (r_ID (wi_Record i) ∈ history)) as [Hin|Hin];
    [rewrite bool_decide_true, (decide_False (P := r_ID (wi_Record i) ∉ history)) by tauto
    |rewrite bool_decide_false, (decide_True (P := r_ID (wi_Record i) ∉ history)) by tauto];
    simpl; by rewrite <- ?app_assoc.
Qed.

Lemma tokens_cost items :
  Forall (fun i => wi_EstimatedTokens i = estimate estimator (record_message (wi_Record i))) items ->
  tokens items = cost (record_message ∘ wi_Record <$> items).
Proof. induction 1 as [|i items H _ IH]; [done|]. rewrite tokens_cons, H, IH. reflexivity. Qed.

Lemma cost_filter (P : WindowItem -> Prop) `{forall i, Decision (P i)} items :
  cost (record_message ∘ wi_Record <$> filter P items) +
  cost (record_message ∘ wi_Record <$> filter (fun i => ~ P i) items) = cost (record_message ∘ wi_Record <$> items).
Proof.
  induction items as [|i items IH]; [done|]. rewrite !filter_cons.
  destruct (decide (P i)) as [HP|HP]; [rewrite decide_False by tauto|rewrite decide_True by tauto];
    rewrite !fmap_cons; cbn [cost foldr]; fold (cost (record_message ∘ wi_Record <$> items)); rewrite <- IH; unfold cost; lia.
Qed.

(** History and transient items of a selection are told apart by their ids. *)
Lemma split_window (keep : WindowItem -> bool) records extra (history : gset string) :
  history = list_to_set (r_ID <$> records) -> Forall (fun i => r_ID (wi_Record i) ∉ history) extra ->
  let sel := filter (fun i => keep i = true) ((record_item estimator <$> records) ++ extra) in
  filter (fun i => r_ID (wi_Record i) ∈ history) sel =
    record_item estimator <$> filter (fun x => keep (record_item estimator x) = true) records /\
  filter (fun i => r_ID (wi_Record i) ∉ history) sel = filter (fun i => keep i = true) extra.
Proof.
  intros Hh Hx. simpl. rewrite !filter_app.
  assert (He : filter (fun i => r_ID (wi_Record i) ∈ history) (filter (fun i => keep i = true) extra) = [] /\
    filter (fun i => r_ID (wi_Record i) ∉ history) (filter (fun i => keep i = true) extra) = filter (fun i => keep i = true) extra).
  { clear Hh. induction Hx as [|i extra Hi _ IH]; [done|]. destruct IH as [IH1 IH2]. rewrite filter_true.
    destruct (keep i); [|done]. rewrite !filter_cons, decide_False, decide_True by done. by rewrite IH1, IH2. }
  assert (Hr : forall rs, (forall x, x ∈ rs -> r_ID x ∈ history) ->
    filter (fun i => r_ID (wi_Record i) ∈ history) (filter (fun i => keep i = true) (record_item estimator <$> rs)) =
      record_item estimator <$> filter (fun x => keep (record_item estimator x) = true) rs /\
    filter (fun i => r_ID (wi_Record i) ∉ history) (filter (fun i => keep i = true) (record_item estimator <$> rs)) = []).
  { intros rs. induction rs as [|x rs IH]; intros Hin; [done|].
    destruct IH as [IH1 IH2]; [intros y Hy; apply Hin; by right|]. rewrite fmap_cons, filter_true.
    rewrite (filter_true (fun x => keep (record_item estimator x))).
    destruct (keep (record_item estimator x)); [|done]. assert (r_ID x ∈ history) by (apply Hin; left).
    rewrite !filter_cons, decide_True, (decide_False (P := _ ∉ _)) by (simpl; tauto). by rewrite IH1, IH2. }
  destruct He as [E1 E2], (Hr records) as [R1 R2]; [intros x Hin; subst history; apply elem_of_list_to_set, list_elem_of_fmap; eauto|].
  rewrite E1, E2, R1, R2. by rewrite app_nil_r.
Qed.

Lemma count_split {A} (f : A -> bool) (l : list A) :
  len (filter (fun x => f x = true) l) + len (filter (fun x => negb (f x) = true) l) = len l.
Proof.
  unfold len. induction l as [|x l IH]; [done|]. rewrite (filter_true f), (filter_true (fun x => negb (f x))).
  destruct (f x); cbn [negb length]; lia.
Qed.

Lemma omitted_history (history : gset string) (items : list WindowItem) :
  filter (fun o => om_ID o ∈ history) (omission <$> items) = omission <$> filter (fun i => r_ID (wi_Record i) ∈ history) items.
Proof.
  induction items as [|i items IH]; [done|]. rewrite fmap_cons, !filter_cons. simpl.
  destruct (decide (r_ID (wi_Record i) ∈ history)); rewrite ?fmap_cons; by rewrite IH.
Qed.

Lemma filter_sublist {A} (P : A -> Prop) `{forall x, Decision (P x)} (l : list A) : filter P l `sublist_of` l.
Proof.
  induction l as [|x l IH]; [done|]. rewrite filter_cons. destruct (decide (P x)); [by apply sublist_skip|by apply sublist_cons].
Qed.

Lemma transient_facts history extra ts :
  Forall2 (transient_of history) extra ts ->
  Forall (fun i => r_ID (wi_Record i) ∉ history) extra /\
  Forall (fun i => wi_EstimatedTokens i = estimate estimator (record_message (wi_Record i))) extra /\
  record_message ∘ wi_Record <$> extra = tm_Message <$> ts /\
  (forall t, t ∈ ts -> exists i, i ∈ extra /\ wi_Required i = tm_Required t /\ record_message (wi_Record i) = tm_Message t).
Proof.
  induction 1 as [|i t extra ts (H1 & H2 & H3 & H4) _ (I1 & I2 & I3 & I4)].
  { split_and!; [constructor|constructor|done|]. intros t Ht. by apply not_elem_of_nil in Ht. }
  split_and!; [by constructor|by constructor| |].
  - rewrite !fmap_cons. f_equal; done.
  - intros t' [->|Ht]%elem_of_cons; [exists i; split; [left|done]|].
    destruct (I4 t' Ht) as (i' & ? & ?). exists i'. split; [by right|done].
Qed.

(** C15: the model's context is bounded, complete where it must be, and of one
    source.  When a context is built: its messages cost what is reported, within
    the budget; it is the system instructions, then history of the source in its
    order, then the required messages, then transient messages; the history is
    that of the requested source and includes every required record; and every
    record of the history is counted as included or as omitted. *)
Theorem context_bounded_and_isolated resolver q r :
  BuildSource estimator SlidingWindow_Select resolver q = Ok r ->
  exists records shown tail,
    resolver (sq_Source q) = Ok (sq_Source q, records) /\ Forall (fun x => r_Source x = sq_Source q) records /\
    cx_Messages r = (instruction <$> sq_SystemInstructions q) ++ (record_message <$> shown) ++ sq_RequiredMessages q ++ tail /\
    md_EstimatedTokens (cx_Metadata r) = cost (cx_Messages r) /\ cost (cx_Messages r) <= sq_TokenBudget q /\
    shown `sublist_of` records /\ (forall x, x ∈ records -> r_Required x = true -> x ∈ shown) /\
    tail `sublist_of` (tm_Message <$> sq_TransientMessages q) /\
    (forall t, t ∈ sq_TransientMessages q -> tm_Required t = true -> tm_Message t ∈ tail) /\
    md_IncludedMessageIDs (cx_Metadata r) = r_ID <$> shown /\
    md_IncludedHistoryMessages (cx_Metadata r) + md_OmittedHistoryMessages (cx_Metadata r) = len records.
Proof.
  unfold BuildSource. destruct (negb (validSource _)); [done|]. destruct (_ <=? 0) eqn:Eb; [done|]. bool_props.
  destruct (resolver (sq_Source q)) as [[src records]|] eqn:Eres; simpl; [|done].
  destruct (bool_decide (src = sq_Source q)) eqn:Es; [|done]. bool_props. subst src. cbn [negb].
  destruct (check_records _ _ _) as [[]|] eqn:Ec; simpl; [|done]. apply check_records_spec in Ec.
  destruct (charge estimator (fun _ => true) _ _ _) as [u1|] eqn:E1; simpl; [|done].
  destruct (charge estimator valid_message _ _ _) as [u2|] eqn:E2; simpl; [|done].
  apply charge_spec in E1 as [-> Hu1]; [|lia]. apply charge_spec in E2 as [-> Hu2]; [|done].
  destruct (negb (forallb _ _)); [done|]. set (history := list_to_set (r_ID <$> records) : gset string).
  destruct (transient_items _ _ _ _ _ _) as [extra|] eqn:Et; simpl; [|done]. apply transient_items_spec, transient_facts in Et as (Hxid & Hxe & Hxm & Hxr).
  set (used := 0 + _ + _) in *.
  destruct (SlidingWindow_Select _ _) as [w|] eqn:Ew; simpl; [|done]. intros [= <-]. cbn [cx_Messages cx_Metadata
    md_EstimatedTokens md_IncludedMessageIDs md_IncludedHistoryMessages md_OmittedHistoryMessages].
  apply window_spec in Ew as (_ & Hi & Ho & Ht & Hle). cbn zeta in *. set (chosen := fitting _ _ _) in *.
  destruct (split_window (kept chosen) records extra history eq_refl Hxid) as [Hold Hnew].
  destruct (split_window (fun i => negb (kept chosen i)) records extra history eq_refl Hxid) as [Homit _].
  set (shown := filter (fun x => kept chosen (record_item estimator x) = true) records) in *.
  set (tailitems := filter (fun i => kept chosen i = true) extra) in *.
  destruct (assemble_spec history (w_Items w) {| as_messages := instruction <$> sq_SystemInstructions q; as_ids := [];
    as_start := None; as_end := None; as_tail := [] |}) as (A1 & A2 & A3).
  rewrite Hi, Hold in A1. rewrite Hi, Hold in A2. rewrite Hi, Hnew in A3. rewrite Hi, A1, A2, A3. cbn [as_messages as_ids as_tail app].
  rewrite <- !list_fmap_compose. change (record_message ∘ wi_Record ∘ record_item estimator) with record_message.
  change (r_ID ∘ wi_Record ∘ record_item estimator) with r_ID.
  assert (Hcost : tokens (w_Items w) = cost (record_message <$> shown) + cost (record_message ∘ wi_Record <$> tailitems)).
  { rewrite tokens_cost, <- (cost_filter (fun i => r_ID (wi_Record i) ∈ history)), Hi, Hold, Hnew, <- list_fmap_compose; [done|].
    rewrite Hi. apply Forall_forall. intros i [_ Hin]%list_elem_of_filter. revert i Hin. apply Forall_forall, Forall_app.
    split; [by apply Forall_fmap, Forall_true|done]. }
  exists records, shown, (record_message ∘ wi_Record <$> tailitems).
  split; [done|]. split; [done|]. split; [by rewrite <- app_assoc|].
  rewrite Ht, <- app_assoc, !cost_app, Hcost. split; [unfold used; lia|]. split; [unfold used in *; lia|].
  split; [apply filter_sublist|]. split_and!.
  - intros x Hin Hreq. apply list_elem_of_filter. split; [|done]. unfold kept. simpl. by rewrite Hreq.
  - rewrite <- Hxm. apply fmap_sublist, filter_sublist.
  - intros t Hin Hreq. destruct (Hxr t Hin) as (i & Hie & Hir & Him). rewrite <- Him.
    apply list_elem_of_fmap. exists i. split; [done|]. apply list_elem_of_filter. split; [|done]. unfold kept.
    by rewrite Hir, Hreq.
  - done.
  - rewrite Ho, omitted_history, Homit. unfold len. rewrite !length_fmap.
    pose proof (count_split (fun x => kept chosen (record_item estimator x)) records) as Hc.
    fold shown in Hc. unfold len in Hc. rewrite <- Hc. done.
Qed.
End context.

(** *** Text and history *)

Lemma RuneCount_step (n : nat) : forall s, (String.length s <= n)%nat -> 0 <= RuneCountInString s <= Z.of_nat (String.length s).
Proof.
  induction n as [|n IH]; intros [|a s] Hs; simpl in Hs; [done|lia|done|].
  assert (H1 := IH s ltac:(lia)). cbn [RuneCountInString String.length].
  destruct (_ || _); [lia|]. destruct s as [|b s]; [simpl in *; lia|].
  assert (H2 := IH s ltac:(simpl in *; lia)). cbn [String.length] in *.
  destruct (second_range _) as [lo hi]. destruct (negb _); [lia|]. destruct (_ <? _); [lia|].
  destruct s as [|c s]; [lia|]. assert (H3 := IH s ltac:(simpl in *; lia)). cbn [String.length] in *.
  destruct (negb _); [lia|]. destruct (_ <? _); [lia|].
  destruct s as [|d s]; [lia|]. assert (H4 := IH s ltac:(simpl in *; lia)). cbn [String.length] in *.
  destruct (negb _); lia.
Qed.

(** The default estimate is positive and within the length of the text. *)
Lemma ApproximateEstimator_bounds m :
  4 <= ApproximateEstimator m <= 4 + (Z.of_nat (String.length (m_Content m)) + 3) / 4.
Proof.
  unfold ApproximateEstimator. pose proof (RuneCount_step (String.length (m_Content m)) (m_Content m) ltac:(lia)).
  split; [|apply Z.add_le_mono_l, Z.div_le_mono; lia]. pose proof (Z.div_pos (RuneCountInString (m_Content m) + 3) 4). lia.
Qed.

Definition history_ok (t : history_table) : Prop := forall k h, t !! k = Some h -> k = (h_SessionID h, h_Sequence h).

#[global] Instance sequence_before_total : Total sequence_before.
Proof. intros a b. unfold sequence_before. lia. Qed.
#[global] Instance sequence_before_trans : Transitive sequence_before.
Proof. intros a b c. unfold sequence_before. lia. Qed.

Lemma elem_of_session_rows t sid h :
  h ∈ session_rows t sid <-> exists k, t !! k = Some h /\ h_SessionID h = sid.
Proof. unfold session_rows. rewrite elem_of_where. by setoid_rewrite same_str_true. Qed.

Lemma foldr_max_ge (l : list HistoryMessage) : forall m0 x, x ∈ l -> h_Sequence x <= foldr (fun x m => Z.max (h_Sequence x) m) m0 l.
Proof.
  induction l as [|y l IH]; intros m0 x Hx; [by apply not_elem_of_nil in Hx|]. simpl.
  apply elem_of_cons in Hx as [->|Hx]; [lia|]. specialize (IH m0 x Hx). lia.
Qed.

Lemma foldr_max_base (l : list HistoryMessage) m0 : m0 <= foldr (fun x m => Z.max (h_Sequence x) m) m0 l.
Proof. induction l; simpl; lia. Qed.

(** Every message of the session comes before the next sequence. *)
Lemma next_sequence_after t sid h : h ∈ session_rows t sid -> h_Sequence h < next_sequence t sid.
Proof.
  unfold next_sequence. destruct (session_rows t sid) as [|x l]; [intros Hh; by apply not_elem_of_nil in Hh|].
  intros [->|Hh]%elem_of_cons; [pose proof (foldr_max_base l (h_Sequence x)); lia|].
  pose proof (foldr_max_ge l (h_Sequence x) h Hh). lia.
Qed.

Lemma insert_messages_spec sid next uuid clock ms : forall t index created t',
  insert_messages t sid next uuid clock index ms = Ok (created, t') -> history_ok t ->
  history_ok t' /\ (forall s, session_rows t' s ≡ₚ (if decide (s = sid) then created else []) ++ session_rows t s) /\
  StronglySorted sequence_before created /\ Forall (fun h => next + index <= h_Sequence h) created /\
  Forall2 (fun h m => h_SessionID h = sid /\ h_TurnID h = nh_TurnID m /\ h_Role h = nh_Role m /\ h_Content h = nh_Content m) created ms.
Proof.
  induction ms as [|m ms IH]; intros t index created t'; simpl.
  { intros [= <- <-] Hok. split_and!; try done; [|constructor..]. intros s. by destruct (decide (s = sid)). }
  destruct (empty_str _); [done|]. destruct (negb _); [done|]. set (h := {| h_ID := uuid index |}).
  destruct (_ || _) eqn:E; [done|]. apply orb_false_iff in E as [E _]. bool_props. apply eq_None_not_Some in E.
  destruct (insert_messages _ _ _ _ _ _ _) as [[rest t1]|] eqn:Er; simpl; [|done]. intros [= <- <-] Hok.
  apply IH in Er as (H1 & H2 & H3 & H4 & H5).
  2: { intros k x [[<- <-]|[_ Hx]]%lookup_insert_Some; [done|by apply Hok]. }
  split_and!; [done| | | |].
  - intros s. rewrite H2. unfold session_rows at 1. rewrite where_rows_insert by done. simpl.
    destruct (decide (s = sid)) as [->|Hne].
    + rewrite (proj2 (same_str_true sid sid)) by done. fold (session_rows t sid). symmetry. apply Permutation_middle.
    + rewrite (proj2 (same_str_false sid s)) by done. done.
  - constructor; [done|]. eapply Forall_impl; [exact H4|]. intros x Hx. unfold sequence_before, h. simpl in *. lia.
  - constructor; [unfold h; simpl; lia|]. eapply Forall_impl; [exact H4|]. intros x Hx. simpl in *. lia.
  - constructor; done.
Qed.

Lemma AppendSessionMessages_ok db t sid uuid clock ms : history_ok t -> history_ok (AppendSessionMessages db t sid uuid clock ms).2.
Proof.
  intros Hok. unfold AppendSessionMessages. destruct (empty_str sid); [done|]. destruct (LoadSession db sid); [|done].
  destruct (insert_messages _ _ _ _ _ _ _) as [[c t1]|] eqn:Ei; [|done]. by apply insert_messages_spec in Ei as [? _].
Qed.

(** A session's history grows at its end.  Messages appended to a session are
    exactly what listing it shows after what it showed before, in the order given
    and with their turn, role and text; the lists of the other sessions do not
    change. *)
Theorem history_appended_in_order db t sid uuid clock ms created t' :
  history_ok t -> AppendSessionMessages db t sid uuid clock ms = (Ok created, t') ->
  history_ok t' /\
  (exists old, ListSessionMessages db t sid = Ok old /\ ListSessionMessages db t' sid = Ok (old ++ created)) /\
  Forall2 (fun h m => h_SessionID h = sid /\ h_TurnID h = nh_TurnID m /\ h_Role h = nh_Role m /\ h_Content h = nh_Content m)
    created ms /\
  (forall s, s <> sid -> ListSessionMessages db t' s = ListSessionMessages db t s).
Proof.
  intros Hok. unfold AppendSessionMessages, ListSessionMessages. destruct (empty_str sid) eqn:Ee; [done|].
  destruct (LoadSession db sid); [|done].
  destruct (insert_messages _ _ _ _ _ _ _) as [[c t1]|] eqn:Ei; [|done]. intros [= -> ->].
  destruct (insert_messages_spec _ _ _ _ _ _ _ _ _ Ei Hok) as (H1 & H2 & H3 & H4 & H5).
  assert (Hanti : forall u s, history_ok u -> forall x y, x ∈ session_rows u s -> y ∈ session_rows u s ->
    sequence_before x y -> sequence_before y x -> x = y).
  { intros u s Hu x y (k & Hk & Hs)%elem_of_session_rows (k' & Hk' & Hs')%elem_of_session_rows A B.
    unfold sequence_before in *. assert (k = k') as <- by (rewrite (Hu _ _ Hk), (Hu _ _ Hk'); f_equal; [congruence|lia]). congruence. }
  split_and!; [done| |done|].
  - eexists. split; [done|]. f_equal. apply (StronglySorted_unique_strong sequence_before).
    + intros x y Hx Hy. rewrite merge_sort_Permutation in Hx. rewrite merge_sort_Permutation in Hy.
      intros A B. apply (Hanti t' sid H1); try done. rewrite H2, decide_True, elem_of_app by done.
      apply elem_of_app in Hy. tauto.
    + apply (StronglySorted_merge_sort _).
    + apply StronglySorted_app_2; [|apply (StronglySorted_merge_sort _)|done]. intros x y Hx Hy.
      rewrite merge_sort_Permutation in Hx. apply next_sequence_after in Hx.
      pose proof (proj1 (Forall_forall _ _) H4 y Hy). unfold sequence_before. simpl in *. lia.
    + rewrite merge_sort_Permutation, H2, decide_True, merge_sort_Permutation by done. apply Permutation_app_comm.
  - intros s Hs. destruct (empty_str s); [done|]. destruct (LoadSession db s); [|done]. f_equal.
    apply (merge_sort_order_free sequence_before); [|by apply Hanti]. by rewrite H2, decide_False.
Qed.

(** What a session's context is made of are messages of that session. *)
Lemma history_records_from source history : forall marks records,
  history_records source history marks = Ok records ->
  Forall (fun r => exists h, h ∈ history /\ h_SessionID h = cs_SourceID source /\ r_ID r = h_ID h /\
                   r_Role r = h_Role h /\ r_Content r = h_Content h) records.
Proof.
  induction history as [|h history IH]; intros [|t marks] records; simpl; try (intros [= <-]; constructor).
  destruct (same_str _ _) eqn:E; [|done]. apply same_str_true in E. cbn [negb].
  destruct (history_records _ _ _) as [rs|] eqn:Er; simpl; [|done]. intros [= <-]. constructor; [exists h; set_solver|].
  eapply Forall_impl; [by eapply IH|]. intros r (x & ? & ?). exists x. set_solver.
Qed.

Lemma session_source_own db t source src records :
  resolve_session db t source = Ok (src, records) ->
  src = source /\ Forall (fun r => exists h, h ∈ session_rows t (cs_SourceID source) /\ r_Content r = h_Content h) records.
Proof.
  unfold resolve_session, ListSessionMessages. destruct (negb _); [done|]. destruct (blank _); [done|].
  destruct (Lookup _ _); [|done]. destruct (empty_str _); [done|]. destruct (LoadSession _ _); [|done].
  destruct (history_records _ _ _) as [rs|] eqn:Er; simpl; [|done]. intros [= <- <-]. split; [done|].
  apply history_records_from in Er. eapply Forall_impl; [exact Er|]. intros r (h & Hh & _ & _ & _ & ?).
  rewrite merge_sort_Permutation in Hh. eauto.
Qed.

(** ** Examples *)

Definition talk_owner : Owner := {| o_Kind := OwnerBody; o_InstanceID := "b" |}.
Definition talk_db : sessions_db := (Create empty_db 5%Z "s1" talk_owner "").2.

Definition turn (id : string) (role : Role) (text : string) : NewHistoryMessage :=
  {| nh_TurnID := id; nh_Role := role; nh_Content := text |}.

Definition talk : history_table :=
  (AppendSessionMessages talk_db ∅ "s1" (fun n => "m" +:+ pretty n) (fun _ => 6%Z)
    [turn "t1" RoleUser "hello"; turn "t1" RoleAssistant "hello you"; turn "t2" RoleUser "how are you?"]).2.

Lemma talk_ok : history_ok talk.
Proof. apply AppendSessionMessages_ok. intros k h. by rewrite lookup_empty. Qed.

Lemma history_appended_in_order_witness :
  exists created t' old, AppendSessionMessages talk_db talk "s1" (fun n => "n" +:+ pretty n) (fun _ => 7%Z)
      [turn "t2" RoleAssistant "well"] = (Ok created, t') /\
    ListSessionMessages talk_db t' "s1" = Ok (old ++ created) /\ length old = 3%nat.
Proof.
  destruct (AppendSessionMessages talk_db talk "s1" (fun n => "n" +:+ pretty n) (fun _ => 7%Z)
    [turn "t2" RoleAssistant "well"]) as [[created|] t'] eqn:E; [|vm_compute in E; discriminate E].
  destruct (history_appended_in_order talk_db talk "s1" (fun n => "n" +:+ pretty n) (fun _ => 7%Z)
    [turn "t2" RoleAssistant "well"] created t' talk_ok E) as (_ & (old & Hold & Hnew) & _).
  exists created, t', old. split; [reflexivity|]. split; [exact Hnew|]. vm_compute in Hold. injection Hold as <-. reflexivity.
Defined.

Definition talk_request : SourceRequest :=
  {| sq_Source := InteractionSessionSource "s1"; sq_TokenBudget := 25; sq_SystemInstructions := ["be kind"];
     sq_RequiredMessages := [{| m_Role := RoleUser; m_Content := "and now?"; m_Provenance := "" |}];
     sq_TransientMessages := [] |}.

(** With 25 tokens only the newest turn of the history fits. *)
Lemma context_bounded_and_isolated_witness :
  exists r, BuildSource ApproximateEstimator SlidingWindow_Select (resolve_session talk_db talk) talk_request = Ok r /\
    md_IncludedMessageIDs (cx_Metadata r) = ["m2"] /\ cost ApproximateEstimator (cx_Messages r) <= 25.
Proof.
  destruct (BuildSource ApproximateEstimator SlidingWindow_Select (resolve_session talk_db talk) talk_request) as [r|] eqn:E;
    [|vm_compute in E; discriminate E].
  destruct (context_bounded_and_isolated ApproximateEstimator (resolve_session talk_db talk) talk_request r E)
    as (records & shown & tail & _ & _ & _ & _ & Hle & _).
  exists r. split; [reflexivity|]. split; [|exact Hle]. vm_compute in E. injection E as <-. reflexivity.
Defined.
