(* ===== verification/Inference.v ===== *)
(** * Inference

    Core/Inference: the token budget of a model (budget.go), tools projected from
    the capabilities of a Body and their names (tools.go), the contract on tool
    metadata in a request (types.go) and the prompt adapter that finds tool calls
    in the text of a provider (tool_provider.go); Core/Config/models.go, the
    named models and the tasks they are assigned to.  Values of a
    [map\[string\]any] are a parameter with the conversions the code uses. *)
From stdpp Require Import pretty.
From S2P Require Import Prelude GoStrings Body.
From stdpp Require Import options.

(** ** The budget of a model *)

Definition DefaultContextTokens : Z := 32768.
Definition DefaultOutputTokens : Z := 1024.
Definition DefaultRequiredOverheadTokens : Z := 256.

Record ModelContextBudget := { ContextTokens : Z; OutputTokens : Z; RequiredOverheadTokens : Z }.

Definition DefaultModelContextBudget : ModelContextBudget :=
  {| ContextTokens := DefaultContextTokens; OutputTokens := DefaultOutputTokens;
     RequiredOverheadTokens := DefaultRequiredOverheadTokens |}.

Inductive inference_error :=
| ErrInvalidContextBudget | ErrMixedToolContext | ErrToolCorrelation | ProviderFailed (text : string).

(** The fields are 64-bit integers and the subtraction wraps around. *)
Definition InputTokens (b : ModelContextBudget) : res inference_error Z :=
  refuse (ContextTokens b <=? 0) || (OutputTokens b <=? 0) || (RequiredOverheadTokens b <? 0)
    with ErrInvalidContextBudget;
  let input := i64 (i64 (ContextTokens b - OutputTokens b) - RequiredOverheadTokens b) in
  refuse input <=? 0 with ErrInvalidContextBudget;
  Ok input.

(** ** Named models *)

Inductive model_error :=
| ErrInvalidModelConfiguration | ErrUnknownModelReference | ErrUnknownInferenceTask | ModelBudget (e : inference_error).

Definition InferenceTaskInteraction := "interaction".
Definition InferenceTaskOrient := "orient".
Definition InferenceTaskPlan := "plan".
Definition InferenceTaskDirectCognition := "direct_cognition".

Record ModelConfiguration := {
  mo_Name : string; mo_Provider : string; mo_Model : string; mo_Endpoint : string; mo_Budget : ModelContextBudget;
}.

Record ModelResolver := {
  defaultModel : string;
  models : gmap string ModelConfiguration;
  tasks : gmap string string;
}.

(** The sections of the configuration that are read, each map in the order in which it is visited. *)
Record InferenceConfig := {
  ic_DefaultModel : string;
  ic_Models : list (string * ModelConfiguration);
  ic_Tasks : list (string * string);
}.

Definition ValidateModelConfiguration (m : ModelConfiguration) : res model_error unit :=
  refuse blank (mo_Name m) || blank (mo_Provider m) || blank (mo_Model m) || blank (mo_Endpoint m)
    with ErrInvalidModelConfiguration;
  match InputTokens (mo_Budget m) with
  | Err e => Err (ModelBudget e)
  | Ok _ => Ok tt
  end.

Definition normalized (name : string) (m : ModelConfiguration) : ModelConfiguration :=
  {| mo_Name := name; mo_Provider := TrimSpace (mo_Provider m); mo_Model := TrimSpace (mo_Model m);
     mo_Endpoint := TrimSpace (mo_Endpoint m);
     mo_Budget := if ContextTokens (mo_Budget m) =? 0
                  then {| ContextTokens := DefaultContextTokens; OutputTokens := OutputTokens (mo_Budget m);
                          RequiredOverheadTokens := RequiredOverheadTokens (mo_Budget m) |}
                  else mo_Budget m |}.

Fixpoint load_models (found : gmap string ModelConfiguration) (l : list (string * ModelConfiguration))
    : res model_error (gmap string ModelConfiguration) :=
  match l with
  | [] => Ok found
  | (name, m) :: rest =>
      refuse blank name || negb (same_str name (TrimSpace name)) with ErrInvalidModelConfiguration;
      try u <- ValidateModelConfiguration (normalized name m);
      load_models (<[name := normalized name m]> found) rest
  end.

Definition validInferenceTask (task : string) : bool :=
  same_str task InferenceTaskInteraction || same_str task InferenceTaskOrient || same_str task InferenceTaskPlan ||
  same_str task InferenceTaskDirectCognition.

Fixpoint load_tasks (ms : gmap string ModelConfiguration) (found : gmap string string) (l : list (string * string))
    : res model_error (gmap string string) :=
  match l with
  | [] => Ok found
  | (task, name) :: rest =>
      refuse negb (validInferenceTask task) with ErrUnknownInferenceTask;
      refuse negb (bool_decide (is_Some (ms !! TrimSpace name))) with ErrUnknownModelReference;
      load_tasks ms (<[task := TrimSpace name]> found) rest
  end.

Definition NewModelResolver (c : InferenceConfig) : res model_error ModelResolver :=
  let default := TrimSpace (ic_DefaultModel c) in
  refuse empty_str default with ErrInvalidModelConfiguration;
  try ms <- load_models ∅ (ic_Models c);
  refuse negb (bool_decide (is_Some (ms !! default))) with ErrUnknownModelReference;
  try ts <- load_tasks ms ∅ (ic_Tasks c);
  Ok {| defaultModel := default; models := ms; tasks := ts |}.

Definition ModelResolver_Resolve (r : ModelResolver) (name : string) : res model_error ModelConfiguration :=
  match models r !! name with
  | Some m => Ok m
  | None => Err ErrUnknownModelReference
  end.

Definition ResolveTask (r : ModelResolver) (task : string) : res model_error ModelConfiguration :=
  refuse negb (validInferenceTask task) with ErrUnknownInferenceTask;
  ModelResolver_Resolve r (default (defaultModel r) (tasks r !! task)).

(** ** Tools *)

(** The schemas in use describe objects with text properties. *)
Inductive InputSchema := ObjectSchema (properties required : list string).

Record Tool := {
  t_Name : string;
  t_Description : string;
  t_InputSchema : option InputSchema;
  t_CapabilityID : string;
  t_OperationID : string;
  t_TargetBodyID : string;
}.

Definition ToolNameDelimiter := "__".

Definition toolName (bodyID capID opID : string) : string := capID +:+ ToolNameDelimiter +:+ opID.

Definition description_of (c : Capability) (op : string) : string :=
  match default ∅ (cap_Metadata c) !! "description" with
  | Some d => if empty_str d then cap_ID c +:+ " / " +:+ op else d
  | None => cap_ID c +:+ " / " +:+ op
  end.

Definition ProjectToolsFromCapabilities (caps : list Capability) (bodyID : string) : list Tool :=
  caps ≫= fun c =>
    if negb (cap_Available c) then []
    else omap (fun op =>
      if empty_str op then None
      else Some {| t_Name := toolName bodyID (cap_ID c) op; t_Description := description_of c op; t_InputSchema := None;
                   t_CapabilityID := cap_ID c; t_OperationID := op; t_TargetBodyID := bodyID |}) (cap_Operations c).

Definition underscore : Ascii.ascii := Ascii.ascii_of_nat 95.

(** The first position of the delimiter, with what precedes and what follows it. *)
Fixpoint findDelimiter (s : string) : option (string * string) :=
  match s with
  | String a ((String b r) as s1) =>
      if Ascii.eqb a underscore && Ascii.eqb b underscore then Some ("", r)
      else match findDelimiter s1 with
           | Some (before, after) => Some (String a before, after)
           | None => None
           end
  | _ => None
  end.

Definition ToolMappingTable (name : string) : option (string * string) :=
  match findDelimiter name with
  | None => None
  | Some (capID, opID) => if empty_str capID || empty_str opID then None else Some (capID, opID)
  end.

(** ** Requests and responses *)

Inductive ToolResultStatus := ToolResultSuccess | ToolResultFailure.

Record ToolExecutionAttempt := { ta_BodyID : string; ta_ExecutionID : string; ta_Status : string; ta_ErrorCode : string }.
Record ToolCandidateRejection := { tj_BodyID : string; tj_Reasons : list string }.
Record ToolError := { te_Code : string; te_Message : string; te_PermissionRequestID : string }.

(** A finite [float64]: a mantissa and a binary exponent. *)
Definition float64 : Type := Z * Z.

Section inference.
Context {Any : Type}.
(** [json.Unmarshal] into a [map\[string\]any]: [None] is an error, [Some None] the nil map of a JSON null. *)
Context (Unmarshal : string -> option (option (gmap string Any))).
(** The [%v] verb on such a map. *)
Context (show_map : gmap string Any -> string).

Record ToolCall := { tc_ID : string; tc_Name : string; tc_Arguments : option (gmap string Any) }.

Record ToolResult := {
  tr_ToolCallID : string;
  tr_ExecutionID : string;
  tr_Status : ToolResultStatus;
  tr_Result : option (gmap string Any);
  tr_Error : option ToolError;
  tr_Attempts : list ToolExecutionAttempt;
  tr_CandidateRejections : list ToolCandidateRejection;
}.

Record InferenceMessage := {
  im_Role : string;
  im_Content : string;
  im_Provenance : string;
  im_Tools : list Tool;
  im_ToolCall : option ToolCall;
  im_ToolResult : option ToolResult;
}.

Record InferenceRequest := {
  ir_Model : string;
  ir_Messages : list InferenceMessage;
  ir_Temperature : float64;
  ir_MaxTokens : Z;
  ir_Purpose : string;
  ir_TurnID : string;
  ir_Tools : list Tool;
  ir_ToolResults : list ToolResult;
}.

Record Response := { rp_Content : string; rp_ToolCalls : list ToolCall; rp_ProviderID : string; rp_TokensUsed : Z }.

Definition bound_message (m : InferenceMessage) : bool :=
  negb (bool_decide (length (im_Tools m) = 0%nat)) || bool_decide (is_Some (im_ToolCall m)) ||
  bool_decide (is_Some (im_ToolResult m)).

Definition uncorrelated (m : InferenceMessage) : bool :=
  match im_ToolCall m, im_ToolResult m with
  | Some c, Some r => negb (same_str (tc_ID c) (tr_ToolCallID r))
  | _, _ => false
  end.

Definition ValidateToolContext (r : InferenceRequest) : res inference_error unit :=
  refuse existsb uncorrelated (ir_Messages r) with ErrToolCorrelation;
  refuse existsb bound_message (ir_Messages r) &&
    (negb (bool_decide (length (ir_Tools r) = 0%nat)) || negb (bool_decide (length (ir_ToolResults r) = 0%nat)))
    with ErrMixedToolContext;
  Ok tt.

(** ** The prompt adapter *)

Definition newline : Ascii.ascii := Ascii.ascii_of_nat 10.

(** [strings.Split] and [strings.Join] on line feeds. *)
Definition split_lines : string -> list string := split_on newline.
Definition join_lines : list string -> string := join_on newline.

Definition HasPrefix (s p : string) : bool := String.prefix p s.
Definition TrimPrefix (s p : string) : string :=
  if HasPrefix s p then String.substring (String.length p) (String.length s - String.length p) s else s.

Definition CALL := "TOOL_CALL:".
Definition ARGUMENTS := "ARGUMENTS:".

Fixpoint skip_blank (lines : list string) : list string :=
  match lines with
  | l :: rest => if blank l then skip_blank rest else lines
  | [] => []
  end.

Fixpoint skip_to_call (lines : list string) : list string :=
  match lines with
  | l :: rest => if HasPrefix (TrimSpace l) CALL then lines else skip_to_call rest
  | [] => []
  end.

Fixpoint json_block (lines : list string) : list string :=
  match lines with
  | l :: rest => if blank l || HasPrefix (TrimSpace l) CALL then [] else l :: json_block rest
  | [] => []
  end.

Definition call_id (index : Z) : string := "tp_call_" +:+ pretty index.

Definition parse_arguments (text : string) : option (gmap string Any) :=
  if empty_str text then None else default None (Unmarshal text).

(** [index] is [callIndex], the number of calls found; each round consumes a line. *)
Fixpoint parse_lines (fuel : nat) (index : Z) (lines : list string) : list ToolCall :=
  match fuel with
  | O => []
  | S fuel =>
      match lines with
      | [] => []
      | l :: rest =>
          let trimmed := TrimSpace l in
          if negb (HasPrefix trimmed CALL) then parse_lines fuel index rest
          else
            let name := TrimSpace (TrimPrefix trimmed CALL) in
            if empty_str name then parse_lines fuel index rest
            else
              let found arguments := {| tc_ID := call_id (index + 1); tc_Name := name; tc_Arguments := arguments |} in
              match skip_blank rest with
              | [] => [found None]
              | next :: after =>
                  let argsLine := TrimSpace next in
                  if negb (HasPrefix argsLine ARGUMENTS)
                  then found None :: parse_lines fuel (index + 1) (next :: after)
                  else
                    let inline := TrimSpace (TrimPrefix argsLine ARGUMENTS) in
                    let argsText := if empty_str inline then TrimSpace (join_lines (json_block after)) else inline in
                    found (parse_arguments argsText) :: parse_lines fuel (index + 1) (skip_to_call after)
              end
      end
  end.

Definition parseToolCallsFromText (content : string) : list ToolCall :=
  parse_lines (length (split_lines content)) 0 (split_lines content).

Definition LF : string := String newline "".

Definition FormatToolsForPrompt (tools : list Tool) : string :=
  match tools with
  | [] => ""
  | _ =>
      "You have these tools available. When you want to use one, respond with exactly:" +:+ LF +:+
      "TOOL_CALL: <tool_name>" +:+ LF +:+ "ARGUMENTS:" +:+ LF +:+ "<JSON arguments>" +:+ LF +:+ LF +:+
      "Available tools:" +:+ LF +:+
      String.concat "" ((fun t => "- " +:+ t_Name t +:+ ": " +:+ t_Description t +:+ LF) <$> tools)
  end.

Definition FormatToolResultForPrompt (r : ToolResult) : string :=
  "Tool result for call " +:+ tr_ToolCallID r +:+ ": " +:+
    match tr_Status r with ToolResultFailure => "FAILURE" | ToolResultSuccess => "SUCCESS" end +:+ LF +:+
  match tr_Result r with Some m => "Result: " +:+ show_map m +:+ LF | None => "" end +:+
  match tr_Error r with Some e => "Error [" +:+ te_Code e +:+ "]: " +:+ te_Message e +:+ LF | None => "" end +:+
  String.concat "" ((fun j => "Candidate " +:+ tj_BodyID j +:+ " rejected: " +:+ String.concat ", " (tj_Reasons j) +:+ LF)
                      <$> tr_CandidateRejections r) +:+
  String.concat "" ((fun a => "Attempt " +:+ ta_ExecutionID a +:+ " on Body " +:+ ta_BodyID a +:+ ": " +:+ ta_Status a +:+
                      (if empty_str (ta_ErrorCode a) then "" else " [" +:+ ta_ErrorCode a +:+ "]") +:+ LF)
                      <$> tr_Attempts r).

Definition prompt_message (text : string) : InferenceMessage :=
  {| im_Role := "system"; im_Content := text; im_Provenance := ""; im_Tools := []; im_ToolCall := None;
     im_ToolResult := None |}.

Definition with_messages (r : InferenceRequest) (ms : list InferenceMessage) : InferenceRequest :=
  {| ir_Model := ir_Model r; ir_Messages := ms; ir_Temperature := ir_Temperature r; ir_MaxTokens := ir_MaxTokens r;
     ir_Purpose := ir_Purpose r; ir_TurnID := ir_TurnID r; ir_Tools := ir_Tools r; ir_ToolResults := ir_ToolResults r |}.

(** An inference backend answers in a world of its own. *)
Definition Provider (World : Type) : Type := InferenceRequest -> World -> res inference_error (option Response) * World.

Definition projected (r : InferenceRequest) : InferenceRequest :=
  with_messages r
    ((if bool_decide (length (ir_Tools r) = 0%nat) then [] else [prompt_message (FormatToolsForPrompt (ir_Tools r))]) ++
     ir_Messages r ++ ((fun tr => prompt_message (FormatToolResultForPrompt tr)) <$> ir_ToolResults r)).

Definition calls_in (resp : Response) : Response :=
  if empty_str (rp_Content resp) then resp
  else match parseToolCallsFromText (rp_Content resp) with
       | [] => resp
       | calls => {| rp_Content := ""; rp_ToolCalls := calls; rp_ProviderID := rp_ProviderID resp;
                     rp_TokensUsed := rp_TokensUsed resp |}
       end.

(** The inner provider does not answer with a nil response and no error. *)
Definition ToolEnabledProvider_Infer {World} (inner : Provider World) : Provider World := fun r w =>
  match ValidateToolContext r with
  | Err e => (Err e, w)
  | Ok _ =>
      if bool_decide (length (ir_Tools r) = 0%nat) && negb (existsb bound_message (ir_Messages r)) then inner r w
      else
        match inner (projected r) w with
        | (Err e, w') => (Err e, w')
        | (Ok resp, w') => (Ok (calls_in <$> resp), w')
        end
  end.

Definition MockProvider_Infer {World} (id text : string) : Provider World := fun r w =>
  match ValidateToolContext r with
  | Err e => (Err e, w)
  | Ok _ => (Ok (Some {| rp_Content := text; rp_ToolCalls := []; rp_ProviderID := id; rp_TokensUsed := len (ir_Messages r) |}), w)
  end.

End inference.
Arguments ToolCall : clear implicits.
Arguments ToolResult : clear implicits.
Arguments InferenceMessage : clear implicits.
Arguments InferenceRequest : clear implicits.
Arguments Response : clear implicits.
Arguments Provider : clear implicits.

(** ** Budgets *)

(** Below 2^62 tokens the capacity left for input is exactly what the reservations leave, and a budget is
    refused if and only if a field is out of range or nothing is left.  Larger reservations wrap around: a budget of
    one token from which 2^64-2 are reserved is accepted. *)
Theorem input_tokens_exact b :
  (ContextTokens b < 2 ^ 62 -> OutputTokens b < 2 ^ 62 -> RequiredOverheadTokens b < 2 ^ 62 ->
   InputTokens b = if decide (0 < ContextTokens b /\ 0 < OutputTokens b /\ 0 <= RequiredOverheadTokens b /\
                              OutputTokens b + RequiredOverheadTokens b < ContextTokens b)
                   then Ok (ContextTokens b - OutputTokens b - RequiredOverheadTokens b)
                   else Err ErrInvalidContextBudget) /\
  InputTokens {| ContextTokens := 1; OutputTokens := 2 ^ 63 - 1; RequiredOverheadTokens := 2 ^ 63 - 1 |} = Ok 3.
Proof.
  split; [|reflexivity]. intros H1 H2 H3. unfold InputTokens.
  destruct ((ContextTokens b <=? 0) || (OutputTokens b <=? 0) || (RequiredOverheadTokens b <? 0)) eqn:E.
  - rewrite decide_False; [done|]. intros (P1 & P2 & P3 & _).
    rewrite !orb_true_iff, !Z.leb_le, Z.ltb_lt in E. lia.
  - bool_props. rewrite (i64_small (_ - OutputTokens b)) by lia. rewrite i64_small by lia.
    case_decide; destruct (_ <=? 0) eqn:E2; bool_props; try done; lia.
Qed.

Lemma InputTokens_positive b n : InputTokens b = Ok n -> 0 < n.
Proof.
  unfold InputTokens. destruct (_ || _); [done|]. destruct (_ <=? 0) eqn:E; [done|]. intros ?. simplify_eq. bool_props. lia.
Qed.

(** ** Models *)

Lemma load_models_spec l : forall found ms,
  load_models found l = Ok ms -> NoDup l.*1 -> (forall name m, (name, m) ∈ l -> found !! name = None) ->
  forall name, ms !! name = match found !! name with
                            | Some m => Some m
                            | None => normalized name <$> (list_to_map l : gmap string ModelConfiguration) !! name
                            end.
Proof.
  induction l as [|[n m] l IH]; intros found ms H Hnd Hf name; simpl in H.
  { simplify_eq. rewrite list_to_map_nil, lookup_empty. by destruct (ms !! name). }
  unfold res_bind in H. case_match; [done|]. destruct (ValidateModelConfiguration _) eqn:Ev; [|done].
  apply NoDup_cons in Hnd as [Hn Hnd]. rewrite (IH _ _ H Hnd).
  2:{ intros n' m' Hin. rewrite lookup_insert_ne; [apply (Hf n' m'); set_solver|].
      intros ->. apply Hn. apply list_elem_of_fmap. by exists (n', m'). }
  rewrite list_to_map_cons. destruct (decide (n = name)) as [->|Hne].
  - rewrite !lookup_insert_eq, (Hf name m) by set_solver. done.
  - by rewrite !lookup_insert_ne.
Qed.

Lemma load_models_valid l : forall found ms,
  load_models found l = Ok ms ->
  (forall name m, found !! name = Some m -> mo_Name m = name /\ ValidateModelConfiguration m = Ok tt) ->
  forall name m, ms !! name = Some m -> mo_Name m = name /\ ValidateModelConfiguration m = Ok tt.
Proof.
  induction l as [|[n m] l IH]; intros found ms H Hf; simpl in H; [by simplify_eq|].
  unfold res_bind in H. case_match; [done|]. destruct (ValidateModelConfiguration _) as [[]|] eqn:Ev; [|done].
  apply (IH _ _ H). intros name m'. rewrite lookup_insert_Some. intros [[<- <-]|[_ ?]]; [done|by apply Hf].
Qed.

(** Whether the models load does not depend on the order in which they are visited. *)
Lemma load_models_ok l found :
  is_ok (load_models found l) =
  forallb (fun e : string * ModelConfiguration =>
    negb (blank e.1 || negb (same_str e.1 (TrimSpace e.1))) && is_ok (ValidateModelConfiguration (normalized e.1 e.2))) l.
Proof.
  revert found. induction l as [|[n m] l IH]; intros found; simpl; [done|].
  destruct (blank n || _); simpl; [done|]. unfold res_bind. destruct (ValidateModelConfiguration _); simpl; [apply IH|done].
Qed.

Lemma load_tasks_spec ms l : forall found ts,
  load_tasks ms found l = Ok ts -> NoDup l.*1 -> (forall task name, (task, name) ∈ l -> found !! task = None) ->
  forall task, ts !! task = match found !! task with
                            | Some n => Some n
                            | None => TrimSpace <$> (list_to_map l : gmap string string) !! task
                            end.
Proof.
  induction l as [|[n m] l IH]; intros found ts H Hnd Hf task; simpl in H.
  { simplify_eq. rewrite list_to_map_nil, lookup_empty. by destruct (ts !! task). }
  case_match; [done|]. case_match; [done|].
  apply NoDup_cons in Hnd as [Hn Hnd]. rewrite (IH _ _ H Hnd).
  2:{ intros n' m' Hin. rewrite lookup_insert_ne; [apply (Hf n' m'); set_solver|].
      intros ->. apply Hn. apply list_elem_of_fmap. by exists (n', m'). }
  rewrite list_to_map_cons. destruct (decide (n = task)) as [->|Hne].
  - rewrite !lookup_insert_eq, (Hf task m) by set_solver. done.
  - by rewrite !lookup_insert_ne.
Qed.

Lemma load_tasks_ok ms l found :
  is_ok (load_tasks ms found l) =
  forallb (fun e : string * string => validInferenceTask e.1 && bool_decide (is_Some (ms !! TrimSpace e.2))) l.
Proof.
  revert found. induction l as [|[n m] l IH]; intros found; simpl; [done|].
  destruct (validInferenceTask n); simpl; [|done]. case_bool_decide; simpl; [apply IH|done].
Qed.

Lemma load_tasks_known ms l : forall found ts,
  load_tasks ms found l = Ok ts -> (forall task n, found !! task = Some n -> is_Some (ms !! n)) ->
  forall task n, ts !! task = Some n -> is_Some (ms !! n).
Proof.
  induction l as [|[t m] l IH]; intros found ts H Hf; simpl in H; [by simplify_eq|].
  case_match; [done|]. case_match; [done|]. bool_props. apply (IH _ _ H). intros task n.
  rewrite lookup_insert_Some. intros [[<- <-]|[_ ?]]; [done|by eapply Hf].
Qed.

Lemma forallb_perm {A} (f : A -> bool) (l l' : list A) : l ≡ₚ l' -> forallb f l = forallb f l'.
Proof. induction 1; simpl; [done|by rewrite IHPermutation|by rewrite !andb_assoc, (andb_comm (f y))|congruence]. Qed.

Lemma load_models_perm l l' ms :
  l ≡ₚ l' -> NoDup l.*1 -> load_models ∅ l = Ok ms -> load_models ∅ l' = Ok ms.
Proof.
  intros Hp Hnd H. pose proof (load_models_ok l' ∅) as Hok. rewrite <- (forallb_perm _ _ _ Hp), <- (load_models_ok l ∅), H in Hok.
  destruct (load_models ∅ l') as [ms'|] eqn:E; [|done]. f_equal. apply map_eq. intros name.
  assert (Hnd' : NoDup l'.*1) by (by rewrite <- Hp).
  rewrite (load_models_spec _ _ _ E Hnd'), (load_models_spec _ _ _ H Hnd) by (intros; apply lookup_empty).
  by rewrite (list_to_map_proper l l').
Qed.

Lemma load_tasks_perm ms l l' ts :
  l ≡ₚ l' -> NoDup l.*1 -> load_tasks ms ∅ l = Ok ts -> load_tasks ms ∅ l' = Ok ts.
Proof.
  intros Hp Hnd H. pose proof (load_tasks_ok ms l' ∅) as Hok. rewrite <- (forallb_perm _ _ _ Hp), <- (load_tasks_ok ms l ∅), H in Hok.
  destruct (load_tasks ms ∅ l') as [ts'|] eqn:E; [|done]. f_equal. apply map_eq. intros name.
  assert (Hnd' : NoDup l'.*1) by (by rewrite <- Hp).
  rewrite (load_tasks_spec _ _ _ _ E Hnd'), (load_tasks_spec _ _ _ _ H Hnd) by (intros; apply lookup_empty).
  by rewrite (list_to_map_proper l l').
Qed.

(** Once the configuration of models is accepted, every known task resolves, whatever the order in which its maps
    are visited: to the model it is assigned, else to the default one, in normalized form, complete and with room for
    input; an unknown task does not resolve. *)
Theorem model_resolution_total c r task :
  NewModelResolver c = Ok r -> NoDup (ic_Models c).*1 -> NoDup (ic_Tasks c).*1 ->
  (forall ms ts, ms ≡ₚ ic_Models c -> ts ≡ₚ ic_Tasks c ->
     NewModelResolver {| ic_DefaultModel := ic_DefaultModel c; ic_Models := ms; ic_Tasks := ts |} = Ok r) /\
  if validInferenceTask task then
    exists m raw,
      let name := TrimSpace (default (ic_DefaultModel c) ((list_to_map (ic_Tasks c) : gmap string string) !! task)) in
      ResolveTask r task = Ok m /\ (name, raw) ∈ ic_Models c /\ m = normalized name raw /\
      ValidateModelConfiguration m = Ok tt /\ exists n, InputTokens (mo_Budget m) = Ok n /\ 0 < n
  else ResolveTask r task = Err ErrUnknownInferenceTask.
Proof.
  intros H Hnm Hnt. unfold NewModelResolver, res_bind in H. destruct (empty_str _) eqn:Ee; [done|].
  destruct (load_models ∅ _) as [ms|] eqn:Em; [|done]. destruct (negb _) eqn:Ed; [done|].
  destruct (load_tasks ms ∅ _) as [ts|] eqn:Et; [|done]. simplify_eq. split.
  - intros ms' ts' Hm Ht. unfold NewModelResolver, res_bind. simpl. rewrite Ee.
    rewrite (load_models_perm _ ms' _ (symmetry Hm) Hnm Em), Ed. by rewrite (load_tasks_perm _ _ ts' _ (symmetry Ht) Hnt Et).
  - unfold ResolveTask, ModelResolver_Resolve. simpl. destruct (validInferenceTask task); [|done]. simpl.
    apply negb_false_iff, bool_decide_eq_true in Ed.
    rewrite (load_tasks_spec _ _ _ _ Et Hnt) by (intros; apply lookup_empty). rewrite lookup_empty.
    set (name := TrimSpace (default _ _)).
    assert (Hname : default (TrimSpace (ic_DefaultModel c)) (TrimSpace <$> (list_to_map (ic_Tasks c) : gmap string string) !! task) = name).
    { unfold name. by destruct (_ !! task). }
    rewrite Hname. assert (Hs : is_Some (ms !! name)).
    { rewrite <- Hname. destruct (_ !! task) as [n|] eqn:En; simpl; [|done].
      eapply (load_tasks_known ms _ _ _ Et); [intros ??; by rewrite lookup_empty|].
      rewrite (load_tasks_spec _ _ _ _ Et Hnt) by (intros; apply lookup_empty). rewrite lookup_empty, En. done. }
    destruct Hs as [m Hm]. rewrite Hm.
    destruct (load_models_valid _ _ _ Em ltac:(intros ??; by rewrite lookup_empty) _ _ Hm) as [Hn Hv].
    rewrite (load_models_spec _ _ _ Em Hnm) in Hm by (intros; apply lookup_empty). rewrite lookup_empty in Hm.
    apply fmap_Some in Hm as (raw & Hraw & ->). apply elem_of_list_to_map in Hraw; [|done].
    exists (normalized name raw), raw. split_and!; try done.
    unfold ValidateModelConfiguration in Hv. case_match; [done|].
    destruct (InputTokens _) as [n|] eqn:Ei; [|done]. exists n. split; [done|]. by apply InputTokens_positive in Ei.
Qed.

(** ** The names of tools *)

Lemma str_app_assoc (s t u : string) : (s +:+ t) +:+ u = s +:+ (t +:+ u).
Proof. induction s as [|c s IH]; [done|]. exact (f_equal (String c) IH). Qed.

Lemma find_delimiter_cons a b s :
  findDelimiter (String a (String b s)) =
  if Ascii.eqb a underscore && Ascii.eqb b underscore then Some ("", s)
  else match findDelimiter (String b s) with
       | Some (before, after) => Some (String a before, after)
       | None => None
       end.
Proof. done. Qed.

Lemma find_delimiter_app s t :
  findDelimiter (s +:+ String underscore (String underscore t)) =
  match findDelimiter (s +:+ String underscore "") with
  | None => Some (s, t)
  | Some (before, after) => Some (before, after +:+ String underscore t)
  end.
Proof.
  induction s as [|a s IH]; [done|]. destruct s as [|b s].
  - simpl. destruct (Ascii.eqb a underscore); done.
  - assert (Hc : forall c x y, String c x +:+ y = String c (x +:+ y)) by done. rewrite !Hc, !find_delimiter_cons.
    rewrite !Hc in IH. destruct (Ascii.eqb a underscore && Ascii.eqb b underscore); [by rewrite str_app_assoc|].
    rewrite IH. destruct (findDelimiter (String b (s +:+ String underscore ""))) as [[??]|]; done.
Qed.

Lemma find_delimiter_length s : forall x y,
  findDelimiter s = Some (x, y) -> (String.length s = String.length x + 2 + String.length y)%nat.
Proof.
  induction s as [|a s IH]; intros x y H; [done|]. destruct s as [|b s]; [done|]. rewrite find_delimiter_cons in H.
  destruct (_ && _); [by simplify_eq|]. destruct (findDelimiter _) as [[u v]|] eqn:E; [|done].
  simplify_eq. specialize (IH u y eq_refl). simpl in *. lia.
Qed.

(** A tool name gives its capability and operation back exactly when both are non-empty and the delimiter does not
    begin inside the capability; otherwise two different operations can share a name. *)
Theorem tool_name_roundtrip bodyID capID opID :
  (ToolMappingTable (toolName bodyID capID opID) = Some (capID, opID) <->
   capID <> "" /\ opID <> "" /\ findDelimiter (capID +:+ "_") = None) /\
  toolName bodyID "a" "b__c" = toolName bodyID "a__b" "c".
Proof.
  split; [|done]. unfold ToolMappingTable, toolName, ToolNameDelimiter.
  change ("__" +:+ opID) with (String underscore (String underscore opID)).
  rewrite find_delimiter_app. change (String underscore "") with "_".
  destruct (findDelimiter (capID +:+ "_")) as [[x y]|] eqn:E.
  - split; [|naive_solver]. case_match; [done|]. intros ?. simplify_eq. exfalso.
    apply (f_equal String.length) in H1. rewrite str_length_app in H1. simpl in H1.
    pose proof (find_delimiter_length _ _ _ E) as Hl. rewrite str_length_app in Hl. simpl in Hl. lia.
  - case_match; rewrite ?orb_true_iff, ?orb_false_iff, ?empty_str_true, ?empty_str_false in *; naive_solver.
Qed.

(** ** Tool calls in text *)

(** A text whose first and last characters are visible ASCII characters. *)
Definition visible (c : Ascii.ascii) : bool := (32 <? code c) && (code c <? 127).

Definition solid (s : string) : bool :=
  match s, String.rev s with
  | String c _, String d _ => visible c && visible d
  | _, _ => false
  end.

Definition one_line (s : string) : bool := without newline s.

Lemma visible_space c : visible c = true -> space1 c = false.
Proof.
  unfold visible, space1. intros H. bool_props.
  destruct (9 <=? code c) eqn:?, (code c <=? 13) eqn:?, (code c =? 32) eqn:?; bool_props; simpl; try done; lia.
Qed.

Lemma trim_visible (f2 : Ascii.ascii -> Ascii.ascii -> bool) f3 c s :
  visible c = true -> (forall b, f2 c b = false) -> (forall a b, f3 c a b = false) ->
  trim_with f2 f3 (String c s) = String c s.
Proof.
  intros H H2 H3. cbn [trim_with]. rewrite (visible_space _ H). destruct s as [|b s]; [done|]. rewrite H2.
  destruct s as [|d s]; [done|]. by rewrite H3.
Qed.

Ltac byte_range c :=
  unfold space2, space3, visible in *; bool_props;
  repeat match goal with |- context [code c =? ?n] => rewrite (proj2 (Z.eqb_neq (code c) n)) by lia end;
  repeat match goal with |- context [?n <=? code c] => destruct (n <=? code c) eqn:?; bool_props end;
  try lia; rewrite ?andb_false_r, ?orb_false_r; try done.

Lemma trim_front c s : visible c = true -> trim_with space2 space3 (String c s) = String c s.
Proof. intros H. apply trim_visible; [done|intros b; byte_range c|intros a b; byte_range c]. Qed.

Lemma trim_back c s :
  visible c = true ->
  trim_with (fun b a => space2 a b) (fun c b a => space3 a b c) (String c s) = String c s.
Proof. intros H. apply trim_visible; [done|intros b; byte_range c|intros a b; byte_range c]. Qed.

Lemma TrimSpace_solid s : solid s = true -> TrimSpace s = s.
Proof.
  unfold solid, TrimSpace. destruct s as [|c s]; [done|]. destruct (String.rev (String c s)) as [|d t] eqn:E; [done|].
  intros H. bool_props. by rewrite trim_front, E, trim_back, <- E, rev_involutive_string.
Qed.

Lemma TrimSpace_space s : TrimSpace (" " +:+ s) = TrimSpace s.
Proof. done. Qed.

Lemma solid_spec s :
  solid s = true <->
  exists c t d u, s = String c t /\ String.rev s = String d u /\ visible c = true /\ visible d = true.
Proof.
  unfold solid. split.
  - destruct s as [|c t]; [done|]. destruct (String.rev _) as [|d u]; [done|]. intros H. bool_props. naive_solver.
  - intros (c & t & d & u & -> & -> & -> & ->). done.
Qed.

Lemma solid_app p s c q : p = String c q -> visible c = true -> solid s = true -> solid (p +:+ s) = true.
Proof.
  intros -> Hc (c' & t & d & u & Hs & Hr & _ & Hd)%solid_spec. apply solid_spec.
  exists c, (q +:+ s), d, (u +:+ String.rev (String c q)). split_and!; [done| |done..]. rewrite rev_app_string, Hr. done.
Qed.

Lemma solid_not_blank s : solid s = true -> blank s = false.
Proof. intros H. unfold blank. rewrite TrimSpace_solid by done. by destruct s. Qed.

Lemma has_prefix_app p s : HasPrefix (p +:+ s) p = true.
Proof.
  unfold HasPrefix. induction p as [|c p IH]; [by destruct s|].
  change (String.prefix (String c p) (String c (p +:+ s)) = true). simpl. destruct (Ascii.ascii_dec c c); [exact IH|done].
Qed.

Lemma trim_prefix_app p s : TrimPrefix (p +:+ s) p = s.
Proof.
  unfold TrimPrefix. rewrite has_prefix_app, str_length_app.
  replace (String.length p + String.length s - String.length p)%nat with (String.length s) by lia.
  induction p as [|c p IH]; [|exact IH].
  change (String.substring 0 (String.length s) s = s). induction s as [|c s IH]; [done|]. simpl. by rewrite IH.
Qed.

Section parsing.
Context {Any : Type} (Unmarshal : string -> option (option (gmap string Any))).

(** The format the adapter asks for: a call and its arguments on one line each. *)
Definition call_lines (e : string * string) : list string := ["TOOL_CALL: " +:+ e.1; ARGUMENTS; e.2].
Definition call_text (pre : list string) (es : list (string * string)) : string := join_lines (pre ++ (es ≫= call_lines)).
Definition plain (e : string * string) : bool :=
  solid e.1 && one_line e.1 && solid e.2 && one_line e.2 && negb (HasPrefix e.2 CALL).
Definition ignored (l : string) : bool := one_line l && negb (HasPrefix (TrimSpace l) CALL).

Definition numbered (index : Z) (es : list (string * string)) : list (ToolCall Any) :=
  imap (fun i e => {| tc_ID := call_id (index + Z.of_nat i + 1); tc_Name := e.1;
                      tc_Arguments := default None (Unmarshal e.2) |}) es.

Lemma call_line_trim e : solid e = true -> TrimSpace ("TOOL_CALL: " +:+ e) = CALL +:+ (" " +:+ e).
Proof. intros H. rewrite TrimSpace_solid; [done|]. by eapply solid_app. Qed.

Lemma calls_parse es : forall fuel index,
  forallb plain es = true -> (length (es ≫= call_lines) <= fuel)%nat ->
  parse_lines Unmarshal fuel index (es ≫= call_lines) = numbered index es.
Proof.
  induction es as [|e es IH]; intros fuel index Hp Hf; [by destruct fuel|].
  cbn [forallb] in Hp. apply andb_true_iff in Hp as [Hp Hps]. unfold plain in Hp. bool_props.
  destruct fuel as [|fuel]; [simpl in Hf; lia|]. rewrite bind_cons. cbn [call_lines app parse_lines].
  rewrite call_line_trim by done. rewrite has_prefix_app, trim_prefix_app, TrimSpace_space, (TrimSpace_solid e.1) by done.
  cbn [negb]. rewrite (proj2 (empty_str_false e.1)) by (intros Hz; rewrite Hz in *; done).
  change (skip_blank (ARGUMENTS :: ?x)) with (ARGUMENTS :: x). cbv iota.
  change (TrimSpace ARGUMENTS) with ARGUMENTS. change (HasPrefix ARGUMENTS ARGUMENTS) with true.
  change (TrimSpace (TrimPrefix ARGUMENTS ARGUMENTS)) with "". cbn [negb empty_str].
  change (empty_str "") with true. cbv iota.
  assert (Hj : json_block (e.2 :: (es ≫= call_lines)) = [e.2]).
  { cbn [json_block]. rewrite solid_not_blank, TrimSpace_solid by done. rewrite H0. cbn [orb]. f_equal.
    destruct es as [|e' es]; [done|]. cbn [forallb] in Hps. apply andb_true_iff in Hps as [Hp' _]. unfold plain in Hp'.
    bool_props. rewrite bind_cons. cbn [call_lines app json_block]. rewrite call_line_trim, has_prefix_app by done.
    by rewrite orb_true_r. }
  assert (Hs : skip_to_call (e.2 :: (es ≫= call_lines)) = es ≫= call_lines).
  { cbn [skip_to_call]. rewrite TrimSpace_solid, H0 by done.
    destruct es as [|e' es]; [done|]. cbn [forallb] in Hps. apply andb_true_iff in Hps as [Hp' _]. unfold plain in Hp'.
    bool_props. rewrite bind_cons. cbn [call_lines app skip_to_call]. by rewrite call_line_trim, has_prefix_app. }
  rewrite Hj, Hs. unfold join_lines. cbn [join_on]. rewrite TrimSpace_solid by done. rewrite IH; [|done|rewrite bind_cons, length_app in Hf; simpl in Hf; lia].
  unfold numbered. cbn [imap]. f_equal.
  - unfold parse_arguments. rewrite (proj2 (empty_str_false e.2)); [by rewrite Z.add_0_r|]. intros Hz. by rewrite Hz in *.
  - apply imap_ext. intros i x _. simpl. do 2 f_equal. lia.
Qed.

Lemma ignored_parse pre : forall ls fuel index,
  forallb ignored pre = true -> (length (pre ++ ls) <= fuel)%nat ->
  parse_lines Unmarshal fuel index (pre ++ ls) = parse_lines Unmarshal (fuel - length pre) index ls.
Proof.
  induction pre as [|l pre IH]; intros ls fuel index H Hf; [simpl; f_equal; lia|].
  cbn [forallb] in H. apply andb_true_iff in H as [Hl H]. unfold ignored in Hl. bool_props.
  destruct fuel as [|fuel]; [simpl in Hf; lia|]. cbn [app parse_lines length]. rewrite H1. cbn [negb].
  rewrite IH by (simpl in Hf; first [done|lia]). f_equal.
Qed.

(** A reply written in the format the adapter asks for, with any other text before it, is read back as exactly its
    calls: in order, numbered from one, each with its name and its decoded arguments. *)
Theorem tool_calls_read_back pre es :
  forallb ignored pre = true -> forallb plain es = true ->
  parseToolCallsFromText Unmarshal (call_text pre es) = numbered 0 es.
Proof.
  intros Hpre Hes. unfold parseToolCallsFromText, call_text.
  destruct (decide (pre ++ (es ≫= call_lines) = [])) as [Hn|Hn].
  { rewrite Hn. apply app_eq_nil in Hn as [_ Hn]. by destruct es. }
  unfold split_lines, join_lines. rewrite split_on_join; [|done|].
  - rewrite ignored_parse, calls_parse by (first [done|rewrite length_app; lia]). done.
  - rewrite forallb_app. apply andb_true_iff. split.
    + apply forallb_forall. intros l Hl. apply (proj1 (forallb_forall _ _) Hpre) in Hl. unfold ignored in Hl. by bool_props.
    + clear -Hes. induction es as [|e es IH]; [done|]. cbn [forallb] in Hes. apply andb_true_iff in Hes as [He Hes].
      rewrite bind_cons, forallb_app, IH by done. unfold plain in He. rewrite !andb_true_iff in He.
      destruct He as [[[[_ He1] _] He2] _]. cbn [call_lines forallb]. unfold one_line in *. by rewrite without_app, He1, He2.
Qed.

End parsing.

(** ** Witnesses *)

Lemma input_tokens_exact_witness : InputTokens DefaultModelContextBudget = Ok 31488.
Proof.
  rewrite (proj1 (input_tokens_exact DefaultModelContextBudget)) by (vm_compute; reflexivity).
  rewrite decide_True by (vm_compute; intuition congruence). reflexivity.
Defined.

Definition two_models : InferenceConfig :=
  {| ic_DefaultModel := " small"; ic_Models := [
       ("small", {| mo_Name := ""; mo_Provider := "mock"; mo_Model := "m"; mo_Endpoint := "local";
                    mo_Budget := {| ContextTokens := 0; OutputTokens := 100; RequiredOverheadTokens := 0 |} |});
       ("large", {| mo_Name := ""; mo_Provider := "mock"; mo_Model := " l "; mo_Endpoint := "local";
                    mo_Budget := DefaultModelContextBudget |})];
     ic_Tasks := [("plan", "large")] |}.

Lemma model_resolution_total_witness :
  exists r m, NewModelResolver two_models = Ok r /\ ResolveTask r "plan" = Ok m /\ mo_Model m = "l" /\
    match ResolveTask r "orient" with Ok m' => is_ok (InputTokens (mo_Budget m')) | Err _ => false end = true.
Proof.
  destruct (NewModelResolver two_models) as [r|] eqn:E; [|vm_compute in E; congruence].
  assert (N1 : NoDup (ic_Models two_models).*1) by (apply (bool_decide_unpack _); vm_compute; exact I).
  assert (N2 : NoDup (ic_Tasks two_models).*1) by (apply (bool_decide_unpack _); vm_compute; exact I).
  destruct (proj2 (model_resolution_total two_models r "plan" E N1 N2)) as (m & raw & Hr & _).
  exists r, m. split; [reflexivity|]. split; [exact Hr|]. vm_compute in E. apply Ok_inj in E. subst r.
  vm_compute in Hr. apply Ok_inj in Hr. subst m. split; vm_compute; reflexivity.
Defined.

Lemma tool_calls_read_back_witness :
  parseToolCallsFromText (Any := nat) (fun _ => Some None)
    (call_text ["I will look."; ""] [("runtime.info__read", "{}"); ("camera__capture", "{}")]) =
  [{| tc_ID := "tp_call_1"; tc_Name := "runtime.info__read"; tc_Arguments := None |};
   {| tc_ID := "tp_call_2"; tc_Name := "camera__capture"; tc_Arguments := None |}].
Proof. rewrite tool_calls_read_back by (vm_compute; reflexivity). vm_compute. reflexivity. Defined.
