(* ===== verification/CognitiveExecution.v ===== *)
(** * The inference loop

    Core/CognitiveExecution/executor.go: an execution builds its context, asks the
    provider, runs the tools it requests and starts over, until the provider
    gives a final answer.  The provider, the context builder and the tool
    executor are interfaces of the source; each acts on a shared world.  The loop
    takes fuel, one unit per round; [execute_bounded] shows that the limit on tool
    calls plus one is enough for every execution. *)
From S2P Require Import Prelude Inference.
From stdpp Require Import options.

Definition DefaultToolCallLimit : Z := 10.

Inductive execution_error :=
| MissingParts | ModelInvalid (e : model_error) | ModelBudgetInvalid (e : inference_error) | ExecutionCancelled
| ContextFailed (text : string) | InferenceFailed (e : inference_error) | NilResponse | NoToolExecutor
| ToolCallLimitExceeded (limit : Z) | OutOfFuel.

Record ToolCorrelation := {
  tk_SessionID : string; tk_TurnID : string; tk_CognitiveRunID : string; tk_IntentionID : string;
}.

Section execution.
Context {Any World : Type}.

Record ToolExchange := { ex_Call : ToolCall Any; ex_Result : ToolResult Any; ex_Required : bool }.

Record ContextState := { cs_InputTokenBudget : Z; cs_Tools : list Tool; cs_Exchanges : list ToolExchange }.

Definition ContextBuilder : Type := ContextState -> World -> res string (list (InferenceMessage Any)) * World.

(** [ExecuteCorrelatedCall] is there when the executor is a [CorrelatedToolExecutor]. *)
Record ToolExecutor := {
  Tools : World -> list Tool;
  ExecuteCall : ToolCall Any -> option Tool -> World -> ToolResult Any * World;
  ExecuteCorrelatedCall : option (ToolCorrelation -> ToolCall Any -> option Tool -> World -> ToolResult Any * World);
}.

Record Request := {
  rq_Provider : option (Provider Any World);
  rq_ModelConfiguration : ModelConfiguration;
  rq_Purpose : string;
  rq_Temperature : float64;
  rq_TurnID : string;
  rq_SessionID : string;
  rq_CognitiveRunID : string;
  rq_IntentionID : string;
  rq_BuildContext : option ContextBuilder;
  rq_ToolExecutor : option ToolExecutor;
  rq_MaxToolCalls : Z;
}.

Record Result := { rs_Response : Response Any; rs_Exchanges : list ToolExchange }.

(** [ctx.Err() != nil]. *)
Context (cancelled : World -> bool).

Definition limit_of (r : Request) : Z := if rq_MaxToolCalls r <=? 0 then DefaultToolCallLimit else rq_MaxToolCalls r.

(** A later tool of the same name replaces an earlier one. *)
Definition tool_map (tools : list Tool) : gmap string Tool := foldl (fun m t => <[t_Name t := t]> m) ∅ tools.

Definition presented (e : ToolExchange) : ToolExchange :=
  {| ex_Call := ex_Call e; ex_Result := ex_Result e; ex_Required := false |}.

Definition inference_request (r : Request) (messages : list (InferenceMessage Any)) : InferenceRequest Any :=
  {| ir_Model := mo_Model (rq_ModelConfiguration r); ir_Messages := messages; ir_Temperature := rq_Temperature r;
     ir_MaxTokens := OutputTokens (mo_Budget (rq_ModelConfiguration r)); ir_Purpose := rq_Purpose r;
     ir_TurnID := rq_TurnID r; ir_Tools := []; ir_ToolResults := [] |}.

Definition correlation_of (r : Request) : ToolCorrelation :=
  {| tk_SessionID := rq_SessionID r; tk_TurnID := rq_TurnID r; tk_CognitiveRunID := rq_CognitiveRunID r;
     tk_IntentionID := rq_IntentionID r |}.

Definition execute_one (r : Request) (x : ToolExecutor) (tools : list Tool) (call : ToolCall Any) (w : World)
    : ToolResult Any * World :=
  match ExecuteCorrelatedCall x with
  | Some execute => execute (correlation_of r) call (tool_map tools !! tc_Name call) w
  | None => ExecuteCall x call (tool_map tools !! tc_Name call) w
  end.

Fixpoint run_calls (r : Request) (x : ToolExecutor) (tools : list Tool) (callCount : Z) (exchanges : list ToolExchange)
    (calls : list (ToolCall Any)) (w : World) : res execution_error (Z * list ToolExchange) * World :=
  match calls with
  | [] => (Ok (callCount, exchanges), w)
  | call :: rest =>
      if limit_of r <? callCount + 1 then (Err (ToolCallLimitExceeded (limit_of r)), w)
      else
        let '(result, w1) := execute_one r x tools call w in
        run_calls r x tools (callCount + 1)
          (exchanges ++ [{| ex_Call := call; ex_Result := result; ex_Required := true |}]) rest w1
  end.

(** One round of the loop: a result, or the state in which the next round starts. *)
Inductive round_outcome := Returns (o : res execution_error Result) | Continues (callCount : Z) (exchanges : list ToolExchange).

Definition round (r : Request) (provider : Provider Any World) (build : ContextBuilder) (budget : Z) (tools : list Tool)
    (callCount : Z) (exchanges : list ToolExchange) (w : World) : round_outcome * World :=
  if cancelled w then (Returns (Err ExecutionCancelled), w)
  else
    match build {| cs_InputTokenBudget := budget; cs_Tools := tools; cs_Exchanges := exchanges |} w with
    | (Err text, w1) => (Returns (Err (ContextFailed text)), w1)
    | (Ok messages, w1) =>
        match provider (inference_request r messages) w1 with
        | (Err e, w2) => (Returns (Err (InferenceFailed e)), w2)
        | (Ok None, w2) => (Returns (Err NilResponse), w2)
        | (Ok (Some response), w2) =>
            match rp_ToolCalls response with
            | [] => (Returns (Ok {| rs_Response := response; rs_Exchanges := presented <$> exchanges |}), w2)
            | calls =>
                match rq_ToolExecutor r with
                | None => (Returns (Err NoToolExecutor), w2)
                | Some x =>
                    match run_calls r x tools callCount (presented <$> exchanges) calls w2 with
                    | (Err e, w3) => (Returns (Err e), w3)
                    | (Ok (n, exs), w3) => (Continues n exs, w3)
                    end
                end
            end
        end
    end.

Fixpoint rounds (fuel : nat) (r : Request) (provider : Provider Any World) (build : ContextBuilder) (budget : Z)
    (tools : list Tool) (callCount : Z) (exchanges : list ToolExchange) (w : World) : res execution_error Result * World :=
  match fuel with
  | O => (Err OutOfFuel, w)
  | S fuel =>
      match round r provider build budget tools callCount exchanges w with
      | (Returns o, w') => (o, w')
      | (Continues n exs, w') => rounds fuel r provider build budget tools n exs w'
      end
  end.

Definition Execute (fuel : nat) (r : Request) (w : World) : res execution_error Result * World :=
  match rq_Provider r, rq_BuildContext r with
  | Some provider, Some build =>
      match ValidateModelConfiguration (rq_ModelConfiguration r) with
      | Err e => (Err (ModelInvalid e), w)
      | Ok _ =>
          match InputTokens (mo_Budget (rq_ModelConfiguration r)) with
          | Err e => (Err (ModelBudgetInvalid e), w)
          | Ok budget =>
              let tools := match rq_ToolExecutor r with Some x => Tools x w | None => [] end in
              rounds fuel r provider build budget tools 0 [] w
          end
      end
  | _, _ => (Err MissingParts, w)
  end.

Definition enough (r : Request) : nat := S (Z.to_nat (limit_of r)).

(** ** Tool metadata in messages *)

(** [json.Marshal] of a call, and the text of a result. *)
Context (marshal_call : ToolCall Any -> option string) (show_result : ToolResult Any -> string).

Definition FormatToolExchange (e : ToolExchange) : option string :=
  (fun encoded => "Tool call:" +:+ LF +:+ encoded +:+ LF +:+ show_result (ex_Result e)) <$> marshal_call (ex_Call e).

Definition with_tools (m : InferenceMessage Any) (tools : list Tool) : InferenceMessage Any :=
  {| im_Role := im_Role m; im_Content := im_Content m; im_Provenance := im_Provenance m; im_Tools := tools;
     im_ToolCall := im_ToolCall m; im_ToolResult := im_ToolResult m |}.

Definition with_exchange (m : InferenceMessage Any) (e : ToolExchange) : InferenceMessage Any :=
  {| im_Role := im_Role m; im_Content := im_Content m; im_Provenance := im_Provenance m; im_Tools := im_Tools m;
     im_ToolCall := Some (ex_Call e); im_ToolResult := Some (ex_Result e) |}.

Fixpoint attach_tools (tools : list Tool) (messages : list (InferenceMessage Any)) : list (InferenceMessage Any) :=
  match messages with
  | [] => []
  | m :: rest => if same_str (im_Role m) "system" then with_tools m tools :: rest else m :: attach_tools tools rest
  end.

Inductive bind_error := MarshalFailed | ExchangeMissing.

(** The first unused exchange with this text; [used] says which are taken. *)
Fixpoint match_exchange (content : string) (index : nat) (used : list bool) (exchanges : list ToolExchange)
    : res bind_error (nat * ToolExchange) :=
  match exchanges with
  | [] => Err ExchangeMissing
  | e :: rest =>
      if default false (used !! index) then match_exchange content (S index) used rest
      else match FormatToolExchange e with
           | None => Err MarshalFailed
           | Some text => if same_str text content then Ok (index, e) else match_exchange content (S index) used rest
           end
  end.

(** Messages are changed in place: those before the one that fails keep their metadata. *)
Fixpoint bind_messages (provenance : string) (exchanges : list ToolExchange) (used : list bool)
    (messages : list (InferenceMessage Any)) : list (InferenceMessage Any) * option bind_error :=
  match messages with
  | [] => ([], None)
  | m :: rest =>
      if negb (same_str (im_Provenance m) provenance)
      then let '(ms, err) := bind_messages provenance exchanges used rest in (m :: ms, err)
      else
        match match_exchange (im_Content m) 0 used exchanges with
        | Err e => (m :: rest, Some e)
        | Ok (index, e) =>
            let '(ms, err) := bind_messages provenance exchanges (<[index := true]> used) rest in
            (with_exchange m e :: ms, err)
        end
  end.

Definition BindToolContext (messages : list (InferenceMessage Any)) (tools : list Tool) (exchanges : list ToolExchange)
    (provenance : string) : list (InferenceMessage Any) * option bind_error :=
  bind_messages provenance exchanges (replicate (length exchanges) false) (attach_tools tools messages).

End execution.
Arguments ToolExchange : clear implicits.
Arguments ContextState : clear implicits.
Arguments ContextBuilder : clear implicits.
Arguments ToolExecutor : clear implicits.
Arguments Request : clear implicits.
Arguments Result : clear implicits.

(** ** Properties of the loop *)

Section theorems.
Context {Any World : Type} (cancelled : World -> bool).
Implicit Types (r : Request Any World) (x : ToolExecutor Any World) (w : World).

(** What is true of the exchanges at the start of a round: as many as calls were made, within the limit, and exactly
    those of the last reply, at the end, are still to be presented. *)
Definition exchanges_ok r (n : Z) (exs : list (ToolExchange Any)) : Prop :=
  n = len exs /\ n <= limit_of r /\
  exists old new, exs = old ++ new /\ Forall (fun e => ex_Required e = false) old /\ Forall (fun e => ex_Required e = true) new.

Lemma limit_positive r : 0 < limit_of r.
Proof. unfold limit_of, DefaultToolCallLimit. destruct (_ <=? 0) eqn:E; bool_props; lia. Qed.

Lemma run_calls_spec r x tools calls : forall n exs w n' exs' w',
  run_calls r x tools n exs calls w = (Ok (n', exs'), w') -> n <= limit_of r ->
  n' = n + len calls /\ n' <= limit_of r /\
  exists new, exs' = exs ++ new /\ ex_Call <$> new = calls /\ Forall (fun e => ex_Required e = true) new.
Proof.
  induction calls as [|c calls IH]; intros n exs w n' exs' w' H Hn; simpl in H.
  { simplify_eq. split_and!; [by rewrite Z.add_0_r|done|]. exists []. by rewrite app_nil_r. }
  destruct (_ <? _) eqn:E; [done|]. bool_props. destruct (execute_one _ _ _ _ _) as [result w1].
  destruct (IH _ _ _ _ _ _ H ltac:(lia)) as (-> & Hle & new & -> & Hc & Hnew). split_and!.
  - unfold len. simpl. lia.
  - done.
  - exists ({| ex_Call := c; ex_Result := result; ex_Required := true |} :: new).
    rewrite <- app_assoc, fmap_cons, Hc. split_and!; [done|done|by constructor].
Qed.

Lemma presented_all (exs : list (ToolExchange Any)) : Forall (fun e => ex_Required e = false) (presented <$> exs).
Proof. apply Forall_fmap. by apply Forall_true. Qed.

Lemma round_continues r p b budget tools n exs w n' exs' w' :
  round cancelled r p b budget tools n exs w = (Continues n' exs', w') -> exchanges_ok r n exs ->
  exchanges_ok r n' exs' /\ n < n'.
Proof.
  unfold round. intros H (-> & Hl & _). destruct (cancelled w); [done|]. destruct (b _ _) as [[ms|] w1]; [|done].
  destruct (p _ _) as [[[resp|]|] w2]; [|done..]. destruct (rp_ToolCalls resp) as [|c calls]; [done|].
  destruct (rq_ToolExecutor r) as [x|]; [|done].
  destruct (run_calls _ _ _ _ _ _ _) as [[[m es]|] w3] eqn:E; [|done]. simplify_eq.
  apply run_calls_spec in E as (-> & Hle & new & -> & Hc & Hnew); [|done].
  assert (Hlen : length new = S (length calls)) by (by rewrite <- (length_fmap ex_Call), Hc).
  unfold len in *. simpl in *. split; [|lia]. split_and!.
  - unfold len. rewrite length_app, length_fmap. lia.
  - lia.
  - eexists _, new. split; [done|]. split; [apply presented_all|done].
Qed.

(** Enough fuel is never used up. *)
Lemma rounds_fuel r p b budget tools : forall fuel n exs w,
  exchanges_ok r n exs -> limit_of r - n < Z.of_nat fuel ->
  (rounds cancelled fuel r p b budget tools n exs w).1 <> Err OutOfFuel /\
  forall more, rounds cancelled (fuel + more) r p b budget tools n exs w = rounds cancelled fuel r p b budget tools n exs w.
Proof.
  induction fuel as [|fuel IH]; intros n exs w Hok Hf; [destruct Hok; lia|]. simpl.
  destruct (round _ _ _ _ _ _ _ _ _) as [[o|n' exs'] w'] eqn:E.
  - split; [|done]. simpl. intros ->. clear -E. unfold round in E.
    destruct (cancelled w); [done|]. destruct (b _ _) as [[ms|] w1]; [|done].
    destruct (p _ _) as [[[resp|]|] w2]; [|done..]. destruct (rp_ToolCalls resp) as [|c calls]; [done|].
    destruct (rq_ToolExecutor r) as [x|]; [|done].
    destruct (run_calls _ _ _ _ _ _ _) as [[[m es]|] w3] eqn:E'; [done|]. simplify_eq. revert E'. generalize (c :: calls).
    intros l. generalize (presented <$> exs), w2. revert n. induction l as [|d l IHl]; intros n es w4; simpl; [done|].
    destruct (_ <? _); [done|]. destruct (execute_one _ _ _ _ _). apply IHl.
  - destruct (round_continues _ _ _ _ _ _ _ _ _ _ _ E Hok) as [Hok' Hlt]. apply IH; [done|]. lia.
Qed.

(** What a count of events can grow by: [a] for an inference, [c] for a tool execution, nothing for building a context. *)
Record costs r (m : World -> Z) (a c : Z) : Prop := {
  co_a : 0 <= a;
  co_c : 0 <= c;
  co_build : forall b st w, rq_BuildContext r = Some b -> m (b st w).2 <= m w;
  co_infer : forall p q w, rq_Provider r = Some p -> m (p q w).2 <= m w + a;
  co_execute : forall x tools call w, rq_ToolExecutor r = Some x -> m (execute_one r x tools call w).2 <= m w + c;
}.

Lemma run_calls_cost r m a c x tools calls : forall n exs w,
  costs r m a c -> rq_ToolExecutor r = Some x -> n <= limit_of r ->
  match run_calls r x tools n exs calls w with
  | (Ok (n', _), w') => m w' <= m w + c * (n' - n)
  | (Err _, w') => m w' <= m w + c * (limit_of r - n)
  end.
Proof.
  induction calls as [|d calls IH]; intros n exs w Hc Hx Hn; simpl; [lia|].
  pose proof (co_c _ _ _ _ Hc) as H0. destruct (_ <? _) eqn:E; bool_props; [nia|].
  destruct (execute_one _ _ _ _ _) as [result w1] eqn:Ee.
  pose proof (co_execute _ _ _ _ Hc x tools d w Hx) as He. rewrite Ee in He. simpl in He.
  specialize (IH (n + 1) (exs ++ [{| ex_Call := d; ex_Result := result; ex_Required := true |}]) w1 Hc Hx ltac:(lia)).
  destruct (run_calls _ _ _ _ _ _ _) as [[[n' es]|] w2]; nia.
Qed.

Lemma rounds_cost r m a c p b budget tools : forall fuel n exs w,
  costs r m a c -> rq_Provider r = Some p -> rq_BuildContext r = Some b -> exchanges_ok r n exs ->
  m (rounds cancelled fuel r p b budget tools n exs w).2 <= m w + a * (limit_of r - n + 1) + c * (limit_of r - n).
Proof.
  induction fuel as [|fuel IH]; intros n exs w Hc Hp Hb Hok; pose proof Hc as [Ha H0 H1 H2 _];
    pose proof Hok as (_ & Hn & _); simpl; [nia|].
  destruct (round _ _ _ _ _ _ _ _ _) as [out w'] eqn:E.
  assert (Hr : match out with
               | Returns _ => m w' <= m w + a + c * (limit_of r - n)
               | Continues n' _ => m w' <= m w + a + c * (n' - n)
               end).
  { unfold round in E. destruct (cancelled w); [simplify_eq; nia|]. destruct (b _ _) as [[ms|] w1] eqn:Eb;
      pose proof (H1 b {| cs_InputTokenBudget := budget; cs_Tools := tools; cs_Exchanges := exs |} w Hb) as Q1;
      rewrite Eb in Q1; simpl in Q1; [|simplify_eq; nia].
    destruct (p _ _) as [o w2] eqn:Ep; pose proof (H2 p (inference_request r ms) w1 Hp) as Q2; rewrite Ep in Q2; simpl in Q2.
    destruct o as [[resp|]|]; [|simplify_eq; nia..]. destruct (rp_ToolCalls resp) as [|d calls]; [simplify_eq; nia|].
    destruct (rq_ToolExecutor r) as [x|] eqn:Ex; [|simplify_eq; nia].
    pose proof (run_calls_cost r m a c x tools (d :: calls) n (presented <$> exs) w2 Hc Ex Hn) as Q3.
    destruct (run_calls _ _ _ _ _ _ _) as [[[n' es]|] w3]; simplify_eq; lia. }
  destruct out as [o|n' exs']; simpl; [nia|].
  destruct (round_continues _ _ _ _ _ _ _ _ _ _ _ E Hok) as [Hok' Hlt].
  specialize (IH n' exs' w' Hc Hp Hb Hok'). destruct Hok' as (_ & Hn' & _). nia.
Qed.

Lemma exchanges_ok_nil r : exchanges_ok r 0 [].
Proof. pose proof (limit_positive r). split_and!; [done|lia|]. by exists [], []. Qed.

Lemma rounds_result r p b budget tools : forall fuel n exs w result,
  (rounds cancelled fuel r p b budget tools n exs w).1 = Ok result -> exchanges_ok r n exs ->
  rp_ToolCalls (rs_Response result) = [] /\ len (rs_Exchanges result) <= limit_of r /\
  Forall (fun e => ex_Required e = false) (rs_Exchanges result).
Proof.
  induction fuel as [|fuel IH]; intros n exs w result H Hok; [done|]. simpl in H.
  destruct (round _ _ _ _ _ _ _ _ _) as [[o|n' exs'] w'] eqn:E.
  - simpl in H. subst o. unfold round in E. destruct (cancelled w); [done|]. destruct (b _ _) as [[ms|] w1]; [|done].
    destruct (p _ _) as [[[resp|]|] w2]; [|done..]. destruct (rp_ToolCalls resp) as [|d calls] eqn:Ed.
    + simplify_eq. simpl. destruct Hok as (-> & Hl & _). unfold len in *. rewrite length_fmap.
      split_and!; [done|done|apply presented_all].
    + destruct (rq_ToolExecutor r); [|done]. destruct (run_calls _ _ _ _ _ _ _) as [[[??]|] ?]; done.
  - eapply IH; [exact H|]. by eapply round_continues.
Qed.

(** C6: an execution always ends.  Whatever the provider answers, it is asked at most once more than the limit on tool
    calls and at most that many tools run (for any count of such events in the world); a successful execution ends with a
    final answer, every exchange having been presented to the provider. *)
Theorem execute_bounded r w :
  let '(out, w') := Execute cancelled (enough r) r w in
  out <> Err OutOfFuel /\
  (forall more, Execute cancelled (enough r + more) r w = (out, w')) /\
  (forall m a c, costs r m a c -> m w' <= m w + a * (limit_of r + 1) + c * limit_of r) /\
  (forall result, out = Ok result ->
     rp_ToolCalls (rs_Response result) = [] /\ len (rs_Exchanges result) <= limit_of r /\
     Forall (fun e => ex_Required e = false) (rs_Exchanges result)).
Proof.
  destruct (Execute cancelled (enough r) r w) as [out w'] eqn:E. unfold Execute in *. pose proof (limit_positive r) as Hl.
  assert (Htriv : forall e, (Err e, w) = (out, w') -> e <> OutOfFuel ->
    out <> Err OutOfFuel /\ (forall m a c, costs r m a c -> m w' <= m w + a * (limit_of r + 1) + c * limit_of r) /\
    (forall result, out = Ok result -> False)).
  { intros e ? ?. simplify_eq. split_and!; [congruence| |done]. intros m a c [Ha Hc _ _ _]. nia. }
  destruct (rq_Provider r) as [p|] eqn:Ep; [|destruct (Htriv _ E); naive_solver].
  destruct (rq_BuildContext r) as [b|] eqn:Eb; [|destruct (Htriv _ E); naive_solver].
  destruct (ValidateModelConfiguration _) as [u|]; [|destruct (Htriv _ E); naive_solver].
  destruct (InputTokens _) as [budget|]; [|destruct (Htriv _ E); naive_solver]. clear Htriv.
  assert (Hf : limit_of r - 0 < Z.of_nat (enough r)) by (unfold enough; lia).
  edestruct (rounds_fuel r p b budget) as [Hne Hmore]; [apply exchanges_ok_nil|exact Hf|].
  rewrite E in Hne, Hmore. split_and!; [exact Hne|exact Hmore|..].
  - intros m a c Hc. pose proof (rounds_cost r m a c p b budget (match rq_ToolExecutor r with Some x => Tools x w | None => [] end)
      (enough r) 0 [] w Hc Ep Eb (exchanges_ok_nil r)) as Hm. rewrite E in Hm. simpl in Hm. lia.
  - intros result ->. eapply rounds_result; [by rewrite E|apply exchanges_ok_nil].
Qed.

(** What every interface keeps, an execution keeps. *)
Lemma execution_keeps (P : World -> Prop) fuel r w :
  (forall b st w, rq_BuildContext r = Some b -> P w -> P (b st w).2) ->
  (forall p q w, rq_Provider r = Some p -> P w -> P (p q w).2) ->
  (forall x tools call w, rq_ToolExecutor r = Some x -> P w -> P (execute_one r x tools call w).2) ->
  P w -> P (Execute cancelled fuel r w).2.
Proof.
  intros Hb Hp Hx. unfold Execute. destruct (rq_Provider r) as [p|]; [|done]. destruct (rq_BuildContext r) as [b|]; [|done].
  destruct (ValidateModelConfiguration _); [|done]. destruct (InputTokens _) as [budget|]; [|done].
  generalize (match rq_ToolExecutor r with Some x => Tools x w | None => [] end) as tools. intros tools.
  generalize 0 (@nil (ToolExchange Any)). revert w. induction fuel as [|fuel IH]; intros w n exs Hw; [done|]. simpl.
  destruct (round _ _ _ _ _ _ _ _ _) as [out w'] eqn:E. assert (Hw' : P w'); [|by destruct out; [|apply IH]].
  unfold round in E. destruct (cancelled w); [by simplify_eq|].
  pose proof (Hb b {| cs_InputTokenBudget := budget; cs_Tools := tools; cs_Exchanges := exs |} w eq_refl Hw) as H1.
  destruct (b _ _) as [[ms|] w1]; simpl in H1; [|by simplify_eq].
  pose proof (Hp p (inference_request r ms) w1 eq_refl H1) as H2. destruct (p _ _) as [[[resp|]|] w2]; simpl in H2; [|by simplify_eq..].
  destruct (rp_ToolCalls resp) as [|c calls]; [by simplify_eq|]. destruct (rq_ToolExecutor r) as [x|]; [|by simplify_eq].
  assert (Hcalls : forall l n es w, P w -> P (run_calls r x tools n es l w).2).
  { induction l as [|d l IHl]; intros m es w4 Hw4; simpl; [done|]. destruct (_ <? _); [done|].
    pose proof (Hx x tools d w4 eq_refl Hw4) as H4. destruct (execute_one _ _ _ _ _) as [result w5]. by apply IHl. }
  specialize (Hcalls (c :: calls) n (presented <$> exs) w2 H2).
  destruct (run_calls _ _ _ _ _ _ _) as [[[m es]|] w3]; by simplify_eq.
Qed.

(** ** What the interfaces are asked *)

(** Exchanges are presented before the required ones. *)
Fixpoint required_last (exs : list (ToolExchange Any)) : bool :=
  match exs with
  | [] => true
  | e :: rest => if ex_Required e then forallb ex_Required rest else required_last rest
  end.

Definition state_fits r (w0 : World) (st : ContextState Any) : Prop :=
  Ok (cs_InputTokenBudget st) = InputTokens (mo_Budget (rq_ModelConfiguration r)) /\
  cs_Tools st = match rq_ToolExecutor r with Some x => Tools x w0 | None => [] end /\
  len (cs_Exchanges st) <= limit_of r /\ required_last (cs_Exchanges st) = true.

Definition request_fits r (q : InferenceRequest Any) : Prop := q = inference_request r (ir_Messages q).

Definition tool_fits r (w0 : World) (call : ToolCall Any) (tool : option Tool) : Prop :=
  exists x, rq_ToolExecutor r = Some x /\ tool = tool_map (Tools x w0) !! tc_Name call.

(** Two requests that answer alike wherever the questions fit, started in [w0]. *)
Record agree (w0 : World) r r' : Prop := {
  ag_limit : limit_of r = limit_of r';
  ag_model : rq_ModelConfiguration r = rq_ModelConfiguration r';
  ag_infer : forall ms, inference_request r ms = inference_request r' ms;
  ag_correlation : correlation_of r = correlation_of r';
  ag_provider : option_Forall2 (fun p p' => forall q w, request_fits r q -> p q w = p' q w) (rq_Provider r) (rq_Provider r');
  ag_build : option_Forall2 (fun b b' => forall st w, state_fits r w0 st -> b st w = b' st w)
    (rq_BuildContext r) (rq_BuildContext r');
  ag_executor : option_Forall2 (fun x x' => Tools x w0 = Tools x' w0 /\
    (forall call tool w, tool_fits r w0 call tool -> ExecuteCall x call tool w = ExecuteCall x' call tool w) /\
    option_Forall2 (fun f f' => forall call tool w, tool_fits r w0 call tool ->
      f (correlation_of r) call tool w = f' (correlation_of r) call tool w)
      (ExecuteCorrelatedCall x) (ExecuteCorrelatedCall x')) (rq_ToolExecutor r) (rq_ToolExecutor r');
}.

Lemma required_last_app (old new : list (ToolExchange Any)) :
  Forall (fun e => ex_Required e = false) old -> Forall (fun e => ex_Required e = true) new -> required_last (old ++ new) = true.
Proof.
  induction 1 as [|e old He _ IH]; intros Hn; simpl; [|rewrite He; by apply IH].
  destruct Hn as [|e new He Hn]; [done|]. simpl. rewrite He. apply forallb_forall. intros y Hy.
  rewrite Forall_forall in Hn. apply Hn. by apply list_elem_of_In.
Qed.

Lemma agree_calls w0 r r' x x' calls : forall n exs w,
  agree w0 r r' -> rq_ToolExecutor r = Some x -> rq_ToolExecutor r' = Some x' ->
  run_calls r x (Tools x w0) n exs calls w = run_calls r' x' (Tools x' w0) n exs calls w.
Proof.
  induction calls as [|c calls IH]; intros n exs w Ha Hx Hx'; simpl; [done|].
  rewrite <- (ag_limit _ _ _ Ha). destruct (_ <? _); [done|].
  pose proof (ag_executor _ _ _ Ha) as Hex. rewrite Hx, Hx' in Hex. inversion Hex as [? ? (Ht & He & Hc)|]; subst.
  assert (Hone : execute_one r x (Tools x w0) c w = execute_one r' x' (Tools x' w0) c w).
  { unfold execute_one. rewrite <- Ht, <- (ag_correlation _ _ _ Ha).
    assert (Hf : tool_fits r w0 c (tool_map (Tools x w0) !! tc_Name c)) by (by exists x).
    destruct Hc as [f f' Hff|]; [by apply Hff|by apply He]. }
  rewrite Hone. destruct (execute_one r' _ _ _ _). by apply IH.
Qed.

Lemma agree_round w0 r r' p p' b b' budget tools n exs w :
  agree w0 r r' -> rq_Provider r = Some p -> rq_Provider r' = Some p' -> rq_BuildContext r = Some b ->
  rq_BuildContext r' = Some b' -> InputTokens (mo_Budget (rq_ModelConfiguration r)) = Ok budget ->
  tools = match rq_ToolExecutor r with Some x => Tools x w0 | None => [] end -> exchanges_ok r n exs ->
  round cancelled r p b budget tools n exs w = round cancelled r' p' b' budget tools n exs w.
Proof.
  intros Ha Hp Hp' Hb Hb' Hi Ht (Hn & Hl & old & new & He & Ho & Hw). unfold round. destruct (cancelled w); [done|].
  pose proof (ag_build _ _ _ Ha) as Hbb. rewrite Hb, Hb' in Hbb. inversion Hbb as [? ? Hbuild|]; subst.
  rewrite <- Hbuild.
  2:{ unfold state_fits. simpl. split_and!; [by rewrite Hi|done|lia|by apply required_last_app]. }
  destruct (b _ _) as [[ms|] w1]; [|done].
  pose proof (ag_provider _ _ _ Ha) as Hpp. rewrite Hp, Hp' in Hpp. inversion Hpp as [? ? Hprov|]; subst.
  rewrite <- (ag_infer _ _ _ Ha), <- Hprov by done. destruct (p _ _) as [[[resp|]|] w2]; [|done..].
  destruct (rp_ToolCalls resp) as [|c calls]; [done|].
  destruct (rq_ToolExecutor r) as [x|] eqn:Ex; destruct (rq_ToolExecutor r') as [x'|] eqn:Ex';
    [|pose proof (ag_executor _ _ _ Ha) as Hex; rewrite Ex, Ex' in Hex; by inversion Hex..|done].
  rewrite (agree_calls w0 r r' x x') by done.
  pose proof (ag_executor _ _ _ Ha) as Hex. rewrite Ex, Ex' in Hex. inversion Hex as [? ? (Htt & _)|]; subst. by rewrite Htt.
Qed.

(** The model, its budgets, the purpose and the tools are fixed for a whole execution.  The outcome depends on the
    interfaces only through requests for the selected model without top-level tools, through context states with the
    configured budget, at most the permitted number of exchanges and those still to be presented at the end, and through
    executions of the tool the call names with the request's identities: two requests whose interfaces agree there have
    the same execution. *)
Theorem execution_pinned w0 r r' fuel : agree w0 r r' -> Execute cancelled fuel r w0 = Execute cancelled fuel r' w0.
Proof.
  intros Ha. unfold Execute. rewrite <- (ag_model _ _ _ Ha).
  destruct (rq_Provider r) as [p|] eqn:Ep; pose proof (ag_provider _ _ _ Ha) as Hp; rewrite Ep in Hp;
    destruct (rq_Provider r') as [p'|] eqn:Ep'; try by inversion Hp.
  destruct (rq_BuildContext r) as [b|] eqn:Eb; pose proof (ag_build _ _ _ Ha) as Hb; rewrite Eb in Hb;
    destruct (rq_BuildContext r') as [b'|] eqn:Eb'; try by inversion Hb.
  destruct (ValidateModelConfiguration _); [|done]. destruct (InputTokens _) as [budget|] eqn:Ei; [|done].
  assert (Ht : match rq_ToolExecutor r with Some x => Tools x w0 | None => [] end =
               match rq_ToolExecutor r' with Some x => Tools x w0 | None => [] end).
  { pose proof (ag_executor _ _ _ Ha) as Hx. by destruct Hx as [x x' (-> & _)|]. }
  cbv zeta. rewrite <- Ht. assert (H0 : exchanges_ok r 0 []) by apply exchanges_ok_nil. revert H0. generalize w0 at 2 4.
  generalize (@nil (ToolExchange Any)) 0. induction fuel as [|fuel IH]; intros exs n w Hok; [done|]. simpl.
  rewrite (agree_round w0 r r' p p' b b') by done.
  destruct (round _ r' _ _ _ _ _ _ _) as [[o|n' exs'] w'] eqn:E; [done|]. apply IH.
  rewrite <- (agree_round w0 r r' p p' b b') in E by done. by eapply round_continues.
Qed.

End theorems.

(** ** Binding *)

Section binding.
Context {Any : Type} (marshal_call : ToolCall Any -> option string) (show_result : ToolResult Any -> string).
Implicit Types (e : ToolExchange Any) (m : InferenceMessage Any).

Abbreviation text_of := (FormatToolExchange marshal_call show_result).
Definition model_visible m : string * string * string := (im_Role m, im_Content m, im_Provenance m).
Definition of_tools (provenance : string) m : bool := same_str (im_Provenance m) provenance.

Lemma match_exchange_spec content used : forall exs index i e,
  match_exchange marshal_call show_result content index used exs = Ok (i, e) ->
  exists k, i = (index + k)%nat /\ exs !! k = Some e /\ default false (used !! i) = false /\ text_of e = Some content.
Proof.
  induction exs as [|d exs IH]; intros index i e H; simpl in H; [done|].
  assert (Hrec : match_exchange marshal_call show_result content (S index) used exs = Ok (i, e) ->
    exists k, i = (index + k)%nat /\ (d :: exs) !! k = Some e /\ default false (used !! i) = false /\ text_of e = Some content).
  { intros (k & -> & Hk & Hu & Ht)%IH. exists (S k). split_and!; [lia|done|done|done]. }
  destruct (default false (used !! index)) eqn:Eu; [by apply Hrec|].
  destruct (text_of d) as [text|] eqn:Et; [|done]. destruct (same_str text content) eqn:Es; [|by apply Hrec].
  simplify_eq. apply same_str_true in Es as ->. exists 0%nat. split_and!; [lia|done|done|done].
Qed.

(** The exchanges taken by the messages, one index each. *)
Inductive taken (exs : list (ToolExchange Any)) : list nat -> list (InferenceMessage Any) -> Prop :=
| taken_nil : taken exs [] []
| taken_cons i e ixs m ms :
    exs !! i = Some e -> text_of e = Some (im_Content m) -> im_ToolCall m = Some (ex_Call e) ->
    im_ToolResult m = Some (ex_Result e) -> i ∉ ixs -> taken exs ixs ms -> taken exs (i :: ixs) (m :: ms).

Lemma bind_messages_spec provenance exs ms : forall used ms',
  bind_messages marshal_call show_result provenance exs used ms = (ms', None) -> length used = length exs ->
  (model_visible <$> ms') = (model_visible <$> ms) /\
  (forall i m m', ms !! i = Some m -> ms' !! i = Some m' -> im_Tools m' = im_Tools m /\
     (of_tools provenance m = false -> m' = m)) /\
  exists ixs, taken exs ixs (filter (fun m => of_tools provenance m = true) ms') /\
    forall i, i ∈ ixs -> default false (used !! i) = false.
Proof.
  induction ms as [|m ms IH]; intros used ms' H Hu; simpl in H.
  { simplify_eq. split_and!; [done|done|]. exists []. split; [constructor|set_solver]. }
  destruct (same_str (im_Provenance m) provenance) eqn:Ep; simpl in H.
  - destruct (match_exchange _ _ _ _ _ _) as [[i e]|] eqn:Em; [|done].
    destruct (bind_messages _ _ _ _ _ ms) as [ms1 err] eqn:Eb. simplify_eq.
    apply match_exchange_spec in Em as (k & -> & Hk & Hfree & Ht). simpl in *.
    assert (Hki : (k < length used)%nat) by (rewrite Hu; by eapply lookup_lt_Some).
    destruct (IH _ _ Eb ltac:(by rewrite length_insert)) as (Hv & Hsame & ixs & Htk & Hfresh). split_and!.
    + exact (f_equal (cons (model_visible m)) Hv).
    + intros [|i] m1 m1' H1 H2; simpl in *; [|by eapply Hsame]. simplify_eq. split; [done|]. unfold of_tools. congruence.
    + exists (k :: ixs). rewrite filter_cons_True by done. split.
      * econstructor; [done..| |done]. intros Hin. specialize (Hfresh _ Hin). rewrite list_lookup_insert_eq in Hfresh; done.
      * intros j [->|Hj]%elem_of_cons; [done|]. specialize (Hfresh _ Hj). destruct (decide (j = k)) as [->|Hne].
        -- rewrite list_lookup_insert_eq in Hfresh; done.
        -- by rewrite list_lookup_insert_ne in Hfresh.
  - destruct (bind_messages _ _ _ _ _ ms) as [ms1 err] eqn:Eb. simplify_eq.
    destruct (IH _ _ Eb Hu) as (Hv & Hsame & ixs & Htk & Hfresh). split_and!.
    + exact (f_equal (cons (model_visible m)) Hv).
    + intros [|i] m1 m1' H1 H2; simpl in *; [by simplify_eq|by eapply Hsame].
    + exists ixs. rewrite filter_cons_False by (unfold of_tools; by rewrite Ep). done.
Qed.

Lemma attach_tools_spec tools ms :
  (model_visible <$> attach_tools tools ms) = (model_visible <$> ms) /\
  forall i m m', ms !! i = Some m -> attach_tools tools ms !! i = Some m' ->
    im_ToolCall m' = im_ToolCall m /\ im_ToolResult m' = im_ToolResult m /\ im_Provenance m' = im_Provenance m.
Proof.
  induction ms as [|m ms [IH1 IH2]]; [done|]. simpl. destruct (same_str _ _).
  - split; [done|]. intros [|i] m1 m1' H1 H2; simpl in *; simplify_eq; done.
  - split; [by rewrite !fmap_cons, IH1|]. intros [|i] m1 m1' H1 H2; simpl in *; [by simplify_eq|by eapply IH2].
Qed.

Lemma taken_sound exs ixs ms m : taken exs ixs ms -> m ∈ ms -> exists e, e ∈ exs /\ text_of e = Some (im_Content m) /\
  im_ToolCall m = Some (ex_Call e) /\ im_ToolResult m = Some (ex_Result e).
Proof.
  induction 1 as [|i e ixs m0 ms Hi Ht Hc Hr _ _ IH]; [set_solver|]. intros [->|Hm]%elem_of_cons; [|by apply IH].
  exists e. split_and!; [by eapply list_elem_of_lookup_2|done..].
Qed.

(** Binding tool metadata adds nothing to what the model sees: roles, contents and provenances stay as they are.
    Each message of the tool provenance gets the call and the result of an exchange with exactly its text, each exchange
    at most once; and when the exchanges are correlated and the messages carried no calls before, the bound messages
    satisfy the provider's contract. *)
Theorem binding_adds_no_copy {World} (r : Request Any World) ms tools exs provenance ms' :
  BindToolContext marshal_call show_result ms tools exs provenance = (ms', None) ->
  (model_visible <$> ms') = (model_visible <$> ms) /\
  (exists ixs, NoDup ixs /\ length ixs = length (filter (fun m => of_tools provenance m = true) ms) /\
     taken exs ixs (filter (fun m => of_tools provenance m = true) ms')) /\
  (Forall (fun e => tr_ToolCallID (ex_Result e) = tc_ID (ex_Call e)) exs -> Forall (fun m => im_ToolCall m = None) ms ->
   ValidateToolContext (inference_request r ms') = Ok tt).
Proof.
  unfold BindToolContext. intros H. destruct (attach_tools_spec tools ms) as [Hv Ha].
  apply bind_messages_spec in H as (Hv' & Hsame & ixs & Htk & _); [|by rewrite length_replicate].
  rewrite Hv in Hv'. split_and!; [done| |].
  - exists ixs. split_and!; [|  |done].
    + clear -Htk. induction Htk; constructor; done.
    + assert (Hlen : length ixs = length (filter (fun m => of_tools provenance m = true) ms')).
      { clear -Htk. induction Htk; simpl; congruence. }
      rewrite Hlen. clear -Hv'. revert ms Hv'. induction ms' as [|m' ms' IH]; intros [|m ms] Hv; try done.
      rewrite !fmap_cons in Hv. injection Hv as H1 H2 H3 Hr. specialize (IH _ Hr). unfold of_tools.
      rewrite !filter_cons, H3. unfold of_tools in IH. destruct (decide _); simpl; congruence.
  - intros Hc Hn. unfold ValidateToolContext. simpl. rewrite andb_false_r.
    destruct (existsb uncorrelated ms') eqn:E; [exfalso|done].
    apply existsb_exists in E as (m' & Hin & Hu). apply list_elem_of_In, list_elem_of_lookup in Hin as [i Hi].
    destruct (of_tools provenance m') eqn:Ep.
    + destruct (taken_sound _ _ _ m' Htk) as (e & He & _ & Hcall & Hres).
      { apply list_elem_of_filter. split; [done|]. by eapply list_elem_of_lookup_2. }
      unfold uncorrelated in Hu. rewrite Hcall, Hres in Hu. rewrite Forall_forall in Hc. rewrite (Hc _ He) in Hu.
      by rewrite (proj2 (same_str_true _ _)) in Hu.
    + pose proof (f_equal (fun l => l !! i) Hv') as Hl. rewrite !list_lookup_fmap, Hi in Hl.
      destruct (ms !! i) as [m|] eqn:Em; [|done]. pose proof (f_equal (fun l => l !! i) Hv) as Hl2.
      rewrite !list_lookup_fmap, Em in Hl2. destruct (attach_tools tools ms !! i) as [m1|] eqn:Em1; [|done].
      destruct (Ha _ _ _ Em Em1) as (Hc1 & _ & Hp1). destruct (Hsame _ _ _ Em1 Hi) as [_ Heq].
      simpl in Hl. injection Hl as _ _ Hp'. rewrite Heq in Hu.
      * unfold uncorrelated in Hu. rewrite Hc1 in Hu. rewrite Forall_forall in Hn.
        by rewrite (Hn m) in Hu by (by eapply list_elem_of_lookup_2).
      * unfold of_tools in *. congruence.
Qed.

End binding.

(** ** Witnesses *)

(** The world counts inferences; the provider asks for a tool once and then answers. *)
Definition one_call : ToolCall unit := {| tc_ID := "c1"; tc_Name := "runtime.info__read"; tc_Arguments := None |}.

Definition asks_once : Provider unit Z := fun q w =>
  (Ok (Some {| rp_Content := if w =? 0 then "" else "done"; rp_ToolCalls := if w =? 0 then [one_call] else [];
               rp_ProviderID := "mock"; rp_TokensUsed := 0 |}), w + 1).

Definition ran (call : ToolCall unit) : ToolResult unit :=
  {| tr_ToolCallID := tc_ID call; tr_ExecutionID := "tool_c1"; tr_Status := ToolResultSuccess; tr_Result := None;
     tr_Error := None; tr_Attempts := []; tr_CandidateRejections := [] |}.

Definition runs : ToolExecutor unit Z :=
  {| Tools := fun _ => []; ExecuteCall := fun call _ w => (ran call, w); ExecuteCorrelatedCall := None |}.

Definition tiny_model : ModelConfiguration :=
  {| mo_Name := "small"; mo_Provider := "mock"; mo_Model := "m"; mo_Endpoint := "local"; mo_Budget := DefaultModelContextBudget |}.

Definition tool_turn (build : ContextBuilder unit Z) : Request unit Z :=
  {| rq_Provider := Some asks_once; rq_ModelConfiguration := tiny_model; rq_Purpose := "respond"; rq_Temperature := (0, 0);
     rq_TurnID := "t"; rq_SessionID := "s"; rq_CognitiveRunID := ""; rq_IntentionID := ""; rq_BuildContext := Some build;
     rq_ToolExecutor := Some runs; rq_MaxToolCalls := 3 |}.

Definition no_messages : ContextBuilder unit Z := fun _ w => (Ok [], w).

(** A builder that refuses more than the permitted exchanges. *)
Definition wary : ContextBuilder unit Z := fun st w => if 3 <? len (cs_Exchanges st) then (Err "too many", w) else (Ok [], w).

Lemma execute_bounded_witness :
  (exists result, Execute (fun _ => false) (enough (tool_turn no_messages)) (tool_turn no_messages) 0 = (Ok result, 2) /\
     length (rs_Exchanges result) = 1%nat) /\
  (Execute (fun _ => false) (enough (tool_turn no_messages)) (tool_turn no_messages) 0).2 <= 4.
Proof.
  pose proof (execute_bounded (fun _ => false) (tool_turn no_messages) 0) as H. split.
  - eexists. split; vm_compute; reflexivity.
  - destruct (Execute _ _ _ _) as [out w']. destruct H as (_ & _ & Hm & _).
    assert (Hc : costs (tool_turn no_messages) (fun w => w) 1 0).
    { constructor; [lia|lia|intros b st w Hb|intros p q w Hp|intros x tools call w Hx]; simplify_eq/=; simpl; lia. }
    specialize (Hm _ _ _ Hc). change (limit_of (tool_turn no_messages)) with 3 in Hm. simpl. lia.
Defined.

Lemma execution_pinned_witness :
  Execute (fun _ => false) 5 (tool_turn no_messages) 0 = Execute (fun _ => false) 5 (tool_turn wary) 0.
Proof.
  apply (execution_pinned (fun _ => false) 0 (tool_turn no_messages) (tool_turn wary) 5).
  constructor; try reflexivity; constructor; try (intros; reflexivity).
  - intros st w (_ & _ & Hl & _). unfold no_messages, wary. change (limit_of _) with 3 in Hl.
    destruct (3 <? _) eqn:E; [|reflexivity]. apply Z.ltb_lt in E. lia.
  - split; [reflexivity|]. split; [intros; reflexivity|constructor].
Defined.

Lemma binding_adds_no_copy_witness :
  exists m e, BindToolContext (fun c => Some (tc_ID c)) (fun r => tr_ExecutionID r) [m] [] [e] "tool" =
    ([with_exchange m e], None) /\
  ValidateToolContext (inference_request (tool_turn no_messages) [with_exchange m e]) = Ok tt.
Proof.
  pose (e := {| ex_Call := one_call; ex_Result := ran one_call; ex_Required := true |}).
  pose (m := {| im_Role := "user"; im_Content := "Tool call:" +:+ LF +:+ "c1" +:+ LF +:+ "tool_c1"; im_Provenance := "tool";
                im_Tools := []; im_ToolCall := @None (ToolCall unit); im_ToolResult := None |}).
  exists m, e. assert (Hb : BindToolContext (fun c => Some (tc_ID c)) (fun r => tr_ExecutionID r) [m] [] [e] "tool" =
    ([with_exchange m e], None)) by (vm_compute; reflexivity).
  split; [exact Hb|]. apply (proj2 (proj2 (binding_adds_no_copy _ _ (tool_turn no_messages) _ _ _ _ _ Hb))).
  - constructor; [reflexivity|constructor].
  - constructor; [reflexivity|constructor].
Defined.
