(* ===== verification/ToolExecution.v ===== *)
(** * The execution of tools

    Core/DollMind/tool_executor.go, the one path by which cognition acts: the
    policy on the action ([ActionPolicy]), a permission request when the Owner must
    be asked ([Permission]), the choice of a Body ([Resolver]) and the guard in
    front of it ([Body]), or a message ([Communication]); and the continuation of
    an action once the Owner has decided.  The notifier, which runs a cognition of
    its own, acts on the whole state.  JSON and the texts of errors are parameters. *)
From S2P Require Import Prelude GoStrings GoTime SQL Body Resolver ActionPolicy Permission Session ExternalIdentity.
From S2P Require Import SessionEvent Communication Inference CognitiveExecution.
From stdpp Require Import options.

Definition CommunicationCapability := "core.communication".
Definition OperationSendText := "send_text".
Definition OperationListPeers := "list_peers".

(** The errors whose text becomes a tool's message. *)
Inductive tool_failure :=
| ContextFailure | ResolveFailure (e : resolve_error) | CoordinatorFailure (e : coordinator_error)
| PermissionFailure (e : permission_error) | CommunicationFailure (e : communication_error).

Record ContinuationOutcome := {
  oc_Success : bool; oc_ExecutionID : string; oc_Output : string; oc_ErrorCode : string; oc_Error : string;
}.

Inductive mind_error :=
| MindPermission (e : permission_error) | MindEncoding | MindNotifier (text : string) | MindJoined (text : string) (e : permission_error).

Section tool_executor.
Context `{EventJSON} {Any Ctx Bodies Notified : Type}.

(** What a call reads from the clock, the generators of identifiers and the transport. *)
Record Moment := {
  mt_expiry : time; mt_create : time; mt_request_id : string; mt_fk : bool;
  mt_transport : Owner -> Delivery -> option transport_error;
  mt_event : time; mt_send : time; mt_sent : time; mt_event_id : string; mt_delivery_id : string;
}.

(** The readings of the clock while a decided request is carried on. *)
Record Continuation := { ct_claim : time; ct_complete : time; ct_note : time; ct_noted : time; ct_call : Moment }.

(** [json.Marshal] and [json.Unmarshal] of arguments, of a result and of an outcome. *)
Context (Marshal : option (gmap string Any) -> option string) (Unmarshal : string -> option (option (gmap string Any))).
Context (marshal_result : gmap string Any -> string).
Context (marshal_outcome : ContinuationOutcome -> option string) (unmarshal_outcome : string -> option ContinuationOutcome).
(** The dynamic values: a type assertion to [string] and the injections in use. *)
Context (as_string : Any -> option string) (of_string : string -> Any) (of_bool : bool -> Any) (of_int : Z -> Any)
  (of_peers : list Peer -> Any).
(** [Error()] of an error, and whether [ctx] is done. *)
Context (error_text : tool_failure -> string) (done : Ctx -> Bodies -> bool).

(** The state cognition acts on: the Bodies, Core's tables and what notifications change besides. *)
Record mind := { m_bodies : Bodies; m_core : world; m_notified : Notified }.

Definition put_bodies (w : mind) (b : Bodies) : mind := {| m_bodies := b; m_core := m_core w; m_notified := m_notified w |}.
Definition put_core (w : mind) (c : world) : mind := {| m_bodies := m_bodies w; m_core := c; m_notified := m_notified w |}.
Definition put_table (w : mind) (t : gmap string Permission.Request) : mind := put_core w (put_requests (m_core w) t).
Definition table_of (w : mind) : gmap string Permission.Request := w_requests (m_core w).

(** [x_registry] lists the registered Bodies in the order in which [All] visits them, [x_requests] is the manager with
    its policy, [x_communication] the sender with its directory. *)
Record MindExecutor := {
  x_registry : option (Bodies -> list BodyView);
  x_actionPolicy : option (PolicyRequest Any -> PolicyResult);
  x_coordinator : option (Guard Any Ctx Bodies);
  x_dollID : string;
  x_preferences : gmap string Z;
  x_ownerPolicy : OwnerPolicy;
  x_requests : option (option (PolicyRequest Any -> PolicyResult));
  x_ownerID : string;
  x_approvalTTL : duration;
  x_notifier : option (string -> Permission.Request -> ContinuationOutcome -> mind -> option string * mind);
  x_communication : option MemoryResolver;
}.

(** ** The tools on offer *)

Definition communicationTool : Tool :=
  {| t_Name := CommunicationCapability +:+ ToolNameDelimiter +:+ OperationSendText;
     t_Description := "Send a text message to a known Core principal through their existing active Gateway conversation.";
     t_InputSchema := Some (ObjectSchema ["recipient_principal_id"; "text"] ["recipient_principal_id"; "text"]);
     t_CapabilityID := CommunicationCapability; t_OperationID := OperationSendText; t_TargetBodyID := "" |}.

Definition communicationPeersTool : Tool :=
  {| t_Name := CommunicationCapability +:+ ToolNameDelimiter +:+ OperationListPeers;
     t_Description := "List trusted Core principals known to the Doll, their authority classification, identity platforms, and whether an eligible active Gateway Session can carry a message.";
     t_InputSchema := Some (ObjectSchema [] []);
     t_CapabilityID := CommunicationCapability; t_OperationID := OperationListPeers; t_TargetBodyID := "" |}.

Definition untargeted (t : Tool) : Tool :=
  {| t_Name := t_Name t; t_Description := t_Description t; t_InputSchema := t_InputSchema t;
     t_CapabilityID := t_CapabilityID t; t_OperationID := t_OperationID t; t_TargetBodyID := "" |}.

Definition body_before (a b : BodyView) : Prop := str_le (bv_ID a) (bv_ID b).
Definition tool_before (a b : Tool) : Prop := str_le (t_Name a) (t_Name b).

#[global] Instance body_before_dec : RelDecision body_before.
Proof. intros a b. unfold body_before. apply _. Defined.
#[global] Instance tool_before_dec : RelDecision tool_before.
Proof. intros a b. unfold tool_before. apply _. Defined.

(** The first tool of a name is kept. *)
Definition add_tool (m : gmap string Tool) (t : Tool) : gmap string Tool :=
  match m !! t_Name t with Some _ => m | None => <[t_Name t := untargeted t]> m end.

Definition by_name (bodies : list BodyView) : gmap string Tool :=
  foldl add_tool ∅ (bodies ≫= fun b => ProjectToolsFromCapabilities (bv_Describe b) (bv_ID b)).

Definition MindTools (x : MindExecutor) (w : Bodies) : list Tool :=
  match x_registry x, x_communication x with
  | None, None => []
  | registry, sender =>
      let bodies := merge_sort body_before (match registry with Some all => all w | None => [] end) in
      merge_sort tool_before ((map_to_list (by_name bodies)).*2 ++
        match sender with Some _ => [communicationTool; communicationPeersTool] | None => [] end)
  end.

(** ** Results *)

Definition failureResult (callID code message : string) : ToolResult Any :=
  {| tr_ToolCallID := callID; tr_ExecutionID := ""; tr_Status := ToolResultFailure; tr_Result := None;
     tr_Error := Some {| te_Code := code; te_Message := message; te_PermissionRequestID := "" |}; tr_Attempts := [];
     tr_CandidateRejections := [] |}.

Definition successResult (callID : string) (r : ExecutionResult) : ToolResult Any :=
  {| tr_ToolCallID := callID; tr_ExecutionID := xs_ExecutionID r; tr_Status := ToolResultSuccess;
     tr_Result := if empty_str (xs_Output r) then None else Some {[ "output" := of_string (xs_Output r) ]};
     tr_Error := None; tr_Attempts := []; tr_CandidateRejections := [] |}.

Definition with_attempts (r : ToolResult Any) (executionID : string) (attempts : list ToolExecutionAttempt)
    (rejections : list ToolCandidateRejection) : ToolResult Any :=
  {| tr_ToolCallID := tr_ToolCallID r; tr_ExecutionID := executionID; tr_Status := tr_Status r; tr_Result := tr_Result r;
     tr_Error := tr_Error r; tr_Attempts := attempts; tr_CandidateRejections := rejections |}.

Definition code_text (c : RejectionCode) : string :=
  match c with
  | RejectedUnsupportedCapability => "unsupported_capability" | RejectedUnsupportedOperation => "unsupported_operation"
  | RejectedUnavailable => "unavailable" | RejectedCapabilityConstraint => "capability_constraint"
  | RejectedMissingResource => "missing_resource" | RejectedMissingData => "missing_data"
  | RejectedTaskConstraint => "task_constraint" | RejectedOwnerPolicy => "owner_policy"
  end.

(** [%q] of a key and a value is a parameter. *)
Context (detail_text : detail -> string).

Definition toolCandidateRejections (rejected : list RejectedCandidate) : list ToolCandidateRejection :=
  (fun c => {| tj_BodyID := rc_Body c;
               tj_Reasons := (fun r => code_text (rj_Code r) +:+ ": " +:+ detail_text (rj_Detail r)) <$> rc_Reasons c |})
    <$> rejected.

Definition exhaustedToolError (hist : list Attempt) : string * string :=
  match last hist with
  | None => ("candidates_exhausted", error_text (CoordinatorFailure ErrCandidatesExhausted))
  | Some a =>
      let r := at_Result a in
      if same_str (xs_Status r) CoreStatusDenied then ("denied", "authority denied: " +:+ xs_Error r)
      else if same_str (xs_Status r) CoreStatusUnavailable then ("unavailable", "capability unavailable: " +:+ xs_Error r)
      else if same_str (xs_Status r) CoreStatusFailed then ("execution_failed", "Body execution failed: " +:+ xs_Error r)
      else ("candidates_exhausted", error_text (CoordinatorFailure ErrCandidatesExhausted))
  end.

Definition toolOutcome (callID : string) (hist : list Attempt) (rejections : list ToolCandidateRejection)
    (err : option coordinator_error) : ToolResult Any :=
  let attempts := (fun a => {| ta_BodyID := at_BodyID a; ta_ExecutionID := at_ExecutionID a;
                               ta_Status := xs_Status (at_Result a); ta_ErrorCode := xs_ErrorCode (at_Result a) |}) <$> hist in
  let failed :=
    let '(code, message) :=
      match err with
      | Some Resolver.ContextDone => ("cancelled", error_text ContextFailure)
      | Some ErrGlobalProhibition => ("action_denied", "global authority prohibition")
      | Some ErrCandidatesExhausted => exhaustedToolError hist
      | Some e => ("execution_failed", error_text (CoordinatorFailure e))
      | None => ("execution_failed", "Body execution failed")
      end in
    with_attempts (failureResult callID code message)
      (match last hist with Some a => xs_ExecutionID (at_Result a) | None => "" end) attempts rejections in
  match err, last hist with
  | None, Some a =>
      if same_str (xs_Status (at_Result a)) CoreStatusSuccess
      then with_attempts (successResult callID (at_Result a)) (xs_ExecutionID (at_Result a)) attempts rejections
      else failed
  | _, _ => failed
  end.

(** ** Messages *)

Definition listCommunicationPeers (x : MindExecutor) (ctx : Ctx) (call : ToolCall Any) (w : mind) : ToolResult Any :=
  match x_communication x with
  | None => failureResult (tc_ID call) "communication_unavailable" "communication service is unavailable"
  | Some directory =>
      match ListPeers (w_sessions (m_core w)) directory (done ctx (m_bodies w)) with
      | Err e => failureResult (tc_ID call) "peer_discovery_failed" (error_text (CommunicationFailure e))
      | Ok peers =>
          {| tr_ToolCallID := tc_ID call; tr_ExecutionID := ""; tr_Status := ToolResultSuccess;
             tr_Result := Some {[ "peers" := of_peers peers; "peer_count" := of_int (len peers) ]};
             tr_Error := None; tr_Attempts := []; tr_CandidateRejections := [] |}
      end
  end.

Definition argument (call : ToolCall Any) (key : string) : option string :=
  default ∅ (tc_Arguments call) !! key ≫= as_string.

Definition sendCommunication (x : MindExecutor) (mt : Moment) (k : ToolCorrelation) (call : ToolCall Any) (w : mind)
    : ToolResult Any * mind :=
  match x_communication x with
  | None => (failureResult (tc_ID call) "communication_unavailable" "communication service is unavailable", w)
  | Some _ =>
      let invalid := (failureResult (tc_ID call) "invalid_arguments" "recipient_principal_id and text are required", w) in
      match argument call "recipient_principal_id", argument call "text" with
      | Some recipient, Some text =>
          if blank recipient || blank text then invalid
          else
            let '(result, err, core) :=
              SendText (mt_fk mt) (m_core w) (mt_transport mt) (mt_event mt) (mt_send mt) (mt_sent mt) (mt_event_id mt)
                (mt_delivery_id mt)
                {| st_RecipientPrincipalID := recipient; st_Text := text;
                   st_Correlation := {| mc_SessionID := tk_SessionID k; mc_TurnID := tk_TurnID k; mc_ToolCallID := tc_ID call;
                                        mc_CognitiveRunID := tk_CognitiveRunID k; mc_IntentionID := tk_IntentionID k |} |} in
            let deliveryID := match result with Some r => sr_DeliveryID r | None => "" end in
            let status := sr_Status <$> result in
            let answer st fields error :=
              {| tr_ToolCallID := tc_ID call; tr_ExecutionID := deliveryID; tr_Status := st; tr_Result := fields;
                 tr_Error := error; tr_Attempts := []; tr_CandidateRejections := [] |} in
            let problem code message := Some {| te_Code := code; te_Message := message; te_PermissionRequestID := "" |} in
            (if bool_decide (err = None) && bool_decide (status = Some DeliveryAccepted) then
               answer ToolResultSuccess
                 (Some {[ "delivery_id" := of_string deliveryID;
                          "session_id" := of_string (match result with Some r => sr_SessionID r | None => "" end);
                          "delivery_status" := of_string "accepted" ]}) None
             else if bool_decide (status = Some DeliveryPending) then
               answer ToolResultFailure
                 (Some {[ "delivery_id" := of_string deliveryID; "delivery_status" := of_string "pending";
                          "durably_queued" := of_bool true; "retry_owner" := of_string "core_session_event_replay";
                          "resend_required" := of_bool false ]})
                 (problem "delivery_pending" "message is durably queued and awaiting Gateway delivery")
             else answer ToolResultFailure None
               (match err with
                | Some ErrUnknownRecipient => problem "unknown_recipient" "recipient is not known to Core"
                | Some ErrRecipientUnreachable | Some (CommunicationEvent ErrRecipientUnavailable) =>
                    problem "recipient_unavailable" "recipient has no active Gateway conversation"
                | Some e => problem "delivery_failed" (error_text (CommunicationFailure e))
                | None => problem "delivery_failed" "message delivery failed"
                end), put_core w core)
      | _, _ => invalid
      end
  end.

(** ** Approval *)

Definition with_request (r : ToolResult Any) (id : string) : ToolResult Any :=
  {| tr_ToolCallID := tr_ToolCallID r; tr_ExecutionID := tr_ExecutionID r; tr_Status := tr_Status r; tr_Result := tr_Result r;
     tr_Error := (fun e => {| te_Code := te_Code e; te_Message := te_Message e; te_PermissionRequestID := id |}) <$> tr_Error r;
     tr_Attempts := tr_Attempts r; tr_CandidateRejections := tr_CandidateRejections r |}.

Definition question_of (tool : Tool) (message : string) : string :=
  let question := TrimSpace message in
  if empty_str question then "May I execute " +:+ t_CapabilityID tool +:+ "/" +:+ t_OperationID tool +:+ "?" else question.

Definition approval_input (x : MindExecutor) (mt : Moment) (k : ToolCorrelation) (call : ToolCall Any) (tool : Tool)
    (message arguments : string) : CreateRequest :=
  {| c_DollID := x_dollID x; c_OwnerID := x_ownerID x; c_Origin := OriginPolicyRequired; c_Action := t_Name tool;
     c_Question := question_of tool message; c_Capability := t_CapabilityID tool; c_Operation := t_OperationID tool;
     c_Arguments := arguments;
     c_ExpiresAt := mt_expiry mt + (if x_approvalTTL x <=? 0 then 15 * 60 * second else x_approvalTTL x);
     c_Correlation := {| CognitiveRunID := tk_CognitiveRunID k; SessionID := tk_SessionID k; TurnID := tk_TurnID k;
                         ToolCallID := tc_ID call; IntentionID := tk_IntentionID k |} |}.

(** [Create] decodes a JSON null as the empty arguments. *)
Definition decode_arguments (s : string) : option (gmap string Any) := default ∅ <$> Unmarshal s.

Definition requestApproval (x : MindExecutor) (mt : Moment) (k : ToolCorrelation) (call : ToolCall Any) (tool : Tool)
    (decision : PolicyResult) (w : mind) : ToolResult Any * mind :=
  match x_requests x with
  | None => (failureResult (tc_ID call) "approval_required" (p_Message decision), w)
  | Some policy =>
      if empty_str (x_ownerID x) then (failureResult (tc_ID call) "approval_required" (p_Message decision), w)
      else
        match Marshal (tc_Arguments call) with
        | None => (failureResult (tc_ID call) "invalid_arguments" "tool arguments cannot be recorded for approval", w)
        | Some arguments =>
            match Permission.Create decode_arguments policy (table_of w) (mt_create mt) (mt_request_id mt)
                    (approval_input x mt k call tool (p_Message decision) arguments) with
            | Err e => (failureResult (tc_ID call) "approval_request_failed" (error_text (PermissionFailure e)), w)
            | Ok (q, t) =>
                (with_request (failureResult (tc_ID call) "approval_required" (question_of tool (p_Message decision)))
                   (q_ID q), put_table w t)
            end
        end
  end.

(** ** A call *)

Definition registryCandidates (x : MindExecutor) (all : Bodies -> list BodyView) (w : Bodies) : list Candidate :=
  (fun b => {| cd_Body := Some b; cd_Resources := ∅; cd_Data := ∅; cd_Attributes := ∅; cd_Unavailable := false;
               cd_Preference := default 0 (x_preferences x !! bv_ID b) |}) <$> all w.

Definition requirement_of (tool : Tool) : ActionRequirement :=
  {| rq_Capability := t_CapabilityID tool; rq_Operation := t_OperationID tool; rq_RequiredResources := ∅;
     rq_RequiredData := ∅; rq_RequiredCapabilityConstraints := ∅ |}.

Definition constraints_of (tool : Tool) : TaskConstraints :=
  {| tc_AllowedBodyIDs := if empty_str (t_TargetBodyID tool) then [] else [t_TargetBodyID tool];
     tc_ExcludedBodyIDs := []; tc_AllowedKinds := []; tc_RequiredAttributes := ∅ |}.

Definition action_of (x : MindExecutor) (call : ToolCall Any) (tool : Tool) : PolicyRequest Any :=
  {| pq_Doll := x_dollID x; pq_Capability := t_CapabilityID tool; pq_Operation := t_OperationID tool;
     pq_Arguments := default ∅ (tc_Arguments call) |}.

Definition coordinate (x : MindExecutor) (guard : Guard Any Ctx Bodies) (all : Bodies -> list BodyView) (ctx : Ctx)
    (call : ToolCall Any) (tool : Tool) (w : mind) : ToolResult Any * mind :=
  let '(resolved, err) := Resolver.Resolve (requirement_of tool) (constraints_of tool) (x_ownerPolicy x)
                            (registryCandidates x all (m_bodies w)) in
  let rejections := toolCandidateRejections (match resolved with Some r => rs_Rejected r | None => [] end) in
  match err, resolved with
  | None, Some r =>
      let '((hist, failure), b) := Resolver.Execute guard done ctx r
          {| cq_ExecutionID := "tool_" +:+ tc_ID call; cq_Doll := x_dollID x; cq_Arguments := tc_Arguments call |} (m_bodies w) in
      (toolOutcome (tc_ID call) hist rejections failure, put_bodies w b)
  | Some e, _ =>
      (with_attempts (failureResult (tc_ID call) "no_eligible_body" (error_text (ResolveFailure e))) "" [] rejections, w)
  | None, None => (failureResult (tc_ID call) "no_eligible_body" "", w)
  end.

Definition executeCall (x : MindExecutor) (ctx : Ctx) (mt : Moment) (k : ToolCorrelation) (call : ToolCall Any)
    (tool : option Tool) (approved : bool) (w : mind) : ToolResult Any * mind :=
  match tool with
  | None => (failureResult (tc_ID call) "unknown_tool" "tool definition not found", w)
  | Some tool =>
      if done ctx (m_bodies w) then (failureResult (tc_ID call) "cancelled" (error_text ContextFailure), w)
      else
        match x_registry x, x_actionPolicy x, x_coordinator x with
        | Some all, Some policy, Some guard =>
            if empty_str (x_dollID x)
            then (failureResult (tc_ID call) "invalid_configuration" "tool execution boundaries are unavailable", w)
            else
              let decision := policy (action_of x call tool) in
              let go :=
                if same_str (t_CapabilityID tool) CommunicationCapability && same_str (t_OperationID tool) OperationSendText
                then sendCommunication x mt k call w
                else if same_str (t_CapabilityID tool) CommunicationCapability && same_str (t_OperationID tool) OperationListPeers
                then (listCommunicationPeers x ctx call w, w)
                else coordinate x guard all ctx call tool w in
              if same_str (p_Decision decision) DecisionAllow then go
              else if same_str (p_Decision decision) DecisionDeny
              then (failureResult (tc_ID call) "action_denied" (p_Message decision), w)
              else if same_str (p_Decision decision) DecisionRequireApproval
              then if approved then go else requestApproval x mt k call tool decision w
              else (failureResult (tc_ID call) "invalid_configuration" "action policy returned an invalid decision", w)
        | _, _, _ => (failureResult (tc_ID call) "invalid_configuration" "tool execution boundaries are unavailable", w)
        end
  end.

Definition MindExecuteCall (x : MindExecutor) (ctx : Ctx) (mt : Moment) (call : ToolCall Any) (tool : option Tool) (w : mind)
    : ToolResult Any * mind :=
  executeCall x ctx mt {| tk_SessionID := ""; tk_TurnID := ""; tk_CognitiveRunID := ""; tk_IntentionID := "" |} call tool false w.

Definition MindExecuteCorrelatedCall (x : MindExecutor) (ctx : Ctx) (mt : Moment) (k : ToolCorrelation) (call : ToolCall Any)
    (tool : option Tool) (w : mind) : ToolResult Any * mind := executeCall x ctx mt k call tool false w.

(** ** After the Owner's decision *)

Definition permissionNotificationLease : duration := 5 * 60 * second.

Definition OutcomeNotificationID (id : string) : string := "permission-outcome:" +:+ id.

Definition notifyCompletedOutcome (x : MindExecutor) (ct : Continuation) (q : Permission.Request) (w : mind)
    : option mind_error * mind :=
  match x_notifier x with
  | None => (None, w)
  | Some notify =>
      match unmarshal_outcome (q_ContinuationResult q) with
      | None => (Some MindEncoding, w)
      | Some outcome =>
          match ClaimOutcomeNotification (table_of w) (ct_note ct) (q_ID q) permissionNotificationLease with
          | (Err ErrNotificationClaimed, t) => (None, put_table w t)
          | (Err e, t) => (Some (MindPermission e), put_table w t)
          | (Ok claimed, t) =>
              match notify (OutcomeNotificationID (q_ID q)) claimed outcome (put_table w t) with
              | (Some text, w1) =>
                  match ReleaseOutcomeNotification (table_of w1) (q_ID q) text with
                  | (Ok _, t') => (Some (MindNotifier text), put_table w1 t')
                  | (Err e, t') => (Some (MindJoined text e), put_table w1 t')
                  end
              | (None, w1) =>
                  match CompleteOutcomeNotification (table_of w1) (ct_noted ct) (q_ID q) with
                  | (Ok _, t') => (None, put_table w1 t')
                  | (Err e, t') => (Some (MindPermission e), put_table w1 t')
                  end
              end
          end
      end
  end.

(** Recording an outcome: what is left to do is to notify, or an error. *)
Definition complete (ct : Continuation) (id : string) (outcome : ContinuationOutcome) (w : mind)
    : (option mind_error + Permission.Request) * mind :=
  match marshal_outcome outcome with
  | None => (inl (Some MindEncoding), w)
  | Some encoded =>
      match CompleteContinuation (table_of w) (ct_complete ct) id (oc_Success outcome) encoded with
      | (Err e, t) => (inl (Some (MindPermission e)), put_table w t)
      | (Ok q, t) => (inr q, put_table w t)
      end
  end.

Definition continued_call (claimed : Permission.Request) : ToolCall Any :=
  {| tc_ID := if empty_str (ToolCallID (q_Correlation claimed)) then "permission_" +:+ q_ID claimed
              else ToolCallID (q_Correlation claimed);
     tc_Name := q_Action claimed;
     tc_Arguments := if empty_str (q_Arguments claimed) then Some ∅ else default None (Unmarshal (q_Arguments claimed)) |}.

Definition continued_tool (claimed : Permission.Request) : Tool :=
  {| t_Name := q_Action claimed; t_Description := ""; t_InputSchema := None; t_CapabilityID := q_Capability claimed;
     t_OperationID := q_Operation claimed; t_TargetBodyID := "" |}.

Definition continued_correlation (claimed : Permission.Request) : ToolCorrelation :=
  {| tk_SessionID := SessionID (q_Correlation claimed); tk_TurnID := TurnID (q_Correlation claimed);
     tk_CognitiveRunID := CognitiveRunID (q_Correlation claimed); tk_IntentionID := IntentionID (q_Correlation claimed) |}.

Definition outcome_of (r : ToolResult Any) : ContinuationOutcome :=
  {| oc_Success := match tr_Status r with ToolResultSuccess => true | ToolResultFailure => false end;
     oc_ExecutionID := tr_ExecutionID r;
     oc_Output := match tr_Result r with Some m => marshal_result m | None => "" end;
     oc_ErrorCode := match tr_Error r with Some e => te_Code e | None => "" end;
     oc_Error := match tr_Error r with Some e => te_Message e | None => "" end |}.

Definition retryable (r : ToolResult Any) : bool :=
  match tr_Error r with
  | Some e => same_str (te_Code e) "no_eligible_body" || same_str (te_Code e) "unavailable"
  | None => false
  end.

Definition owner_denied : ContinuationOutcome :=
  {| oc_Success := false; oc_ExecutionID := ""; oc_Output := ""; oc_ErrorCode := "owner_denied";
     oc_Error := "Owner denied the requested action" |}.

(** [HandlePermissionResolution] up to the notification. *)
Definition continue_permission (x : MindExecutor) (ctx : Ctx) (ct : Continuation) (request : option Permission.Request)
    (w : mind) : (option mind_error + Permission.Request) * mind :=
  match request, x_requests x with
  | Some request, Some _ =>
      if negb (bool_decide (q_Status request = StatusApproved)) && negb (bool_decide (q_Status request = StatusDenied))
      then (inl (Some (MindPermission Permission.ErrInvalidTransition)), w)
      else
        match ClaimContinuation (table_of w) (ct_claim ct) (q_ID request) with
        | (Err ErrContinuationClaimed, t) =>
            match t !! q_ID request with
            | Some q => if done_phase (q_Continuation q) then (inr q, put_table w t) else (inl None, put_table w t)
            | None => (inl None, put_table w t)
            end
        | (Err e, t) => (inl (Some (MindPermission e)), put_table w t)
        | (Ok claimed, t) =>
            let w1 := put_table w t in
            if bool_decide (q_Status claimed = StatusDenied) then complete ct (q_ID claimed) owner_denied w1
            else
              let '(result, w2) := executeCall x ctx (ct_call ct) (continued_correlation claimed) (continued_call claimed)
                                     (Some (continued_tool claimed)) true w1 in
              if retryable result then
                match ReleaseContinuation (table_of w2) (ct_complete ct) (q_ID claimed) with
                | (Err e, t') => (inl (Some (MindPermission e)), put_table w2 t')
                | (Ok _, t') => (inl None, put_table w2 t')
                end
              else complete ct (q_ID claimed) (outcome_of result) w2
        end
  | _, _ => (inl (Some (MindPermission Permission.ErrInvalidRequest)), w)
  end.

Definition HandlePermissionResolution (x : MindExecutor) (ctx : Ctx) (ct : Continuation) (request : option Permission.Request)
    (w : mind) : option mind_error * mind :=
  match continue_permission x ctx ct request w with
  | (inl err, w1) => (err, w1)
  | (inr q, w1) => notifyCompletedOutcome x ct q w1
  end.

(** The loops of a replay stop at the first error; [ct] gives the readings for each request. *)
Fixpoint replay_with (handle : Permission.Request -> mind -> option mind_error * mind) (l : list Permission.Request) (w : mind)
    : option mind_error * mind :=
  match l with
  | [] => (None, w)
  | q :: rest =>
      match handle q w with
      | (Some e, w1) => (Some e, w1)
      | (None, w1) => replay_with handle rest w1
      end
  end.

Definition ambiguous : ContinuationOutcome :=
  {| oc_Success := false; oc_ExecutionID := ""; oc_Output := ""; oc_ErrorCode := "execution_outcome_ambiguous";
     oc_Error := "Core restarted after action dispatch began; external execution outcome is unknown and was not replayed" |}.

(** [recoveryInitialized] is the flag of the executor. *)
Definition initializePermissionRecovery (now : time) (initialized : bool) (w : mind) : option mind_error * bool * mind :=
  if initialized then (None, true, w)
  else match marshal_outcome ambiguous with
       | None => (Some MindEncoding, false, w)
       | Some encoded => (None, true, put_table w (RecoverInterruptedPermissionContinuations (table_of w) encoded now))
       end.

Definition ReplayPermissionResolutions (x : MindExecutor) (ctx : Ctx) (ct : Permission.Request -> Continuation)
    (now later : time) (initialized : bool) (w : mind) : option mind_error * bool * mind :=
  match x_requests x with
  | None => (Some (MindPermission Permission.ErrInvalidRequest), initialized, w)
  | Some _ =>
      match initializePermissionRecovery now initialized w with
      | (Some e, b, w1) => (Some e, b, w1)
      | (None, b, w1) =>
          match replay_with (fun q => HandlePermissionResolution x ctx (ct q) (Some q))
                  (ListReadyPermissionContinuations (table_of w1)) w1 with
          | (Some e, w2) => (Some e, b, w2)
          | (None, w2) =>
              let '(err, w3) := replay_with (fun q => notifyCompletedOutcome x (ct q) q)
                                  (ListPermissionOutcomeNotifications (table_of w2) later) w2 in
              (err, b, w3)
          end
      end
  end.

(** ** Theorems *)

Lemma toolOutcome_facts id hist rejections err :
  let r := toolOutcome id hist rejections err in
  tr_ToolCallID r = id /\ (ta_BodyID <$> tr_Attempts r) = (at_BodyID <$> hist) /\ tr_CandidateRejections r = rejections /\
  (tr_Status r = ToolResultSuccess <->
   err = None /\ exists a, last hist = Some a /\ xs_Status (at_Result a) = CoreStatusSuccess).
Proof.
  assert (Hmap : forall l : list Attempt,
    (ta_BodyID <$> ((fun a => {| ta_BodyID := at_BodyID a; ta_ExecutionID := at_ExecutionID a;
       ta_Status := xs_Status (at_Result a); ta_ErrorCode := xs_ErrorCode (at_Result a) |}) <$> l)) = (at_BodyID <$> l)).
  { intros l. by rewrite <- list_fmap_compose. }
  unfold toolOutcome. destruct err as [e|].
  - assert (Hp : exists code message, match Some e with
        | Some Resolver.ContextDone => ("cancelled", error_text ContextFailure)
        | Some ErrGlobalProhibition => ("action_denied", "global authority prohibition")
        | Some ErrCandidatesExhausted => exhaustedToolError hist
        | Some e => ("execution_failed", error_text (CoordinatorFailure e))
        | None => ("execution_failed", "Body execution failed") end = (code, message)) by (eexists _, _; apply surjective_pairing).
    destruct Hp as (code & message & ->). simpl. rewrite Hmap. split_and!; [done..|]. split; [done|intros [? _]; done].
  - destruct (last hist) as [a|] eqn:Ea.
    + destruct (same_str _ CoreStatusSuccess) eqn:Es; simpl; rewrite Hmap; split_and!; try done.
      * apply same_str_true in Es. split; [|done]. intros _. split; [done|]. by exists a.
      * apply same_str_false in Es. split; [done|]. intros (_ & b & [= <-] & Hb). done.
    + simpl. rewrite Hmap. split_and!; [done..|]. split; [done|]. intros (_ & b & ? & _). done.
Qed.

Lemma coordinate_spec x guard all ctx call tool w result w' :
  coordinate x guard all ctx call tool w = (result, w') ->
  tr_ToolCallID result = tc_ID call /\ m_core w' = m_core w /\ m_notified w' = m_notified w /\
  ((w' = w /\ tr_Status result = ToolResultFailure) \/
   exists resolved hist,
     Resolver.Resolve (requirement_of tool) (constraints_of tool) (x_ownerPolicy x) (registryCandidates x all (m_bodies w)) =
       (Some resolved, None) /\
     guarded guard (requirement_of tool)
       {| cq_ExecutionID := "tool_" +:+ tc_ID call; cq_Doll := x_dollID x; cq_Arguments := tc_Arguments call |} ctx 0
       (rs_Eligible resolved) (m_bodies w) hist (m_bodies w') /\
     (ta_BodyID <$> tr_Attempts result) = (at_BodyID <$> hist)).
Proof.
  unfold coordinate. destruct (Resolver.Resolve _ _ _ _) as [[r|] [e|]] eqn:Er; simpl;
    try (intros [= <- <-]; split_and!; [done..|by left]).
  destruct (Resolver.Execute _ _ _ _ _ _) as [[hist failure] b] eqn:Ee. intros [= <- <-].
  destruct (toolOutcome_facts (tc_ID call) hist (toolCandidateRejections (rs_Rejected r)) failure) as (Hid & Hat & _ & _).
  split_and!; [done..|]. right. exists r, hist. split; [done|]. simpl.
  assert (Hreq : rs_Requirement r = requirement_of tool).
  { unfold Resolver.Resolve in Er. case_match; [done|]. destruct (classify _ _ _ _ _ _ _) as [[??]|]; [|done].
    case_bool_decide; simplify_eq; done. }
  unfold Resolver.Execute in Ee. rewrite Hreq in Ee.
  destruct (_ || _); [simplify_eq; split; [constructor|done]|].
  case_bool_decide; [simplify_eq; split; [constructor|done]|].
  apply attempts_spec in Ee as (more & -> & Hg & _); [|constructor]. done.
Qed.

Lemma SendText_requests fk c transport a b d ide id r :
  w_requests (SendText fk c transport a b d ide id r).2 = w_requests c.
Proof.
  unfold SendText. destruct (_ || _); [done|]. destruct (ListParticipantSessions _ _) as [bindings|]; [|done].
  destruct (selectRoute _ _).1 as [s|]; [|by destruct bindings].
  destruct (NewEvent _ _ _ _ _ _) as [e|]; [|done].
  assert (He : w_requests (Emit fk c transport b d id e (TrimSpace (st_RecipientPrincipalID r))).2 = w_requests c).
  { assert (Hrec : forall c0 i st f er n, w_requests (recorded c0 i st f er n).2 = w_requests c0).
    { intros. unfold recorded, UpdateDelivery. by destruct (w_deliveries c0 !! i). }
    unfold Emit, emit, create. destruct (emit_checks _ _ _) as [owner|]; [|done]. simpl. unfold CreateDelivery, insertDelivery.
    destruct (_ || _); [done|]. unfold attempt, recordAttempt. repeat case_match; by rewrite Hrec. }
  destruct (Emit _ _ _ _ _ _ _ _) as [[[dl|] err] c']; done.
Qed.

(** The policy allows the action, or asks for an approval that has been given. *)
Definition permitted (x : MindExecutor) (call : ToolCall Any) (tool : Tool) (approved : bool) : Prop :=
  exists policy, x_actionPolicy x = Some policy /\
    let d := p_Decision (policy (action_of x call tool)) in
    d = DecisionAllow \/ (d = DecisionRequireApproval /\ approved = true).

(** The message of a call: its recipient and its text are arguments of the call. *)
Definition message_of (k : ToolCorrelation) (call : ToolCall Any) (req : SendTextRequest) : Prop :=
  argument call "recipient_principal_id" = Some (st_RecipientPrincipalID req) /\ argument call "text" = Some (st_Text req) /\
  st_Correlation req = {| mc_SessionID := tk_SessionID k; mc_TurnID := tk_TurnID k; mc_ToolCallID := tc_ID call;
                          mc_CognitiveRunID := tk_CognitiveRunID k; mc_IntentionID := tk_IntentionID k |}.

(** What a call can do: nothing; record a request; send its message; run the action on eligible Bodies, each time through
    the guard. *)
Inductive call_effect (x : MindExecutor) (ctx : Ctx) (mt : Moment) (k : ToolCorrelation) (call : ToolCall Any)
    (tool : Tool) (approved : bool) (w : mind) : ToolResult Any -> mind -> Prop :=
| effect_none r :
    (tr_Status r = ToolResultSuccess -> permitted x call tool approved) -> call_effect x ctx mt k call tool approved w r w
| effect_asked r policy manager arguments q t e :
    x_actionPolicy x = Some policy -> p_Decision (policy (action_of x call tool)) = DecisionRequireApproval ->
    approved = false -> x_requests x = Some manager -> Marshal (tc_Arguments call) = Some arguments ->
    Permission.Create decode_arguments manager (table_of w) (mt_create mt) (mt_request_id mt)
      (approval_input x mt k call tool (p_Message (policy (action_of x call tool))) arguments) = Ok (q, t) ->
    tr_Status r = ToolResultFailure -> tr_Error r = Some e -> te_Code e = "approval_required" ->
    te_PermissionRequestID e = q_ID q -> call_effect x ctx mt k call tool approved w r (put_table w t)
| effect_sent r core req :
    permitted x call tool approved -> t_CapabilityID tool = CommunicationCapability -> t_OperationID tool = OperationSendText ->
    message_of k call req ->
    core = (SendText (mt_fk mt) (m_core w) (mt_transport mt) (mt_event mt) (mt_send mt) (mt_sent mt) (mt_event_id mt)
              (mt_delivery_id mt) req).2 -> w_requests core = w_requests (m_core w) ->
    call_effect x ctx mt k call tool approved w r (put_core w core)
| effect_ran r b all guard resolved hist :
    permitted x call tool approved -> x_registry x = Some all -> x_coordinator x = Some guard ->
    Resolver.Resolve (requirement_of tool) (constraints_of tool) (x_ownerPolicy x) (registryCandidates x all (m_bodies w)) =
      (Some resolved, None) ->
    guarded guard (requirement_of tool)
      {| cq_ExecutionID := "tool_" +:+ tc_ID call; cq_Doll := x_dollID x; cq_Arguments := tc_Arguments call |} ctx 0
      (rs_Eligible resolved) (m_bodies w) hist b ->
    (ta_BodyID <$> tr_Attempts r) = (at_BodyID <$> hist) -> call_effect x ctx mt k call tool approved w r (put_bodies w b).

Lemma sendCommunication_spec x mt k call w result w' :
  sendCommunication x mt k call w = (result, w') ->
  tr_ToolCallID result = tc_ID call /\
  ((w' = w /\ tr_Status result = ToolResultFailure) \/
   exists req, message_of k call req /\ w' = put_core w (SendText (mt_fk mt) (m_core w) (mt_transport mt) (mt_event mt) (mt_send mt) (mt_sent mt)
     (mt_event_id mt) (mt_delivery_id mt) req).2).
Proof.
  unfold sendCommunication. destruct (x_communication x); [|intros [= <- <-]; split; [done|by left]].
  destruct (argument call "recipient_principal_id") as [recipient|] eqn:Erc; [|intros [= <- <-]; split; [done|by left]].
  destruct (argument call "text") as [text|] eqn:Etx; [|intros [= <- <-]; split; [done|by left]].
  destruct (_ || _); [intros [= <- <-]; split; [done|by left]|].
  set (req := {| st_RecipientPrincipalID := recipient |}).
  destruct (SendText _ _ _ _ _ _ _ _ req) as [[r err] core] eqn:Es. intros [= <- <-]. split.
  - destruct (_ && _); [done|]. by case_bool_decide.
  - right. exists req. rewrite Es. split; [by split_and!|done].
Qed.

Lemma put_core_same w : put_core w (m_core w) = w.
Proof. by destruct w. Qed.

Lemma put_bodies_same w w' : m_core w' = m_core w -> m_notified w' = m_notified w -> w' = put_bodies w (m_bodies w').
Proof. destruct w, w'. simpl. by intros -> ->. Qed.

Lemma requestApproval_effect x ctx mt k call tool policy w result w' :
  x_actionPolicy x = Some policy -> p_Decision (policy (action_of x call tool)) = DecisionRequireApproval ->
  requestApproval x mt k call tool (policy (action_of x call tool)) w = (result, w') ->
  tr_ToolCallID result = tc_ID call /\ call_effect x ctx mt k call tool false w result w'.
Proof.
  intros Hp Hd. unfold requestApproval. destruct (x_requests x) as [manager|] eqn:Er;
    [|intros [= <- <-]; split; [done|by apply effect_none]].
  destruct (empty_str _); [intros [= <- <-]; split; [done|by apply effect_none]|].
  destruct (Marshal _) as [arguments|] eqn:Em; [|intros [= <- <-]; split; [done|by apply effect_none]].
  destruct (Permission.Create _ _ _ _ _ _) as [[q t]|] eqn:Ec; [|intros [= <- <-]; split; [done|by apply effect_none]].
  intros [= <- <-]. split; [done|]. by eapply effect_asked.
Qed.

Lemma executeCall_effect x ctx mt k call tool approved w result w' :
  executeCall x ctx mt k call (Some tool) approved w = (result, w') ->
  tr_ToolCallID result = tc_ID call /\ call_effect x ctx mt k call tool approved w result w'.
Proof.
  unfold executeCall. destruct (done _ _); [intros [= <- <-]; split; [done|by apply effect_none]|].
  destruct (x_registry x) as [all|] eqn:Ea; [|intros [= <- <-]; split; [done|by apply effect_none]].
  destruct (x_actionPolicy x) as [policy|] eqn:Ep; [|intros [= <- <-]; split; [done|by apply effect_none]].
  destruct (x_coordinator x) as [guard|] eqn:Eg; [|intros [= <- <-]; split; [done|by apply effect_none]].
  destruct (empty_str _); [intros [= <- <-]; split; [done|by apply effect_none]|].
  assert (Hgo : permitted x call tool approved ->
    (if same_str (t_CapabilityID tool) CommunicationCapability && same_str (t_OperationID tool) OperationSendText
     then sendCommunication x mt k call w
     else if same_str (t_CapabilityID tool) CommunicationCapability && same_str (t_OperationID tool) OperationListPeers
     then (listCommunicationPeers x ctx call w, w) else coordinate x guard all ctx call tool w) = (result, w') ->
    tr_ToolCallID result = tc_ID call /\ call_effect x ctx mt k call tool approved w result w').
  { intros Hok. destruct (same_str _ CommunicationCapability && same_str _ OperationSendText) eqn:E1.
    - apply andb_true_iff in E1 as [Hc%same_str_true Ho%same_str_true].
      intros (Hid & [[-> _]|(req & Hm & ->)])%sendCommunication_spec; (split; [done|]); [by apply effect_none|].
      eapply effect_sent; [done..|]. apply SendText_requests.
    - cbv iota. destruct (same_str _ CommunicationCapability && same_str _ OperationListPeers).
      + intros Heq. assert (result = listCommunicationPeers x ctx call w) as -> by congruence. assert (w' = w) as -> by congruence. split; [|by apply effect_none]. unfold listCommunicationPeers. by repeat case_match.
      + intros (Hid & Hcore & Hn & [[-> _]|(resolved & hist & Hr & Hgd & Hat)])%coordinate_spec; (split; [done|]);
          [by apply effect_none|]. rewrite (put_bodies_same w w') by done. by eapply effect_ran. }
  destruct (same_str _ DecisionAllow) eqn:E1.
  { apply same_str_true in E1. apply Hgo. exists policy. split; [done|by left]. }
  destruct (same_str _ DecisionDeny); [intros [= <- <-]; split; [done|by apply effect_none]|].
  destruct (same_str _ DecisionRequireApproval) eqn:E3; [|intros [= <- <-]; split; [done|by apply effect_none]].
  apply same_str_true in E3. destruct approved; [|by apply requestApproval_effect].
  apply Hgo. exists policy. split; [done|by right].
Qed.

(** C24: every tool call goes through the policy.  It answers the call it was given; it reaches a Body only through the
    guard and only one that the resolver found eligible for that capability and operation, it sends a message only with
    the messaging tool, and either only if the policy allows the action or an approval it requires was given; otherwise
    it does nothing, or records one pending request, for the Owner, and says so. *)
Theorem tool_calls_authorized x ctx mt k call tool approved w result w' :
  executeCall x ctx mt k call tool approved w = (result, w') ->
  tr_ToolCallID result = tc_ID call /\
  match tool with
  | None => w' = w /\ tr_Status result = ToolResultFailure
  | Some t => call_effect x ctx mt k call t approved w result w'
  end.
Proof. destruct tool as [t|]; [apply executeCall_effect|]. intros [= <- <-]. done. Qed.

(** *** Continuations *)

Lemma table_put w t : table_of (put_table w t) = t.
Proof. done. Qed.

Lemma approved_keeps_table x ctx mt k call tool w r w' :
  call_effect x ctx mt k call tool true w r w' -> table_of w' = table_of w.
Proof. inversion 1; subst; try done. Qed.

Lemma claim_cases t now id out t' :
  ClaimContinuation t now id = (out, t') ->
  match out with
  | Ok q => exists q0, t !! id = Some q0 /\ claimable q0 = true /\
      q = set_continuation q0 ContinuationRunning (q_ContinuationResult q0) (Some now) /\ t' = <[id := q]> t
  | Err _ => t' = t /\ forall q0, t !! id = Some q0 -> claimable q0 = false
  end.
Proof.
  unfold ClaimContinuation, ClaimPermissionContinuation, update_row, load. destruct (t !! id) as [q0|] eqn:E.
  - destruct (claimable q0) eqn:Ec; [|rewrite E; simpl; intros [= <- <-]; split; [done|]; intros ? [= <-]; done].
    rewrite lookup_insert_eq. simpl. intros [= <- <-]. by exists q0.
  - rewrite E. intros [= <- <-]. done.
Qed.

(** A claimed row that is completed, or released. *)
Lemma complete_running ct id outcome w out w' q :
  complete ct id outcome w = (out, w') -> table_of w !! id = Some q -> q_Continuation q = ContinuationRunning ->
  (out = inl (Some MindEncoding) /\ w' = w /\ marshal_outcome outcome = None) \/
  exists encoded, marshal_outcome outcome = Some encoded /\
    let q' := finish (if oc_Success outcome then ContinuationSucceeded else ContinuationFailed) encoded (ct_complete ct) q in
    out = inr q' /\ w' = put_table w (<[id := q']> (table_of w)).
Proof.
  unfold complete. intros Hc Hq Hr. destruct (marshal_outcome outcome) as [encoded|]; [|left; by simplify_eq].
  right. exists encoded. split; [done|]. revert Hc. unfold CompleteContinuation, CompletePermissionContinuation, update_row, load.
  rewrite Hq, bool_decide_eq_true_2 by done. rewrite lookup_insert_eq. simpl. by intros [= <- <-].
Qed.

Lemma release_running t now id q :
  t !! id = Some q -> q_Status q = StatusApproved -> q_Continuation q = ContinuationRunning ->
  let q' := set_continuation q ContinuationReady (q_ContinuationResult q) (Some now) in
  ReleaseContinuation t now id = (Ok q', <[id := q']> t).
Proof.
  intros Hq Hs Hr. unfold ReleaseContinuation, ReleasePermissionContinuation, update_row, load.
  rewrite Hq, !bool_decide_eq_true_2 by done. simpl. by rewrite lookup_insert_eq.
Qed.

(** Where a decided request stands after [continue_permission]. *)
Inductive continued (x : MindExecutor) (ctx : Ctx) (ct : Continuation) (id : string) (w : mind)
    : (option mind_error + Permission.Request) -> mind -> Prop :=
| continued_not out :
    (forall q, table_of w !! id = Some q -> claimable q = true ->
       out = inl (Some (MindPermission Permission.ErrInvalidRequest)) \/
       out = inl (Some (MindPermission Permission.ErrInvalidTransition))) ->
    continued x ctx ct id w out w
| continued_denied q out w' :
    table_of w !! id = Some q -> q_Status q = StatusDenied -> q_Continuation q = ContinuationDenied ->
    let q1 := set_continuation q ContinuationRunning (q_ContinuationResult q) (Some (ct_claim ct)) in
    complete ct id owner_denied (put_table w (<[id := q1]> (table_of w))) = (out, w') ->
    continued x ctx ct id w out w'
| continued_ran q result w2 q' out :
    table_of w !! id = Some q -> q_Status q = StatusApproved -> q_Continuation q = ContinuationReady ->
    let q1 := set_continuation q ContinuationRunning (q_ContinuationResult q) (Some (ct_claim ct)) in
    executeCall x ctx (ct_call ct) (continued_correlation q1) (continued_call q1) (Some (continued_tool q1)) true
      (put_table w (<[id := q1]> (table_of w))) = (result, w2) ->
    table_of w2 = <[id := q1]> (table_of w) ->
    (if retryable result
     then out = inl None /\ q' = set_continuation q1 ContinuationReady (q_ContinuationResult q) (Some (ct_complete ct))
     else match marshal_outcome (outcome_of result) with
          | Some encoded =>
              out = inr q' /\ q' = finish (if oc_Success (outcome_of result) then ContinuationSucceeded
                                           else ContinuationFailed) encoded (ct_complete ct) q1
          | None => out = inl (Some MindEncoding) /\ q' = q1
          end) ->
    continued x ctx ct id w out (put_table w2 (<[id := q']> (table_of w))).

Lemma put_table_same w t : table_of w = t -> put_table w t = w.
Proof. destruct w as [b [] n]. unfold put_table, put_core, put_requests, table_of. simpl. by intros ->. Qed.

Lemma continue_cases x ctx ct request w out w' :
  continue_permission x ctx ct (Some request) w = (out, w') -> table_ok (table_of w) ->
  continued x ctx ct (q_ID request) w out w'.
Proof.
  intros Hc Hok. unfold continue_permission in Hc. destruct (x_requests x); [|simplify_eq; apply continued_not; auto].
  destruct (_ && _); [simplify_eq; apply continued_not; auto|].
  destruct (ClaimContinuation _ _ _) as [answer t] eqn:Ec. apply claim_cases in Ec. destruct answer as [claimed|e].
  - destruct Ec as (q & Hq & Hcl & -> & ->). destruct (Hok _ _ Hq) as [Hid _].
    change (q_Status (set_continuation q _ _ _)) with (q_Status q) in Hc.
    change (q_ID (set_continuation q _ _ _)) with (q_ID q) in Hc. rewrite Hid in Hc.
    destruct (claimable_cases _ Hcl) as [[Hs Hk]|[Hs Hk]].
    + rewrite bool_decide_eq_false_2 in Hc by congruence.
      destruct (executeCall _ _ _ _ _ _ _ _) as [result w2] eqn:Ee.
      pose proof Ee as Hef. apply executeCall_effect in Hef as [_ Hef]. apply approved_keeps_table in Hef.
      set (q1 := set_continuation q ContinuationRunning _ _) in *.
      assert (H1 : table_of w2 !! q_ID request = Some q1) by (rewrite Hef; apply lookup_insert_eq).
      destruct (retryable result) eqn:Er.
      * rewrite (release_running _ _ _ q1 H1 Hs eq_refl) in Hc. simplify_eq. rewrite Hef, table_put, insert_insert_eq.
        eapply continued_ran; [done..|exact Ee|done|]. by rewrite Er.
      * destruct (complete_running _ _ _ _ _ _ _ Hc H1 eq_refl) as [(-> & -> & Hm)|(encoded & Hm & -> & ->)].
        -- rewrite <- (put_table_same w2 (<[q_ID request := q1]> (table_of w)) Hef).
           eapply continued_ran; [done..|exact Ee|done|]. by rewrite Er, Hm.
        -- rewrite Hef, table_put, insert_insert_eq. eapply continued_ran; [done..|exact Ee|done|]. by rewrite Er, Hm.
    + rewrite bool_decide_eq_true_2 in Hc by done. by eapply continued_denied.
  - destruct Ec as [-> Hcl]. rewrite (put_table_same w) in Hc by done.
    assert (Hw : w' = w) by (destruct e; simplify_eq; try done; repeat case_match; by simplify_eq). subst w'.
    apply continued_not. intros q Hq Hcq. by rewrite Hcl in Hcq.
Qed.

Lemma claim_run t now id q :
  t !! id = Some q -> claimable q = true ->
  let q1 := set_continuation q ContinuationRunning (q_ContinuationResult q) (Some now) in
  perm_step t (if decide (q_Status q = StatusApproved) then Claimed id else Quiet) (<[id := q1]> t).
Proof.
  intros Hq Hc q1. pose proof (ps_claim t now id) as Hs.
  assert (He : ClaimContinuation t now id = (Ok q1, <[id := q1]> t)).
  { unfold ClaimContinuation, ClaimPermissionContinuation, update_row, load. rewrite Hq, Hc. by rewrite lookup_insert_eq. }
  rewrite He in Hs. exact Hs.
Qed.

Lemma complete_run ct id outcome w out w' :
  complete ct id outcome w = (out, w') ->
  (exists es, perm_run (table_of w) es (table_of w') /\ count (Claimed id) es = 0%nat) /\
  m_bodies w' = m_bodies w /\ w_deliveries (m_core w') = w_deliveries (m_core w).
Proof.
  unfold complete. destruct (marshal_outcome outcome) as [encoded|]; [|intros [= <- <-]; split; [exists []; split; [constructor|done]|done]].
  pose proof (ps_complete (table_of w) (ct_complete ct) id (oc_Success outcome) encoded) as Hs.
  destruct (CompleteContinuation _ _ _ _ _) as [[q|e] t]; intros [= <- <-]; (split; [|done]); exists [Quiet];
    (split; [econstructor; [exact Hs|constructor]|done]).
Qed.

Lemma release_run t now id q :
  t !! id = Some q -> q_Status q = StatusApproved -> q_Continuation q = ContinuationRunning ->
  perm_step t (Released id) (<[id := set_continuation q ContinuationReady (q_ContinuationResult q) (Some now)]> t).
Proof.
  intros Hq Hs Hr. pose proof (ps_release t now id) as Hst. rewrite (release_running t now id q Hq Hs Hr) in Hst.
  assert (He : (ReleasePermissionContinuation t id now).1 = true).
  { unfold ReleasePermissionContinuation, update_row. rewrite Hq, !bool_decide_eq_true_2 by done. done. }
  rewrite He in Hst. exact Hst.
Qed.

Lemma finish_run t now id q (ok : bool) encoded :
  t !! id = Some q -> q_Continuation q = ContinuationRunning ->
  perm_step t Quiet (<[id := finish (if ok then ContinuationSucceeded else ContinuationFailed) encoded now q]> t).
Proof.
  intros Hq Hr. pose proof (ps_complete t now id ok encoded) as Hs. rewrite CompleteContinuation_table in Hs.
  unfold CompletePermissionContinuation, update_row in Hs. rewrite Hq, bool_decide_eq_true_2 in Hs by done. exact Hs.
Qed.

(** A run that is not released leaves nothing to claim. *)
Lemma continued_again x ctx ct id w out w' :
  continued x ctx ct id w out w' ->
  (forall q, table_of w !! id = Some q -> q_Status q = StatusApproved /\ q_Continuation q <> ContinuationReady) ->
  m_bodies w' = m_bodies w /\ w_deliveries (m_core w') = w_deliveries (m_core w).
Proof.
  intros Hc Hn. destruct Hc as [out Hno|q out w' Hq Hs Hk q1 Hco|q result w2 q' out Hq Hs Hk q1 He Ht Hout].
  - done.
  - by destruct (complete_run _ _ _ _ _ _ Hco) as [_ [-> ->]].
  - by destruct (Hn q Hq).
Qed.

Lemma claimable_approved q : q_Status q = StatusApproved -> q_Continuation q = ContinuationReady -> claimable q = true.
Proof. intros Hs Hk. unfold claimable. by rewrite !bool_decide_eq_true_2 by done. Qed.

Lemma continued_run x ctx ct id w out w' :
  continued x ctx ct id w out w' -> exists es, perm_run (table_of w) es (table_of w') /\ (count (Claimed id) es <= 1)%nat.
Proof.
  intros Hc. destruct Hc as [out Hno|q out w' Hq Hs Hk q1 Hco|q result w2 q' out Hq Hs Hk q1 He Ht Hout].
  - exists []. split; [constructor|]. unfold count. simpl. lia.
  - destruct (complete_run _ _ _ _ _ _ Hco) as [(es & Hr & Hn) _]. rewrite table_put in Hr.
    exists (Quiet :: es). rewrite count_cons, Hn. split; [|simpl; lia]. econstructor; [|exact Hr].
    pose proof (claim_run (table_of w) (ct_claim ct) id q Hq) as Hst. rewrite decide_False in Hst by congruence. apply Hst.
    unfold claimable. by rewrite Hs, Hk.
  - pose proof (claim_run (table_of w) (ct_claim ct) id q Hq (claimable_approved _ Hs Hk)) as Hst. rewrite decide_True in Hst by done.
    fold q1 in Hst. rewrite table_put.
    assert (H1 : (<[id := q1]> (table_of w) : gmap string Permission.Request) !! id = Some q1) by apply lookup_insert_eq.
    destruct (retryable result).
    + destruct Hout as [_ ->]. exists [Claimed id; Released id]. split; [|rewrite !count_cons; repeat case_decide; simplify_eq; unfold count; simpl; lia].
      econstructor; [exact Hst|]. econstructor; [|constructor].
      pose proof (release_run _ (ct_complete ct) id q1 H1 Hs eq_refl) as Hr. rewrite insert_insert_eq in Hr. exact Hr.
    + destruct (marshal_outcome _) as [encoded|].
      * destruct Hout as [_ ->]. exists [Claimed id; Quiet]. split; [|rewrite !count_cons; repeat case_decide; simplify_eq; unfold count; simpl; lia].
        econstructor; [exact Hst|]. econstructor; [|constructor].
        pose proof (finish_run _ (ct_complete ct) id q1 (oc_Success (outcome_of result)) encoded H1 eq_refl) as Hr.
        rewrite insert_insert_eq in Hr. exact Hr.
      * destruct Hout as [_ ->]. exists [Claimed id]. split; [|rewrite !count_cons; repeat case_decide; simplify_eq; unfold count; simpl; lia].
        econstructor; [exact Hst|constructor].
Qed.

(** The call and the tool that a recorded request stands for: its capability, operation, action, arguments and
    correlation, on no particular Body. *)
Definition recorded_call (q : Permission.Request) (k : ToolCorrelation) (call : ToolCall Any) (tool : Tool) : Prop :=
  t_CapabilityID tool = q_Capability q /\ t_OperationID tool = q_Operation q /\ t_Name tool = q_Action q /\ t_TargetBodyID tool = "" /\
  tc_Name call = q_Action q /\
  tc_Arguments call = (if empty_str (q_Arguments q) then Some ∅ else default None (Unmarshal (q_Arguments q))) /\
  (ToolCallID (q_Correlation q) <> "" -> tc_ID call = ToolCallID (q_Correlation q)) /\
  tk_SessionID k = SessionID (q_Correlation q) /\ tk_TurnID k = TurnID (q_Correlation q) /\
  tk_CognitiveRunID k = CognitiveRunID (q_Correlation q) /\ tk_IntentionID k = IntentionID (q_Correlation q).

Lemma continued_recorded q phase result at_ :
  let q1 := set_continuation q phase result at_ in
  recorded_call q (continued_correlation q1) (continued_call q1) (continued_tool q1).
Proof. unfold recorded_call, continued_call. simpl. split_and!; try done. intros Hne. by rewrite (proj2 (empty_str_false _) Hne). Qed.

(** C13: after the Owner's decision the action runs only for a claimed, approved request, and the claim is recorded first:
    in every reachable state of the tables, carrying a decision on makes at most one claim; a Body or a message is
    reached only when the request was approved and ready, and then by exactly the effect of one approved tool call with
    the capability, operation, arguments and correlation that the request recorded; the request keeps its terms; and
    unless the claim is released, as it is when no Body was eligible or available, no later attempt to carry the same
    request on reaches either again. *)
Theorem continuation_runs_once x ctx ct request es0 w out w' :
  perm_run ∅ es0 (table_of w) ->
  continue_permission x ctx ct (Some request) w = (out, w') ->
  let id := q_ID request in
  let same w w' := m_bodies w' = m_bodies w /\ w_deliveries (m_core w') = w_deliveries (m_core w) in
  (exists es, perm_run (table_of w) es (table_of w') /\ (count (Claimed id) es <= 1)%nat) /\
  (same w w' \/
   exists q q' k call tool result w1 w2,
     table_of w !! id = Some q /\ q_Status q = StatusApproved /\ q_Continuation q = ContinuationReady /\
     recorded_call q k call tool /\ same w w1 /\ call_effect x ctx (ct_call ct) k call tool true w1 result w2 /\ same w2 w' /\
     table_of w' !! id = Some q' /\ same_terms q q' /\
     (q_Continuation q' = ContinuationReady -> out = inl None) /\
     (q_Continuation q' <> ContinuationReady -> forall x2 ctx2 ct2 request2, q_ID request2 = id ->
        same w' (continue_permission x2 ctx2 ct2 (Some request2) w').2)).
Proof.
  intros Hrun Hc id same. assert (Hok : table_ok (table_of w)) by (eapply (perm_run_count _ _ _ id Hrun); done).
  pose proof (continue_cases _ _ _ _ _ _ _ Hc Hok) as Hcase. destruct (continued_run _ _ _ _ _ _ _ Hcase) as (es & Hr & Hn).
  split; [by exists es|]. destruct (perm_run_count _ _ _ id Hr Hok) as [_ Hok'].
  destruct Hcase as [out Hno|q out w' Hq Hs Hk q1 Hco|q result w2 q' out Hq Hs Hk q1 He Ht Hout].
  - by left.
  - left. destruct (complete_run _ _ _ _ _ _ Hco) as [_ Hsame]. exact Hsame.
  - right. assert (Hq' : table_of (put_table w2 (<[id:=q']> (table_of w))) !! id = Some q') by apply lookup_insert_eq.
    assert (Hterm : same_terms q q' /\ q_Status q' = StatusApproved).
    { destruct (retryable result); [destruct Hout as [_ ->]; done|]. destruct (marshal_outcome _); destruct Hout as [_ ->]; done. }
    exists q, q', (continued_correlation q1), (continued_call q1), (continued_tool q1), result, (put_table w (<[id := q1]> (table_of w))), w2.
    split_and!; try done; [apply continued_recorded|by apply executeCall_effect in He as [_ He]|apply Hterm|..].
    + intros Hr'. destruct (retryable result); [by destruct Hout|]. exfalso. destruct (marshal_outcome _); destruct Hout as [_ ->];
        [by destruct (oc_Success _)|done].
    + intros Hnr x2 ctx2 ct2 request2 Hid.
      destruct (continue_permission x2 ctx2 ct2 (Some request2) _) as [out2 w3] eqn:E2. simpl.
      eapply continued_again; [by eapply continue_cases|]. rewrite Hid. intros q2 Hq2.
      assert (q2 = q') as -> by (apply (inj Some); etrans; [symmetry; exact Hq2|exact Hq']). split; [apply Hterm|done].
Qed.

(** *** The list of tools *)

Lemma add_tools_sound l : forall m n t,
  foldl add_tool m l !! n = Some t ->
  m !! n = Some t \/ exists t0, t0 ∈ l /\ t = untargeted t0 /\ t_Name t0 = n.
Proof.
  induction l as [|t0 l IH]; intros m n t Hl; simpl in Hl; [by left|].
  destruct (IH _ _ _ Hl) as [Hm|(t1 & Hin & -> & Hn)]; [|right; exists t1; set_solver].
  unfold add_tool in Hm. destruct (m !! t_Name t0) eqn:E; [by left|].
  apply lookup_insert_Some in Hm as [[<- <-]|[_ Hm]]; [right; exists t0; set_solver|by left].
Qed.

Lemma add_tools_complete l : forall m n,
  (is_Some (m !! n) \/ exists t0, t0 ∈ l /\ t_Name t0 = n) -> is_Some (foldl add_tool m l !! n).
Proof.
  induction l as [|t0 l IH]; intros m n Hn; simpl; [destruct Hn as [?|(? & ? & _)]; set_solver|].
  apply IH. unfold add_tool. destruct Hn as [Hm|(t1 & Hin & <-)].
  - left. destruct (m !! t_Name t0) eqn:E; [done|]. destruct (decide (t_Name t0 = n)) as [<-|Hne]; [by rewrite lookup_insert_eq|].
    by rewrite lookup_insert_ne.
  - apply elem_of_cons in Hin as [->|Hin]; [left|right; eauto].
    destruct (m !! t_Name t0) eqn:E; [by rewrite E|by rewrite lookup_insert_eq].
Qed.

Lemma projected_tool caps id t :
  t ∈ ProjectToolsFromCapabilities caps id <->
  exists c op, c ∈ caps /\ cap_Available c = true /\ op ∈ cap_Operations c /\ op <> "" /\
    t = {| t_Name := toolName id (cap_ID c) op; t_Description := description_of c op; t_InputSchema := None;
           t_CapabilityID := cap_ID c; t_OperationID := op; t_TargetBodyID := id |}.
Proof.
  unfold ProjectToolsFromCapabilities. rewrite list_elem_of_bind. split.
  - intros (c & Ht & Hc). destruct (cap_Available c) eqn:Ea; simpl in Ht; [|set_solver].
    apply list_elem_of_omap in Ht as (op & Hop & He). destruct (empty_str op) eqn:Eo; [done|]. simplify_eq.
    apply empty_str_false in Eo. by exists c, op.
  - intros (c & op & Hc & Ha & Hop & Hne & ->). exists c. split; [|done]. rewrite Ha. simpl.
    apply list_elem_of_omap. exists op. split; [done|]. by rewrite (proj2 (empty_str_false op) Hne).
Qed.

#[global] Instance body_before_total : Total body_before.
Proof. intros a b. unfold body_before. apply total, _. Qed.
#[global] Instance body_before_trans : Transitive body_before.
Proof. intros a b c. unfold body_before. apply transitivity. Qed.
#[global] Instance tool_before_total : Total tool_before.
Proof. intros a b. unfold tool_before. apply total, _. Qed.

Lemma elem_of_tools x all w t :
  x_registry x = Some all ->
  (t ∈ MindTools x w <->
   by_name (merge_sort body_before (all w)) !! t_Name t = Some t \/
   (is_Some (x_communication x) /\ (t = communicationTool \/ t = communicationPeersTool))).
Proof.
  intros Hr. unfold MindTools. rewrite Hr.
  assert (Hm : t ∈ (map_to_list (by_name (merge_sort body_before (all w)))).*2 <->
    by_name (merge_sort body_before (all w)) !! t_Name t = Some t).
  { rewrite list_elem_of_fmap. split.
    - intros ([n t'] & -> & Hin). simpl. apply elem_of_map_to_list in Hin. pose proof Hin as Hin'.
      apply add_tools_sound in Hin' as [He|(t0 & _ & Ht & <-)]; [by rewrite lookup_empty in He|]. rewrite Ht in *. done.
    - intros Hl. exists (t_Name t, t). split; [done|]. by apply elem_of_map_to_list. }
  rewrite merge_sort_Permutation, elem_of_app, Hm. destruct (x_communication x); [|rewrite is_Some_alt; set_solver].
  split; (intros [?|Hc]; [by left|right]); [split; [done|set_solver]|set_solver].
Qed.

(** The tools offered to a model are sorted by name and name no Body.  Each is a message tool or an operation that
    some registered Body offers now, every operation on offer has a tool of its name, and the list does not depend on
    the order in which the registry is visited. *)
Theorem tools_listed x all w :
  x_registry x = Some all ->
  Sorted tool_before (MindTools x w) /\
  (forall t, t ∈ MindTools x w ->
     t_TargetBodyID t = "" /\ t_Name t = toolName "" (t_CapabilityID t) (t_OperationID t) /\
     (t_CapabilityID t = CommunicationCapability \/
      exists b c, b ∈ all w /\ c ∈ bv_Describe b /\ cap_Available c = true /\ cap_ID c = t_CapabilityID t /\
        t_OperationID t ∈ cap_Operations c)) /\
  (forall b c op, b ∈ all w -> c ∈ bv_Describe b -> cap_Available c = true -> op ∈ cap_Operations c -> op <> "" ->
     exists t, t ∈ MindTools x w /\ t_Name t = toolName (bv_ID b) (cap_ID c) op) /\
  (forall x' all', x_registry x' = Some all' -> x_communication x' = x_communication x -> all' w ≡ₚ all w ->
     NoDup (bv_ID <$> all w) -> MindTools x' w = MindTools x w).
Proof.
  intros Hr. split_and!.
  - unfold MindTools. rewrite Hr. apply Sorted_merge_sort, _.
  - intros t [Hl|[_ [->| ->]]]%(elem_of_tools x all); [|by split_and!; [..|left]|by split_and!; [..|left]|done].
    apply add_tools_sound in Hl as [He|(t0 & Hin & Ht & _)]; [by rewrite lookup_empty in He|].
    apply list_elem_of_bind in Hin as (b & Hin & Hb). rewrite merge_sort_Permutation in Hb.
    apply projected_tool in Hin as (c & op & Hc & Ha & Hop & Hne & ->). subst t. simpl.
    split_and!; [done..|]. right. by exists b, c.
  - intros b c op Hb Hc Ha Hop Hne.
    destruct (add_tools_complete (merge_sort body_before (all w) ≫= fun b => ProjectToolsFromCapabilities (bv_Describe b) (bv_ID b))
      ∅ (toolName (bv_ID b) (cap_ID c) op)) as [t Ht].
    { right. exists {| t_Name := toolName (bv_ID b) (cap_ID c) op; t_Description := description_of c op; t_InputSchema := None;
        t_CapabilityID := cap_ID c; t_OperationID := op; t_TargetBodyID := bv_ID b |}. split; [|done]. apply list_elem_of_bind. exists b. rewrite merge_sort_Permutation. split; [|done].
      apply projected_tool. by exists c, op. }
    pose proof Ht as Ht'. apply add_tools_sound in Ht' as [He|(t0 & _ & Hu & Hn)]; [by rewrite lookup_empty in He|].
    exists t. subst t. simpl. split; [|done]. apply (elem_of_tools x all); [done|]. left. simpl. by rewrite Hn.
  - intros x' all' Hr' Hc Hp Hnd. unfold MindTools. rewrite Hr, Hr', Hc.
    rewrite (merge_sort_order_free body_before (all' w) (all w)); [done|done|].
    intros a b Ha Hb H1 H2. rewrite Hp in Ha, Hb. apply list_elem_of_lookup in Ha as [i Hi], Hb as [j Hj].
    assert (i = j) as ->; [|congruence]. eapply NoDup_lookup; [exact Hnd|by rewrite list_lookup_fmap, Hi|].
    rewrite list_lookup_fmap, Hj. simpl. f_equal. by apply (anti_symm str_le).
Qed.

(** *** The executor in the inference loop *)

Definition ExecuteSequentially (x : MindExecutor) (ctx : Ctx) (mt : mind -> Moment) (toolMap : gmap string Tool)
    : list (ToolCall Any) -> mind -> list (ToolResult Any) * mind :=
  fix run calls w :=
    match calls with
    | [] => ([], w)
    | call :: rest =>
        let '(result, w1) := MindExecuteCall x ctx (mt w) call (toolMap !! tc_Name call) w in
        let '(results, w2) := run rest w1 in (result :: results, w2)
    end.

(** The executor as the interface of the loop; [mt] reads the clock when a call begins. *)
Definition as_tool_executor (x : MindExecutor) (ctx : Ctx) (mt : mind -> Moment) : ToolExecutor Any mind :=
  {| Tools := fun w => MindTools x (m_bodies w);
     ExecuteCall := fun call tool w => MindExecuteCall x ctx (mt w) call tool w;
     ExecuteCorrelatedCall := Some (fun k call tool w => MindExecuteCorrelatedCall x ctx (mt w) k call tool w) |}.

Lemma unpermitted_effect x ctx mt k call tool w result w' policy :
  x_actionPolicy x = Some policy -> p_Decision (policy (action_of x call tool)) <> DecisionAllow ->
  call_effect x ctx mt k call tool false w result w' ->
  m_bodies w' = m_bodies w /\ w_deliveries (m_core w') = w_deliveries (m_core w) /\ w_sessions (m_core w') = w_sessions (m_core w).
Proof.
  intros Hp Hd He. assert (Hno : ~ permitted x call tool false).
  { intros (policy' & Hp' & Hor). rewrite Hp in Hp'. simplify_eq. destruct Hor as [?|[_ ?]]; done. }
  inversion He; subst; done.
Qed.

(** C4: a model cannot act without the Owner.  Whatever the provider answers and however the context is built, while
    these leave the Bodies and the deliveries alone, an execution under a policy that allows no action outright reaches
    no Body and sends no message: it can only ask. *)
Theorem model_cannot_act_unpermitted x ctx mt policy (r : CognitiveExecution.Request Any mind) fuel w :
  x_actionPolicy x = Some policy -> (forall action, p_Decision (policy action) <> DecisionAllow) ->
  rq_ToolExecutor r = Some (as_tool_executor x ctx mt) ->
  let same w w' := m_bodies w' = m_bodies w /\ w_deliveries (m_core w') = w_deliveries (m_core w) in
  (forall b st w, rq_BuildContext r = Some b -> same w (b st w).2) ->
  (forall p q w, rq_Provider r = Some p -> same w (p q w).2) ->
  same w (CognitiveExecution.Execute (fun w => done ctx (m_bodies w)) fuel r w).2.
Proof.
  intros Hp Hd Hx same Hb Hpr. apply (execution_keeps _ (fun w' => same w w')); [..|done].
  - intros b st w1 Eb [H1 H2]. destruct (Hb b st w1 Eb) as [H3 H4]. unfold same. split; congruence.
  - intros p q w1 Ep [H1 H2]. destruct (Hpr p q w1 Ep) as [H3 H4]. unfold same. split; congruence.
  - intros x' tools call w1 Ex [H1 H2]. rewrite Hx in Ex. injection Ex as <-.
    unfold execute_one, as_tool_executor, MindExecuteCorrelatedCall. simpl.
    destruct (executeCall _ _ _ _ _ _ _ _) as [result w2] eqn:E. simpl. unfold same.
    destruct (tool_map tools !! tc_Name call) as [tool|]; [|simpl in E; simplify_eq; done].
    apply executeCall_effect in E as [_ E]. destruct (unpermitted_effect _ _ _ _ _ _ _ _ _ _ Hp (Hd _) E) as (H3 & H4 & _).
    split; congruence.
Qed.

End tool_executor.

(** ** A concrete executor

    Two Bodies offer the camera; invocations are logged.  [a] runs and reports a failure, [b] has become unavailable. *)

#[local] Existing Instance sample_json.

Definition camera : Capability :=
  {| cap_ID := "camera"; cap_Operations := ["capture"]; cap_Available := true; cap_Constraints := None; cap_Metadata := None |}.

Definition camera_view (id : string) : BodyView :=
  {| bv_ID := id; bv_Kind := "remote"; bv_ResolveCapability := fun _ _ => None; bv_Describe := [camera] |}.

Definition reports (status : string) : ExecutionResult :=
  {| xs_ExecutionID := ""; xs_Status := status; xs_Output := ""; xs_ErrorCode := ""; xs_Error := ""; xs_DenialScope := "" |}.

Definition camera_guard (status : string) : Guard string unit (list string) :=
  {| g_registry := <["a" := {| Body_ResolveCapability := fun _ _ _ => None;
                               Body_Execute := fun _ req w => ((Some (reports status), None), w ++ [xr_Body req]) |}]>
       (<["b" := {| Body_ResolveCapability := fun _ _ _ => Some ErrCapabilityUnavailable;
                    Body_Execute := fun _ _ w => ((None, None), w) |}]> ∅);
     g_evaluator := fun _ w => ({| Body.Decision := AuthorityAllow; Body.Reason := ""; Body.Message := ""; Body.Scope := "" |}, w) |}.

Definition ask_first : PolicyRequest string -> PolicyResult :=
  fun _ => {| p_Decision := DecisionRequireApproval; p_Reason := "owner"; p_Message := "" |}.

Definition camera_executor (status : string) : MindExecutor (Any := string) (Ctx := unit) (Bodies := list string) (Notified := unit) :=
  {| x_registry := Some (fun _ => [camera_view "a"; camera_view "b"]); x_actionPolicy := Some ask_first;
     x_coordinator := Some (camera_guard status); x_dollID := "doll"; x_preferences := ∅; x_ownerPolicy := no_policy;
     x_requests := Some (Some ask_first); x_ownerID := "owner"; x_approvalTTL := 0; x_notifier := None;
     x_communication := None |}.

Definition moment : Moment :=
  {| mt_expiry := 10 * second; mt_create := 10 * second; mt_request_id := "p2"; mt_fk := true; mt_transport := fun _ _ => None;
     mt_event := 0; mt_send := 0; mt_sent := 0; mt_event_id := "e"; mt_delivery_id := "d" |}.

Definition readings (at_ : time) : Continuation :=
  {| ct_claim := at_; ct_complete := at_; ct_note := at_; ct_noted := at_; ct_call := moment |}.

Definition demo_mind (t : gmap string Permission.Request) : mind (Bodies := list string) (Notified := unit) :=
  {| m_bodies := []; m_core := put_requests empty_world t; m_notified := tt |}.

Definition handle (status : string) (at_ : time) (request : option Permission.Request)
    (w : mind (Bodies := list string) (Notified := unit)) : (option mind_error + Permission.Request) * mind :=
  continue_permission (fun _ => Some "null") (fun _ => Some None) (fun _ => "{}") (fun _ => Some "{}") Some (fun s => s)
    (fun _ => "true") (fun _ => "0") (fun _ => "[]") (fun _ => "error") (fun _ _ => false) (fun _ => "") (camera_executor status)
    tt (readings at_) request w.

Definition call_camera (approved : bool) (w : mind (Bodies := list string) (Notified := unit)) : ToolResult string * mind :=
  executeCall (fun _ => Some "null") (fun _ => Some None) Some (fun s => s) (fun _ => "true") (fun _ => "0") (fun _ => "[]")
    (fun _ => "error") (fun _ _ => false) (fun _ => "") (camera_executor CoreStatusSuccess) tt moment
    {| tk_SessionID := ""; tk_TurnID := ""; tk_CognitiveRunID := "run"; tk_IntentionID := "" |}
    {| tc_ID := "c1"; tc_Name := "camera__capture"; tc_Arguments := None |}
    (Some {| t_Name := "camera__capture"; t_Description := ""; t_InputSchema := None; t_CapabilityID := "camera";
             t_OperationID := "capture"; t_TargetBodyID := "" |}) approved w.

(** A released action can run twice.  The Owner approved one capture; the first Body runs it and reports a failure,
    the second is unavailable, so the claim is released, since only the last attempt is looked at, and carrying the
    request on again runs the capture on the first Body a second time. *)
Theorem released_action_runs_again :
  let w0 := demo_mind demo_approved in
  let '(out1, w1) := handle CoreStatusFailed (30 * second) (demo_approved !! "p1") w0 in
  let '(out2, w2) := handle CoreStatusFailed (40 * second) (table_of w1 !! "p1") w1 in
  m_bodies w0 = [] /\ m_bodies w1 = ["a"] /\ m_bodies w2 = ["a"; "a"] /\
  q_Continuation <$> (table_of w1 !! "p1") = Some ContinuationReady.
Proof. vm_compute. repeat split. Qed.

(** ** Witnesses *)

Lemma tool_calls_authorized_witness :
  m_bodies (call_camera true (demo_mind ∅)).2 = ["a"] /\ m_bodies (call_camera false (demo_mind ∅)).2 = [] /\
  is_Some (table_of (call_camera false (demo_mind ∅)).2 !! "p2") /\
  tr_ToolCallID (call_camera true (demo_mind ∅)).1 = "c1".
Proof.
  split; [vm_compute; reflexivity|]. split; [vm_compute; reflexivity|]. split; [eexists; vm_compute; reflexivity|].
  exact (proj1 (tool_calls_authorized _ _ _ _ _ _ _ _ _ _ _ _ _ _ _ _ _ _ _ _ (surjective_pairing (call_camera true (demo_mind ∅))))).
Defined.

Lemma continuation_runs_once_witness :
  exists es, perm_run demo_approved es (table_of (handle CoreStatusSuccess (30 * second) (demo_approved !! "p1") (demo_mind demo_approved)).2) /\
    (count (Claimed "p1") es <= 1)%nat /\
    m_bodies (handle CoreStatusSuccess (30 * second) (demo_approved !! "p1") (demo_mind demo_approved)).2 = ["a"].
Proof.
  assert (Hr : perm_run ∅ [Quiet; Quiet] demo_approved).
  { econstructor; [|econstructor; [apply (ps_approve demo_created (20 * second) "p1" "owner")|constructor]].
    eapply (ps_create (fun _ => None) demo_policy ∅ (10 * second) "p1" demo_input). vm_compute. reflexivity. }
  destruct (demo_approved !! "p1") as [q|] eqn:Eq; [|vm_compute in Eq; congruence].
  destruct (continuation_runs_once _ _ _ _ _ _ _ _ _ _ _ _ _ _ _ q [Quiet; Quiet] (demo_mind demo_approved) _ _ Hr
    (surjective_pairing (handle CoreStatusSuccess (30 * second) (Some q) (demo_mind demo_approved)))) as [(es & H1 & H2) _].
  assert (Hid : q_ID q = "p1") by (vm_compute in Eq; injection Eq as <-; reflexivity). rewrite Hid in H2.
  exists es. split; [exact H1|]. split; [exact H2|]. vm_compute in Eq. injection Eq as <-. vm_compute. reflexivity.
Defined.

Lemma tools_listed_witness :
  t_Name <$> MindTools (camera_executor CoreStatusSuccess) [] = ["camera__capture"] /\
  Sorted tool_before (MindTools (camera_executor CoreStatusSuccess) []).
Proof.
  split; [vm_compute; reflexivity|].
  exact (proj1 (tools_listed (camera_executor CoreStatusSuccess) (fun _ => [camera_view "a"; camera_view "b"]) [] eq_refl)).
Defined.

Definition eager : CognitiveExecution.Request string mind :=
  {| rq_Provider := Some (fun _ w => (Ok (Some {| rp_Content := ""; rp_ToolCalls :=
       [{| tc_ID := "c1"; tc_Name := "camera__capture"; tc_Arguments := None |}]; rp_ProviderID := "mock";
       rp_TokensUsed := 0 |}), w));
     rq_ModelConfiguration := tiny_model; rq_Purpose := "plan"; rq_Temperature := (0, 0); rq_TurnID := ""; rq_SessionID := "";
     rq_CognitiveRunID := "run"; rq_IntentionID := ""; rq_BuildContext := Some (fun _ w => (Ok [], w));
     rq_ToolExecutor := Some (as_tool_executor (fun _ => Some "null") (fun _ => Some None) Some (fun s => s) (fun _ => "true")
       (fun _ => "0") (fun _ => "[]") (fun _ => "error") (fun _ _ => false) (fun _ => "") (camera_executor CoreStatusSuccess) tt
       (fun _ => moment));
     rq_MaxToolCalls := 2 |}.

Lemma model_cannot_act_unpermitted_witness :
  m_bodies (CognitiveExecution.Execute (fun _ => false) (enough eager) eager (demo_mind ∅)).2 = [] /\
  is_Some (table_of (CognitiveExecution.Execute (fun _ => false) (enough eager) eager (demo_mind ∅)).2 !! "p2").
Proof.
  split; [|eexists; vm_compute; reflexivity].
  apply (model_cannot_act_unpermitted (fun _ => Some "null") (fun _ => Some None) Some (fun s => s) (fun _ => "true")
    (fun _ => "0") (fun _ => "[]") (fun _ => "error") (fun _ _ => false) (fun _ => "") (camera_executor CoreStatusSuccess) tt (fun _ => moment)
    ask_first eager (enough eager) (demo_mind ∅)).
  - reflexivity.
  - intros action. discriminate.
  - reflexivity.
  - intros b st w Hb. injection Hb as <-. split; reflexivity.
  - intros p q w Hp. injection Hp as <-. split; reflexivity.
Defined.
