(* ===== verification/Pulse.v ===== *)
(** * The pulse

    Core/Pulse: the signals of one tick (signals.go, normalize.go), the pressure
    they add up to (pressure.go), the guards and the draw (opportunity.go,
    evaluate.go), the runner that admits a spontaneous cognition (runner.go) and
    its checkpoint (checkpoint.go, Core/Persistence/checkpoint.go).  A [float64] is
    a rational, a NaN or an infinity; how a result is rounded is a parameter,
    with the laws of IEEE 754 that are used: rounding is monotone, idempotent and
    exact on integers of at most 53 bits.  A tick is one step, other operations of the runner happen between
    ticks. *)
From Stdlib Require Import QArith Qround Lqa SpecFloat.
From S2P Require Import Prelude GoTime.
From stdpp Require Import options.
#[local] Open Scope Z_scope.

(** ** Floating-point numbers *)

Inductive float := Fin (q : Q) | NaN | Inf (negative : bool).

(** What correct rounding promises of finite results: it is monotone, a rounded number is representable, and integers of
    at most 53 bits are. *)
Class Rounding := {
  rnd : Q -> Q;
  rnd_mono : forall a b : Q, (a <= b -> rnd a <= rnd b)%Q;
  rnd_idem : forall a : Q, (rnd (rnd a) == rnd a)%Q;
  rnd_int : forall n, Z.abs n <= 2 ^ 53 -> (rnd (inject_Z n) == inject_Z n)%Q;
}.

Definition IsNaN (x : float) : bool := match x with NaN => true | _ => false end.
Definition IsInf (x : float) : bool := match x with Inf _ => true | _ => false end.

Definition flt (x y : float) : bool :=
  match x, y with
  | Fin a, Fin b => negb (Qle_bool b a)
  | Fin _, Inf neg => negb neg
  | Inf neg, Fin _ => neg
  | Inf m, Inf n => m && negb n
  | _, _ => false
  end.

Definition fle (x y : float) : bool :=
  match x, y with
  | Fin a, Fin b => Qle_bool a b
  | Fin _, Inf neg => negb neg
  | Inf neg, Fin _ => neg
  | Inf m, Inf n => m || negb n
  | _, _ => false
  end.

Definition f0 : float := Fin 0.
Definition f1 : float := Fin 1.

Section float_operations.
Context `{Rounding}.

(** The code applies these to finite numbers only. *)
Definition fbin (op : Q -> Q -> Q) (x y : float) : float :=
  match x, y with Fin a, Fin b => Fin (rnd (op a b)) | _, _ => NaN end.
Definition fadd := fbin Qplus.
Definition fsub := fbin Qminus.
Definition fmul := fbin Qmult.
Definition fdiv := fbin Qdiv.

(** [float64(n)] and [Duration.Seconds]. *)
Definition of_int (z : Z) : float := Fin (rnd (inject_Z z)).
Definition Seconds (d : duration) : float :=
  fadd (of_int (Z.quot d second)) (fdiv (of_int (Z.rem d second)) (of_int 1000000000)).

(** ** Configuration and bookkeeping *)

Definition LifecycleStateUnresolved := "unresolved".

Record PulseConfig := {
  pc_Enabled : bool; pc_IdleHorizon : Z; pc_NeglectHorizon : Z; pc_ChangeHorizon : Z; pc_WakeCooldown : Z;
  pc_MinWakeSpacing : Z;
}.

Record PulseSnapshot := {
  ps_TickCount : Z; ps_LastTickAt : time; ps_LastCognitionAt : time; ps_LastSpontaneousWakeAt : time;
}.

Record PulseResult := { pr_TickCount : Z; pr_At : time; pr_BackwardsTime : bool }.

Record PulseSubjectState := {
  su_SubjectID : string; su_LastPresentedAt : time; su_RevisionAtLastPresent : Z; su_ChangesSincePresent : Z;
  su_LastSettledAt : time; su_LifecycleState : string;
}.

Definition MarkPresented (s : PulseSubjectState) (at_ : time) : PulseSubjectState :=
  if IsZero at_ then s
  else if After at_ (su_LastPresentedAt s)
  then {| su_SubjectID := su_SubjectID s; su_LastPresentedAt := at_; su_RevisionAtLastPresent := su_RevisionAtLastPresent s;
          su_ChangesSincePresent := su_ChangesSincePresent s; su_LastSettledAt := su_LastSettledAt s;
          su_LifecycleState := su_LifecycleState s |}
  else s.

Definition MarkSettled (s : PulseSubjectState) (at_ : time) : PulseSubjectState :=
  if IsZero at_ then s
  else if After at_ (su_LastSettledAt s)
  then {| su_SubjectID := su_SubjectID s; su_LastPresentedAt := su_LastPresentedAt s;
          su_RevisionAtLastPresent := su_RevisionAtLastPresent s; su_ChangesSincePresent := su_ChangesSincePresent s;
          su_LastSettledAt := at_; su_LifecycleState := su_LifecycleState s |}
  else s.

Record SubjectSignal := { sg_SubjectID : string; sg_Neglect : float; sg_Change : float; sg_Unfinished : float }.

Record SignalSnapshot := {
  ss_At : time; ss_Idle : float; ss_Subjects : list SubjectSignal; ss_Cooldown : float; ss_Budget : float;
}.

(** ** Signals *)

Definition normalize (value horizon : float) : float :=
  if IsNaN value || IsNaN horizon then f0
  else if IsInf value || IsInf horizon then f0
  else if fle horizon f0 || fle value f0 then f0
  else if fle horizon value then f1
  else fdiv value horizon.

Definition clampInhibition (v : float) : float :=
  if IsNaN v || IsInf v then f0 else if flt v f0 then f0 else if flt f1 v then f1 else v.

Definition clampSignal (v : float) : float := clampInhibition v.

(** The time since [past], in seconds; never negative. *)
Definition elapsed (now past : time) : float :=
  let e := Seconds (Sub now past) in if flt e f0 then f0 else e.

Definition evaluateIdle (now : time) (cfg : PulseConfig) (ps : PulseSnapshot) : float :=
  if (pc_IdleHorizon cfg <=? 0) || negb (pc_Enabled cfg) then f0
  else if IsZero (ps_LastCognitionAt ps) then f0
  else normalize (elapsed now (ps_LastCognitionAt ps)) (of_int (pc_IdleHorizon cfg)).

Definition evaluateNeglect (now : time) (cfg : PulseConfig) (s : PulseSubjectState) : float :=
  if (pc_NeglectHorizon cfg <=? 0) || negb (pc_Enabled cfg) then f0
  else if IsZero (su_LastPresentedAt s) then f0
  else normalize (elapsed now (su_LastPresentedAt s)) (of_int (pc_NeglectHorizon cfg)).

Definition evaluateChange (cfg : PulseConfig) (s : PulseSubjectState) : float :=
  if (pc_ChangeHorizon cfg <=? 0) || negb (pc_Enabled cfg) then f0
  else if su_ChangesSincePresent s <=? 0 then f0
  else normalize (of_int (su_ChangesSincePresent s)) (of_int (pc_ChangeHorizon cfg)).

Definition evaluateUnfinished (s : PulseSubjectState) : float :=
  if same_str (su_LifecycleState s) LifecycleStateUnresolved then f1 else f0.

Definition evaluateSubjectSignals (now : time) (cfg : PulseConfig) (s : PulseSubjectState) : SubjectSignal :=
  {| sg_SubjectID := su_SubjectID s; sg_Neglect := evaluateNeglect now cfg s; sg_Change := evaluateChange cfg s;
     sg_Unfinished := evaluateUnfinished s |}.

Definition evaluateCooldown (now : time) (cfg : PulseConfig) (ps : PulseSnapshot) : float :=
  if (pc_WakeCooldown cfg <=? 0) || negb (pc_Enabled cfg) then f0
  else if IsZero (ps_LastSpontaneousWakeAt ps) then f0
  else fsub f1 (normalize (elapsed now (ps_LastSpontaneousWakeAt ps)) (of_int (pc_WakeCooldown cfg))).

Definition EvaluateSignals (now : time) (cfg : PulseConfig) (ps : PulseSnapshot) (subjects : list PulseSubjectState)
    (budget : float) : SignalSnapshot :=
  {| ss_At := now; ss_Idle := evaluateIdle now cfg ps; ss_Subjects := evaluateSubjectSignals now cfg <$> subjects;
     ss_Cooldown := evaluateCooldown now cfg ps; ss_Budget := clampInhibition budget |}.

(** ** Pressure *)

Definition CombineActivation (signals : list float) : float :=
  match signals with
  | [] => f0
  | _ => fsub f1 (foldl (fun product s => fmul product (fsub f1 (clampInhibition s))) f1 signals)
  end.

Definition ApplyInhibition (pressure cooldown budget : float) : float :=
  if IsNaN pressure || IsInf pressure then f0
  else fmul (fmul pressure (fsub f1 (clampInhibition cooldown))) (fsub f1 (clampInhibition budget)).

Record SubjectActivation := { sa_SubjectID : string; sa_Neglect : float; sa_Change : float; sa_Unfinished : float }.

Definition positive_part (v : float) : list float := if flt f0 v then [clampSignal v] else [].

Definition subject_signals (s : SubjectSignal) : list float :=
  positive_part (sg_Neglect s) ++ positive_part (sg_Change s) ++ positive_part (sg_Unfinished s).

Definition or_zero (v : float) : float := if flt f0 v then clampSignal v else f0.

Definition subject_activation (s : SubjectSignal) : option SubjectActivation :=
  if flt f0 (sg_Neglect s) || flt f0 (sg_Change s) || flt f0 (sg_Unfinished s)
  then Some {| sa_SubjectID := sg_SubjectID s; sa_Neglect := or_zero (sg_Neglect s); sa_Change := or_zero (sg_Change s);
               sa_Unfinished := or_zero (sg_Unfinished s) |}
  else None.

Definition activationSignalsFromSnapshot (snap : SignalSnapshot) : list float * list SubjectActivation :=
  (positive_part (ss_Idle snap) ++ (ss_Subjects snap ≫= subject_signals), omap subject_activation (ss_Subjects snap)).

Definition EvaluatePressure (snap : SignalSnapshot) : float * float * list float * list SubjectActivation :=
  let '(signals, activations) := activationSignalsFromSnapshot snap in
  let pressure := CombineActivation signals in
  (pressure, ApplyInhibition pressure (ss_Cooldown snap) (ss_Budget snap), signals, activations).

(** ** Opportunities *)

Inductive GuardReason := GuardReasonMinWakeSpacing | GuardReasonCognitionRun.

Record GuardResult := { gd_Reason : GuardReason; gd_Blocked : bool }.

Definition spacing_blocked (now : time) (ps : PulseSnapshot) (cfg : PulseConfig) : bool :=
  (0 <? pc_MinWakeSpacing cfg) && negb (IsZero (ps_LastSpontaneousWakeAt ps)) &&
  flt (Seconds (Sub now (ps_LastSpontaneousWakeAt ps))) (of_int (pc_MinWakeSpacing cfg)).

Definition EvaluateGuards (now : time) (ps : PulseSnapshot) (cfg : PulseConfig) (cognitionRunActive : bool)
    : bool * list GuardResult :=
  let blocked := spacing_blocked now ps cfg in
  (negb (blocked || cognitionRunActive),
   [{| gd_Reason := GuardReasonMinWakeSpacing; gd_Blocked := blocked |};
    {| gd_Reason := GuardReasonCognitionRun; gd_Blocked := cognitionRunActive |}]).

Record InhibitionBreakdown := { ib_Cooldown : float; ib_Budget : float }.

Record OpportunitySnapshot := {
  os_EvaluatedAt : time;
  os_Pressure : float;
  os_EffectivePressure : float;
  os_ActivationSignals : list float;
  os_Inhibition : InhibitionBreakdown;
  os_Subjects : list SubjectActivation;
  os_Eligible : bool;
  os_Guards : list GuardResult;
  os_RandomSample : option float;
  os_Opportunity : bool;
}.

(** [rng] is the next number of the source; without a source an eligible evaluation panics. *)
Definition EvaluateOpportunity (now : time) (snap : SignalSnapshot) (ps : PulseSnapshot) (cfg : PulseConfig)
    (cognitionRunActive : bool) (rng : option float) : option OpportunitySnapshot :=
  let '(passed, guards) := EvaluateGuards now ps cfg cognitionRunActive in
  let '(pressure, effective, signals, subjects) := EvaluatePressure snap in
  let eligible := passed && flt f0 effective in
  let result sample opportunity :=
    {| os_EvaluatedAt := now; os_Pressure := pressure; os_EffectivePressure := effective; os_ActivationSignals := signals;
       os_Inhibition := {| ib_Cooldown := ss_Cooldown snap; ib_Budget := ss_Budget snap |}; os_Subjects := subjects;
       os_Eligible := eligible; os_Guards := guards; os_RandomSample := sample; os_Opportunity := opportunity |} in
  if eligible then (fun s => result (Some s) (flt s effective)) <$> rng else Some (result None false).

Definition Evaluate (now : time) (prev : PulseSnapshot) : PulseResult :=
  let backwards := negb (IsZero (ps_LastTickAt prev)) && Before now (ps_LastTickAt prev) in
  {| pr_TickCount := if backwards then ps_TickCount prev else ps_TickCount prev + 1; pr_At := now;
     pr_BackwardsTime := backwards |}.

(** ** The runner *)

Record PulseWake := {
  pw_AdmittedAt : time; pw_Pressure : float; pw_EffectivePressure : float; pw_ActivationSignals : list float;
  pw_Inhibition : InhibitionBreakdown; pw_Subjects : list SubjectActivation; pw_RandomSample : float;
}.

(** [r_mind] is the entrance: none, or one that also takes due intentions or not.  [r_writer] says whether a checkpoint
    writer is set. *)
Record Runner := {
  r_cfg : PulseConfig;
  r_tickCount : Z;
  r_lastTickAt : time;
  r_lastCognitionAt : time;
  r_lastSpontaneousWakeAt : time;
  r_subjects : list PulseSubjectState;
  r_currentBudget : float;
  r_cognitionRun : bool;
  r_mind : option bool;
  r_writer : bool;
}.

Definition NewRunner (cfg : PulseConfig) (mind : option bool) (writer : bool) : Runner :=
  {| r_cfg := cfg; r_tickCount := 0; r_lastTickAt := 0; r_lastCognitionAt := 0; r_lastSpontaneousWakeAt := 0;
     r_subjects := []; r_currentBudget := f0; r_cognitionRun := false; r_mind := mind; r_writer := writer |}.

Definition put_tick (r : Runner) (n : Z) (at_ : time) : Runner :=
  {| r_cfg := r_cfg r; r_tickCount := n; r_lastTickAt := at_; r_lastCognitionAt := r_lastCognitionAt r;
     r_lastSpontaneousWakeAt := r_lastSpontaneousWakeAt r; r_subjects := r_subjects r; r_currentBudget := r_currentBudget r;
     r_cognitionRun := r_cognitionRun r; r_mind := r_mind r; r_writer := r_writer r |}.

Definition put_subjects (r : Runner) (l : list PulseSubjectState) : Runner :=
  {| r_cfg := r_cfg r; r_tickCount := r_tickCount r; r_lastTickAt := r_lastTickAt r; r_lastCognitionAt := r_lastCognitionAt r;
     r_lastSpontaneousWakeAt := r_lastSpontaneousWakeAt r; r_subjects := l; r_currentBudget := r_currentBudget r;
     r_cognitionRun := r_cognitionRun r; r_mind := r_mind r; r_writer := r_writer r |}.

Definition put_cognition (r : Runner) (at_ : time) : Runner :=
  {| r_cfg := r_cfg r; r_tickCount := r_tickCount r; r_lastTickAt := r_lastTickAt r; r_lastCognitionAt := at_;
     r_lastSpontaneousWakeAt := r_lastSpontaneousWakeAt r; r_subjects := r_subjects r; r_currentBudget := r_currentBudget r;
     r_cognitionRun := r_cognitionRun r; r_mind := r_mind r; r_writer := r_writer r |}.

Definition put_wake (r : Runner) (at_ : time) : Runner :=
  {| r_cfg := r_cfg r; r_tickCount := r_tickCount r; r_lastTickAt := r_lastTickAt r; r_lastCognitionAt := r_lastCognitionAt r;
     r_lastSpontaneousWakeAt := at_; r_subjects := r_subjects r; r_currentBudget := r_currentBudget r;
     r_cognitionRun := r_cognitionRun r; r_mind := r_mind r; r_writer := r_writer r |}.

Definition SetBudget (r : Runner) (b : float) : Runner :=
  {| r_cfg := r_cfg r; r_tickCount := r_tickCount r; r_lastTickAt := r_lastTickAt r; r_lastCognitionAt := r_lastCognitionAt r;
     r_lastSpontaneousWakeAt := r_lastSpontaneousWakeAt r; r_subjects := r_subjects r; r_currentBudget := b;
     r_cognitionRun := r_cognitionRun r; r_mind := r_mind r; r_writer := r_writer r |}.

Definition SetCognitionRunActive (r : Runner) (b : bool) : Runner :=
  {| r_cfg := r_cfg r; r_tickCount := r_tickCount r; r_lastTickAt := r_lastTickAt r; r_lastCognitionAt := r_lastCognitionAt r;
     r_lastSpontaneousWakeAt := r_lastSpontaneousWakeAt r; r_subjects := r_subjects r; r_currentBudget := r_currentBudget r;
     r_cognitionRun := b; r_mind := r_mind r; r_writer := r_writer r |}.

Definition TryClaimCognitionRun (r : Runner) : bool * Runner :=
  if r_cognitionRun r then (false, r) else (true, SetCognitionRunActive r true).

Definition ReleaseCognitionRun (r : Runner) : Runner := SetCognitionRunActive r false.

Definition UpdateSubjects (r : Runner) (l : list PulseSubjectState) : Runner := put_subjects r l.

Definition RecordCognition (r : Runner) (at_ : time) : Runner :=
  if After at_ (r_lastCognitionAt r) then put_cognition r at_ else r.

Definition Snapshot (r : Runner) : PulseSnapshot :=
  {| ps_TickCount := r_tickCount r; ps_LastTickAt := r_lastTickAt r; ps_LastCognitionAt := r_lastCognitionAt r;
     ps_LastSpontaneousWakeAt := r_lastSpontaneousWakeAt r |}.

(** The first subject of the identifier is marked. *)
Fixpoint mark (f : PulseSubjectState -> PulseSubjectState) (id : string) (l : list PulseSubjectState) : list PulseSubjectState :=
  match l with
  | [] => []
  | s :: rest => if same_str (su_SubjectID s) id then f s :: rest else s :: mark f id rest
  end.

Definition mark_all (f : PulseSubjectState -> PulseSubjectState) (wake : list SubjectActivation) (l : list PulseSubjectState)
    : list PulseSubjectState := foldl (fun l a => mark f (sa_SubjectID a) l) l wake.

(** *** Checkpoints *)

Record PulseSubjectCheckpoint := {
  pk_SubjectID : string; pk_LastPresentedAt : time; pk_RevisionAtLastPresent : Z; pk_ChangesSincePresent : Z;
  pk_LastSettledAt : time;
}.

Record PulseCheckpoint := {
  ck_DollID : string; ck_LastCognitionAt : time; ck_LastSpontaneousWakeAt : time; ck_Subjects : list PulseSubjectCheckpoint;
}.

Definition subject_checkpoint (s : PulseSubjectState) : PulseSubjectCheckpoint :=
  {| pk_SubjectID := su_SubjectID s; pk_LastPresentedAt := su_LastPresentedAt s;
     pk_RevisionAtLastPresent := su_RevisionAtLastPresent s; pk_ChangesSincePresent := su_ChangesSincePresent s;
     pk_LastSettledAt := su_LastSettledAt s |}.

Definition ToCheckpoint (r : Runner) : PulseCheckpoint :=
  {| ck_DollID := ""; ck_LastCognitionAt := r_lastCognitionAt r; ck_LastSpontaneousWakeAt := r_lastSpontaneousWakeAt r;
     ck_Subjects := subject_checkpoint <$> r_subjects r |}.

Definition restored (cp : PulseCheckpoint) : gmap string PulseSubjectCheckpoint :=
  foldl (fun m c => <[pk_SubjectID c := c]> m) ∅ (ck_Subjects cp).

Definition reconcile (m : gmap string PulseSubjectCheckpoint) (s : PulseSubjectState) : PulseSubjectState :=
  match m !! su_SubjectID s with
  | Some c => {| su_SubjectID := su_SubjectID s; su_LastPresentedAt := pk_LastPresentedAt c;
                 su_RevisionAtLastPresent := pk_RevisionAtLastPresent c; su_ChangesSincePresent := pk_ChangesSincePresent c;
                 su_LastSettledAt := pk_LastSettledAt c; su_LifecycleState := su_LifecycleState s |}
  | None => s
  end.

Definition RestoreFromCheckpoint (r : Runner) (cp : PulseCheckpoint) : Runner :=
  put_subjects (put_wake (put_cognition r (ck_LastCognitionAt cp)) (ck_LastSpontaneousWakeAt cp))
    (reconcile (restored cp) <$> r_subjects r).

(** The table of Core/Persistence/checkpoint.go, with the bytes it stores. *)
Inductive checkpoint_error := ErrInvalidDollID | ErrPulseCheckpointNotFound.

Definition SavePulseCheckpoint (t : gmap string string) (dollID data : string) : res checkpoint_error (gmap string string) :=
  refuse empty_str dollID with ErrInvalidDollID;
  Ok (<[dollID := data]> t).

Definition LoadPulseCheckpoint (t : gmap string string) (dollID : string) : res checkpoint_error string :=
  refuse empty_str dollID with ErrInvalidDollID;
  match t !! dollID with Some data => Ok data | None => Err ErrPulseCheckpointNotFound end.

Definition DeletePulseCheckpoint (t : gmap string string) (dollID : string) : res checkpoint_error (gmap string string) :=
  refuse empty_str dollID with ErrInvalidDollID;
  Ok (delete dollID t).

(** *** A tick *)

Inductive pulse_event := DueIntentions | Wrote (cp : PulseCheckpoint) | WriteFailed (cp : PulseCheckpoint) | Wake (w : PulseWake).

Inductive pulse_error := AdmissionCheckpoint | SettlementCheckpoint.

(** What a tick meets: the clock, the random source, how many due intentions were entered, whether the writer takes a
    checkpoint, whether a wake succeeds, and the clock at its completion. *)
Record Tick := {
  k_now : time; k_rng : option float; k_due : Z; k_write : PulseCheckpoint -> bool; k_enter : PulseWake -> bool;
  k_completion : time;
}.

Definition wake_of (now : time) (opp : OpportunitySnapshot) : PulseWake :=
  {| pw_AdmittedAt := now; pw_Pressure := os_Pressure opp; pw_EffectivePressure := os_EffectivePressure opp;
     pw_ActivationSignals := os_ActivationSignals opp; pw_Inhibition := os_Inhibition opp; pw_Subjects := os_Subjects opp;
     pw_RandomSample := default f0 (os_RandomSample opp) |}.

Definition admission (r : Runner) (now : time) (wake : PulseWake) : Runner :=
  let r1 := put_subjects r (mark_all (fun s => MarkPresented s now) (pw_Subjects wake) (r_subjects r)) in
  if After now (r_lastSpontaneousWakeAt r1) then put_wake r1 now else r1.

Definition settlement (r : Runner) (completion : time) (wake : PulseWake) : Runner :=
  let r1 := put_subjects r (mark_all (fun s => MarkSettled s completion) (pw_Subjects wake) (r_subjects r)) in
  if After completion (r_lastCognitionAt r1) then put_cognition r1 completion else r1.

(** Writing a checkpoint, when a writer is set: whether to go on, and what happened. *)
Definition checkpoint (k : Tick) (r : Runner) : bool * list pulse_event :=
  if negb (r_writer r) then (true, [])
  else if k_write k (ToCheckpoint r) then (true, [Wrote (ToCheckpoint r)]) else (false, [WriteFailed (ToCheckpoint r)]).

Definition admitPulseWake (k : Tick) (now : time) (opp : OpportunitySnapshot) (r : Runner)
    : option pulse_error * list pulse_event * Runner :=
  if negb (os_Opportunity opp) then (None, [], r)
  else match r_mind r with
       | None => (None, [], r)
       | Some _ =>
           let '(claimed, r1) := TryClaimCognitionRun r in
           if negb claimed then (None, [], r)
           else
             let wake := wake_of now opp in
             let r2 := admission r1 now wake in
             let '(go, written) := checkpoint k r2 in
             if negb go then (Some AdmissionCheckpoint, written, ReleaseCognitionRun r2)
             else if negb (k_enter k wake) then (None, written ++ [Wake wake], ReleaseCognitionRun r2)
             else
               let r3 := settlement r2 (k_completion k) wake in
               let '(ok, written') := checkpoint k r3 in
               (if ok then None else Some SettlementCheckpoint, written ++ [Wake wake] ++ written', ReleaseCognitionRun r3)
       end.

Definition admitDueIntentions (k : Tick) (r : Runner) : bool * list pulse_event * Runner :=
  match r_mind r with
  | Some true =>
      let '(claimed, r1) := TryClaimCognitionRun r in
      if negb claimed then (false, [], r) else (0 <? k_due k, [DueIntentions], ReleaseCognitionRun r1)
  | _ => (false, [], r)
  end.

(** [evaluate]; [None] is the panic of a missing random source. *)
Definition evaluate (k : Tick) (r : Runner) : option (option pulse_error * list pulse_event * Runner) :=
  let '(dispatched, due, r1) := admitDueIntentions k r in
  if dispatched || negb (pc_Enabled (r_cfg r)) then Some (None, due, r1)
  else
    let result := Evaluate (k_now k) (Snapshot r1) in
    if pr_BackwardsTime result then Some (None, due, r1)
    else
      let r2 := put_tick r1 (pr_TickCount result) (pr_At result) in
      let snap := EvaluateSignals (k_now k) (r_cfg r) (Snapshot r2) (r_subjects r2) (r_currentBudget r2) in
      match EvaluateOpportunity (k_now k) snap (Snapshot r2) (r_cfg r) (r_cognitionRun r2) (k_rng k) with
      | None => None
      | Some opp =>
          if os_Opportunity opp then
            let '(err, events, r3) := admitPulseWake k (k_now k) opp r2 in Some (err, due ++ events, r3)
          else Some (None, due, r2)
      end.

End float_operations.

(** ** Pressure *)

Section pressure.
Context `{Rounding}.
#[local] Open Scope Q_scope.

Lemma rnd_zero : rnd 0 == 0.
Proof. apply (rnd_int 0). done. Qed.
Lemma rnd_one : rnd 1 == 1.
Proof. apply (rnd_int 1). done. Qed.

#[global] Instance rnd_proper : Proper (Qeq ==> Qeq) rnd.
Proof. intros a b E. apply Qle_antisym; apply rnd_mono; rewrite E; apply Qle_refl. Qed.

Lemma rnd_unit a : 0 <= a <= 1 -> 0 <= rnd a <= 1.
Proof.
  intros [H1 H2]. pose proof (rnd_mono 0 a H1). pose proof (rnd_mono a 1 H2). pose proof rnd_zero. pose proof rnd_one. lra.
Qed.

(** A number between 0 and 1. *)
Definition in_unit (x : float) : Prop := exists q, x = Fin q /\ 0 <= q <= 1.

(** The order of finite numbers. *)
Definition below (x y : float) : Prop := exists a b, x = Fin a /\ y = Fin b /\ a <= b.

Lemma flt_fin a b : flt (Fin a) (Fin b) = true <-> a < b.
Proof.
  simpl. rewrite negb_true_iff. split.
  - intros E. apply Qnot_le_lt. intros Hle. apply Qle_bool_iff in Hle. congruence.
  - intros Hlt. destruct (Qle_bool b a) eqn:E; [|done]. apply Qle_bool_iff in E. lra.
Qed.

Lemma flt_fin_false a b : flt (Fin a) (Fin b) = false <-> b <= a.
Proof. rewrite <- not_true_iff_false, flt_fin. split; [apply Qnot_lt_le|lra]. Qed.

Lemma clamp_unit v : in_unit (clampInhibition v).
Proof.
  unfold clampInhibition. destruct v as [q| |]; simpl IsNaN; simpl IsInf; cbn [orb]; [|exists 0; split; [done|lra]..].
  destruct (flt (Fin q) f0) eqn:E0; [exists 0; split; [done|lra]|].
  destruct (flt f1 (Fin q)) eqn:E1; [exists 1; split; [done|lra]|].
  apply flt_fin_false in E0, E1. by exists q.
Qed.

Lemma clamp_id x : in_unit x -> clampInhibition x = x.
Proof.
  intros (q & -> & H0 & H1). unfold clampInhibition. simpl IsNaN. simpl IsInf. cbn [orb].
  destruct (flt (Fin q) f0) eqn:E0; [apply flt_fin in E0; lra|].
  destruct (flt f1 (Fin q)) eqn:E1; [apply flt_fin in E1; lra|done].
Qed.

Lemma sub_unit x : in_unit x -> in_unit (fsub f1 x).
Proof. intros (q & -> & Hq). exists (rnd (1 - q)). split; [done|]. apply rnd_unit. lra. Qed.

Lemma mul_unit x y : in_unit x -> in_unit y -> in_unit (fmul x y).
Proof. intros (a & -> & Ha) (b & -> & Hb). exists (rnd (a * b)). split; [done|]. apply rnd_unit. nra. Qed.

Lemma mul_below x y : in_unit x -> in_unit y -> (exists a, x = Fin (rnd a)) -> below (fmul x y) x.
Proof.
  intros (a & Hx & Ha) (b & -> & Hb) (a' & Ha'). rewrite Ha' in *. injection Hx as <-.
  exists (rnd (rnd a' * b)), (rnd a'). split_and!; [done..|]. rewrite <- (rnd_idem a') at 2. apply rnd_mono. nra.
Qed.

Abbreviation product := (foldl (fun product s => fmul product (fsub f1 (clampInhibition s)))) (only parsing).

Lemma product_unit l x : in_unit x -> in_unit (product x l).
Proof. revert x. induction l as [|s l IH]; intros x Hx; simpl; [done|]. apply IH, mul_unit; [done|]. apply sub_unit, clamp_unit. Qed.

Lemma product_zero l a : a == 0 -> exists b, product (Fin a) l = Fin b /\ b == 0.
Proof.
  revert a. induction l as [|s l IH]; intros a Ha; simpl; [by exists a|].
  destruct (clamp_unit s) as (q & -> & _). apply IH. rewrite Ha, Qmult_0_l. apply rnd_zero.
Qed.

Lemma product_saturated l a : f1 ∈ l -> exists b, product (Fin a) l = Fin b /\ b == 0.
Proof.
  revert a. induction l as [|s l IH]; intros a Hin; [set_solver|]. apply elem_of_cons in Hin as [<-|Hin]; simpl.
  - apply product_zero. assert (E : rnd (1 - 1) == 0) by (transitivity (rnd 0); [apply rnd_proper; reflexivity|apply rnd_zero]).
    rewrite E, Qmult_0_r. apply rnd_zero.
  - destruct (clamp_unit s) as (q & -> & _). simpl. by apply IH.
Qed.

Lemma product_mono l l' x x' :
  in_unit x -> in_unit x' -> below x' x -> Forall2 (fun s s' => below (clampInhibition s) (clampInhibition s')) l l' ->
  below (product x' l') (product x l).
Proof.
  intros Hx Hx' Hb Hl. revert x x' Hx Hx' Hb. induction Hl as [|s s' l l' Hs _ IH]; intros x x' Hx Hx' Hb; simpl; [done|].
  apply IH; [by apply mul_unit, sub_unit, clamp_unit|by apply mul_unit, sub_unit, clamp_unit|].
  destruct (clamp_unit s) as (a & Ea & Ha), (clamp_unit s') as (a' & Ea' & Ha'). rewrite Ea, Ea' in *.
  destruct Hs as (? & ? & [= <-] & [= <-] & Hle). destruct Hx as (c & -> & Hc), Hx' as (c' & -> & Hc').
  destruct Hb as (? & ? & [= <-] & [= <-] & Hle').
  eexists _, _. split_and!; [done..|]. apply rnd_mono.
  assert (P1 : rnd (1 - a') <= rnd (1 - a)) by (apply rnd_mono; lra).
  assert (P2 : 0 <= rnd (1 - a') <= 1) by (apply rnd_unit; lra). nra.
Qed.

Lemma clamp_below l l' :
  Forall2 below l l' -> Forall in_unit l -> Forall in_unit l' ->
  Forall2 (fun s s' => below (clampInhibition s) (clampInhibition s')) l l'.
Proof.
  induction 1 as [|s s' l l' Hs _ IH]; intros H1 H2; [constructor|]. inversion_clear H1. inversion_clear H2.
  constructor; [by rewrite !clamp_id|by apply IH].
Qed.

Lemma combine_unit l : in_unit (CombineActivation l) /\ exists a, CombineActivation l = Fin (rnd a) \/ CombineActivation l = f0.
Proof.
  unfold CombineActivation. destruct l as [|s l]; [split; [exists 0; split; [done|lra]|exists 0; by right]|].
  assert (Hu : in_unit (product f1 (s :: l))) by (apply product_unit; exists 1; split; [done|lra]).
  split; [by apply sub_unit|]. destruct Hu as (q & -> & _). eexists. by left.
Qed.

Lemma positive_unit v : Forall in_unit (positive_part v).
Proof. unfold positive_part. destruct (flt f0 v); repeat constructor. apply clamp_unit. Qed.

Lemma signals_unit snap : Forall in_unit (activationSignalsFromSnapshot snap).1.
Proof.
  simpl. apply Forall_app. split; [apply positive_unit|]. apply Forall_bind. apply Forall_true. intros s.
  unfold subject_signals. apply Forall_app. split; [|apply Forall_app; split]; apply positive_unit.
Qed.

(** The pressure of a tick and what inhibition leaves of it are numbers between 0 and 1, whatever the inputs, NaN and
    infinities included: it is 0 without signals and 1 as soon as one signal saturates, inhibition only lowers it, and
    raising signals never lowers it. *)
Theorem pressure_bounded snap :
  let '(pressure, effective, signals, _) := EvaluatePressure snap in
  in_unit pressure /\ in_unit effective /\ below effective pressure /\ Forall in_unit signals /\
  (signals = [] -> pressure = f0) /\
  (f1 ∈ signals -> exists p, pressure = Fin p /\ p == 1) /\
  (forall signals', Forall2 below signals signals' -> Forall in_unit signals' -> below pressure (CombineActivation signals')).
Proof.
  unfold EvaluatePressure. pose proof (signals_unit snap) as Hs.
  destruct (activationSignalsFromSnapshot snap) as [signals activations]. simpl in Hs.
  destruct (combine_unit signals) as [Hu (a & Ha)].
  assert (Heff : in_unit (ApplyInhibition (CombineActivation signals) (ss_Cooldown snap) (ss_Budget snap)) /\
    below (ApplyInhibition (CombineActivation signals) (ss_Cooldown snap) (ss_Budget snap)) (CombineActivation signals)).
  { unfold ApplyInhibition. assert (E : IsNaN (CombineActivation signals) || IsInf (CombineActivation signals) = false)
      by (by destruct Hu as (q & -> & _)). rewrite E.
    pose proof (sub_unit _ (clamp_unit (ss_Cooldown snap))) as Hc. pose proof (sub_unit _ (clamp_unit (ss_Budget snap))) as Hb.
    pose proof (mul_unit _ _ Hu Hc) as Hm. split; [by apply mul_unit|].
    assert (H1 : below (fmul (CombineActivation signals) (fsub f1 (clampInhibition (ss_Cooldown snap)))) (CombineActivation signals)).
    { destruct Ha as [Ha|Ha]; [apply mul_below; [done..|by exists a]|]. rewrite Ha. destruct Hc as (c & -> & _).
      eexists _, _. split_and!; [done..|]. rewrite Qmult_0_l, rnd_zero. lra. }
    assert (H2 : below (fmul (fmul (CombineActivation signals) (fsub f1 (clampInhibition (ss_Cooldown snap))))
        (fsub f1 (clampInhibition (ss_Budget snap))))
      (fmul (CombineActivation signals) (fsub f1 (clampInhibition (ss_Cooldown snap))))).
    { apply mul_below; [done..|]. destruct Hu as (q & -> & _), Hc as (c & -> & _). by eexists. }
    destruct H1 as (x & y & Hx & Hy & Hxy), H2 as (z & x' & Hz & Hx' & Hzx). rewrite Hx in Hx'. injection Hx' as <-.
    exists z, y. split_and!; [done..|]. lra. }
  split_and!; [done|apply Heff|apply Heff|done|by intros ->|..].
  - intros Hin. unfold CombineActivation. destruct signals as [|s l]; [set_solver|].
    destruct (product_saturated (s :: l) 1 Hin) as (b & Hb & Hb0). fold f1 in Hb. rewrite Hb. eexists. split; [done|].
    transitivity (rnd 1); [apply rnd_proper; rewrite Hb0; reflexivity|apply rnd_one].
  - intros signals' Hle Hu'. unfold CombineActivation. destruct Hle as [|s s' l l' Hs1 Hl].
    { exists 0, 0. split_and!; [done..|lra]. }
    assert (Hm : below (product f1 (s' :: l')) (product f1 (s :: l))).
    { apply product_mono; [exists 1; split; [done|lra]|exists 1; split; [done|lra]|exists 1, 1; split_and!; [done..|lra]|].
      apply clamp_below; [by constructor|done..]. }
    destruct Hm as (a1 & a2 & E1 & E2 & Hle). rewrite E1, E2. eexists _, _. split_and!; [done..|]. apply rnd_mono. lra.
Qed.

End pressure.

(** ** Opportunities *)

Section runner.
Context `{Rounding}.

(** An opportunity is found if and only if no guard blocks, inhibition leaves some pressure and the number drawn is
    below it; otherwise nothing is drawn, so that the source of randomness does not matter. *)
Theorem opportunity_gated now snap ps cfg active rng :
  let '(_, effective, _, _) := EvaluatePressure snap in
  let eligible := negb (spacing_blocked now ps cfg) && negb active && flt f0 effective in
  match EvaluateOpportunity now snap ps cfg active rng with
  | Some o =>
      os_Eligible o = eligible /\ os_RandomSample o = (if eligible then rng else None) /\
      (os_Opportunity o = true <-> eligible = true /\ exists s, rng = Some s /\ flt s effective = true) /\
      (eligible = false -> forall rng', EvaluateOpportunity now snap ps cfg active rng' = Some o)
  | None => eligible = true /\ rng = None
  end.
Proof.
  unfold EvaluateOpportunity, EvaluateGuards. destruct (EvaluatePressure snap) as [[[pressure effective] signals] subjects].
  rewrite negb_orb. destruct (negb (spacing_blocked now ps cfg) && negb active && flt f0 effective) eqn:E.
  - destruct rng as [s|]; simpl; [|done]. split_and!; [done|done| |done]. split; [intros Hs; split; [done|by exists s]|].
    intros [_ (s' & [= <-] & Hs)]. done.
  - split_and!; [done|done| |done]. split; [done|]. by intros [? _].
Qed.

(** ** Ticks *)

Lemma claim_release r : r_cognitionRun r = false -> ReleaseCognitionRun (SetCognitionRunActive r true) = r.
Proof. destruct r. simpl. by intros ->. Qed.

Lemma due_same k r b es r1 :
  admitDueIntentions k r = (b, es, r1) -> r1 = r /\ forall w, Wake w ∉ es.
Proof.
  unfold admitDueIntentions, TryClaimCognitionRun. destruct (r_mind r) as [[]|]; [|intros [= <- <- <-]; split; [done|set_solver]..].
  destruct (r_cognitionRun r) eqn:E; simpl; intros [= <- <- <-]; split; try done; try set_solver. by apply claim_release.
Qed.

Definition wakes (es : list pulse_event) : list PulseWake := omap (fun e => match e with Wake w => Some w | _ => None end) es.

Lemma wakes_app es es' : wakes (es ++ es') = wakes es ++ wakes es'.
Proof. apply omap_app. Qed.

Lemma wakes_none es : (forall w, Wake w ∉ es) -> wakes es = [].
Proof.
  induction es as [|e es IH]; intros Hn; [done|]. unfold wakes in *. simpl. destruct e; simpl; try (apply IH; set_solver).
  exfalso. apply (Hn w). set_solver.
Qed.

Lemma mark_ids f id l : (forall s, su_SubjectID (f s) = su_SubjectID s) -> su_SubjectID <$> mark f id l = su_SubjectID <$> l.
Proof. intros Hf. induction l as [|s l IH]; simpl; [done|]. destruct (same_str _ _); simpl; [by rewrite Hf|exact (f_equal (cons _) IH)]. Qed.

Lemma presented_id s at_ : su_SubjectID (MarkPresented s at_) = su_SubjectID s.
Proof. unfold MarkPresented. by repeat case_match. Qed.

(** A subject keeps its place, and its last presentation only moves forward. *)
Definition presented_since (at_ : time) (id : string) (l : list PulseSubjectState) : Prop :=
  exists s, s ∈ l /\ su_SubjectID s = id /\ at_ <= su_LastPresentedAt s.

Lemma mark_keeps at_ id id' l :
  presented_since at_ id l -> presented_since at_ id (mark (fun s => MarkPresented s at_) id' l).
Proof.
  intros (s & Hin & Hid & Hat). induction l as [|s0 l IH]; [set_solver|]. simpl. apply elem_of_cons in Hin as [->|Hin].
  - destruct (same_str _ _); [|exists s0; set_solver]. exists (MarkPresented s0 at_).
    split_and!; [set_solver|by rewrite presented_id|]. unfold MarkPresented, IsZero, After. repeat case_match; simpl; lia.
  - destruct (IH Hin) as (s1 & H1 & H2 & H3). destruct (same_str _ _); [exists s; set_solver|exists s1; set_solver].
Qed.

Lemma mark_presents at_ id l :
  0 < at_ -> id ∈ su_SubjectID <$> l -> presented_since at_ id (mark (fun s => MarkPresented s at_) id l).
Proof.
  intros Hat. induction l as [|s l IH]; [set_solver|]. simpl. destruct (same_str (su_SubjectID s) id) eqn:E.
  - apply same_str_true in E as <-. intros _. exists (MarkPresented s at_). split_and!; [set_solver|apply presented_id|].
    unfold MarkPresented, IsZero, After. destruct (at_ =? 0) eqn:E0; [bool_props; lia|]. case_match; simpl; bool_props; lia.
  - apply same_str_false in E. intros [->|Hin]%elem_of_cons; [done|]. destruct (IH Hin) as (s1 & H1 & H2 & H3). exists s1. set_solver.
Qed.

Lemma mark_all_presents at_ wake : forall l id,
  0 < at_ -> (forall a, a ∈ wake -> sa_SubjectID a ∈ su_SubjectID <$> l) ->
  (id ∈ sa_SubjectID <$> wake \/ presented_since at_ id l) ->
  presented_since at_ id (mark_all (fun s => MarkPresented s at_) wake l).
Proof.
  unfold mark_all. induction wake as [|a wake IH]; intros l id Hat Hin Hor; simpl; [destruct Hor; [set_solver|done]|].
  apply IH; [done| |].
  - intros b Hb. rewrite mark_ids by (intros; apply presented_id). apply Hin. set_solver.
  - destruct Hor as [Hid|Hp]; [|right; by apply mark_keeps]. apply elem_of_cons in Hid as [->|Hid]; [right|by left].
    apply mark_presents; [done|]. apply Hin. set_solver.
Qed.

(** The subjects of an opportunity are subjects of the runner. *)
Lemma opportunity_subjects now snap ps cfg active rng o a :
  EvaluateOpportunity now snap ps cfg active rng = Some o -> a ∈ os_Subjects o ->
  sa_SubjectID a ∈ sg_SubjectID <$> ss_Subjects snap.
Proof.
  unfold EvaluateOpportunity. destruct (EvaluateGuards _ _ _ _) as [passed guards].
  unfold EvaluatePressure. simpl. intros Ho Ha. assert (Hs : a ∈ omap subject_activation (ss_Subjects snap)).
  { destruct (passed && _); [destruct rng; simpl in Ho; [|done]|]; simplify_eq; done. }
  apply list_elem_of_omap in Hs as (s & Hs & He). unfold subject_activation in He. destruct (_ || _); [|done]. simplify_eq.
  simpl. by apply list_elem_of_fmap_2.
Qed.

(** What one tick does. *)
Record tick_facts (k : Tick) (r : Runner) (es : list pulse_event) (r' : Runner) : Prop := {
  tf_cfg : r_cfg r' = r_cfg r;
  tf_writer : r_writer r' = r_writer r;
  tf_forward : r_lastSpontaneousWakeAt r <= r_lastSpontaneousWakeAt r';
  tf_wakes : wakes es = [] \/ exists w, wakes es = [w] /\ pw_AdmittedAt w = k_now k /\ r_cognitionRun r = false /\
    spacing_blocked (k_now k) (Snapshot r) (r_cfg r) = false /\ k_now k <= r_lastSpontaneousWakeAt r' /\
    (r_writer r = true -> exists pre cp post, es = pre ++ Wrote cp :: Wake w :: post /\
       k_now k <= ck_LastSpontaneousWakeAt cp /\
       (0 < k_now k -> forall a, a ∈ pw_Subjects w -> exists c, c ∈ ck_Subjects cp /\ pk_SubjectID c = sa_SubjectID a /\
          k_now k <= pk_LastPresentedAt c));
}.

Lemma settlement_facts r completion wake :
  r_cfg (settlement r completion wake) = r_cfg r /\ r_writer (settlement r completion wake) = r_writer r /\
  r_lastSpontaneousWakeAt (settlement r completion wake) = r_lastSpontaneousWakeAt r.
Proof. unfold settlement. by destruct (After _ _). Qed.

Lemma admission_facts r now wake :
  r_cfg (admission r now wake) = r_cfg r /\ r_writer (admission r now wake) = r_writer r /\
  r_lastSpontaneousWakeAt (admission r now wake) = Z.max now (r_lastSpontaneousWakeAt r) /\
  r_subjects (admission r now wake) = mark_all (fun s => MarkPresented s now) (pw_Subjects wake) (r_subjects r).
Proof.
  unfold admission, After. simpl. destruct (r_lastSpontaneousWakeAt r <? now) eqn:E; bool_props; simpl; split_and!; try done; lia.
Qed.

Lemma checkpoint_wakes k r : wakes (checkpoint k r).2 = [].
Proof. unfold checkpoint. by repeat case_match. Qed.

Lemma tick_spec k r err es r' : evaluate k r = Some (err, es, r') -> tick_facts k r es r'.
Proof.
  unfold evaluate. destruct (admitDueIntentions k r) as [[dispatched due] r1] eqn:Ed. apply due_same in Ed as [-> Hd].
  apply wakes_none in Hd.
  assert (Hquiet : forall r2, r_cfg r2 = r_cfg r -> r_writer r2 = r_writer r ->
    r_lastSpontaneousWakeAt r2 = r_lastSpontaneousWakeAt r -> tick_facts k r due r2).
  { intros r2 H1 H2 H3. constructor; [done|done|lia|by left]. }
  destruct (dispatched || _); [intros [= <- <- <-]; by apply Hquiet|].
  destruct (pr_BackwardsTime _); [intros [= <- <- <-]; by apply Hquiet|].
  set (r2 := put_tick r _ _). set (snap := EvaluateSignals _ _ _ _ _).
  pose proof (opportunity_gated (k_now k) snap (Snapshot r2) (r_cfg r) (r_cognitionRun r2) (k_rng k)) as Hg.
  destruct (EvaluatePressure snap) as [[[p e] sg] sb]. cbv zeta in Hg.
  destruct (EvaluateOpportunity _ _ _ _ _ _) as [opp|] eqn:Eo; [|done]. destruct Hg as (_ & _ & Hopp & _).
  destruct (os_Opportunity opp) eqn:Ep; [|intros [= <- <- <-]; by apply Hquiet].
  destruct (proj1 Hopp eq_refl) as [Hel _]. rewrite !andb_true_iff, !negb_true_iff in Hel. destruct Hel as [[Hsp Hact] _].
  unfold admitPulseWake. rewrite Ep. simpl negb. cbv iota. change (r_mind r2) with (r_mind r).
  destruct (r_mind r) as [mind|]; [|intros [= <- <- <-]; rewrite app_nil_r; by apply Hquiet].
  unfold TryClaimCognitionRun. rewrite Hact. simpl negb. cbv iota. set (w := wake_of (k_now k) opp). set (r3 := admission _ _ _).
  destruct (admission_facts (SetCognitionRunActive r2 true) (k_now k) w) as (A1 & A2 & A3 & A4). fold r3 in A1, A2, A3, A4.
  pose proof (checkpoint_wakes k r3) as Hw3. destruct (checkpoint k r3) as [go written] eqn:Ec. simpl in Hw3.
  assert (Hfwd : r_lastSpontaneousWakeAt r <= Z.max (k_now k) (r_lastSpontaneousWakeAt r)) by lia.
  destruct go; simpl negb; cbv iota.
  2:{ intros [= <- <- <-]. constructor; [done|done|simpl; rewrite A3; done|]. left. by rewrite wakes_app, Hd, Hw3. }
  assert (Hwoke : forall post r4, wakes post = [] -> r_cfg r4 = r_cfg r3 -> r_writer r4 = r_writer r3 ->
    r_lastSpontaneousWakeAt r4 = r_lastSpontaneousWakeAt r3 -> tick_facts k r (due ++ written ++ [Wake w] ++ post) r4).
  { intros post r4 Hpost H1 H2 H3. constructor; [by rewrite H1, A1|by rewrite H2, A2|rewrite H3, A3; done|].
    right. exists w. rewrite !wakes_app, Hd, Hw3, Hpost. split_and!; [done|done|done|exact Hsp|rewrite H3, A3; lia|].
    intros Hwr. assert (Hwritten : written = [Wrote (ToCheckpoint r3)]).
    { unfold checkpoint in Ec. rewrite A2 in Ec. change (r_writer (SetCognitionRunActive r2 true)) with (r_writer r) in Ec.
      rewrite Hwr in Ec. simpl in Ec. destruct (k_write k _); by simplify_eq. }
    rewrite Hwritten. exists due, (ToCheckpoint r3), post. split; [done|]. simpl. rewrite A3. split; [lia|].
    intros Hpos a Ha. destruct (mark_all_presents (k_now k) (pw_Subjects w) (r_subjects r) (sa_SubjectID a)) as (s & Hs & Hid & Hat); [done| | |].
    - intros b Hb. pose proof (opportunity_subjects _ _ _ _ _ _ _ _ Eo Hb) as Hin. unfold snap in Hin. simpl in Hin.
      rewrite <- list_fmap_compose in Hin. exact Hin.
    - left. by apply list_elem_of_fmap_2.
    - exists (subject_checkpoint s). split_and!; [|done|done]. apply list_elem_of_fmap_2. rewrite A4. exact Hs. }
  destruct (k_enter k w); simpl negb; cbv iota.
  - set (r4 := settlement r3 _ w). destruct (settlement_facts r3 (k_completion k) w) as (S1 & S2 & S3).
    pose proof (checkpoint_wakes k r4) as Hw4. destruct (checkpoint k r4) as [ok written']. intros [= <- <- <-]. by apply Hwoke.
  - intros [= <- <- <-]. change (written ++ [Wake w]) with (written ++ [Wake w] ++ []). by apply Hwoke.
Qed.

(** *** Seconds *)

Lemma seconds_parts d : Z.abs d <= 2 ^ 63 -> exists x : Q,
  Seconds d = Fin (rnd (rnd (inject_Z (Z.quot d second)) + x)) /\ (rnd (inject_Z (Z.quot d second)) == inject_Z (Z.quot d second))%Q /\
  x = rnd (rnd (inject_Z (Z.rem d second)) / rnd (inject_Z 1000000000)) /\
  (x == rnd (inject_Z (Z.rem d second) / inject_Z 1000000000))%Q.
Proof.
  intros Hd. eexists. split; [done|]. unfold second. split; [|split; [done|]].
  - apply rnd_int. pose proof (Z.quot_abs d 1000000000 ltac:(done)) as Hq. change (Z.abs 1000000000) with 1000000000 in Hq.
    rewrite <- Hq. rewrite Z.quot_div_nonneg by lia. apply Z.div_le_upper_bound; lia.
  - apply rnd_proper. rewrite (rnd_int 1000000000) by done. rewrite rnd_int; [done|].
    pose proof (Z.rem_bound_abs d 1000000000 ltac:(done)). lia.
Qed.

Lemma seconds_mono d d' : 0 <= d <= d' -> d' < 2 ^ 63 -> below (Seconds d) (Seconds d').
Proof.
  intros Hd Hd'. destruct (seconds_parts d) as (x & -> & E1 & _ & Ex); [lia|].
  destruct (seconds_parts d') as (y & -> & E2 & _ & Ey); [lia|]. eexists _, _. split_and!; [done..|]. apply rnd_mono.
  rewrite E1, E2, Ex, Ey. unfold second in *.
  rewrite !Z.quot_div_nonneg, !Z.rem_mod_nonneg by lia.
  pose proof (Z.div_le_mono d d' 1000000000 ltac:(done) ltac:(lia)) as Hq.
  pose proof (Z.mod_pos_bound d 1000000000 ltac:(done)) as Hm. pose proof (Z.mod_pos_bound d' 1000000000 ltac:(done)) as Hm'.
  assert (Hunit : forall m, 0 <= m < 1000000000 -> (0 <= rnd (inject_Z m / inject_Z 1000000000) <= 1)%Q).
  { intros m Hmb. apply rnd_unit. split.
    - apply Qle_shift_div_l; [done|]. rewrite Qmult_0_l. rewrite <- (Zle_Qle 0). lia.
    - apply Qle_shift_div_r; [done|]. rewrite Qmult_1_l. rewrite <- Zle_Qle. lia. }
  destruct (Z.eq_dec (d / 1000000000) (d' / 1000000000)) as [E|Hne].
  - rewrite E. apply Qplus_le_compat; [apply Qle_refl|]. apply rnd_mono. apply Qmult_le_compat_r; [|done].
    rewrite <- Zle_Qle. rewrite (Z.div_mod d 1000000000), (Z.div_mod d' 1000000000) in Hd by done. lia.
  - assert (Hlt : d / 1000000000 + 1 <= d' / 1000000000) by lia. rewrite Zle_Qle, inject_Z_plus in Hlt.
    change (inject_Z 1) with 1%Q in Hlt. destruct (Hunit _ Hm), (Hunit _ Hm'). lra.
Qed.

Lemma seconds_nonpositive d : d <= 0 -> - 2 ^ 63 <= d -> below (Seconds d) f0.
Proof.
  intros Hd Hd'. destruct (seconds_parts d) as (x & -> & E1 & _ & Ex); [lia|]. eexists _, _. split_and!; [done..|].
  rewrite <- rnd_zero. apply rnd_mono. rewrite E1, Ex. unfold second.
  assert (Hq : Z.quot d 1000000000 <= 0) by (rewrite <- (Z.opp_involutive d), Z.quot_opp_l by done; pose proof (Z.quot_pos (- d) 1000000000); lia).
  assert (Hr : Z.rem d 1000000000 <= 0) by (apply Z.rem_nonpos; lia).
  assert (Hx : (rnd (inject_Z (Z.rem d 1000000000) / inject_Z 1000000000) <= 0)%Q).
  { rewrite <- rnd_zero. apply rnd_mono. apply Qle_shift_div_r; [done|]. rewrite Qmult_0_l. change 0%Q with (inject_Z 0). rewrite <- Zle_Qle. lia. }
  rewrite Zle_Qle in Hq. change (inject_Z 0) with 0%Q in Hq. lra.
Qed.

(** *** Runs *)

Inductive pulse_step : Runner -> list pulse_event -> Runner -> Prop :=
| ps_tick k r err es r' : 0 < k_now k -> evaluate k r = Some (err, es, r') -> pulse_step r es r'
| ps_subjects r l : pulse_step r [] (UpdateSubjects r l)
| ps_budget r b : pulse_step r [] (SetBudget r b)
| ps_cognition r at_ : pulse_step r [] (RecordCognition r at_)
| ps_active r b : pulse_step r [] (SetCognitionRunActive r b).

Inductive pulse_run : Runner -> list pulse_event -> Runner -> Prop :=
| pulse_nil r : pulse_run r [] r
| pulse_cons r es r1 es' r2 : pulse_step r es r1 -> pulse_run r1 es' r2 -> pulse_run r (es ++ es') r2.

Definition spaced (cfg : PulseConfig) (t t' : time) : Prop := flt (Seconds (Sub t' t)) (of_int (pc_MinWakeSpacing cfg)) = false.

(** An instant that is spaced from a later one is spaced from the earlier one too. *)
Lemma spaced_earlier cfg t1 last t2 :
  0 < pc_MinWakeSpacing cfg -> t1 <= last -> spaced cfg last t2 -> spaced cfg t1 t2.
Proof.
  intros Hp Hle Hs. unfold spaced in *.
  assert (Hpos : exists q, of_int (pc_MinWakeSpacing cfg) = Fin q /\ (0 < q)%Q).
  { eexists. split; [done|]. apply (Qlt_le_trans _ 1); [done|]. rewrite <- rnd_one. apply rnd_mono.
    change 1%Q with (inject_Z 1). rewrite <- Zle_Qle. lia. }
  destruct Hpos as (q & Eq & Hq). rewrite Eq in Hs |- *.
  assert (Hs1 : - 2 ^ 63 <= Sub t2 last < 2 ^ 63) by (unfold Sub; lia).
  assert (Hs2 : Sub t2 last <= Sub t2 t1 < 2 ^ 63) by (unfold Sub; lia).
  destruct (Z.le_gt_cases (Sub t2 last) 0) as [Hneg|Hpos'].
  - exfalso. destruct (seconds_nonpositive (Sub t2 last)) as (a & b & Ea & Eb & Hab); [lia|lia|]. rewrite Ea in Hs.
    unfold f0 in Eb. injection Eb as <-. apply flt_fin_false in Hs. lra.
  - destruct (seconds_mono (Sub t2 last) (Sub t2 t1)) as (a & b & Ea & Eb & Hab); [lia|lia|]. rewrite Ea in Hs. rewrite Eb.
    apply flt_fin_false in Hs. apply flt_fin_false. lra.
Qed.

(** The wakes of a run, against any instant up to which the last wake is known. *)
Lemma run_wakes r es r' :
  pulse_run r es r' ->
  r_cfg r' = r_cfg r /\ r_writer r' = r_writer r /\ r_lastSpontaneousWakeAt r <= r_lastSpontaneousWakeAt r' /\
  Forall (fun w => 0 < pw_AdmittedAt w /\ forall t, 0 < t <= r_lastSpontaneousWakeAt r -> 0 < pc_MinWakeSpacing (r_cfg r) ->
    spaced (r_cfg r) t (pw_AdmittedAt w)) (wakes es) /\
  (0 < pc_MinWakeSpacing (r_cfg r) -> StronglySorted (fun w w' => spaced (r_cfg r) (pw_AdmittedAt w) (pw_AdmittedAt w')) (wakes es)).
Proof.
  induction 1 as [r|r es r1 es' r2 Hst _ IH]; [split_and!; [done..|constructor|constructor]|].
  destruct IH as (C2 & W2 & F2 & A2 & S2).
  destruct Hst as [k r err es r1 Hk He|r l|r b|r at_|r b].
  2-5: (first [unfold RecordCognition in *; destruct (After _ _)|idtac]; simpl in *; split_and!; try done).
  apply tick_spec in He as [C1 W1 F1 T]. rewrite C1, W1 in *. rewrite wakes_app. split_and!; [done|done|lia|..].
  - apply Forall_app. split.
    + destruct T as [->|(w & -> & Hat & _ & Hsp & _)]; [constructor|]. constructor; [|constructor]. rewrite Hat. split; [done|].
      intros t Ht Hp. apply (spaced_earlier _ t (r_lastSpontaneousWakeAt r)); [done|lia|].
      unfold spacing_blocked in Hsp. simpl in Hsp. unfold spaced. destruct (0 <? _) eqn:E1; [|bool_props; lia].
      unfold IsZero in Hsp. destruct (_ =? 0) eqn:E2; [bool_props; lia|]. exact Hsp.
    + eapply Forall_impl; [exact A2|]. intros w [Hw Hall]. split; [done|]. intros t Ht. apply Hall. lia.
  - intros Hp. specialize (S2 Hp). destruct T as [->|(w & -> & Hat & _ & _ & Hlast & _)]; [done|].
    simpl. constructor; [done|]. rewrite Hat. eapply Forall_impl; [exact A2|]. intros w' [_ Hall]. apply Hall; [lia|done].
Qed.

(** C25: spontaneous wakes keep their distance and are recorded first.  In every run of the runner, whatever else Core
    changes between ticks, two wakes are never closer than the configured spacing, as the guard measures it; and with a
    checkpoint writer each wake directly follows a checkpoint, already written, that has it as the last wake and its
    subjects as presented. *)
Theorem wakes_spaced_and_recorded r es r' :
  pulse_run r es r' ->
  (0 < pc_MinWakeSpacing (r_cfg r) ->
   StronglySorted (fun w w' => spaced (r_cfg r) (pw_AdmittedAt w) (pw_AdmittedAt w')) (wakes es)) /\
  (r_writer r = true -> forall w, Wake w ∈ es -> exists pre cp post, es = pre ++ Wrote cp :: Wake w :: post /\
     pw_AdmittedAt w <= ck_LastSpontaneousWakeAt cp /\
     forall a, a ∈ pw_Subjects w -> exists c, c ∈ ck_Subjects cp /\ pk_SubjectID c = sa_SubjectID a /\
       pw_AdmittedAt w <= pk_LastPresentedAt c).
Proof.
  intros Hr. split; [by apply run_wakes in Hr as (_ & _ & _ & _ & Hs)|]. intros Hw. revert Hw.
  induction Hr as [r|r es r1 es' r2 Hst Hr IH]; intros Hw w Hin; [set_solver|].
  apply elem_of_app in Hin as [Hin|Hin].
  - destruct Hst as [k r err es r1 Hk He|r l|r b|r at_|r b]; try set_solver.
    apply tick_spec in He as [C1 W1 F1 T].
    assert (Hwk : w ∈ wakes es) by (apply list_elem_of_omap; by exists (Wake w)).
    destruct T as [E|(w' & E & Hat & _ & _ & _ & Hrec)]; rewrite E in Hwk; [set_solver|].
    apply list_elem_of_singleton in Hwk as ->. destruct (Hrec Hw) as (pre & cp & post & -> & Hcp & Hsub). rewrite Hat.
    exists pre, cp, (post ++ es'). split; [by rewrite <- app_assoc|]. split; [done|]. by apply Hsub.
  - assert (Hw1 : r_writer r1 = true).
    { destruct Hst as [k r err es r1 Hk He|r l|r b|r at_|r b]; try done; [by apply tick_spec in He as [_ -> _ _]|].
      unfold RecordCognition. by destruct (After _ _). }
    destruct (IH Hw1 w Hin) as (pre & cp & post & -> & Hrest). exists (es ++ pre), cp, post. by rewrite <- app_assoc.
Qed.

(** ** A fresh start *)

(** The subjects that the daemon registers, and its runner. *)
Definition production_subjects : list PulseSubjectState :=
  (fun id => {| su_SubjectID := id; su_LastPresentedAt := 0; su_RevisionAtLastPresent := 0; su_ChangesSincePresent := 0;
                su_LastSettledAt := 0; su_LifecycleState := "" |}) <$> ["persona"; "soul"].

Definition production (cfg : PulseConfig) (mind : option bool) (writer : bool) : Runner :=
  UpdateSubjects (NewRunner cfg mind writer) production_subjects.

Fixpoint run_ticks (ks : list Tick) (r : Runner) : option (list pulse_event * Runner) :=
  match ks with
  | [] => Some ([], r)
  | k :: rest =>
      match evaluate k r with
      | None => None
      | Some (_, es, r1) => (fun '(es', r2) => (es ++ es', r2)) <$> run_ticks rest r1
      end
  end.

(** Nothing has been thought, presented, changed or left unresolved. *)
Definition dormant (r : Runner) : Prop :=
  r_lastCognitionAt r = 0 /\
  Forall (fun s => su_LastPresentedAt s = 0 /\ su_ChangesSincePresent s <= 0 /\ su_LifecycleState s <> LifecycleStateUnresolved)
    (r_subjects r).

Lemma dormant_signals now cfg ps subjects budget :
  ps_LastCognitionAt ps = 0 ->
  Forall (fun s => su_LastPresentedAt s = 0 /\ su_ChangesSincePresent s <= 0 /\ su_LifecycleState s <> LifecycleStateUnresolved) subjects ->
  (activationSignalsFromSnapshot (EvaluateSignals now cfg ps subjects budget)).1 = [].
Proof.
  intros Hc Hs. simpl. unfold evaluateIdle. rewrite Hc.
  assert (Hidle : positive_part (if (pc_IdleHorizon cfg <=? 0) || negb (pc_Enabled cfg) then f0
    else if IsZero 0 then f0 else normalize (elapsed now 0) (of_int (pc_IdleHorizon cfg))) = []) by (by destruct (_ || _)).
  rewrite Hidle. simpl. induction Hs as [|s l (H1 & H2 & H3) _ IH]; [done|]. rewrite fmap_cons, bind_cons, IH, app_nil_r.
  unfold subject_signals, evaluateSubjectSignals, evaluateNeglect, evaluateChange, evaluateUnfinished. simpl.
  rewrite H1, (proj2 (Z.leb_le _ _) H2), (proj2 (same_str_false _ _) H3). by destruct (pc_NeglectHorizon cfg <=? 0), (pc_ChangeHorizon cfg <=? 0), (pc_Enabled cfg).
Qed.

Lemma dormant_tick k r :
  dormant r -> exists es r', evaluate k r = Some (None, es, r') /\ dormant r' /\ (es = [] \/ es = [DueIntentions]) /\
    ToCheckpoint r' = ToCheckpoint r.
Proof.
  intros Hdr. pose proof Hdr as [Hc Hs]. unfold evaluate. destruct (admitDueIntentions k r) as [[dispatched due] r1] eqn:Ed.
  assert (Hdue : due = [] \/ due = [DueIntentions]).
  { unfold admitDueIntentions, TryClaimCognitionRun in Ed. repeat case_match; simplify_eq; auto. }
  apply due_same in Ed as [-> _]. destruct (dispatched || _); [by exists due, r|]. destruct (pr_BackwardsTime _); [by exists due, r|].
  set (r2 := put_tick r _ _). set (snap := EvaluateSignals _ _ _ _ _).
  pose proof (opportunity_gated (k_now k) snap (Snapshot r2) (r_cfg r) (r_cognitionRun r2) (k_rng k)) as Hg.
  pose proof (dormant_signals (k_now k) (r_cfg r) (Snapshot r2) (r_subjects r2) (r_currentBudget r2) Hc Hs) as Hsig. fold snap in Hsig.
  unfold EvaluatePressure in Hg. destruct (activationSignalsFromSnapshot snap) as [signals activations]. simpl in Hsig. subst signals.
  assert (Heff : flt f0 (ApplyInhibition (CombineActivation []) (ss_Cooldown snap) (ss_Budget snap)) = false).
  { unfold ApplyInhibition, CombineActivation. simpl IsNaN. simpl IsInf. cbn [orb].
    destruct (sub_unit _ (clamp_unit (ss_Cooldown snap))) as (c & -> & _), (sub_unit _ (clamp_unit (ss_Budget snap))) as (d & -> & _).
    apply flt_fin_false. rewrite Qmult_0_l, rnd_zero, Qmult_0_l, rnd_zero. apply Qle_refl. }
  rewrite Heff, andb_false_r in Hg. destruct (EvaluateOpportunity _ _ _ _ _ _) as [opp|]; [|by destruct Hg].
  destruct Hg as (_ & _ & Hopp & _). destruct (os_Opportunity opp); [by destruct (proj1 Hopp eq_refl)|].
  exists due, r2. split_and!; try done.
Qed.

(** A fresh daemon never wakes.  From the subjects that it registers, and without a checkpoint, no sequence of ticks,
    at whatever times, with whatever configuration, random numbers and due intentions, ever admits a spontaneous wake:
    every signal is 0 until something has been presented or thought, which only a wake records.  Nothing is checkpointed
    either, so a restart finds the same state. *)
Theorem fresh_pulse_never_wakes cfg mind writer ks :
  exists es r, run_ticks ks (production cfg mind writer) = Some (es, r) /\
    (forall w, Wake w ∉ es) /\ (forall cp, Wrote cp ∉ es) /\ ToCheckpoint r = ToCheckpoint (production cfg mind writer).
Proof.
  assert (Hgen : forall r, dormant r -> exists es r', run_ticks ks r = Some (es, r') /\ Forall (fun e => e = DueIntentions) es /\
    ToCheckpoint r' = ToCheckpoint r).
  { induction ks as [|k ks IH]; intros r Hd; simpl; [exists [], r; split_and!; [done|constructor|done]|].
    destruct (dormant_tick k r Hd) as (es & r1 & He & Hd1 & Hes & Hck1). rewrite He.
    destruct (IH r1 Hd1) as (es' & r2 & -> & Hall & Hck). exists (es ++ es'), r2. split_and!; [done| |congruence].
    apply Forall_app. split; [|done]. destruct Hes as [->| ->]; by repeat constructor. }
  destruct (Hgen (production cfg mind writer)) as (es & r & Hrun & Hall & Hck).
  { split; [done|]. by repeat constructor. }
  exists es, r. rewrite Forall_forall in Hall. split_and!; [done|..|done]; intros x Hx; by apply Hall in Hx.
Qed.

End runner.

(** ** Checkpoints *)

Section checkpoints.
Context `{Rounding}.

Lemma restored_lookup l : forall m : gmap string PulseSubjectCheckpoint,
  NoDup (pk_SubjectID <$> l) -> forall c, c ∈ l -> foldl (fun m c => <[pk_SubjectID c := c]> m) m l !! pk_SubjectID c = Some c.
Proof.
  assert (Hkeep : forall l (m : gmap string PulseSubjectCheckpoint) id, id ∉ pk_SubjectID <$> l ->
    foldl (fun m c => <[pk_SubjectID c := c]> m) m l !! id = m !! id).
  { induction l0 as [|c l0 IH]; intros m id Hn; simpl; [done|]. rewrite fmap_cons, not_elem_of_cons in Hn. destruct Hn as [Hne Hn].
    rewrite IH by done. by rewrite lookup_insert_ne. }
  induction l as [|c l IH]; intros m Hnd c' Hin; [set_solver|]. simpl. rewrite fmap_cons in Hnd. apply NoDup_cons in Hnd as [Hn Hnd].
  apply elem_of_cons in Hin as [->|Hin]; [|by apply IH]. rewrite Hkeep by done. apply lookup_insert_eq.
Qed.

(** A checkpoint restores the bookkeeping.  Restored into a new runner that observes the same subjects in the same
    lifecycle states, the checkpoint of a runner gives its subjects, its last cognition and its last wake back, so that
    the guard and the cooldown still hold after a restart; whatever the checkpoint, the runner observes the subjects it
    observed before and is not occupied. *)
Theorem checkpoint_restores r r0 :
  NoDup (su_SubjectID <$> r_subjects r) ->
  (fun s => (su_SubjectID s, su_LifecycleState s)) <$> r_subjects r0 = (fun s => (su_SubjectID s, su_LifecycleState s)) <$> r_subjects r ->
  let r' := RestoreFromCheckpoint r0 (ToCheckpoint r) in
  r_subjects r' = r_subjects r /\ r_lastCognitionAt r' = r_lastCognitionAt r /\
  r_lastSpontaneousWakeAt r' = r_lastSpontaneousWakeAt r /\ ToCheckpoint r' = ToCheckpoint r /\
  (forall now cfg, spacing_blocked now (Snapshot r') cfg = spacing_blocked now (Snapshot r) cfg) /\
  (forall cp, su_SubjectID <$> r_subjects (RestoreFromCheckpoint r0 cp) = su_SubjectID <$> r_subjects r0 /\
     r_cognitionRun (RestoreFromCheckpoint r0 cp) = r_cognitionRun r0).
Proof.
  intros Hnd Hsame. cbv zeta.
  assert (Hsub : r_subjects (RestoreFromCheckpoint r0 (ToCheckpoint r)) = r_subjects r).
  { simpl. unfold restored. simpl. set (m := foldl _ _ _).
    assert (Hm : forall s, s ∈ r_subjects r -> m !! su_SubjectID s = Some (subject_checkpoint s)).
    { intros s Hs. unfold m. apply (restored_lookup (subject_checkpoint <$> r_subjects r) ∅) with (c := subject_checkpoint s).
      - rewrite <- list_fmap_compose. exact Hnd.
      - by apply list_elem_of_fmap_2. }
    clearbody m. clear Hnd. revert Hsame Hm. generalize (r_subjects r0). induction (r_subjects r) as [|s l IH]; intros l0 Hsame Hm.
    - by destruct l0.
    - destruct l0 as [|s0 l0]; [done|]. rewrite !fmap_cons in Hsame. injection Hsame as H1 H2 H3. rewrite fmap_cons. f_equal.
      + unfold reconcile. rewrite H1, (Hm s) by set_solver. simpl. rewrite H2. by destruct s.
      + apply IH; [done|]. intros s' Hs'. apply Hm. set_solver. }
  split_and!; [done|done|done| |done|].
  - unfold ToCheckpoint at 1. rewrite Hsub. done.
  - intros cp. split; [|done]. simpl. rewrite <- list_fmap_compose. apply list_fmap_ext. intros i s _. simpl.
    unfold reconcile. by destruct (_ !! _).
Qed.

(** Storing a checkpoint keeps it, per doll. *)
Lemma checkpoint_stored t dollID data t' :
  SavePulseCheckpoint t dollID data = Ok t' ->
  LoadPulseCheckpoint t' dollID = Ok data /\
  (forall other, other <> dollID -> LoadPulseCheckpoint t' other = LoadPulseCheckpoint t other) /\
  exists t'', DeletePulseCheckpoint t' dollID = Ok t'' /\ LoadPulseCheckpoint t'' dollID = Err ErrPulseCheckpointNotFound.
Proof.
  unfold SavePulseCheckpoint, LoadPulseCheckpoint, DeletePulseCheckpoint. destruct (empty_str dollID) eqn:E; [done|].
  intros [= <-]. rewrite lookup_insert_eq. split_and!; [done| |].
  - intros other Hne. by rewrite lookup_insert_ne.
  - eexists. split; [done|]. by rewrite lookup_delete_eq.
Qed.

End checkpoints.

(** ** The order of the signals

    [CombineActivation] with the arithmetic of IEEE 754 double precision, on signals between 0 and 1. *)

Definition one64 : spec_float := S754_finite false (2 ^ 52)%positive (-52).
Definition tenths (n : positive) : spec_float :=
  SFdiv 53 1024 (SFdiv 53 1024 (S754_finite false n 0) (S754_finite false 1 0))
    (SFdiv 53 1024 (S754_finite false 10 0) (S754_finite false 1 0)).
Definition combine64 (signals : list spec_float) : spec_float :=
  SFsub 53 1024 one64 (foldl (fun product s => SFmul 53 1024 product (SFsub 53 1024 one64 s)) one64 signals).

(** The result depends on the order of the signals: three tenths give different pressures in different orders. *)
Lemma combination_depends_on_order :
  exists x y z, SFeqb (combine64 [tenths x; tenths y; tenths z]) (combine64 [tenths z; tenths y; tenths x]) = false.
Proof. exists 1%positive, 2%positive, 4%positive. vm_compute. reflexivity. Qed.

(** ** Witnesses *)

(** Rounding down to multiples of 2^-60. *)
Definition grid (q : Q) : Q := inject_Z (Qfloor (q * inject_Z (2 ^ 60))) / inject_Z (2 ^ 60).

Lemma grid_int n : (grid (inject_Z n) == inject_Z n)%Q.
Proof.
  unfold grid. rewrite <- inject_Z_mult, Qfloor_Z, inject_Z_mult. apply Qdiv_mult_l. done.
Qed.

Lemma grid_mono a b : (a <= b -> grid a <= grid b)%Q.
Proof.
  intros Hab. unfold grid. apply Qmult_le_compat_r; [|done]. rewrite <- Zle_Qle. apply Qfloor_resp_le.
  apply Qmult_le_compat_r; [done|done].
Qed.

Lemma grid_idem a : (grid (grid a) == grid a)%Q.
Proof.
  unfold grid at 1. assert (E : (grid a * inject_Z (2 ^ 60) == inject_Z (Qfloor (a * inject_Z (2 ^ 60))))%Q).
  { unfold grid. rewrite Qmult_comm. apply Qmult_div_r. done. }
  rewrite (Qfloor_comp _ _ E), Qfloor_Z. reflexivity.
Qed.

#[local] Instance grid_rounding : Rounding := {| rnd := grid; rnd_mono := grid_mono; rnd_idem := grid_idem; rnd_int := fun n _ => grid_int n |}.

Definition quick : PulseConfig :=
  {| pc_Enabled := true; pc_IdleHorizon := 10; pc_NeglectHorizon := 10; pc_ChangeHorizon := 0; pc_WakeCooldown := 0;
     pc_MinWakeSpacing := 60 |}.

Definition stirred : PulseSubjectState :=
  {| su_SubjectID := "soul"; su_LastPresentedAt := 0; su_RevisionAtLastPresent := 0; su_ChangesSincePresent := 0;
     su_LastSettledAt := 0; su_LifecycleState := LifecycleStateUnresolved |}.

Definition stirred_runner : Runner := UpdateSubjects (NewRunner quick (Some false) true) [stirred].

Definition tick_at (t : time) : Tick :=
  {| k_now := t * second; k_rng := Some f0; k_due := 0; k_write := fun _ => true; k_enter := fun _ => true;
     k_completion := t * second |}.

Definition after_ticks (ts : list Z) : list pulse_event * Runner :=
  default ([], stirred_runner) (run_ticks (tick_at <$> ts) stirred_runner).

Lemma run_ticks_run ks : forall r es r',
  Forall (fun k => 0 < k_now k) ks -> run_ticks ks r = Some (es, r') -> pulse_run r es r'.
Proof.
  induction ks as [|k ks IH]; intros r es r' Hk Hr; simpl in Hr; [simplify_eq; constructor|].
  inversion_clear Hk. destruct (evaluate k r) as [[[err es1] r1]|] eqn:E; [|done].
  destruct (run_ticks ks r1) as [[es2 r2]|] eqn:E2; [|done]. simpl in Hr. simplify_eq. econstructor; [by eapply ps_tick|by eapply IH].
Qed.

(** Ticks after 100, 110 and 200 seconds: the second is too close to the first to wake. *)
Lemma wakes_spaced_and_recorded_witness :
  pw_AdmittedAt <$> wakes (after_ticks [100; 110; 200]).1 = [100 * second; 200 * second] /\
  StronglySorted (fun w w' => spaced quick (pw_AdmittedAt w) (pw_AdmittedAt w')) (wakes (after_ticks [100; 110; 200]).1).
Proof.
  split; [vm_compute; reflexivity|].
  refine (proj1 (wakes_spaced_and_recorded stirred_runner (after_ticks [100; 110; 200]).1 (after_ticks [100; 110; 200]).2 _) _).
  - apply (run_ticks_run (tick_at <$> [100; 110; 200])); [repeat constructor|]. vm_compute. reflexivity.
  - vm_compute. reflexivity.
Defined.

Lemma checkpoint_restores_witness :
  r_lastSpontaneousWakeAt (RestoreFromCheckpoint stirred_runner (ToCheckpoint (after_ticks [100]).2)) = 100 * second /\
  r_subjects (RestoreFromCheckpoint stirred_runner (ToCheckpoint (after_ticks [100]).2)) = r_subjects (after_ticks [100]).2.
Proof.
  split; [vm_compute; reflexivity|].
  apply (checkpoint_restores (after_ticks [100]).2 stirred_runner); [|vm_compute; reflexivity].
  vm_compute. apply NoDup_singleton.
Defined.
