(* ===== verification/TimeText.v ===== *)
(** * Reading times

    [time.Parse(time.RFC3339, value)] as Core/DollMind uses it for wake times, on
    the layout "2006-01-02T15:04:05Z07:00": the fields have a fixed width except
    the hour, a fraction may follow the seconds, and the zone is Z or an offset.
    The result is an instant as in [GoTime]; what [GoTime] writes is read back. *)
From S2P Require Import Prelude GoTime.
From stdpp Require Import options.

Definition digit (c : Ascii.ascii) : option Z :=
  if (48 <=? code c) && (code c <=? 57) then Some (code c - 48) else None.

(** [getnum]: two digits, or one when the width is not [fixed]. *)
Definition getnum (fixed : bool) (s : string) : option (Z * string) :=
  match s with
  | String a r =>
      x ← digit a;
      match r with
      | String b r' =>
          match digit b with
          | Some y => Some (10 * x + y, r')
          | None => if fixed then None else Some (x, r)
          end
      | EmptyString => if fixed then None else Some (x, r)
      end
  | EmptyString => None
  end.

(** A two-digit field with its bounds. *)
Definition field (fixed : bool) (lo hi : Z) (s : string) : option (Z * string) :=
  '(n, r) ← getnum fixed s; if (lo <=? n) && (n <=? hi) then Some (n, r) else None.

Definition four_digits (s : string) : option (Z * string) :=
  '(a, r) ← getnum true s; '(b, r') ← getnum true r; Some (100 * a + b, r').

Definition skip (c : Ascii.ascii) (s : string) : option string :=
  match s with String a r => if Ascii.eqb a c then Some r else None | EmptyString => None end.

Definition char (n : nat) : Ascii.ascii := Ascii.ascii_of_nat n.

Fixpoint span_digits (s : string) : list Z * string :=
  match s with
  | String c r => match digit c with
                  | Some d => let '(ds, rest) := span_digits r in (d :: ds, rest)
                  | None => ([], s)
                  end
  | EmptyString => ([], s)
  end.

(** Nanoseconds: nine digits count, the rest is skipped. *)
Definition nanoseconds (ds : list Z) : Z :=
  foldl (fun n d => 10 * n + d) 0 (take 9 ds) * 10 ^ (9 - Z.min 9 (len ds)).

Definition fraction (s : string) : Z * string :=
  match s with
  | String p r =>
      if Ascii.eqb p (char 46) || Ascii.eqb p (char 44)
      then let '(ds, rest) := span_digits r in match ds with [] => (0, s) | _ => (nanoseconds ds, rest) end
      else (0, s)
  | EmptyString => (0, s)
  end.

(** The offset in seconds east of UTC, of the whole of the remaining text. *)
Definition zone (s : string) : option Z :=
  match s with
  | String z r =>
      if Ascii.eqb z (char 90) then (if empty_str r then Some 0 else None)
      else
        '(hr, r1) ← field true 0 24 r; r2 ← skip (char 58) r1; '(mm, r3) ← field true 0 60 r2;
        if negb (empty_str r3) then None
        else if Ascii.eqb z (char 43) then Some ((hr * 60 + mm) * 60)
        else if Ascii.eqb z (char 45) then Some (- ((hr * 60 + mm) * 60))
        else None
  | EmptyString => None
  end.

(** *** The calendar *)

Definition days_before_year (y : Z) : Z := 365 * (y - 1) + (y - 1) / 4 - (y - 1) / 100 + (y - 1) / 400.

Definition days_before_month (leap : bool) (m : Z) : Z := foldr Z.add 0 (take (Z.to_nat (m - 1)) (month_lengths leap)).

Definition days_in (leap : bool) (m : Z) : Z := default 0 (month_lengths leap !! Z.to_nat (m - 1)).

Definition instant (y mo d h mi s ns offset : Z) : time :=
  ((days_before_year y + days_before_month (is_leap y) mo + (d - 1)) * 86400 + h * 3600 + mi * 60 + s - offset) * second + ns.

Definition ParseRFC3339 (value : string) : option time :=
  '(y, r) ← four_digits value; r ← skip (char 45) r;
  '(mo, r) ← field true 1 12 r; r ← skip (char 45) r;
  '(d, r) ← getnum true r; r ← skip (char 84) r;
  '(h, r) ← field false 0 23 r; r ← skip (char 58) r;
  '(mi, r) ← field true 0 59 r; r ← skip (char 58) r;
  '(s, r) ← field true 0 59 r;
  let '(ns, r) := fraction r in
  offset ← zone r;
  if (1 <=? d) && (d <=? days_in (is_leap y) mo) then Some (instant y mo d h mi s ns offset) else None.

(** [t.Format(time.RFC3339)] in a zone [offset] seconds east of UTC, a whole number of minutes. *)
Definition FormatIn (offset : Z) (t : time) : string :=
  if offset =? 0 then RFC3339 t
  else
    let m := Z.abs offset / 60 in
    text_of (seconds_text (t + offset * second) ++ [if 0 <? offset then 43 else 45] ++ digits 2 (m / 60) ++ [58] ++ digits 2 (m `mod` 60)).

(** ** What is written is read back *)

#[local] Ltac zdiv := Z.to_euclidean_division_equations; lia.

Lemma digit_code z : 0 <= z < 10 -> digit (Ascii.ascii_of_N (Z.to_N (48 + z))) = Some z.
Proof.
  intros Hz. unfold digit, code. rewrite Ascii.N_ascii_embedding by lia. rewrite Z2N.id by lia.
  replace ((48 <=? 48 + z) && (48 + z <=? 57)) with true; [f_equal; lia|]. symmetry. apply andb_true_iff. lia.
Qed.

Lemma text_of_cons c l : text_of (c :: l) = String (Ascii.ascii_of_N (Z.to_N c)) (text_of l).
Proof. done. Qed.

Lemma getnum_digits fixed z l : 0 <= z < 100 -> getnum fixed (text_of (digits 2 z ++ l)) = Some (z, text_of l).
Proof.
  intros Hz. simpl digits. cbn [app]. rewrite !text_of_cons. unfold getnum.
  pose proof (Z.div_mod z 10 ltac:(lia)). pose proof (Z.mod_pos_bound z 10 ltac:(lia)).
  assert (0 <= z / 10 < 10) by (split; [apply Z.div_pos|apply Z.div_lt_upper_bound]; lia).
  change (10 ^ Z.of_nat 1) with 10. change (10 ^ Z.of_nat 0) with 1. rewrite Z.div_1_r, (Z.mod_small (z / 10)) by lia.
  rewrite !digit_code by lia. simpl. do 2 f_equal. lia.
Qed.

Lemma field_digits fixed lo hi z l :
  0 <= z < 100 -> lo <= z <= hi -> field fixed lo hi (text_of (digits 2 z ++ l)) = Some (z, text_of l).
Proof.
  intros Hz Hr. unfold field. rewrite getnum_digits by done. simpl.
  replace ((lo <=? z) && (z <=? hi)) with true; [done|]. symmetry. apply andb_true_iff. lia.
Qed.

Lemma four_digits_text z l : 0 <= z < 10000 -> four_digits (text_of (digits 4 z ++ l)) = Some (z, text_of l).
Proof.
  intros Hz. assert (E : digits 4 z = digits 2 (z / 100) ++ digits 2 (z `mod` 100)).
  { cbn [digits app]. change (10 ^ Z.of_nat 3) with 1000. change (10 ^ Z.of_nat 2) with 100. change (10 ^ Z.of_nat 1) with 10.
    change (10 ^ Z.of_nat 0) with 1. rewrite !Z.div_1_r. rewrite Z.div_div by lia. change (100 * 10) with 1000.
    assert (E10 : (z `mod` 100) / 10 = (z / 10) `mod` 10) by zdiv. assert (E1 : (z `mod` 100) `mod` 10 = z `mod` 10) by zdiv.
    by rewrite E10, E1, Zmod_mod. }
  rewrite E, <- app_assoc. unfold four_digits. pose proof (Z.mod_pos_bound z 100 ltac:(lia)).
  assert (0 <= z / 100 < 100) by (split; [apply Z.div_pos|apply Z.div_lt_upper_bound]; lia).
  rewrite getnum_digits by done. cbn [mbind option_bind]. rewrite getnum_digits by done. cbn [mbind option_bind]. do 2 f_equal.
  pose proof (Z.div_mod z 100). lia.
Qed.

Lemma skip_code n z l : z = Z.of_nat n -> skip (char n) (text_of ([z] ++ l)) = Some (text_of l).
Proof.
  intros ->. cbn [app]. rewrite text_of_cons. unfold skip, char, Ascii.ascii_of_nat.
  replace (Z.to_N (Z.of_nat n)) with (N.of_nat n) by lia. by rewrite Ascii.eqb_refl.
Qed.

Lemma month_and_day_of (leap : bool) k m d :
  0 <= k < 365 + (if leap then 1 else 0) -> month_and_day (month_lengths leap) 1 k = (m, d) ->
  1 <= m <= 12 /\ 1 <= d <= days_in leap m /\ days_before_month leap m + (d - 1) = k.
Proof.
  intros Hk. destruct leap; simpl; repeat case_match; bool_props; intros [= <- <-]; try lia;
    (split_and!; [lia|lia|lia|unfold days_in; simpl; lia|unfold days_before_month; simpl; lia]).
Qed.

Lemma year_and_day_of d y k :
  0 <= d -> year_and_day d = (y, k) -> days_before_year y + k = d /\ 0 <= k < 365 + (if is_leap y then 1 else 0) /\ 1 <= y.
Proof.
  intros Hd E. unfold year_and_day in E. injection E as Ey Ek.
  pose proof (Z.div_mod d 146097 ltac:(done)) as Hdm. pose proof (Z.mod_pos_bound d 146097 ltac:(done)) as Hd1.
  assert (Hn400 : 0 <= d / 146097) by (apply Z.div_pos; lia). revert Ey Ek Hdm Hd1 Hn400.
  generalize (d / 146097). intros n400. set (d1 := d `mod` 146097). set (n100 := Z.min 3 (d1 / 36524)).
  set (d2 := d1 - 36524 * n100). set (n4 := d2 / 1461). set (d3 := d2 `mod` 1461). set (n1 := Z.min 3 (d3 / 365)).
  intros Ey Ek Hdm Hd1 Hn400.
  assert (H1 : 0 <= n100 <= 3 /\ 0 <= d2 <= 36524 /\ (n100 < 3 -> d2 < 36524)).
  { pose proof (Z.div_mod d1 36524 ltac:(done)). pose proof (Z.mod_pos_bound d1 36524 ltac:(done)). lia. }
  assert (H2 : 0 <= n4 <= 24 /\ 0 <= d3 < 1461 /\ d2 = 1461 * n4 + d3).
  { pose proof (Z.div_mod d2 1461 ltac:(done)). pose proof (Z.mod_pos_bound d2 1461 ltac:(done)). lia. }
  assert (H3 : 0 <= n1 <= 3 /\ 0 <= k <= 365 /\ (n1 < 3 -> k < 365) /\ d3 = 365 * n1 + k).
  { pose proof (Z.div_mod d3 365 ltac:(done)). pose proof (Z.mod_pos_bound d3 365 ltac:(done)). lia. }
  assert (Hd2 : d2 = d1 - 36524 * n100) by done. clearbody d1 n100 d2 n4 d3 n1.
  assert (Hy4 : (y - 1) / 4 = 100 * n400 + 25 * n100 + n4) by zdiv.
  assert (Hy100 : (y - 1) / 100 = 4 * n400 + n100) by zdiv.
  assert (Hy400 : (y - 1) / 400 = n400) by zdiv.
  split; [unfold days_before_year; rewrite Hy4, Hy100, Hy400; lia|]. split; [|lia]. split; [lia|].
  assert (Hleap : k = 365 -> is_leap y = true); [|destruct (Z.eq_dec k 365) as [Hk|]; [rewrite (Hleap Hk)|destruct (is_leap y)]; lia].
  intros ->. unfold is_leap.
  assert (n1 = 3) as -> by lia. assert (Hm4 : y `mod` 4 = 0) by zdiv. rewrite Hm4. simpl.
  destruct (decide (n4 = 24)) as [->|Hn].
  - assert (n100 = 3) as -> by lia. assert (y `mod` 400 = 0) as -> by zdiv. by rewrite orb_true_r.
  - assert (y `mod` 100 <> 0) by zdiv. destruct (y `mod` 100 =? 0) eqn:E; bool_props; [done|]. done.
Qed.

Lemma fraction_letter c s : Ascii.eqb c (char 46) || Ascii.eqb c (char 44) = false -> fraction (String c s) = (0, String c s).
Proof. intros E. unfold fraction. by rewrite E. Qed.

(** Reading what was written: the instant, cut to the second. *)
Lemma parse_format t : in_calendar t -> ParseRFC3339 (RFC3339 t) = Some (truncate_second t).
Proof.
  intros Ht. destruct (civil_spec t Ht) as (y & k & m & d & Ey & Em & Hc & Hk & Hy & Hm & Hd).
  unfold RFC3339, seconds_text. rewrite Hc. set (r := (t / second) `mod` 86400) in *.
  assert (Hr : 0 <= r < 86400) by (apply Z.mod_pos_bound; lia).
  assert (Hdiv : 0 <= t / second) by (apply Z.div_pos; [apply Ht|done]).
  destruct (year_and_day_of (t / second / 86400) y k (Z.div_pos (t / second) 86400 Hdiv ltac:(lia)) Ey) as (Hday & Hk' & Hy1).
  destruct (month_and_day_of _ _ _ _ Hk' Em) as (Hm' & Hd' & Hmd).
  pose proof (Z.mod_pos_bound r 60 ltac:(done)). pose proof (Z.mod_pos_bound (r / 60) 60 ltac:(done)).
  assert (0 <= r / 3600 <= 23) by (split; [apply Z.div_pos; lia|assert (r / 3600 < 24) by (apply Z.div_lt_upper_bound; lia); lia]).
  rewrite <- !app_assoc. unfold ParseRFC3339. rewrite four_digits_text by lia. cbn [mbind option_bind].
  do 5 (rewrite skip_code by done; cbn [mbind option_bind]; first [rewrite field_digits by lia|rewrite getnum_digits by lia];
    cbn [mbind option_bind]).
  rewrite text_of_cons. rewrite fraction_letter by done. cbn [zone].
  change (Ascii.eqb (Ascii.ascii_of_N (Z.to_N 90)) (char 90)) with true. change (empty_str (text_of [])) with true.
  cbn [mbind option_bind].
  replace ((1 <=? d) && (d <=? days_in (is_leap y) m)) with true by (symmetry; apply andb_true_iff; lia).
  f_equal. unfold instant, truncate_second. pose proof (Z.div_mod t second ltac:(done)) as Ht1.
  pose proof (Z.div_mod (t / second) 86400 ltac:(done)) as Ht2. change ((t / second) `mod` 86400) with r in Ht2.
  assert (Hr3 : r = r / 3600 * 3600 + (r / 60) `mod` 60 * 60 + r `mod` 60) by (clearbody r; zdiv).
  nia.
Qed.

(** The leniency of the layout: an hour of one digit, a comma, an offset of a whole day. *)
Example parse_lenient :
  ParseRFC3339 "2006-01-02T5:04:05,25+24:00" = ParseRFC3339 "2006-01-01T05:04:05.25Z" /\
  is_Some (ParseRFC3339 "2006-01-01T05:04:05.25Z") /\ ParseRFC3339 "2006-02-29T05:04:05Z" = None /\
  ParseRFC3339 "2006-01-02T05:04:05" = None /\
  ParseRFC3339 (FormatIn (-19800) (63271811045 * second)) = Some (63271811045 * second).
Proof. vm_compute. repeat split. eexists. reflexivity. Qed.
