(* ===== verification/DollState.v ===== *)
(** * The state of a Doll

    The portable state of DollState/types.go, and the tables in which
    Core/Persistence/store.go keeps it: [dolls], a row of JSON columns per Doll,
    and [memories], whose primary key is the Doll and the sequence of an item.
    A JSON column is modelled as the value that was encoded into it; decoding it
    gives that value with each text as [encoding/json] carries it, bytes that are
    not UTF-8 replaced ([as_json]).  An absent slice ([nil]) is told apart from an
    empty one, because saving depends on it. *)
From S2P Require Import Prelude GoStrings.
From stdpp Require Import options.

Definition CurrentStateVersion : Z := 1.

Record Identity := { di_DollID : string; di_CanonicalName : string; di_TemplateRef : string }.
Record Soul := { so_Revision : Z; so_Content : string }.
Record DollOwner := { ow_OwnerID : string; ow_Name : string; ow_Content : string }.
Record Self := { se_DisplayName : string; se_Pronouns : string; se_Tagline : string }.

Definition KindHumanMessage := "human_message".
Definition KindDollResponse := "doll_response".
Definition KindObservation := "observation".

Record MemoryItem := {
  me_ID : string; me_InteractionID : string; me_Kind : string; me_Content : string; me_Sequence : Z; me_Timestamp : string;
}.

Record DriveItem := { dr_ID : string; dr_Name : string; dr_Description : string }.
Record GoalItem := { go_ID : string; go_Name : string; go_Description : string; go_State : string; go_DriveID : string }.
Record SkillItem := { sk_ID : string; sk_Name : string; sk_Path : string }.

Definition IntentionStatePending := "pending".
Definition IntentionStateCompleted := "completed".

Record IntentionItem := {
  in_ID : string; in_Subject : string; in_Description : string; in_WakeTime : string; in_State : string;
}.

Record Auth := { au_Token : string; au_ExpiresAt : string }.
Record SecretItem := { sc_Key : string; sc_Value : string; sc_Source : string }.

(** ** Values in JSON columns *)

(** [as_json] is a value after [json.Marshal] and [json.Unmarshal]; [plain] says that its texts are UTF-8. *)
Class Column (A : Type) := {
  as_json : A -> A;
  plain : A -> bool;
  as_json_idem a : as_json (as_json a) = as_json a;
  as_json_plain a : plain a = true -> as_json a = a;
}.

Ltac column := intros []; simpl; rewrite ?andb_true_iff; intros; destruct_and?; f_equal; auto using json_text_idem, json_text_id.

#[global] Instance Identity_column : Column Identity.
Proof.
  refine {| as_json i := {| di_DollID := json_text (di_DollID i); di_CanonicalName := json_text (di_CanonicalName i);
              di_TemplateRef := json_text (di_TemplateRef i) |};
            plain i := ValidString (di_DollID i) && ValidString (di_CanonicalName i) && ValidString (di_TemplateRef i) |};
    column.
Defined.

#[global] Instance Soul_column : Column Soul.
Proof.
  refine {| as_json x := {| so_Revision := so_Revision x; so_Content := json_text (so_Content x) |};
            plain x := ValidString (so_Content x) |}; column.
Defined.

#[global] Instance DollOwner_column : Column DollOwner.
Proof.
  refine {| as_json o := {| ow_OwnerID := json_text (ow_OwnerID o); ow_Name := json_text (ow_Name o);
              ow_Content := json_text (ow_Content o) |};
            plain o := ValidString (ow_OwnerID o) && ValidString (ow_Name o) && ValidString (ow_Content o) |}; column.
Defined.

#[global] Instance Self_column : Column Self.
Proof.
  refine {| as_json x := {| se_DisplayName := json_text (se_DisplayName x); se_Pronouns := json_text (se_Pronouns x);
              se_Tagline := json_text (se_Tagline x) |};
            plain x := ValidString (se_DisplayName x) && ValidString (se_Pronouns x) && ValidString (se_Tagline x) |}; column.
Defined.

#[global] Instance DriveItem_column : Column DriveItem.
Proof.
  refine {| as_json d := {| dr_ID := json_text (dr_ID d); dr_Name := json_text (dr_Name d); dr_Description := json_text (dr_Description d) |};
            plain d := ValidString (dr_ID d) && ValidString (dr_Name d) && ValidString (dr_Description d) |}; column.
Defined.

#[global] Instance GoalItem_column : Column GoalItem.
Proof.
  refine {| as_json g := {| go_ID := json_text (go_ID g); go_Name := json_text (go_Name g); go_Description := json_text (go_Description g);
              go_State := json_text (go_State g); go_DriveID := json_text (go_DriveID g) |};
            plain g := ValidString (go_ID g) && ValidString (go_Name g) && ValidString (go_Description g) &&
              ValidString (go_State g) && ValidString (go_DriveID g) |}; column.
Defined.

#[global] Instance IntentionItem_column : Column IntentionItem.
Proof.
  refine {| as_json i := {| in_ID := json_text (in_ID i); in_Subject := json_text (in_Subject i);
              in_Description := json_text (in_Description i); in_WakeTime := json_text (in_WakeTime i); in_State := json_text (in_State i) |};
            plain i := ValidString (in_ID i) && ValidString (in_Subject i) && ValidString (in_Description i) &&
              ValidString (in_WakeTime i) && ValidString (in_State i) |}; column.
Defined.

#[global] Instance list_column {A} `{!Column A} : Column (list A).
Proof.
  refine {| as_json := map as_json; plain := forallb plain |}.
  - intros l. induction l as [|a l IH]; simpl; [done|]. by rewrite as_json_idem, IH.
  - intros l. induction l as [|a l IH]; simpl; [done|]. intros [Ha Hl]%andb_true_iff. by rewrite as_json_plain, IH.
Defined.

#[global] Arguments as_json : simpl never.

Section state.
Context {Any : Type}.

(** [None] is a nil slice. *)
Record DollState := {
  ds_Version : Z;
  ds_Identity : Identity;
  ds_Soul : Soul;
  ds_Owner : DollOwner;
  ds_Self : Self;
  ds_Memories : option (list MemoryItem);
  ds_Drives : option (list DriveItem);
  ds_Goals : option (list GoalItem);
  ds_Skills : option (list SkillItem);
  ds_Intentions : option (list IntentionItem);
  ds_Auth : Auth;
  ds_Secrets : option (list SecretItem);
  ds_ExtensionData : gmap string Any;
}.

Definition items {A} (l : option (list A)) : list A := default [] l.

Definition NewDollState : DollState :=
  {| ds_Version := CurrentStateVersion;
     ds_Identity := {| di_DollID := ""; di_CanonicalName := ""; di_TemplateRef := "" |};
     ds_Soul := {| so_Revision := 0; so_Content := "" |};
     ds_Owner := {| ow_OwnerID := ""; ow_Name := ""; ow_Content := "" |};
     ds_Self := {| se_DisplayName := ""; se_Pronouns := ""; se_Tagline := "" |};
     ds_Memories := None; ds_Drives := None; ds_Goals := None; ds_Skills := None; ds_Intentions := None;
     ds_Auth := {| au_Token := ""; au_ExpiresAt := "" |}; ds_Secrets := None; ds_ExtensionData := ∅ |}.

Definition put_memories (s : DollState) (l : option (list MemoryItem)) : DollState :=
  {| ds_Version := ds_Version s; ds_Identity := ds_Identity s; ds_Soul := ds_Soul s; ds_Owner := ds_Owner s;
     ds_Self := ds_Self s; ds_Memories := l; ds_Drives := ds_Drives s; ds_Goals := ds_Goals s; ds_Skills := ds_Skills s;
     ds_Intentions := ds_Intentions s; ds_Auth := ds_Auth s; ds_Secrets := ds_Secrets s;
     ds_ExtensionData := ds_ExtensionData s |}.

Definition put_intentions (s : DollState) (l : option (list IntentionItem)) : DollState :=
  {| ds_Version := ds_Version s; ds_Identity := ds_Identity s; ds_Soul := ds_Soul s; ds_Owner := ds_Owner s;
     ds_Self := ds_Self s; ds_Memories := ds_Memories s; ds_Drives := ds_Drives s; ds_Goals := ds_Goals s;
     ds_Skills := ds_Skills s; ds_Intentions := l; ds_Auth := ds_Auth s; ds_Secrets := ds_Secrets s;
     ds_ExtensionData := ds_ExtensionData s |}.

(** ** The tables *)

Record doll_row := {
  dw_version : Z; dw_identity : Identity; dw_soul : Soul; dw_owner : DollOwner; dw_self : Self;
  dw_drives : list DriveItem; dw_goals : list GoalItem; dw_intentions : list IntentionItem;
}.

Record dolls_db := { t_dolls : gmap string doll_row; t_memories : gmap string (gmap Z MemoryItem) }.

Definition empty_dolls : dolls_db := {| t_dolls := ∅; t_memories := ∅ |}.

Inductive doll_error := ErrDollNotFound | ErrInvalidDollID | ErrCannotSave.

(** A column that keeps its value when the slice is nil. *)
Definition keep {A} (l : option (list A)) (existing : option (list A)) : list A :=
  match l with Some l => l | None => default [] existing end.

Fixpoint insert_memories (rows : gmap Z MemoryItem) (l : list MemoryItem) : option (gmap Z MemoryItem) :=
  match l with
  | [] => Some rows
  | m :: rest => match rows !! me_Sequence m with
                 | Some _ => None
                 | None => insert_memories (<[me_Sequence m := m]> rows) rest
                 end
  end.

(** Replacing the memories: a repeated sequence violates the primary key and rolls the transaction back. *)
Definition SaveDoll (db : dolls_db) (state : option DollState) : res doll_error dolls_db :=
  match state with
  | None => Err ErrInvalidDollID
  | Some s =>
      let id := di_DollID (ds_Identity s) in
      refuse empty_str id with ErrInvalidDollID;
      let existing := t_dolls db !! id in
      let row := {| dw_version := ds_Version s; dw_identity := ds_Identity s; dw_soul := ds_Soul s; dw_owner := ds_Owner s;
                    dw_self := ds_Self s; dw_drives := keep (ds_Drives s) (dw_drives <$> existing);
                    dw_goals := keep (ds_Goals s) (dw_goals <$> existing);
                    dw_intentions := keep (ds_Intentions s) (dw_intentions <$> existing) |} in
      let dolls := <[id := row]> (t_dolls db) in
      match ds_Memories s with
      | None => Ok {| t_dolls := dolls; t_memories := t_memories db |}
      | Some l =>
          match insert_memories ∅ l with
          | None => Err ErrCannotSave
          | Some rows => Ok {| t_dolls := dolls; t_memories := <[id := rows]> (t_memories db) |}
          end
      end
  end.

Definition memory_before (a b : MemoryItem) : Prop := me_Sequence a <= me_Sequence b.

#[global] Instance memory_before_dec : RelDecision memory_before.
Proof. intros a b. unfold memory_before. apply _. Defined.

Definition nil_if_empty {A} (l : list A) : option (list A) := match l with [] => None | _ => Some l end.

(** [SELECT ... FROM memories WHERE doll_id = ? ORDER BY seq]. *)
Definition stored_memories (db : dolls_db) (id : string) : list MemoryItem :=
  merge_sort memory_before (map_to_list (default ∅ (t_memories db !! id))).*2.

Definition LoadDoll (db : dolls_db) (id : string) : res doll_error DollState :=
  refuse empty_str id with ErrInvalidDollID;
  match t_dolls db !! id with
  | None => Err ErrDollNotFound
  | Some r =>
      Ok {| ds_Version := dw_version r; ds_Identity := as_json (dw_identity r); ds_Soul := as_json (dw_soul r);
            ds_Owner := as_json (dw_owner r); ds_Self := as_json (dw_self r);
            ds_Memories := nil_if_empty (stored_memories db id); ds_Drives := nil_if_empty (as_json (dw_drives r));
            ds_Goals := nil_if_empty (as_json (dw_goals r)); ds_Skills := None;
            ds_Intentions := nil_if_empty (as_json (dw_intentions r)); ds_Auth := ds_Auth NewDollState; ds_Secrets := None;
            ds_ExtensionData := ∅ |}
  end.

(** ** What is saved is loaded *)

#[global] Instance memory_before_total : Total memory_before.
Proof. intros a b. unfold memory_before. lia. Qed.
#[global] Instance memory_before_trans : Transitive memory_before.
Proof. intros a b c. unfold memory_before. lia. Qed.

Lemma insert_memories_spec l : forall rows,
  match insert_memories rows l with
  | Some rows' => (map_to_list rows').*2 ≡ₚ l ++ (map_to_list rows).*2 /\ NoDup (me_Sequence <$> l) /\
                  (forall m, m ∈ l -> rows !! me_Sequence m = None) /\
                  (forall k m, rows' !! k = Some m -> rows !! k = Some m \/ (m ∈ l /\ k = me_Sequence m))
  | None => ~ (NoDup (me_Sequence <$> l) /\ forall m, m ∈ l -> rows !! me_Sequence m = None)
  end.
Proof.
  induction l as [|m l IH]; intros rows; simpl.
  { split_and!; [done|constructor|set_solver|auto]. }
  destruct (rows !! me_Sequence m) as [x|] eqn:E.
  { intros [_ Hn]. specialize (Hn m). rewrite E in Hn. set_solver. }
  specialize (IH (<[me_Sequence m := m]> rows)). destruct (insert_memories _ l) as [rows'|].
  - destruct IH as (Hp & Hnd & Hfree & Hrows). split_and!.
    + rewrite Hp, map_to_list_insert by done. rewrite fmap_cons. simpl. symmetry. apply Permutation_middle.
    + constructor; [|done]. intros (x & Hx & Hin)%list_elem_of_fmap. specialize (Hfree x Hin).
      rewrite <- Hx, lookup_insert_eq in Hfree. done.
    + intros x [->|Hx]%elem_of_cons; [done|]. specialize (Hfree x Hx). by apply lookup_insert_None in Hfree as [? _].
    + intros k x Hk. apply Hrows in Hk as [Hk|[Hin ->]]; [|right; set_solver].
      apply lookup_insert_Some in Hk as [[<- <-]|[_ Hk]]; [right; set_solver|by left].
  - intros [Hnd Hfree]. apply NoDup_cons in Hnd as [Hm Hnd]. apply IH. split; [done|]. intros x Hx.
    rewrite lookup_insert_ne; [apply Hfree; set_solver|]. intros Heq. apply Hm. rewrite Heq. by apply list_elem_of_fmap_2.
Qed.

Lemma nil_if_empty_items {A} (l : option (list A)) : items (nil_if_empty (items l)) = items l.
Proof. by destruct l as [[|x l]|]. Qed.

Lemma items_nil_if_empty {A} (l : list A) : items (nil_if_empty l) = l.
Proof. by destruct l. Qed.

Lemma same_sequence l x y : NoDup (me_Sequence <$> l) -> x ∈ l -> y ∈ l -> me_Sequence x = me_Sequence y -> x = y.
Proof.
  intros Hnd (i & Hi)%list_elem_of_lookup (j & Hj)%list_elem_of_lookup Hxy.
  assert (i = j) as <-; [|congruence].
  apply (NoDup_lookup _ i j (me_Sequence x) Hnd); rewrite list_lookup_fmap; [by rewrite Hi|by rewrite Hj, Hxy].
Qed.

(** Items in the order of their sequences are stored in that order. *)
Lemma sorted_memories l k :
  k ≡ₚ l -> NoDup (me_Sequence <$> l) -> StronglySorted memory_before l -> merge_sort memory_before k = l.
Proof.
  intros Hp Hnd Hs. apply (StronglySorted_unique_strong memory_before); [|apply (StronglySorted_merge_sort _)|done|].
  - intros x y Hx Hy A B. rewrite merge_sort_Permutation, Hp in Hx. apply (same_sequence l); [done..|].
    unfold memory_before in *. lia.
  - by rewrite merge_sort_Permutation.
Qed.

Lemma stored_rows dolls mems id rows :
  stored_memories {| t_dolls := dolls; t_memories := <[id := rows]> mems |} id = merge_sort memory_before (map_to_list rows).*2.
Proof. unfold stored_memories. simpl. by rewrite lookup_insert_eq. Qed.

Lemma SaveDoll_ok (db : dolls_db) (s : DollState) :
  di_DollID (ds_Identity s) <> "" -> (forall l, ds_Memories s = Some l -> NoDup (me_Sequence <$> l)) ->
  is_ok (SaveDoll db (Some s)) = true.
Proof.
  intros Hid Hm. unfold SaveDoll. rewrite (proj2 (empty_str_false _) Hid). destruct (ds_Memories s) as [l|]; [|done].
  pose proof (insert_memories_spec l ∅) as H. destruct (insert_memories ∅ l); [done|]. destruct H.
  split; [by apply Hm|]. intros m _. apply lookup_empty.
Qed.

Lemma SaveDoll_spec (db : dolls_db) (s : DollState) :
  let id := di_DollID (ds_Identity s) in
  match SaveDoll db (Some s) with
  | Err e => (id = "" /\ e = ErrInvalidDollID) \/
             (id <> "" /\ e = ErrCannotSave /\ exists l, ds_Memories s = Some l /\ ~ NoDup (me_Sequence <$> l))
  | Ok db' =>
      id <> "" /\
      (exists s', LoadDoll db' id = Ok s' /\
        (ds_Version s', ds_Identity s', ds_Soul s', ds_Owner s', ds_Self s') =
          (ds_Version s, as_json (ds_Identity s), as_json (ds_Soul s), as_json (ds_Owner s), as_json (ds_Self s)) /\
        match ds_Memories s with
        | None => items (ds_Memories s') = stored_memories db id
        | Some l => items (ds_Memories s') ≡ₚ l /\ StronglySorted memory_before (items (ds_Memories s')) /\
                    (StronglySorted memory_before l -> items (ds_Memories s') = l)
        end /\
        items (ds_Drives s') = as_json (keep (ds_Drives s) (dw_drives <$> t_dolls db !! id)) /\
        items (ds_Goals s') = as_json (keep (ds_Goals s) (dw_goals <$> t_dolls db !! id)) /\
        items (ds_Intentions s') = as_json (keep (ds_Intentions s) (dw_intentions <$> t_dolls db !! id)) /\
        ds_Skills s' = None /\ ds_Secrets s' = None /\ ds_Auth s' = ds_Auth NewDollState /\ ds_ExtensionData s' = ∅) /\
      (forall other, other <> id -> LoadDoll db' other = LoadDoll db other)
  end.
Proof.
  intros id. unfold SaveDoll. fold id. destruct (empty_str id) eqn:Eid.
  { left. by apply empty_str_true in Eid. }
  apply empty_str_false in Eid as Hid. destruct (ds_Memories s) as [l|] eqn:Em.
  - pose proof (insert_memories_spec l ∅) as Hl. destruct (insert_memories ∅ l) as [rows|].
    + destruct Hl as (Hp & Hnd & _ & _). rewrite map_to_list_empty, app_nil_r in Hp. split; [done|]. split.
      * eexists. split; [unfold LoadDoll; rewrite Eid; simpl; by rewrite lookup_insert_eq|]. simpl.
        rewrite !items_nil_if_empty, stored_rows. split_and!; try done.
        -- by rewrite merge_sort_Permutation.
        -- apply (StronglySorted_merge_sort _).
        -- intros Hs. by apply sorted_memories.
      * intros other Ho. unfold LoadDoll, stored_memories. simpl. by rewrite !lookup_insert_ne.
    + right. split_and!; [done..|]. exists l. split; [done|]. intros Hnd. apply Hl. split; [done|]. intros m _. apply lookup_empty.
  - split; [done|]. split.
    + eexists. split; [unfold LoadDoll; rewrite Eid; simpl; by rewrite lookup_insert_eq|]. simpl.
      rewrite !items_nil_if_empty. split_and!; done.
    + intros other Ho. unfold LoadDoll, stored_memories. simpl. by rewrite !lookup_insert_ne.
Qed.

(** Rows are stored under the identifier in their identity, as it is loaded. *)
Definition dolls_ok (db : dolls_db) : Prop := map_Forall (fun id r => di_DollID (as_json (dw_identity r)) = id) (t_dolls db).

Lemma SaveDoll_keeps db s db' :
  dolls_ok db -> SaveDoll db (Some s) = Ok db' -> json_text (di_DollID (ds_Identity s)) = di_DollID (ds_Identity s) -> dolls_ok db'.
Proof.
  intros Hok Hs Hid. revert Hs. unfold SaveDoll. destruct (empty_str _); [done|].
  assert (H : forall r, dw_identity r = ds_Identity s ->
    map_Forall (fun id r => di_DollID (as_json (dw_identity r)) = id) (<[di_DollID (ds_Identity s) := r]> (t_dolls db))).
  { intros r Hr. apply map_Forall_insert_2; [by rewrite Hr|done]. }
  destruct (ds_Memories s); [destruct (insert_memories _ _); [|done]|]; intros [= <-]; by apply H.
Qed.

Lemma loaded_sorted db id st : LoadDoll db id = Ok st -> StronglySorted memory_before (items (ds_Memories st)).
Proof.
  unfold LoadDoll. destruct (empty_str id); [done|]. destruct (t_dolls db !! id); [|done]. intros [= <-]. simpl.
  rewrite items_nil_if_empty. apply (StronglySorted_merge_sort _).
Qed.

(** A loaded list saved again is loaded again. *)
Lemma reloaded {A} `{!Column A} (x : list A) :
  nil_if_empty (as_json (keep (nil_if_empty (as_json x)) (Some x))) = nil_if_empty (as_json x).
Proof.
  destruct x as [|a x]; [done|]. change (nil_if_empty (as_json (as_json (a :: x))) = nil_if_empty (as_json (a :: x))).
  by rewrite as_json_idem.
Qed.

(** A loaded Doll saved with other memories, in order, is loaded with these. *)
Lemma memories_replaced db id st l db' :
  dolls_ok db -> LoadDoll db id = Ok st -> l <> [] -> StronglySorted memory_before l ->
  SaveDoll db (Some (put_memories st (Some l))) = Ok db' ->
  LoadDoll db' id = Ok (put_memories st (Some l)) /\ dolls_ok db' /\ (forall other, other <> id -> LoadDoll db' other = LoadDoll db other).
Proof.
  intros Hok Hl Hne Hsort Hs. pose proof (SaveDoll_spec db (put_memories st (Some l))) as H. cbv zeta in H. rewrite Hs in H.
  unfold LoadDoll in Hl. destruct (empty_str id) eqn:Eid; [done|]. destruct (t_dolls db !! id) as [r|] eqn:Er; [|done].
  injection Hl as <-. assert (Hid := Hok _ _ Er). simpl in Hid, H. rewrite Hid in H.
  destruct H as (_ & _ & Ho). assert (Hok' : dolls_ok db').
  { apply (SaveDoll_keeps _ _ _ Hok Hs). simpl. rewrite Hid, <- Hid. exact (json_text_idem _). }
  split_and!; [|done|done]. revert Hs. unfold SaveDoll. simpl. rewrite Hid, Eid. simpl.
  pose proof (insert_memories_spec l ∅) as Hm. destruct (insert_memories ∅ l) as [rows|]; [|done]. intros [= <-].
  destruct Hm as (Hp & Hnd & _). rewrite map_to_list_empty, app_nil_r in Hp.
  unfold LoadDoll. rewrite Eid, stored_rows, (sorted_memories l) by done. simpl. rewrite lookup_insert_eq, Er. simpl.
  rewrite !reloaded, !as_json_idem. unfold put_memories. simpl. by destruct l.
Qed.

(** The texts of a state that go into JSON columns are UTF-8. *)
Definition plain_state (s : DollState) : bool :=
  plain (ds_Identity s) && plain (ds_Soul s) && plain (ds_Owner s) && plain (ds_Self s) && plain (items (ds_Drives s)) &&
  plain (items (ds_Goals s)) && plain (items (ds_Intentions s)).

(** C26: what is saved is loaded.  Saving fails exactly for an empty identifier, or for memories that repeat a sequence;
    otherwise loading gives back the version, the identity, the soul, the owner and the self-concept, the memories in the
    order of their sequences, and the drives, goals and intentions, each list that was nil keeping what was stored.
    Texts in JSON columns, which are all but those of the memories, come back as [encoding/json] carries them: unchanged
    if they are UTF-8, else with U+FFFD for each byte that is not.  Skills, secrets, credentials and extension data are
    not stored, and no other Doll changes. *)
Theorem saved_doll_loaded (db : dolls_db) (s : DollState) :
  let id := di_DollID (ds_Identity s) in
  match SaveDoll db (Some s) with
  | Err e => (id = "" /\ e = ErrInvalidDollID) \/
             (id <> "" /\ e = ErrCannotSave /\ exists l, ds_Memories s = Some l /\ ~ NoDup (me_Sequence <$> l))
  | Ok db' =>
      id <> "" /\
      (exists s', LoadDoll db' id = Ok s' /\
        (ds_Version s', ds_Identity s', ds_Soul s', ds_Owner s', ds_Self s') =
          (ds_Version s, as_json (ds_Identity s), as_json (ds_Soul s), as_json (ds_Owner s), as_json (ds_Self s)) /\
        match ds_Memories s with
        | None => items (ds_Memories s') = stored_memories db id
        | Some l => items (ds_Memories s') ≡ₚ l /\ StronglySorted memory_before (items (ds_Memories s')) /\
                    (StronglySorted memory_before l -> items (ds_Memories s') = l)
        end /\
        items (ds_Drives s') = as_json (keep (ds_Drives s) (dw_drives <$> t_dolls db !! id)) /\
        items (ds_Goals s') = as_json (keep (ds_Goals s) (dw_goals <$> t_dolls db !! id)) /\
        items (ds_Intentions s') = as_json (keep (ds_Intentions s) (dw_intentions <$> t_dolls db !! id)) /\
        (plain_state s = true ->
         (ds_Identity s', ds_Soul s', ds_Owner s', ds_Self s') = (ds_Identity s, ds_Soul s, ds_Owner s, ds_Self s) /\
         (ds_Drives s <> None -> items (ds_Drives s') = items (ds_Drives s)) /\
         (ds_Goals s <> None -> items (ds_Goals s') = items (ds_Goals s)) /\
         (ds_Intentions s <> None -> items (ds_Intentions s') = items (ds_Intentions s))) /\
        ds_Skills s' = None /\ ds_Secrets s' = None /\ ds_Auth s' = ds_Auth NewDollState /\ ds_ExtensionData s' = ∅) /\
      (forall other, other <> id -> LoadDoll db' other = LoadDoll db other)
  end.
Proof.
  intros id. pose proof (SaveDoll_spec db s) as H. cbv zeta in H. fold id in H.
  destruct (SaveDoll db (Some s)) as [db'|e]; [|exact H].
  destruct H as (Hid & (s' & Hl & Hsame & Hm & Hd & Hg & Hi & Hrest) & Ho). split_and!; [done| |done].
  exists s'. do 6 (split; [done|]). split; [|done]. unfold plain_state. rewrite !andb_true_iff.
  intros ((((((P1 & P2) & P3) & P4) & P5) & P6) & P7). rewrite Hd, Hg, Hi. injection Hsame as _ -> -> -> ->.
  rewrite !as_json_plain by done.
  split_and!; [done|..]; intros Hn; [destruct (ds_Drives s)|destruct (ds_Goals s)|destruct (ds_Intentions s)]; try done;
    by apply as_json_plain.
Qed.

End state.
Arguments DollState : clear implicits.
