(* ===== verification/Mind.v ===== *)
(** * The Doll's mind

    Core/DollMind: what an event means (orient.go), what to do about it (plan.go,
    types.go), and the intentions by which the Doll wakes itself (due.go,
    lifecycle.go, cognition_execution.go, cognition_context.go).  A cognition run
    is an ephemeral working context, shared by the steps of one entry; the Doll's
    state is the one that MindAPI holds and [Save] persists.

    The provider, the tools, the dispatcher, the persistence and the clock are
    interfaces of the source; they act on an environment [Env].  JSON decoding of
    model output is a parameter; what the sources check of its result is
    modelled.  Logging is left out. *)
From S2P Require Import Prelude GoStrings GoTime TimeText DollState Session ContextBuilder Permission Inference.
From S2P Require Import CognitiveExecution ToolExecution.
From stdpp Require Import options.

(** ** Events and paths *)

Definition TypeMessage := "message".
Definition TypeCommand := "command".
Definition TypeSystem := "system".
Definition TypePresence := "presence".
Definition TypeInternalWake := "internal_wake".
Definition TypePulseSpontaneous := "pulse_spontaneous".
Definition TypeUnknown := "unknown".

Definition ParseType (s : string) : string :=
  if existsb (same_str s) [TypeMessage; TypeCommand; TypeSystem; TypePresence; TypeInternalWake; TypePulseSpontaneous]
  then s else TypeUnknown.

Record IntentionWakePayload := { wp_IntentionID : string; wp_Subject : string; wp_Description : string }.

Inductive MindPath := PathSleep | PathOrient.

Definition L0Reflex (eventType : string) : MindPath :=
  if existsb (same_str eventType) [TypeMessage; TypeCommand; TypeInternalWake; TypePulseSpontaneous]
  then PathOrient else PathSleep.

Inductive Level := LevelReflex | LevelOrient | LevelPlan | LevelReflect | LevelDream.

Definition Level_String (l : Level) : string :=
  match l with
  | LevelReflex => "reflex" | LevelOrient => "orient" | LevelPlan => "plan" | LevelReflect => "reflect" | LevelDream => "dream"
  end.

Definition PurposeOrient := "orient".
Definition PurposePlan := "plan".
Definition PurposeRespond := "respond".

Definition cognitionObjective (eventType : string) : string :=
  if same_str eventType TypeInternalWake then "Reconsider the due internal intention and plan only if it matters."
  else if same_str eventType TypeCommand then "Orient to the command and plan an appropriate response if it matters."
  else if same_str eventType TypeMessage then "Orient to the incoming message and plan an appropriate response if it matters."
  else if same_str eventType TypePulseSpontaneous then "Orient to this spontaneous internal wake and plan only if it matters."
  else "Orient to the internal cognition event and plan only if it matters.".

Definition planObjective (eventType : string) : string :=
  if same_str eventType TypeInternalWake then "Plan an appropriate response to the due internal intention."
  else if same_str eventType TypeCommand then "Plan an appropriate response to the command."
  else if same_str eventType TypeMessage then "Plan an appropriate response to the incoming message."
  else if same_str eventType TypePulseSpontaneous then "Plan an appropriate response to the spontaneous internal wake."
  else "Plan an appropriate response to the cognition event.".

(** ** Model output *)

Record Orientation := { or_Summary : string; or_Matters : bool; or_Reason : string }.

Definition ActionKindSendText := "send_text".
Record OutboundAction := { oa_Kind : string; oa_Content : string }.

(** What JSON decoding gives; [pj_Observations] is [None] when absent. *)
Record planJSON := {
  pj_Summary : string; pj_ProposedAction : string; pj_Observations : option (list string); pj_ShouldReorient : bool;
  pj_RetainExperience : list string; pj_RequestFutureCognition : bool; pj_FutureSubject : string; pj_FutureReason : string;
  pj_FutureWakeTime : string; pj_OutboundAction : option OutboundAction;
}.

Record Plan := {
  pl_Summary : string; pl_ProposedAction : string; pl_Observations : list string; pl_ShouldReorient : bool;
  pl_RetainExperience : list string; pl_RequestFutureCognition : bool; pl_FutureSubject : string; pl_FutureReason : string;
  pl_FutureWakeTime : string; pl_OutboundAction : option OutboundAction;
}.

Inductive output_error := InvalidJSON | MissingSummary | MissingReason | EmptyActionContent | UnsupportedAction (kind : string).

Definition TrimSuffix (s p : string) : string := String.rev (TrimPrefix (String.rev s) (String.rev p)).

Definition FENCE : string := "```".

(** Surrounding white space and code fences are removed. *)
Definition clean_output (raw : string) : string :=
  TrimSpace (TrimSuffix (TrimPrefix (TrimPrefix (TrimSpace raw) (FENCE +:+ "json")) FENCE) FENCE).

Definition check_action (a : option OutboundAction) : res output_error unit :=
  match a with
  | None => Ok tt
  | Some a =>
      refuse negb (same_str (oa_Kind a) ActionKindSendText) with UnsupportedAction (oa_Kind a);
      refuse empty_str (oa_Content a) with EmptyActionContent;
      Ok tt
  end.

Section output.
Context (unmarshal_orientation : string -> option Orientation) (unmarshal_plan : string -> option planJSON).

Definition parseOrientation (raw : string) : res output_error Orientation :=
  match unmarshal_orientation (clean_output raw) with
  | None => Err InvalidJSON
  | Some o =>
      refuse empty_str (or_Summary o) with MissingSummary;
      refuse empty_str (or_Reason o) with MissingReason;
      Ok o
  end.

Definition parsePlan (raw : string) : res output_error Plan :=
  match unmarshal_plan (clean_output raw) with
  | None => Err InvalidJSON
  | Some p =>
      refuse empty_str (pj_Summary p) with MissingSummary;
      try u <- check_action (pj_OutboundAction p);
      Ok {| pl_Summary := pj_Summary p; pl_ProposedAction := pj_ProposedAction p; pl_Observations := default [] (pj_Observations p);
            pl_ShouldReorient := pj_ShouldReorient p; pl_RetainExperience := pj_RetainExperience p;
            pl_RequestFutureCognition := pj_RequestFutureCognition p; pl_FutureSubject := pj_FutureSubject p;
            pl_FutureReason := pj_FutureReason p; pl_FutureWakeTime := pj_FutureWakeTime p;
            pl_OutboundAction := pj_OutboundAction p |}
  end.
End output.

(** ** Prompts *)

Definition SEP : string := LF +:+ LF.

Section prompts.
(** The literal task instructions at the end of the prompts. *)
Context (orient_task plan_task : string).

Definition orientInstruction (eventType input : string) : string :=
  String.concat SEP
    ((if same_str eventType TypeInternalWake then ["An intention from within your own mind has become due." +:+ SEP +:+ input]
      else if same_str eventType TypePulseSpontaneous then []
      else ["Event type: " +:+ eventType +:+ LF +:+ "Event: " +:+ input]) ++ [orient_task]).

(** A line per item, with its description if it has one. *)
Definition described (name sep description : string) : string :=
  "- " +:+ name +:+ (if empty_str description then "" else sep +:+ description).

Definition section_of (heading : string) (lines : list string) : list string :=
  match lines with [] => [] | _ => [heading +:+ LF +:+ String.concat LF lines] end.

Definition last_five {A} (l : list A) : list A := drop (length l - 5) l.

Definition part (prefix text suffix : string) : list string := if empty_str text then [] else [prefix +:+ text +:+ suffix].

(** The context that both prompts share. *)
Definition state_parts {Any} (s : DollState Any) : list string :=
  part "You are " (di_CanonicalName (ds_Identity s)) "." ++ part "Your nature: " (so_Content (ds_Soul s)) "" ++
  part "Your owner is " (ow_Name (ds_Owner s)) "." ++
  section_of "Your drives:" ((fun d => described (dr_Name d) ": " (dr_Description d)) <$> items (ds_Drives s)) ++
  section_of "Your goals:"
    ((fun g => described (go_Name g +:+ " [" +:+ go_State g +:+ "]") (" " +:+ DASH +:+ " ") (go_Description g)) <$> items (ds_Goals s)) ++
  section_of "Recent memory:"
    ((fun m => "[" +:+ me_Kind m +:+ "] " +:+ me_Content m) <$> last_five (items (ds_Memories s))).

Definition buildPlanPrompt {Any} (s : DollState Any) (eventType input : string) (o : Orientation) : string :=
  String.concat SEP
    (state_parts s ++
     [if same_str eventType TypeInternalWake then "An intention from within your own mind has become due." +:+ SEP +:+ input
      else "Event type: " +:+ eventType +:+ LF +:+ "Event: " +:+ input;
      "Orientation: " +:+ or_Summary o +:+ LF +:+ "Reason: " +:+ or_Reason o; plan_task]).

Definition planInstruction (eventType input : string) (o : Orientation) : string :=
  buildPlanPrompt (NewDollState (Any := unit)) eventType
    (if same_str eventType TypePulseSpontaneous then "" else input) o.
End prompts.

(** ** The scheduler *)

Inductive task_error := NoProvider (task : string) | TaskModel (e : model_error) | TaskBudget (e : inference_error).

Inductive mind_failure :=
| NoMindAPI | NoOrientation | NoRun | RunInvalid (e : context_error) | ModelUnavailable (e : task_error)
| ExecutionFailed (e : execution_error) | ToolRecordFailed | OutputRejected (e : output_error)
| SubjectEmpty | WakeTimeInvalid (text : string) | WakeTimePast (text : string)
| SaveFailed (text : string) | DispatchFailure (text : string) | IntentionNotPending (id state : string)
| IntentionNotFound (id : string) | PermissionStateFailed (text : string) | MalformedWakeTime (id text : string)
| EvidenceFailed.

Record MindResult := { mr_Level : Level; mr_StateDirty : bool; mr_Orientation : option Orientation; mr_Plan : option Plan }.

(** What the mind takes from libraries and from its surroundings: [json.Marshal] of what the contexts quote and the [%v] verb
    on a map, [json.Unmarshal] of model output, the literal task instructions, [Error()] of the errors that a context
    reports, the generated identifiers, the zone of the clock, and whether the context of the call is done. *)
Class Surroundings (Any Env : Type) := {
  marshal_orientation : Orientation -> string;
  marshal_identity : string -> string -> string;
  marshal_mind : Soul -> DollOwner -> Self -> list DriveItem -> string;
  marshal_goals : list GoalItem -> string;
  marshal_intentions : list IntentionItem -> string;
  marshal_memories : list MemoryItem -> string;
  marshal_call : ToolCall Any -> option string;
  show_map : gmap string Any -> string;
  marshal_resolution : string -> Permission.Request -> ContinuationOutcome -> option string;
  unmarshal_orientation : string -> option Orientation;
  unmarshal_plan : string -> option planJSON;
  orient_task : string;
  plan_task : string;
  context_text : context_error -> string;
  uuid : Z -> string;
  zone_offset : time -> Z;
  cancelled : Env -> bool;
}.

Section mind.
Context {Any Env : Type} `{!Surroundings Any Env}.

Record cognitionRun := {
  cr_id : string;
  cr_resolver : CognitionRunResolver;
  cr_working : list CognitionWorkingRecord;
  cr_tools : list (ToolExchange Any);
  cr_intention : string;
}.

(** [w_run] is the run that the context of the call carries, [w_ids] counts the identifiers generated. *)
Record world := { w_state : DollState Any; w_run : option cognitionRun; w_env : Env; w_ids : Z }.

Definition put_state (w : world) (s : DollState Any) : world :=
  {| w_state := s; w_run := w_run w; w_env := w_env w; w_ids := w_ids w |}.
Definition put_run (w : world) (r : option cognitionRun) : world :=
  {| w_state := w_state w; w_run := r; w_env := w_env w; w_ids := w_ids w |}.
Definition put_env (w : world) (e : Env) : world := {| w_state := w_state w; w_run := w_run w; w_env := e; w_ids := w_ids w |}.
Definition next_id (w : world) : world := {| w_state := w_state w; w_run := w_run w; w_env := w_env w; w_ids := w_ids w + 1 |}.

Record taskModel := { tm_provider : option (Provider Any Env); tm_configuration : ModelConfiguration }.

(** [sc_mindAPI] is [Save] of the mind's interface; [sc_toolExecutor] comes with its view of the permission requests. *)
Record Scheduler := {
  sc_provider : option (Provider Any Env);
  sc_mindAPI : option (DollState Any -> Env -> option string * Env);
  sc_dispatcher : option (OutboundAction -> Env -> option string * Env);
  sc_timeProvider : Env -> time;
  sc_toolExecutor : option (ToolExecutor Any Env * (string -> string -> Env -> res string bool));
  sc_modelConfiguration : ModelConfiguration;
  sc_taskModels : gmap string taskModel;
}.

(** *** The run's context *)

Definition appendRecord (r : cognitionRun) (record : CognitionWorkingRecord) : res context_error cognitionRun :=
  try resolver <- Append (cr_resolver r) [record];
  Ok {| cr_id := cr_id r; cr_resolver := resolver; cr_working := cr_working r ++ [record]; cr_tools := cr_tools r;
        cr_intention := cr_intention r |}.

Definition replaceWorking (r : cognitionRun) (records : list CognitionWorkingRecord) : res context_error cognitionRun :=
  try resolver <- ReplaceWorking (cr_resolver r) records;
  Ok {| cr_id := cr_id r; cr_resolver := resolver; cr_working := records; cr_tools := cr_tools r;
        cr_intention := cr_intention r |}.

Definition appendToolExchanges (r : cognitionRun) (l : list (ToolExchange Any)) : cognitionRun :=
  {| cr_id := cr_id r; cr_resolver := cr_resolver r; cr_working := cr_working r; cr_tools := cr_tools r ++ l;
     cr_intention := cr_intention r |}.

Definition setIntentionID (r : cognitionRun) (id : string) : cognitionRun :=
  {| cr_id := cr_id r; cr_resolver := cr_resolver r; cr_working := cr_working r; cr_tools := cr_tools r; cr_intention := id |}.

Definition newCognitionRunExecution (s : Scheduler) (id objective evidence : string) : res context_error cognitionRun :=
  try resolver <- NewCognitionRunResolver id objective evidence (bool_decide (is_Some (sc_mindAPI s))) [];
  Ok {| cr_id := id; cr_resolver := resolver; cr_working := []; cr_tools := []; cr_intention := "" |}.

(** [ensureCognitionRun] around [body]: a run of the caller's context is reused, a new one ends with the call. *)
Definition with_run {A} (s : Scheduler) (objective evidence : string) (body : world -> res mind_failure A * world) (w : world)
    : res mind_failure A * world :=
  match w_run w with
  | Some _ => body w
  | None =>
      match newCognitionRunExecution s (uuid (w_ids w)) objective evidence with
      | Err e => (Err (RunInvalid e), next_id w)
      | Ok run => let '(o, w') := body (put_run (next_id w) (Some run)) in (o, put_run w' None)
      end
  end.

Definition recentCognitionMemories : nat := 5.

(** What the run quotes of the state. *)
Definition texts_of (s : DollState Any) : mind_texts :=
  {| mt_identity := marshal_identity (di_DollID (ds_Identity s)) (di_CanonicalName (ds_Identity s));
     mt_mind := marshal_mind (ds_Soul s) (ds_Owner s) (ds_Self s) (items (ds_Drives s));
     mt_goals := marshal_goals (items (ds_Goals s)); mt_intentions := marshal_intentions (items (ds_Intentions s));
     mt_memory := let l := items (ds_Memories s) in marshal_memories (drop (length l - recentCognitionMemories) l) |}.

Definition role_text (r : Role) : string :=
  match r with
  | RoleSystem => "system" | RoleUser => "user" | RoleAssistant => "assistant" | RoleTool => "tool" | RoleOther s => s
  end.

Definition with_content (m : InferenceMessage Any) (content : string) : InferenceMessage Any :=
  {| im_Role := im_Role m; im_Content := content; im_Provenance := im_Provenance m; im_Tools := im_Tools m;
     im_ToolCall := im_ToolCall m; im_ToolResult := im_ToolResult m |}.

Definition inference_message (m : Message) : InferenceMessage Any :=
  {| im_Role := role_text (m_Role m); im_Content := m_Content m; im_Provenance := m_Provenance m; im_Tools := [];
     im_ToolCall := None; im_ToolResult := None |}.

(** Consecutive system messages become one. *)
Definition coalesce (acc : list (InferenceMessage Any)) (m : Message) : list (InferenceMessage Any) :=
  match last acc with
  | Some prev =>
      if bool_decide (m_Role m = RoleSystem) && same_str (im_Role prev) "system"
      then removelast acc ++ [with_content prev (im_Content prev +:+ SEP +:+ m_Content m)]
      else acc ++ [inference_message m]
  | None => [inference_message m]
  end.

Definition run_messages (r : cognitionRun) (state : DollState Any) (budget : Z) (instructions : list string)
    : res context_error (list (InferenceMessage Any)) :=
  try built <- BuildSource ApproximateEstimator SlidingWindow_Select (resolve_run (cr_resolver r) (Some (texts_of state)))
                 {| sq_Source := cn_source (cr_resolver r); sq_TokenBudget := budget; sq_SystemInstructions := instructions;
                    sq_RequiredMessages := []; sq_TransientMessages := [] |};
  Ok match foldl coalesce [] (cx_Messages built) with
     | [] => []
     | m :: rest => with_content m (TrimSpace (im_Content m)) :: rest
     end.

Definition exchange_provenance := "cognition_run.tool_exchange".

Definition show_result : ToolResult Any -> string := FormatToolResultForPrompt show_map.

Definition cognitionToolRecord (e : ToolExchange Any) : option CognitionWorkingRecord :=
  content ← FormatToolExchange marshal_call show_result e;
  Some {| cw_Role := RoleTool; cw_Content := content; cw_Provenance := exchange_provenance; cw_Required := ex_Required e |}.

(** The base records and one for each exchange. *)
Definition working_with (base : list CognitionWorkingRecord) (exchanges : list (ToolExchange Any))
    : option (list CognitionWorkingRecord) := records ← mapM cognitionToolRecord exchanges; Some (base ++ records).

(** [BuildContext] of an execution; the run's working set is replaced before the messages are built. *)
Definition build_context (base : list CognitionWorkingRecord) (baseExchanges : list (ToolExchange Any))
    (instructions : list string) : ContextBuilder Any world := fun st w =>
  match w_run w with
  | None => (Err "no cognition run", w)
  | Some run =>
      match working_with base (cs_Exchanges st) with
      | None => (Err "tool context record", w)
      | Some working =>
          match replaceWorking run working with
          | Err e => (Err ("context working state: " +:+ context_text e), w)
          | Ok run1 =>
              let w1 := put_run w (Some run1) in
              let all := instructions ++ match cs_Tools st with [] => [] | tools => [FormatToolsForPrompt tools] end in
              match run_messages run1 (w_state w1) (cs_InputTokenBudget st) all with
              | Err e => (Err ("bounded context: " +:+ context_text e), w1)
              | Ok messages =>
                  let '(bound, err) := BindToolContext marshal_call show_result messages (cs_Tools st)
                                         (baseExchanges ++ cs_Exchanges st) exchange_provenance in
                  match err with
                  | Some _ => (Err "tool protocol context", w1)
                  | None => (Ok bound, w1)
                  end
              end
          end
      end
  end.

(** *** Interfaces of the environment, in the world of the mind *)

Definition lift_provider (p : Provider Any Env) : Provider Any world := fun q w =>
  let '(o, e) := p q (w_env w) in (o, put_env w e).

Definition lift_executor (x : ToolExecutor Any Env) : ToolExecutor Any world :=
  {| Tools := fun w => Tools x (w_env w);
     ExecuteCall := fun call tool w => let '(r, e) := ExecuteCall x call tool (w_env w) in (r, put_env w e);
     ExecuteCorrelatedCall :=
       (fun f k call tool w => let '(r, e) := f k call tool (w_env w) in (r, put_env w e)) <$> ExecuteCorrelatedCall x |}.

Definition modelForTask (s : Scheduler) (task : string) : res task_error taskModel :=
  let selected := default {| tm_provider := sc_provider s; tm_configuration := sc_modelConfiguration s |}
                    (sc_taskModels s !! task) in
  refuse bool_decide (tm_provider selected = None) with NoProvider task;
  match ValidateModelConfiguration (tm_configuration selected) with
  | Err e => Err (TaskModel e)
  | Ok _ => match InputTokens (mo_Budget (tm_configuration selected)) with
            | Err e => Err (TaskBudget e)
            | Ok _ => Ok selected
            end
  end.

Definition cognition_request (s : Scheduler) (run : cognitionRun) (selected : taskModel) (purpose : string) (temperature : float64)
    (instructions : list string) : CognitiveExecution.Request Any world :=
  {| rq_Provider := lift_provider <$> tm_provider selected; rq_ModelConfiguration := tm_configuration selected;
     rq_Purpose := purpose; rq_Temperature := temperature; rq_TurnID := ""; rq_SessionID := "";
     rq_CognitiveRunID := cr_id run; rq_IntentionID := cr_intention run;
     rq_BuildContext := Some (build_context (cr_working run) (cr_tools run) instructions);
     rq_ToolExecutor := (fun x => lift_executor (fst x)) <$> sc_toolExecutor s; rq_MaxToolCalls := DefaultToolCallLimit |}.

Definition executeCognition (s : Scheduler) (selected : taskModel) (purpose : string) (temperature : float64)
    (instructions : list string) (w : world) : res mind_failure (Response Any) * world :=
  match w_run w with
  | None => (Err NoRun, w)
  | Some run =>
      let q := cognition_request s run selected purpose temperature instructions in
      match CognitiveExecution.Execute (fun w => cancelled (w_env w)) (enough q) q w with
      | (Err e, w1) => (Err (ExecutionFailed e), w1)
      | (Ok result, w1) =>
          match rs_Exchanges result with
          | [] => (Ok (rs_Response result), w1)
          | exchanges =>
              match working_with (cr_working run) exchanges, w_run w1 with
              | Some working, Some run1 =>
                  match replaceWorking run1 working with
                  | Err e => (Err (RunInvalid e), w1)
                  | Ok run2 => (Ok (rs_Response result), put_run w1 (Some (appendToolExchanges run2 exchanges)))
                  end
              | _, _ => (Err ToolRecordFailed, w1)
              end
          end
      end
  end.

(** *** Orientation and planning *)

(** 0.3 as a 64-bit float. *)
Definition temperature : float64 := (5404319552844595, -54).

Definition Orient (s : Scheduler) (eventType input : string) (w : world) : res mind_failure Orientation * world :=
  match sc_mindAPI s with
  | None => (Err NoMindAPI, w)
  | Some _ =>
      with_run s (cognitionObjective eventType) "" (fun w =>
        match modelForTask s InferenceTaskOrient with
        | Err e => (Err (ModelUnavailable e), w)
        | Ok selected =>
            match executeCognition s selected PurposeOrient temperature [orientInstruction orient_task eventType input] w with
            | (Err e, w1) => (Err e, w1)
            | (Ok resp, w1) =>
                match parseOrientation unmarshal_orientation (rp_Content resp) with
                | Err e => (Err (OutputRejected e), w1)
                | Ok o => (Ok o, w1)
                end
            end
        end) w
  end.

Definition validateFutureCognition (s : Scheduler) (p : Plan) (e : Env) : res mind_failure time :=
  refuse empty_str (pl_FutureSubject p) with SubjectEmpty;
  match ParseRFC3339 (pl_FutureWakeTime p) with
  | None => Err (WakeTimeInvalid (pl_FutureWakeTime p))
  | Some wake =>
      refuse negb (After wake (sc_timeProvider s e)) with WakeTimePast (pl_FutureWakeTime p);
      Ok wake
  end.

(** The intention that a plan asks for. *)
Definition intention_of (id : string) (p : Plan) : IntentionItem :=
  {| in_ID := id; in_Subject := pl_FutureSubject p; in_Description := pl_FutureReason p; in_WakeTime := pl_FutureWakeTime p;
     in_State := IntentionStatePending |}.

Definition save (s : Scheduler) (w : world) : option string * world :=
  match sc_mindAPI s with
  | None => (None, w)
  | Some saving => let '(err, e) := saving (w_state w) (w_env w) in (err, put_env w e)
  end.

Definition materialiseIntention (s : Scheduler) (p : Plan) (w : world) : res mind_failure bool * world :=
  if negb (pl_RequestFutureCognition p) then (Ok false, w)
  else
    match validateFutureCognition s p (w_env w) with
    | Err e => (Err e, w)
    | Ok _ =>
        let intention := intention_of (uuid (w_ids w)) p in
        let w1 := next_id (put_state w (put_intentions (w_state w) (Some (items (ds_Intentions (w_state w)) ++ [intention])))) in
        match save s w1 with
        | (Some text, w2) => (Err (SaveFailed text), w2)
        | (None, w2) => (Ok true, w2)
        end
    end.

(** One memory for each retained experience, numbered from the number of memories. *)
Fixpoint experiences (ids seq : Z) (now : string) (l : list string) : list MemoryItem :=
  match l with
  | [] => []
  | text :: rest =>
      {| me_ID := uuid ids; me_InteractionID := ""; me_Kind := KindObservation; me_Content := text; me_Sequence := seq;
         me_Timestamp := now |} :: experiences (ids + 1) (seq + 1) now rest
  end.

Definition materialiseExperience (s : Scheduler) (p : Plan) (w : world) : bool * world :=
  match pl_RetainExperience p with
  | [] => (false, w)
  | l =>
      let now := sc_timeProvider s (w_env w) in
      let old := items (ds_Memories (w_state w)) in
      let new := experiences (w_ids w) (len old) (FormatIn (zone_offset now) now) l in
      (true, {| w_state := put_memories (w_state w) (Some (old ++ new)); w_run := w_run w; w_env := w_env w;
                w_ids := w_ids w + len l |})
  end.

Definition plan_record (o : Orientation) : CognitionWorkingRecord :=
  {| cw_Role := RoleAssistant; cw_Content := "L1 Orientation:" +:+ LF +:+ marshal_orientation o; cw_Provenance := "";
     cw_Required := false |}.

Definition append_working (record : CognitionWorkingRecord) (w : world) : res mind_failure unit * world :=
  match w_run w with
  | None => (Err NoRun, w)
  | Some run => match appendRecord run record with
                | Err e => (Err (RunInvalid e), w)
                | Ok run1 => (Ok tt, put_run w (Some run1))
                end
  end.

(** What a parsed plan does to the state.  A due intention keeps its identity: its plan is applied by [EnterWake]. *)
Definition apply_plan (s : Scheduler) (eventType : string) (p : Plan) (w : world) : res mind_failure (Plan * bool) * world :=
  let '(intention, w1) :=
    if negb (same_str eventType TypeInternalWake) then materialiseIntention s p w
    else if pl_RequestFutureCognition p
         then (match validateFutureCognition s p (w_env w) with Err e => Err e | Ok _ => Ok false end, w)
         else (Ok false, w) in
  match intention with
  | Err e => (Err e, w1)
  | Ok dirty => let '(retained, w2) := materialiseExperience s p w1 in (Ok (p, dirty || retained), w2)
  end.

Definition PlanStep (s : Scheduler) (eventType input : string) (orientation : option Orientation) (w : world)
    : res mind_failure (Plan * bool) * world :=
  match sc_mindAPI s, orientation with
  | None, _ => (Err NoMindAPI, w)
  | _, None => (Err NoOrientation, w)
  | Some _, Some o =>
      with_run s (planObjective eventType) "" (fun w =>
        match append_working (plan_record o) w with
        | (Err e, w1) => (Err e, w1)
        | (Ok _, w1) =>
            match modelForTask s InferenceTaskPlan with
            | Err e => (Err (ModelUnavailable e), w1)
            | Ok selected =>
                match executeCognition s selected PurposePlan temperature [planInstruction plan_task eventType input o] w1 with
                | (Err e, w2) => (Err e, w2)
                | (Ok resp, w2) =>
                    match parsePlan unmarshal_plan (rp_Content resp) with
                    | Err e => (Err (OutputRejected e), w2)
                    | Ok p => apply_plan s eventType p w2
                    end
                end
            end
        end) w
  end.

Definition dispatch (s : Scheduler) (p : Plan) (w : world) : option string * world :=
  match pl_OutboundAction p, sc_dispatcher s with
  | Some action, Some send => let '(err, e) := send action (w_env w) in (err, put_env w e)
  | _, _ => (None, w)
  end.

Definition Enter (s : Scheduler) (eventType input : string) (w : world) : res mind_failure MindResult * world :=
  match L0Reflex eventType with
  | PathSleep => (Ok {| mr_Level := LevelReflex; mr_StateDirty := false; mr_Orientation := None; mr_Plan := None |}, w)
  | PathOrient =>
      with_run s (cognitionObjective eventType) "" (fun w =>
        match Orient s eventType input w with
        | (Err e, w1) => (Err e, w1)
        | (Ok o, w1) =>
            if negb (or_Matters o)
            then (Ok {| mr_Level := LevelOrient; mr_StateDirty := false; mr_Orientation := Some o; mr_Plan := None |}, w1)
            else
              match PlanStep s eventType input (Some o) w1 with
              | (Err e, w2) => (Err e, w2)
              | (Ok (p, dirty), w2) =>
                  match dispatch s p w2 with
                  | (Some text, w3) => (Err (DispatchFailure text), w3)
                  | (None, w3) =>
                      (Ok {| mr_Level := LevelPlan; mr_StateDirty := dirty; mr_Orientation := Some o; mr_Plan := Some p |}, w3)
                  end
              end
        end) w
  end.

(** *** Intentions *)

Definition intentionAwaitingPermission (s : Scheduler) (id exclude : string) (e : Env) : res string bool :=
  match sc_toolExecutor s with Some (_, awaiting) => awaiting id exclude e | None => Ok false end.

(** The first intention with this identifier, changed. *)
Fixpoint update_intention (id : string) (f : IntentionItem -> IntentionItem) (l : list IntentionItem) : list IntentionItem :=
  match l with
  | [] => []
  | i :: rest => if same_str (in_ID i) id then f i :: rest else i :: update_intention id f rest
  end.

Definition find_intention (id : string) (l : list IntentionItem) : option IntentionItem :=
  List.find (fun i => same_str (in_ID i) id) l.

Definition change_intention (w : world) (id : string) (f : IntentionItem -> IntentionItem) : world :=
  put_state w (put_intentions (w_state w) (update_intention id f <$> ds_Intentions (w_state w))).

Definition rescheduled (p : Plan) (i : IntentionItem) : IntentionItem := intention_of (in_ID i) p.

Definition completed (i : IntentionItem) : IntentionItem :=
  {| in_ID := in_ID i; in_Subject := in_Subject i; in_Description := in_Description i; in_WakeTime := in_WakeTime i;
     in_State := IntentionStateCompleted |}.

Definition rescheduleIntention (s : Scheduler) (id : string) (p : Plan) (w : world) : res mind_failure unit * world :=
  match validateFutureCognition s p (w_env w) with
  | Err e => (Err e, w)
  | Ok _ => match find_intention id (items (ds_Intentions (w_state w))) with
            | None => (Err (IntentionNotFound id), w)
            | Some _ => (Ok tt, change_intention w id (rescheduled p))
            end
  end.

Definition completeIntention (id : string) (w : world) : world := change_intention w id completed.

Definition wake_text (p : IntentionWakePayload) : string :=
  wp_Subject p +:+ (if empty_str (wp_Description p) then "" else LF +:+ wp_Description p) +:+
  (if empty_str (wp_IntentionID p) then "" else LF +:+ "IntentionID: " +:+ wp_IntentionID p).

Definition set_intention (id : string) (w : world) : world := put_run w ((fun r => setIntentionID r id) <$> w_run w).

Definition dirty_result (r : MindResult) : MindResult :=
  {| mr_Level := mr_Level r; mr_StateDirty := true; mr_Orientation := mr_Orientation r; mr_Plan := mr_Plan r |}.

(** What becomes of the intention after a successful cognition. *)
Definition settle_wake (s : Scheduler) (id exclude : string) (r : MindResult) (w : world) : res mind_failure MindResult * world :=
  match intentionAwaitingPermission s id exclude (w_env w) with
  | Err text => (Err (PermissionStateFailed text), w)
  | Ok true => (Ok r, w)
  | Ok false =>
      match mr_Plan r with
      | Some p =>
          if pl_RequestFutureCognition p
          then match rescheduleIntention s id p w with
               | (Err e, w1) => (Err e, w1)
               | (Ok _, w1) => (Ok (dirty_result r), w1)
               end
          else (Ok r, completeIntention id w)
      | None => (Ok r, completeIntention id w)
      end
  end.

(** [exclude] is the permission request whose resolution is being handled, if any. *)
Definition EnterWake (s : Scheduler) (exclude : string) (payload : IntentionWakePayload) (w : world)
    : res mind_failure MindResult * world :=
  match sc_mindAPI s with
  | None => (Err NoMindAPI, w)
  | Some _ =>
      let id := wp_IntentionID payload in
      match find_intention id (items (ds_Intentions (w_state w))) with
      | None => (Err (IntentionNotFound id), w)
      | Some i =>
          if negb (same_str (in_State i) IntentionStatePending) then (Err (IntentionNotPending id (in_State i)), w)
          else
            with_run s (cognitionObjective TypeInternalWake) (wake_text payload) (fun w =>
              match Enter s TypeInternalWake (wake_text payload) (set_intention id w) with
              | (Err e, w1) => (Err e, w1)
              | (Ok r, w1) =>
                  match settle_wake s id exclude r w1 with
                  | (Err e, w2) => (Err e, w2)
                  | (Ok r', w2) =>
                      match save s w2 with
                      | (Some text, w3) => (Err (SaveFailed text), w3)
                      | (None, w3) => (Ok r', w3)
                      end
                  end
              end) w
      end
  end.

(** [item] is due when it is pending, waits for no permission and its wake time is not in the future. *)
Fixpoint due_items (s : Scheduler) (now : time) (e : Env) (l : list IntentionItem) : res mind_failure (list IntentionItem) :=
  match l with
  | [] => Ok []
  | i :: rest =>
      if negb (same_str (in_State i) IntentionStatePending) then due_items s now e rest
      else match intentionAwaitingPermission s (in_ID i) "" e with
           | Err text => Err (PermissionStateFailed text)
           | Ok true => due_items s now e rest
           | Ok false =>
               match ParseRFC3339 (in_WakeTime i) with
               | None => Err (MalformedWakeTime (in_ID i) (in_WakeTime i))
               | Some wake =>
                   try due <- due_items s now e rest;
                   Ok (if negb (After wake now) then i :: due else due)
               end
           end
  end.

Definition DueIntentions (s : Scheduler) (w : world) : res mind_failure (list IntentionItem) :=
  match sc_mindAPI s with
  | None => Err NoMindAPI
  | Some _ => due_items s (sc_timeProvider s (w_env w)) (w_env w) (items (ds_Intentions (w_state w)))
  end.

(** Every due intention is woken; the failures are collected. *)
Fixpoint wake_all (s : Scheduler) (due : list IntentionItem) (w : world) : list (string * mind_failure) * world :=
  match due with
  | [] => ([], w)
  | i :: rest =>
      let '(o, w1) := EnterWake s "" {| wp_IntentionID := in_ID i; wp_Subject := in_Subject i;
                                        wp_Description := in_Description i |} w in
      let '(failures, w2) := wake_all s rest w1 in
      (match o with Err e => (in_ID i, e) :: failures | Ok _ => failures end, w2)
  end.

Definition EnterDueIntentions (s : Scheduler) (w : world) : res mind_failure (Z * list (string * mind_failure)) * world :=
  match DueIntentions s w with
  | Err e => (Err e, w)
  | Ok due => let '(failures, w1) := wake_all s due w in (Ok (len due, failures), w1)
  end.

(** *** Other entries *)

Definition RunLevel (s : Scheduler) (level : Level) (input : string) (w : world) : res mind_failure (Level * string) * world :=
  with_run s ("Execute direct " +:+ Level_String level +:+ " cognition.") "" (fun w =>
    match append_working {| cw_Role := RoleUser; cw_Content := input; cw_Provenance := "cognition_run.input";
                            cw_Required := true |} w with
    | (Err e, w1) => (Err e, w1)
    | (Ok _, w1) =>
        match modelForTask s InferenceTaskDirectCognition with
        | Err e => (Err (ModelUnavailable e), w1)
        | Ok selected =>
            match executeCognition s selected PurposeRespond (0, 0)
                    ["Respond to the direct cognition input at level " +:+ Level_String level +:+ "."] w1 with
            | (Err e, w2) => (Err e, w2)
            | (Ok resp, w2) => (Ok (level, rp_Content resp), w2)
            end
        end
    end) w.

(** [evidence] is the text of the wake. *)
Definition EnterPulseWake (s : Scheduler) (evidence : string) (w : world) : res mind_failure unit * world :=
  with_run s "Orient to this spontaneous internal wake and plan only if it matters." evidence (fun w =>
    match Enter s TypePulseSpontaneous evidence w with
    | (Err e, w1) => (Err e, w1)
    | (Ok _, w1) => (Ok tt, w1)
    end) w.

Definition find_pending (id : string) (l : list IntentionItem) : option IntentionItem :=
  List.find (fun i => same_str (in_ID i) id && same_str (in_State i) IntentionStatePending) l.

Definition NotifyPermissionResolution (s : Scheduler) (notificationID : string) (q : Permission.Request)
    (outcome : ContinuationOutcome) (w : world) : option mind_failure * world :=
  match marshal_resolution notificationID q outcome with
  | None => (Some EvidenceFailed, w)
  | Some encoded =>
      let evidence := "Owner permission resolution and action outcome:" +:+ LF +:+ encoded +:+ LF +:+
                      "Reconsider the plan using this authoritative result." in
      let failed {A} (r : res mind_failure A * world) := (match r.1 with Err e => Some e | Ok _ => None end, r.2) in
      match (if empty_str (IntentionID (q_Correlation q)) then None
             else find_pending (IntentionID (q_Correlation q)) (items (ds_Intentions (w_state w)))) with
      | Some i => failed (EnterWake s (q_ID q) {| wp_IntentionID := in_ID i; wp_Subject := in_Subject i;
                                                wp_Description := in_Description i +:+ LF +:+ evidence |} w)
      | None => failed (RunLevel s LevelPlan evidence w)
      end
  end.

(** ** What an entry leaves behind *)

(** [m] started in [w] ends with a result and a state, environment and count of identifiers that satisfy [Q]. *)
Definition has_post {A} (m : world -> res mind_failure A * world) (w : world)
    (Q : res mind_failure A -> DollState Any -> Env -> Z -> Prop) : Prop :=
  Q (m w).1 (w_state (m w).2) (w_env (m w).2) (w_ids (m w).2).

Lemma has_post_weaken {A} (m : world -> res mind_failure A * world) w (Q Q' : _ -> _ -> _ -> _ -> Prop) :
  has_post m w Q -> (forall o st e n, Q o st e n -> Q' o st e n) -> has_post m w Q'.
Proof. intros H HQ. by apply HQ. Qed.

(** Starting a run changes nothing that outlives it. *)
Lemma with_run_post {A} s objective evidence (body : world -> res mind_failure A * world) w Q :
  (forall w1, w_state w1 = w_state w -> w_env w1 = w_env w -> w_ids w <= w_ids w1 -> is_Some (w_run w1) -> has_post body w1 Q) ->
  (forall e n, w_ids w <= n -> Q (Err (RunInvalid e)) (w_state w) (w_env w) n) ->
  has_post (with_run s objective evidence body) w Q.
Proof.
  intros Hb He. unfold has_post, with_run. destruct (w_run w) as [r|] eqn:E; [apply Hb; [done|done|lia|by rewrite E]|].
  destruct (newCognitionRunExecution _ _ _ _) as [run|e]; [|simpl; apply He; simpl; lia].
  specialize (Hb (put_run (next_id w) (Some run)) eq_refl eq_refl ltac:(simpl; lia) ltac:(done)). unfold has_post in Hb.
  destruct (body _) as [o w']. done.
Qed.

Definition same_but_env (w w' : world) : Prop :=
  w_state w' = w_state w /\ w_ids w' = w_ids w /\ (is_Some (w_run w) -> is_Some (w_run w')).

Lemma build_context_keeps base exs instructions st w w0 :
  same_but_env w0 w -> same_but_env w0 (build_context base exs instructions st w).2.
Proof.
  intros H. unfold build_context. destruct (w_run w) as [run|] eqn:E; [|done]. destruct (working_with _ _); [|done].
  destruct (replaceWorking _ _) as [run1|]; [|done].
  assert (H1 : same_but_env w0 (put_run w (Some run1))) by (destruct H as (? & ? & ?); split_and!; done).
  destruct (run_messages _ _ _ _); [|done]. destruct (BindToolContext _ _ _ _ _ _) as [bound [e|]]; done.
Qed.

Lemma env_keeps w0 w e : same_but_env w0 w -> same_but_env w0 (put_env w e).
Proof. done. Qed.

(** The inference loop leaves the Doll's state alone. *)
Lemma executeCognition_keeps s selected purpose temp instructions w :
  same_but_env w (executeCognition s selected purpose temp instructions w).2.
Proof.
  unfold executeCognition. destruct (w_run w) as [run|] eqn:Er; [|done]. set (q := cognition_request _ _ _ _ _ _).
  assert (H : same_but_env w (CognitiveExecution.Execute (fun w => cancelled (w_env w)) (enough q) q w).2).
  { apply (execution_keeps _ (same_but_env w)); [..|done].
    - intros b st w1 [= <-] H1. by apply build_context_keeps.
    - intros p r w1 Hp H1. unfold q, cognition_request in Hp. simpl in Hp. destruct (tm_provider selected) as [p0|]; [|done].
      injection Hp as <-. unfold lift_provider. by destruct (p0 r (w_env w1)).
    - intros x tools call w1 Hx H1. unfold q, cognition_request in Hx. simpl in Hx. destruct (sc_toolExecutor s) as [[x0 a]|]; [|done].
      injection Hx as <-. unfold execute_one, lift_executor. simpl. destruct (ExecuteCorrelatedCall x0) as [f|]; simpl.
      + by destruct (f _ call _ (w_env w1)).
      + by destruct (ExecuteCall x0 call _ (w_env w1)). }
  destruct (CognitiveExecution.Execute _ _ _ _) as [[result|e] w1]; simpl in H; [|done].
  destruct (rs_Exchanges result) as [|x l]; [done|]. destruct (working_with _ _); [|done]. destruct (w_run w1); [|done].
  destruct (replaceWorking _ _); [|done]. destruct H as (? & ? & ?). split_and!; done.
Qed.

Lemma executeCognition_error s selected purpose temp instructions w e w' :
  executeCognition s selected purpose temp instructions w = (Err e, w') -> forall text, e <> SaveFailed text.
Proof.
  unfold executeCognition. intros H text ->. destruct (w_run w); [|done]. destruct (CognitiveExecution.Execute _ _ _ _) as [[result|] w1]; [|done].
  destruct (rs_Exchanges result); [done|]. destruct (working_with _ _); [|done]. destruct (w_run w1); [|done].
  by destruct (replaceWorking _ _).
Qed.

Lemma Orient_post s eventType input w :
  has_post (Orient s eventType input) w
    (fun o st _ n => st = w_state w /\ w_ids w <= n /\ forall text, o <> Err (SaveFailed text)).
Proof.
  unfold Orient. destruct (sc_mindAPI s); [|split_and!; simpl; [done|lia|done]]. apply with_run_post; [|done]. intros w1 Hs _ Hi _.
  unfold has_post. destruct (modelForTask _ _) as [selected|]; [|done].
  destruct (executeCognition_keeps s selected PurposeOrient temperature [orientInstruction orient_task eventType input] w1) as (H1 & H2 & _).
  destruct (executeCognition _ _ _ _ _ _) as [[resp|e] w2] eqn:Ee; simpl in *.
  - destruct (parseOrientation _ _); simpl; (split_and!; [congruence|lia|done]).
  - split_and!; [congruence|lia|]. intros text [= ->]. by eapply executeCognition_error.
Qed.

(** Memories that were added at the end, numbered on from the number of memories. *)
Definition remembers (st st' : DollState Any) (new : list MemoryItem) : Prop :=
  me_Sequence <$> new = seqZ (len (items (ds_Memories st))) (len new) /\
  st' = match new with [] => st | _ => put_memories st (Some (items (ds_Memories st) ++ new)) end.

Lemma experiences_numbered now l : forall ids n, me_Sequence <$> experiences ids n now l = seqZ n (len l).
Proof.
  induction l as [|x l IH]; intros ids n; [done|]. simpl. rewrite IH, (seqZ_cons n) by (unfold len; simpl; lia).
  do 2 f_equal; unfold len; simpl; lia.
Qed.

Lemma length_experiences now l : forall ids n, length (experiences ids n now l) = length l.
Proof. induction l as [|x l IH]; intros ids n; simpl; [done|]. by rewrite IH. Qed.

Lemma materialiseExperience_spec s p w :
  let '(_, w') := materialiseExperience s p w in
  (exists new, remembers (w_state w) (w_state w') new /\ me_Content <$> new = pl_RetainExperience p) /\
  w_env w' = w_env w /\ w_ids w <= w_ids w'.
Proof.
  unfold materialiseExperience. destruct (pl_RetainExperience p) as [|x l].
  { split_and!; [exists []; by split; [split|]|done|lia]. }
  set (now := sc_timeProvider s (w_env w)). set (new := experiences _ _ _ _).
  split_and!; [|done|simpl; unfold len; simpl; lia]. exists new. split; [split|].
  - unfold new. rewrite experiences_numbered. unfold len. by rewrite length_experiences.
  - done.
  - unfold new. generalize (w_ids w) (len (items (ds_Memories (w_state w)))). clear. generalize (x :: l).
    intros k. induction k as [|y k IH]; intros i n; simpl; [done|]. f_equal. apply IH.
Qed.

(** A plan for a later wake that was acceptable at some reading of the clock. *)
Definition future_plan (s : Scheduler) (p : Plan) : Prop :=
  pl_RequestFutureCognition p = true /\ pl_FutureSubject p <> "" /\
  exists wake e, ParseRFC3339 (pl_FutureWakeTime p) = Some wake /\ sc_timeProvider s e < wake.

Lemma validated s p e wake :
  validateFutureCognition s p e = Ok wake -> pl_RequestFutureCognition p = true ->
  future_plan s p /\ ParseRFC3339 (pl_FutureWakeTime p) = Some wake /\ sc_timeProvider s e < wake.
Proof.
  unfold validateFutureCognition. intros H Hr. destruct (empty_str _) eqn:E1; [done|].
  destruct (ParseRFC3339 _) as [t|] eqn:E2; [|done]. destruct (After t _) eqn:E3; [|done]. simpl in H. injection H as <-.
  unfold After in E3. bool_props. apply empty_str_false in E1. split_and!; [split_and!; [done|done|by eexists _, _]|done|lia].
Qed.

Lemma invalid_not_save s p e err : validateFutureCognition s p e = Err err -> forall text, err <> SaveFailed text.
Proof.
  unfold validateFutureCognition. intros H text ->. destruct (empty_str (pl_FutureSubject p)); [done|].
  destruct (ParseRFC3339 (pl_FutureWakeTime p)) as [t|]; [|done]. by destruct (After _ _).
Qed.

(** What an entry does to the state: it may add one intention, of a plan for the future, and then memories. *)
Definition entered (s : Scheduler) (n n' : Z) (st st' : DollState Any) (added : list IntentionItem) : Prop :=
  exists st1 new, remembers st1 st' new /\
    (added = [] /\ st1 = st \/
     exists m p, n <= m < n' /\ future_plan s p /\ added = [intention_of (uuid m) p] /\
       st1 = put_intentions st (Some (items (ds_Intentions st) ++ added))).

Lemma entered_refl s n n' st : entered s n n' st st [].
Proof. exists st, []. split; [done|by left]. Qed.

Lemma entered_intentions s n n' st st' added :
  entered s n n' st st' added -> items (ds_Intentions st') = items (ds_Intentions st) ++ added.
Proof.
  intros (st1 & new & [_ ->] & Hst1). assert (H : items (ds_Intentions st1) = items (ds_Intentions st) ++ added).
  { destruct Hst1 as [[-> ->]|(m & p & _ & _ & -> & ->)]; [by rewrite app_nil_r|done]. }
  by destruct new.
Qed.

Lemma entered_widen s n n' m m' st st' added : n <= m -> m' <= n' -> entered s m m' st st' added -> entered s n n' st st' added.
Proof.
  intros Hn Hn' (st1 & new & Hr & [H|(k & p & Hk & H)]); exists st1, new; (split; [done|]); [by left|right; exists k, p; split; [lia|done]].
Qed.

Lemma materialiseIntention_spec s p w :
  has_post (materialiseIntention s p) w (fun o st _ n => w_ids w <= n /\ exists added,
    entered s (w_ids w) n (w_state w) st added /\ match o with Ok true => added <> [] | Ok false => added = [] | Err (SaveFailed _) => True | Err _ => added = [] end /\
    st = match added with [] => w_state w | _ => put_intentions (w_state w) (Some (items (ds_Intentions (w_state w)) ++ added)) end).
Proof.
  unfold has_post, materialiseIntention. destruct (pl_RequestFutureCognition p) eqn:Er; simpl.
  2: { split; [lia|]. exists []. split; [apply entered_refl|done]. }
  destruct (validateFutureCognition _ _ _) as [wake|e] eqn:Ev; simpl.
  2: { split; [lia|]. exists []. split; [apply entered_refl|]. split; [|done]. by destruct e. }
  destruct (validated _ _ _ _ Ev Er) as [Hf _]. unfold save. set (w1 := next_id _).
  assert (Hw1 : entered s (w_ids w) (w_ids w1) (w_state w) (w_state w1) [intention_of (uuid (w_ids w)) p]).
  { exists (w_state w1), []. split; [done|]. right. exists (w_ids w), p. split_and!; [lia|simpl; lia|done|done|done]. }
  destruct (sc_mindAPI s) as [saving|]; [destruct (saving (w_state w1) (w_env w1)) as [[text|] e']|]; simpl;
    (split; [lia|]); eexists; (split; [exact Hw1|done]).
Qed.

Lemma apply_plan_spec s eventType p w :
  has_post (apply_plan s eventType p) w (fun o st _ n => w_ids w <= n /\ exists added,
    entered s (w_ids w) n (w_state w) st added /\ (eventType = TypeInternalWake -> added = []) /\
    match o with
    | Ok (p', _) => p' = p /\ (eventType <> TypeInternalWake -> added = [] -> pl_RequestFutureCognition p = false)
    | Err (SaveFailed _) => eventType <> TypeInternalWake
    | Err _ => st = w_state w
    end).
Proof.
  unfold has_post, apply_plan. destruct (same_str eventType TypeInternalWake) eqn:Et; simpl.
  - apply same_str_true in Et. destruct (pl_RequestFutureCognition p) eqn:Er.
    + destruct (validateFutureCognition _ _ _) as [wake|e] eqn:Ev; simpl.
      * pose proof (materialiseExperience_spec s p w) as H. destruct (materialiseExperience s p w) as [r w2].
        destruct H as ((new & Hn & _) & _ & Hi). split; [done|]. exists []. split_and!; [|done|by split].
        exists (w_state w), new. split; [done|by left].
      * split; [lia|]. exists []. split_and!; [apply entered_refl|done|].
        pose proof (invalid_not_save _ _ _ _ Ev) as Hn. destruct e; try done. by destruct (Hn text).
    + pose proof (materialiseExperience_spec s p w) as H. destruct (materialiseExperience s p w) as [r w2].
      destruct H as ((new & Hn & _) & _ & Hi). split; [done|]. exists []. split_and!; [|done|by split].
      exists (w_state w), new. split; [done|by left].
  - apply same_str_false in Et. pose proof (materialiseIntention_spec s p w) as H. unfold has_post in H.
    destruct (materialiseIntention s p w) as [[dirty|e] w1] eqn:Em; simpl in H; destruct H as (Hi & added & Ha & Ho & Hst).
    + pose proof (materialiseExperience_spec s p w1) as H2. destruct (materialiseExperience s p w1) as [r w2].
      destruct H2 as ((new & Hn & _) & _ & Hi2). split; [simpl; lia|]. exists added. split_and!.
      * exists (w_state w1), new. split; [done|]. destruct Ha as (st1 & new1 & [_ Hr] & [[-> ->]|(m & q & Hm & Hq & -> & ->)]).
        -- left. by rewrite Hst.
        -- right. exists m, q. rewrite Hst. simpl. split; [lia|done].
      * done.
      * split; [done|]. intros _ ->. destruct dirty; [done|]. unfold materialiseIntention in Em. destruct (pl_RequestFutureCognition p); [|done].
        simpl in Em. destruct (validateFutureCognition _ _ _); [|done]. by destruct (save _ _) as [[?|] ?].
    + split; [simpl; lia|]. exists added. split_and!; [done|done|]. destruct e; try done; by subst added.
Qed.

Lemma append_working_keeps record w : same_but_env w (append_working record w).2.
Proof.
  unfold append_working. destruct (w_run w) as [run|] eqn:E; [|done]. destruct (appendRecord _ _); [|done]. split_and!; done.
Qed.

Definition plan_post (s : Scheduler) (eventType : string) (w : world) (o : res mind_failure (Plan * bool)) (st : DollState Any)
    (n : Z) : Prop :=
  w_ids w <= n /\ exists added,
    entered s (w_ids w) n (w_state w) st added /\ (eventType = TypeInternalWake -> added = []) /\
    match o with
    | Ok (p, _) => eventType <> TypeInternalWake -> added = [] -> pl_RequestFutureCognition p = false
    | Err (SaveFailed _) => eventType <> TypeInternalWake
    | Err _ => st = w_state w
    end.

Lemma plan_failed s eventType w e n :
  w_ids w <= n -> (forall text, e <> SaveFailed text) -> plan_post s eventType w (Err e) (w_state w) n.
Proof.
  intros Hn He. split; [done|]. exists []. split_and!; [apply entered_refl|done|]. destruct e; try done. by destruct (He text).
Qed.

Lemma PlanStep_spec s eventType input o w :
  has_post (PlanStep s eventType input o) w (fun out st _ n => plan_post s eventType w out st n).
Proof.
  unfold PlanStep. destruct (sc_mindAPI s) as [saving|]; [|by apply plan_failed]. destruct o as [o|]; [|by apply plan_failed].
  apply with_run_post; [|intros e n Hn; by apply plan_failed]. intros w1 Hs _ Hi _. unfold has_post.
  destruct (append_working_keeps (plan_record o) w1) as (H1 & H2 & _).
  destruct (append_working (plan_record o) w1) as [[u|e] w2] eqn:Ea; simpl in H1, H2.
  2: { simpl. rewrite H1, Hs. apply plan_failed; [lia|]. unfold append_working in Ea. intros text ->.
       destruct (w_run w1); [|done]. by destruct (appendRecord _ _). }
  destruct (modelForTask _ _) as [selected|e]; [|simpl; rewrite H1, Hs; apply plan_failed; [lia|done]].
  destruct (executeCognition_keeps s selected PurposePlan temperature [planInstruction plan_task eventType input o] w2) as (H3 & H4 & _).
  destruct (executeCognition _ _ _ _ _ w2) as [[resp|e] w3] eqn:Ee; simpl in H3, H4.
  2: { simpl. rewrite H3, H1, Hs. apply plan_failed; [lia|]. by eapply executeCognition_error. }
  destruct (parsePlan _ _) as [p|e]; [|simpl; rewrite H3, H1, Hs; apply plan_failed; [lia|done]].
  pose proof (apply_plan_spec s eventType p w3) as H. unfold has_post in H. destruct (apply_plan s eventType p w3) as [out w4].
  simpl in *. destruct H as (Hn & added & Ha & Hw & Ho). split; [lia|]. exists added.
  assert (Hst : w_state w3 = w_state w) by congruence. rewrite Hst in *. split_and!; [|done|].
  - by apply (entered_widen _ _ _ (w_ids w3) (w_ids w4)); [lia|lia|].
  - destruct out as [[p' d]|e]; [|done]. by destruct Ho as [-> ?].
Qed.

Definition enter_post (s : Scheduler) (eventType : string) (w : world) (o : res mind_failure MindResult) (st : DollState Any)
    (n : Z) : Prop :=
  w_ids w <= n /\ exists added,
    entered s (w_ids w) n (w_state w) st added /\ (eventType = TypeInternalWake -> added = []) /\
    match o with
    | Ok r => eventType <> TypeInternalWake -> added = [] -> forall p, mr_Plan r = Some p -> pl_RequestFutureCognition p = false
    | Err (SaveFailed _) => eventType <> TypeInternalWake
    | Err (DispatchFailure _) => True
    | Err _ => st = w_state w
    end.

Lemma enter_quiet s eventType w o n :
  w_ids w <= n -> match o with Ok r => mr_Plan r = None | Err (SaveFailed _) => False | Err _ => True end ->
  enter_post s eventType w o (w_state w) n.
Proof.
  intros Hn Ho. split; [done|]. exists []. split_and!; [apply entered_refl|done|]. destruct o as [r|e]; [by rewrite Ho|by destruct e].
Qed.

Lemma Enter_spec s eventType input w :
  has_post (Enter s eventType input) w (fun o st _ n => enter_post s eventType w o st n).
Proof.
  unfold Enter. destruct (L0Reflex eventType); [by apply enter_quiet|].
  apply with_run_post; [|intros e n Hn; by apply enter_quiet]. intros w1 Hs _ Hi _. unfold has_post.
  pose proof (Orient_post s eventType input w1) as Ho. unfold has_post in Ho.
  destruct (Orient s eventType input w1) as [[o|e] w2] eqn:Eo; simpl in Ho; destruct Ho as (H1 & H2 & Hne).
  2: { simpl. rewrite H1, Hs. apply enter_quiet; [lia|]. destruct e; try done. by destruct (Hne text). }
  destruct (or_Matters o); simpl; [|rewrite H1, Hs; apply enter_quiet; [lia|done]].
  pose proof (PlanStep_spec s eventType input (Some o) w2) as Hp. unfold has_post in Hp.
  destruct (PlanStep s eventType input (Some o) w2) as [out w3]. simpl in Hp. destruct Hp as (Hn & added & Ha & Hw & Ho).
  assert (Hst : w_state w2 = w_state w) by congruence. rewrite Hst in *. apply (entered_widen _ (w_ids w) (w_ids w3)) in Ha; [|lia|lia].
  destruct out as [[p dirty]|e]; simpl.
  2: { split; [lia|]. exists added. split_and!; [done|done|by destruct e]. }
  unfold dispatch. destruct (pl_OutboundAction p), (sc_dispatcher s) as [send|]; [destruct (send _ _) as [[text|] e']|..]; simpl;
    (split; [lia|]); exists added; (split_and!; [done|done|]); try done; intros Hty He q [= <-]; by apply Ho.
Qed.

(** ** Waking an intention *)

Lemma update_ids id f l : (forall i, in_ID (f i) = in_ID i) -> in_ID <$> update_intention id f l = in_ID <$> l.
Proof. intros Hf. induction l as [|i l IH]; simpl; [done|]. destruct (same_str _ _); rewrite !fmap_cons; [by rewrite Hf|by rewrite IH]. Qed.

Lemma update_items id f st :
  items (ds_Intentions (put_intentions st (update_intention id f <$> ds_Intentions st))) =
  update_intention id f (items (ds_Intentions (Any := Any) st)).
Proof. simpl. by destruct (ds_Intentions st). Qed.

Lemma find_intention_Some id l i : find_intention id l = Some i -> in_ID i = id /\ i ∈ l.
Proof.
  unfold find_intention. intros H. apply find_some in H as [Hin Hs]. apply same_str_true in Hs. by rewrite list_elem_of_In.
Qed.

Lemma update_found id f l i : find_intention id l = Some i -> update_intention id (fun _ => f i) l = update_intention id f l.
Proof.
  unfold find_intention. induction l as [|j l IH]; simpl; [done|]. destruct (same_str (in_ID j) id); [by intros [= ->]|].
  intros H. by rewrite IH.
Qed.

Lemma update_same id l i : find_intention id l = Some i -> update_intention id (fun _ => i) l = l.
Proof.
  unfold find_intention. induction l as [|j l IH]; simpl; [done|]. destruct (same_str (in_ID j) id); [by intros [= ->]|].
  intros H. by rewrite IH.
Qed.

(** The cognition of a wake by itself, in the run that the wake has. *)
Definition wake_cognition (s : Scheduler) (payload : IntentionWakePayload) (w : world) : res mind_failure MindResult * world :=
  with_run s (cognitionObjective TypeInternalWake) (wake_text payload)
    (fun w => Enter s TypeInternalWake (wake_text payload) (set_intention (wp_IntentionID payload) w)) w.

(** Saving is all that may still fail. *)
Definition saved_or (f : option mind_failure) : Prop := f = None \/ exists text, f = Some (SaveFailed text).

Definition failure_of {A} (o : res mind_failure A) : option mind_failure := match o with Ok _ => None | Err e => Some e end.

(** What a wake reports and makes of its intention, given the result of its cognition and the environment after it. *)
Inductive wake_outcome (s : Scheduler) (exclude : string) (i : IntentionItem) (c : res mind_failure MindResult) (e : Env)
    : option mind_failure -> IntentionItem -> Prop :=
| wo_failed err : c = Err err -> wake_outcome s exclude i c e (Some err) i
| wo_unknown r text : c = Ok r -> intentionAwaitingPermission s (in_ID i) exclude e = Err text ->
    wake_outcome s exclude i c e (Some (PermissionStateFailed text)) i
| wo_waiting r f : c = Ok r -> intentionAwaitingPermission s (in_ID i) exclude e = Ok true -> saved_or f -> wake_outcome s exclude i c e f i
| wo_refused r p err : c = Ok r -> intentionAwaitingPermission s (in_ID i) exclude e = Ok false -> mr_Plan r = Some p ->
    pl_RequestFutureCognition p = true -> validateFutureCognition s p e = Err err -> wake_outcome s exclude i c e (Some err) i
| wo_rescheduled r p wake f : c = Ok r -> intentionAwaitingPermission s (in_ID i) exclude e = Ok false -> mr_Plan r = Some p ->
    pl_RequestFutureCognition p = true -> pl_FutureSubject p <> "" -> ParseRFC3339 (pl_FutureWakeTime p) = Some wake ->
    sc_timeProvider s e < wake -> saved_or f -> wake_outcome s exclude i c e f (rescheduled p i)
| wo_completed r f : c = Ok r -> intentionAwaitingPermission s (in_ID i) exclude e = Ok false ->
    (forall p, mr_Plan r = Some p -> pl_RequestFutureCognition p = false) -> saved_or f -> wake_outcome s exclude i c e f (completed i).

Lemma outcome_id s exclude i c e f i' : wake_outcome s exclude i c e f i' -> in_ID i' = in_ID i.
Proof. by intros []. Qed.

(** Settling an intention after its cognition, before the state is saved. *)
Lemma settle_wake_spec s id exclude r w i :
  find_intention id (items (ds_Intentions (w_state w))) = Some i ->
  exists i', (settle_wake s id exclude r w).2 = put_state w (put_intentions (w_state w) (update_intention id (fun _ => i') <$> ds_Intentions (w_state w))) /\
    match (settle_wake s id exclude r w).1 with
    | Ok _ => forall f, saved_or f -> wake_outcome s exclude i (Ok r) (w_env w) f i'
    | Err e => wake_outcome s exclude i (Ok r) (w_env w) (Some e) i'
    end.
Proof.
  intros Hf. destruct (find_intention_Some _ _ _ Hf) as [Hid _].
  assert (Hsame : w = put_state w (put_intentions (w_state w) (update_intention id (fun _ => i) <$> ds_Intentions (w_state w)))).
  { destruct w as [st run e n]. unfold put_state. simpl in *. f_equal.
    destruct st as [? ? ? ? ? ? ? ? ? [l|] ? ? ?]; simpl in *; [|done]. unfold put_intentions. simpl. do 2 f_equal. symmetry.
    by apply update_same. }
  assert (Hch : forall f, change_intention w id f =
    put_state w (put_intentions (w_state w) (update_intention id (fun _ => f i) <$> ds_Intentions (w_state w)))).
  { intros f. unfold change_intention. do 2 f_equal. destruct (ds_Intentions (w_state w)) as [l|] eqn:El; [|done]. simpl. f_equal.
    symmetry. apply update_found. done. }
  unfold settle_wake. destruct (intentionAwaitingPermission s id exclude (w_env w)) as [[|]|text] eqn:Ew; rewrite <- Hid in Ew.
  - exists i. split; [done|]. intros f Hs. by eapply wo_waiting.
  - destruct (mr_Plan r) as [p|] eqn:Ep; [destruct (pl_RequestFutureCognition p) eqn:Er|].
    + unfold rescheduleIntention. destruct (validateFutureCognition s p (w_env w)) as [wake|e] eqn:Ev.
      * rewrite Hf. destruct (validated _ _ _ _ Ev Er) as ((_ & Hsub & _) & Hp & Ht). eexists. split; [apply Hch|]. intros f Hs.
        by eapply wo_rescheduled.
      * exists i. split; [done|]. simpl. by eapply wo_refused.
    + eexists. split; [apply Hch|]. intros f Hs. eapply wo_completed; try done. rewrite Ep. by intros q [= <-].
    + eexists. split; [apply Hch|]. intros f Hs. eapply wo_completed; try done. by rewrite Ep.
  - exists i. split; [done|]. simpl. by eapply wo_unknown.
Qed.

Lemma remembers_intentions st st' new : remembers st st' new -> ds_Intentions st' = ds_Intentions st.
Proof. intros [_ ->]. by destruct new. Qed.

(** The state after a wake: one intention replaced, memories added. *)
Definition woken (st st' : DollState Any) (id : string) (i' : IntentionItem) : Prop :=
  exists st1 new, remembers st st1 new /\ st' = put_intentions st1 (update_intention id (fun _ => i') <$> ds_Intentions st1).

Lemma woken_intentions st st' id i' :
  woken st st' id i' -> items (ds_Intentions st') = update_intention id (fun _ => i') (items (ds_Intentions st)).
Proof. intros (st1 & new & Hr & ->). rewrite update_items. by rewrite (remembers_intentions _ _ _ Hr). Qed.

Lemma woken_same st st1 new id i :
  remembers st st1 new -> find_intention id (items (ds_Intentions st)) = Some i -> woken st st1 id i.
Proof.
  intros Hr Hf. exists st1, new. split; [done|]. rewrite <- (remembers_intentions _ _ _ Hr) in Hf.
  destruct st1 as [? ? ? ? ? ? ? ? ? [l|] ? ? ?]; simpl in *; [|done]. unfold put_intentions. simpl. do 2 f_equal. symmetry.
  by apply update_same.
Qed.

(** A wake inside its run. *)
Lemma wake_body_spec s exclude payload w i saving :
  sc_mindAPI s = Some saving -> find_intention (wp_IntentionID payload) (items (ds_Intentions (w_state w))) = Some i ->
  let c := Enter s TypeInternalWake (wake_text payload) (set_intention (wp_IntentionID payload) w) in
  let '(o, w') := match c with
                  | (Err e, w1) => (Err e, w1)
                  | (Ok r, w1) =>
                      match settle_wake s (wp_IntentionID payload) exclude r w1 with
                      | (Err e, w2) => (Err e, w2)
                      | (Ok r', w2) => match save s w2 with (Some text, w3) => (Err (SaveFailed text), w3) | (None, w3) => (Ok r', w3) end
                      end
                  end in
  w_ids w <= w_ids w' /\ exists i', woken (w_state w) (w_state w') (wp_IntentionID payload) i' /\
    wake_outcome s exclude i c.1 (w_env c.2) (failure_of o) i'.
Proof.
  intros Hm Hf c. subst c. set (w2 := set_intention _ w). pose proof (Enter_spec s TypeInternalWake (wake_text payload) w2) as He. unfold has_post in He.
  destruct (Enter s TypeInternalWake (wake_text payload) w2) as [o w3]. simpl in He. destruct He as (Hn & added & Ha & Hadd & Ho).
  change (w_state w2) with (w_state w) in *. change (w_ids w2) with (w_ids w) in Hn.
  destruct Ha as (st1 & new & Hr & [[_ ->]|(m & p & _ & _ & Hc & _)]); [|by rewrite Hadd in Hc]. clear Hadd.
  destruct o as [r|e]; simpl; [|split; [done|]; exists i; split; [by eapply woken_same|by apply wo_failed]].
  assert (Hf3 : find_intention (wp_IntentionID payload) (items (ds_Intentions (w_state w3))) = Some i) by (by rewrite (remembers_intentions _ _ _ Hr)).
  destruct (settle_wake_spec s _ exclude r w3 i Hf3) as (i' & Hw & Hi'). destruct (settle_wake s _ exclude r w3) as [[r'|e] w4]; simpl in Hw, Hi'; subst w4.
  2: { split; [done|]. exists i'. split; [by exists (w_state w3), new|done]. }
  unfold save. rewrite Hm. destruct (saving _ _) as [[text|] e']; simpl; (split; [done|]); exists i'; (split; [by exists (w_state w3), new|]);
    apply Hi'; [right; eauto|by left].
Qed.

Lemma EnterWake_spec s exclude payload w i saving :
  sc_mindAPI s = Some saving -> find_intention (wp_IntentionID payload) (items (ds_Intentions (w_state w))) = Some i ->
  in_State i = IntentionStatePending ->
  let '(o, w') := EnterWake s exclude payload w in let c := wake_cognition s payload w in
  w_ids w <= w_ids w' /\ exists i', woken (w_state w) (w_state w') (wp_IntentionID payload) i' /\
    wake_outcome s exclude i c.1 (w_env c.2) (failure_of o) i'.
Proof.
  intros Hm Hf Hp. unfold EnterWake, wake_cognition. rewrite Hm, Hf, Hp, (proj2 (same_str_true _ _) eq_refl). cbn [negb]. unfold with_run.
  destruct (w_run w) as [run|]; [by apply (wake_body_spec s exclude payload w i saving Hm Hf)|].
  destruct (newCognitionRunExecution _ _ _ _) as [run|e].
  2: { simpl. split; [lia|]. exists i. split; [|by apply wo_failed]. by apply (woken_same _ _ []). }
  pose proof (wake_body_spec s exclude payload (put_run (next_id w) (Some run)) i saving Hm Hf) as H. cbv zeta in H.
  destruct (Enter _ _ _ _) as [c w1]. destruct c as [r|e]; [|simpl in *; destruct H as [Hn H]; split; [lia|exact H]].
  destruct (settle_wake _ _ _ _ _) as [[r'|e] w2]; [|simpl in *; destruct H as [Hn H]; split; [lia|exact H]].
  destruct (save s w2) as [[text|] w3]; simpl in *; destruct H as [Hn H]; (split; [lia|exact H]).
Qed.

(** A wake settles its intention.  Waking a pending intention reports and does what the result of its cognition calls
    for, see [wake_outcome].  Every other intention is untouched, none is added or lost, and of the rest of the state only
    memories are added.  An intention that is unknown or not pending is refused, and nothing changes. *)
Theorem wake_settles_intention s exclude payload w :
  let id := wp_IntentionID payload in
  let before := items (ds_Intentions (w_state w)) in
  let '(o, w') := EnterWake s exclude payload w in
  let after := items (ds_Intentions (w_state w')) in
  in_ID <$> after = in_ID <$> before /\
  (forall i, i ∈ before -> in_ID i <> id -> i ∈ after) /\
  ((w' = w /\ exists e, o = Err e) \/
   exists i i', find_intention id before = Some i /\ in_State i = IntentionStatePending /\
     woken (w_state w) (w_state w') id i' /\
     wake_outcome s exclude i (wake_cognition s payload w).1 (w_env (wake_cognition s payload w).2) (failure_of o) i').
Proof.
  intros id before. destruct (EnterWake s exclude payload w) as [o w'] eqn:E. cbv zeta.
  assert (Hno : w' = w -> in_ID <$> items (ds_Intentions (w_state w')) = in_ID <$> before /\
    forall i, i ∈ before -> in_ID i <> id -> i ∈ items (ds_Intentions (w_state w'))) by (by intros ->).
  pose proof E as E0. unfold EnterWake in E. destruct (sc_mindAPI s) as [saving|] eqn:Em; [|injection E as <- <-; destruct (Hno eq_refl) as [H1 H2]; split_and!; [done|done|left; eauto]].
  destruct (find_intention _ _) as [i|] eqn:Ef; [|injection E as <- <-; destruct (Hno eq_refl) as [H1 H2]; split_and!; [done|done|left; eauto]].
  destruct (same_str (in_State i) IntentionStatePending) eqn:Ep; [|injection E as <- <-; destruct (Hno eq_refl) as [H1 H2]; split_and!; [done|done|left; eauto]].
  apply same_str_true in Ep. pose proof (EnterWake_spec s exclude payload w i saving Em Ef Ep) as H. rewrite E0 in H. destruct H as (_ & i' & Hw & Ho).
  destruct (find_intention_Some _ _ _ Ef) as [Hid _]. pose proof (outcome_id _ _ _ _ _ _ _ Ho) as Hii.
  rewrite (woken_intentions _ _ _ _ Hw). fold id before in Hw |- *. split_and!.
  - clear -Hii Hid. unfold id. induction before as [|j l IH]; [done|]. simpl. destruct (same_str (in_ID j) _) eqn:Es; rewrite !fmap_cons; [|by rewrite IH].
    apply same_str_true in Es. f_equal. by rewrite Hii, Hid, Es.
  - clear -Hid. intros j Hj Hne. induction before as [|k l IH]; [done|]. simpl. destruct (same_str (in_ID k) id) eqn:Es.
    + apply same_str_true in Es. apply elem_of_cons in Hj as [->|Hj]; [done|]. by right.
    + apply elem_of_cons in Hj as [->|Hj]; [by left|]. right. by apply IH.
  - right. by exists i, i'.
Qed.

(** ** Due intentions *)

Definition pending (i : IntentionItem) : bool := same_str (in_State i) IntentionStatePending.

(** Recognising an intention does not fail: its permission state is known and, unless it waits, its wake time can be read. *)
Definition readable (s : Scheduler) (e : Env) (i : IntentionItem) : Prop :=
  intentionAwaitingPermission s (in_ID i) "" e = Ok true \/
  (intentionAwaitingPermission s (in_ID i) "" e = Ok false /\ is_Some (ParseRFC3339 (in_WakeTime i))).

Definition is_due (s : Scheduler) (now : time) (e : Env) (i : IntentionItem) : bool :=
  pending i && match intentionAwaitingPermission s (in_ID i) "" e, ParseRFC3339 (in_WakeTime i) with
               | Ok false, Some wake => wake <=? now
               | _, _ => false
               end.

Lemma filter_bool {A} (f : A -> bool) x l :
  filter (fun y => f y = true) (x :: l) = if f x then x :: filter (fun y => f y = true) l else filter (fun y => f y = true) l.
Proof. rewrite filter_cons. destruct (decide (f x = true)) as [->|Hn]; [done|]. by destruct (f x). Qed.

Lemma NoDup_fmap_filter {A B} (g : A -> B) (f : A -> bool) l : NoDup (g <$> l) -> NoDup (g <$> filter (fun y => f y = true) l).
Proof.
  induction l as [|x l IH]; [done|]. rewrite fmap_cons, filter_bool. intros [Hx Hnd]%NoDup_cons. specialize (IH Hnd).
  destruct (f x); [|done]. rewrite fmap_cons. constructor; [|done]. intros (y & Hy & Hin)%list_elem_of_fmap. apply Hx.
  rewrite Hy. apply list_elem_of_filter in Hin as [_ Hin]. by apply list_elem_of_fmap_2.
Qed.

Lemma due_items_spec s now e l :
  match due_items s now e l with
  | Ok due => due = filter (fun i => is_due s now e i = true) l /\ Forall (fun i => pending i = true -> readable s e i) l
  | Err _ => exists i, i ∈ l /\ pending i = true /\ ~ readable s e i
  end.
Proof.
  induction l as [|i l IH]; simpl; [done|]. rewrite (filter_bool (is_due s now e)). unfold is_due at 1. fold (pending i).
  destruct (pending i) eqn:Ep; simpl.
  2: { destruct (due_items s now e l) as [due|]; [|destruct IH as (j & ? & ?); exists j; split; [by right|done]].
       destruct IH as [-> Hf]. split; [done|]. constructor; [by rewrite Ep|done]. }
  unfold readable. destruct (intentionAwaitingPermission s (in_ID i) "" e) as [[|]|text] eqn:Ew.
  - destruct (due_items s now e l) as [due|]; [|destruct IH as (j & ? & ?); exists j; split; [by right|done]].
    destruct IH as [-> Hf]. split; [done|]. constructor; [rewrite Ew; by left|done].
  - destruct (ParseRFC3339 (in_WakeTime i)) as [wake|] eqn:Epa.
    + destruct (due_items s now e l) as [due|]; simpl; [|destruct IH as (j & ? & ?); exists j; split; [by right|done]].
      destruct IH as [-> Hf]. split; [|constructor; [right; by rewrite Epa|done]].
      unfold After. destruct (now <? wake) eqn:El, (wake <=? now) eqn:El2; bool_props; try lia; done.
    + exists i. split_and!; [by left|done|]. intros [H|[_ [t H]]]; congruence.
  - exists i. split_and!; [by left|done|]. intros [H|[H _]]; congruence.
Qed.

Lemma in_update id i' l i : find_intention id l = Some i -> i' ∈ update_intention id (fun _ => i') l.
Proof.
  unfold find_intention. induction l as [|j l IH]; simpl; [done|]. destruct (same_str _ _); [by left|]. intros H. right. by apply IH.
Qed.

Lemma others_in_update id f l j : j ∈ l -> in_ID j <> id -> j ∈ update_intention id f l.
Proof.
  intros Hj Hne. induction l as [|k l IH]; [done|]. simpl. destruct (same_str (in_ID k) id) eqn:Es.
  - apply same_str_true in Es. apply elem_of_cons in Hj as [->|Hj]; [done|]. by right.
  - apply elem_of_cons in Hj as [->|Hj]; [by left|]. right. by apply IH.
Qed.

Lemma update_const_ids id i' l : in_ID i' = id -> in_ID <$> update_intention id (fun _ => i') l = in_ID <$> l.
Proof.
  intros <-. induction l as [|j l IH]; [done|]. simpl. destruct (same_str (in_ID j) (in_ID i')) eqn:Es; rewrite !fmap_cons; [|by rewrite IH].
  apply same_str_true in Es. by rewrite Es.
Qed.

Lemma find_unique l i : NoDup (in_ID <$> l) -> i ∈ l -> find_intention (in_ID i) l = Some i.
Proof.
  unfold find_intention. induction l as [|j l IH]; [set_solver|]. rewrite fmap_cons. intros [Hj Hnd]%NoDup_cons Hi. simpl.
  destruct (same_str (in_ID j) (in_ID i)) eqn:Es.
  - apply same_str_true in Es. apply elem_of_cons in Hi as [->|Hi]; [done|]. destruct Hj. rewrite Es. by apply list_elem_of_fmap_2.
  - apply same_str_false in Es. apply elem_of_cons in Hi as [->|Hi]; [done|]. by apply IH.
Qed.

Definition wake_payload (i : IntentionItem) : IntentionWakePayload :=
  {| wp_IntentionID := in_ID i; wp_Subject := in_Subject i; wp_Description := in_Description i |}.

(** The failures that a round reports, in order. *)
Definition reported {A} (due : list IntentionItem) (os : list (res mind_failure A)) : list (string * mind_failure) :=
  omap (fun '(i, o) => match o with Err e => Some (in_ID i, e) | Ok _ => None end) (zip due os).

(** One wake of a round: in the world [w], where its intention is still as it was, it ends with [o] in [w']; in the end
    the intention is what the result of this cognition calls for. *)
Definition wake_turn (s : Scheduler) (after : list IntentionItem) (i : IntentionItem) (w : world) (o : res mind_failure MindResult) (w' : world) : Prop :=
  find_intention (in_ID i) (items (ds_Intentions (w_state w))) = Some i /\ EnterWake s "" (wake_payload i) w = (o, w') /\
  exists i', i' ∈ after /\
    wake_outcome s "" i (wake_cognition s (wake_payload i) w).1 (w_env (wake_cognition s (wake_payload i) w).2) (failure_of o) i'.

Lemma wake_all_spec s saving due : forall w,
  sc_mindAPI s = Some saving -> NoDup (in_ID <$> items (ds_Intentions (w_state w))) -> NoDup (in_ID <$> due) ->
  Forall (fun i => i ∈ items (ds_Intentions (w_state w)) /\ pending i = true) due ->
  let '(failures, w') := wake_all s due w in let after := items (ds_Intentions (w_state w')) in
  in_ID <$> after = in_ID <$> items (ds_Intentions (w_state w)) /\
  (forall i, i ∈ items (ds_Intentions (w_state w)) -> in_ID i ∉ in_ID <$> due -> i ∈ after) /\
  exists (ws : list world) os, length os = length due /\ failures = reported due os /\ ws !! 0%nat = Some w /\ ws !! length due = Some w' /\
    forall k i, due !! k = Some i -> exists wk o wk1, ws !! k = Some wk /\ os !! k = Some o /\ ws !! S k = Some wk1 /\ wake_turn s after i wk o wk1.
Proof.
  induction due as [|i due IH]; intros w Hm Hnd Hdue Hin; simpl; [split_and!; [done|done|by exists [w], []]|].
  rewrite fmap_cons in Hdue. apply NoDup_cons in Hdue as [Hni Hdue]. apply Forall_cons in Hin as [[Hi Hp] Hin].
  fold (wake_payload i). pose proof (find_unique _ _ Hnd Hi) as Hf.
  pose proof (EnterWake_spec s "" (wake_payload i) w i saving Hm Hf (proj1 (same_str_true _ _) Hp)) as H.
  destruct (EnterWake s "" (wake_payload i) w) as [o w1] eqn:Ew. destruct H as (_ & i1 & Hw & Ho).
  apply woken_intentions in Hw. simpl in Hw. pose proof (outcome_id _ _ _ _ _ _ _ Ho) as Hi1.
  specialize (IH w1 Hm). rewrite Hw, update_const_ids in IH by done. specialize (IH Hnd Hdue).
  assert (Hin1 : Forall (fun j => j ∈ update_intention (in_ID i) (fun _ => i1) (items (ds_Intentions (w_state w))) /\ pending j = true) due).
  { rewrite Forall_forall in Hin |- *. intros j Hj. destruct (Hin j Hj) as [Hj1 Hj2]. split; [|done]. apply others_in_update; [done|].
    intros Heq. apply Hni. rewrite <- Heq. by apply list_elem_of_fmap_2. }
  specialize (IH Hin1). destruct (wake_all s due w1) as [failures w2]. destruct IH as (H1 & H2 & ws & os & Hl & Hfl & Hw0 & Hwn & H3). split_and!; [done|..].
  - intros j Hj Hne. apply not_elem_of_cons in Hne as [Hne Hnj]. apply H2; [|done]. by apply others_in_update.
  - exists (w :: ws), (o :: os). split_and!; [by simpl; rewrite Hl|unfold reported; simpl; rewrite Hfl; by destruct o|done|done|].
    intros [|k] j Hj; simpl in Hj |- *; [|by apply H3]. injection Hj as <-. exists w, o, w1. split_and!; [done|done|done|].
    split_and!; [done|done|]. exists i1. split; [|done]. apply H2; [by eapply in_update|by rewrite Hi1].
Qed.

(** C10: a round of due intentions, in a state whose intentions have distinct identifiers.  Recognition finds exactly the
    pending intentions whose wake time has come and that wait for no permission; it fails, and does nothing, only when the
    permission state or the wake time of a pending intention cannot be read.  Then the due intentions are woken one after
    the other, each exactly once and as it was found, whatever happens to the others, and the report lists exactly the
    wakes that failed.  In the end each is what the result of its own cognition calls for: unchanged when the cognition
    or the lookup of its permissions failed or its plan was refused; unchanged when it waits for a permission; set to the
    plan's wake time, later than the clock, when the plan asks for one; and completed when it does not.  No intention is
    lost or added, and those that were not due are untouched. *)
Theorem due_round s saving w :
  sc_mindAPI s = Some saving ->
  NoDup (in_ID <$> items (ds_Intentions (w_state w))) ->
  let before := items (ds_Intentions (w_state w)) in
  let due := filter (fun i => is_due s (sc_timeProvider s (w_env w)) (w_env w) i = true) before in
  match EnterDueIntentions s w with
  | (Ok (n, failures), w') =>
      let after := items (ds_Intentions (w_state w')) in
      n = len due /\ in_ID <$> after = in_ID <$> before /\
      (forall i, i ∈ before -> i ∉ due -> i ∈ after) /\
      exists (ws : list world) os, length os = length due /\ failures = reported due os /\ ws !! 0%nat = Some w /\ ws !! length due = Some w' /\
        forall k i, due !! k = Some i -> exists wk o wk1, ws !! k = Some wk /\ os !! k = Some o /\ ws !! S k = Some wk1 /\ wake_turn s after i wk o wk1
  | (Err _, w') => w' = w /\ exists i, i ∈ before /\ pending i = true /\ ~ readable s (w_env w) i
  end.
Proof.
  intros Hm Hnd before due. unfold EnterDueIntentions, DueIntentions. rewrite Hm.
  pose proof (due_items_spec s (sc_timeProvider s (w_env w)) (w_env w) before) as Hd. fold before.
  destruct (due_items _ _ _ before) as [l|e]; [|done]. destruct Hd as [-> _]. fold due.
  assert (Hin : Forall (fun i => i ∈ before /\ pending i = true) due).
  { apply Forall_forall. intros i Hi. apply list_elem_of_filter in Hi as [Hd Hi]. split; [done|]. unfold is_due in Hd. by apply andb_prop in Hd as [? _]. }
  pose proof (wake_all_spec s saving due w Hm Hnd (NoDup_fmap_filter in_ID _ _ Hnd) Hin) as H.
  destruct (wake_all s due w) as [failures w']. cbv zeta in H. destruct H as (H1 & H2 & H3). split_and!; [done|done| |done].
  intros i Hi Hn. apply H2; [done|]. intros (j & Hj & Hdj)%list_elem_of_fmap. apply Hn.
  assert (i = j) as ->; [|done]. rewrite Forall_forall in Hin. destruct (Hin j Hdj) as [Hjb _].
  pose proof (find_unique _ _ Hnd Hi) as F1. pose proof (find_unique _ _ Hnd Hjb) as F2. rewrite Hj in F1. congruence.
Qed.

(** ** The state stays well formed *)

(** Intentions have distinct identifiers, none of them one still to be generated; a pending intention has a wake time that
    can be read; memories are numbered from 0 without gaps. *)
Record state_ok (n : Z) (st : DollState Any) : Prop := {
  ok_ids : NoDup (in_ID <$> items (ds_Intentions st));
  ok_fresh : forall m, n <= m -> uuid m ∉ in_ID <$> items (ds_Intentions st);
  ok_times : forall i, i ∈ items (ds_Intentions st) -> pending i = true -> is_Some (ParseRFC3339 (in_WakeTime i));
  ok_memories : me_Sequence <$> items (ds_Memories st) = seqZ 0 (len (items (ds_Memories st)));
}.

Lemma state_ok_later n m st : n <= m -> state_ok n st -> state_ok m st.
Proof. intros Hn [H1 H2 H3 H4]. split; [done| |done|done]. intros k Hk. apply H2. lia. Qed.

Lemma remembers_ok n st st' new : state_ok n st -> remembers st st' new -> state_ok n st'.
Proof.
  intros [H1 H2 H3 H4] [Hs ->]. destruct new as [|m new]; [done|]. split; [done|done|done|].
  change (items (ds_Memories (put_memories st (Some (items (ds_Memories st) ++ m :: new))))) with (items (ds_Memories st) ++ m :: new).
  rewrite fmap_app, H4, Hs. unfold len. rewrite length_app, Nat2Z.inj_add, seqZ_app by lia. by rewrite Z.add_0_l.
Qed.

Lemma entered_ok s n n' st st' added :
  (forall a b, uuid a = uuid b -> a = b) -> state_ok n st -> n <= n' -> entered s n n' st st' added -> state_ok n' st'.
Proof.
  intros Hinj Hok Hn (st1 & new & Hr & Hst1). apply (remembers_ok _ st1 st' new); [|done].
  destruct Hst1 as [[_ ->]|(m & p & Hm & (Hq & Hsub & wake & e & Hp & _) & -> & ->)]; [by apply (state_ok_later n)|].
  destruct Hok as [H1 H2 H3 H4]. split; simpl.
  - rewrite fmap_app. apply NoDup_app. split_and!; [done| |apply NoDup_singleton]. intros x Hx [->|Hc]%elem_of_cons; [|set_solver].
    by apply (H2 m); [lia|].
  - intros k Hk. rewrite fmap_app. intros [Hx|Hx]%elem_of_app; [by apply (H2 k); [lia|]|].
    apply list_elem_of_singleton in Hx. apply Hinj in Hx. lia.
  - intros i [Hi|Hi]%elem_of_app Hpe; [by apply H3|]. apply list_elem_of_singleton in Hi as ->. simpl. by rewrite Hp.
  - done.
Qed.

Lemma update_elem id i' l j : j ∈ update_intention id (fun _ => i') l -> j ∈ l \/ j = i'.
Proof.
  induction l as [|k l IH]; simpl; [by left|]. destruct (same_str _ _).
  - intros [->|Hj]%elem_of_cons; [by right|left; by right].
  - intros [->|Hj]%elem_of_cons; [left; by left|]. destruct (IH Hj); [left; by right|by right].
Qed.

Lemma woken_ok s exclude n st st' i i' :
  state_ok n st -> i ∈ items (ds_Intentions st) -> woken st st' (in_ID i) i' -> (exists c e f, wake_outcome s exclude i c e f i') ->
  state_ok n st'.
Proof.
  intros Hok Hi Hw Hs. pose proof (woken_intentions _ _ _ _ Hw) as Hl. destruct Hw as (st1 & new & Hr & ->).
  destruct Hs as (c & e & f & Hs). pose proof (outcome_id _ _ _ _ _ _ _ Hs) as Hid.
  pose proof (remembers_ok _ _ _ _ Hok Hr) as [_ _ _ Hmem]. destruct Hok as [H1 H2 H3 H4].
  split; rewrite ?Hl, ?update_const_ids by done; [done|done| |done].
  intros j Hj Hp. apply update_elem in Hj as [Hj| ->]; [by apply H3|].
  destruct Hs as [| | | |r p wake f _ _ _ _ _ Hpa _ _|]; simpl in *; try (by apply H3); by rewrite Hpa.
Qed.

Lemma EnterWake_ok s exclude payload w :
  state_ok (w_ids w) (w_state w) -> has_post (EnterWake s exclude payload) w (fun _ st _ n => w_ids w <= n /\ state_ok n st).
Proof.
  intros Hok. assert (Hsame : w_ids w <= w_ids w /\ state_ok (w_ids w) (w_state w)) by (split; [lia|done]).
  destruct (sc_mindAPI s) as [saving|] eqn:Em; [|unfold has_post, EnterWake; by rewrite Em].
  destruct (find_intention (wp_IntentionID payload) (items (ds_Intentions (w_state w)))) as [i|] eqn:Ef;
    [|unfold has_post, EnterWake; by rewrite Em, Ef].
  destruct (pending i) eqn:Ep; [|unfold has_post, EnterWake; rewrite Em, Ef; unfold pending in Ep; by rewrite Ep].
  apply same_str_true in Ep. pose proof (EnterWake_spec s exclude payload w i saving Em Ef Ep) as H. unfold has_post.
  destruct (EnterWake s exclude payload w) as [o w']. simpl. destruct H as (Hn & i' & Hw & Ho).
  split; [done|]. destruct (find_intention_Some _ _ _ Ef) as [Hid Hin]. apply (state_ok_later (w_ids w)); [done|].
  apply (woken_ok s exclude _ (w_state w) (w_state w') i i'); [done|done|by rewrite Hid|eauto].
Qed.

Lemma wake_all_ok s due : forall w, state_ok (w_ids w) (w_state w) -> let w' := (wake_all s due w).2 in state_ok (w_ids w') (w_state w').
Proof.
  induction due as [|i due IH]; intros w Hok; simpl; [done|]. set (payload := Build_IntentionWakePayload _ _ _).
  pose proof (EnterWake_ok s "" payload w Hok) as [_ H]. destruct (EnterWake s "" payload w) as [o w1]. simpl in H.
  specialize (IH w1 H). by destruct (wake_all s due w1).
Qed.

Lemma RunLevel_post s level input w : has_post (RunLevel s level input) w (fun _ st _ n => st = w_state w /\ w_ids w <= n).
Proof.
  unfold RunLevel. apply with_run_post; [|done]. intros w1 Hs _ Hi _. unfold has_post. set (record := Build_CognitionWorkingRecord _ _ _ _).
  destruct (append_working_keeps record w1) as (H1 & H2 & _). destruct (append_working record w1) as [[u|e] w2]; simpl in H1, H2;
    [|simpl; split; [congruence|lia]].
  destruct (modelForTask _ _) as [selected|e]; [|simpl; split; [congruence|lia]].
  set (text := [_]). destruct (executeCognition_keeps s selected PurposeRespond (0, 0) text w2) as (H3 & H4 & _).
  destruct (executeCognition _ _ _ _ _ w2) as [[resp|e] w3]; simpl in *; (split; [congruence|lia]).
Qed.

(** The entries to the mind, and what happens elsewhere between them. *)
Inductive mind_step (s : Scheduler) (w : world) : world -> Prop :=
| step_event eventType input : mind_step s w (Enter s eventType input w).2
| step_wake exclude payload : mind_step s w (EnterWake s exclude payload w).2
| step_due : mind_step s w (EnterDueIntentions s w).2
| step_pulse evidence : mind_step s w (EnterPulseWake s evidence w).2
| step_permission id q outcome : mind_step s w (NotifyPermissionResolution s id q outcome w).2
| step_direct level input : mind_step s w (RunLevel s level input w).2
| step_elsewhere e : mind_step s w (put_env w e).

Lemma mind_step_ok s w w' :
  (forall a b, uuid a = uuid b -> a = b) -> mind_step s w w' -> state_ok (w_ids w) (w_state w) -> state_ok (w_ids w') (w_state w').
Proof.
  intros Hinj Hstep Hok.
  assert (Henter : forall t o w1 st n, w_state w1 = w_state w -> w_ids w <= w_ids w1 -> enter_post s t w1 o st n -> state_ok n st).
  { intros t o w1 st n Hs Hi (Hn & added & Ha & _). rewrite Hs in Ha.
    apply (entered_ok s (w_ids w1) n (w_state w) st added); [done|by apply (state_ok_later (w_ids w))|done|done]. }
  assert (Hdirect : forall level input, let w' := (RunLevel s level input w).2 in state_ok (w_ids w') (w_state w')).
  { intros level input. cbv zeta. destruct (RunLevel_post s level input w) as [-> Hn]. by apply (state_ok_later (w_ids w)). }
  destruct Hstep as [t input|exclude payload| |evidence|id q outcome|level input|e].
  - apply (Henter t _ w _ _ eq_refl ltac:(lia) (Enter_spec s t input w)).
  - apply (EnterWake_ok s exclude payload w Hok).
  - unfold EnterDueIntentions. destruct (DueIntentions s w) as [due|]; [|done]. pose proof (wake_all_ok s due w Hok) as H.
    by destruct (wake_all s due w).
  - assert (H : has_post (EnterPulseWake s evidence) w (fun _ st _ n => state_ok n st)); [|exact H].
    unfold EnterPulseWake. apply with_run_post; [|intros e n Hn; by apply (state_ok_later (w_ids w))].
    intros w1 Hs _ Hi _. pose proof (Enter_spec s TypePulseSpontaneous evidence w1) as He. unfold has_post in *.
    apply (Henter _ _ _ _ _ Hs Hi) in He. by destruct (Enter s TypePulseSpontaneous evidence w1) as [[r|err] w2].
  - unfold NotifyPermissionResolution. destruct (marshal_resolution id q outcome) as [encoded|]; [|done]. cbv zeta.
    destruct (if empty_str _ then None else _) as [i|]; simpl; [|apply Hdirect]. set (payload := Build_IntentionWakePayload _ _ _).
    apply (EnterWake_ok s (q_ID q) payload w Hok).
  - apply Hdirect.
  - done.
Qed.

(** C27: the mind keeps its state well formed.  From a state whose intentions have distinct identifiers, whose pending
    intentions have readable wake times and whose memories are numbered without gaps, every sequence of entries to the
    mind ends in such a state, whatever models, tools and the environment do, as long as generated identifiers are
    distinct.  In it no pending intention can stop the recognition of due ones by its wake time, and saving the state
    never violates the primary key of the memories. *)
Theorem mind_stays_well_formed s w w' :
  (forall a b, uuid a = uuid b -> a = b) -> state_ok (w_ids w) (w_state w) -> rtc (mind_step s) w w' ->
  state_ok (w_ids w') (w_state w') /\
  (forall i text, DueIntentions s w' <> Err (MalformedWakeTime i text)) /\
  (forall db, di_DollID (ds_Identity (w_state w')) <> "" -> is_ok (SaveDoll db (Some (w_state w'))) = true).
Proof.
  intros Hinj Hok Hrun. assert (Hok' : state_ok (w_ids w') (w_state w')).
  { induction Hrun as [|w w1 w2 Hs _ IH]; [done|]. apply IH. by eapply mind_step_ok. }
  split_and!; [done|..].
  - intros i text. unfold DueIntentions. destruct (sc_mindAPI s); [|done]. pose proof (ok_times _ _ Hok') as Ht. clear -Ht.
    revert Ht. generalize (sc_timeProvider s (w_env w')) (items (ds_Intentions (w_state w'))). intros now l Ht.
    induction l as [|j l IH]; simpl; [done|]. assert (IH' := IH ltac:(intros k Hk; apply Ht; by right)).
    destruct (same_str (in_State j) IntentionStatePending) eqn:Ep; simpl; [|done].
    destruct (intentionAwaitingPermission _ _ _ _) as [[|]|]; [done| |done].
    destruct (Ht j ltac:(by left) Ep) as [wake ->]. destruct (due_items _ _ _ l); simpl; [done|]. intros [= ->]. by apply IH'.
  - intros db Hid. apply SaveDoll_ok; [done|]. intros l Hl. pose proof (ok_memories _ _ Hok') as Hm. rewrite Hl in Hm.
    simpl in Hm. rewrite Hm. apply NoDup_seqZ.
Qed.

End mind.

(** ** A concrete mind

    The environment is a clock, the replies of a model still to come, and the store. *)

Record demo_env := { v_now : time; v_replies : list string; v_db : dolls_db }.

Definition demo_reply : Provider string demo_env := fun _ e =>
  match v_replies e with
  | [] => (Err (ProviderFailed "no reply"), e)
  | r :: rest => (Ok (Some {| rp_Content := r; rp_ToolCalls := []; rp_ProviderID := "demo"; rp_TokensUsed := 0 |}),
                  {| v_now := v_now e; v_replies := rest; v_db := v_db e |})
  end.

(** [productionMindAPI.Save]. *)
Definition demo_save (st : DollState string) (e : demo_env) : option string * demo_env :=
  match SaveDoll (v_db e) (Some st) with
  | Err _ => (Some "cannot save", e)
  | Ok db => (None, {| v_now := v_now e; v_replies := v_replies e; v_db := db |})
  end.

Definition demo_plan (retain : list string) (later : string) : planJSON :=
  {| pj_Summary := "s"; pj_ProposedAction := ""; pj_Observations := None; pj_ShouldReorient := false;
     pj_RetainExperience := retain; pj_RequestFutureCognition := negb (empty_str later); pj_FutureSubject := "again";
     pj_FutureReason := ""; pj_FutureWakeTime := later; pj_OutboundAction := None |}.

#[local] Instance demo_surroundings : Surroundings string demo_env := {|
  marshal_orientation _ := "{}"; marshal_identity id name := id +:+ name; marshal_mind _ _ _ _ := "{}"; marshal_goals _ := "[]";
  marshal_intentions _ := "[]"; marshal_memories _ := "[]"; marshal_call _ := Some "{}"; show_map _ := "{}";
  marshal_resolution _ _ _ := Some "{}";
  unmarshal_orientation text :=
    if same_str text "matters" then Some {| or_Summary := "s"; or_Matters := true; or_Reason := "r" |}
    else if same_str text "ignore" then Some {| or_Summary := "s"; or_Matters := false; or_Reason := "r" |} else None;
  unmarshal_plan text :=
    if same_str text "retain" then Some (demo_plan ["seen"] "")
    else if same_str text "later" then Some (demo_plan [] "0001-01-01T00:01:00Z") else None;
  orient_task := "orient"; plan_task := "plan"; context_text _ := ""; uuid n := "id" +:+ pretty.pretty n;
  zone_offset _ := 0; cancelled _ := false |}.

Definition demo_scheduler : Scheduler (Any := string) (Env := demo_env) :=
  {| sc_provider := Some demo_reply; sc_mindAPI := Some demo_save; sc_dispatcher := None; sc_timeProvider := v_now;
     sc_toolExecutor := None;
     sc_modelConfiguration := {| mo_Name := "m"; mo_Provider := "p"; mo_Model := "m"; mo_Endpoint := "e";
                                 mo_Budget := DefaultModelContextBudget |};
     sc_taskModels := ∅ |}.

Definition demo_intention (id wake : string) : IntentionItem :=
  {| in_ID := id; in_Subject := "look"; in_Description := ""; in_WakeTime := wake; in_State := IntentionStatePending |}.

Definition demo_state (l : list IntentionItem) : DollState string :=
  put_intentions
    {| ds_Version := 1; ds_Identity := {| di_DollID := "doll"; di_CanonicalName := "Doll"; di_TemplateRef := "" |};
       ds_Soul := ds_Soul (NewDollState (Any := string)); ds_Owner := ds_Owner (NewDollState (Any := string));
       ds_Self := ds_Self (NewDollState (Any := string)); ds_Memories := None; ds_Drives := None; ds_Goals := None;
       ds_Skills := None; ds_Intentions := None; ds_Auth := ds_Auth (NewDollState (Any := string)); ds_Secrets := None;
       ds_ExtensionData := ∅ |} (Some l).

Definition demo_world (st : DollState string) (replies : list string) : world :=
  {| w_state := st; w_run := None; w_env := {| v_now := 20 * second; v_replies := replies; v_db := empty_dolls |}; w_ids := 0 |}.

(** One intention is due and asks to be woken again, one is due and done, one is not due. *)
Definition demo_due : world :=
  demo_world (demo_state [demo_intention "a" "0001-01-01T00:00:10Z"; demo_intention "b" "0001-01-01T00:00:30Z";
                          demo_intention "c" "0001-01-01T00:00:15Z"]) ["matters"; "later"; "ignore"].

Lemma due_round_witness :
  (EnterDueIntentions demo_scheduler demo_due).1 = Ok (2, []) /\
  (in_WakeTime <$> items (ds_Intentions (w_state (EnterDueIntentions demo_scheduler demo_due).2)),
   in_State <$> items (ds_Intentions (w_state (EnterDueIntentions demo_scheduler demo_due).2))) =
  (["0001-01-01T00:01:00Z"; "0001-01-01T00:00:30Z"; "0001-01-01T00:00:15Z"],
   [IntentionStatePending; IntentionStatePending; IntentionStateCompleted]) /\
  match EnterDueIntentions demo_scheduler demo_due with
  | (Ok (n, _), w') => in_ID <$> items (ds_Intentions (w_state w')) = in_ID <$> items (ds_Intentions (w_state demo_due))
  | (Err _, _) => False
  end.
Proof.
  split; [vm_compute; reflexivity|]. split; [vm_compute; reflexivity|].
  assert (Hnd : NoDup (in_ID <$> items (ds_Intentions (w_state demo_due)))).
  { apply (bool_decide_unpack _). vm_compute. exact I. }
  assert (Ho : (EnterDueIntentions demo_scheduler demo_due).1 = Ok (2, [])) by (vm_compute; reflexivity).
  pose proof (due_round demo_scheduler demo_save demo_due eq_refl Hnd) as H. cbv zeta in H. revert H Ho. clear.
  destruct (EnterDueIntentions demo_scheduler demo_due) as [[[n failures]|e] w']; intros H Ho; [|discriminate Ho].
  exact (proj1 (proj2 H)).
Defined.

Lemma demo_ids a b : uuid (Surroundings := demo_surroundings) a = uuid b -> a = b.
Proof. simpl. intros H. apply (inj (String.append "id")) in H. by apply (inj pretty.pretty) in H. Qed.

Lemma demo_state_ok : state_ok (w_ids demo_due) (w_state demo_due).
Proof.
  split.
  - apply (bool_decide_unpack _). vm_compute. exact I.
  - intros m _. simpl. rewrite !not_elem_of_cons. split_and!; [done..|apply not_elem_of_nil].
  - intros i Hi _. simpl in Hi. rewrite !elem_of_cons in Hi. destruct Hi as [->|[->|[->|Hi]]]; [..|by apply not_elem_of_nil in Hi];
      vm_compute; by eexists.
  - done.
Qed.

Lemma mind_stays_well_formed_witness :
  state_ok (w_ids (EnterDueIntentions demo_scheduler demo_due).2) (w_state (EnterDueIntentions demo_scheduler demo_due).2).
Proof.
  refine (proj1 (mind_stays_well_formed demo_scheduler demo_due (EnterDueIntentions demo_scheduler demo_due).2 demo_ids demo_state_ok _)).
  apply rtc_once. apply step_due.
Defined.

(** ** Experience that is not saved *)

(** A spontaneous wake that retains an experience succeeds, and the experience is in memory only: nothing was stored. *)
Lemma pulse_experience_unsaved :
  let '(o, w') := EnterPulseWake demo_scheduler "wake" (demo_world (demo_state []) ["matters"; "retain"]) in
  o = Ok tt /\ me_Content <$> items (ds_Memories (w_state w')) = ["seen"] /\ v_db (w_env w') = empty_dolls.
Proof. vm_compute. repeat split. Qed.

(** Numbering by the number of memories repeats a sequence when the numbers have a gap, as after an import, and the state
    can no longer be saved. *)
Lemma experience_repeats_sequence :
  let imported := put_memories (demo_state [demo_intention "a" "0001-01-01T00:00:10Z"])
    (Some [{| me_ID := "m"; me_InteractionID := ""; me_Kind := KindObservation; me_Content := "old"; me_Sequence := 1; me_Timestamp := "" |}]) in
  is_ok (SaveDoll empty_dolls (Some imported)) = true /\
  (EnterWake demo_scheduler "" {| wp_IntentionID := "a"; wp_Subject := "look"; wp_Description := "" |}
     (demo_world imported ["matters"; "retain"])).1 = Err (SaveFailed "cannot save").
Proof. vm_compute. split; reflexivity. Qed.
