(* ===== verification/InteractionService.v ===== *)
(** * Interactions

    Core/Interaction/service.go: one turn of a conversation.  The addressed Doll
    is loaded, the model is asked with the session's history as context, the turn
    is appended to the history and remembered in the Doll's state.  The provider
    and the tools act on an environment [Env]; what others do to the stored Dolls
    meanwhile is a function of the turn.  The locks of a session and of a Doll are
    those of [KeyedLocks]; here acquiring one succeeds or the call is cancelled. *)
From stdpp Require Import pretty.
From S2P Require Import Prelude GoStrings GoTime DollState Session ContextBuilder Inference CognitiveExecution.
From stdpp Require Import options.

(** ** Events *)

Section interaction.
Context {Any Env : Type}.

Inductive payload := MessagePayload (text : string) | PayloadMap (m : gmap string Any) | PayloadOther.

Record InboundEvent := { ev_ID : string; ev_DollID : string; ev_Payload : payload }.

(** The answer: a message of the Doll, or a system event that reports an error. *)
Inductive answer_body := AnswerText (text : string) | AnswerError (message : string).
Record Answer := { an_CorrelationID : string; an_DollID : string; an_Source : string; an_Body : answer_body }.

Definition NewResponse (correlationID dollID text : string) : Answer :=
  {| an_CorrelationID := correlationID; an_DollID := dollID; an_Source := "core"; an_Body := AnswerText text |}.
Definition NewErrorResponse (correlationID dollID message : string) : Answer :=
  {| an_CorrelationID := correlationID; an_DollID := dollID; an_Source := "core"; an_Body := AnswerError message |}.

(** ** The service *)

(** [json.Marshal] of a call, the [%v] verb on a map, a type assertion to [string], and [Error()]. *)
Context (marshal_call : ToolCall Any -> option string) (show_map : gmap string Any -> string)
  (as_string : Any -> option string) (context_text : context_error -> string) (cancelled : Env -> bool).

Record InteractionService := {
  is_provider : option (Provider Any Env);
  is_modelConfiguration : ModelConfiguration;
  is_toolExecutor : option (ToolExecutor Any Env);
}.

(** The tables of the store, and the environment. *)
Record core := { co_sessions : sessions_db; co_history : history_table; co_dolls : dolls_db; co_env : Env }.

Definition put_core_env (w : core) (e : Env) : core :=
  {| co_sessions := co_sessions w; co_history := co_history w; co_dolls := co_dolls w; co_env := e |}.
Definition put_history (w : core) (t : history_table) : core :=
  {| co_sessions := co_sessions w; co_history := t; co_dolls := co_dolls w; co_env := co_env w |}.
Definition put_dolls (w : core) (d : dolls_db) : core :=
  {| co_sessions := co_sessions w; co_history := co_history w; co_dolls := d; co_env := co_env w |}.

(** What a turn reads from the generators of identifiers and the clock, whether its locks are acquired, and what others
    do to the stored Dolls while the model is asked. *)
Record Turn := {
  tn_ID : string; tn_session_lock : bool; tn_doll_lock : bool; tn_history_id : Z -> string; tn_history_time : Z -> time;
  tn_interaction_id : string; tn_human_id : string; tn_doll_id : string; tn_human_time : time; tn_doll_time : time;
  tn_elsewhere : dolls_db -> dolls_db;
}.

Definition interactionMessageText (p : payload) : option string :=
  match p with
  | MessagePayload text => if blank text then None else Some text
  | PayloadMap m => text ← m !! "text" ≫= as_string; if blank text then None else Some text
  | PayloadOther => None
  end.

Definition says (prefix text suffix : string) : list string := if empty_str text then [] else [prefix +:+ text +:+ suffix].

Definition interactionInstructions (s : DollState Any) : list string :=
  match says "Your name is " (di_CanonicalName (ds_Identity s)) "." ++ says "Your nature: " (so_Content (ds_Soul s)) "" ++
        says "Your owner is " (ow_Name (ds_Owner s)) "." with
  | [] => []
  | parts => [String.concat LF parts]
  end.

Definition nextSequence (l : list MemoryItem) : Z := foldl (fun m x => Z.max m (me_Sequence x)) (-1) l + 1.

Definition show_exchange : ToolExchange Any -> option string :=
  FormatToolExchange marshal_call (FormatToolResultForPrompt show_map).

Definition interaction_provenance := "interaction.tool_exchange".

Definition exchange_id (turnID : string) (index : Z) : string := turnID +:+ "/tool/" +:+ pretty index.

Fixpoint transients (turnID : string) (index : Z) (l : list (ToolExchange Any)) : option (list TransientMessage) :=
  match l with
  | [] => Some []
  | e :: rest =>
      content ← show_exchange e;
      more ← transients turnID (index + 1) rest;
      let id := exchange_id turnID index in
      Some ({| tm_ID := id; tm_Message := {| m_Role := RoleTool; m_Content := content; m_Provenance := interaction_provenance |};
               tm_Required := ex_Required e; tm_WindowGroup := id |} :: more)
  end.

Definition role_name (r : Role) : string :=
  match r with
  | RoleSystem => "system" | RoleUser => "user" | RoleAssistant => "assistant" | RoleTool => "tool" | RoleOther s => s
  end.

Definition wire_message (m : Message) : InferenceMessage Any :=
  {| im_Role := role_name (m_Role m); im_Content := m_Content m; im_Provenance := m_Provenance m; im_Tools := [];
     im_ToolCall := None; im_ToolResult := None |}.

(** [BuildContext] of a turn. *)
Definition turn_context (state : DollState Any) (sessionID turnID input : string) : ContextBuilder Any core := fun st w =>
  let instructions := interactionInstructions state ++ match cs_Tools st with [] => [] | tools => [FormatToolsForPrompt tools] end in
  match transients turnID 0 (cs_Exchanges st) with
  | None => (Err "format tool exchange", w)
  | Some transient =>
      match Build ApproximateEstimator SlidingWindow_Select (resolve_session (co_sessions w) (co_history w)) sessionID
              (cs_InputTokenBudget st) instructions [{| m_Role := RoleUser; m_Content := input; m_Provenance := "" |}] transient with
      | Err e => (Err (context_text e), w)
      | Ok built =>
          let '(bound, err) := BindToolContext marshal_call (FormatToolResultForPrompt show_map) (wire_message <$> cx_Messages built)
                                 (cs_Tools st) (cs_Exchanges st) interaction_provenance in
          match err with Some _ => (Err "bind tool context", w) | None => (Ok bound, w) end
      end
  end.

Definition core_provider (p : Provider Any Env) : Provider Any core := fun q w =>
  let '(o, e) := p q (co_env w) in (o, put_core_env w e).

Definition core_executor (x : ToolExecutor Any Env) : ToolExecutor Any core :=
  {| Tools := fun w => Tools x (co_env w);
     ExecuteCall := fun call tool w => let '(r, e) := ExecuteCall x call tool (co_env w) in (r, put_core_env w e);
     ExecuteCorrelatedCall :=
       (fun f k call tool w => let '(r, e) := f k call tool (co_env w) in (r, put_core_env w e)) <$> ExecuteCorrelatedCall x |}.

(** 0.7 as a 64-bit float. *)
Definition warm : float64 := (6305039478318694, -53).

Definition turn_request (s : InteractionService) (state : DollState Any) (sessionID turnID input : string)
    : CognitiveExecution.Request Any core :=
  {| rq_Provider := core_provider <$> is_provider s; rq_ModelConfiguration := is_modelConfiguration s; rq_Purpose := "respond";
     rq_Temperature := warm; rq_TurnID := turnID; rq_SessionID := sessionID; rq_CognitiveRunID := ""; rq_IntentionID := "";
     rq_BuildContext := Some (turn_context state sessionID turnID input);
     rq_ToolExecutor := core_executor <$> is_toolExecutor s; rq_MaxToolCalls := DefaultToolCallLimit |}.

Inductive interaction_error := NoSession | NilEvent | LockCancelled | LoadFailed (e : doll_error) | ReloadFailed (e : doll_error).

(** The two memories of a turn. *)
Definition turn_memories (t : Turn) (next : Z) (input reply : string) : list MemoryItem :=
  [{| me_ID := tn_human_id t; me_InteractionID := tn_interaction_id t; me_Kind := KindHumanMessage; me_Content := input;
      me_Sequence := next; me_Timestamp := RFC3339 (tn_human_time t) |};
   {| me_ID := tn_doll_id t; me_InteractionID := tn_interaction_id t; me_Kind := KindDollResponse; me_Content := reply;
      me_Sequence := next + 1; me_Timestamp := RFC3339 (tn_doll_time t) |}].

Definition turn_history (turnID input reply : string) : list NewHistoryMessage :=
  [{| nh_TurnID := turnID; nh_Role := RoleUser; nh_Content := input |};
   {| nh_TurnID := turnID; nh_Role := RoleAssistant; nh_Content := reply |}].

(** The turn is remembered in the Doll as it is stored then. *)
Definition remember_turn (t : Turn) (e : InboundEvent) (input reply : string) (w : core)
    : res interaction_error Answer * core :=
  if negb (tn_doll_lock t) then (Err LockCancelled, w)
  else
    match LoadDoll (Any := Any) (co_dolls w) (ev_DollID e) with
    | Err err => (Err (ReloadFailed err), w)
    | Ok state =>
        let old := items (ds_Memories state) in
        match SaveDoll (co_dolls w) (Some (put_memories state (Some (old ++ turn_memories t (nextSequence old) input reply)))) with
        | Err _ => (Ok (NewErrorResponse (ev_ID e) (ev_DollID e) "failed to persist interaction"), w)
        | Ok dolls => (Ok (NewResponse (ev_ID e) (ev_DollID e) reply), put_dolls w dolls)
        end
    end.

Definition handleInteraction (s : InteractionService) (t : Turn) (sessionID : string) (event : option InboundEvent) (w : core)
    : res interaction_error Answer * core :=
  match event with None => (Err NilEvent, w) | Some e =>
  let refused message := (Ok (NewErrorResponse (ev_ID e) (ev_DollID e) message), w) in
  if empty_str (ev_DollID e) then refused "doll_id is required"
  else
    match interactionMessageText (ev_Payload e) with
    | None => refused "valid message payload required"
    | Some input =>
        match LoadDoll (Any := Any) (co_dolls w) (ev_DollID e) with
        | Err ErrDollNotFound => refused "doll not found"
        | Err err => (Err (LoadFailed err), w)
        | Ok state =>
            match ValidateModelConfiguration (is_modelConfiguration s) with
            | Err _ => refused "interaction context unavailable"
            | Ok _ =>
                let q := turn_request s state sessionID (tn_ID t) input in
                match CognitiveExecution.Execute (fun w => cancelled (co_env w)) (enough q) q w with
                | (Err _, w1) => (Ok (NewErrorResponse (ev_ID e) (ev_DollID e) "inference failed"), put_dolls w1 (tn_elsewhere t (co_dolls w1)))
                | (Ok result, w1) =>
                    let w2 := put_dolls w1 (tn_elsewhere t (co_dolls w1)) in
                    let reply := rp_Content (rs_Response result) in
                    match AppendSessionMessages (co_sessions w2) (co_history w2) sessionID (tn_history_id t) (tn_history_time t)
                            (turn_history (tn_ID t) input reply) with
                    | (Err _, _) => (Ok (NewErrorResponse (ev_ID e) (ev_DollID e) "failed to persist interaction"), w2)
                    | (Ok _, history) => remember_turn t e input reply (put_history w2 history)
                    end
                end
            end
        end
    end
  end.

Definition HandleInteraction (s : InteractionService) (t : Turn) (resolved : option InteractionSession)
    (e : option InboundEvent) (w : core)
    : res interaction_error Answer * core :=
  match resolved with
  | None => (Err NoSession, w)
  | Some r =>
      if empty_str (s_ID r) then (Err NoSession, w)
      else if negb (tn_session_lock t) then (Err LockCancelled, w)
      else handleInteraction s t (s_ID r) e w
  end.

(** ** What a turn leaves behind *)

Lemma max_sequence l : forall n, n <= foldl (fun m x => Z.max m (me_Sequence x)) n l /\
  forall m, m ∈ l -> me_Sequence m <= foldl (fun m x => Z.max m (me_Sequence x)) n l.
Proof.
  induction l as [|x l IH]; intros n; simpl; [split; [lia|set_solver]|]. destruct (IH (Z.max n (me_Sequence x))) as [H1 H2].
  split; [lia|]. intros m [->|Hm]%elem_of_cons; [lia|by apply H2].
Qed.

Lemma nextSequence_after l m : m ∈ l -> me_Sequence m < nextSequence l.
Proof. intros Hm. unfold nextSequence. pose proof (proj2 (max_sequence l (-1)) m Hm). lia. Qed.

Lemma turn_sorted t l input reply :
  StronglySorted memory_before l -> StronglySorted memory_before (l ++ turn_memories t (nextSequence l) input reply).
Proof.
  intros Hs. apply StronglySorted_app_2; [|done|repeat constructor; unfold memory_before; simpl; lia].
  intros x y Hx%nextSequence_after Hy. unfold turn_memories in Hy. rewrite !elem_of_cons in Hy. unfold memory_before.
  destruct Hy as [->|[->|Hy]]; simpl; [lia|lia|by apply not_elem_of_nil in Hy].
Qed.

(** Asking the model changes the environment only. *)
Lemma asking_keeps s state sid turnID input w :
  let q := turn_request s state sid turnID input in
  let w' := (CognitiveExecution.Execute (fun w => cancelled (co_env w)) (enough q) q w).2 in
  co_sessions w' = co_sessions w /\ co_history w' = co_history w /\ co_dolls w' = co_dolls w.
Proof.
  cbv zeta. set (q := turn_request s state sid turnID input).
  apply (execution_keeps _ (fun w' => co_sessions w' = co_sessions w /\ co_history w' = co_history w /\ co_dolls w' = co_dolls w)); [..|done].
  - intros b st w1 [= <-] H1. unfold turn_context. destruct (transients _ _ _); [|done]. destruct (Build _ _ _ _ _ _ _ _); [|done].
    by destruct (BindToolContext _ _ _ _ _ _) as [? [?|]].
  - intros p r w1 Hp H1. unfold q, turn_request in Hp. simpl in Hp. destruct (is_provider s) as [p0|]; [|done].
    injection Hp as <-. unfold core_provider. by destruct (p0 r (co_env w1)).
  - intros x tools call w1 Hx H1. unfold q, turn_request in Hx. simpl in Hx. destruct (is_toolExecutor s) as [x0|]; [|done].
    injection Hx as <-. unfold execute_one, core_executor. simpl. destruct (ExecuteCorrelatedCall x0) as [f|]; simpl.
    + by destruct (f _ call _ (co_env w1)).
    + by destruct (ExecuteCall x0 call _ (co_env w1)).
Qed.

(** The answer to a turn and what is stored then. *)
Definition turn_stored (t : Turn) (sid : string) (e : InboundEvent) (w w' : core) (o : res interaction_error Answer) : Prop :=
  let others := tn_elsewhere t (co_dolls w) in
  co_sessions w' = co_sessions w /\
  match o with
  | Err _ => co_dolls w' = co_dolls w \/ co_dolls w' = others
  | Ok a =>
      an_CorrelationID a = ev_ID e /\ an_DollID a = ev_DollID e /\
      match an_Body a with
      | AnswerError message =>
          (co_dolls w' = co_dolls w \/ co_dolls w' = others) /\
          (co_history w' = co_history w \/ message = "failed to persist interaction")
      | AnswerText reply =>
          exists input created (st : DollState Any), interactionMessageText (ev_Payload e) = Some input /\
            AppendSessionMessages (co_sessions w) (co_history w) sid (tn_history_id t) (tn_history_time t)
              (turn_history (tn_ID t) input reply) = (Ok created, co_history w') /\
            LoadDoll others (ev_DollID e) = Ok st /\
            let old := items (ds_Memories st) in
            LoadDoll (co_dolls w') (ev_DollID e) =
              Ok (put_memories st (Some (old ++ turn_memories t (nextSequence old) input reply))) /\
            (forall m, m ∈ old -> me_Sequence m < nextSequence old) /\
            dolls_ok (co_dolls w') /\
            (forall other, other <> ev_DollID e -> LoadDoll (Any := Any) (co_dolls w') other = LoadDoll others other)
      end
  end.

Lemma remember_turn_spec t sid e input reply w w1 created :
  dolls_ok (tn_elsewhere t (co_dolls w)) -> interactionMessageText (ev_Payload e) = Some input ->
  AppendSessionMessages (co_sessions w) (co_history w) sid (tn_history_id t) (tn_history_time t)
    (turn_history (tn_ID t) input reply) = (Ok created, co_history w1) ->
  co_sessions w1 = co_sessions w -> co_dolls w1 = tn_elsewhere t (co_dolls w) ->
  turn_stored t sid e w (remember_turn t e input reply w1).2 (remember_turn t e input reply w1).1.
Proof.
  intros Hok Hin Ha Hs Hd. unfold remember_turn. destruct (tn_doll_lock t); cbn [negb]; [|split; [done|by right]].
  destruct (LoadDoll (Any := Any) (co_dolls w1) (ev_DollID e)) as [st|err] eqn:El; [|split; [done|by right]]. cbv zeta.
  destruct (SaveDoll (Any := Any) _ _) as [dolls|] eqn:Es; simpl; [|split_and!; simpl; auto]. split; [done|]. split_and!; [done..|]. simpl.
  exists input, created, st. rewrite Hd in El, Es. do 3 (split; [done|]). cbv zeta.
  assert (Hne : items (ds_Memories st) ++ turn_memories t (nextSequence (items (ds_Memories st))) input reply <> []).
  { intros [_ ?]%app_eq_nil. done. }
  destruct (memories_replaced _ _ _ _ _ Hok El Hne (turn_sorted _ _ _ _ (loaded_sorted _ _ _ El)) Es)
    as (H1 & H2 & H3). split_and!; [done| |done|done]. apply nextSequence_after.
Qed.

(** C18: a turn is recorded.  The answer to an event carries its identifier and its Doll.  When it is the Doll's reply, the
    text of the event and the reply were appended to the history of the session, under one turn, and to the memories of
    the Doll as it was stored at that time, with the two sequences that follow all others; nothing else of that Doll and
    no other Doll changed.  When it is an error, no Doll was changed, and the history only if the turn could then not be
    remembered. *)
Theorem turn_recorded s t r e w :
  dolls_ok (tn_elsewhere t (co_dolls w)) ->
  let '(o, w') := HandleInteraction s t (Some r) (Some e) w in turn_stored t (s_ID r) e w w' o.
Proof.
  intros Hok. unfold HandleInteraction. destruct (empty_str (s_ID r)); [split; [done|by left]|].
  destruct (tn_session_lock t); simpl; [|split; [done|by left]]. unfold handleInteraction. cbv zeta.
  assert (Hrefused : forall m, turn_stored t (s_ID r) e w w (Ok (NewErrorResponse (ev_ID e) (ev_DollID e) m))).
  { intros m. split; [done|]. simpl. split_and!; auto. }
  destruct (empty_str (ev_DollID e)); [apply Hrefused|]. destruct (interactionMessageText _) as [input|] eqn:Ein; [|apply Hrefused].
  destruct (LoadDoll (Any := Any) (co_dolls w) (ev_DollID e)) as [state|[]]; [|apply Hrefused|split; [done|by left]..].
  destruct (ValidateModelConfiguration _); [|apply Hrefused].
  pose proof (asking_keeps s state (s_ID r) (tn_ID t) input w) as Hk. cbv zeta in Hk. set (q := turn_request _ _ _ _ _) in *.
  destruct (CognitiveExecution.Execute _ _ _ _) as [[result|err] w1]; simpl in Hk; destruct Hk as (H1 & H2 & H3).
  2: { split; [done|]. simpl. rewrite H3. split_and!; auto. }
  cbn [co_sessions co_history put_dolls]. rewrite H1, H2, H3.
  destruct (AppendSessionMessages _ _ _ _ _ _) as [[created|err] history] eqn:Ea.
  2: { split; [done|]. simpl. split_and!; auto. }
  set (w2 := put_history _ history).
  pose proof (remember_turn_spec t (s_ID r) e input (rp_Content (rs_Response result)) w w2 created Hok Ein Ea H1 ltac:(done)) as H.
  by destruct (remember_turn _ _ _ _ _).
Qed.

End interaction.
