(* ===== verification/Continuity.v ===== *)
(** * The mind, the conversations and the store

    cmd/neondolld/main.go gives the mind the state of its Doll as it was loaded
    when the daemon started ([loadProductionDoll]) and lets it save that state
    ([productionMindAPI]); every conversation loads and saves the stored Doll on
    its own.  This file composes the models of the two. *)
From S2P Require Import Prelude GoStrings DollState Session ContextBuilder Inference CognitiveExecution Mind InteractionService.
From stdpp Require Import options.

Section daemon.
Context {Any : Type}.

(** [None] is an error of the store. *)
Definition loadProductionDoll (db : dolls_db) (id : string) : option (DollState Any * dolls_db) :=
  match LoadDoll (Any := Any) db id with
  | Ok st => Some (st, db)
  | Err ErrDollNotFound =>
      let fresh := NewDollState (Any := Any) in
      let created := {| ds_Version := ds_Version fresh; ds_Identity := {| di_DollID := id; di_CanonicalName := id; di_TemplateRef := "" |};
                        ds_Soul := ds_Soul fresh; ds_Owner := ds_Owner fresh; ds_Self := ds_Self fresh; ds_Memories := None;
                        ds_Drives := None; ds_Goals := None; ds_Skills := None; ds_Intentions := None; ds_Auth := ds_Auth fresh;
                        ds_Secrets := None; ds_ExtensionData := ∅ |} in
      match SaveDoll db (Some created) with Ok db' => Some (created, db') | Err _ => None end
  | Err _ => None
  end.

(** [productionMindAPI.Save], in an environment that holds the store. *)
Definition productionSave {Env} (store : Env -> dolls_db) (put : Env -> dolls_db -> Env) (st : DollState Any) (e : Env)
    : option string * Env :=
  match SaveDoll (store e) (Some st) with
  | Ok db => (None, put e db)
  | Err _ => (Some "cannot save doll", e)
  end.

Lemma production_loaded db id st db' :
  dolls_ok db -> ValidString id = true -> loadProductionDoll db id = Some (st, db') -> dolls_ok db' /\ di_DollID (ds_Identity st) = id /\ id <> "".
Proof.
  unfold loadProductionDoll. intros Hok Hv. destruct (LoadDoll db id) as [s|e] eqn:El.
  - intros [= -> ->]. unfold LoadDoll in El. destruct (empty_str id) eqn:Ei; [done|]. destruct (t_dolls db' !! id) as [r|] eqn:Er; [|done].
    injection El as <-. simpl. apply empty_str_false in Ei. split_and!; [done|by apply Hok|done].
  - destruct e; [|done..]. destruct (SaveDoll db _) as [db1|] eqn:Es; [|done]. intros [= <- <-].
    split; [by apply (SaveDoll_keeps _ _ _ Hok Es), json_text_id|]. split; [done|]. unfold LoadDoll in El. destruct (empty_str id) eqn:Ei; [done|]. by apply empty_str_false in Ei.
Qed.

(** The mind saves its own copy.  When the mind saves its state successfully, the stored memories of its Doll are
    afterwards exactly those of that copy, whatever conversations have stored since it was loaded; only a copy that holds
    no memories leaves the stored ones alone.  Other Dolls are not touched. *)
Theorem mind_saves_its_copy {Env} (store : Env -> dolls_db) (put : Env -> dolls_db -> Env) (st : DollState Any) e e' :
  (forall e db, store (put e db) = db) ->
  productionSave store put st e = (None, e') ->
  exists loaded, LoadDoll (Any := Any) (store e') (di_DollID (ds_Identity st)) = Ok loaded /\
    match ds_Memories st with
    | Some l => items (ds_Memories loaded) ≡ₚ l
    | None => items (ds_Memories loaded) = stored_memories (store e) (di_DollID (ds_Identity st))
    end /\
    (forall other, other <> di_DollID (ds_Identity st) -> LoadDoll (Any := Any) (store e') other = LoadDoll (store e) other).
Proof.
  intros Hput. unfold productionSave. pose proof (SaveDoll_spec (store e) st) as H. cbv zeta in H.
  destruct (SaveDoll (store e) (Some st)) as [db|]; [|done]. intros [= <-]. rewrite Hput.
  destruct H as (_ & (s' & Hl & _ & Hm & _) & Ho). exists s'. split_and!; [done| |done].
  destruct (ds_Memories st); [|done]. by destruct Hm.
Qed.
End daemon.

(** ** A conversation that is forgotten *)

Definition chatty : InteractionService (Any := string) (Env := unit) :=
  {| is_provider := Some (fun _ e => (Ok (Some {| rp_Content := "hello"; rp_ToolCalls := []; rp_ProviderID := "demo"; rp_TokensUsed := 0 |}), e));
     is_modelConfiguration := sc_modelConfiguration demo_scheduler; is_toolExecutor := None |}.

Definition one_turn : Turn :=
  {| tn_ID := "t1"; tn_session_lock := true; tn_doll_lock := true; tn_history_id := fun n => "h" +:+ pretty.pretty n;
     tn_history_time := fun _ => 9; tn_interaction_id := "x"; tn_human_id := "m1"; tn_doll_id := "m2"; tn_human_time := 9;
     tn_doll_time := 9; tn_elsewhere := id |}.

Definition hi : InboundEvent (Any := string) := {| ev_ID := "e1"; ev_DollID := "doll"; ev_Payload := MessagePayload "hi" |}.

(** A Doll with one memory and an intention that is due. *)
Definition old_memory : MemoryItem :=
  {| me_ID := "m0"; me_InteractionID := ""; me_Kind := KindObservation; me_Content := "old"; me_Sequence := 0; me_Timestamp := "" |}.
Definition known_doll : DollState string :=
  put_memories (demo_state [demo_intention "a" "0001-01-01T00:00:10Z"]) (Some [old_memory]).
Definition known_dolls : dolls_db := match SaveDoll empty_dolls (Some known_doll) with Ok db => db | Err _ => empty_dolls end.

Definition conversation : core := {| co_sessions := talk_db; co_history := ∅; co_dolls := known_dolls; co_env := tt |}.
Definition talk_session : InteractionSession :=
  {| s_ID := "s1"; s_Owner := talk_owner; s_ExternalConversationRef := ""; s_Status := Session.StatusActive; s_CreatedAt := 5;
     s_UpdatedAt := 5 |}.

Definition talked : res interaction_error Answer * core :=
  HandleInteraction (fun _ => None) (fun _ => "") Some (fun _ => "") (fun _ => false) chatty one_turn (Some talk_session) (Some hi) conversation.

Lemma known_ok : dolls_ok known_dolls.
Proof. apply (SaveDoll_keeps empty_dolls known_doll); [apply map_Forall_empty|vm_compute; reflexivity..]. Qed.

Lemma turn_recorded_witness :
  an_Body <$> (match talked.1 with Ok a => Some a | Err _ => None end) = Some (AnswerText "hello") /\
  turn_stored Some one_turn "s1" hi conversation talked.2 talked.1.
Proof.
  split; [vm_compute; reflexivity|].
  pose proof (turn_recorded (fun _ => None) (fun _ => "") Some (fun _ => "") (fun _ => false) chatty one_turn talk_session hi
    conversation known_ok) as H. fold talked in H. destruct talked as [o w']. exact H.
Defined.

#[local] Existing Instance demo_surroundings.

(** The mind with the state that was loaded at start, and the store after the conversation. *)
Definition forgetful : world :=
  {| w_state := known_doll; w_run := None;
     w_env := {| v_now := 20 * second; v_replies := ["ignore"]; v_db := co_dolls talked.2 |}; w_ids := 0 |}.

Definition woken_world : world :=
  (EnterWake demo_scheduler "" {| wp_IntentionID := "a"; wp_Subject := "look"; wp_Description := "" |} forgetful).2.

(** The conversation is remembered in the store until an intention wakes the mind, whose save puts the memories of the
    start back. *)
Lemma wake_forgets_conversation :
  me_Content <$> stored_memories (co_dolls talked.2) "doll" = ["old"; "hi"; "hello"] /\
  me_Content <$> stored_memories (v_db (w_env woken_world)) "doll" = ["old"].
Proof. vm_compute. split; reflexivity. Qed.

Definition put_db (e : demo_env) (db : dolls_db) : demo_env := {| v_now := v_now e; v_replies := v_replies e; v_db := db |}.

Lemma mind_saves_its_copy_witness :
  exists e', productionSave v_db put_db known_doll (w_env forgetful) = (None, e') /\
    exists loaded, LoadDoll (Any := string) (v_db e') "doll" = Ok loaded /\ items (ds_Memories loaded) ≡ₚ [old_memory].
Proof.
  destruct (productionSave v_db put_db known_doll (w_env forgetful)) as [o e'] eqn:E. exists e'.
  assert (o = None) as ->. { change o with (o, e').1. rewrite <- E. vm_compute. reflexivity. }
  split; [reflexivity|]. destruct (mind_saves_its_copy v_db put_db known_doll (w_env forgetful) e' (fun _ _ => eq_refl) E) as (l & Hl & Hm & _).
  exists l. split; [exact Hl|exact Hm].
Defined.
