(* ===== verification/Skill.v ===== *)
(** * Skills

    Core/Skill/contract.go: the descriptors and packages of Agent Skills, the
    check that keeps a path inside the directory of a package, the bounds on a
    transfer of packages, and what an installation needs to be active.
    [path.Clean] is modelled on the elements of a path. *)
From S2P Require Import Prelude GoStrings GoBytes Transfer.
From stdpp Require Import options.

Inductive skill_error := ErrInvalidSkill | ErrIntegrity | ErrTransferBounds.

Definition SchemaVersion : Z := 1.

(** ** Paths *)

Definition slash : Ascii.ascii := Ascii.ascii_of_nat 47.
Definition backslash : Ascii.ascii := Ascii.ascii_of_nat 92.

(** One element of a path; the stack holds the elements before it, the last one first. *)
Definition clean_step (rooted : bool) (stack : list string) (e : string) : list string :=
  if empty_str e || same_str e "." then stack
  else if same_str e ".." then
    match stack with
    | [] => if rooted then [] else [".."]
    | top :: rest => if same_str top ".." then ".." :: stack else rest
    end
  else e :: stack.

Definition clean_elements (rooted : bool) (p : string) : list string :=
  rev (foldl (clean_step rooted) [] (split_on slash p)).

Definition is_rooted (p : string) : bool :=
  match p with String c _ => Ascii.eqb c slash | EmptyString => false end.

Definition Clean (p : string) : string :=
  if empty_str p then "."
  else
    let els := clean_elements (is_rooted p) p in
    if is_rooted p then String slash (join_on slash els)
    else match els with [] => "." | _ => join_on slash els end.

Definition SafeRelativePath (value : string) : bool :=
  if empty_str value || negb (without backslash value) || is_rooted value || negb (without Ascii.zero value) then false
  else
    let clean := Clean value in
    same_str clean value && negb (same_str clean ".") && negb (same_str clean "..") && negb (String.prefix "../" clean).

(** ** Descriptors and packages *)

Record Dependency := { dp_ID : string; dp_Kind : string; dp_Constraint : string }.
Record Compatibility := { cp_Contract : string; cp_Minimum : Z; cp_Maximum : Z }.

Record Descriptor := {
  sd_SchemaVersion : Z;
  sd_ID : string;
  sd_Revision : Z;
  sd_Name : string;
  sd_Description : string;
  sd_Directory : string;
  sd_Dependencies : list Dependency;
  sd_Compatibility : list Compatibility;
  sd_DesiredActive : bool;
}.

Definition dependency_key (d : Dependency) : string := dp_Kind d +:+ NUL +:+ dp_ID d.
Definition compatibility_key (c : Compatibility) : string := "compat" +:+ NUL +:+ cp_Contract c.

Fixpoint check_dependencies (seen : gset string) (l : list Dependency) : res skill_error (gset string) :=
  match l with
  | [] => Ok seen
  | d :: rest =>
      refuse blank (dp_ID d) || blank (dp_Kind d) || bool_decide (dependency_key d ∈ seen) with ErrInvalidSkill;
      check_dependencies ({[dependency_key d]} ∪ seen) rest
  end.

Fixpoint check_compatibility (seen : gset string) (l : list Compatibility) : res skill_error unit :=
  match l with
  | [] => Ok tt
  | c :: rest =>
      refuse blank (cp_Contract c) || (cp_Minimum c <=? 0) || (negb (cp_Maximum c =? 0) && (cp_Maximum c <? cp_Minimum c))
             || bool_decide (compatibility_key c ∈ seen) with ErrInvalidSkill;
      check_compatibility ({[compatibility_key c]} ∪ seen) rest
  end.

Definition Descriptor_Validate (d : Descriptor) : res skill_error unit :=
  refuse negb (sd_SchemaVersion d =? SchemaVersion) || blank (sd_ID d) || (sd_Revision d =? 0) || blank (sd_Name d)
         || blank (sd_Description d) || negb (SafeRelativePath (sd_Directory d)) with ErrInvalidSkill;
  try seen <- check_dependencies ∅ (sd_Dependencies d);
  check_compatibility seen (sd_Compatibility d).

Record File := { fl_Path : string; fl_SHA256 : string; fl_Data : list byte }.

Definition NewFile (name : string) (data : list byte) : File :=
  {| fl_Path := name; fl_SHA256 := SHA256Hex data; fl_Data := data |}.

Record Package := { pg_Descriptor : Descriptor; pg_Files : list File }.

Definition lower (s : string) : string := String.string_of_list_ascii (lower_ascii <$> String.list_ascii_of_string s).

(** [strings.EqualFold] with a text of hexadecimal digits, whose only case variants are ASCII letters. *)
Definition same_digest (text digest : string) : bool := same_str (lower text) (lower digest).

Definition intact (f : File) : bool :=
  Nat.eqb (String.length (fl_SHA256 f)) 64 && same_digest (fl_SHA256 f) (SHA256Hex (fl_Data f)).

Fixpoint check_files (seen : gset string) (instructions : bool) (l : list File) : res skill_error bool :=
  match l with
  | [] => Ok instructions
  | f :: rest =>
      refuse negb (SafeRelativePath (fl_Path f)) || bool_decide (fl_Path f ∈ seen) with ErrInvalidSkill;
      refuse negb (intact f) with ErrIntegrity;
      check_files ({[fl_Path f]} ∪ seen) (instructions || same_str (fl_Path f) "SKILL.md") rest
  end.

Definition Package_Validate (p : Package) : res skill_error unit :=
  try _ <- Descriptor_Validate (pg_Descriptor p);
  try instructions <- check_files ∅ false (pg_Files p);
  refuse negb instructions with ErrInvalidSkill;
  Ok tt.

(** ** Installation *)

Inductive Activation := ActivationActive | ActivationDormant.
Record InstalledState := { is_Installed : bool; is_Activation : Activation; is_Missing : list Dependency }.

Definition ResolveInstalledState (d : Descriptor) (available : option (Dependency -> bool)) : res skill_error InstalledState :=
  match Descriptor_Validate d, available with
  | Ok _, Some available =>
      let missing := List.filter (fun x => negb (available x)) (sd_Dependencies d) in
      Ok {| is_Installed := true;
            is_Activation := if negb (sd_DesiredActive d) || (0 <? len missing) then ActivationDormant else ActivationActive;
            is_Missing := missing |}
  | _, _ => Err ErrInvalidSkill
  end.

(** ** Bounded transfers *)

Record TransferBounds := { tb_MaxSkills : Z; tb_MaxFiles : Z; tb_MaxBytes : Z }.

Fixpoint count_files (b : TransferBounds) (files bytes : Z) (l : list File) : res skill_error (Z * Z) :=
  match l with
  | [] => Ok (files, bytes)
  | f :: rest =>
      let files := u64 (files + 1) in
      refuse (tb_MaxFiles b <? files) || (u64 (tb_MaxBytes b - bytes) <? len (fl_Data f)) with ErrTransferBounds;
      count_files b files (u64 (bytes + len (fl_Data f))) rest
  end.

Fixpoint check_packages (b : TransferBounds) (files bytes : Z) (directories ids : gset string) (l : list Package)
    : res skill_error unit :=
  match l with
  | [] => Ok tt
  | p :: rest =>
      try _ <- Package_Validate p;
      let d := pg_Descriptor p in
      refuse bool_decide (sd_Directory d ∈ directories) || bool_decide (sd_ID d ∈ ids) with ErrInvalidSkill;
      try used <- count_files b files bytes (pg_Files p);
      check_packages b used.1 used.2 ({[sd_Directory d]} ∪ directories) ({[sd_ID d]} ∪ ids) rest
  end.

Definition ValidatePackages (packages : list Package) (b : TransferBounds) : res skill_error unit :=
  refuse (tb_MaxSkills b =? 0) || (tb_MaxFiles b =? 0) || (tb_MaxBytes b =? 0) || (tb_MaxSkills b <? len packages)
    with ErrTransferBounds;
  check_packages b 0 0 ∅ ∅ packages.

(** ** Selection records *)

Definition SurfaceInteraction := "interaction".
Definition SurfaceOrient := "orient".
Definition SurfacePlan := "plan".
Definition SurfaceReflection := "reflection".

Record SkillReference := { rf_ID : string; rf_Revision : Z }.

Record SelectionRecord := {
  sl_SchemaVersion : Z;
  sl_TaskReference : string;
  sl_Surface : string;
  sl_Selected : option SkillReference;
  sl_Alternatives : list SkillReference;
  sl_Summary : string;
  sl_Outcome : string;
}.

Definition validSurface (s : string) : bool :=
  same_str s SurfaceInteraction || same_str s SurfaceOrient || same_str s SurfacePlan || same_str s SurfaceReflection.

Definition named (r : SkillReference) : bool := negb (empty_str (rf_ID r)) && negb (rf_Revision r =? 0).

Definition SelectionRecord_Validate (r : SelectionRecord) : res skill_error unit :=
  refuse negb (sl_SchemaVersion r =? SchemaVersion) || blank (sl_TaskReference r) || blank (sl_Summary r)
         || negb (validSurface (sl_Surface r)) with ErrInvalidSkill;
  refuse match sl_Selected r with Some s => negb (named s) | None => false end with ErrInvalidSkill;
  refuse negb (forallb named (sl_Alternatives r)) with ErrInvalidSkill;
  Ok tt.

(** ** Safe paths *)

(** An element that a path can have without leaving its directory. *)
Definition plain_element (e : string) : Prop :=
  e <> "" /\ e <> "." /\ e <> ".." /\ without slash e = true /\ without backslash e = true /\ without Ascii.zero e = true.

Lemma clean_step_plain rooted stack e : e <> "" -> e <> "." -> e <> ".." -> clean_step rooted stack e = e :: stack.
Proof.
  intros H1 H2 H3. unfold clean_step.
  by rewrite (proj2 (empty_str_false _) H1), (proj2 (same_str_false _ _) H2), (proj2 (same_str_false _ _) H3).
Qed.

Lemma clean_plain rooted els : forall stack,
  Forall (fun e => e <> "" /\ e <> "." /\ e <> "..") els -> foldl (clean_step rooted) stack els = rev els ++ stack.
Proof.
  induction els as [|e els IH]; intros stack H; [done|]. apply Forall_cons in H as [(H1 & H2 & H3) H]. simpl.
  rewrite clean_step_plain by done. rewrite IH by done. by rewrite <- app_assoc.
Qed.

(** What [Clean] leaves of a relative path: ".." elements, then plain ones. *)
Definition cleaned (stack : list string) : Prop :=
  exists ups names, stack = rev names ++ ups /\ Forall (fun e => e = "..") ups /\ Forall (fun e => e <> "" /\ e <> "." /\ e <> "..") names.

Lemma clean_step_cleaned stack e : cleaned stack -> cleaned (clean_step false stack e).
Proof.
  intros (ups & names & -> & Hu & Hn). unfold clean_step.
  destruct (empty_str e) eqn:E1, (same_str e ".") eqn:E2; simpl; [by exists ups, names..|].
  destruct (same_str e "..") eqn:E3.
  - destruct names as [|n names _] using rev_ind; simpl.
    + destruct ups as [|u ups].
      * exists [".."], []. split_and!; [done|by constructor|constructor].
      * inversion Hu; subst. simpl. exists (".." :: ".." :: ups), []. split_and!; [done|by constructor|constructor].
    + rewrite rev_app_distr. simpl. apply Forall_app in Hn as [Hn Hl]. inversion Hl as [|? ? (_ & _ & H3) _]; subst.
      rewrite (proj2 (same_str_false _ _) H3). by exists ups, names.
  - exists ups, (names ++ [e]). split_and!; [by rewrite rev_app_distr|done|]. apply Forall_app. split; [done|].
    constructor; [|constructor]. apply empty_str_false in E1. apply same_str_false in E2, E3. done.
Qed.

Lemma clean_elements_cleaned els : forall stack, cleaned stack -> cleaned (foldl (clean_step false) stack els).
Proof. induction els as [|e els IH]; intros stack H; [done|]. simpl. by apply IH, clean_step_cleaned. Qed.

Lemma clean_step_slash rooted stack e :
  without slash e = true -> forallb (without slash) stack = true -> forallb (without slash) (clean_step rooted stack e) = true.
Proof.
  intros He Hs. unfold clean_step. destruct (empty_str e || same_str e "."); [done|]. destruct (same_str e "..").
  - destruct stack as [|top rest]; [by destruct rooted|]. destruct (same_str top ".."); [done|].
    simpl in Hs. by apply andb_true_iff in Hs as [_ ?].
  - simpl. by rewrite He.
Qed.

Lemma clean_slash rooted els : forall stack,
  forallb (without slash) els = true -> forallb (without slash) stack = true ->
  forallb (without slash) (foldl (clean_step rooted) stack els) = true.
Proof.
  induction els as [|e els IH]; intros stack He Hs; [done|]. simpl in He. apply andb_true_iff in He as [He Hels].
  simpl. apply IH; [done|]. by apply clean_step_slash.
Qed.

Lemma forallb_rev {A} (p : A -> bool) l : forallb p (rev l) = forallb p l.
Proof. apply eq_true_iff_eq. rewrite !forallb_forall. by setoid_rewrite <- in_rev. Qed.

Lemma plain_split els : els <> [] -> Forall plain_element els -> split_on slash (join_on slash els) = els.
Proof.
  intros Hne H. apply split_on_join; [done|]. apply forallb_forall. intros e He%list_elem_of_In.
  rewrite Forall_forall in H. by destruct (H e He) as (_ & _ & _ & ? & _).
Qed.

Lemma not_rooted els : els <> [] -> Forall plain_element els ->
  join_on slash els <> "" /\ is_rooted (join_on slash els) = false.
Proof.
  intros Hne H. destruct els as [|e els]; [done|]. inversion H as [|? ? (He & _ & _ & Hs & _) _]; subst.
  destruct e as [|c e]; [done|]. unfold without in Hs. simpl in Hs. bool_props. destruct els; split; try done; simpl;
    by destruct (Ascii.eqb c slash).
Qed.

Lemma without_all c els : Ascii.eqb slash c = false -> Forall (fun e => without c e = true) els -> without c (join_on slash els) = true.
Proof. intros Hc H. rewrite without_join by done. apply forallb_forall. intros e He%list_elem_of_In. by apply (proj1 (Forall_forall _ _) H). Qed.

Lemma plain_forall els (P : string -> Prop) : Forall plain_element els -> (forall e, plain_element e -> P e) -> Forall P els.
Proof. intros H HP. apply (Forall_impl _ _ _ H HP). Qed.

Lemma safe_if_plain els : els <> [] -> Forall plain_element els -> SafeRelativePath (join_on slash els) = true.
Proof.
  intros Hne H. destruct (not_rooted els Hne H) as [Hv Hr]. unfold SafeRelativePath.
  rewrite (proj2 (empty_str_false _) Hv), Hr, !without_all;
    [|done|apply (plain_forall _ _ H); by intros e (?&?&?&?&?&?)|done|apply (plain_forall _ _ H); by intros e (?&?&?&?&?&?)]. simpl.
  assert (Hc : clean_elements false (join_on slash els) = els).
  { unfold clean_elements. rewrite plain_split by done. rewrite clean_plain, app_nil_r, rev_involutive; [done|].
    apply (plain_forall _ _ H). by intros e (?&?&?&?). }
  assert (HC : Clean (join_on slash els) = join_on slash els).
  { unfold Clean. rewrite (proj2 (empty_str_false _) Hv), Hr. cbv zeta. rewrite Hc. by destruct els. }
  rewrite HC. assert (Hhead : forall e rest, split_on slash (join_on slash els) = e :: rest -> e <> "." /\ e <> "..").
  { intros e rest. rewrite plain_split by done. intros ->. by inversion H as [|? ? (_&?&?&_)]; subst. }
  rewrite (proj2 (same_str_true _ _) eq_refl). simpl.
  assert (join_on slash els <> ".") as H1 by (intros E; rewrite E in Hhead; by destruct (Hhead "." [] eq_refl)).
  assert (join_on slash els <> "..") as H2 by (intros E; rewrite E in Hhead; by destruct (Hhead ".." [] eq_refl)).
  rewrite (proj2 (same_str_false _ _) H1), (proj2 (same_str_false _ _) H2). simpl. apply negb_true_iff, not_true_iff_false.
  intros (t & Et)%prefix_app. rewrite Et in Hhead. change ("../" +:+ t) with (".." +:+ String slash t) in Hhead.
  rewrite split_on_cons in Hhead by done. by destruct (Hhead _ _ eq_refl).
Qed.

Lemma ups_first ups (names : list string) :
  ups <> [] -> Forall (fun e => e = "..") ups -> exists rest, rev ups ++ names = ".." :: rest.
Proof.
  intros Hne H. destruct (rev ups) as [|x l] eqn:E; [apply (f_equal (@rev string)) in E; rewrite rev_involutive in E; done|].
  exists (l ++ names). simpl. f_equal. apply (proj1 (Forall_forall _ _) H), list_elem_of_In, in_rev. rewrite E. by left.
Qed.

Lemma plain_if_safe v : SafeRelativePath v = true -> exists els, els <> [] /\ v = join_on slash els /\ Forall plain_element els.
Proof.
  unfold SafeRelativePath. destruct (_ || _) eqn:E; [done|]. apply orb_false_iff in E as [E Hz]. apply orb_false_iff in E as [E Hr].
  apply orb_false_iff in E as [Hv Hb]. apply negb_false_iff in Hz, Hb. intros H. cbv zeta in H.
  apply andb_true_iff in H as [H Hup]. apply andb_true_iff in H as [H Hdd]. apply andb_true_iff in H as [H Hd].
  apply negb_true_iff in Hup, Hdd, Hd. apply same_str_true in H. rewrite H in Hup, Hdd, Hd. apply same_str_false in Hd, Hdd.
  unfold Clean in H. rewrite Hv, Hr in H. cbv zeta in H. set (els := clean_elements false v) in H.
  assert (Hs : forallb (without slash) els = true).
  { unfold els, clean_elements. rewrite forallb_rev. apply clean_slash; [apply split_on_without|done]. }
  destruct (clean_elements_cleaned (split_on slash v) []) as (ups & names & Hst & Hu & Hn); [by exists [], []|].
  assert (Hels : els = rev ups ++ names).
  { unfold els, clean_elements. rewrite Hst, rev_app_distr, rev_involutive. done. }
  assert (Hne : els <> []) by (intros En; by rewrite En in H).
  replace (match els with [] => "." | _ => join_on slash els end) with (join_on slash els) in H by (by destruct els).
  assert (ups = []) as ->.
  { destruct (decide (ups = [])) as [|Hups]; [done|]. exfalso. destruct (ups_first ups names Hups Hu) as ([|r rest] & Er).
    - rewrite Er in Hels. rewrite Hels in H. by symmetry in H.
    - rewrite Er in Hels. rewrite Hels in H. apply not_true_iff_false in Hup. apply Hup, prefix_app. exists (join_on slash (r :: rest)). by rewrite <- H. }
  simpl in Hels. exists els. split_and!; [done..|]. apply Forall_forall. intros e He.
  rewrite Hels in He. rewrite Forall_forall in Hn. destruct (Hn e He) as (? & ? & ?). rewrite <- Hels in He. apply list_elem_of_In in He.
  rewrite <- H, without_join in Hb, Hz by done. rewrite forallb_forall in Hs, Hb, Hz. split_and!; auto.
Qed.

(** A path is safe exactly when it names a file below the directory it is resolved in: it consists of one or more
    elements, none of them empty, "." or "..", without a backslash or a NUL; and joined to any directory it only adds
    its elements to those of that directory. *)
Theorem safe_path_confined v :
  (SafeRelativePath v = true <-> exists els, els <> [] /\ v = join_on slash els /\ Forall plain_element els) /\
  (SafeRelativePath v = true -> forall rooted base,
     clean_elements rooted (base +:+ String slash v) = clean_elements rooted base ++ split_on slash v).
Proof.
  split; [split; [apply plain_if_safe|]; intros (els & Hne & -> & H); by apply safe_if_plain|].
  intros (els & Hne & -> & H)%plain_if_safe rooted base. rewrite (plain_split els) by done. unfold clean_elements.
  assert (Hsplit : split_on slash (base +:+ String slash (join_on slash els)) = split_on slash base ++ els).
  { rewrite <- (join_on_split slash base) at 1.
    assert (Hb := split_on_without slash base). assert (Hbn := split_on_nonempty slash base).
    induction (split_on slash base) as [|b [|b' bs] IH]; [done| |].
    - simpl in Hb. bool_props. simpl. rewrite split_on_cons by done. by rewrite (plain_split els).
    - simpl in Hb. bool_props. change (join_on slash (b :: b' :: bs)) with (b +:+ String slash (join_on slash (b' :: bs))).
      rewrite string_append_assoc. change (String slash (join_on slash (b' :: bs)) +:+ String slash (join_on slash els))
        with (String slash (join_on slash (b' :: bs) +:+ String slash (join_on slash els))).
      rewrite split_on_cons by done. rewrite IH; [done|simpl; by rewrite !andb_true_iff|done]. }
  rewrite Hsplit, foldl_app, clean_plain, rev_app_distr, rev_involutive; [done|].
  apply (plain_forall _ _ H). by intros e (?&?&?&_).
Qed.

(** ** Packages *)

Lemma check_files_ok l : forall seen ins b,
  check_files seen ins l = Ok b <->
  Forall (fun f => SafeRelativePath (fl_Path f) = true /\ intact f = true) l /\ NoDup (fl_Path <$> l) /\
  (forall f, f ∈ l -> fl_Path f ∉ seen) /\ b = ins || existsb (fun f => same_str (fl_Path f) "SKILL.md") l.
Proof.
  induction l as [|f l IH]; intros seen ins b; simpl.
  { rewrite orb_false_r. split; [intros [= ->]; split_and!; [done|constructor|set_solver|done]|by intros (_ & _ & _ & ->)]. }
  destruct (SafeRelativePath (fl_Path f)) eqn:Es; simpl; [|split; [done|intros ([[] _]%Forall_cons & _); congruence]].
  case_bool_decide as Hin; [split; [done|intros (_ & _ & H & _); exfalso; apply (H f); [left|done]]|].
  destruct (intact f) eqn:Ei; simpl; [|split; [done|intros ([[] _]%Forall_cons & _); congruence]].
  rewrite IH, orb_assoc, Forall_cons, NoDup_cons. split.
  - intros (Hf & Hnd & Hs & ->). split_and!; try done.
    + intros (g & Hg & Hgl)%list_elem_of_fmap. apply (Hs g Hgl). set_solver.
    + intros g [->|Hg]%elem_of_cons; [done|]. specialize (Hs g Hg). set_solver.
  - intros ((_ & Hf) & (Hni & Hnd) & Hs & ->). split_and!; try done. intros g Hg [Heq%elem_of_singleton|Hg']%elem_of_union.
    + apply Hni. rewrite <- Heq. by apply list_elem_of_fmap_2.
    + apply (Hs g); [by right|done].
Qed.

(** A package that may be installed. *)
Definition sound (p : Package) : Prop :=
  Descriptor_Validate (pg_Descriptor p) = Ok tt /\ NoDup (fl_Path <$> pg_Files p) /\ "SKILL.md" ∈ fl_Path <$> pg_Files p /\
  Forall (fun f => SafeRelativePath (fl_Path f) = true /\ intact f = true) (pg_Files p).

Lemma Package_Validate_ok p : Package_Validate p = Ok tt <-> sound p.
Proof.
  assert (Hi : existsb (fun f => same_str (fl_Path f) "SKILL.md") (pg_Files p) = true <-> "SKILL.md" ∈ fl_Path <$> pg_Files p).
  { rewrite existsb_exists, list_elem_of_fmap. setoid_rewrite same_str_true. setoid_rewrite list_elem_of_In. naive_solver. }
  unfold Package_Validate, sound. destruct (Descriptor_Validate (pg_Descriptor p)) as [[]|e]; simpl; [|split; [done|by intros (? & _)]].
  destruct (check_files ∅ false (pg_Files p)) as [b|e] eqn:Ec; simpl.
  - apply check_files_ok in Ec as (Hf & Hnd & _ & ->). simpl. destruct (existsb _ _) eqn:Ee; simpl; split; try done.
    + intros _. split_and!; try done. by apply Hi.
    + intros (_ & _ & H & _). by apply Hi in H.
  - split; [done|]. intros (_ & Hnd & H & Hf). apply Hi in H.
    assert (check_files ∅ false (pg_Files p) = Ok true) as E; [|congruence]. apply check_files_ok. split_and!; [done|done|set_solver|by rewrite H].
Qed.

Definition file_bytes (l : list File) : Z := foldr (fun f n => len (fl_Data f) + n) 0 l.

Lemma file_bytes_nonneg l : 0 <= file_bytes l.
Proof. induction l as [|f l IH]; simpl; [done|]. pose proof (len_nonneg (fl_Data f)). lia. Qed.

Lemma file_bytes_app l k : file_bytes (l ++ k) = file_bytes l + file_bytes k.
Proof. induction l as [|f l IH]; simpl; lia. Qed.

Lemma count_files_spec b l : forall files bytes,
  0 <= files <= tb_MaxFiles b -> 0 <= bytes <= tb_MaxBytes b -> tb_MaxFiles b < 2 ^ 64 -> tb_MaxBytes b < 2 ^ 64 ->
  files + len l < 2 ^ 64 ->
  count_files b files bytes l =
    if (files + len l <=? tb_MaxFiles b) && (bytes + file_bytes l <=? tb_MaxBytes b)
    then Ok (files + len l, bytes + file_bytes l) else Err ErrTransferBounds.
Proof.
  induction l as [|f l IH]; intros files bytes Hf Hb HF HB Hl; simpl.
  { rewrite !Z.add_0_r, !(proj2 (Z.leb_le _ _)) by lia. done. }
  assert (len (f :: l) = 1 + len l) as El by (unfold len; simpl; lia). rewrite El in *.
  pose proof (len_nonneg l). pose proof (len_nonneg (fl_Data f)). pose proof (file_bytes_nonneg l).
  rewrite (u64_small (files + 1)), (u64_small (_ - _)) by lia.
  destruct (tb_MaxFiles b <? files + 1) eqn:E1; simpl.
  { apply Z.ltb_lt in E1. by rewrite (proj2 (Z.leb_gt (files + (1 + len l)) _)) by lia. }
  destruct (tb_MaxBytes b - bytes <? len (fl_Data f)) eqn:E2.
  { apply Z.ltb_lt in E2. by rewrite (proj2 (Z.leb_gt (bytes + _) _)), andb_false_r by lia. }
  apply Z.ltb_ge in E1, E2. rewrite (u64_small (bytes + _)) by lia. rewrite IH by lia.
  replace (files + 1 + len l) with (files + (1 + len l)) by lia.
  by replace (bytes + len (fl_Data f) + file_bytes l) with (bytes + (len (fl_Data f) + file_bytes l)) by lia.
Qed.

Definition all_files (l : list Package) : list File := l ≫= pg_Files.

Lemma check_packages_ok b l : forall files bytes dirs ids,
  0 <= files <= tb_MaxFiles b -> 0 <= bytes <= tb_MaxBytes b -> tb_MaxFiles b < 2 ^ 64 -> tb_MaxBytes b < 2 ^ 64 ->
  files + len (all_files l) < 2 ^ 64 ->
  check_packages b files bytes dirs ids l = Ok tt <->
  Forall sound l /\ NoDup (sd_Directory ∘ pg_Descriptor <$> l) /\ NoDup (sd_ID ∘ pg_Descriptor <$> l) /\
  (forall p, p ∈ l -> sd_Directory (pg_Descriptor p) ∉ dirs /\ sd_ID (pg_Descriptor p) ∉ ids) /\
  files + len (all_files l) <= tb_MaxFiles b /\ bytes + file_bytes (all_files l) <= tb_MaxBytes b.
Proof.
  induction l as [|p l IH]; intros files bytes dirs ids Hf Hb HF HB Hl.
  { simpl. split; [|done]. intros _. split_and!; [constructor|constructor|constructor|set_solver|unfold len; simpl; lia|simpl; lia]. }
  unfold all_files in *. rewrite bind_cons in *. rewrite len_app in *. rewrite file_bytes_app.
  pose proof (len_nonneg (pg_Files p)). pose proof (len_nonneg (l ≫= pg_Files)).
  pose proof (file_bytes_nonneg (pg_Files p)). pose proof (file_bytes_nonneg (l ≫= pg_Files)).
  cbn [check_packages]. pose proof (Package_Validate_ok p) as HV. destruct (Package_Validate p) as [[]|e]; cbn [res_bind].
  2: { split; [done|]. intros (H' & _). inversion H' as [|? ? Hp]. by apply HV in Hp. }
  do 2 (case_bool_decide; cbn [orb]; [split; [done|]; intros (_ & _ & _ & Hfree & _); destruct (Hfree p); [by left|done]|]).
  rewrite count_files_spec by lia.
  destruct (files + len (pg_Files p) <=? tb_MaxFiles b) eqn:E1; cbn [andb res_bind]; [|apply Z.leb_gt in E1; split; [done|intros (_ & _ & _ & _ & ? & _); lia]].
  destruct (bytes + file_bytes (pg_Files p) <=? tb_MaxBytes b) eqn:E2; cbn [andb res_bind fst snd]; [|apply Z.leb_gt in E2; split; [done|intros (_ & _ & _ & _ & _ & ?); lia]].
  apply Z.leb_le in E1, E2. rewrite IH by lia. rewrite !fmap_cons, !NoDup_cons, Forall_cons, !Z.add_assoc. split.
  - intros (Hs & Hd & Hi & Hfree & ? & ?). split_and!; try done.
    + by apply HV.
    + intros (q & Hq & Hin)%list_elem_of_fmap. destruct (Hfree q Hin). simpl in Hq. set_solver.
    + intros (q & Hq & Hin)%list_elem_of_fmap. destruct (Hfree q Hin). simpl in Hq. set_solver.
    + intros q [->|Hq]%elem_of_cons; [done|]. destruct (Hfree q Hq). set_solver.
  - intros ((_ & Hs) & (Hdn & Hd) & (Hin & Hi) & Hfree & ? & ?). split_and!; try done. intros q Hq.
    destruct (Hfree q); [by right|]. split; intros [Heq%elem_of_singleton|]%elem_of_union; try done.
    + apply Hdn, list_elem_of_fmap. by exists q.
    + apply Hin, list_elem_of_fmap. by exists q.
Qed.

(** A transfer of packages is accepted exactly when it is within its bounds (none of them zero, counted without
    wrap-around), no two packages share a directory or an identifier, and every package is sound: a valid descriptor,
    distinct safe paths with SKILL.md among them, and every file with the digest announced for it. *)
Theorem packages_accepted packages b :
  0 <= tb_MaxSkills b < 2 ^ 64 -> 0 <= tb_MaxFiles b < 2 ^ 64 -> 0 <= tb_MaxBytes b < 2 ^ 64 -> len (all_files packages) < 2 ^ 64 ->
  ValidatePackages packages b = Ok tt <->
  0 < tb_MaxSkills b /\ 0 < tb_MaxFiles b /\ 0 < tb_MaxBytes b /\ len packages <= tb_MaxSkills b /\
  len (all_files packages) <= tb_MaxFiles b /\ file_bytes (all_files packages) <= tb_MaxBytes b /\
  NoDup (sd_Directory ∘ pg_Descriptor <$> packages) /\ NoDup (sd_ID ∘ pg_Descriptor <$> packages) /\ Forall sound packages.
Proof.
  intros HS HF HB Hl. unfold ValidatePackages. destruct (_ || _) eqn:E.
  - split; [done|]. intros (? & ? & ? & ? & _). apply not_false_iff_true in E. destruct E.
    rewrite !orb_false_iff, !Z.eqb_neq, Z.ltb_ge. lia.
  - rewrite !orb_false_iff, !Z.eqb_neq, Z.ltb_ge in E. rewrite check_packages_ok by lia. rewrite !Z.add_0_l. split.
    + intros (? & ? & ? & _ & ? & ?). split_and!; try done; lia.
    + intros (? & ? & ? & ? & ? & ? & ? & ? & ?). split_and!; done || set_solver.
Qed.

(** A dependency of the kind "compat" and a compatibility requirement share their keys: a descriptor that depends on
    one and requires the contract of the same name is refused, although neither is repeated. *)
Theorem compat_keys_clash d c :
  dp_Kind d = "compat" -> dp_ID d = cp_Contract c ->
  forall x, sd_Dependencies x = [d] -> sd_Compatibility x = [c] -> Descriptor_Validate x = Err ErrInvalidSkill.
Proof.
  intros Hk Hi x Hd Hc. unfold Descriptor_Validate. destruct (_ || _); [done|]. rewrite Hd, Hc. simpl.
  destruct (_ || _ || _); [done|]. simpl. rewrite bool_decide_eq_true_2, orb_true_r; [done|].
  unfold dependency_key, compatibility_key. rewrite Hk, Hi. set_solver.
Qed.

(** An installed skill is active exactly when it is wanted and nothing it depends on is missing. *)
Lemma active_when_available d available st :
  ResolveInstalledState d (Some available) = Ok st ->
  (is_Activation st = ActivationActive <-> sd_DesiredActive d = true /\ Forall (fun x => available x = true) (sd_Dependencies d)) /\
  Forall (fun x => available x = false) (is_Missing st) /\ is_Missing st `sublist_of` sd_Dependencies d.
Proof.
  unfold ResolveInstalledState. destruct (Descriptor_Validate d); [|done]. intros [= <-]. simpl.
  assert (Hm : List.filter (fun x => negb (available x)) (sd_Dependencies d) = [] <-> Forall (fun x => available x = true) (sd_Dependencies d)).
  { induction (sd_Dependencies d) as [|x l IH]; simpl; [done|]. rewrite Forall_cons, <- IH. destruct (available x); simpl; [split; [done|by intros []]|split; [done|by intros []]]. }
  split_and!.
  - rewrite <- Hm. destruct (sd_DesiredActive d); simpl; [|split; [done|by intros []]].
    destruct (List.filter _ _) as [|x l]; [done|]. change (0 <? len (x :: l)) with true. split; [done|by intros []].
  - apply Forall_forall. intros x Hx. apply list_elem_of_In, filter_In in Hx as [_ Hx]. by apply negb_true_iff.
  - clear Hm. induction (sd_Dependencies d) as [|x l IH]; simpl; [done|]. destruct (negb (available x)); by constructor.
Qed.

(** ** An instance *)

Definition sample_package : Package :=
  {| pg_Descriptor := {| sd_SchemaVersion := 1; sd_ID := "notes"; sd_Revision := 1; sd_Name := "Notes"; sd_Description := "Takes notes";
       sd_Directory := "skills/notes"; sd_Dependencies := []; sd_Compatibility := []; sd_DesiredActive := true |};
     pg_Files := [NewFile "SKILL.md" (bytes_of "notes"); NewFile "lib/a.txt" (bytes_of "a")] |}.

Lemma packages_accepted_witness :
  Forall sound [sample_package] /\ ValidatePackages [sample_package; sample_package] {| tb_MaxSkills := 4; tb_MaxFiles := 4; tb_MaxBytes := 100 |} = Err ErrInvalidSkill.
Proof.
  split; [|vm_compute; reflexivity].
  apply (packages_accepted [sample_package] {| tb_MaxSkills := 4; tb_MaxFiles := 2; tb_MaxBytes := 6 |}); try (vm_compute; done).
Defined.
