(* ===== verification/Memory.v ===== *)
(** * Retained memories

    Core/Memory: the portable record of a memory and its validation (record.go),
    the choice of a provider (config.go), and what a provider and its callers
    agree on (provider.go): results, the rule for conflicting revisions, bounded
    copies of streams, and the budget shared by the readers of a transfer.  The
    budget's lock is released while a reader reads, so a read is two steps, and
    the reads of a transfer may interleave.  JSON and media types are read by the
    standard library, a parameter here. *)
From S2P Require Import Prelude GoStrings GoBytes Pulse.
From stdpp Require Import options.

Inductive memory_error :=
  ErrInvalidRecord | ErrInvalidConfiguration | ErrInvalidRequest | ErrInvalidResult | ErrConflict | ErrTransferLimit
| ErrUnencodable | StreamEOF | ErrShortWrite | Cancelled | StreamFailure | OutOfFuel.

#[global] Instance memory_error_eq : EqDecision memory_error.
Proof. solve_decision. Defined.

Definition RecordSchemaVersion : Z := 1.
Definition ContractVersion : Z := 1.
Definition MaxRecallLimit : Z := 1000.

(** ** Records *)

Definition TransportInline := "inline".
Definition TransportStream := "stream".

Record Source := { mr_Type : string; mr_Ref : string }.
Record Content := { mc_MediaType : string; mc_Transport : string; mc_Data : string; mc_Size : option Z }.
Record Metadata := {
  mm_Kind : string; mm_Subject : string; mm_Tags : list string; mm_Confidence : option float; mm_Extensions : gmap string string;
}.

Record MemoryRecord := {
  mr_SchemaVersion : Z;
  mr_ID : string;
  mr_Revision : Z;
  mr_CreatedAt : time;
  mr_ExperiencedAt : option time;
  mr_UpdatedAt : option time;
  mr_DerivedFrom : list string;
  mr_Source : Source;
  mr_Content : Content;
  mr_Metadata : Metadata;
}.

Record Reference := { mf_ID : string; mf_Revision : Z }.

#[global] Instance Reference_eq : EqDecision Reference.
Proof. solve_decision. Defined.

Definition Record_Reference (r : MemoryRecord) : Reference := {| mf_ID := mr_ID r; mf_Revision := mr_Revision r |}.

(** What the code asks of [encoding/json], [mime] and [utf8]. *)
Record texts := {
  tx_Valid : string -> bool;                 (* json.Valid *)
  tx_Text : string -> bool;                  (* a JSON string of valid UTF-8 *)
  tx_MediaType : string -> option string;    (* mime.ParseMediaType *)
  tx_Marshal : MemoryRecord -> option string;
}.

Section records.
Context (T : texts).

Definition Source_validate (s : Source) : res memory_error unit :=
  refuse blank (mr_Type s) with ErrInvalidRecord;
  refuse same_str (mr_Type s) "unknown" && negb (blank (mr_Ref s)) with ErrInvalidRecord;
  Ok tt.

Definition inline_ok (mediaType data : string) : bool :=
  if String.prefix "text/" mediaType then tx_Text T data else same_str mediaType "application/json".

Definition Content_validate (c : Content) : res memory_error unit :=
  match tx_MediaType T (mc_MediaType c) with
  | None => Err ErrInvalidRecord
  | Some mediaType =>
      refuse blank (mc_MediaType c) with ErrInvalidRecord;
      refuse match mc_Size c with Some n => n <? 0 | None => false end with ErrInvalidRecord;
      if same_str (mc_Transport c) TransportStream then
        refuse negb (empty_str (mc_Data c)) with ErrInvalidRecord; Ok tt
      else if same_str (mc_Transport c) TransportInline then
        refuse empty_str (mc_Data c) || negb (tx_Valid T (mc_Data c)) with ErrInvalidRecord;
        refuse negb (inline_ok mediaType (mc_Data c)) with ErrInvalidRecord; Ok tt
      else Err ErrInvalidRecord
  end.

Definition Metadata_validate (m : Metadata) : res memory_error unit :=
  refuse blank (mm_Kind m) with ErrInvalidRecord;
  refuse negb (empty_str (mm_Subject m)) && blank (mm_Subject m) with ErrInvalidRecord;
  refuse match mm_Confidence m with Some c => flt c f0 || flt f1 c | None => false end with ErrInvalidRecord;
  refuse existsb blank (mm_Tags m) with ErrInvalidRecord;
  refuse existsb (fun e : string * string => blank e.1 || negb (tx_Valid T e.2)) (map_to_list (mm_Extensions m)) with ErrInvalidRecord;
  Ok tt.

Fixpoint check_derived (id : string) (seen : gset string) (l : list string) : res memory_error unit :=
  match l with
  | [] => Ok tt
  | d :: rest =>
      let d := TrimSpace d in
      refuse empty_str d || same_str d id with ErrInvalidRecord;
      refuse bool_decide (d ∈ seen) with ErrInvalidRecord;
      check_derived id ({[d]} ∪ seen) rest
  end.

Definition Record_Validate (r : MemoryRecord) : res memory_error unit :=
  refuse negb (mr_SchemaVersion r =? RecordSchemaVersion) || blank (mr_ID r) || (mr_Revision r =? 0) || IsZero (mr_CreatedAt r)
    with ErrInvalidRecord;
  refuse match mr_UpdatedAt r with Some u => Before u (mr_CreatedAt r) | None => false end with ErrInvalidRecord;
  try _ <- Source_validate (mr_Source r);
  try _ <- Content_validate (mr_Content r);
  try _ <- Metadata_validate (mr_Metadata r);
  check_derived (mr_ID r) ∅ (mr_DerivedFrom r).

Definition EncodeRecord (r : MemoryRecord) : res memory_error string :=
  try _ <- Record_Validate r;
  match tx_Marshal T r with Some text => Ok text | None => Err ErrUnencodable end.

(** ** Results of a provider *)

Definition RememberStored := "stored".
Definition RememberTransformed := "transformed".
Definition RememberRejected := "rejected".

Record Transformation := { tf_Kind : string; tf_Description : string; tf_FromMediaType : string; tf_ToMediaType : string }.
Record RememberResult := {
  rr_Outcome : string; rr_Retained : option MemoryRecord; rr_Reason : string; rr_Transformation : option Transformation;
}.

Definition RememberResult_Validate (r : RememberResult) : res memory_error unit :=
  if same_str (rr_Outcome r) RememberStored then
    match rr_Retained r, rr_Transformation r with
    | Some record, None => Record_Validate record
    | _, _ => Err ErrInvalidResult
    end
  else if same_str (rr_Outcome r) RememberTransformed then
    match rr_Retained r, rr_Transformation r with
    | Some record, Some t => refuse blank (tf_Kind t) || blank (tf_Description t) with ErrInvalidResult; Record_Validate record
    | _, _ => Err ErrInvalidResult
    end
  else if same_str (rr_Outcome r) RememberRejected then
    match rr_Retained r, rr_Transformation r with
    | None, None => refuse empty_str (rr_Reason r) with ErrInvalidResult; Ok tt
    | _, _ => Err ErrInvalidResult
    end
  else Err ErrInvalidResult.

Record RecallRequest := { rq_Query : string; rq_Limit : Z; rq_Kinds : list string; rq_SourceTypes : list string }.

Definition RecallRequest_Validate (r : RecallRequest) : res memory_error unit :=
  refuse (rq_Limit r =? 0) || (MaxRecallLimit <? rq_Limit r) with ErrInvalidRequest; Ok tt.

Record RecallMatch := { ma_Reference : Reference; ma_Record : option MemoryRecord }.

Definition valid_match (m : RecallMatch) : bool :=
  negb (empty_str (mf_ID (ma_Reference m))) && negb (mf_Revision (ma_Reference m) =? 0) &&
  match ma_Record m with
  | Some r => is_ok (Record_Validate r) && bool_decide (Record_Reference r = ma_Reference m)
  | None => true
  end.

Definition RecallResult_Validate (matches : list RecallMatch) (request : RecallRequest) : res memory_error unit :=
  refuse negb (is_ok (RecallRequest_Validate request)) || (rq_Limit request <? len matches) with ErrInvalidResult;
  refuse negb (forallb valid_match matches) with ErrInvalidResult; Ok tt.

Inductive ImportDisposition := ImportStored | ImportTransformed | ImportIdempotent | ImportRejected.

(** The disposition is reported together with an error for a conflict. *)
Definition CompareImportRevision (existing incoming : MemoryRecord) : option ImportDisposition * option memory_error :=
  if negb (same_str (mr_ID existing) (mr_ID incoming)) then (None, Some ErrInvalidRequest)
  else if mr_Revision incoming <? mr_Revision existing then (Some ImportRejected, Some ErrConflict)
  else if mr_Revision existing <? mr_Revision incoming then (Some ImportStored, None)
  else match EncodeRecord existing with
       | Err e => (None, Some e)
       | Ok a =>
           match EncodeRecord incoming with
           | Err e => (None, Some e)
           | Ok b => if same_str a b then (Some ImportIdempotent, None) else (Some ImportRejected, Some ErrConflict)
           end
       end.

(** ** Configuration *)

Record ProviderReference := { pv_InstanceID : string; pv_ContractVersion : Z }.
Record Configuration := { cf_Active : string; cf_Providers : gmap string ProviderReference }.
Record ResolvedProvider := { rp_Name : string; rp_InstanceID : string; rp_ContractVersion : Z }.

Fixpoint check_providers (instances : gset string) (l : list (string * ProviderReference)) : res memory_error unit :=
  match l with
  | [] => Ok tt
  | (name, ref) :: rest =>
      refuse blank name || blank (pv_InstanceID ref) || negb (pv_ContractVersion ref =? ContractVersion)
             || bool_decide (pv_InstanceID ref ∈ instances) with ErrInvalidConfiguration;
      check_providers ({[pv_InstanceID ref]} ∪ instances) rest
  end.

(** [order] is the order in which the map of providers is visited. *)
Definition Configuration_Validate (c : Configuration) (order : list (string * ProviderReference)) : res memory_error unit :=
  if decide (cf_Providers c = ∅) then
    refuse negb (empty_str (cf_Active c)) with ErrInvalidConfiguration; Ok tt
  else
    match cf_Providers c !! cf_Active c with
    | None => Err ErrInvalidConfiguration
    | Some _ => check_providers ∅ order
    end.

Definition ResolveActive (c : Configuration) (order : list (string * ProviderReference)) : res memory_error (option ResolvedProvider) :=
  try _ <- Configuration_Validate c order;
  if empty_str (cf_Active c) then Ok None
  else match cf_Providers c !! cf_Active c with
       | Some ref => Ok (Some {| rp_Name := cf_Active c; rp_InstanceID := pv_InstanceID ref; rp_ContractVersion := pv_ContractVersion ref |})
       | None => Ok (Some {| rp_Name := cf_Active c; rp_InstanceID := ""; rp_ContractVersion := 0 |})
       end.

End records.

(** ** Bounded copies

    A source, a destination and a context are part of one world; a reader and a writer report how much they moved. *)

Definition copyBufferSize : Z := 32 * 1024.

Section copying.
Context {W : Type}.
Context (ctx_Err : W -> option memory_error)
        (ReadContext : Z -> W -> list byte * option memory_error * W)
        (WriteContext : list byte -> W -> Z * option memory_error * W).

Fixpoint copy_loop (fuel : nat) (maxBytes total : Z) (w : W) : Z * option memory_error * W :=
  match fuel with
  | O => (total, Some OutOfFuel, w)
  | S fuel =>
      match ctx_Err w with
      | Some e => (total, Some e, w)
      | None =>
          let remaining := u64 (maxBytes - total) in
          if remaining =? 0 then
            let '(data, err, w) := ReadContext 1 w in
            match data, err with
            | [], Some e => (total, if bool_decide (e = StreamEOF) then None else Some e, w)
            | _, _ => (total, Some ErrTransferLimit, w)
            end
          else
            let '(data, readErr, w) := ReadContext (Z.min copyBufferSize remaining) w in
            let '(total, stop, w) :=
              match data with
              | [] => (total, None, w)
              | _ =>
                  let '(written, writeErr, w) := WriteContext data w in
                  (u64 (total + written),
                   match writeErr with
                   | Some e => Some e
                   | None => if written =? len data then None else Some ErrShortWrite
                   end, w)
              end in
            match stop, readErr with
            | Some e, _ => (total, Some e, w)
            | None, Some e => (total, if bool_decide (e = StreamEOF) then None else Some e, w)
            | None, None => copy_loop fuel maxBytes total w
            end
      end
  end.

Definition CopyBounded (fuel : nat) (maxBytes : Z) (w : W) : Z * option memory_error * W :=
  if maxBytes =? 0 then (0, Some ErrInvalidRequest, w) else copy_loop fuel maxBytes 0 w.

End copying.

(** ** The budget of a transfer *)

Record TransferBudget := { bg_maxRecords : Z; bg_maxBytes : Z; bg_records : Z; bg_bytes : Z }.

Definition validateBounds (records bytes : Z) : res memory_error unit :=
  refuse (records =? 0) || (bytes =? 0) with ErrInvalidRequest; Ok tt.

Definition NewTransferBudget (maxRecords maxBytes : Z) : res memory_error TransferBudget :=
  try _ <- validateBounds maxRecords maxBytes;
  Ok {| bg_maxRecords := maxRecords; bg_maxBytes := maxBytes; bg_records := 0; bg_bytes := 0 |}.

Definition Usage (b : TransferBudget) : Z * Z := (bg_records b, bg_bytes b).
Definition hasRecordCapacity (b : TransferBudget) : bool := bg_records b <? bg_maxRecords b.

Definition put_usage (b : TransferBudget) (records bytes : Z) : TransferBudget :=
  {| bg_maxRecords := bg_maxRecords b; bg_maxBytes := bg_maxBytes b; bg_records := records; bg_bytes := bytes |}.

(** The part of [admit] under the lock. *)
Definition charge_envelope (b : TransferBudget) (envelope : Z) : res memory_error TransferBudget :=
  refuse (bg_records b =? bg_maxRecords b) || (u64 (bg_maxBytes b - bg_bytes b) <? envelope) with ErrTransferLimit;
  Ok (put_usage b (u64 (bg_records b + 1)) (u64 (bg_bytes b + envelope))).

(** [budgetReader.ReadContext] up to the call of the reader it wraps: either the budget is used up and the reader is
    probed for one byte, or at most the remaining bytes are reserved and asked for. *)
Inductive reading := Probe | Reserved (n : Z).

#[global] Instance reading_eq : EqDecision reading.
Proof. solve_decision. Defined.

Definition begin_read (b : TransferBudget) (want : Z) : reading * TransferBudget :=
  let remaining := u64 (bg_maxBytes b - bg_bytes b) in
  if remaining =? 0 then (Probe, b)
  else let n := Z.min want remaining in (Reserved n, put_usage b (bg_records b) (u64 (bg_bytes b + n))).

(** And after it: [n] and [err] are what that reader returned. *)
Definition end_read (b : TransferBudget) (r : reading) (n : Z) (err : option memory_error) : Z * option memory_error * TransferBudget :=
  match r with
  | Probe =>
      if (0 <? n) || bool_decide (err = None) then (0, Some ErrTransferLimit, b) else (0, err, b)
  | Reserved reserved =>
      if (n <? 0) || (reserved <? n) then (0, Some ErrInvalidResult, put_usage b (bg_records b) (u64 (bg_bytes b - reserved)))
      else (n, err, put_usage b (bg_records b) (u64 (bg_bytes b - u64 (reserved - n))))
  end.

Section transfers.
Context (T : texts) {Payload : Type}.

(** A payload is the stream a transfer came with, or that stream read through the budget. *)
Inductive stream := Plain (p : Payload) | Budgeted (reader : stream).
Record Transfer := { tr_Record : MemoryRecord; tr_Payload : option stream }.

Definition has_payload (t : Transfer) : bool := match tr_Payload t with Some _ => true | None => false end.

Definition Transfer_Validate (t : Transfer) : res memory_error unit :=
  try _ <- Record_Validate T (tr_Record t);
  refuse negb (Bool.eqb (same_str (mc_Transport (mr_Content (tr_Record t))) TransportStream) (has_payload t)) with ErrInvalidRequest;
  Ok tt.

(** A reader that is wrapped twice is charged twice. *)
Definition through_budget (s : stream) : stream := Budgeted s.

Definition TransferBudget_admit (b : TransferBudget) (t : Transfer) : res memory_error (Transfer * TransferBudget) :=
  try _ <- Transfer_Validate t;
  try envelope <- EncodeRecord T (tr_Record t);
  try b <- charge_envelope b (Z.of_nat (String.length envelope));
  Ok ({| tr_Record := tr_Record t; tr_Payload := through_budget <$> tr_Payload t |}, b).

(** The sink and the source of the caller act on a world of their own. *)
Definition Put {W} (ctx_err : option memory_error) (sink : Transfer -> W -> option memory_error * W) (t : Transfer) (b : TransferBudget) (w : W)
    : option memory_error * TransferBudget * W :=
  match ctx_err with
  | Some e => (Some e, b, w)
  | None =>
      match TransferBudget_admit b t with
      | Err e => (Some e, b, w)
      | Ok (bounded, b) => let '(e, w) := sink bounded w in (e, b, w)
      end
  end.

Definition Next {W} (ctx_err : option memory_error) (source : W -> res memory_error Transfer * W) (b : TransferBudget) (w : W)
    : res memory_error Transfer * TransferBudget * W :=
  match ctx_err with
  | Some e => (Err e, b, w)
  | None =>
      if negb (hasRecordCapacity b) then (Err ErrTransferLimit, b, w)
      else let '(out, w) := source w in
           match out with
           | Err e => (Err e, b, w)
           | Ok t => match TransferBudget_admit b t with
                     | Err e => (Err e, b, w)
                     | Ok (bounded, b) => (Ok bounded, b, w)
                     end
           end
  end.

End transfers.
Arguments stream : clear implicits.
Arguments Transfer : clear implicits.

(** ** Reads that share a budget

    A state has the reads in progress, what was admitted and what was handed on; a transfer may admit records and read
    several streams at once. *)

Record sharing := {
  sh_budget : TransferBudget;
  sh_reads : gmap nat reading;
  sh_admitted : Z;       (* records admitted *)
  sh_envelopes : Z;      (* bytes of their envelopes *)
  sh_delivered : Z;      (* payload bytes handed to the consumers *)
}.

Definition sharing_of (b : TransferBudget) : sharing :=
  {| sh_budget := b; sh_reads := ∅; sh_admitted := 0; sh_envelopes := 0; sh_delivered := 0 |}.

Inductive share_step : relation sharing :=
  | step_admit s envelope b :
      0 <= envelope < 2 ^ 64 -> charge_envelope (sh_budget s) envelope = Ok b ->
      share_step s {| sh_budget := b; sh_reads := sh_reads s; sh_admitted := sh_admitted s + 1;
                      sh_envelopes := sh_envelopes s + envelope; sh_delivered := sh_delivered s |}
  | step_begin s g want r b :
      sh_reads s !! g = None -> 0 <= want < 2 ^ 63 -> begin_read (sh_budget s) want = (r, b) ->
      share_step s {| sh_budget := b; sh_reads := <[g := r]> (sh_reads s); sh_admitted := sh_admitted s;
                      sh_envelopes := sh_envelopes s; sh_delivered := sh_delivered s |}
  | step_end s g r n err n' err' b :
      sh_reads s !! g = Some r -> - 2 ^ 63 <= n < 2 ^ 63 -> end_read (sh_budget s) r n err = (n', err', b) ->
      share_step s {| sh_budget := b; sh_reads := delete g (sh_reads s); sh_admitted := sh_admitted s;
                      sh_envelopes := sh_envelopes s; sh_delivered := sh_delivered s + n' |}.

Definition held (r : reading) : Z := match r with Probe => 0 | Reserved n => n end.
Definition reserved_by (m : gmap nat reading) : Z := map_fold (fun _ r n => held r + n) 0 m.

Lemma reserved_insert m g r : m !! g = None -> reserved_by (<[g := r]> m) = held r + reserved_by m.
Proof. intros H. apply (map_fold_insert_L (fun _ r n => held r + n)); [intros; lia|done]. Qed.

Lemma reserved_delete m g r : m !! g = Some r -> reserved_by m = held r + reserved_by (delete g m).
Proof. intros H. apply (map_fold_delete_L (fun _ r n => held r + n)); [intros; lia|done]. Qed.

Lemma reserved_nonneg m : map_Forall (fun _ r => 0 <= held r) m -> 0 <= reserved_by m.
Proof.
  induction m as [|g r m Hg IH] using map_ind; intros H; [by unfold reserved_by; rewrite map_fold_empty|].
  apply map_Forall_insert in H as [Hr H]; [|done]. rewrite reserved_insert by done. specialize (IH H). lia.
Qed.

(** What is charged is what was admitted, handed on, or is reserved. *)
Definition accounted (s : sharing) : Prop :=
  let b := sh_budget s in
  0 <= bg_maxRecords b < 2 ^ 64 /\ 0 <= bg_maxBytes b < 2 ^ 64 /\
  bg_records b = sh_admitted s /\ 0 <= sh_admitted s <= bg_maxRecords b /\
  bg_bytes b = sh_envelopes s + sh_delivered s + reserved_by (sh_reads s) /\ bg_bytes b <= bg_maxBytes b /\
  0 <= sh_envelopes s /\ 0 <= sh_delivered s /\ map_Forall (fun _ r => 0 <= held r) (sh_reads s).

#[global] Instance accounted_kept : Preserves share_step accounted.
Proof.
  intros s s' H (HR & HB & Hr & Hrm & Hb & Hbm & He & Hd & Hh). pose proof (reserved_nonneg _ Hh) as Hn.
  destruct H as [s envelope b Hv H|s g want r b Hg Hw H|s g r n err n' err' b Hg Hv H].
  - unfold charge_envelope in H. destruct (_ || _) eqn:E; [done|]. injection H as <-. bool_props.
    rewrite u64_small in * by lia. unfold accounted. simpl. rewrite !u64_small by lia. split_and!; try done; lia.
  - unfold begin_read in H. rewrite u64_small in H by lia. destruct (_ =? 0) eqn:E; injection H as <- <-; bool_props; unfold accounted; simpl.
    + rewrite reserved_insert by done. split_and!; try done; try (simpl; lia). by apply map_Forall_insert_2.
    + rewrite reserved_insert, u64_small by (done || lia). split_and!; try done; try (simpl; lia).
      apply map_Forall_insert_2; [simpl; lia|done].
  - assert (Hr0 : 0 <= held r) by (by apply (Hh g)). rewrite (reserved_delete _ g r Hg) in Hb.
    assert (Hh' : map_Forall (fun _ r => 0 <= held r) (delete g (sh_reads s))) by (by apply map_Forall_delete).
    pose proof (reserved_nonneg _ Hh') as Hn'. unfold end_read in H. destruct r as [|k]; simpl in *.
    + destruct (_ || _); injection H as <- <- <-; unfold accounted; simpl; split_and!; try done; lia.
    + destruct (_ || _) eqn:E; injection H as <- <- <-; bool_props; unfold accounted; simpl; rewrite !u64_small by (rewrite ?u64_small; lia);
        split_and!; try done; lia.
Qed.

(** C37: a budget is never exceeded.  However admissions and reads of shared streams interleave, and whatever the readers
    return, counts outside their buffers included: at most the allowed records are admitted, their envelopes and the
    payload handed on stay within the allowed bytes, and once no read is in progress the usage is exactly what was
    admitted and handed on. *)
Theorem budget_never_exceeded maxRecords maxBytes b s :
  0 <= maxRecords < 2 ^ 64 -> 0 <= maxBytes < 2 ^ 64 -> NewTransferBudget maxRecords maxBytes = Ok b ->
  rtc share_step (sharing_of b) s ->
  sh_admitted s <= maxRecords /\ sh_envelopes s + sh_delivered s <= maxBytes /\
  (sh_reads s = ∅ -> Usage (sh_budget s) = (sh_admitted s, sh_envelopes s + sh_delivered s)).
Proof.
  intros HR HB Hb H. unfold NewTransferBudget, validateBounds in Hb. destruct (_ || _); [done|]. injection Hb as <-.
  assert (Hmax : forall s s', rtc share_step s s' ->
    bg_maxRecords (sh_budget s') = bg_maxRecords (sh_budget s) /\ bg_maxBytes (sh_budget s') = bg_maxBytes (sh_budget s)).
  { clear. intros s s' H. induction H as [|s s1 s2 H _ IH]; [done|]. destruct IH as [-> ->].
    destruct H as [s envelope b _ H|s g want r b _ _ H|s g r n err n' err' b _ _ H]; simpl;
      [unfold charge_envelope in H|unfold begin_read in H|unfold end_read in H]; repeat case_match; by simplify_eq. }
  destruct (Hmax _ _ H) as [HmR HmB]. simpl in HmR, HmB.
  apply (reachable_keeps accounted) in H as (_ & _ & Hr & Hrm & Hby & Hbm & He & Hd & Hh).
  - pose proof (reserved_nonneg _ Hh). rewrite HmR in Hrm. rewrite HmB in Hbm. split_and!; [lia|lia|]. intros Hnone. unfold Usage.
    rewrite Hr, Hby, Hnone. unfold reserved_by. rewrite map_fold_empty. f_equal. lia.
  - unfold accounted, sharing_of, reserved_by. simpl. rewrite map_fold_empty. split_and!; try done; try lia.
Qed.

(** A reservation can starve another reader: a second read of two shared streams is told that the limit is exceeded,
    and loses a byte, while nothing has been read yet. *)
Theorem reservation_starves :
  exists b s s', NewTransferBudget 2 10 = Ok b /\ rtc share_step (sharing_of b) s /\ share_step s s' /\
    sh_envelopes s + sh_delivered s = 0 /\ (end_read (sh_budget s) Probe 1 None).1 = (0, Some ErrTransferLimit).
Proof.
  set (b := {| bg_maxRecords := 2; bg_maxBytes := 10; bg_records := 0; bg_bytes := 0 |}).
  exists b. eexists _, _. split; [done|]. split; [|split; [|split]].
  - eapply rtc_l; [apply (step_begin _ 0%nat 10 (Reserved 10) (put_usage b 0 10)); [done|lia|done]|].
    eapply rtc_l; [apply (step_begin _ 1%nat 10 Probe (put_usage b 0 10)); [done|lia|done]|]. apply rtc_refl.
  - eapply (step_end _ 1%nat Probe 1 None); [reflexivity|lia|reflexivity].
  - done.
  - done.
Qed.

(** ** Copies

    What a lawful source and destination promise: a read gives a prefix of what is left, at most as much as was asked
    for, and is never empty without an error; a write takes everything. *)

Class Streams {W : Type} (ReadContext : Z -> W -> list byte * option memory_error * W)
    (WriteContext : list byte -> W -> Z * option memory_error * W) := {
  content : W -> list byte;
  written : W -> list byte;
  read_law k w : 0 < k ->
    let '(data, err, w') := ReadContext k w in
    len data <= k /\ content w = data ++ content w' /\ written w' = written w /\
    ((err = None /\ data <> []) \/ (err = Some StreamEOF /\ content w' = []));
  write_law data w :
    let '(n, err, w') := WriteContext data w in
    n = len data /\ err = None /\ content w' = content w /\ written w' = written w ++ data;
}.

Section lawful.
Context {W : Type} (ReadContext : Z -> W -> list byte * option memory_error * W)
        (WriteContext : list byte -> W -> Z * option memory_error * W) `{!Streams ReadContext WriteContext}.

Notation loop := (copy_loop (fun _ => None) ReadContext WriteContext).

(** What copying [data] under a bound leaves: everything, or the bound and an error. *)
Definition copied (maxBytes total : Z) (data : list byte) (before : list byte) (out : Z * option memory_error * W) : Prop :=
  let '(n, err, w') := out in
  if decide (total + len data <= maxBytes) then n = total + len data /\ err = None /\ written w' = before ++ data
  else n = maxBytes /\ err = Some ErrTransferLimit /\ written w' = before ++ take (Z.to_nat (maxBytes - total)) data.

Lemma copied_more maxBytes total data rest before out :
  total + len data <= maxBytes -> 0 <= total ->
  copied maxBytes (total + len data) rest (before ++ data) out -> copied maxBytes total (data ++ rest) before out.
Proof.
  intros Hle Ht. unfold copied. destruct out as [[n err] w']. rewrite len_app, Z.add_assoc. pose proof (len_nonneg data).
  destruct (decide _) as [H'|H']; rewrite <- ?app_assoc; [done|]. intros (-> & -> & ->). split_and!; [done..|].
  f_equal. rewrite take_app. f_equal; [|f_equal; unfold len in *; lia].
  symmetry. apply take_ge. unfold len in *. lia.
Qed.

Lemma copy_loop_exact maxBytes fuel : forall total w,
  0 <= total <= maxBytes -> maxBytes < 2 ^ 64 -> (length (content w) < fuel)%nat ->
  copied maxBytes total (content w) (written w) (loop fuel maxBytes total w).
Proof.
  induction fuel as [|fuel IH]; intros total w Ht Hm Hf; [lia|]. cbn [copy_loop]. rewrite u64_small by lia.
  destruct (maxBytes - total =? 0) eqn:E.
  - apply Z.eqb_eq in E. pose proof (read_law 1 w ltac:(lia)) as Hr. destruct (ReadContext 1 w) as [[data err] w'].
    destruct Hr as (_ & Hc & Hw & Hcase). unfold copied. destruct data as [|x data].
    + destruct Hcase as [[_ ?]|[-> Hc']]; [done|]. rewrite Hc, Hc'. simpl. rewrite ?bool_decide_eq_true_2 by done.
      rewrite decide_True by (unfold len; simpl; lia). unfold len. simpl. rewrite app_nil_r. split_and!; [lia|done..].
    + rewrite Hc. rewrite decide_False by (unfold len; simpl; lia). replace (Z.to_nat (maxBytes - total)) with 0%nat by lia.
      rewrite take_0, app_nil_r. destruct err; split_and!; done || lia.
  - apply Z.eqb_neq in E. set (k := Z.min copyBufferSize (maxBytes - total)).
    assert (0 < k <= maxBytes - total) as Hk by (unfold k, copyBufferSize; lia).
    pose proof (read_law k w (proj1 Hk)) as Hr. destruct (ReadContext k w) as [[data err] w1]. destruct Hr as (Hl & Hc & Hw & Hcase).
    destruct data as [|x data].
    + destruct Hcase as [[_ ?]|[-> Hc']]; [done|]. rewrite Hc, Hc'. simpl. rewrite ?bool_decide_eq_true_2 by done.
      unfold copied. rewrite decide_True by (unfold len; simpl; lia). unfold len. simpl. rewrite app_nil_r. split_and!; [lia|done..].
    + pose proof (write_law (x :: data) w1) as Hwr. destruct (WriteContext (x :: data) w1) as [[n werr] w2].
      destruct Hwr as (-> & -> & Hc2 & Hw2). rewrite Z.eqb_refl. pose proof (len_nonneg (x :: data)). rewrite u64_small by lia.
      rewrite Hc. apply copied_more; [lia|lia|]. rewrite <- Hw, <- Hw2, <- Hc2. destruct Hcase as [[-> _]|[-> Hend]].
      * apply IH; [lia|done|]. rewrite Hc, length_app in Hf. rewrite Hc2. simpl in Hf. lia.
      * rewrite ?bool_decide_eq_true_2 by done. unfold copied. rewrite Hc2, Hend. rewrite decide_True by (unfold len at 2; simpl; lia).
        rewrite app_nil_r. unfold len at 3. simpl. split_and!; [lia|done..].
Qed.

(** A bounded copy is exact and ends.  From a lawful source to a lawful destination, with one round per byte to spare,
    everything is copied if it fits; otherwise exactly the bound is copied, and the excess is reported. *)
Theorem copy_exact maxBytes fuel w :
  0 < maxBytes < 2 ^ 64 -> (length (content w) < fuel)%nat ->
  copied maxBytes 0 (content w) (written w) (CopyBounded (fun _ => None) ReadContext WriteContext fuel maxBytes w).
Proof.
  intros Hm Hf. unfold CopyBounded. rewrite (proj2 (Z.eqb_neq maxBytes 0)) by lia. apply copy_loop_exact; [lia|lia|done].
Qed.

End lawful.

(** ** Records that validation lets through *)

(** A conflict is decided by the revision alone, except between equal revisions of different content. *)
Lemma revision_rule T existing incoming :
  mr_ID existing = mr_ID incoming ->
  (CompareImportRevision T existing incoming = (Some ImportStored, None) <-> mr_Revision existing < mr_Revision incoming) /\
  (mr_Revision incoming < mr_Revision existing -> CompareImportRevision T existing incoming = (Some ImportRejected, Some ErrConflict)) /\
  (CompareImportRevision T existing incoming = (Some ImportIdempotent, None) <->
     mr_Revision existing = mr_Revision incoming /\ is_ok (EncodeRecord T existing) = true /\ EncodeRecord T existing = EncodeRecord T incoming).
Proof.
  intros Hid. unfold CompareImportRevision. rewrite (proj2 (same_str_true _ _) Hid). simpl.
  destruct (Z.ltb_spec (mr_Revision incoming) (mr_Revision existing)); [split_and!; try (split; [done|]); intros; try done; lia|].
  destruct (Z.ltb_spec (mr_Revision existing) (mr_Revision incoming)); [split_and!; try split; intros; try done; lia|].
  destruct (EncodeRecord T existing) as [a|e]; [destruct (EncodeRecord T incoming) as [b|e]; [destruct (same_str a b) eqn:E|]|];
    [apply same_str_true in E as ->|apply same_str_false in E|..]; split_and!; try split; intros; try done; try lia; try naive_solver.
  all: split_and!; [lia|done..].
Qed.

(** A record whose identifier has surrounding space may name itself as its origin: the origin is compared trimmed, the
    identifier as it is. *)
Theorem padded_id_derives_from_itself id :
  TrimSpace id <> id -> TrimSpace id <> "" -> check_derived id ∅ [id] = Ok tt.
Proof.
  intros H H'. simpl. by rewrite (proj2 (empty_str_false _) H'), (proj2 (same_str_false _ _) H).
Qed.

(** A confidence that is not a number is within the bounds that validation checks. *)
Theorem nan_confidence_passes T m :
  mm_Confidence m = Some NaN ->
  Metadata_validate T m = Metadata_validate T {| mm_Kind := mm_Kind m; mm_Subject := mm_Subject m; mm_Tags := mm_Tags m;
    mm_Confidence := None; mm_Extensions := mm_Extensions m |}.
Proof. intros H. unfold Metadata_validate. by rewrite H. Qed.

(** ** Instances *)

Definition sample_read (k : Z) (w : list byte * list byte) : list byte * option memory_error * (list byte * list byte) :=
  match w.1 with
  | [] => ([], Some StreamEOF, w)
  | x :: rest => if k <? 1 then ([], None, w) else ([x], None, (rest, w.2))
  end.
Definition sample_write (data : list byte) (w : list byte * list byte) : Z * option memory_error * (list byte * list byte) :=
  (len data, None, (w.1, w.2 ++ data)).

#[export] Instance sample_streams : Streams sample_read sample_write.
Proof.
  refine {| content := fst; written := snd |}.
  - intros k [[|x c] d] Hk; unfold sample_read; cbn [fst snd]; [split_and!; [unfold len; simpl; lia|done|done|by right]|].
    rewrite (proj2 (Z.ltb_ge k 1)) by lia. split_and!; [unfold len; simpl; lia|done|done|by left].
  - intros data [c d]. done.
Defined.

Lemma copy_exact_witness :
  copied sample_read sample_write 3 0 (content (bytes_of "memory", [])) (written (bytes_of "memory", [])) (CopyBounded (fun _ => None) sample_read sample_write 7 3 (bytes_of "memory", [])) /\
  CopyBounded (fun _ => None) sample_read sample_write 7 3 (bytes_of "memory", []) =
    (3, Some ErrTransferLimit, (bytes_of "ry", bytes_of "mem")).
Proof.
  split; [|vm_compute; reflexivity].
  apply (copy_exact sample_read sample_write 3 7 (bytes_of "memory", [])); [lia|vm_compute; lia].
Defined.

Lemma budget_never_exceeded_witness :
  exists s, sh_admitted s <= 2 /\ sh_envelopes s + sh_delivered s <= 10 /\ Usage (sh_budget s) = (1, 7).
Proof.
  set (b := {| bg_maxRecords := 2; bg_maxBytes := 10; bg_records := 0; bg_bytes := 0 |}).
  set (s := {| sh_budget := put_usage b 1 7; sh_reads := ∅; sh_admitted := 1; sh_envelopes := 4; sh_delivered := 3 |}).
  exists s. destruct (budget_never_exceeded 2 10 b s) as (H1 & H2 & H3); [lia|lia|done| |split_and!; [done|done|by apply H3]].
  eapply rtc_l; [apply (step_admit _ 4 (put_usage b 1 4)); [lia|reflexivity]|].
  eapply rtc_l; [apply (step_begin _ 0%nat 5 (Reserved 5) (put_usage b 1 9)); [reflexivity|lia|reflexivity]|].
  eapply rtc_l; [apply (step_end _ 0%nat (Reserved 5) 3 None 3 None (put_usage b 1 7)); [reflexivity|lia|reflexivity]|].
  apply rtc_refl.
Defined.
