(* ===== verification/DollCard.v ===== *)
(** * Doll cards

    DollCard: the archive that carries a Doll from one installation to another.
    encode.go and decode.go write and read version 1; contract_v2.go and
    json_extensible.go check the index of version 2 and what it refers to.

    An archive is the list of its entries; [archive/zip] stores and returns them
    as they are.  [encoding/json] is a class, with what it promises of the texts
    it writes.  Where the code reads JSON token by token, a document is the
    sequence of tokens the decoder delivers and the way it ends. *)
From S2P Require Import Prelude GoStrings GoBytes Transfer Inference Skill DollState.
From stdpp Require Import options.

(** ** Duplicate keys *)

Inductive token := TOpenObject | TCloseObject | TOpenArray | TCloseArray | TString (s : string) | TScalar (text : string).

(** The tokens to come; whether they are followed by the end of the input or by a syntax error. *)
Record decoder := { dc_tokens : list token; dc_clean : bool }.

Inductive card_error :=
  ErrInvalidContractIndex | SyntaxError | EndOfInput | DuplicateKey
| UnreadableEntry | MissingFile (name : string) | BadHeader | UnsupportedVersion | BadIdentity | MissingDollID | MissingName
| EmptySoul | EmptyOwner | BadSelf | BadMemory | LineTooLong | BadDrives | BadGoals | BadIntentions.

Definition Token (d : decoder) : res card_error (token * decoder) :=
  match dc_tokens d with
  | t :: rest => Ok (t, {| dc_tokens := rest; dc_clean := dc_clean d |})
  | [] => Err (if dc_clean d then EndOfInput else SyntaxError)
  end.

(** Before a syntax error the answer does not matter: the next call of [Token] reports it. *)
Definition More (d : decoder) : bool :=
  match dc_tokens d with
  | TCloseObject :: _ | TCloseArray :: _ => false
  | _ :: _ => true
  | [] => negb (dc_clean d)
  end.

Fixpoint scanJSONValue (fuel : nat) (d : decoder) : res card_error decoder :=
  match fuel with
  | O => Err SyntaxError
  | S fuel =>
      try next <- Token d;
      match next.1 with
      | TString _ | TScalar _ => Ok next.2
      | TOpenObject => scan_members fuel ∅ next.2
      | TOpenArray => scan_elements fuel next.2
      | _ => Err SyntaxError
      end
  end
with scan_members (fuel : nat) (seen : gset string) (d : decoder) : res card_error decoder :=
  match fuel with
  | O => Err SyntaxError
  | S fuel =>
      try next <- Token d;
      if More d then
        match next.1 with
        | TString key =>
            refuse bool_decide (key ∈ seen) with DuplicateKey;
            try d <- scanJSONValue fuel next.2;
            scan_members fuel ({[key]} ∪ seen) d
        | _ => Err DuplicateKey
        end
      else match next.1 with TCloseObject => Ok next.2 | _ => Err SyntaxError end
  end
with scan_elements (fuel : nat) (d : decoder) : res card_error decoder :=
  match fuel with
  | O => Err SyntaxError
  | S fuel =>
      if More d then
        try d <- scanJSONValue fuel d;
        scan_elements fuel d
      else
        try next <- Token d;
        match next.1 with TCloseArray => Ok next.2 | _ => Err SyntaxError end
  end.

Definition scan_fuel (d : decoder) : nat := 2 * length (dc_tokens d) + 2.

Definition rejectDuplicateJSONKeys (d : decoder) : res card_error unit :=
  match scanJSONValue (scan_fuel d) d with
  | Err _ => Err ErrInvalidContractIndex
  | Ok d =>
      match Token d with
      | Err EndOfInput => Ok tt
      | _ => Err ErrInvalidContractIndex
      end
  end.

(** *** The documents it accepts *)

Inductive json := JString (s : string) | JScalar (text : string) | JArray (l : list json) | JObject (l : list (string * json)).

Fixpoint tokens_of (v : json) : list token :=
  match v with
  | JString s => [TString s]
  | JScalar t => [TScalar t]
  | JArray l => TOpenArray :: flat_map tokens_of l ++ [TCloseArray]
  | JObject l => TOpenObject :: flat_map (fun e : string * json => TString e.1 :: tokens_of e.2) l ++ [TCloseObject]
  end.

(** No object repeats a key, at any depth. *)
Inductive unambiguous : json -> Prop :=
  | plain_string s : unambiguous (JString s)
  | plain_scalar t : unambiguous (JScalar t)
  | distinct_array l : (forall v, v ∈ l -> unambiguous v) -> unambiguous (JArray l)
  | distinct_object l : NoDup l.*1 -> (forall e, e ∈ l -> unambiguous e.2) -> unambiguous (JObject l).

Definition ahead (ts : list token) (clean : bool) : decoder := {| dc_tokens := ts; dc_clean := clean |}.

Definition scanned (fuel : nat) (v : json) : Prop :=
  forall rest clean, (2 * length (tokens_of v) <= fuel)%nat ->
    scanJSONValue fuel (ahead (tokens_of v ++ rest) clean) = Ok (ahead rest clean).

Lemma tokens_first v : exists t ts, tokens_of v = t :: ts /\ t <> TCloseObject /\ t <> TCloseArray.
Proof. destruct v; simpl; by eexists _, _. Qed.

Lemma more_value v rest clean : More (ahead (tokens_of v ++ rest) clean) = true.
Proof. destruct (tokens_first v) as (t & ts & -> & H1 & H2). by destruct t. Qed.

Lemma elements_scanned l : forall fuel rest clean,
  (forall v fuel, v ∈ l -> scanned fuel v) -> (2 * length (flat_map tokens_of l) < fuel)%nat ->
  scan_elements fuel (ahead (flat_map tokens_of l ++ TCloseArray :: rest) clean) = Ok (ahead rest clean).
Proof.
  induction l as [|v l IH]; intros fuel rest clean Hs Hf; (destruct fuel as [|fuel]; [simpl in Hf; lia|]); [done|].
  cbn [flat_map] in *. rewrite length_app in Hf. rewrite <- app_assoc. cbn [scan_elements]. rewrite more_value.
  rewrite (Hs v fuel); [|left|lia]. cbn [res_bind].
  destruct (tokens_first v) as (t & ts & Ht & _). rewrite Ht in Hf. simpl in Hf.
  apply IH; [intros w f Hw; apply Hs; by right|lia].
Qed.

Lemma members_scanned l : forall fuel seen rest clean,
  (forall e fuel, e ∈ l -> scanned fuel e.2) -> NoDup l.*1 -> (forall e, e ∈ l -> e.1 ∉ seen) ->
  (2 * length (flat_map (fun e : string * json => TString e.1 :: tokens_of e.2) l) < fuel)%nat ->
  scan_members fuel seen (ahead (flat_map (fun e : string * json => TString e.1 :: tokens_of e.2) l ++ TCloseObject :: rest) clean) =
    Ok (ahead rest clean).
Proof.
  induction l as [|[k v] l IH]; intros fuel seen rest clean Hs Hnd Hseen Hf; (destruct fuel as [|fuel]; [simpl in Hf; lia|]); [done|].
  cbn [flat_map fst snd] in *. simpl in Hf. rewrite length_app in Hf. cbn [scan_members]. simpl.
  rewrite <- app_assoc. rewrite bool_decide_eq_false_2 by (apply (Hseen (k, v)); left).
  change {| dc_tokens := ?ts; dc_clean := ?c |} with (ahead ts c).
  rewrite (Hs (k, v) fuel); [|left|simpl; lia]. cbn [res_bind]. apply NoDup_cons in Hnd as [Hk Hnd].
  apply IH; [intros e f He; apply Hs; by right|done| |lia].
  intros e He [Heq%elem_of_singleton|Hin]%elem_of_union; [|apply (Hseen e); [by right|done]].
  apply Hk, list_elem_of_fmap. by exists e.
Qed.

Lemma scan_complete v : unambiguous v -> forall fuel, scanned fuel v.
Proof.
  induction 1 as [s|t|l Hl IH|l Hnd Hl IH]; intros fuel rest clean Hf; (destruct fuel as [|fuel]; [simpl in Hf; lia|]); [done..| |].
  - cbn [scanJSONValue tokens_of Token ahead dc_tokens dc_clean app res_bind fst snd]. simpl in Hf. rewrite length_app in Hf.
    rewrite <- app_assoc. apply elements_scanned; [intros w f Hw; by apply IH|simpl in Hf; lia].
  - cbn [scanJSONValue tokens_of Token ahead dc_tokens dc_clean app res_bind fst snd]. simpl in Hf. rewrite length_app in Hf.
    rewrite <- app_assoc. apply members_scanned; [intros e f He; by apply IH|done|set_solver|simpl in Hf; lia].
Qed.


(** Conversely, what is scanned is a document without repeated keys. *)
Definition scan_sound (fuel : nat) : Prop :=
  (forall d d', scanJSONValue fuel d = Ok d' -> dc_clean d' = dc_clean d /\
     exists v, unambiguous v /\ dc_tokens d = tokens_of v ++ dc_tokens d') /\
  (forall seen d d', scan_members fuel seen d = Ok d' -> dc_clean d' = dc_clean d /\
     exists l, NoDup l.*1 /\ (forall e, e ∈ l -> unambiguous e.2 /\ e.1 ∉ seen) /\
       dc_tokens d = flat_map (fun e : string * json => TString e.1 :: tokens_of e.2) l ++ TCloseObject :: dc_tokens d') /\
  (forall d d', scan_elements fuel d = Ok d' -> dc_clean d' = dc_clean d /\
     exists l, (forall v, v ∈ l -> unambiguous v) /\ dc_tokens d = flat_map tokens_of l ++ TCloseArray :: dc_tokens d').

Lemma Token_ok d t d' : Token d = Ok (t, d') -> dc_clean d' = dc_clean d /\ dc_tokens d = t :: dc_tokens d'.
Proof. unfold Token. destruct (dc_tokens d); [by case_match|]. by intros [= <- <-]. Qed.

Lemma scan_is_sound fuel : scan_sound fuel.
Proof.
  induction fuel as [|fuel (IHv & IHm & IHe)]; [by split_and!|]. split_and!.
  - intros d d' H. cbn [scanJSONValue] in H. destruct (Token d) as [[t d1]|] eqn:Et; [|done]. cbn [res_bind fst snd] in H.
    apply Token_ok in Et as [Hc Ht]. destruct t; try done.
    + apply IHm in H as (Hc' & l & Hnd & Hl & Hts). split; [congruence|]. exists (JObject l).
      split; [constructor; [done|intros e He; by apply Hl]|]. rewrite Ht, Hts. simpl. by rewrite <- app_assoc.
    + apply IHe in H as (Hc' & l & Hl & Hts). split; [congruence|]. exists (JArray l). split; [by constructor|].
      rewrite Ht, Hts. simpl. by rewrite <- app_assoc.
    + injection H as <-. split; [done|]. exists (JString s). by split; [constructor|].
    + injection H as <-. split; [done|]. exists (JScalar text). by split; [constructor|].
  - intros seen d d' H. cbn [scan_members] in H. destruct (Token d) as [[t d1]|] eqn:Et; [|done]. cbn [res_bind fst snd] in H.
    apply Token_ok in Et as [Hc Ht]. destruct (More d).
    + destruct t; try done. case_bool_decide as Hin; [done|]. destruct (scanJSONValue fuel d1) as [d2|] eqn:Ev; [|done].
      cbn [res_bind] in H. apply IHv in Ev as (Hc2 & v & Hv & Hvt). apply IHm in H as (Hc' & l & Hnd & Hl & Hts).
      split; [congruence|]. exists ((s, v) :: l). split_and!.
      * apply NoDup_cons. split; [|done]. intros (e & Heq & He)%list_elem_of_fmap. simpl in Heq. destruct (Hl e He) as [_ Hn]. set_solver.
      * intros e [->|He]%elem_of_cons; [done|]. destruct (Hl e He). split; [done|set_solver].
      * rewrite Ht, Hvt, Hts. simpl. by rewrite <- app_assoc.
    + destruct t; try done. injection H as <-. split; [done|]. exists []. split_and!; [constructor|set_solver|done].
  - intros d d' H. cbn [scan_elements] in H. destruct (More d).
    + destruct (scanJSONValue fuel d) as [d2|] eqn:Ev; [|done]. cbn [res_bind] in H.
      apply IHv in Ev as (Hc2 & v & Hv & Hvt). apply IHe in H as (Hc' & l & Hl & Hts).
      split; [congruence|]. exists (v :: l). split; [intros w [->|Hw]%elem_of_cons; auto|]. rewrite Hvt, Hts. simpl. by rewrite <- app_assoc.
    + destruct (Token d) as [[t d1]|] eqn:Et; [|done]. apply Token_ok in Et as [Hc Ht]. cbn [res_bind fst snd] in H.
      destruct t; try done. injection H as <-. split; [done|]. exists []. split; [set_solver|done].
Qed.

(** The check for duplicate keys accepts exactly the texts of one JSON document, complete and with nothing after it, in
    which no object repeats a key at any depth. *)
Theorem duplicates_rejected d :
  rejectDuplicateJSONKeys d = Ok tt <-> dc_clean d = true /\ exists v, unambiguous v /\ dc_tokens d = tokens_of v.
Proof.
  unfold rejectDuplicateJSONKeys. split.
  - destruct (scanJSONValue (scan_fuel d) d) as [d'|] eqn:E; [|done]. apply (scan_is_sound _) in E as (Hc & v & Hv & Ht).
    unfold Token. destruct (dc_tokens d') eqn:Ed; [|done]. destruct (dc_clean d') eqn:Ec; [|done]. intros _.
    split; [congruence|]. exists v. by rewrite app_nil_r in Ht.
  - intros (Hc & v & Hv & Ht). assert (E : scanJSONValue (scan_fuel d) d = Ok (ahead [] (dc_clean d))).
    { assert (d = ahead (tokens_of v ++ []) (dc_clean d)) as E by (rewrite app_nil_r, <- Ht; by destruct d).
      rewrite E at 2. rewrite (scan_complete v Hv); [done|]. unfold scan_fuel. rewrite Ht. lia. }
    rewrite E. unfold Token. simpl. by rewrite Hc.
Qed.

(** ** The index of version 2 *)

Definition ContractVersion2 : Z := 2.

Definition SectionIdentity := "identity".
Definition SectionSoul := "soul".
Definition SectionSelf := "self".
Definition SectionAvatar := "avatar".
Definition SectionPreferences := "preferences".
Definition SectionSecrets := "secrets".
Definition SectionSkills := "skills".
Definition SectionMemories := "memories".
Definition SectionPeers := "peers".
Definition SectionAuthority := "authority".
Definition SectionDrives := "drives".
Definition SectionGoals := "goals".
Definition SectionIntentions := "intentions".
Definition SectionExtensions := "extensions".
Definition SectionLegacyOwner := "legacy_owner".
Definition SectionLegacyAuth := "legacy_auth".

Definition requiredV2Sections : list string :=
  [SectionIdentity; SectionSoul; SectionSelf; SectionAvatar; SectionPreferences; SectionSecrets; SectionSkills; SectionMemories;
   SectionPeers; SectionAuthority; SectionDrives; SectionGoals; SectionIntentions; SectionExtensions; SectionLegacyOwner;
   SectionLegacyAuth].

(** Every kind is at version 1, that of skills and of memories by their contracts. *)
Definition knownSectionVersions (kind : string) : option Z :=
  if bool_decide (kind ∈ requiredV2Sections) then Some 1 else None.

Definition is_known (kind : string) : bool := bool_decide (is_Some (knownSectionVersions kind)).

Definition UnknownFields := gmap string decoder.

Record ArchiveEntry := { ae_Path : string; ae_SHA256 : string; ae_Size : Z; ae_Unknown : UnknownFields }.

Record SectionIndex := {
  si_ID : string;
  si_Kind : string;
  si_SchemaVersion : Z;
  si_Required : bool;
  si_Empty : bool;
  si_Entries : list ArchiveEntry;
  si_Compatibility : list string;
  si_Unknown : UnknownFields;
}.

Record IndexV2 := { ix_Version : Z; ix_DollID : string; ix_Sections : list SectionIndex; ix_Unknown : UnknownFields }.
Record ImportBounds := { ib_MaxSections : Z; ib_MaxEntries : Z; ib_MaxDeclaredBytes : Z }.

Section index.
Context (json_Valid : decoder -> bool).

Definition validateUnknownFields (unknown : UnknownFields) (knownNames : list string) : bool :=
  negb (existsb (fun e : string * decoder => empty_str e.1 || bool_decide (e.1 ∈ knownNames) || negb (json_Valid e.2)
                   || negb (is_ok (rejectDuplicateJSONKeys e.2))) (map_to_list unknown)).

Definition entry_fields := ["path"; "sha256"; "size"].
Definition section_fields := ["id"; "kind"; "schema_version"; "required"; "empty"; "entries"; "compatibility"].
Definition index_fields := ["version"; "doll_id"; "sections"].

(** What an entry needs by itself. *)
Definition entry_form (e : ArchiveEntry) : bool :=
  validateUnknownFields (ae_Unknown e) entry_fields && SafeRelativePath (ae_Path e) && is_ok (validateSHA256 (ae_SHA256 e)).

(** The paths seen, the number of entries and their declared size. *)
Definition tally := (gset string * Z * Z)%type.

Fixpoint check_entries (b : ImportBounds) (t : tally) (l : list ArchiveEntry) : res card_error tally :=
  match l with
  | [] => Ok t
  | e :: rest =>
      let '(paths, entries, size) := t in
      refuse negb (entry_form e) || bool_decide (ae_Path e ∈ paths) with ErrInvalidContractIndex;
      let entries := u64 (entries + 1) in
      refuse u64 (ib_MaxDeclaredBytes b - size) <? ae_Size e with ErrInvalidContractIndex;
      let size := u64 (size + ae_Size e) in
      refuse ib_MaxEntries b <? entries with ErrInvalidContractIndex;
      check_entries b ({[ae_Path e]} ∪ paths, entries, size) rest
  end.

Definition section_form (s : SectionIndex) : bool :=
  negb (blank (si_ID s)) && negb (blank (si_Kind s)) && (0 <? si_SchemaVersion s) &&
  negb (Bool.eqb (si_Empty s) (0 <? len (si_Entries s))) && validateUnknownFields (si_Unknown s) section_fields &&
  (negb (is_known (si_Kind s)) || si_Required s) && negb (existsb blank (si_Compatibility s)).

Fixpoint check_sections (b : ImportBounds) (ids kinds : gset string) (t : tally) (l : list SectionIndex) : res card_error unit :=
  match l with
  | [] => Ok tt
  | s :: rest =>
      refuse negb (section_form s) || bool_decide (si_ID s ∈ ids) || (is_known (si_Kind s) && bool_decide (si_Kind s ∈ kinds))
        with ErrInvalidContractIndex;
      try t <- check_entries b t (si_Entries s);
      check_sections b ({[si_ID s]} ∪ ids) ({[si_Kind s]} ∪ kinds) t rest
  end.

Definition IndexV2_Validate (i : IndexV2) (b : ImportBounds) : res card_error unit :=
  refuse negb (ix_Version i =? ContractVersion2) || blank (ix_DollID i) || (ib_MaxSections b =? 0) || (ib_MaxEntries b =? 0)
         || (ib_MaxDeclaredBytes b =? 0) || (ib_MaxSections b <? len (ix_Sections i)) with ErrInvalidContractIndex;
  refuse negb (validateUnknownFields (ix_Unknown i) index_fields) with ErrInvalidContractIndex;
  check_sections b ∅ ∅ (∅, 0, 0) (ix_Sections i).

(** ** Payloads *)

Definition ValidateEntryData (e : ArchiveEntry) (data : list byte) : bool :=
  (len data =? ae_Size e) && same_digest (ae_SHA256 e) (SHA256Hex data).

Fixpoint preserve (payloads preserved : gmap string (list byte)) (l : list ArchiveEntry) : res card_error (gmap string (list byte)) :=
  match l with
  | [] => Ok preserved
  | e :: rest =>
      match payloads !! ae_Path e with
      | Some data =>
          refuse negb (ValidateEntryData e data) with ErrInvalidContractIndex;
          preserve payloads (<[ae_Path e := data]> preserved) rest
      | None => Err ErrInvalidContractIndex
      end
  end.

Definition all_entries (i : IndexV2) : list ArchiveEntry := ix_Sections i ≫= si_Entries.

Definition PreserveIndexedPayloads (i : IndexV2) (payloads : gmap string (list byte)) : res card_error (gmap string (list byte)) :=
  preserve payloads ∅ (all_entries i).

(** ** Compatibility *)

Inductive CompatibilityStatus := CompatibilityCompatible | CompatibilityDegraded | CompatibilityIncompatible.
Record CompatibilityIssue := { is_Code : string; is_SectionID : string }.
Record CompatibilityReport := { cr_Status : CompatibilityStatus; cr_Issues : list CompatibilityIssue }.
Record ParsedIndex := { px_Version : Z; px_V2 : option IndexV2; px_Report : CompatibilityReport }.

Definition worse (r : CompatibilityReport) (incompatible : bool) (issue : CompatibilityIssue) : CompatibilityReport :=
  {| cr_Status := if incompatible then CompatibilityIncompatible else cr_Status r; cr_Issues := cr_Issues r ++ [issue] |}.

Definition assess_section (st : CompatibilityReport * gset string) (s : SectionIndex) : CompatibilityReport * gset string :=
  match knownSectionVersions (si_Kind s) with
  | None =>
      (worse st.1 (si_Required s)
         {| is_Code := if si_Required s then "unknown_required_section" else "unknown_optional_section"; is_SectionID := si_ID s |}, st.2)
  | Some supported =>
      (if si_SchemaVersion s =? supported then st.1
       else worse st.1 true {| is_Code := "unsupported_section_version"; is_SectionID := si_ID s |},
       {[si_Kind s]} ∪ st.2)
  end.

Definition assess_kind (seen : gset string) (r : CompatibilityReport) (kind : string) : CompatibilityReport :=
  if bool_decide (kind ∈ seen) then r else worse r true {| is_Code := "missing_section"; is_SectionID := kind |}.

Definition assessCompatibility (i : IndexV2) : CompatibilityReport :=
  let '(r, seen) := foldl assess_section ({| cr_Status := CompatibilityCompatible; cr_Issues := [] |}, ∅) (ix_Sections i) in
  foldl (assess_kind seen) r requiredV2Sections.

Definition legacy_report : CompatibilityReport :=
  {| cr_Status := CompatibilityDegraded;
     cr_Issues := [{| is_Code := "legacy_v1"; is_SectionID := "" |}; {| is_Code := "authority_unrepresented"; is_SectionID := "authority" |};
                   {| is_Code := "skills_legacy"; is_SectionID := "skills" |}] |}.

(** [header] reads the version field of the document, [decode] the document as an index. *)
Definition ParseContractIndex (header : decoder -> option Z) (decode : decoder -> option IndexV2) (d : decoder) (b : ImportBounds)
    : res card_error ParsedIndex :=
  try _ <- rejectDuplicateJSONKeys d;
  match header d with
  | None => Err ErrInvalidContractIndex
  | Some version =>
      if version =? 1 then Ok {| px_Version := 1; px_V2 := None; px_Report := legacy_report |}
      else
        refuse negb (version =? ContractVersion2) with ErrInvalidContractIndex;
        match decode d with
        | None => Err ErrInvalidContractIndex
        | Some i =>
            refuse negb (is_ok (IndexV2_Validate i b)) with ErrInvalidContractIndex;
            Ok {| px_Version := version; px_V2 := Some i; px_Report := assessCompatibility i |}
        end
  end.

(** ** What is done with imported items *)

Inductive ItemDisposition :=
  ItemAccepted | ItemDormant | ItemPreservedUnknown | ItemTransformed | ItemRejected | ItemRequiresVerification | ItemRequiresSetup.
Record ImportItemResult := { ir_Kind : string; ir_ID : string; ir_Disposition : ItemDisposition; ir_Reason : string }.

Definition AuthorityImportResults (decisionIDs : list string) (verified : bool) : list ImportItemResult :=
  (fun id => {| ir_Kind := "authority"; ir_ID := id;
                ir_Disposition := if verified then ItemAccepted else ItemRequiresVerification;
                ir_Reason := if verified then "" else "authority provenance is unverified and must not be activated" |}) <$> decisionIDs.

Definition CredentialImportResult (id : string) (usable : bool) : ImportItemResult :=
  if usable then {| ir_Kind := "credential"; ir_ID := id; ir_Disposition := ItemAccepted; ir_Reason := "" |}
  else {| ir_Kind := "credential"; ir_ID := id; ir_Disposition := ItemRequiresSetup;
          ir_Reason := "credential is retained but unavailable in this installation" |}.

(** ** What an accepted index promises *)

Definition declared (l : list ArchiveEntry) : Z := foldr (fun e n => ae_Size e + n) 0 l.
Definition sized (l : list ArchiveEntry) : Prop := Forall (fun e => 0 <= ae_Size e < 2 ^ 64) l.

Lemma declared_nonneg l : sized l -> 0 <= declared l.
Proof. induction 1 as [|e l He _ IH]; simpl; lia. Qed.

Lemma declared_app l k : declared (l ++ k) = declared l + declared k.
Proof. induction l as [|e l IH]; simpl; lia. Qed.

(** The bounds that a tally is within. *)
Definition tally_ok (b : ImportBounds) (t : tally) : Prop :=
  0 <= t.1.2 <= ib_MaxEntries b /\ 0 <= t.2 <= ib_MaxDeclaredBytes b /\ ib_MaxEntries b < 2 ^ 64 /\ ib_MaxDeclaredBytes b < 2 ^ 64.

Definition add_entries (t : tally) (l : list ArchiveEntry) : tally :=
  (list_to_set (ae_Path <$> l) ∪ t.1.1, t.1.2 + len l, t.2 + declared l).

Definition entries_fit (b : ImportBounds) (t : tally) (l : list ArchiveEntry) : Prop :=
  Forall (fun e => entry_form e = true) l /\ NoDup (ae_Path <$> l) /\ (forall e, e ∈ l -> ae_Path e ∉ t.1.1) /\
  t.1.2 + len l <= ib_MaxEntries b /\ t.2 + declared l <= ib_MaxDeclaredBytes b.

Lemma len_cons {A} (x : A) l : len (x :: l) = 1 + len l.
Proof. unfold len. simpl. lia. Qed.

Lemma entries_fit_cons b t e l :
  entries_fit b t (e :: l) <->
  entry_form e = true /\ ae_Path e ∉ t.1.1 /\ entries_fit b ({[ae_Path e]} ∪ t.1.1, t.1.2 + 1, t.2 + ae_Size e) l.
Proof.
  unfold entries_fit. simpl. rewrite Forall_cons, NoDup_cons, len_cons, list_elem_of_fmap.
  replace (t.1.2 + (1 + len l)) with (t.1.2 + 1 + len l) by lia.
  replace (t.2 + (ae_Size e + declared l)) with (t.2 + ae_Size e + declared l) by lia. split.
  - intros ((He & Hl) & (Hn & Hnd) & Hf & ? & ?). split_and!; try done; [apply Hf; left|].
    intros x Hx [Heq%elem_of_singleton|Hin]%elem_of_union; [apply Hn; by exists x|by apply (Hf x); [right|]].
  - intros (He & Hp & Hl & Hnd & Hf & ? & ?). split_and!; try done.
    + intros (x & Heq & Hx). apply (Hf x Hx). set_solver.
    + intros x [->|Hx]%elem_of_cons; [done|]. specialize (Hf x Hx). set_solver.
Qed.

Lemma check_entries_ok b l : forall t,
  tally_ok b t -> sized l -> t.1.2 + len l < 2 ^ 64 ->
  (entries_fit b t l -> check_entries b t l = Ok (add_entries t l)) /\
  (forall t', check_entries b t l = Ok t' -> entries_fit b t l).
Proof.
  induction l as [|e l IH]; intros [[paths n] size] (Hn & Hs & HE & HB) Hsz Hl; cbn [fst snd] in *.
  { unfold add_entries, entries_fit, len. simpl. split.
    - intros _. by rewrite !Z.add_0_r, union_empty_l_L.
    - intros t' _. split_and!; [constructor|constructor|set_solver|lia|lia]. }
  rewrite len_cons in Hl. pose proof (len_nonneg l). apply Forall_cons in Hsz as [Hse Hsz]. pose proof (declared_nonneg l Hsz).
  cbn [check_entries]. rewrite (u64_small (n + 1)), (u64_small (_ - _)) by lia. rewrite entries_fit_cons. simpl.
  destruct (entry_form e) eqn:Ef; simpl; [|split; [by intros [? _]|done]].
  case_bool_decide as Hp; [split; [by intros (_ & ? & _)|done]|].
  destruct (Z.ltb_spec (ib_MaxDeclaredBytes b - size) (ae_Size e)); [split; [|done]; intros (_ & _ & _ & _ & _ & _ & ?); simpl in *; lia|].
  destruct (Z.ltb_spec (ib_MaxEntries b) (n + 1)); [split; [|done]; intros (_ & _ & _ & _ & _ & ? & _); simpl in *; lia|].
  rewrite u64_small by lia. destruct (IH ({[ae_Path e]} ∪ paths, n + 1, size + ae_Size e)) as [IH1 IH2].
  { split_and!; simpl; lia. } { done. } { simpl. lia. }
  split; [|intros t' Ht; apply entries_fit_cons; split; [by rewrite Ef|split; [done|by apply (IH2 t')]]]. intros (_ & _ & Hfit). rewrite IH1 by done. unfold add_entries.
  cbn [fst snd]. rewrite len_cons, fmap_cons. change (declared (e :: l)) with (ae_Size e + declared l). f_equal. f_equal; [f_equal; [set_solver|lia]|lia].
Qed.

Definition known_kinds (l : list SectionIndex) : list string := filter (fun k => is_known k = true) (si_Kind <$> l).

Definition sections_fit (b : ImportBounds) (ids kinds : gset string) (t : tally) (l : list SectionIndex) : Prop :=
  Forall (fun s => section_form s = true) l /\ NoDup (si_ID <$> l) /\ (forall s, s ∈ l -> si_ID s ∉ ids) /\
  NoDup (known_kinds l) /\ (forall k, k ∈ known_kinds l -> k ∉ kinds) /\ entries_fit b t (l ≫= si_Entries).

Lemma entries_fit_app b l k : forall t, sized k ->
  entries_fit b t (l ++ k) <-> entries_fit b t l /\ entries_fit b (add_entries t l) k.
Proof.
  induction l as [|e l IH]; intros t Hk; simpl.
  - unfold add_entries, len. simpl. rewrite union_empty_l_L, !Z.add_0_r. destruct t as [[p n] z]. cbn [fst snd].
    split; [|by intros []]. intros H. split; [|done]. destruct H as (_ & _ & _ & ? & ?). simpl in *.
    pose proof (len_nonneg k). pose proof (declared_nonneg k Hk). unfold entries_fit, len at 1. simpl.
    split_and!; [constructor|constructor|set_solver|lia|lia].
  - rewrite !entries_fit_cons, IH by done. unfold add_entries. cbn [fst snd]. rewrite len_cons, fmap_cons.
    change (declared (e :: l)) with (ae_Size e + declared l). cbn [list_to_set].
    replace (list_to_set (ae_Path <$> l) ∪ ({[ae_Path e]} ∪ t.1.1)) with (list_to_set (ae_Path e :: (ae_Path <$> l)) ∪ t.1.1) by set_solver.
    replace (t.1.2 + 1 + len l) with (t.1.2 + (1 + len l)) by lia.
    replace (t.2 + ae_Size e + declared l) with (t.2 + (ae_Size e + declared l)) by lia. tauto.
Qed.

Lemma check_sections_ok b l : forall ids kinds t,
  tally_ok b t -> sized (l ≫= si_Entries) -> t.1.2 + len (l ≫= si_Entries) < 2 ^ 64 ->
  check_sections b ids kinds t l = Ok tt <-> sections_fit b ids kinds t l.
Proof.
  induction l as [|s l IH]; intros ids kinds t Ht Hsz Hl.
  { simpl. split; [|done]. intros _. destruct Ht as (? & ? & _). unfold sections_fit, entries_fit, len. simpl.
    split_and!; try constructor; try set_solver; lia. }
  rewrite bind_cons in *. apply Forall_app in Hsz as [Hs1 Hs2]. rewrite len_app in Hl. pose proof (len_nonneg (si_Entries s)).
  pose proof (len_nonneg (l ≫= si_Entries)). destruct (check_entries_ok b (si_Entries s) t Ht Hs1 ltac:(lia)) as [He1 He2].
  cbn [check_sections]. unfold sections_fit. rewrite bind_cons, entries_fit_app, Forall_cons by done.
  assert (Hk : known_kinds (s :: l) = if is_known (si_Kind s) then si_Kind s :: known_kinds l else known_kinds l).
  { unfold known_kinds. rewrite fmap_cons. destruct (is_known (si_Kind s)) eqn:E; [by rewrite filter_cons_True|].
    rewrite filter_cons_False by congruence. done. }
  destruct (section_form s) eqn:Ef; simpl; [|split; [done|intros ([] & _); congruence]].
  case_bool_decide as Hid; simpl; [split; [done|intros (_ & _ & Hi & _); destruct (Hi s); [left|done]]|].
  destruct (is_known (si_Kind s) && bool_decide (si_Kind s ∈ kinds)) eqn:Ek.
  { split; [done|]. intros (_ & _ & _ & _ & Hkk & _). apply andb_true_iff in Ek as [E1 E2]. rewrite Hk, E1 in Hkk.
    apply bool_decide_eq_true in E2. destruct (Hkk (si_Kind s)); [left|done]. }
  destruct (check_entries b t (si_Entries s)) as [t1|] eqn:Ec; simpl.
  2: { split; [done|]. intros (_ & _ & _ & _ & _ & Hfit & _). apply He1 in Hfit. congruence. }
  assert (Hfit := He2 _ eq_refl). specialize (He1 Hfit). injection He1 as ->. rewrite IH; [|..|done|unfold add_entries; simpl; lia].
  2: { destruct Ht as (? & ? & ? & ?), Hfit as (_ & _ & _ & ? & ?). pose proof (declared_nonneg _ Hs1). split_and!; simpl; lia. }
  unfold sections_fit. rewrite Hk. rewrite ?fmap_cons, NoDup_cons, list_elem_of_fmap. split.
  - intros (Hf & Hn & Hi & Hkn & Hkk & Hen). split_and!; try done.
    + intros (x & Heq & Hx). apply (Hi x Hx). set_solver.
    + intros x [->|Hx]%elem_of_cons; [done|]. specialize (Hi x Hx). set_solver.
    + destruct (is_known (si_Kind s)); [|done]. apply NoDup_cons. split; [|done]. intros Hin. apply (Hkk _ Hin). set_solver.
    + intros k. destruct (is_known (si_Kind s)); [|intros Hin; specialize (Hkk k Hin); set_solver].
      intros [->|Hin]%elem_of_cons; [by apply bool_decide_eq_false in Ek|]. specialize (Hkk k Hin). set_solver.
  - intros ((_ & Hf) & (Hni & Hn) & Hi & Hkn & Hkk & _ & Hen). split_and!; try done.
    + intros x Hx [Heq%elem_of_singleton|Hin]%elem_of_union; [apply Hni; by exists x|]. by apply (Hi x); [right|].
    + destruct (is_known (si_Kind s)); [by apply NoDup_cons in Hkn as [_ ?]|done].
    + intros k Hin [->%elem_of_singleton|Hin']%elem_of_union.
      * assert (is_known (si_Kind s) = true) as E by (by apply list_elem_of_filter in Hin as [? _]). rewrite E in Hkn.
        by apply NoDup_cons in Hkn as [? _].
      * apply (Hkk k); [|done]. destruct (is_known (si_Kind s)); [by right|done].
Qed.

(** An index is accepted exactly when it is within the bounds of the import (none zero, counted without wrap-around)
    and unambiguous: it is of version 2 and names its Doll, no two sections share an identifier, a known kind occurs at
    most once and is required, a section is empty exactly when it says so, and no two entries of the whole index share a
    path; every path stays below the directory of the archive and every digest is a digest. *)
Theorem index_accepted i b :
  0 <= ib_MaxSections b -> 0 <= ib_MaxEntries b < 2 ^ 64 -> 0 <= ib_MaxDeclaredBytes b < 2 ^ 64 ->
  sized (all_entries i) -> len (all_entries i) < 2 ^ 64 ->
  IndexV2_Validate i b = Ok tt <->
  ix_Version i = 2 /\ blank (ix_DollID i) = false /\ validateUnknownFields (ix_Unknown i) index_fields = true /\
  0 < ib_MaxSections b /\ 0 < ib_MaxEntries b /\ 0 < ib_MaxDeclaredBytes b /\ len (ix_Sections i) <= ib_MaxSections b /\
  len (all_entries i) <= ib_MaxEntries b /\ declared (all_entries i) <= ib_MaxDeclaredBytes b /\
  NoDup (si_ID <$> ix_Sections i) /\ NoDup (known_kinds (ix_Sections i)) /\ NoDup (ae_Path <$> all_entries i) /\
  Forall (fun s => section_form s = true) (ix_Sections i) /\ Forall (fun e => entry_form e = true) (all_entries i).
Proof.
  intros HS HE HB Hsz Hl. unfold IndexV2_Validate. destruct (_ || _) eqn:E.
  { split; [done|]. intros (Hv & Hd & _ & ? & ? & ? & ? & _). apply not_false_iff_true in E. destruct E.
    rewrite !orb_false_iff, Hd, !Z.eqb_neq, Z.ltb_ge, Hv. split_and!; solve [done|lia]. }
  rewrite !orb_false_iff, !Z.eqb_neq, Z.ltb_ge, negb_false_iff, Z.eqb_eq in E.
  destruct (validateUnknownFields (ix_Unknown i) index_fields); simpl; [|split; [done|by intros (_ & _ & ? & _)]].
  rewrite check_sections_ok; [|split_and!; simpl; lia|done|change (0 + len (all_entries i) < 2 ^ 64); lia].
  unfold sections_fit, entries_fit. fold (all_entries i). simpl. rewrite !Z.add_0_l. split.
  - intros (? & ? & _ & ? & _ & ? & ? & _ & ? & ?). split_and!; solve [done|lia|tauto].
  - intros (? & ? & _ & ? & ? & ? & ? & ? & ? & ? & ? & ? & ? & ?). split_and!; done || set_solver.
Qed.

(** ** What is preserved *)

Lemma preserve_spec payloads l : forall kept,
  match preserve payloads kept l with
  | Ok out =>
      (forall e, e ∈ l -> exists data, payloads !! ae_Path e = Some data /\ ValidateEntryData e data = true) /\
      (forall p, out !! p = if bool_decide (p ∈ ae_Path <$> l) then payloads !! p else kept !! p)
  | Err _ => exists e, e ∈ l /\ forall data, payloads !! ae_Path e = Some data -> ValidateEntryData e data = false
  end.
Proof.
  induction l as [|e l IH]; intros kept; simpl.
  { split; [set_solver|done]. }
  destruct (payloads !! ae_Path e) as [data|] eqn:Ep; [|exists e; split; [left|congruence]].
  destruct (ValidateEntryData e data) eqn:Ev; simpl; [|exists e; split; [left|congruence]].
  specialize (IH (<[ae_Path e := data]> kept)). destruct (preserve _ _ l) as [out|].
  - destruct IH as [Ha Hout]. split.
    + intros x [->|Hx]%elem_of_cons; [by exists data|by apply Ha].
    + intros p. rewrite Hout. destruct (decide (p = ae_Path e)) as [->|Hne].
      * rewrite lookup_insert_eq, (bool_decide_eq_true_2 (_ ∈ _ :: _)) by left. by case_bool_decide.
      * rewrite lookup_insert_ne by done. rewrite (bool_decide_ext (p ∈ ae_Path <$> l) (p ∈ ae_Path e :: (ae_Path <$> l))) by set_solver. done.
  - destruct IH as (x & Hx & Hbad). exists x. split; [by right|done].
Qed.

(** The payloads that are preserved are those the index names, each unchanged, of its declared size and digest; it fails
    exactly when one is missing or damaged. *)
Theorem payloads_preserved i payloads :
  match PreserveIndexedPayloads i payloads with
  | Ok out =>
      (forall p, out !! p = if bool_decide (p ∈ ae_Path <$> all_entries i) then payloads !! p else None) /\
      (forall e, e ∈ all_entries i -> exists data, out !! ae_Path e = Some data /\ len data = ae_Size e /\
         same_digest (ae_SHA256 e) (SHA256Hex data) = true)
  | Err _ => exists e, e ∈ all_entries i /\ forall data, payloads !! ae_Path e = Some data -> ValidateEntryData e data = false
  end.
Proof.
  unfold PreserveIndexedPayloads. pose proof (preserve_spec payloads (all_entries i) ∅) as H.
  destruct (preserve payloads ∅ (all_entries i)) as [out|]; [|done]. destruct H as [Ha Hout]. split.
  - intros p. rewrite Hout. by rewrite lookup_empty.
  - intros e He. destruct (Ha e He) as (data & Hd & Hv). exists data. unfold ValidateEntryData in Hv. bool_props.
    rewrite Hout, bool_decide_eq_true_2 by (apply list_elem_of_fmap; by exists e). done.
Qed.

(** ** What is compatible *)

Definition understood (s : SectionIndex) : bool :=
  match knownSectionVersions (si_Kind s) with Some v => si_SchemaVersion s =? v | None => negb (si_Required s) end.

Definition status_after (st : CompatibilityStatus) (fine : bool) : CompatibilityStatus := if fine then st else CompatibilityIncompatible.

Lemma assess_sections l : forall r seen,
  let '(r', seen') := foldl assess_section (r, seen) l in
  cr_Status r' = status_after (cr_Status r) (forallb understood l) /\
  (forall k, k ∈ seen' <-> k ∈ seen \/ (is_known k = true /\ k ∈ si_Kind <$> l)).
Proof.
  induction l as [|s l IH]; intros r seen; [simpl; set_solver|]. cbn [foldl forallb].
  assert (Hk : is_known (si_Kind s) = true <-> is_Some (knownSectionVersions (si_Kind s))) by apply bool_decide_eq_true.
  unfold assess_section at 2, understood at 1. simpl. destruct (knownSectionVersions (si_Kind s)) as [v|] eqn:Ev.
  - specialize (IH (if si_SchemaVersion s =? v then r else worse r true {| is_Code := "unsupported_section_version"; is_SectionID := si_ID s |}) ({[si_Kind s]} ∪ seen)).
    destruct (foldl assess_section _ l) as [r' seen']. destruct IH as [Hs Hseen]. split.
    + rewrite Hs. destruct (si_SchemaVersion s =? v); [done|]. by destruct (forallb understood l).
    + intros k. rewrite Hseen. assert (is_known (si_Kind s) = true) by (apply Hk; eauto). set_solver.
  - specialize (IH (worse r (si_Required s) {| is_Code := if si_Required s then "unknown_required_section" else "unknown_optional_section"; is_SectionID := si_ID s |}) seen).
    destruct (foldl assess_section _ l) as [r' seen']. destruct IH as [Hs Hseen]. split.
    + rewrite Hs. destruct (si_Required s); [by destruct (forallb understood l)|done].
    + intros k. rewrite Hseen. assert (is_known (si_Kind s) <> true) by (rewrite Hk; intros []; done). set_solver.
Qed.

Lemma assess_kinds seen l : forall r,
  cr_Status (foldl (assess_kind seen) r l) = status_after (cr_Status r) (forallb (fun k => bool_decide (k ∈ seen)) l).
Proof.
  induction l as [|k l IH]; intros r; [done|]. simpl. rewrite IH. unfold assess_kind. case_bool_decide; [done|].
  simpl. by destruct (forallb _ l).
Qed.

(** A card is compatible exactly when every portable area is represented by a section, every section of a known kind is
    of the supported version and no section of an unknown kind is required; otherwise it is incompatible. *)
Theorem compatibility_exact i :
  (cr_Status (assessCompatibility i) = CompatibilityCompatible <->
   Forall (fun s => understood s = true) (ix_Sections i) /\ Forall (fun k => k ∈ si_Kind <$> ix_Sections i) requiredV2Sections) /\
  (cr_Status (assessCompatibility i) <> CompatibilityCompatible -> cr_Status (assessCompatibility i) = CompatibilityIncompatible).
Proof.
  unfold assessCompatibility.
  pose proof (assess_sections (ix_Sections i) {| cr_Status := CompatibilityCompatible; cr_Issues := [] |} ∅) as H.
  destruct (foldl assess_section _ _) as [r seen]. destruct H as [Hs Hseen]. rewrite assess_kinds, Hs. cbn [cr_Status].
  assert (H1 : forallb understood (ix_Sections i) = true <-> Forall (fun s => understood s = true) (ix_Sections i)).
  { rewrite forallb_forall, Forall_forall. by setoid_rewrite list_elem_of_In. }
  assert (H2 : forallb (fun k => bool_decide (k ∈ seen)) requiredV2Sections = true <->
    Forall (fun k => k ∈ si_Kind <$> ix_Sections i) requiredV2Sections).
  { rewrite forallb_forall, Forall_forall. setoid_rewrite <- list_elem_of_In. setoid_rewrite bool_decide_eq_true. setoid_rewrite Hseen.
    split; intros H k Hk; [by destruct (H k Hk) as [?%elem_of_empty|[_ ?]]|].
    right. split; [|by apply H]. unfold is_known, knownSectionVersions. by rewrite (bool_decide_eq_true_2 (k ∈ _)). }
  rewrite <- H1, <- H2. destruct (forallb understood _), (forallb _ requiredV2Sections); unfold status_after; intuition (discriminate || congruence).
Qed.

End index.



(** ** Version 1 *)

(** What [encoding/json] promises of a type: what it writes it reads back, if all texts are valid UTF-8 ([portable]). *)
Class Codec (A : Type) := {
  marshal : A -> string;
  unmarshal : string -> option A;
  portable : A -> Prop;
  read_back a : portable a -> unmarshal (marshal a) = Some a;
}.

(** An encoded struct is an object on one line, without space around it. *)
Class LineCodec (A : Type) `{Codec A} := {
  marshal_line a : without newline (marshal a) = true;
  marshal_solid a : solid (marshal a) = true;
}.

Definition currentCardVersion : Z := 1.
Record cardHeader := { ch_Version : Z }.

(** An entry of an archive: whether it is a directory, and its content unless reading it fails. *)
Record zip_entry := { ze_Name : string; ze_Dir : bool; ze_Data : option string }.

Section cards.
Context {Any : Type}.
Context `{!Codec cardHeader, !Codec Identity, !Codec Self, !Codec MemoryItem, !LineCodec MemoryItem,
          !Codec (option (list DriveItem)), !Codec (option (list GoalItem)), !Codec (option (list IntentionItem))}.
Notation DollState := (DollState Any).

Definition write (name content : string) : list zip_entry := [{| ze_Name := name; ze_Dir := false; ze_Data := Some content |}].

Definition writeMemories (items : list MemoryItem) : list zip_entry :=
  match items with
  | [] => []
  | _ => write "memories/memories-000001.jsonl" (foldr (fun m text => marshal m +:+ String newline text) "" items)
  end.

Definition has_self (s : Self) : bool :=
  negb (empty_str (se_DisplayName s)) || negb (empty_str (se_Pronouns s)) || negb (empty_str (se_Tagline s)).

Definition Encode (s : DollState) : list zip_entry :=
  write "card.json" (marshal {| ch_Version := currentCardVersion |}) ++
  write "identity.json" (marshal (ds_Identity s)) ++
  write "soul.md" (so_Content (ds_Soul s)) ++
  (if has_self (ds_Self s) then write "self/self.json" (marshal (ds_Self s)) else []) ++
  write "owner/owner.md" (ow_Content (ds_Owner s)) ++
  writeMemories (items (ds_Memories s)) ++
  (match items (ds_Drives s) with [] => [] | _ => write "drives/drives.json" (marshal (ds_Drives s)) end) ++
  (match items (ds_Goals s) with [] => [] | _ => write "goals/goals.json" (marshal (ds_Goals s)) end) ++
  (match items (ds_Intentions s) with [] => [] | _ => write "intentions/intentions.json" (marshal (ds_Intentions s)) end).

Definition requiredFiles : list string := ["card.json"; "identity.json"; "soul.md"; "owner/owner.md"].

(** [strings.TrimLeft(strings.ReplaceAll(name, "\\", "/"), "/")]. *)
Fixpoint trim_slashes (s : string) : string :=
  match s with String c r => if Ascii.eqb c slash then trim_slashes r else s | EmptyString => s end.
Definition normal_name (name : string) : string :=
  trim_slashes (String.string_of_list_ascii ((fun c => if Ascii.eqb c backslash then slash else c) <$> String.list_ascii_of_string name)).

Fixpoint indexZIP (files : gmap string string) (l : list zip_entry) : res card_error (gmap string string) :=
  match l with
  | [] => Ok files
  | e :: rest =>
      if ze_Dir e then indexZIP files rest
      else match ze_Data e with
           | None => Err UnreadableEntry
           | Some data => indexZIP (<[normal_name (ze_Name e) := data]> files) rest
           end
  end.

Definition HasSuffix (s suffix : string) : bool := String.prefix (String.rev suffix) (String.rev s).

Definition is_segment (name : string) : bool := String.prefix "memories/" name && HasSuffix name ".jsonl".

Definition segment_names (files : gmap string string) : list string :=
  merge_sort str_le (filter (fun n => is_segment n = true) (map_to_list files).*1).

(** [bufio.Scanner] on lines: a text that does not end in a line feed has a last line without one; a carriage return
    before the line feed is dropped; a line must fit in the buffer of 64 KiB together with its line feed. *)
Definition max_line : Z := 64 * 1024 - 1.

Fixpoint scanned_lines (l : list string) : list string :=
  match l with
  | [] => []
  | [last] => if empty_str last then [] else [last]
  | line :: rest => line :: scanned_lines rest
  end.

Definition carriage_return : Ascii.ascii := Ascii.ascii_of_nat 13.
Definition drop_cr (line : string) : string :=
  match String.rev line with
  | String c r => if Ascii.eqb c carriage_return then String.rev r else line
  | EmptyString => line
  end.

Fixpoint read_lines (l : list string) : res card_error (list MemoryItem) :=
  match l with
  | [] => Ok []
  | line :: rest =>
      refuse max_line <? Z.of_nat (String.length line) with LineTooLong;
      let text := TrimSpace (drop_cr line) in
      if empty_str text then read_lines rest
      else match unmarshal text with
           | None => Err BadMemory
           | Some m => try ms <- read_lines rest; Ok (m :: ms)
           end
  end.

Fixpoint read_segments (files : gmap string string) (names : list string) : res card_error (list MemoryItem) :=
  match names with
  | [] => Ok []
  | n :: rest =>
      try ms <- read_lines (scanned_lines (split_on newline (default "" (files !! n))));
      try more <- read_segments files rest;
      Ok (ms ++ more)
  end.

Definition decodeMemories (files : gmap string string) : res card_error (option (list MemoryItem)) :=
  try ms <- read_segments files (segment_names files);
  Ok (nil_if_empty ms).

(** An optional part: absent, or read. *)
Definition optional {A} `{!Codec A} (files : gmap string string) (name : string) (e : card_error) (absent : A) : res card_error A :=
  match files !! name with
  | None => Ok absent
  | Some data => match unmarshal data with Some v => Ok v | None => Err e end
  end.

Definition required {A} `{!Codec A} (data : string) (e : card_error) : res card_error A :=
  match unmarshal data with Some v => Ok v | None => Err e end.

Fixpoint check_required (files : gmap string string) (names : list string) : res card_error unit :=
  match names with
  | [] => Ok tt
  | n :: rest => match files !! n with None => Err (MissingFile n) | Some _ => check_required files rest end
  end.

Definition decodeZip (l : list zip_entry) : res card_error DollState :=
  try files <- indexZIP ∅ l;
  try _ <- check_required files requiredFiles;
  let file name := default "" (files !! name) in
  try card <- required (file "card.json") BadHeader;
  refuse negb (ch_Version card =? currentCardVersion) with UnsupportedVersion;
  try ident <- required (file "identity.json") BadIdentity;
  refuse empty_str (di_DollID ident) with MissingDollID;
  refuse empty_str (di_CanonicalName ident) with MissingName;
  let soul := TrimSpace (file "soul.md") in
  refuse empty_str soul with EmptySoul;
  let owner := TrimSpace (file "owner/owner.md") in
  refuse empty_str owner with EmptyOwner;
  try self <- optional files "self/self.json" BadSelf (ds_Self (Any := Any) NewDollState);
  try memories <- decodeMemories files;
  try drives <- optional files "drives/drives.json" BadDrives None;
  try goals <- optional files "goals/goals.json" BadGoals None;
  try intentions <- optional files "intentions/intentions.json" BadIntentions None;
  Ok {| ds_Version := CurrentStateVersion; ds_Identity := ident; ds_Soul := {| so_Revision := 1; so_Content := soul |};
        ds_Owner := {| ow_OwnerID := ""; ow_Name := ""; ow_Content := owner |}; ds_Self := self; ds_Memories := memories;
        ds_Drives := drives; ds_Goals := goals; ds_Skills := None; ds_Intentions := intentions;
        ds_Auth := ds_Auth (Any := Any) NewDollState; ds_Secrets := None; ds_ExtensionData := ∅ |}.

(** ** A Doll and its card *)

Lemma drop_cr_solid s : solid s = true -> drop_cr s = s.
Proof.
  intros (c & t & d & u & -> & Hr & _ & Hd)%solid_spec. unfold drop_cr. rewrite Hr.
  destruct (Ascii.eqb_spec d carriage_return) as [->|]; [by vm_compute in Hd|done].
Qed.

Lemma lines_split (ms : list MemoryItem) :
  split_on newline (foldr (fun m text => marshal m +:+ String newline text) "" ms) = (marshal <$> ms) ++ [""].
Proof using Codec3 LineCodec0. induction ms as [|m ms IH]; [done|]. simpl. rewrite split_on_cons by apply marshal_line. by rewrite IH. Qed.

Lemma scanned_app l : scanned_lines (l ++ [""]) = l.
Proof. induction l as [|x l IH]; [done|]. simpl. rewrite IH. by destruct l. Qed.

Definition fits (m : MemoryItem) : bool := Z.of_nat (String.length (marshal m)) <=? max_line.

Lemma lines_read (ms : list MemoryItem) :
  Forall portable ms -> if forallb fits ms then read_lines (marshal <$> ms) = Ok ms else is_ok (read_lines (marshal <$> ms)) = false.
Proof using Codec3 LineCodec0.
  induction 1 as [|m ms Hm _ IH]; [done|]. rewrite fmap_cons. cbn [forallb read_lines]. unfold fits at 1. rewrite Z.ltb_antisym.
  destruct (_ <=? max_line); [|done]. cbn [andb negb]. rewrite drop_cr_solid, TrimSpace_solid by apply marshal_solid.
  pose proof (marshal_solid m) as Hs. apply solid_spec in Hs as (c & t & _ & _ & Hc & _). rewrite read_back by done.
  replace (empty_str (marshal m)) with false by (by rewrite Hc). destruct (forallb fits ms).
  - by rewrite IH.
  - by destruct (read_lines _).
Qed.

(** The archive of a state, indexed. *)
Lemma encoded_files (s : DollState) :
  exists files, indexZIP ∅ (Encode s) = Ok files /\
    files !! "card.json" = Some (marshal {| ch_Version := currentCardVersion |}) /\
    files !! "identity.json" = Some (marshal (ds_Identity s)) /\
    files !! "soul.md" = Some (so_Content (ds_Soul s)) /\
    files !! "owner/owner.md" = Some (ow_Content (ds_Owner s)) /\
    files !! "self/self.json" = (if has_self (ds_Self s) then Some (marshal (ds_Self s)) else None) /\
    files !! "drives/drives.json" = match items (ds_Drives s) with [] => None | _ => Some (marshal (ds_Drives s)) end /\
    files !! "goals/goals.json" = match items (ds_Goals s) with [] => None | _ => Some (marshal (ds_Goals s)) end /\
    files !! "intentions/intentions.json" = match items (ds_Intentions s) with [] => None | _ => Some (marshal (ds_Intentions s)) end /\
    segment_names files = match items (ds_Memories s) with [] => [] | _ => ["memories/memories-000001.jsonl"] end /\
    (items (ds_Memories s) <> [] -> files !! "memories/memories-000001.jsonl" =
       Some (foldr (fun m text => marshal m +:+ String newline text) "" (items (ds_Memories s)))).
Proof.
  unfold Encode, writeMemories.
  generalize (marshal {| ch_Version := currentCardVersion |}), (marshal (ds_Identity s)), (so_Content (ds_Soul s)),
    (ow_Content (ds_Owner s)), (marshal (ds_Self s)), (marshal (ds_Drives s)), (marshal (ds_Goals s)), (marshal (ds_Intentions s)),
    (foldr (fun m text => marshal m +:+ String newline text) "" (items (ds_Memories s))), (has_self (ds_Self s)).
  intros card ident soul owner self drives goals intentions mem hs.
  destruct hs, (items (ds_Memories s)), (items (ds_Drives s)), (items (ds_Goals s)), (items (ds_Intentions s));
    (eexists; split; [reflexivity|]; split_and!; [vm_compute; reflexivity..|try (intros _; vm_compute; reflexivity); done]).
Qed.

(** What a card carries of a state. *)
Definition carried (s : DollState) : DollState :=
  {| ds_Version := CurrentStateVersion; ds_Identity := ds_Identity s;
     ds_Soul := {| so_Revision := 1; so_Content := TrimSpace (so_Content (ds_Soul s)) |};
     ds_Owner := {| ow_OwnerID := ""; ow_Name := ""; ow_Content := TrimSpace (ow_Content (ds_Owner s)) |};
     ds_Self := ds_Self s; ds_Memories := nil_if_empty (items (ds_Memories s)); ds_Drives := nil_if_empty (items (ds_Drives s));
     ds_Goals := nil_if_empty (items (ds_Goals s)); ds_Skills := None; ds_Intentions := nil_if_empty (items (ds_Intentions s));
     ds_Auth := ds_Auth (Any := Any) NewDollState; ds_Secrets := None; ds_ExtensionData := ∅ |}.

(** The states whose card can be read: they are named, have a soul and an owner, and no memory is too long for a line. *)
Definition readable (s : DollState) : bool :=
  negb (empty_str (di_DollID (ds_Identity s))) && negb (empty_str (di_CanonicalName (ds_Identity s))) &&
  negb (blank (so_Content (ds_Soul s))) && negb (blank (ow_Content (ds_Owner s))) && forallb fits (items (ds_Memories s)).

Definition portable_state (s : DollState) : Prop :=
  portable {| ch_Version := currentCardVersion |} /\ portable (ds_Identity s) /\ portable (ds_Self s) /\
  Forall portable (items (ds_Memories s)) /\ portable (ds_Drives s) /\ portable (ds_Goals s) /\ portable (ds_Intentions s).

Lemma optional_items {A} `{!Codec (option (list A))} files name e (l : option (list A)) :
  portable l -> files !! name = match items l with [] => None | _ => Some (marshal l) end ->
  optional files name e None = Ok (nil_if_empty (items l)).
Proof.
  intros Hp Hf. unfold optional. rewrite Hf. destruct l as [[|x l]|]; simpl; [done| |done]. by rewrite read_back.
Qed.

Lemma optional_self files (self : Self) :
  portable self -> files !! "self/self.json" = (if has_self self then Some (marshal self) else None) ->
  optional files "self/self.json" BadSelf (ds_Self (Any := Any) NewDollState) = Ok self.
Proof.
  intros Hp Hf. unfold optional. rewrite Hf. destruct (has_self self) eqn:E; [by rewrite read_back|].
  unfold has_self in E. bool_props. destruct self; simpl in *. rewrite !empty_str_true in *. by subst.
Qed.

Lemma memories_read files (l : list MemoryItem) :
  Forall portable l -> segment_names files = match l with [] => [] | _ => ["memories/memories-000001.jsonl"] end ->
  (l <> [] -> files !! "memories/memories-000001.jsonl" = Some (foldr (fun m text => marshal m +:+ String newline text) "" l)) ->
  if forallb fits l then decodeMemories files = Ok (nil_if_empty l) else is_ok (decodeMemories files) = false.
Proof using Codec3 LineCodec0.
  intros Hp Hn Hf. unfold decodeMemories. rewrite Hn. destruct l as [|m l]; [done|]. cbn [read_segments].
  rewrite Hf by done. cbn [default from_option id]. rewrite lines_split, scanned_app. pose proof (lines_read (m :: l) Hp) as H.
  destruct (forallb fits (m :: l)).
  - rewrite H. cbn [res_bind]. by rewrite app_nil_r.
  - by destruct (read_lines _).
Qed.

(** C33: a Doll travels in its card.  The card of a state with portable texts can be read exactly when the Doll is named, its
    soul and its owner are described, and no memory takes more than a line of 64 KiB; reading it gives back the identity,
    the self, the memories, the drives, the goals and the intentions in their order, and the soul and the owner's
    description without surrounding space.  The revision of the soul, the owner's identifier and name, skills, secrets,
    credentials and extension data stay behind.  A Doll that has travelled once travels unchanged from then on. *)
Theorem card_roundtrip (s : DollState) :
  portable_state s ->
  (if readable s then decodeZip (Encode s) = Ok (carried s) else is_ok (decodeZip (Encode s)) = false) /\
  carried (carried s) = carried s.
Proof using Codec3 LineCodec0.
  intros (P0 & P1 & P2 & P3 & P4 & P5 & P6). split.
  - destruct (encoded_files s) as (files & Hi & F1 & F2 & F3 & F4 & F5 & F6 & F7 & F8 & F9 & F10).
    unfold decodeZip. rewrite Hi. cbn [res_bind check_required requiredFiles]. rewrite F1, F2, F3, F4. cbn [res_bind default from_option id].
    unfold required. rewrite !read_back by done. cbn [res_bind]. unfold readable.
    destruct (empty_str (di_DollID _)); [done|]. destruct (empty_str (di_CanonicalName _)); [done|]. unfold blank.
    destruct (empty_str (TrimSpace (so_Content _))); [done|]. destruct (empty_str (TrimSpace (ow_Content _))); [done|]. cbn [negb andb].
    rewrite (optional_self files (ds_Self s)) by done. cbn [res_bind ch_Version].
    pose proof (memories_read files _ P3 F9 F10) as Hm. destruct (forallb fits _).
    + rewrite Hm. cbn [res_bind]. rewrite (optional_items _ _ _ (ds_Drives s)), (optional_items _ _ _ (ds_Goals s)),
        (optional_items _ _ _ (ds_Intentions s)) by done. done.
    + by destruct (decodeMemories files).
  - unfold carried. simpl. by rewrite !nil_if_empty_items, !TrimSpace_idem.
Qed.

End cards.

(** ** Instances *)

(** An encoding of one value. *)
Definition one_value {A} (a0 : A) : Codec A.
Proof. refine {| marshal _ := "{}"; unmarshal _ := Some a0; portable a := a = a0 |}. by intros a ->. Defined.

Definition sample_memory : MemoryItem :=
  {| me_ID := "m1"; me_InteractionID := ""; me_Kind := KindObservation; me_Content := "rain"; me_Sequence := 0; me_Timestamp := "" |}.

Definition sample_doll : DollState () :=
  {| ds_Version := 1; ds_Identity := {| di_DollID := "d"; di_CanonicalName := "Ada"; di_TemplateRef := "" |};
     ds_Soul := {| so_Revision := 7; so_Content := "kind " |}; ds_Owner := {| ow_OwnerID := "o"; ow_Name := "O"; ow_Content := "an owner" |};
     ds_Self := {| se_DisplayName := "Ada"; se_Pronouns := ""; se_Tagline := "" |}; ds_Memories := Some [sample_memory; sample_memory];
     ds_Drives := None; ds_Goals := None; ds_Skills := None; ds_Intentions := None;
     ds_Auth := {| au_Token := ""; au_ExpiresAt := "" |}; ds_Secrets := None; ds_ExtensionData := ∅ |}.

#[local] Instance header_codec : Codec cardHeader := one_value {| ch_Version := 1 |}.
#[local] Instance identity_codec : Codec Identity := one_value (ds_Identity sample_doll).
#[local] Instance self_codec : Codec Self := one_value (ds_Self sample_doll).
#[local] Instance memory_codec : Codec MemoryItem := one_value sample_memory.
#[local] Instance drives_codec : Codec (option (list DriveItem)) := one_value None.
#[local] Instance goals_codec : Codec (option (list GoalItem)) := one_value None.
#[local] Instance intentions_codec : Codec (option (list IntentionItem)) := one_value None.
#[local] Instance memory_line : LineCodec MemoryItem.
Proof. split; intros a; reflexivity. Defined.

Lemma card_roundtrip_witness : decodeZip (Encode sample_doll) = Ok (carried sample_doll).
Proof.
  refine (proj1 (card_roundtrip sample_doll _)). split_and!; try reflexivity. by repeat constructor.
Defined.

Definition sample_index : IndexV2 :=
  {| ix_Version := 2; ix_DollID := "d";
     ix_Sections := [{| si_ID := "soul"; si_Kind := SectionSoul; si_SchemaVersion := 1; si_Required := true; si_Empty := false;
       si_Entries := [{| ae_Path := "soul/soul.md"; ae_SHA256 := SHA256Hex (bytes_of "kind"); ae_Size := 4; ae_Unknown := ∅ |}];
       si_Compatibility := []; si_Unknown := ∅ |}];
     ix_Unknown := ∅ |}.

Lemma index_accepted_witness :
  IndexV2_Validate (fun _ => true) sample_index {| ib_MaxSections := 20; ib_MaxEntries := 9; ib_MaxDeclaredBytes := 4 |} = Ok tt.
Proof.
  apply (index_accepted (fun _ => true)); [done|done|done|by repeat constructor|done|].
  split; [reflexivity|]. split; [reflexivity|]. split; [reflexivity|]. do 6 (split; [vm_compute; congruence|]).
  do 3 (split; [apply NoDup_singleton|]). split; (apply Forall_singleton; vm_compute; reflexivity).
Defined.
