(* ===== verification/Probe.v ===== *)
(** * Reachability probes

    Body/path_probe.go and Core/Relay/probe.go: a Body asks whether a relay can be
    reached with one datagram of 52 bytes, authenticated by HMAC-SHA256 under the
    credential of its route, and the relay answers in kind.  Both ends are
    modelled to the byte, with an executable HMAC; so are the limits on the
    frequency of probes: the relay's per source address, and the scheduler of the
    Body, whose durations are assumed below 2^53, where the [float64] in which it
    computes its backoff is exact. *)
From S2P Require Import Prelude GoBytes RelayRegistry.
From stdpp Require Import options.

(** ** HMAC-SHA256 *)

Definition le_put (n : nat) (z : Z) : list byte := rev (be_put n z).
Definition le_get (l : list byte) : Z := be_get (rev l).

Definition xor_bytes (c : Z) (l : list byte) : list byte := (fun b => z2b (Z.lxor (b2z b) c)) <$> l.

(** The key, hashed if it is longer than a block of 64 bytes, padded with zeros. *)
Definition hmac_key (key : list byte) : list byte :=
  let k := if Nat.ltb 64 (length key) then sha256 key else key in
  k ++ replicate (64 - length k) (z2b 0).

Definition hmac (key message : list byte) : list byte :=
  let k := hmac_key key in
  sha256 (xor_bytes 0x5c k ++ sha256 (xor_bytes 0x36 k ++ message)).

(** ** Datagrams *)

Definition ProbeMagicReq := "NLPR".
Definition ProbeMagicResp := "NLPS".
Definition ProbeNonceSize : nat := 8.
Definition ProbeDatagramSize : nat := 52.

Definition ProbeHMAC (magic : string) (routeID : Z) (nonce : list byte) (token : string) : list byte :=
  hmac (bytes_of token) (bytes_of magic ++ le_put 8 (u64 routeID) ++ nonce).

(** A datagram: magic, route, nonce and MAC copied into a buffer of 52 zero bytes. *)
Definition datagram (magic : string) (routeID : Z) (nonce mac : list byte) : list byte :=
  let buf := replicate ProbeDatagramSize (z2b 0) in
  let buf := go_copy buf 0 (take 4 (bytes_of magic)) in
  let buf := go_copy buf 4 (le_put 8 (u64 routeID)) in
  let buf := go_copy buf 12 (take 8 nonce) in
  go_copy buf 20 (take 32 mac).

Definition ProbeRequest (routeID : Z) (nonce : list byte) (token : string) : list byte :=
  datagram ProbeMagicReq routeID nonce (ProbeHMAC ProbeMagicReq routeID nonce token).

Inductive probe_error := TooShort | BadMagic | RouteMismatch | NonceMismatch | HMACMismatch.

Definition VerifyProbeResponse (data : list byte) (routeID : Z) (nonce : list byte) (token : string) : res probe_error unit :=
  refuse Nat.ltb (length data) ProbeDatagramSize with TooShort;
  refuse negb (bool_decide (slice 0 4 data = bytes_of ProbeMagicResp)) with BadMagic;
  refuse negb (le_get (slice 4 12 data) =? routeID) with RouteMismatch;
  refuse negb (bool_decide (slice 12 20 data = nonce)) with NonceMismatch;
  refuse negb (bool_decide (slice 20 52 data = ProbeHMAC ProbeMagicResp routeID nonce token)) with HMACMismatch;
  Ok tt.

(** The Body has functions of its own for the same messages. *)
Definition computeProbeHMAC (magic : string) (routeID : Z) (nonce : list byte) (credential : string) : list byte :=
  hmac (bytes_of credential) (bytes_of magic ++ le_put 8 (u64 routeID) ++ nonce).

Definition encodeProbeRequest (routeID : Z) (nonce : list byte) (credential : string) : list byte :=
  datagram "NLPR" routeID nonce (computeProbeHMAC "NLPR" routeID nonce credential).

Definition verifyProbeResponse (data : list byte) (routeID : Z) (nonce : list byte) (credential : string) : res probe_error unit :=
  refuse Nat.ltb (length data) 52 with TooShort;
  refuse negb (bool_decide (slice 0 4 data = bytes_of "NLPS")) with BadMagic;
  refuse negb (le_get (slice 4 12 data) =? routeID) with RouteMismatch;
  refuse negb (bool_decide (slice 12 20 data = nonce)) with NonceMismatch;
  refuse negb (bool_decide (slice 20 52 data = computeProbeHMAC "NLPS" routeID nonce credential)) with HMACMismatch;
  Ok tt.

(** ** The Body's probe *)

(** [rp_RouteID] is a [uint64]. *)
Record ReachProbeConfig := { rp_RouteID : Z; rp_Credential : string }.

Inductive reach_error := DialFailed | NonceFailed | WriteFailed | ReadFailed | VerifyFailed (e : probe_error) | Cancelled.

(** How the calls of a probe go: the dial, the random nonce, the write, the datagram that arrives before the deadline, if
    any, given what was sent, and whether the context is done first. *)
Record exchange := {
  x_dials : bool; x_nonce : option (list byte); x_writes : bool; x_answer : list byte -> option (list byte); x_cancelled : bool;
}.

(** The answer is read into a buffer of 52 bytes: of a longer datagram the rest is lost. *)
Definition ReachProbe (c : ReachProbeConfig) (x : exchange) : res reach_error unit :=
  refuse negb (x_dials x) with DialFailed;
  refuse x_cancelled x with Cancelled;
  match x_nonce x with
  | None => Err NonceFailed
  | Some nonce =>
      let req := encodeProbeRequest (rp_RouteID c) nonce (rp_Credential c) in
      refuse negb (x_writes x) with WriteFailed;
      match x_answer x req with
      | None => Err ReadFailed
      | Some resp =>
          match verifyProbeResponse (take 52 resp) (rp_RouteID c) nonce (rp_Credential c) with
          | Ok _ => Ok tt
          | Err e => Err (VerifyFailed e)
          end
      end
  end.

(** ** The relay's answer *)

(** The response that is sent, if any. *)
Definition handleProbe (reg : Registry) (data : list byte) : option (list byte) :=
  if negb (bool_decide (slice 0 4 data = bytes_of ProbeMagicReq)) then None
  else
    let routeID := le_get (slice 4 12 data) in
    let nonce := slice 12 20 data in
    match Route reg routeID with
    | None => None
    | Some entry =>
        if negb (bool_decide (slice 20 52 data = ProbeHMAC ProbeMagicReq routeID nonce (re_Credentials entry))) then None
        else Some (datagram ProbeMagicResp routeID nonce (ProbeHMAC ProbeMagicResp routeID nonce (re_Credentials entry)))
    end.

Record ProbeListenerConfig := { pl_Enabled : bool; pl_Port : Z; pl_RateLimit : Z; pl_RateLimitMaxEntries : Z }.

Definition ApplyDefaults (c : ProbeListenerConfig) : ProbeListenerConfig :=
  {| pl_Enabled := pl_Enabled c; pl_Port := pl_Port c;
     pl_RateLimit := if pl_RateLimit c =? 0 then 100 else pl_RateLimit c;
     pl_RateLimitMaxEntries := if pl_RateLimitMaxEntries c =? 0 then 10000 else pl_RateLimitMaxEntries c |}.

(** The times of the last probes; the configuration is part of the listener. *)
Record ProbeListener := { pl_config : ProbeListenerConfig; pl_rateLimit : gmap string time }.

Definition put_rates (l : ProbeListener) (m : gmap string time) : ProbeListener := {| pl_config := pl_config l; pl_rateLimit := m |}.

Definition NewProbeListener (c : ProbeListenerConfig) : ProbeListener := {| pl_config := ApplyDefaults c; pl_rateLimit := ∅ |}.

Definition spacing (c : ProbeListenerConfig) : duration := Z.quot second (pl_RateLimit c).

Definition allowProbe (l : ProbeListener) (srcIP : string) (now : time) : bool * ProbeListener :=
  let last := pl_rateLimit l !! srcIP in
  if bool_decide (last = None) && (pl_RateLimitMaxEntries (pl_config l) <=? Z.of_nat (size (pl_rateLimit l))) then (false, l)
  else if match last with Some t => Sub now t <? spacing (pl_config l) | None => false end then (false, l)
  else (true, put_rates l (<[srcIP := now]> (pl_rateLimit l))).

Definition pruneRateLimit (l : ProbeListener) (now : time) : ProbeListener :=
  put_rates l (filter (fun e : string * time => Before e.2 (now - 600 * second) = false) (pl_rateLimit l)).

(** One round of the loop: a read that times out, with or without a tick of the cleanup timer, or a datagram.  The buffer
    of 116 bytes cuts longer datagrams, which are not of the right size before or after. *)
Inductive arrival := ReadTimeout (now : time) (tick : bool) | Datagram (now : time) (src : string) (data : list byte).

Definition runLoop_step (reg : Registry) (l : ProbeListener) (a : arrival) : option (list byte) * ProbeListener :=
  match a with
  | ReadTimeout now tick => (None, if tick then pruneRateLimit l now else l)
  | Datagram now src data =>
      if negb (Nat.eqb (length data) ProbeDatagramSize) then (None, l)
      else let '(ok, l) := allowProbe l src now in
           if ok then (handleProbe reg data, l) else (None, l)
  end.

(** ** Probes and answers *)

Lemma le_get_put z : le_get (le_put 8 (u64 z)) = u64 z.
Proof.
  unfold le_get, le_put. rewrite rev_involutive, be_get_put. change (256 ^ Z.of_nat 8) with (2 ^ 64). unfold u64. by rewrite Z.mod_mod.
Qed.

Lemma le_put_get l : length l = 8%nat -> le_put 8 (le_get l) = l.
Proof. intros H. unfold le_get, le_put. rewrite be_put_get_n by (by rewrite length_rev). apply rev_involutive. Qed.

Lemma le_get_range l : length l = 8%nat -> 0 <= le_get l < 2 ^ 64.
Proof. intros H. pose proof (be_get_range (rev l)) as Hr. unfold le_get, len in *. rewrite length_rev, H in Hr. exact Hr. Qed.

Lemma length_hmac k m : length (hmac k m) = 32%nat.
Proof. apply length_sha256. Qed.

Lemma datagram_layout magic routeID nonce mac :
  length (bytes_of magic) = 4%nat -> length nonce = 8%nat -> length mac = 32%nat ->
  datagram magic routeID nonce mac = bytes_of magic ++ le_put 8 (u64 routeID) ++ nonce ++ mac.
Proof.
  intros Hm Hn Hc. unfold datagram. rewrite !take_ge by lia.
  assert (Hi : length (le_put 8 (u64 routeID)) = 8%nat) by (unfold le_put; by rewrite length_rev, length_be_put).
  change (replicate ProbeDatagramSize (z2b 0)) with (replicate 4 (z2b 0) ++ replicate 8 (z2b 0) ++ replicate 8 (z2b 0) ++ replicate 32 (z2b 0)).
  pose proof (fun rest => go_copy_at 0 [] (replicate 4 (z2b 0)) rest (bytes_of magic) eq_refl (eq_sym Hm)) as H0. cbn [app] in H0. rewrite H0.
  rewrite (go_copy_at 4 (bytes_of magic) (replicate 8 (z2b 0)) _ (le_put 8 _)) by (simpl; lia).
  rewrite (app_assoc (bytes_of magic)).
  rewrite (go_copy_at 12 (bytes_of magic ++ le_put 8 _) (replicate 8 (z2b 0)) _ nonce) by (rewrite ?length_app; simpl; lia).
  rewrite (app_assoc _ nonce). rewrite <- (app_nil_r (replicate 32 (z2b 0))).
  rewrite (go_copy_at 20 _ (replicate 32 (z2b 0)) [] mac) by (rewrite ?length_app; simpl; lia). by rewrite app_nil_r, <- !app_assoc.
Qed.

Lemma layout_slices (m i n c : list byte) :
  length m = 4%nat -> length i = 8%nat -> length n = 8%nat -> length c = 32%nat ->
  let d := m ++ i ++ n ++ c in
  length d = 52%nat /\ slice 0 4 d = m /\ slice 4 12 d = i /\ slice 12 20 d = n /\ slice 20 52 d = c.
Proof.
  intros Hm Hi Hn Hc d. unfold d. split_and!.
  - rewrite !length_app. lia.
  - apply (slice_app_mid 0 4 [] m); [done|simpl; lia].
  - apply (slice_app_mid 4 12 m i); lia.
  - rewrite app_assoc. apply (slice_app_mid 12 20 (m ++ i) n); rewrite ?length_app; lia.
  - replace (m ++ i ++ n ++ c) with (((m ++ i) ++ n) ++ c ++ []) by (by rewrite app_nil_r, <- !app_assoc). apply (slice_app_mid 20 52 ((m ++ i) ++ n) c); rewrite ?length_app; lia.
Qed.

Lemma slices_layout (d : list byte) : length d = 52%nat -> d = slice 0 4 d ++ slice 4 12 d ++ slice 12 20 d ++ slice 20 52 d.
Proof.
  intros H. rewrite <- !slice_split by lia. unfold slice. simpl. by rewrite drop_0, take_ge by lia.
Qed.

(** A valid datagram of either kind, for a route, a nonce and a credential. *)
Definition genuine (magic : string) (routeID : Z) (nonce : list byte) (token : string) : list byte :=
  bytes_of magic ++ le_put 8 routeID ++ nonce ++ ProbeHMAC magic routeID nonce token.

Lemma request_genuine routeID nonce token :
  0 <= routeID < 2 ^ 64 -> length nonce = 8%nat -> ProbeRequest routeID nonce token = genuine ProbeMagicReq routeID nonce token.
Proof.
  intros Hr Hn. unfold ProbeRequest, genuine. rewrite datagram_layout, u64_small; [done|done|done|done|apply length_hmac].
Qed.

Lemma genuine_slices magic routeID nonce token :
  length (bytes_of magic) = 4%nat -> 0 <= routeID < 2 ^ 64 -> length nonce = 8%nat ->
  let d := genuine magic routeID nonce token in
  length d = 52%nat /\ slice 0 4 d = bytes_of magic /\ le_get (slice 4 12 d) = routeID /\ slice 12 20 d = nonce /\
  slice 20 52 d = ProbeHMAC magic routeID nonce token.
Proof.
  intros Hm Hr Hn d. assert (Hi : length (le_put 8 routeID) = 8%nat) by (unfold le_put; by rewrite length_rev, length_be_put).
  destruct (layout_slices (bytes_of magic) (le_put 8 routeID) nonce (ProbeHMAC magic routeID nonce token)) as (? & ? & Hid & ? & ?);
    [done|done|done|apply length_hmac|]. split_and!; try done.
  unfold d, genuine. rewrite Hid. pose proof (le_get_put routeID) as Hg. by rewrite u64_small in Hg.
Qed.

(** A datagram whose fields are right is the genuine one. *)
Lemma fields_genuine d magic routeID nonce token :
  length d = 52%nat -> slice 0 4 d = bytes_of magic -> le_get (slice 4 12 d) = routeID -> slice 12 20 d = nonce ->
  slice 20 52 d = ProbeHMAC magic routeID nonce token -> d = genuine magic routeID nonce token.
Proof.
  intros Hl Hm Hi Hn Hc. rewrite (slices_layout d Hl), Hm, Hc, Hn. unfold genuine. f_equal. f_equal. rewrite <- Hi, le_put_get; [done|].
  rewrite length_slice; lia.
Qed.

(** When the relay answers. *)
Lemma handled_genuine reg data response :
  length data = 52%nat ->
  handleProbe reg data = Some response <->
  exists routeID nonce entry, Route reg routeID = Some entry /\ length nonce = 8%nat /\ 0 <= routeID < 2 ^ 64 /\
    data = genuine ProbeMagicReq routeID nonce (re_Credentials entry) /\
    response = genuine ProbeMagicResp routeID nonce (re_Credentials entry).
Proof.
  intros Hl. unfold handleProbe. split.
  - case_bool_decide as Hm; [|done]. destruct (Route reg _) as [entry|] eqn:Er; [|done]. case_bool_decide as Hc; [|done].
    intros [= <-]. assert (Hn : length (slice 12 20 data) = 8%nat) by (rewrite length_slice; lia).
    assert (Hid : 0 <= le_get (slice 4 12 data) < 2 ^ 64) by (apply le_get_range; rewrite length_slice; lia).
    eexists _, _, entry. split_and!; [exact Er|exact Hn|lia|lia|by apply fields_genuine|].
    rewrite datagram_layout, u64_small; [done|done|done|done|apply length_hmac].
  - intros (routeID & nonce & entry & Er & Hn & Hr & -> & ->).
    destruct (genuine_slices ProbeMagicReq routeID nonce (re_Credentials entry) eq_refl Hr Hn) as (_ & S1 & S2 & S3 & S4).
    rewrite S1, S2, S3, S4, !bool_decide_eq_true_2, Er by done. cbn [negb]. rewrite bool_decide_eq_true_2 by done. cbn [negb].
    rewrite datagram_layout, u64_small; [done|done|done|done|apply length_hmac].
Qed.

(** When the Body accepts an answer. *)
Lemma verified_genuine data routeID nonce token :
  (length data <= 52)%nat -> 0 <= routeID < 2 ^ 64 ->
  verifyProbeResponse data routeID nonce token = Ok tt <-> length nonce = 8%nat /\ data = genuine ProbeMagicResp routeID nonce token.
Proof.
  intros Hl Hr. unfold verifyProbeResponse. split.
  - destruct (Nat.ltb_spec (length data) 52); [done|]. assert (Hd : length data = 52%nat) by lia.
    case_bool_decide as H1; [|done]. destruct (_ =? routeID) eqn:H2; [|done]. case_bool_decide as H3; [|done].
    case_bool_decide as H4; [|done]. intros _. apply Z.eqb_eq in H2. split; [rewrite <- H3, length_slice; lia|by apply fields_genuine].
  - intros [Hn ->]. destruct (genuine_slices ProbeMagicResp routeID nonce token eq_refl Hr Hn) as (S0 & S1 & S2 & S3 & S4).
    rewrite S0, S1, S2, S3, S4, Z.eqb_refl, !bool_decide_eq_true_2 by done. done.
Qed.

(** When a probe succeeds. *)
Lemma reached c x :
  0 <= rp_RouteID c < 2 ^ 64 ->
  ReachProbe c x = Ok tt <->
  x_dials x = true /\ x_cancelled x = false /\ x_writes x = true /\
  exists nonce resp, x_nonce x = Some nonce /\ length nonce = 8%nat /\
    x_answer x (encodeProbeRequest (rp_RouteID c) nonce (rp_Credential c)) = Some resp /\
    take 52 resp = genuine ProbeMagicResp (rp_RouteID c) nonce (rp_Credential c).
Proof.
  intros Hr. unfold ReachProbe. destruct (x_dials x); [|naive_solver]. destruct (x_cancelled x); [naive_solver|]. cbn [negb].
  destruct (x_nonce x) as [nonce|]; [|naive_solver]. destruct (x_writes x); [|naive_solver]. cbn [negb].
  destruct (x_answer x _) as [resp|] eqn:Ea; [|naive_solver].
  pose proof (verified_genuine (take 52 resp) (rp_RouteID c) nonce (rp_Credential c)) as Hv.
  rewrite length_take in Hv. specialize (Hv ltac:(lia) Hr).
  destruct (verifyProbeResponse _ _ _ _) as [[]|e].
  - split; [|done]. intros _. split_and!; try done. exists nonce, resp. naive_solver.
  - split; [done|]. intros (_ & _ & _ & n & r & [= <-] & Hn & Hans & Ht). exfalso. assert (resp = r) as <- by congruence.
    destruct Hv as [_ Hv]. discriminate Hv. by split.
Qed.

(** When the relay answers. *)
Lemma listener_answers reg l now src data response :
  (runLoop_step reg l (Datagram now src data)).1 = Some response <->
  (allowProbe l src now).1 = true /\
  exists routeID nonce entry, Route reg routeID = Some entry /\ length nonce = 8%nat /\ 0 <= routeID < 2 ^ 64 /\
    data = genuine ProbeMagicReq routeID nonce (re_Credentials entry) /\
    response = genuine ProbeMagicResp routeID nonce (re_Credentials entry).
Proof.
  simpl. destruct (Nat.eqb_spec (length data) ProbeDatagramSize) as [Hl|Hl]; cbn [negb fst].
  - rewrite <- (handled_genuine reg data response Hl). destruct (allowProbe l src now) as [[] l']; simpl; naive_solver.
  - split; [done|]. intros (_ & routeID & nonce & entry & _ & Hn & Hr & -> & _). exfalso. apply Hl. by apply genuine_slices.
Qed.

(** C35: an exchange of probes.  The relay answers a datagram if and only if its source is not over the limit and the
    datagram is the genuine request of a registered route under its credential, and then with the genuine answer.  A
    Body's probe succeeds if and only if it was sent, was not cancelled, and what arrived begins with the genuine answer
    to the request it sent (the Body reads 52 bytes).  So the probe of a Body that holds the credential of a registered
    route succeeds when the relay's limit lets it through and both datagrams arrive.  The two implementations of the
    messages agree. *)
Theorem probe_exchange reg l now src :
  (forall data response,
     (runLoop_step reg l (Datagram now src data)).1 = Some response <->
     (allowProbe l src now).1 = true /\
     exists routeID nonce entry, Route reg routeID = Some entry /\ length nonce = 8%nat /\ 0 <= routeID < 2 ^ 64 /\
       data = genuine ProbeMagicReq routeID nonce (re_Credentials entry) /\
       response = genuine ProbeMagicResp routeID nonce (re_Credentials entry)) /\
  (forall c x, 0 <= rp_RouteID c < 2 ^ 64 ->
     ReachProbe c x = Ok tt <->
     x_dials x = true /\ x_cancelled x = false /\ x_writes x = true /\
     exists nonce resp, x_nonce x = Some nonce /\ length nonce = 8%nat /\
       x_answer x (encodeProbeRequest (rp_RouteID c) nonce (rp_Credential c)) = Some resp /\
       take 52 resp = genuine ProbeMagicResp (rp_RouteID c) nonce (rp_Credential c)) /\
  (forall routeID nonce entry, Route reg routeID = Some entry -> length nonce = 8%nat -> 0 <= routeID < 2 ^ 64 ->
     (allowProbe l src now).1 = true ->
     ReachProbe {| rp_RouteID := routeID; rp_Credential := re_Credentials entry |}
       {| x_dials := true; x_nonce := Some nonce; x_writes := true; x_cancelled := false;
          x_answer := fun req => (runLoop_step reg l (Datagram now src req)).1 |} = Ok tt) /\
  (forall data routeID nonce token, encodeProbeRequest routeID nonce token = ProbeRequest routeID nonce token /\
     verifyProbeResponse data routeID nonce token = VerifyProbeResponse data routeID nonce token).
Proof.
  split_and!; [intros data response; apply listener_answers|apply reached| |done].
  intros routeID nonce entry Er Hn Hr Ha. apply reached; [done|]. split_and!; try done.
  exists nonce, (genuine ProbeMagicResp routeID nonce (re_Credentials entry)). split_and!; try done.
  - cbn [x_answer rp_RouteID rp_Credential]. apply listener_answers. split; [done|]. exists routeID, nonce, entry. split_and!; try done; try lia.
    change (encodeProbeRequest routeID nonce (re_Credentials entry)) with (ProbeRequest routeID nonce (re_Credentials entry)).
    by apply request_genuine.
  - apply take_ge. cbn [rp_RouteID rp_Credential]. by destruct (genuine_slices ProbeMagicResp routeID nonce (re_Credentials entry) eq_refl Hr Hn) as [-> _].
Qed.

(** ** The limit on probes *)

(** The probe that is let through, if any. *)
Definition granted_by (l : ProbeListener) (a : arrival) : list (string * time) :=
  match a with
  | Datagram now src data => if Nat.eqb (length data) ProbeDatagramSize && (allowProbe l src now).1 then [(src, now)] else []
  | ReadTimeout _ _ => []
  end.

Fixpoint runLoop (reg : Registry) (l : ProbeListener) (arrivals : list arrival) : list (string * time) * ProbeListener :=
  match arrivals with
  | [] => ([], l)
  | a :: rest => let '(more, l') := runLoop reg (runLoop_step reg l a).2 rest in (granted_by l a ++ more, l')
  end.

Definition when (a : arrival) : time := match a with ReadTimeout now _ => now | Datagram now _ _ => now end.

Definition remembered (l : ProbeListener) (now : time) (e : string * time) : Prop :=
  (exists t, pl_rateLimit l !! e.1 = Some t /\ e.2 <= t) \/ e.2 < now - 600 * second.

Lemma spacing_range c : 0 < pl_RateLimit c -> 0 <= spacing c <= second.
Proof.
  intros H. unfold spacing, second. split; [apply Z.quot_pos; lia|].
  rewrite Z.quot_div_nonneg by lia. apply Z.div_le_upper_bound; lia.
Qed.

Lemma Sub_short c now t : 0 < pl_RateLimit c -> (Sub now t <? spacing c) = (now - t <? spacing c).
Proof.
  intros H. pose proof (spacing_range c H). unfold Sub, second in *. apply eq_true_iff_eq. rewrite !Z.ltb_lt. lia.
Qed.

Definition apart (c : ProbeListenerConfig) (e g : string * time) : Prop := e.1 = g.1 -> spacing c <= g.2 - e.2.

Lemma allow_spec l src now ok l' :
  0 < pl_RateLimit (pl_config l) -> allowProbe l src now = (ok, l') ->
  pl_config l' = pl_config l /\
  if ok then pl_rateLimit l' = <[src := now]> (pl_rateLimit l) /\
             (forall t, pl_rateLimit l !! src = Some t -> spacing (pl_config l) <= now - t) /\
             (pl_rateLimit l !! src = None -> Z.of_nat (size (pl_rateLimit l)) < pl_RateLimitMaxEntries (pl_config l))
  else l' = l.
Proof.
  intros Hr. unfold allowProbe. destruct (_ && _) eqn:E1; [by intros [= <- <-]|].
  destruct (pl_rateLimit l !! src) as [t|] eqn:El.
  - rewrite Sub_short by done. destruct (now - t <? _) eqn:E2; [by intros [= <- <-]|]. intros [= <- <-]. apply Z.ltb_ge in E2.
    split_and!; try done. by intros t' [= <-].
  - intros [= <- <-]. simpl in E1. apply Z.leb_gt in E1. by split_and!.
Qed.

Lemma remembered_later l l' now now' e :
  now <= now' -> (forall t, pl_rateLimit l !! e.1 = Some t -> e.2 <= t ->
    t < now' - 600 * second \/ exists t', pl_rateLimit l' !! e.1 = Some t' /\ t <= t') ->
  remembered l now e -> remembered l' now' e.
Proof.
  intros Hn Hl [(t & Ht & Hle)|Hold]; [|right; lia]. destruct (Hl t Ht Hle) as [|(t' & Ht' & ?)]; [right; lia|left; exists t'; split; [done|lia]].
Qed.

Lemma past_kept l now now' past :
  now <= now' -> Forall (fun e => remembered l now e /\ e.2 <= now) past -> Forall (fun e => remembered l now' e /\ e.2 <= now') past.
Proof.
  intros Hn Hp. eapply Forall_impl; [exact Hp|]. intros e [He Hle]. split; [|lia]. apply (remembered_later l l now); [done| |done].
  intros t Ht _. right. exists t. by split.
Qed.

Definition within (l : ProbeListener) : Prop := Z.of_nat (size (pl_rateLimit l)) <= pl_RateLimitMaxEntries (pl_config l).

Lemma step_facts reg l a past from :
  0 < pl_RateLimit (pl_config l) -> within l -> from <= when a -> Forall (fun e => remembered l from e /\ e.2 <= from) past ->
  let l' := (runLoop_step reg l a).2 in
  pl_config l' = pl_config l /\ within l' /\ Forall (fun e => remembered l' (when a) e /\ e.2 <= when a) past /\
  (forall now src data, a = Datagram now src data -> Nat.eqb (length data) ProbeDatagramSize && (allowProbe l src now).1 = true ->
     remembered l' now (src, now) /\ Forall (fun e => apart (pl_config l) e (src, now)) past).
Proof.
  intros Hr Hw Hf Hp. pose proof (spacing_range _ Hr) as Hs. destruct a as [now tick|now src data]; simpl in Hf |- *.
  - assert (Hk := past_kept _ _ now _ Hf Hp). destruct tick; simpl; [|by split_and!]. split_and!; try done.
    + unfold within, pruneRateLimit in *. simpl. pose proof (map_subseteq_size _ _ (map_filter_subseteq (fun e : string * time => Before e.2 (now - 600 * second) = false) (pl_rateLimit l))). lia.
    + eapply Forall_impl; [exact Hp|]. intros e [He ?]. split; [|lia]. eapply remembered_later; [exact Hf| |exact He].
      intros t Ht _. unfold pruneRateLimit. simpl. destruct (Before t (now - 600 * second)) eqn:E.
      { left. by apply Z.ltb_lt. }
      right. exists t. split; [|lia]. by apply map_lookup_filter_Some.
  - assert (Hk := past_kept _ _ now _ Hf Hp). destruct (Nat.eqb (length data) ProbeDatagramSize) eqn:Elen; cycle 1; cbn [negb].
    { split_and!; try done. intros now' src' data' [= <- <- <-]. by rewrite Elen. }
    destruct (allowProbe l src now) as [ok l'] eqn:Ea. destruct (allow_spec _ _ _ _ _ Hr Ea) as [Hc Ha]. destruct ok; simpl; cycle 1.
    { subst l'. split_and!; try done. intros now' src' data' [= <- <- <-]. by rewrite Elen, Ea. }
    destruct Ha as (Hm & Hsp & Hroom). split_and!; try done.
    + unfold within. rewrite Hc, Hm. unfold within in Hw. destruct (pl_rateLimit l !! src) eqn:El.
      * by rewrite map_size_insert_Some by eauto.
      * rewrite map_size_insert_None by done. specialize (Hroom eq_refl). lia.
    + eapply Forall_impl; [exact Hp|]. intros e [He Hle]. split; [|lia]. eapply remembered_later; [exact Hf| |exact He].
      intros t Ht Het. right. rewrite Hm. destruct (decide (src = e.1)) as [->|Hne].
      * exists now. rewrite lookup_insert_eq. split; [done|]. specialize (Hsp t Ht). lia.
      * exists t. by rewrite lookup_insert_ne.
    + intros now' src' data' [= <- <- <-] _. split; [left; exists now; simpl; by rewrite Hm, lookup_insert_eq|].
      eapply Forall_impl; [exact Hp|]. intros e [[(t & Ht & Hle)|Hold] Hfe] He; simpl in *.
      * rewrite He in Ht. specialize (Hsp t Ht). lia.
      * unfold second in *. lia.
Qed.

Lemma loop_facts reg arrivals : forall l from past,
  0 < pl_RateLimit (pl_config l) -> within l -> StronglySorted Z.le (from :: (when <$> arrivals)) ->
  Forall (fun e => remembered l from e /\ e.2 <= from) past ->
  let '(granted, l') := runLoop reg l arrivals in
  within l' /\ StronglySorted (apart (pl_config l)) granted /\ Forall (fun e => Forall (apart (pl_config l) e) granted) past.
Proof.
  induction arrivals as [|a rest IH]; intros l from past Hr Hw Hso Hp.
  { simpl. split_and!; [done|constructor|]. apply Forall_forall. intros e _. constructor. }
  rewrite fmap_cons in Hso. apply StronglySorted_inv in Hso as [Hso Hfrom]. apply Forall_cons in Hfrom as [Hf _].
  destruct (step_facts reg l a past from Hr Hw Hf Hp) as (Hc & Hw' & Hp' & Hg). cbn [runLoop].
  set (l1 := (runLoop_step reg l a).2) in *.
  set (granted := granted_by l a).
  assert (Hgr : granted = [] \/ exists now src, granted = [(src, now)] /\ when a = now /\ remembered l1 now (src, now) /\
    Forall (fun e => apart (pl_config l) e (src, now)) past).
  { unfold granted, granted_by. destruct a as [|now src data]; [by left|]. destruct (_ && _) eqn:E; [right|by left].
    destruct (Hg now src data eq_refl E). by exists now, src. }
  specialize (IH l1 (when a) (granted ++ past)). rewrite Hc in IH. destruct (runLoop reg l1 rest) as [more l'].
  destruct IH as (H1 & H2 & H3); [done|done|done| |].
  { apply Forall_app. split; [|done]. destruct Hgr as [->|(now & src & -> & <- & Hrem & _)]; constructor; [|constructor]. split; [done|simpl; lia]. }
  apply Forall_app in H3 as [H3 H4]. split; [done|]. destruct Hgr as [->|(now & src & -> & _ & _ & Hap)]; [done|].
  apply Forall_cons in H3 as [H3 _]. split; [by constructor|]. apply Forall_forall. intros e He. simpl. constructor.
  - by apply (proj1 (Forall_forall _ _) Hap).
  - by apply (proj1 (Forall_forall _ _) H4).
Qed.

Lemma loop_config reg arrivals : forall l granted l', runLoop reg l arrivals = (granted, l') -> pl_config l' = pl_config l.
Proof.
  induction arrivals as [|a rest IH]; intros l granted l'; simpl; [by intros [= _ <-]|].
  destruct (runLoop reg (runLoop_step reg l a).2 rest) as [more l1] eqn:E. intros [= _ <-]. rewrite (IH _ _ _ E).
  destruct a as [now tick|now src data]; simpl; [by destruct tick|]. destruct (Nat.eqb _ _); [|done]. simpl.
  destruct (allowProbe l src now) as [ok l2] eqn:Ea. assert (Hc : pl_config l2 = pl_config l).
  { unfold allowProbe in Ea. repeat case_match; by simplify_eq. }
  by destruct ok.
Qed.

(** C38: the relay's limit holds.  Over every run of the probe listener with a clock that does not go back, two probes
    of one source address are let through only at the configured distance, prunings of the table included, and the
    table never exceeds its bound. *)
Theorem probes_limited reg cfg arrivals from :
  0 <= pl_RateLimit cfg -> 0 <= pl_RateLimitMaxEntries cfg -> StronglySorted Z.le (from :: (when <$> arrivals)) ->
  let '(granted, l) := runLoop reg (NewProbeListener cfg) arrivals in
  StronglySorted (fun e g : string * time => e.1 = g.1 -> spacing (ApplyDefaults cfg) <= g.2 - e.2) granted /\
  Z.of_nat (size (pl_rateLimit l)) <= pl_RateLimitMaxEntries (ApplyDefaults cfg).
Proof.
  intros Hr Hm Hs. pose proof (loop_facts reg arrivals (NewProbeListener cfg) from []) as H.
  destruct (runLoop reg (NewProbeListener cfg) arrivals) as [granted l] eqn:E. destruct H as (Hw & Hso & _); [| |done|constructor|].
  - simpl. destruct (Z.eqb_spec (pl_RateLimit cfg) 0); lia.
  - unfold within. simpl. rewrite map_size_empty. destruct (Z.eqb_spec (pl_RateLimitMaxEntries cfg) 0); lia.
  - split; [done|]. unfold within in Hw. rewrite (loop_config reg arrivals (NewProbeListener cfg) _ _ E) in Hw. done.
Qed.

(** While datagrams keep arriving, the reads never time out and the table is never pruned: once it is full, a source
    that is not in it is never answered again. *)
Theorem full_table_locks_out reg arrivals l src now data :
  pl_rateLimit l !! src = None -> pl_RateLimitMaxEntries (pl_config l) <= Z.of_nat (size (pl_rateLimit l)) ->
  Forall (fun a => match a with ReadTimeout _ _ => False | Datagram _ _ _ => True end) arrivals ->
  (runLoop_step reg (runLoop reg l arrivals).2 (Datagram now src data)).1 = None.
Proof.
  intros Hs Hf Ha.
  assert (H : pl_rateLimit (runLoop reg l arrivals).2 !! src = None /\
    pl_RateLimitMaxEntries (pl_config (runLoop reg l arrivals).2) <= Z.of_nat (size (pl_rateLimit (runLoop reg l arrivals).2))).
  { revert l Hs Hf. induction Ha as [|a arrivals Ha _ IH]; intros l Hs Hf; [done|]. cbn [runLoop].
    specialize (IH (runLoop_step reg l a).2). destruct (runLoop reg (runLoop_step reg l a).2 arrivals) as [more l'].
    destruct a as [|now' src' data']; [done|]. simpl in IH |- *. destruct (Nat.eqb _ _); [|by apply IH]. simpl in IH |- *.
    destruct (allowProbe l src' now') as [ok l2] eqn:Ea.
    assert (H : pl_rateLimit l2 !! src = None /\ pl_RateLimitMaxEntries (pl_config l2) <= Z.of_nat (size (pl_rateLimit l2))).
    { unfold allowProbe in Ea. destruct (_ && _) eqn:E; [by simplify_eq|]. destruct (pl_rateLimit l !! src') eqn:El.
      - destruct (_ <? _); simplify_eq; [done|]. simpl. rewrite lookup_insert_ne by congruence. by rewrite map_size_insert_Some by eauto.
      - simpl in E. apply Z.leb_gt in E. lia. }
    destruct H. destruct ok; by apply IH. }
  destruct H as [H1 H2]. simpl. destruct (Nat.eqb _ _); [|done]. simpl. unfold allowProbe. rewrite H1. simpl.
  by rewrite (proj2 (Z.leb_le _ _) H2).
Qed.

(** ** The scheduler of the Body *)

Record ProbeSchedulerConfig := {
  sc_MinInterval : duration; sc_MaxBackoff : duration; sc_MaxAttempts : Z; sc_MaxAttemptsCooldown : duration; sc_InitialBackoff : duration;
}.

(** A zero time is one that was never set. *)
Record ProbeScheduler := {
  ps_Config : ProbeSchedulerConfig;
  ps_lastProbe : time;
  ps_inFlight : bool;
  ps_backoff : duration;
  ps_attempts : Z;
  ps_exhaustedAt : time;
}.

Definition or_default (value fallback : Z) : Z := if value <=? 0 then fallback else value.

Definition NewProbeScheduler (c : ProbeSchedulerConfig) : ProbeScheduler :=
  let c := {| sc_MinInterval := or_default (sc_MinInterval c) (30 * second); sc_MaxBackoff := or_default (sc_MaxBackoff c) (600 * second);
              sc_MaxAttempts := sc_MaxAttempts c; sc_MaxAttemptsCooldown := sc_MaxAttemptsCooldown c;
              sc_InitialBackoff := or_default (sc_InitialBackoff c) (5 * second) |} in
  {| ps_Config := c; ps_lastProbe := 0; ps_inFlight := false; ps_backoff := sc_InitialBackoff c; ps_attempts := 0; ps_exhaustedAt := 0 |}.

Definition cooldownDuration (s : ProbeScheduler) : duration :=
  if 0 <? sc_MaxAttemptsCooldown (ps_Config s) then sc_MaxAttemptsCooldown (ps_Config s) else i64 (10 * sc_MaxBackoff (ps_Config s)).

Definition exhausted (s : ProbeScheduler) : bool :=
  (0 <? sc_MaxAttempts (ps_Config s)) && (sc_MaxAttempts (ps_Config s) <=? ps_attempts s).

Definition take_slot (s : ProbeScheduler) (now : time) (backoff attempts : Z) (exhaustedAt : time) : ProbeScheduler :=
  {| ps_Config := ps_Config s; ps_lastProbe := now; ps_inFlight := true; ps_backoff := backoff; ps_attempts := attempts; ps_exhaustedAt := exhaustedAt |}.

Definition TryAcquireSlot (s : ProbeScheduler) (now : time) : bool * ProbeScheduler :=
  if ps_inFlight s then (false, s)
  else if negb (IsZero (ps_lastProbe s)) && (Sub now (ps_lastProbe s) <? sc_MinInterval (ps_Config s)) then (false, s)
  else if negb (IsZero (ps_lastProbe s)) && (Sub now (ps_lastProbe s) <? ps_backoff s) then (false, s)
  else if exhausted s then
    if IsZero (ps_exhaustedAt s) || (Sub now (ps_exhaustedAt s) <? cooldownDuration s) then (false, s)
    else (true, take_slot s now (sc_InitialBackoff (ps_Config s)) 0 0)
  else (true, take_slot s now (ps_backoff s) (ps_attempts s) (ps_exhaustedAt s)).

Definition BackoffDuration (s : ProbeScheduler) (now : time) : duration :=
  if ps_inFlight s then Z.max (sc_MinInterval (ps_Config s)) (ps_backoff s)
  else if IsZero (ps_lastProbe s) then 0
  else
    let elapsed := Sub now (ps_lastProbe s) in
    let remainingMinInterval := if elapsed <? sc_MinInterval (ps_Config s) then sc_MinInterval (ps_Config s) - elapsed else 0 in
    let remainingBackoff := if elapsed <? ps_backoff s then ps_backoff s - elapsed else 0 in
    let maxBlock := if remainingMinInterval <? remainingBackoff then remainingBackoff else remainingMinInterval in
    if exhausted s && negb (IsZero (ps_exhaustedAt s)) then
      let remaining := Z.max 0 (cooldownDuration s - Sub now (ps_exhaustedAt s)) in
      if maxBlock <? remaining then remaining else maxBlock
    else maxBlock.

Definition RecordResult (s : ProbeScheduler) (now : time) (reachable : bool) : ProbeScheduler :=
  if reachable then
    {| ps_Config := ps_Config s; ps_lastProbe := now; ps_inFlight := false; ps_backoff := 0; ps_attempts := 0; ps_exhaustedAt := 0 |}
  else
    let attempts := ps_attempts s + 1 in
    let out := (0 <? sc_MaxAttempts (ps_Config s)) && (sc_MaxAttempts (ps_Config s) <=? attempts) in
    {| ps_Config := ps_Config s; ps_lastProbe := now; ps_inFlight := false;
       ps_backoff := if out then ps_backoff s else Z.min (sc_InitialBackoff (ps_Config s) * 2 ^ (attempts - 1)) (sc_MaxBackoff (ps_Config s));
       ps_attempts := attempts;
       ps_exhaustedAt := if out && IsZero (ps_exhaustedAt s) then now else ps_exhaustedAt s |}.

Definition RecordCancelled (s : ProbeScheduler) (now : time) : ProbeScheduler :=
  {| ps_Config := ps_Config s; ps_lastProbe := now; ps_inFlight := false; ps_backoff := 0; ps_attempts := 0; ps_exhaustedAt := 0 |}.

Definition ResetBackoff (s : ProbeScheduler) : ProbeScheduler :=
  {| ps_Config := ps_Config s; ps_lastProbe := ps_lastProbe s; ps_inFlight := ps_inFlight s; ps_backoff := sc_InitialBackoff (ps_Config s);
     ps_attempts := 0; ps_exhaustedAt := 0 |}.

Definition Elapsed (s : ProbeScheduler) (now : time) : duration := if IsZero (ps_lastProbe s) then 0 else Sub now (ps_lastProbe s).

(** Operations at times that do not go back; callers may be several. *)
Inductive sched_step : relation (time * ProbeScheduler) :=
  | sched_acquire t now s : t <= now < 2 ^ 62 -> sched_step (t, s) (now, (TryAcquireSlot s now).2)
  | sched_result t now s reachable : t <= now < 2 ^ 62 -> sched_step (t, s) (now, RecordResult s now reachable)
  | sched_cancelled t now s : t <= now < 2 ^ 62 -> sched_step (t, s) (now, RecordCancelled s now)
  | sched_reset t s : sched_step (t, s) (t, ResetBackoff s).

Definition sane (c : ProbeSchedulerConfig) : Prop :=
  0 < sc_MinInterval c < 2 ^ 53 /\ 0 < sc_MaxBackoff c < 2 ^ 53 /\ 0 < sc_InitialBackoff c < 2 ^ 53 /\ sc_MaxAttemptsCooldown c < 2 ^ 53.

Definition sched_ok (st : time * ProbeScheduler) : Prop :=
  let '(t, s) := st in
  0 < t < 2 ^ 62 /\ sane (ps_Config s) /\ 0 <= ps_lastProbe s <= t /\ 0 <= ps_exhaustedAt s <= t /\ 0 <= ps_backoff s < 2 ^ 53 /\ 0 <= ps_attempts s /\
  (ps_lastProbe s = 0 -> ps_attempts s = 0) /\ (exhausted s = true -> ps_exhaustedAt s <> 0).

#[global] Instance sched_kept : Preserves sched_step sched_ok.
Proof.
  intros st st' H Hok. destruct H as [t now s Hn|t now s reachable Hn|t now s Hn|t s];
    destruct Hok as (Ht & Hs & Hl & He & Hb & Ha & H0 & Hx); unfold sched_ok, IsZero in *.
  - unfold TryAcquireSlot. repeat case_match; simpl; split_and!; try done; try lia; try (by unfold sane in Hs; lia).
    all: unfold exhausted in *; simpl in *; intros Hz; first [congruence|bool_props; lia].
  - unfold RecordResult. destruct reachable; simpl; split_and!; try done; try lia.
    + unfold exhausted. simpl. intros Hz. bool_props. lia.
    + case_match; lia.
    + case_match; lia.
    + destruct (_ && _); [lia|]. assert (0 < 2 ^ (ps_attempts s + 1 - 1)) by (apply Z.pow_pos_nonneg; lia). unfold sane in Hs. nia.
    + destruct (_ && _); [lia|]. unfold sane in Hs. lia.
    + unfold exhausted. simpl. intros Hz. rewrite Hz. simpl. unfold IsZero. destruct (Z.eqb_spec (ps_exhaustedAt s) 0); lia.
  - simpl. split_and!; try done; try lia. unfold exhausted. simpl. intros Hz. bool_props. lia.
  - simpl. split_and!; try done; try lia; try (unfold sane in Hs; lia). unfold exhausted. simpl. intros Hz. bool_props. lia.
Qed.

Lemma Sub_exact now t : 0 <= t <= now -> now < 2 ^ 63 -> Sub now t = now - t.
Proof. intros. unfold Sub. lia. Qed.

Lemma cooldown_range s : sane (ps_Config s) -> 0 < cooldownDuration s < 2 ^ 57.
Proof.
  intros (_ & Hm & _ & Hc). unfold cooldownDuration. destruct (Z.ltb_spec 0 (sc_MaxAttemptsCooldown (ps_Config s))); [lia|].
  rewrite i64_small by lia. lia.
Qed.

Lemma remaining_max a b : (if a <? b then b - a else 0) = Z.max 0 (b - a).
Proof. destruct (Z.ltb_spec a b); lia. Qed.

Lemma larger_max a b : (if a <? b then b else a) = Z.max a b.
Proof. destruct (Z.ltb_spec a b); lia. Qed.

(** The scheduler says exactly how long to wait.  In every state it can reach, when no probe is in flight, a slot is
    granted after a delay if and only if the delay is at least what [BackoffDuration] answered; and while a probe is in
    flight no slot is granted. *)
Theorem backoff_exact c t0 t s now d :
  sane (ps_Config (NewProbeScheduler c)) -> 0 < t0 < 2 ^ 62 -> rtc sched_step (t0, NewProbeScheduler c) (t, s) ->
  t <= now -> 0 <= d -> now + d < 2 ^ 62 ->
  if ps_inFlight s then (TryAcquireSlot s (now + d)).1 = false
  else (TryAcquireSlot s (now + d)).1 = true <-> BackoffDuration s now <= d.
Proof.
  intros Hc Ht0 Hr Hn Hd Hnd. apply (reachable_keeps sched_ok) in Hr.
  2: { unfold sched_ok, exhausted. simpl. split_and!; try done; unfold sane in Hc; simpl in Hc; try lia. all: intros Hz; bool_props; lia. }
  destruct Hr as (Ht & Hs & Hl & He & Hb & Ha & H0 & Hx). unfold TryAcquireSlot, BackoffDuration. destruct (ps_inFlight s); [done|].
  pose proof (cooldown_range s Hs) as Hcd. unfold IsZero. destruct (Z.eqb_spec (ps_lastProbe s) 0) as [E|E]; cbn [negb andb].
  - specialize (H0 E). destruct (exhausted s) eqn:Ex; [|simpl; lia]. unfold exhausted in Ex. bool_props. lia.
  - rewrite !Sub_exact by lia. cbv zeta. rewrite !remaining_max, !larger_max. destruct (exhausted s); cbn [andb orb]; [specialize (Hx eq_refl)|].
    + rewrite (proj2 (Z.eqb_neq _ _) Hx). cbn [orb negb].
      repeat match goal with |- context [?a <? ?b] => destruct (Z.ltb_spec a b) end; simpl; split; intros; first [done|exfalso; lia|lia].
    + repeat match goal with |- context [?a <? ?b] => destruct (Z.ltb_spec a b) end; simpl; split; intros; first [done|exfalso; lia|lia].
Qed.

(** ** Instances *)

Definition sample_arrivals : list arrival :=
  [Datagram 1000000000 "a" (replicate 52 (z2b 0)); Datagram 1005000000 "a" (replicate 52 (z2b 0));
   ReadTimeout 1006000000 true; Datagram 1010000000 "a" (replicate 52 (z2b 0))].

Definition sample_listener : ProbeListenerConfig := {| pl_Enabled := true; pl_Port := 0; pl_RateLimit := 0; pl_RateLimitMaxEntries := 0 |}.

Lemma probes_limited_witness :
  StronglySorted (fun e g : string * time => e.1 = g.1 -> 10000000 <= g.2 - e.2)
    (runLoop (NewRegistry 1 1) (NewProbeListener sample_listener) sample_arrivals).1.
Proof.
  pose proof (probes_limited (NewRegistry 1 1) sample_listener sample_arrivals 0) as H.
  destruct (runLoop (NewRegistry 1 1) (NewProbeListener sample_listener) sample_arrivals) as [granted l].
  apply H; [done|done|]. repeat constructor; done.
Defined.

Lemma backoff_exact_witness :
  let s := RecordResult (TryAcquireSlot (NewProbeScheduler {| sc_MinInterval := second; sc_MaxBackoff := 0; sc_MaxAttempts := 3;
                           sc_MaxAttemptsCooldown := 0; sc_InitialBackoff := 0 |}) second).2 (2 * second) false in
  BackoffDuration s (3 * second) = 4 * second /\ ((TryAcquireSlot s (3 * second + 4 * second)).1 = true <-> 4 * second <= 4 * second).
Proof.
  intros s. split; [reflexivity|].
  apply (backoff_exact {| sc_MinInterval := second; sc_MaxBackoff := 0; sc_MaxAttempts := 3; sc_MaxAttemptsCooldown := 0; sc_InitialBackoff := 0 |}
           second (2 * second) s (3 * second) (4 * second)); [repeat split; vm_compute; congruence|unfold second; lia| |unfold second; lia..].
  eapply rtc_l; [apply (sched_acquire second second); unfold second; lia|].
  eapply rtc_l; [apply (sched_result second (2 * second) _ false); unfold second; lia|]. apply rtc_refl.
Defined.
