(* ===== verification/Supervision.v ===== *)
(** * Path supervision

    The Body's side of keeping a path to the Core: loss_observer.go reads the
    last handshake of a tunnel, migrate.go replaces a tunnel by a better one,
    body_supervisor.go decides what to do when.  They act on the epoch of
    [Recovery] and on the set of running tunnels; what WireGuard, the clock and
    the goroutines that share the epoch do is part of the description of each
    operation.  A tunnel is named by a number; [is running] means that its device
    is up, which [Start] and [Stop] change: a start that fails leaves no device, and
    a stop closes the device whether or not it reports an error.  Every set of
    running tunnels a run goes through is recorded. *)
From S2P Require Import Prelude GoStrings Recovery Probe.
From stdpp Require Import options.

(** ** Loss *)

(** [strconv.ParseInt(s, 10, 64)]. *)
Definition digit (c : Ascii.ascii) : option Z := if (48 <=? code c) && (code c <=? 57) then Some (code c - 48) else None.

Fixpoint parse_digits (acc : Z) (s : string) : option Z :=
  match s with
  | EmptyString => Some acc
  | String c r => match digit c with Some d => parse_digits (10 * acc + d) r | None => None end
  end.

Definition ParseInt (s : string) : option Z :=
  let '(sign, body) := match s with
                       | String c r => if code c =? 45 then (-1, r) else if code c =? 43 then (1, r) else (1, s)
                       | EmptyString => (1, s)
                       end in
  if empty_str body then None
  else match parse_digits 0 body with
       | Some n => if (- 2 ^ 63 <=? sign * n) && (sign * n <? 2 ^ 63) then Some (sign * n) else None
       | None => None
       end.

Definition strip (prefix s : string) : option string :=
  if String.prefix prefix s then Some (String.substring (String.length prefix) (String.length s - String.length prefix) s) else None.

Inductive loss_error := BadSeconds | BadNanoseconds | IpcFailed | NoHandshake | BadLossConfig.

Fixpoint handshake_lines (sec nsec : Z) (found : bool) (lines : list string) : res loss_error Z :=
  match lines with
  | [] => Ok (if found then i64 (sec * 1000000000 + nsec) else 0)
  | line :: rest =>
      let line := TrimSpace line in
      match strip "last_handshake_time_sec=" line with
      | Some "" => Ok 0
      | Some raw =>
          match ParseInt raw with
          | None => Err BadSeconds
          | Some v => handshake_lines v nsec (found || (0 <? v)) rest
          end
      | None =>
          match strip "last_handshake_time_nsec=" line with
          | Some raw =>
              match ParseInt (if empty_str raw then "0" else raw) with
              | None => Err BadNanoseconds
              | Some v => handshake_lines sec v found rest
              end
          | None => handshake_lines sec nsec found rest
          end
      end
  end.

Definition line_feed : Ascii.ascii := Ascii.ascii_of_nat 10.
Definition extractLastHandshakeNano (ipcOut : string) : res loss_error Z := handshake_lines 0 0 false (split_on line_feed ipcOut).

Record LossObserverConfig := { lo_WGLivenessTimeout : duration; lo_PollInterval : duration }.

Definition LossObserverConfig_Validate (c : LossObserverConfig) : bool := (0 <? lo_WGLivenessTimeout c) && (0 <? lo_PollInterval c).

(** Starting the observer: [ipc] is what the device answers; a tunnel that is not running has none. *)
Definition StartLossObserver (c : LossObserverConfig) (ipc : option string) : res loss_error unit :=
  refuse negb (LossObserverConfig_Validate c) with BadLossConfig;
  match ipc with
  | None => Err IpcFailed
  | Some out => try nano <- extractLastHandshakeNano out; refuse nano <=? 0 with NoHandshake; Ok tt
  end.

(** One poll: whether the path is declared lost. *)
Definition poll (c : LossObserverConfig) (ipc : option string) (now : time) : bool :=
  match ipc with
  | None => false
  | Some out =>
      match extractLastHandshakeNano out with
      | Ok nano => (0 <? nano) && (lo_WGLivenessTimeout c <? Sub now nano)
      | Err _ => false
      end
  end.

(** ** Migration *)

(** [wd_seen] are the sets of running tunnels so far, after each start and stop, the latest first. *)
Record world := { wd_epoch : RecoveryEpoch; wd_running : gset nat; wd_seen : list (gset nat) }.

Definition put_epoch (w : world) (e : RecoveryEpoch) : world :=
  {| wd_epoch := e; wd_running := wd_running w; wd_seen := wd_seen w |}.
Definition put_running (w : world) (s : gset nat) : world :=
  {| wd_epoch := wd_epoch w; wd_running := s; wd_seen := s :: wd_seen w |}.

(** [BodyTunnel.Start], when it succeeds, and [BodyTunnel.Stop]. *)
Definition up (t : nat) (w : world) : world := put_running w ({[t]} ∪ wd_running w).
Definition down (t : nat) (w : world) : world := put_running w (wd_running w ∖ {[t]}).

Inductive migration_error := CandidateInvalid | ErrMigrationSuperseded | RollbackStartFailed | RollbackHandshakeFailed | RollbackSuperseded | RolledBack.

#[global] Instance migration_error_eq : EqDecision migration_error.
Proof. solve_decision. Defined.

(** How the calls of a cutover go, which tunnels it makes, and what others do to the epoch meanwhile. *)
Record cutover_run := {
  cu_validates : bool;
  cu_before : RecoveryEpoch -> RecoveryEpoch;
  cu_stops : bool;
  cu_new : nat; cu_starts : bool; cu_handshake : bool;
  cu_during : RecoveryEpoch -> RecoveryEpoch;
  cu_rollback : nat; cu_rb_starts : bool; cu_rb_handshake : bool;
  cu_rb_during : RecoveryEpoch -> RecoveryEpoch;
}.

Definition buildAndCommitRollback (r : cutover_run) (g : Z) (w : world) : option nat * option migration_error * world :=
  if negb (cu_rb_starts r) then (None, Some RollbackStartFailed, w)
  else
    let w := up (cu_rollback r) w in
    let w := put_epoch w (cu_rb_during r (wd_epoch w)) in
    if negb (cu_rb_handshake r) then (None, Some RollbackHandshakeFailed, down (cu_rollback r) w)
    else
      let '(ok, e) := TryCommit (wd_epoch w) g (Some (cu_rollback r)) in
      let w := put_epoch w e in
      if negb ok then (None, Some RollbackSuperseded, down (cu_rollback r) w)
      else (Some (cu_rollback r), Some RolledBack, w).

Definition CutoverPath (r : cutover_run) (old : nat) (g : Z) (w : world) : option nat * option migration_error * world :=
  if negb (cu_validates r) then (None, Some CandidateInvalid, w)
  else
    let w := put_epoch w (cu_before r (wd_epoch w)) in
    if negb (TryReserveMigration (wd_epoch w) g) then (None, Some ErrMigrationSuperseded, w)
    else
      let w := down old w in
      if negb (cu_stops r) then buildAndCommitRollback r g w
      else if negb (cu_starts r) then buildAndCommitRollback r g w
      else
        let w := up (cu_new r) w in
        let w := put_epoch w (cu_during r (wd_epoch w)) in
        if negb (cu_handshake r) then buildAndCommitRollback r g (down (cu_new r) w)
        else
          let '(ok, e) := TryCommit (wd_epoch w) g (Some (cu_new r)) in
          let w := put_epoch w e in
          if negb ok then (None, Some ErrMigrationSuperseded, down (cu_new r) w)
          else (Some (cu_new r), None, w).

Definition MigratePath (validates : bool) (between : RecoveryEpoch -> RecoveryEpoch) (e : RecoveryEpoch) : res migration_error Z * RecoveryEpoch :=
  if negb validates then (Err CandidateInvalid, e)
  else
    let '(g, e) := NextGenForTunnel e (active e) in
    let e := between e in
    if negb (TryReserveMigration e g) then (Err ErrMigrationSuperseded, e) else (Ok g, e).

(** ** Discovery *)

Record DiscoveryConfig := {
  dc_Enabled : bool; dc_MinInterval : duration; dc_MaxBackoff : duration; dc_MaxAttempts : Z; dc_ProbeTimeout : duration;
  dc_HandshakeTimeout : duration; dc_Cooldown : duration;
}.

Definition getDiscoveryConfig (c : DiscoveryConfig) : DiscoveryConfig :=
  {| dc_Enabled := dc_Enabled c; dc_MinInterval := or_default (dc_MinInterval c) 500000000; dc_MaxBackoff := or_default (dc_MaxBackoff c) (10 * second);
     dc_MaxAttempts := or_default (dc_MaxAttempts c) 10; dc_ProbeTimeout := or_default (dc_ProbeTimeout c) (3 * second);
     dc_HandshakeTimeout := or_default (dc_HandshakeTimeout c) (10 * second); dc_Cooldown := or_default (dc_Cooldown c) (60 * second) |}.

(** One round of the loop: the clock, the probe, and how a migration goes. *)
Record discovery_round := {
  dr_cancelled : bool; dr_now : time; dr_reachable : bool; dr_recorded : time;
  dr_between : RecoveryEpoch -> RecoveryEpoch; dr_cutover : cutover_run;
}.

Inductive ending := Continues | Finished (t : option nat) | NilTunnel.

Definition abandon (pending : Z) (w : world) : world :=
  if 0 <? pending then put_epoch w (TryCancel (wd_epoch w) pending) else w.

(** The loop over the rounds given; the number of probes is counted. *)
Fixpoint discover (rounds : list discovery_round) (s : ProbeScheduler) (pending : Z) (probes : nat) (w : world) : ending * nat * world :=
  match rounds with
  | [] => (Continues, probes, w)
  | r :: rest =>
      if dr_cancelled r then (Finished None, probes, abandon pending w)
      else
        let '(ok, s) := TryAcquireSlot s (dr_now r) in
        if negb ok then (Finished None, probes, abandon pending w)
        else
          let s := RecordResult s (dr_recorded r) (dr_reachable r) in
          let probes := S probes in
          if negb (dr_reachable r) then discover rest s pending probes w
          else
            let '(plan, e) := MigratePath true (dr_between r) (wd_epoch w) in
            let w := put_epoch w e in
            match plan with
            | Err _ => discover rest s pending probes w
            | Ok g =>
                match active (wd_epoch w) with
                | None => (NilTunnel, probes, w)
                | Some old =>
                    let '(t, err, w) := CutoverPath (dr_cutover r) old g w in
                    match err with
                    | Some _ => discover rest s g probes w
                    | None => (Finished (active (wd_epoch w)), probes, w)
                    end
                end
            end
  end.

Definition runDiscovery (c : DiscoveryConfig) (target : string) (rounds : list discovery_round) (w : world) : ending * nat * world :=
  if empty_str target then (Finished None, 0%nat, w)
  else
    discover rounds
      (NewProbeScheduler {| sc_MinInterval := dc_MinInterval c; sc_MaxBackoff := dc_MaxBackoff c; sc_MaxAttempts := dc_MaxAttempts c;
                            sc_MaxAttemptsCooldown := 0; sc_InitialBackoff := dc_MinInterval c |}) 0 0 w.

(** ** The supervisor *)

Inductive phase := Observing | RecoveringPath (retry : nat) | Ended.

Record supervisor := { sv_current : nat; sv_world : world; sv_phase : phase }.

(** The top of the loop: the current tunnel is observed, which needs a running device with a handshake (the loss
    configuration is taken to be valid; a tunnel that runs has had its handshake, and a closed device reports none). *)
Definition observe (current : nat) (w : world) : supervisor :=
  {| sv_current := current; sv_world := w;
     sv_phase := if bool_decide (current ∈ wd_running w) then Observing else Ended |}.

Inductive start_error := NilInitialTunnel | EpochMismatch.

(** The supervisor at its start: on the shared epoch, which must name the initial tunnel, or on one of its own. *)
Definition StartPathSupervisor (initial : option nat) (shared : option RecoveryEpoch) (running : gset nat) : res start_error supervisor :=
  match initial with
  | None => Err NilInitialTunnel
  | Some t =>
      match shared with
      | Some e => refuse negb (bool_decide (active e = initial)) with EpochMismatch; Ok (observe t {| wd_epoch := e; wd_running := running; wd_seen := [running] |})
      | None => Ok (observe t {| wd_epoch := NewRecoveryEpoch initial; wd_running := running; wd_seen := [running] |})
      end
  end.

Record recovery_run := {
  rv_outcome : path -> attempt; rv_cancelled : path -> bool; rv_name : path -> nat; rv_meanwhile : RecoveryEpoch -> RecoveryEpoch; rv_stops : bool;
}.

Definition isRecoveryTerminal (e : path_error) : bool := match e with ErrEpochClosed | ErrRecoverySuperseded => true | _ => false end.

(** What an effect of a recovery does to the tunnels. *)
Definition effect_on (name : path -> nat) (old : nat) (w : world) (x : effect) : world :=
  match x with
  | OldStopped => down old w
  | Started p => up (name p) w
  | Stopped p => down (name p) w
  | BindOpened | BindClosed => w
  end.

(** A recovery attempt on the running tunnels: its effects, in order. *)
Definition recover (cfg : PathSelectorConfig) (r : recovery_run) (old : nat) (w : world) : res path_error path * world :=
  let '((result, fx), e) :=
    RecoverPath (rv_outcome r) (rv_cancelled r) (rv_name r) (rv_meanwhile r) (rv_stops r) (Some old) cfg (wd_epoch w) in
  (result, put_epoch (foldl (effect_on (rv_name r) old) w fx) e).

Inductive event :=
  | ContextDone
  | LossSeen
  | CooldownOver
  | DiscoveryEnded (rounds : list discovery_round)
  | DiscoveryLost (rounds : list discovery_round)
  | RecoveryAttempt (r : recovery_run)
  | RecoveryThenDiscovery (r : recovery_run) (rounds : list discovery_round) (lost : bool).

(** The supervisor goes on when the discovery's goroutine has returned, so the rounds of an event are all of its
    rounds, up to the one that ends it (the cancelled one, when the supervisor cancels it); an event whose rounds do
    not end the discovery does not occur.  A nil tunnel is a panic. *)
Definition after_discovery (s : supervisor) (e : ending) (w : world) (current : nat) (lost : option phase) : supervisor :=
  match e, lost with
  | Continues, _ => s
  | NilTunnel, _ => {| sv_current := current; sv_world := w; sv_phase := Ended |}
  | Finished _, Some p => {| sv_current := current; sv_world := w; sv_phase := p |}
  | Finished (Some t), None => observe t w
  | Finished None, None => observe current w
  end.

Section supervise.
Context (cfg : PathSelectorConfig) (dcfg : DiscoveryConfig) (target : string).

Definition discovery := runDiscovery (getDiscoveryConfig dcfg) target.

Definition supervise (s : supervisor) (ev : event) : supervisor :=
  let w := sv_world s in
  let set_phase p := {| sv_current := sv_current s; sv_world := w; sv_phase := p |} in
  match sv_phase s, ev with
  | Ended, _ => s
  | _, ContextDone => set_phase Ended
  | Observing, LossSeen => set_phase (RecoveringPath 0)
  | Observing, CooldownOver => observe (sv_current s) w
  | Observing, DiscoveryEnded rounds =>
      let '(e, _, w) := discovery rounds w in after_discovery s e w (sv_current s) None
  | Observing, DiscoveryLost rounds =>
      let '(e, _, w) := discovery rounds w in after_discovery s e w (sv_current s) (Some (RecoveringPath 0))
  | RecoveringPath retry, RecoveryAttempt r =>
      let '(result, w) := recover cfg r (sv_current s) w in
      match result with
      | Ok _ => match active (wd_epoch w) with Some t => observe t w | None => {| sv_current := sv_current s; sv_world := w; sv_phase := Ended |} end
      | Err e =>
          {| sv_current := sv_current s; sv_world := w; sv_phase := if isRecoveryTerminal e then Ended else RecoveringPath (S retry) |}
      end
  | RecoveringPath retry, RecoveryThenDiscovery r rounds lost =>
      let '(result, w) := recover cfg r (sv_current s) w in
      match result with
      | Ok p =>
          match active (wd_epoch w) with
          | None => {| sv_current := sv_current s; sv_world := w; sv_phase := Ended |}
          | Some t =>
              if dc_Enabled dcfg && negb (bool_decide (p = Direct)) then
                let '(e, _, w) := discovery rounds w in
                after_discovery s e w t (if lost then Some (RecoveringPath (S retry)) else None)
              else observe t w
          end
      | Err e =>
          {| sv_current := sv_current s; sv_world := w; sv_phase := if isRecoveryTerminal e then Ended else RecoveringPath (S retry) |}
      end
  | _, _ => s
  end.

End supervise.

(** The wait before the next attempt, in seconds. *)
Definition retry_backoff (retry : nat) : Z := Z.min 30 (2 ^ Z.of_nat (Nat.min retry 5)).

(** ** A cutover settles *)

Lemma TryCommit_ok e g t e' : TryCommit e g t = (true, e') -> active e' = t /\ committed e' = true /\ pendingRecovery e' = None.
Proof. unfold TryCommit. case_match; intros; simplify_eq; done. Qed.

Lemma TryCommit_refused e g t e' : TryCommit e g t = (false, e') -> active e' = active e.
Proof. unfold TryCommit. case_match; intros; simplify_eq. by case_match. Qed.

(** What a finished attempt leaves, when the old tunnel was stopped first and [kept] are the tunnels still up. *)
Definition settled (r : cutover_run) (kept : gset nat) (t : option nat) (err : option migration_error) (w : world) : Prop :=
  match err with
  | None | Some RolledBack =>
      let won := if err then cu_rollback r else cu_new r in
      t = Some won /\ active (wd_epoch w) = Some won /\ committed (wd_epoch w) = true /\ pendingRecovery (wd_epoch w) = None /\
      wd_running w = {[won]} ∪ kept
  | Some _ => t = None /\ wd_running w = kept
  end.

Lemma up_down t w : t ∉ wd_running w -> wd_running (down t (up t w)) = wd_running w.
Proof. simpl. set_solver. Qed.

Lemma rollback_settles r g w :
  cu_rollback r ∉ wd_running w ->
  let '(t, err, w') := buildAndCommitRollback r g w in settled r (wd_running w) t err w' /\ err <> None /\ err <> Some CandidateInvalid.
Proof.
  intros Hf. pose proof (up_down _ _ Hf) as Hud. unfold buildAndCommitRollback. destruct (cu_rb_starts r); simpl; [|done].
  destruct (cu_rb_handshake r); simpl; [|done].
  destruct (TryCommit _ _ _) as [[] e] eqn:E; simpl; [|done]. apply TryCommit_ok in E as (? & ? & ?). done.
Qed.

(** A cutover always settles.  A candidate that does not validate, or a generation that is stale before the old
    tunnel is touched, leaves the running tunnels as they were; past that point the old tunnel is down, and then
    either the new tunnel is up, active in the epoch and committed with no recovery pending, or the rollback tunnel
    is, or nothing that the cutover opened is left running - whatever fails and whatever the other users of the
    epoch do meanwhile. *)
Theorem cutover_settles r old g w :
  cu_new r ∉ wd_running w ∖ {[old]} -> cu_rollback r ∉ wd_running w ∖ {[old]} ->
  let '(t, err, w') := CutoverPath r old g w in
  if cu_validates r && TryReserveMigration (cu_before r (wd_epoch w)) g
  then settled r (wd_running w ∖ {[old]}) t err w' /\ err <> Some CandidateInvalid
  else settled r (wd_running w) t err w' /\ err = Some (if cu_validates r then ErrMigrationSuperseded else CandidateInvalid) /\
       (cu_validates r = false -> w' = w).
Proof.
  intros Hn Hf. unfold CutoverPath. destruct (cu_validates r); cbn [negb andb]; [|done]. cbn [put_epoch wd_epoch].
  destruct (TryReserveMigration _ _); cbn [negb]; [|done]. set (k := wd_running w ∖ {[old]}).
  assert (forall w1, wd_running w1 = k -> let '(t, err, w') := buildAndCommitRollback r g w1 in
                    settled r k t err w' /\ err <> Some CandidateInvalid) as Hb.
  { intros w1 Hw1. pose proof (rollback_settles r g w1) as H. rewrite Hw1 in H. specialize (H Hf).
    destruct (buildAndCommitRollback _ _ _) as [[t err] w']. tauto. }
  assert (Hud : forall w1, wd_running w1 = k -> wd_running (down (cu_new r) (up (cu_new r) w1)) = k)
    by (intros w1 Hw1; rewrite <- Hw1; apply up_down; by rewrite Hw1).
  destruct (cu_stops r); cbn [negb]; [|by apply Hb]. destruct (cu_starts r); cbn [negb]; [|by apply Hb].
  destruct (cu_handshake r); cbn [negb]; [|apply Hb, (Hud (down old w)); done].
  destruct (TryCommit _ _ _) as [[] e] eqn:E; cbn [negb].
  - apply TryCommit_ok in E as (? & ? & ?). done.
  - split; [|done]. split; [done|]. by apply (Hud (down old w)).
Qed.

(** ** At most one tunnel *)

(** The other users of the epoch may take and cancel generations, but the active tunnel is the supervisor's. *)
Definition keeps_active (f : RecoveryEpoch -> RecoveryEpoch) : Prop := forall e, active (f e) = active e.

Definition quiet_cutover (r : cutover_run) : Prop := keeps_active (cu_before r) /\ keeps_active (cu_during r) /\ keeps_active (cu_rb_during r).
Definition quiet_round (r : discovery_round) : Prop := keeps_active (dr_between r) /\ quiet_cutover (dr_cutover r).
Definition quiet (ev : event) : Prop :=
  match ev with
  | ContextDone | LossSeen | CooldownOver => True
  | DiscoveryEnded rounds | DiscoveryLost rounds => Forall quiet_round rounds
  | RecoveryAttempt r => keeps_active (rv_meanwhile r)
  | RecoveryThenDiscovery r rounds _ => keeps_active (rv_meanwhile r) /\ Forall quiet_round rounds
  end.

Definition only_active (w : world) : Prop := wd_running w ⊆ match active (wd_epoch w) with Some t => {[t]} | None => ∅ end.

Definition few (s : gset nat) : Prop := (size s <= 1)%nat.

(** No two tunnels have been up at once, and the one that is up is the active one; none is up. *)
Definition calm (w : world) : Prop := Forall few (wd_seen w) /\ only_active w.
Definition clear (w : world) : Prop := Forall few (wd_seen w) /\ wd_running w = ∅.

Lemma few_singleton (t : nat) (s : gset nat) : s ⊆ {[t]} -> few s.
Proof. intros H%subseteq_size. by rewrite size_singleton in H. Qed.

Lemma clear_calm w : clear w -> calm w.
Proof. intros [Hs Hr]. split; [done|]. unfold only_active. rewrite Hr. set_solver. Qed.

Lemma calm_epoch w e : calm w -> active e = active (wd_epoch w) -> calm (put_epoch w e).
Proof. unfold calm, only_active. simpl. by intros H ->. Qed.

(** Stopping the active tunnel leaves none. *)
Lemma calm_stop w old : calm w -> active (wd_epoch w) = None \/ active (wd_epoch w) = Some old -> clear (down old w).
Proof.
  unfold calm, clear, only_active. intros [Hs Hr] [E|E]; rewrite E in Hr; simpl;
    (assert (wd_running w ∖ {[old]} = ∅) as -> by set_solver); (split; [constructor; [|done]|done]);
    apply (few_singleton old); set_solver.
Qed.

(** One that is started where none is up, and stopped again. *)
Lemma clear_up t w : clear w -> Forall few (wd_seen (up t w)) /\ wd_running (up t w) = {[t]}.
Proof. intros [Hs Hr]. simpl. rewrite Hr, (union_empty_r_L {[t]}). split; [|done]. constructor; [apply (few_singleton t); set_solver|done]. Qed.

Lemma clear_up_down t e w : clear w -> clear (down t (put_epoch (up t w) e)).
Proof.
  intros Hw. destruct (clear_up t w Hw) as [Hs Hr]. simpl in Hs, Hr. rewrite Hr in Hs. split; simpl; rewrite ?Hr.
  - constructor; [apply (few_singleton t); set_solver|done].
  - set_solver.
Qed.

Lemma clear_committed t e w : clear w -> active e = Some t -> calm (put_epoch (up t w) e).
Proof. intros Hw He. destruct (clear_up t w Hw) as [Hs Hr]. split; [done|]. unfold only_active. simpl in *. by rewrite He, Hr. Qed.

Lemma NextGenForTunnel_active e old : active (NextGenForTunnel e old).2 = active e.
Proof. unfold NextGenForTunnel. repeat case_match; done. Qed.

Lemma TryCancel_active e g : active (TryCancel e g) = active e.
Proof. unfold TryCancel. by case_match. Qed.

Lemma rollback_calm r g w : clear w -> calm (buildAndCommitRollback r g w).2.
Proof.
  intros Hw. unfold buildAndCommitRollback. destruct (cu_rb_starts r); cbn [negb]; [|by apply clear_calm].
  destruct (cu_rb_handshake r); cbn [negb]; [|by apply clear_calm, clear_up_down].
  destruct (TryCommit _ _ _) as [[] e] eqn:E; cbn [negb].
  - apply TryCommit_ok in E as (E & _). by apply (clear_committed (cu_rollback r) e w).
  - by apply clear_calm, (clear_up_down (cu_rollback r) e w).
Qed.

Lemma cutover_calm r old g w : calm w -> active (wd_epoch w) = Some old -> quiet_cutover r -> calm (CutoverPath r old g w).2.
Proof.
  intros Hw Ho (Hb & _ & _). unfold CutoverPath. destruct (cu_validates r); cbn [negb]; [|done].
  assert (Hw1 : calm (put_epoch w (cu_before r (wd_epoch w)))) by (apply calm_epoch; [done|apply Hb]).
  destruct (TryReserveMigration _ _); cbn [negb]; [|done].
  assert (Hc : clear (down old (put_epoch w (cu_before r (wd_epoch w))))) by (apply calm_stop; [done|right; simpl; by rewrite Hb]).
  revert Hc. generalize (down old (put_epoch w (cu_before r (wd_epoch w)))). intros w1 Hc.
  destruct (cu_stops r); cbn [negb]; [|by apply rollback_calm]. destruct (cu_starts r); cbn [negb]; [|by apply rollback_calm].
  destruct (cu_handshake r); cbn [negb]; [|by apply rollback_calm, clear_up_down].
  destruct (TryCommit _ _ _) as [[] e] eqn:E; cbn [negb].
  - apply TryCommit_ok in E as (E & _). by apply (clear_committed (cu_new r) e w1).
  - by apply clear_calm, (clear_up_down (cu_new r) e w1).
Qed.

Lemma MigratePath_active valid between e : keeps_active between -> active (MigratePath valid between e).2 = active e.
Proof.
  intros Hb. unfold MigratePath. destruct valid; cbn [negb]; [|done]. pose proof (NextGenForTunnel_active e (active e)) as Ha.
  destruct (NextGenForTunnel _ _) as [g e1]. simpl in *. destruct (TryReserveMigration _ _); simpl; by rewrite Hb.
Qed.

Lemma abandon_calm pending w : calm w -> calm (abandon pending w).
Proof. intros H. unfold abandon. case_match; [|done]. apply calm_epoch; [done|apply TryCancel_active]. Qed.

Lemma discover_calm rounds s pending probes w :
  Forall quiet_round rounds -> calm w -> calm (discover rounds s pending probes w).2.
Proof.
  intros Hq. revert s pending probes w. induction Hq as [|r rest [Hb Hc] _ IH]; intros s pending probes w Hw; [done|]. cbn [discover].
  destruct (dr_cancelled r); [by apply abandon_calm|]. destruct (TryAcquireSlot s _) as [[] s1]; cbn [negb]; [|by apply abandon_calm].
  destruct (dr_reachable r); cbn [negb]; [|by apply IH]. pose proof (MigratePath_active true (dr_between r) (wd_epoch w) Hb) as Ha.
  destruct (MigratePath _ _ _) as [[g|err] e]; simpl in Ha; pose proof (calm_epoch w e Hw Ha) as He; [|by apply IH].
  cbn [put_epoch wd_epoch]. destruct (active e) as [old|] eqn:Eo; [|done].
  pose proof (cutover_calm (dr_cutover r) old g _ He Eo Hc) as H. destruct (CutoverPath _ _ _ _) as [[t err] w']. simpl in H.
  destruct err; [by apply IH|done].
Qed.

Lemma runDiscovery_calm c target rounds w : Forall quiet_round rounds -> calm w -> calm (runDiscovery c target rounds w).2.
Proof. intros. unfold runDiscovery. case_match; [done|by apply discover_calm]. Qed.

(** The tunnels of a selection: each is stopped before the next is started. *)
Lemma select_clear outcome cancelled name old cfg ps : forall tried fx w,
  clear (foldl (effect_on name old) w fx) ->
  let out := select_from outcome cancelled cfg ps tried fx in
  match out.1 with
  | Ok p => exists w1, clear w1 /\ foldl (effect_on name old) w out.2 = up (name p) w1
  | Err _ => clear (foldl (effect_on name old) w out.2)
  end.
Proof.
  induction ps as [|p ps IH]; intros tried fx w Hw; [done|]. cbn [select_from]. destruct (empty_str _); [by apply IH|].
  assert (Hf : clear (foldl (effect_on name old) w (fx ++ failed_effects outcome p))).
  { rewrite foldl_app. revert Hw. generalize (foldl (effect_on name old) w fx). intros w1 Hw.
    unfold failed_effects. destruct p, (outcome _); simpl; try done; by apply (clear_up_down _ (wd_epoch w1) w1). }
  destruct (outcome p); [destruct (cancelled p); [done|by apply IH]..|].
  exists (foldl (effect_on name old) w fx). split; [done|]. cbn [snd]. rewrite foldl_app. by destruct p.
Qed.

Lemma recover_calm cfg r old w : keeps_active (rv_meanwhile r) -> calm w -> calm (recover cfg r old w).2.
Proof.
  intros Hm Hw. unfold recover, RecoverPath. pose proof (NextGenForTunnel_active (wd_epoch w) (Some old)) as Ha.
  destruct (NextGenForTunnel (wd_epoch w) (Some old)) as [g e1] eqn:En. simpl in Ha.
  destruct (g =? 0) eqn:Eg; [by apply calm_epoch|].
  assert (Hc : clear (down old w)).
  { apply (calm_stop w old Hw). unfold NextGenForTunnel in En.
    destruct (decide (active (wd_epoch w) = None)); [by left|]. destruct (decide (active (wd_epoch w) = Some old)); [by right|].
    rewrite !(bool_decide_false (active _ = _)) in En by done. simpl in En. case_match; simplify_eq; done. }
  assert (Hput : forall w1 e, clear w1 -> calm (put_epoch w1 e)) by (intros w1 e H1; by apply clear_calm).
  destruct (rv_stops r); cbn [negb]; [|by apply (Hput (down old w))].
  pose proof (select_clear (rv_outcome r) (rv_cancelled r) (rv_name r) old cfg [Direct; RelayUDP; RelayWSS] [] [] (down old w) Hc) as Hsel.
  unfold SelectInitialPath. destruct (select_from _ _ _ _ _ _) as [[p|err] fx]; cbn [fst snd] in Hsel; [|by apply (Hput _ _ Hsel)].
  destruct Hsel as (w1 & Hw1 & Hfx). destruct (TryCommit _ _ _) as [[] e2] eqn:Ec; cbn [negb snd foldl effect_on].
  - rewrite Hfx. apply TryCommit_ok in Ec as (E & _ & _). by apply clear_committed.
  - rewrite !foldl_app, Hfx. destruct p; apply (Hput (down _ _)), (clear_up_down _ (wd_epoch w1) w1), Hw1.
Qed.

(** The supervisor watches a tunnel only while it runs. *)
Definition supervised (s : supervisor) : Prop :=
  calm (sv_world s) /\ (sv_phase s = Observing -> sv_current s ∈ wd_running (sv_world s)).

Lemma observe_supervised t w : calm w -> supervised (observe t w).
Proof. intros Hw. split; [done|]. simpl. case_bool_decide; done. Qed.

Lemma not_observing_supervised t w p : p <> Observing -> calm w -> supervised {| sv_current := t; sv_world := w; sv_phase := p |}.
Proof. by split. Qed.

Lemma after_discovery_supervised s e w t lost :
  supervised s -> calm w -> lost <> Some Observing -> supervised (after_discovery s e w t lost).
Proof.
  intros Hs Hw Hl. destruct e as [|[u|]|], lost; simpl; auto using observe_supervised; apply not_observing_supervised; try done; by intros ->.
Qed.

#[export] Hint Resolve observe_supervised not_observing_supervised after_discovery_supervised : neon.

Lemma supervise_kept cfg dcfg target s ev : quiet ev -> supervised s -> supervised (supervise cfg dcfg target s ev).
Proof.
  intros Hq Hs. pose proof Hs as [Hw _]. unfold supervise.
  assert (forall rounds w, Forall quiet_round rounds -> calm w -> calm (discovery dcfg target rounds w).2) as Hd
    by (intros; by apply runDiscovery_calm).
  destruct (sv_phase s) as [|retry|] eqn:Ep, ev as [| | |rounds|rounds|r|r rounds lost]; simpl in Hq; auto with neon;
    try (apply not_observing_supervised; done).
  - specialize (Hd rounds _ Hq Hw). destruct (discovery _ _ _ _) as [[e n] w]. by apply after_discovery_supervised.
  - specialize (Hd rounds _ Hq Hw). destruct (discovery _ _ _ _) as [[e n] w]. by apply after_discovery_supervised.
  - pose proof (recover_calm cfg r (sv_current s) _ Hq Hw) as Hr. destruct (recover _ _ _ _) as [[p|e] w]; simpl in Hr.
    + case_match; [auto with neon|by apply not_observing_supervised].
    + apply not_observing_supervised; [by case_match|done].
  - destruct Hq as [Hm Hrs]. pose proof (recover_calm cfg r (sv_current s) _ Hm Hw) as Hr.
    destruct (recover _ _ _ _) as [[p|e] w]; simpl in Hr.
    + destruct (active (wd_epoch w)); [|by apply not_observing_supervised]. case_match; [|auto with neon].
      specialize (Hd rounds _ Hrs Hr). destruct (discovery _ _ _ _) as [[e k] w']. simpl in Hd.
      apply after_discovery_supervised; [done|done|by destruct lost].
    + apply not_observing_supervised; [by case_match|done].
Qed.

(** C28: the Body never runs two tunnels.  Start the supervisor on its initial tunnel, with an epoch of its own or on a
    shared one it is accepted on, and let losses, recoveries, discoveries, cutovers and rollbacks go as they may, in any
    order, as long as no one else commits a tunnel to the epoch.  Then at every moment, in the middle of a recovery, a
    cutover or a rollback too, at most one tunnel has been running; between two events the only tunnel that can be
    running is the one the epoch names as active; and while the supervisor observes, that tunnel is the one it observes,
    and it runs. *)
Theorem supervision_one_tunnel cfg dcfg target initial shared start evs :
  StartPathSupervisor (Some initial) shared {[initial]} = Ok start -> Forall quiet evs ->
  let s := foldl (supervise cfg dcfg target) start evs in
  (forall up, up ∈ wd_seen (sv_world s) -> (size up <= 1)%nat) /\
  (forall t, t ∈ wd_running (sv_world s) -> active (wd_epoch (sv_world s)) = Some t) /\
  (sv_phase s = Observing -> wd_running (sv_world s) = {[sv_current s]} /\ active (wd_epoch (sv_world s)) = Some (sv_current s)).
Proof.
  intros Hst Hq s. assert (H : supervised s).
  { assert (Hs0 : supervised start).
    { unfold StartPathSupervisor in Hst. repeat case_match; simplify_eq; apply observe_supervised; (split; [apply Forall_singleton, (few_singleton initial); done|]);
        unfold only_active; simpl; [|done]. bool_props. match goal with H : active _ = Some _ |- _ => by rewrite H end. }
    unfold s. clear s Hst. revert start Hs0. induction Hq as [|ev evs He _ IH]; intros st Hs0; [done|]. by apply IH, supervise_kept. }
  destruct H as [[Hf Ha] Ho]. unfold only_active in Ha.
  assert (forall t, t ∈ wd_running (sv_world s) -> active (wd_epoch (sv_world s)) = Some t) as Hall.
  { intros t Ht. apply Ha in Ht. case_match; set_solver. }
  split_and!; [by apply Forall_forall|exact Hall|]. intros Hp. specialize (Ho Hp). rewrite (Hall _ Ho) in *. set_solver.
Qed.

(** ** What a refused slot and a rollback do *)

Lemma first_slot c now : 0 < sc_MaxAttempts c -> exists s, TryAcquireSlot (NewProbeScheduler c) now = (true, s) /\ ps_Config s = ps_Config (NewProbeScheduler c).
Proof.
  intros H. unfold TryAcquireSlot, exhausted, IsZero. simpl. rewrite (proj2 (Z.leb_gt _ _)) by lia. rewrite andb_false_r. by eexists.
Qed.

Lemma too_soon s reachable now recorded : 0 < recorded <= now -> now < recorded + sc_MinInterval (ps_Config s) -> now < 2 ^ 62 ->
  TryAcquireSlot (RecordResult s recorded reachable) now = (false, RecordResult s recorded reachable).
Proof.
  intros Hr Hn Hb. unfold TryAcquireSlot, IsZero. assert (ps_inFlight (RecordResult s recorded reachable) = false) as -> by by destruct reachable.
  assert (ps_lastProbe (RecordResult s recorded reachable) = recorded) as -> by by destruct reachable.
  assert (ps_Config (RecordResult s recorded reachable) = ps_Config s) as -> by by destruct reachable.
  rewrite (proj2 (Z.eqb_neq _ _)), Sub_exact by lia. by rewrite (proj2 (Z.ltb_lt _ _)) by lia.
Qed.

(** The budget of attempts is never used.  The loop of [runDiscovery] does not wait between rounds, and takes any
    refused slot for exhaustion: if the preferred path does not answer the first probe and the loop comes round
    within the minimum interval, discovery gives up after that one probe, whatever [MaxAttempts] allows. *)
Theorem discovery_single_probe c target r next rest w :
  target <> "" -> 0 < dc_MinInterval c -> 0 < dc_MaxAttempts c ->
  dr_cancelled r = false -> dr_reachable r = false ->
  0 < dr_recorded r <= dr_now next -> dr_now next < dr_recorded r + dc_MinInterval c -> dr_now next < 2 ^ 62 ->
  runDiscovery c target (r :: next :: rest) w = (Finished None, 1%nat, w).
Proof.
  intros Ht Hi Ha Hc Hr Hn Hs Hb. unfold runDiscovery. rewrite (proj2 (empty_str_false _)) by done.
  set (sc := NewProbeScheduler _). cbn [discover]. rewrite Hc.
  destruct (first_slot {| sc_MinInterval := dc_MinInterval c; sc_MaxBackoff := dc_MaxBackoff c; sc_MaxAttempts := dc_MaxAttempts c;
                          sc_MaxAttemptsCooldown := 0; sc_InitialBackoff := dc_MinInterval c |} (dr_now r)) as (s & Hs1 & Hs2); [done|].
  fold sc in Hs1, Hs2. rewrite Hs1. cbn [negb]. rewrite Hr. cbn [negb]. unfold abandon. cbn [Z.ltb Z.compare].
  destruct (dr_cancelled next); [done|]. rewrite too_soon; [done|done| |done].
  rewrite Hs2. unfold sc, NewProbeScheduler, or_default. cbn [ps_Config sc_MinInterval]. by rewrite (proj2 (Z.leb_gt _ _)) by lia.
Qed.

Lemma discover_unreachable rounds s pending probes w : Forall (fun r => dr_reachable r = false) rounds ->
  wd_running (discover rounds s pending probes w).2 = wd_running w /\
  active (wd_epoch (discover rounds s pending probes w).2) = active (wd_epoch w) /\
  (forall t, (discover rounds s pending probes w).1.1 = Finished t -> t = None) /\ (discover rounds s pending probes w).1.1 <> NilTunnel.
Proof.
  assert (forall w : world, wd_running (abandon pending w) = wd_running w /\ active (wd_epoch (abandon pending w)) = active (wd_epoch w)) as Hg
    by (intros w'; unfold abandon; case_match; [simpl; by rewrite TryCancel_active|done]).
  intros H. revert s probes. induction H as [|r rest Hr _ IH]; intros s probes; [done|]. cbn [discover].
  destruct (dr_cancelled r); [simpl; destruct (Hg w); split_and!; congruence|].
  destruct (TryAcquireSlot s _) as [[] s1]; cbn [negb]; [|simpl; destruct (Hg w); split_and!; congruence]. rewrite Hr. apply IH.
Qed.

(** A rollback leaves the Body unsupervised.  When the preferred path answers a probe but the cutover to it fails and
    the rollback succeeds, and the probes after that find nothing, the rollback tunnel is running and active in the
    epoch - and the supervisor, which still holds the tunnel the cutover stopped, ends. *)
Theorem rollback_unsupervised cfg dcfg target s r rest :
  let c := getDiscoveryConfig dcfg in let cut := dr_cutover r in let e := wd_epoch (sv_world s) in
  target <> "" -> sv_phase s = Observing -> active e = Some (sv_current s) -> e_closed e = false -> pendingRecovery e = None -> 0 <= gen e < 2 ^ 64 - 1 ->
  0 < dc_MaxAttempts c -> dr_cancelled r = false -> dr_reachable r = true -> dr_between r = id ->
  cu_validates cut = true -> cu_before cut = id -> cu_stops cut = true -> cu_starts cut = true -> cu_handshake cut = false -> cu_during cut = id ->
  cu_rb_starts cut = true -> cu_rb_handshake cut = true -> cu_rb_during cut = id -> cu_rollback cut <> sv_current s ->
  Forall (fun r => dr_reachable r = false) rest -> (discovery dcfg target (r :: rest) (sv_world s)).1.1 <> Continues ->
  let s' := supervise cfg dcfg target s (DiscoveryEnded (r :: rest)) in
  sv_phase s' = Ended /\ active (wd_epoch (sv_world s')) = Some (cu_rollback cut) /\ cu_rollback cut ∈ wd_running (sv_world s').
Proof.
  intros c cut e Ht Hp Ha Hc Hpe Hg Hm Hcan Hre Hbt Hv Hbe Hst Hsta Hh Hdu Hrs Hrh Hrd Hne Hrest. cbv zeta. unfold supervise, discovery, runDiscovery.
  rewrite Hp, (proj2 (empty_str_false _)) by done. cbn [discover]. rewrite Hcan.
  destruct (first_slot {| sc_MinInterval := dc_MinInterval c; sc_MaxBackoff := dc_MaxBackoff c; sc_MaxAttempts := dc_MaxAttempts c;
                          sc_MaxAttemptsCooldown := 0; sc_InitialBackoff := dc_MinInterval c |} (dr_now r)) as (s1 & Hs1 & _); [done|].
  unfold c in Hs1. rewrite Hs1, Hre. cbn [negb]. unfold MigratePath. cbn [negb]. fold e. rewrite Ha.
  unfold NextGenForTunnel. rewrite Hc, Ha, Hpe, (bool_decide_true (Some _ = Some _)), (bool_decide_true (None = None)) by done. cbn [andb negb]. rewrite andb_false_r, Hbt. cbn [id].
  rewrite u64_small by lia. unfold TryReserveMigration. cbn [put_epoch wd_epoch e_closed gen]. rewrite Z.eqb_refl. cbn [negb put_epoch wd_epoch active].
  fold cut. unfold CutoverPath. rewrite Hv, Hbe, Hst, Hsta, Hh, Hdu. unfold TryReserveMigration. cbn [negb id put_epoch up down put_running wd_epoch e_closed gen wd_running].
  rewrite Z.eqb_refl. cbn [negb]. unfold buildAndCommitRollback. rewrite Hrs, Hrh, Hrd. cbn [negb id put_epoch up down put_running wd_epoch wd_running].
  unfold TryCommit. cbn [put_epoch up down put_running wd_epoch e_closed gen committed]. rewrite Z.eqb_refl. cbn [negb orb].
  match goal with |- context [discover rest ?s ?p ?n ?w] => destruct (discover_unreachable rest s p n w Hrest) as (Hr1 & Hr2 & Hr3 & Hr4);
    destruct (discover rest s p n w) as [[en n'] w'] end.
  simpl in Hr1, Hr2, Hr3, Hr4. intros Hend. destruct en as [|t|]; [done| |done].
  rewrite (Hr3 t eq_refl). simpl. rewrite Hr2, Hr1. rewrite bool_decide_false by set_solver. set_solver.
Qed.

(** ** Instances *)

Definition sample_paths : PathSelectorConfig := {| DirectEndpoint := "192.0.2.1:51820"; RelayWGUDPEndpoint := "198.51.100.7:3478"; RelayWSSURL := "" |}.
Definition sample_discovery : DiscoveryConfig :=
  {| dc_Enabled := true; dc_MinInterval := 0; dc_MaxBackoff := 0; dc_MaxAttempts := 0; dc_ProbeTimeout := 0; dc_HandshakeTimeout := 0; dc_Cooldown := 0 |}.

Definition sample_cutover (works : bool) : cutover_run :=
  {| cu_validates := true; cu_before := id; cu_stops := true; cu_new := 2; cu_starts := true; cu_handshake := works; cu_during := id;
     cu_rollback := 3; cu_rb_starts := true; cu_rb_handshake := true; cu_rb_during := id |}.
Definition sample_round (now : time) (reachable works : bool) : discovery_round :=
  {| dr_cancelled := false; dr_now := now; dr_reachable := reachable; dr_recorded := now + 1000; dr_between := id; dr_cutover := sample_cutover works |}.
Definition sample_recovery : recovery_run :=
  {| rv_outcome := fun p => match p with Direct => HandshakeFailed | _ => HandshakeDone end; rv_cancelled := fun _ => false;
     rv_name := fun p => match p with Direct => 4%nat | _ => 1%nat end; rv_meanwhile := id; rv_stops := true |}.

Definition sample_start : supervisor := observe 0 {| wd_epoch := NewRecoveryEpoch (Some 0%nat); wd_running := {[0%nat]}; wd_seen := [{[0%nat]}] |}.
Definition sample_events : list event := [LossSeen; RecoveryThenDiscovery sample_recovery [sample_round second true true] false].
Definition sample_end : supervisor := foldl (supervise sample_paths sample_discovery "192.0.2.1:51820") sample_start sample_events.

Example handshake_read :
  extractLastHandshakeNano ("public_key=ab" ++ String line_feed "last_handshake_time_sec=1700000000" ++ String line_feed "last_handshake_time_nsec=25") =
  Ok 1700000000000000025.
Proof. reflexivity. Qed.

(** A loss, a direct attempt that fails, a recovery on the relay and a migration back: tunnels 0, 4, 1 and 2, one after
    the other. *)
Lemma supervision_one_tunnel_witness :
  sv_phase sample_end = Observing /\ sv_current sample_end = 2%nat /\ wd_running (sv_world sample_end) = {[2%nat]} /\
  wd_seen (sv_world sample_end) = [{[2%nat]}; ∅; {[1%nat]}; ∅; {[4%nat]}; ∅; {[0%nat]}] /\
  forall up, up ∈ wd_seen (sv_world sample_end) -> (size up <= 1)%nat.
Proof.
  destruct (supervision_one_tunnel sample_paths sample_discovery "192.0.2.1:51820" 0 None sample_start sample_events)
    as (Hs & _ & Ho); [done|by repeat constructor|].
  split; [vm_compute; reflexivity|]. split; [vm_compute; reflexivity|].
  split; [exact (proj1 (Ho ltac:(vm_compute; reflexivity)))|]. split; [vm_compute; reflexivity|exact Hs].
Defined.

Lemma discovery_single_probe_witness :
  runDiscovery (getDiscoveryConfig sample_discovery) "192.0.2.1:51820" [sample_round second false false; sample_round (second + 2000) false false] (sv_world sample_end) =
  (Finished None, 1%nat, sv_world sample_end).
Proof. apply discovery_single_probe; vm_compute; first [reflexivity|discriminate|split; [reflexivity|discriminate]]. Defined.

Lemma rollback_unsupervised_witness :
  sv_phase (supervise sample_paths sample_discovery "192.0.2.1:51820" sample_start
              (DiscoveryEnded [sample_round second true false; sample_round (second + 2000) false false])) = Ended.
Proof.
  apply (rollback_unsupervised sample_paths sample_discovery "192.0.2.1:51820" sample_start (sample_round second true false));
    try (vm_compute; first [reflexivity|discriminate|split; [discriminate|reflexivity]]).
  by repeat constructor.
Defined.
