(* ===== verification/WebSocket.v ===== *)
(** * The Doll Link WebSocket endpoint

    Models [src/DollLink/WebSocket/types.go]: the Core's end of the connections
    of Bodies.  Connections are kept by their identifier, which stands for the
    pointer; a connection with [cn_open] false has been closed by the server, and
    its read loop ends with [conn_ends].  A message is handled as one step, with
    the parts of it that run under [activationMu] inside; steps of different
    connections, the interaction workers, [DisconnectBody] and [Shutdown] come in
    any order.  The handlers, the authenticator and the lifecycle are parameters:
    the authenticator's verdict, and whether writes and deadlines succeed, are part
    of the step, and what is called is recorded as effects in order.  The
    authenticator returns the error of the activation it calls, as
    [ActivateAuthentication] of the enrollment service does.  A message is
    represented by what its JSON decodes to; the texts of error answers, the log,
    the HTTP server and the deadlines themselves are left out. *)
From S2P Require Import Prelude.
From stdpp Require Import options.

Section endpoint.
(** The messages of the components behind the endpoint. *)
Context {Request Response Event Result Capability : Type} `{!EqDecision Request}.
Context (req_ID : Request -> string) (ev_ID ev_DollID : Event -> string) (ev_CorrelationID : Event -> string) (correlate : Event -> string -> Event).

(** ** Messages *)

(** A message by its [type], with what the rest of it decodes to; [recovered] is what a lenient second reading found. *)
Inductive message :=
| Malformed
| Hello (decoded : bool)
| AuthProof (decoded : bool)
| Challenge
| Accept
| ExecutionResult (r : option Result)
| ExecutionRequest
| SessionControl (r : option Request) (recovered : option Request)
| SessionInteraction (i : option (bool * bool * string * Event)) (recovered : option (string * string))
| Advertisement (a : option (bool * string * list Capability))
| Plain (e : option Event).

Inductive ErrorCode := ErrorUnauthenticated | ErrorInvalidRequest | ErrorHandlerUnavailable | ErrorRequestIDConflict.

Inductive reply :=
| WChallenge
| WAccept
| WError (correlationID dollID : string)
| WControl (r : Response)
| WControlError (r : Request) (code : ErrorCode)
| WEvent (e : Event).

Inductive effect :=
| Wrote (id : string) (r : reply)
| BeginAuthentication (id : string)
| ActivateAuthentication (id : string) (accepted : option string)
| CancelAuthentication (id : string)
| SessionConnected (id bodyID : string)
| SessionDisconnected (id bodyID : string)
| ExecutionClosed (id : string)
| HandleResult (id : string) (r : Result)
| CapabilitiesAdvertised (id bodyID : string) (l : list Capability)
| CallControl (id bodyID selected : string) (r : Request)
| CallInteraction (id bodyID sessionID : string) (e : Event)
| CallEvent (id bodyID selected : string) (e : Event).

(** ** State *)

(** [cn_execution] is the execution client: absent, or present and closed or not. *)
Record clientConn := {
  cn_bodyID : string;
  cn_execution : option bool;
  cn_selected : string;
  cn_responses : gmap string (Request * Response);
  cn_responseIDs : list string;
  cn_workers : list (string * Event);
  cn_open : bool;
}.

Record Server := {
  ws_authenticator : bool;
  ws_lifecycle : bool;
  ws_handler : bool;
  ws_control : bool;
  ws_interaction : bool;
  ws_maxInteractions : Z;
  ws_conns : gset string;
  ws_execution : gmap string string;
  ws_clients : gmap string clientConn;
}.

Definition sessionResponseCacheSize : nat := 128.

Definition new_conn : clientConn :=
  {| cn_bodyID := ""; cn_execution := None; cn_selected := ""; cn_responses := ∅; cn_responseIDs := []; cn_workers := []; cn_open := true |}.

Definition with_tables (s : Server) (conns : gset string) (execution : gmap string string) (clients : gmap string clientConn) : Server :=
  {| ws_authenticator := ws_authenticator s; ws_lifecycle := ws_lifecycle s; ws_handler := ws_handler s; ws_control := ws_control s;
     ws_interaction := ws_interaction s; ws_maxInteractions := ws_maxInteractions s; ws_conns := conns; ws_execution := execution; ws_clients := clients |}.
Definition put_client (s : Server) (id : string) (c : clientConn) : Server := with_tables s (ws_conns s) (ws_execution s) (<[id := c]> (ws_clients s)).

Definition set_identity (c : clientConn) (bodyID : string) (closed : bool) : clientConn :=
  {| cn_bodyID := bodyID; cn_execution := Some closed; cn_selected := cn_selected c; cn_responses := cn_responses c; cn_responseIDs := cn_responseIDs c;
     cn_workers := cn_workers c; cn_open := cn_open c |}.
Definition set_session (c : clientConn) (selected : string) (m : gmap string (Request * Response)) (ids : list string) : clientConn :=
  {| cn_bodyID := cn_bodyID c; cn_execution := cn_execution c; cn_selected := selected; cn_responses := m; cn_responseIDs := ids; cn_workers := cn_workers c; cn_open := cn_open c |}.
Definition set_workers (c : clientConn) (l : list (string * Event)) : clientConn :=
  {| cn_bodyID := cn_bodyID c; cn_execution := cn_execution c; cn_selected := cn_selected c; cn_responses := cn_responses c; cn_responseIDs := cn_responseIDs c;
     cn_workers := l; cn_open := cn_open c |}.
Definition shut (c : clientConn) : clientConn :=
  {| cn_bodyID := cn_bodyID c; cn_execution := cn_execution c; cn_selected := cn_selected c; cn_responses := cn_responses c; cn_responseIDs := cn_responseIDs c;
     cn_workers := cn_workers c; cn_open := false |}.
(** The execution client and the socket are closed. *)
Definition close_both (c : clientConn) : clientConn :=
  shut {| cn_bodyID := cn_bodyID c; cn_execution := match cn_execution c with Some _ => Some true | None => None end; cn_selected := cn_selected c;
          cn_responses := cn_responses c; cn_responseIDs := cn_responseIDs c; cn_workers := cn_workers c; cn_open := cn_open c |}.

(** ** Activation *)

(** How the calls of an activation go: the lifecycle accepts; the acceptance is written; the deadline is lifted. *)
Record activation := { ac_connected : bool; ac_written : bool; ac_deadline : bool }.

(** [before] is whether an acceptance has to be written first; [None] is success. *)
Definition activateAuthenticated (s : Server) (id : string) (c : clientConn) (bodyID : string) (before : bool) (a : activation)
    : bool * list effect * Server :=
  if ws_lifecycle s && negb (ac_connected a) then (false, [SessionConnected id bodyID], s)
  else
    let fx := if ws_lifecycle s then [SessionConnected id bodyID] else [] in
    let gone := if ws_lifecycle s then [SessionDisconnected id bodyID] else [] in
    if empty_str bodyID then (false, fx, s)
    else if before && negb (ac_written a) then (false, fx ++ gone, s)
    else
      let fx := if before then fx ++ [Wrote id WAccept] else fx in
      if negb (ac_deadline a) then (false, fx ++ ExecutionClosed id :: gone, put_client s id (set_identity c bodyID true))
      else
        let s1 := put_client s id (set_identity c bodyID false) in
        let replaced := ws_execution s !! bodyID in
        let s2 := with_tables s1 ({[id]} ∪ ws_conns s1) (<[bodyID := id]> (ws_execution s1)) (ws_clients s1) in
        match replaced with
        | Some other =>
            if bool_decide (other = id) then (true, fx, s2)
            else (true, fx ++ [ExecutionClosed other], with_tables s2 (ws_conns s2) (ws_execution s2) (alter close_both other (ws_clients s2)))
        | None => (true, fx, s2)
        end.

(** A connection is accepted; [legacy] is the Body that the configured callback found, if there is one. *)
Definition handleWS (s : Server) (id : string) (legacy : option string) (a : activation) : list effect * Server :=
  let authenticated := if ws_authenticator s then "" else match legacy with Some b => b | None => "" end in
  let s := put_client s id new_conn in
  let '(_, fx, s) := if empty_str authenticated then (true, [], s) else activateAuthenticated s id new_conn authenticated false a in
  (fx, with_tables s ({[id]} ∪ ws_conns s) (ws_execution s) (ws_clients s)).

(** ** The read loop *)

(** What happens during one message: the authenticator takes the greeting; takes the proof, for a Body; writes succeed;
    the control handler's answer; the event handler's answer; and what the message is when it is read as an event. *)
Record turn := {
  tn_challenged : bool; tn_accepted : option string; tn_activation : activation; tn_writes : bool;
  tn_control : Response * string; tn_event : option Event; tn_as_event : option Event;
}.

Definition wrote (t : turn) (id : string) (r : reply) : list effect := if tn_writes t then [Wrote id r] else [].

(** The read loop returns. *)
Definition ends (s : Server) (id : string) (fx : list effect) : list effect * Server := (fx, with_tables s (ws_conns s) (ws_execution s) (alter shut id (ws_clients s))).

(** A write whose failure ends the loop. *)
Definition answer (s : Server) (t : turn) (id : string) (r : reply) : list effect * Server :=
  if tn_writes t then ([Wrote id r], s) else ends s id [].

(** Before authentication. *)
Definition unauthenticated (s : Server) (id : string) (c : clientConn) (m : message) (t : turn) : list effect * Server :=
  match m with
  | Hello true =>
      if tn_challenged t && tn_writes t then ([BeginAuthentication id; Wrote id WChallenge], s)
      else ends s id [BeginAuthentication id]
  | AuthProof true =>
      match tn_accepted t with
      | None => ends s id [ActivateAuthentication id None]
      | Some bodyID =>
          let '(ok, fx, s) := activateAuthenticated s id c bodyID true (tn_activation t) in
          let fx := ActivateAuthentication id (Some bodyID) :: fx in if ok then (fx, s) else ends s id fx
      end
  | SessionControl _ (Some r) => ends s id (wrote t id (WControlError r ErrorUnauthenticated))
  | SessionInteraction _ (Some (corr, doll)) => ends s id (wrote t id (WError corr doll))
  | _ => ends s id []
  end.

(** The cache of answers to session-control requests, oldest first. *)
Definition remember (c : clientConn) (r : Request) (response : Response) : gmap string (Request * Response) * list string :=
  if empty_str (req_ID r) then (cn_responses c, cn_responseIDs c)
  else
    let m := <[req_ID r := (r, response)]> (cn_responses c) in
    let ids := cn_responseIDs c ++ [req_ID r] in
    if Nat.ltb sessionResponseCacheSize (length ids) then
      match ids with old :: rest => (delete old m, rest) | [] => (m, ids) end
    else (m, ids).

Definition handleControl (s : Server) (id : string) (c : clientConn) (r recovered : option Request) (t : turn) : list effect * Server :=
  match r with
  | None => match recovered with Some x => answer s t id (WControlError x ErrorInvalidRequest) | None => ([], s) end
  | Some r =>
      if empty_str (cn_bodyID c) then
        if empty_str (req_ID r) then ([], s) else answer s t id (WControlError r ErrorUnauthenticated)
      else if negb (ws_control s) then
        if empty_str (req_ID r) then ([], s) else answer s t id (WControlError r ErrorHandlerUnavailable)
      else
        match (if empty_str (req_ID r) then None else cn_responses c !! req_ID r) with
        | Some (old, response) =>
            answer s t id (if bool_decide (old = r) then WControl response else WControlError r ErrorRequestIDConflict)
        | None =>
            let call := CallControl id (cn_bodyID c) (cn_selected c) r in
            let '(response, selected) := tn_control t in
            let '(cache, ids) := remember c r response in
            if tn_writes t then ([call; Wrote id (WControl response)], put_client s id (set_session c selected cache ids))
            else ends (put_client s id (set_session c (cn_selected c) cache ids)) id [call]
        end
  end.

(** The decoded interaction: whether it validates, whether its version is the reason, its session and its event. *)
Definition handleInteraction (s : Server) (id : string) (c : clientConn) (i : option (bool * bool * string * Event)) (recovered : option (string * string)) (t : turn)
    : list effect * Server :=
  match i with
  | None => match recovered with Some (corr, doll) => answer s t id (WError corr doll) | None => ([], s) end
  | Some (valid, _, sessionID, e) =>
      if negb valid || empty_str (cn_bodyID c) || negb (ws_interaction s) then answer s t id (WError (ev_ID e) (ev_DollID e))
      else if len (cn_workers c) <? ws_maxInteractions s then
        ([CallInteraction id (cn_bodyID c) sessionID e], put_client s id (set_workers c (cn_workers c ++ [(sessionID, e)])))
      else answer s t id (WError (ev_ID e) (ev_DollID e))
  end.

Definition handleAdvertisement (s : Server) (id : string) (c : clientConn) (a : option (bool * string * list Capability)) : list effect :=
  if bool_decide (cn_execution c = None) || negb (ws_lifecycle s) then []
  else match a with
       | None => []
       | Some (valid, bodyID, l) => if negb valid || negb (same_str bodyID (cn_bodyID c)) then [] else [CapabilitiesAdvertised id (cn_bodyID c) l]
       end.

Definition handleEvent (s : Server) (id : string) (c : clientConn) (e : option Event) (t : turn) : list effect * Server :=
  match e with
  | None => (wrote t id (WError "" ""), s)
  | Some e =>
      if negb (ws_handler s) || empty_str (cn_bodyID c) then (wrote t id (WError (ev_ID e) (ev_DollID e)), s)
      else
        let call := CallEvent id (cn_bodyID c) (cn_selected c) e in
        match tn_event t with
        | None => (call :: wrote t id (WError (ev_ID e) (ev_DollID e)), s)
        | Some r =>
            let r := if empty_str (ev_CorrelationID r) && negb (empty_str (ev_ID e)) then correlate r (ev_ID e) else r in
            if tn_writes t then ([call; Wrote id (WEvent r)], s) else ends s id [call]
        end
  end.

Definition readLoop (s : Server) (id : string) (c : clientConn) (m : message) (t : turn) : list effect * Server :=
  let guarded := ws_authenticator s && bool_decide (cn_execution c = None) in
  match m with
  | Malformed => if guarded then ends s id [] else (wrote t id (WError "" ""), s)
  | _ =>
      if guarded then unauthenticated s id c m t
      else match m with
           | Hello _ | AuthProof _ | Challenge | Accept => if ws_authenticator s then ends s id [] else handleEvent s id c (tn_as_event t) t
           | ExecutionResult r =>
               (match cn_execution c, r with Some _, Some r => [HandleResult id r] | _, _ => [] end, s)
           | ExecutionRequest => ([], s)
           | SessionControl r recovered => handleControl s id c r recovered t
           | SessionInteraction i recovered => handleInteraction s id c i recovered t
           | Advertisement a => (handleAdvertisement s id c a, s)
           | Plain e => handleEvent s id c e t
           | Malformed => ([], s)
           end
  end.

(** The deferred end of the read loop, after the workers are done. *)
Definition conn_ends (s : Server) (id : string) (c : clientConn) : list effect * Server :=
  let cancel := if ws_authenticator s then [CancelAuthentication id] else [] in
  let execution := if bool_decide (ws_execution s !! cn_bodyID c = Some id) then delete (cn_bodyID c) (ws_execution s) else ws_execution s in
  let fx := match cn_execution c with
            | Some _ => ExecutionClosed id :: (if ws_lifecycle s then [SessionDisconnected id (cn_bodyID c)] else [])
            | None => []
            end in
  (cancel ++ fx, with_tables s (ws_conns s ∖ {[id]}) execution (delete id (ws_clients s))).

(** A worker returns; [r] is the handler's answer, [None] an error. *)
Definition worker_done (s : Server) (id : string) (c : clientConn) (k : nat) (r : option (option Event)) (writes : bool) : list effect * Server :=
  match cn_workers c !! k with
  | None => ([], s)
  | Some (_, e) =>
      let reply := match r with
                   | Some (Some x) => WEvent (if empty_str (ev_CorrelationID x) then correlate x (ev_ID e) else x)
                   | _ => WError (ev_ID e) (ev_DollID e)
                   end in
      (if writes then [Wrote id reply] else [], put_client s id (set_workers c (delete k (cn_workers c))))
  end.

(** ** What others ask of the server *)

(** The connection that an execution request for a Body is sent on. *)
Definition Execute (s : Server) (bodyID : string) : option string :=
  match ws_execution s !! bodyID with
  | Some id => match ws_clients s !! id with Some c => match cn_execution c with Some _ => Some id | None => None end | None => None end
  | None => None
  end.

Definition DisconnectBody (s : Server) (bodyID : string) : list effect * Server :=
  match ws_execution s !! bodyID with
  | Some id => ([ExecutionClosed id], with_tables s (ws_conns s) (delete bodyID (ws_execution s)) (alter close_both id (ws_clients s)))
  | None => ([], s)
  end.

Definition Shutdown (s : Server) : list effect * Server :=
  (ExecutionClosed <$> List.filter (fun id => match ws_clients s !! id with Some c => match cn_execution c with Some _ => true | None => false end | None => false end) (elements (ws_conns s)),
   with_tables s ∅ ∅ (map_imap (fun id c => Some (if bool_decide (id ∈ ws_conns s) then close_both c else c)) (ws_clients s))).

(** The connections that an action is sent to. *)
Definition action_targets (s : Server) : list string :=
  List.filter (fun id => match ws_clients s !! id with
                         | Some c => negb (ws_authenticator s && bool_decide (cn_execution c = None))
                         | None => false
                         end) (elements (ws_conns s)).

(** Whether [SendAction] succeeds; [writes] is whether the write to a connection does. *)
Definition SendAction (s : Server) (writes : string -> bool) : bool := existsb writes (action_targets s).

(** ** Steps *)

Inductive ws_step : Server -> list effect -> Server -> Prop :=
| wt_accept s id legacy a : ws_clients s !! id = None -> ws_step s (handleWS s id legacy a).1 (handleWS s id legacy a).2
| wt_message s id c m t : ws_clients s !! id = Some c -> cn_open c = true -> ws_step s (readLoop s id c m t).1 (readLoop s id c m t).2
| wt_read_error s id c : ws_clients s !! id = Some c -> ws_step s [] (put_client s id (shut c))
| wt_end s id c : ws_clients s !! id = Some c -> cn_open c = false -> cn_workers c = [] -> ws_step s (conn_ends s id c).1 (conn_ends s id c).2
| wt_worker s id c k r writes : ws_clients s !! id = Some c -> ws_step s (worker_done s id c k r writes).1 (worker_done s id c k r writes).2
| wt_disconnect s bodyID : ws_step s (DisconnectBody s bodyID).1 (DisconnectBody s bodyID).2
| wt_shutdown s : ws_step s (Shutdown s).1 (Shutdown s).2.

(** ** What holds of every connection *)

Record conn_ok (tr : list effect) (s : Server) (id : string) (c : clientConn) : Prop := {
  co_anonymous : cn_execution c = None -> cn_bodyID c = "";
  co_named : cn_execution c <> None -> cn_bodyID c <> "";
  co_proved : ws_authenticator s = true -> cn_execution c <> None -> ActivateAuthentication id (Some (cn_bodyID c)) ∈ tr /\ Wrote id WAccept ∈ tr;
  co_working : cn_workers c <> [] -> cn_execution c <> None;
  co_workers : len (cn_workers c) <= Z.max 0 (ws_maxInteractions s);
  co_cache : (length (cn_responseIDs c) <= sessionResponseCacheSize)%nat;
  co_ids : NoDup (cn_responseIDs c);
  co_cached : forall i, is_Some (cn_responses c !! i) <-> i ∈ cn_responseIDs c;
}.

Record ws_ok (tr : list effect) (s : Server) : Prop := {
  wo_exec : forall b id, ws_execution s !! b = Some id -> exists c, ws_clients s !! id = Some c /\ cn_bodyID c = b /\ cn_execution c = Some false;
  wo_live : forall id c, ws_clients s !! id = Some c -> cn_execution c = Some false -> ws_execution s !! cn_bodyID c = Some id /\ id ∈ ws_conns s;
  wo_conn : forall id c, ws_clients s !! id = Some c -> conn_ok tr s id c;
}.

Lemma conn_ok_more tr tr' s s' id c :
  ws_authenticator s' = ws_authenticator s -> ws_maxInteractions s' = ws_maxInteractions s -> conn_ok tr s id c -> conn_ok (tr ++ tr') s' id c.
Proof. intros E1 E2 []. split; rewrite ?E1, ?E2; try done. intros H1 H2. rewrite !elem_of_app. split; left; by apply co_proved0. Qed.

Lemma ws_ok_more tr tr' s : ws_ok tr s -> ws_ok (tr ++ tr') s.
Proof. intros [H1 H2 H3]. split; try done. intros. eapply conn_ok_more; by eauto. Qed.

(** A connection changes, but not its identity. *)
Lemma ws_ok_put tr s id c c' : ws_ok tr s -> ws_clients s !! id = Some c -> cn_bodyID c' = cn_bodyID c -> cn_execution c' = cn_execution c ->
  conn_ok tr s id c' -> ws_ok tr (put_client s id c').
Proof.
  intros [H1 H2 H3] Hc E1 E2 Hok. split; simpl.
  - intros b i Hb. destruct (H1 b i Hb) as (x & Hx & Eb & Ee). destruct (decide (i = id)) as [->|]; [exists c'; rewrite lookup_insert_eq; split_and!; congruence|].
    exists x. by rewrite lookup_insert_ne.
  - intros i x. rewrite lookup_insert_Some. intros [[<- <-]|[_ Hx]]; [rewrite E1, E2; by apply H2|by apply H2].
  - intros i x. rewrite lookup_insert_Some. intros [[<- <-]|[_ Hx]]; [by destruct Hok|]. destruct (H3 i x Hx). by split.
Qed.

Lemma ws_ok_shut tr s id : ws_ok tr s -> ws_ok tr (with_tables s (ws_conns s) (ws_execution s) (alter shut id (ws_clients s))).
Proof.
  intros H. destruct (ws_clients s !! id) as [c|] eqn:Hc.
  - replace (alter shut id (ws_clients s)) with (<[id := shut c]> (ws_clients s)) by (apply map_eq; intros i; destruct (decide (i = id)) as [->|];
        [by rewrite lookup_alter_eq, lookup_insert_eq, Hc|by rewrite lookup_alter_ne, lookup_insert_ne]).
    eapply (ws_ok_put tr s id c (shut c)); try done. destruct (wo_conn _ _ H _ _ Hc). by split.
  - replace (alter shut id (ws_clients s)) with (ws_clients s); [by destruct s|]. apply map_eq. intros i.
    destruct (decide (i = id)) as [->|]; [by rewrite lookup_alter_eq, Hc|by rewrite lookup_alter_ne].
Qed.

(** Execution clients are closed and their entries removed. *)
Lemma ws_ok_closed tr s conns execution clients :
  ws_ok tr s ->
  (forall id c', clients !! id = Some c' -> exists c, ws_clients s !! id = Some c /\ (c' = c \/ c' = close_both c) /\
     (cn_execution c' = Some false -> execution !! cn_bodyID c = Some id /\ id ∈ conns)) ->
  (forall b id, execution !! b = Some id -> ws_execution s !! b = Some id /\ clients !! id = ws_clients s !! id) ->
  ws_ok tr (with_tables s conns execution clients).
Proof.
  intros [H1 H2 H3] Hc He. split; simpl.
  - intros b id (Hb & E)%He. rewrite E. by apply H1.
  - intros id c' Hc' Hx. destruct (Hc id c' Hc') as (c & _ & [-> | ->] & Hl); by apply Hl.
  - intros id c' Hc'. destruct (Hc id c' Hc') as (c & Hcc & [-> | ->] & _); destruct (H3 id c Hcc) as [A1 A2 A3 A8 A4 A5 A6 A7]; split; simpl; try done;
      destruct (cn_execution c); try done; intros; try (by apply A2); try (by apply A3); by apply A8.
Qed.

(** The connections after one was registered for a Body: the one it replaces is closed. *)
Definition registered (s : Server) (id bodyID : string) (c' : clientConn) : gmap string clientConn :=
  match ws_execution s !! bodyID with
  | Some other => alter close_both other (<[id := c']> (ws_clients s))
  | None => <[id := c']> (ws_clients s)
  end.

Lemma registered_lookup s id bodyID c' i x : ws_execution s !! bodyID <> Some id -> registered s id bodyID c' !! i = Some x ->
  (i = id /\ x = c') \/ (i <> id /\ exists y, ws_clients s !! i = Some y /\ if bool_decide (ws_execution s !! bodyID = Some i) then x = close_both y else x = y).
Proof.
  unfold registered. intros Hfree. destruct (ws_execution s !! bodyID) as [other|] eqn:Eo.
  - destruct (decide (i = other)) as [->|Hio].
    + rewrite lookup_alter_eq, lookup_insert_ne by congruence. intros (y & Hy & ->)%fmap_Some.
      right. split; [congruence|]. exists y. by rewrite bool_decide_true.
    + rewrite lookup_alter_ne by done. rewrite lookup_insert_Some. intros [[<- <-]|[Hne Hx]]; [by left|right]. split; [done|].
      exists x. by rewrite bool_decide_false by congruence.
  - rewrite lookup_insert_Some. intros [[<- <-]|[Hne Hx]]; [by left|right]. split; [done|]. exists x. by rewrite bool_decide_false.
Qed.

Lemma registered_kept s id bodyID c' i : ws_execution s !! bodyID <> Some i -> i <> id -> registered s id bodyID c' !! i = ws_clients s !! i.
Proof.
  unfold registered. intros Ho Hi. destruct (ws_execution s !! bodyID); [rewrite lookup_alter_ne by congruence|]; by rewrite lookup_insert_ne.
Qed.

Lemma registered_new s id bodyID c' : ws_execution s !! bodyID <> Some id -> registered s id bodyID c' !! id = Some c'.
Proof. unfold registered. intros Ho. destruct (ws_execution s !! bodyID); [rewrite lookup_alter_ne by congruence|]; by rewrite lookup_insert_eq. Qed.

Lemma conn_ok_closed tr s id c : conn_ok tr s id c -> conn_ok tr s id (close_both c).
Proof.
  intros [A1 A2 A3 A8 A4 A5 A6 A7]. split; simpl; try done; destruct (cn_execution c); try done; intros; try (by apply A2); try (by apply A3); by apply A8.
Qed.

(** A connection without a client yet has no entry. *)
Lemma unregistered tr s id c b : ws_ok tr s -> ws_clients s !! id = Some c -> cn_execution c = None -> ws_execution s !! b <> Some id.
Proof. intros Hs Hc Hn (y & Hy & _ & Hey)%(wo_exec _ _ Hs). congruence. Qed.

Lemma register_ok tr s id c bodyID : ws_ok tr s -> ws_clients s !! id = Some c -> cn_execution c = None -> conn_ok tr s id (set_identity c bodyID false) ->
  ws_ok tr (with_tables s ({[id]} ∪ ws_conns s) (<[bodyID := id]> (ws_execution s)) (registered s id bodyID (set_identity c bodyID false))).
Proof.
  intros Hs Hc Hn Hok. pose proof (fun b => unregistered tr s id c b Hs Hc Hn) as Hfree. destruct Hs as [H1 H2 H3]. split; simpl.
  - intros b i. rewrite lookup_insert_Some. intros [[<- <-]|[Hne Hb]]; [exists (set_identity c bodyID false); by rewrite registered_new|].
    destruct (H1 b i Hb) as (x & Hx & Ebx & Eex). exists x. rewrite registered_kept; [done| |by intros ->; apply (Hfree b)].
    intros Eo. destruct (H1 _ _ Eo) as (y & Hy & ? & _). congruence.
  - intros i x Hx Hex. apply registered_lookup in Hx as [[-> ->]|(Hne & y & Hy & Hxy)]; [..|done]; [simpl; rewrite lookup_insert_eq; split; [done|apply elem_of_union; left; by apply elem_of_singleton]|].
    case_bool_decide as Ho; subst x; [by simpl in Hex; destruct (cn_execution y)|]. destruct (H2 i y Hy Hex) as [Hm Hcn].
    rewrite lookup_insert_ne by congruence. split; [done|by apply elem_of_union; right].
  - intros i x Hx. apply registered_lookup in Hx as [[-> ->]|(Hne & y & Hy & Hxy)]; [by destruct Hok| |done].
    case_bool_decide; subst x; [destruct (conn_ok_closed _ _ _ _ (H3 i y Hy))|destruct (H3 i y Hy)]; by split.
Qed.

Lemma activate_ok tr s id c bodyID before a ok fx s' :
  ws_ok tr s -> ws_clients s !! id = Some c -> cn_execution c = None ->
  (ws_authenticator s = true -> before = true /\ ActivateAuthentication id (Some bodyID) ∈ tr) ->
  activateAuthenticated s id c bodyID before a = (ok, fx, s') -> ws_ok (tr ++ fx) s'.
Proof.
  intros Hs Hc Hn Hauth He. pose proof (unregistered tr s id c bodyID Hs Hc Hn) as Hfree. unfold activateAuthenticated in He.
  destruct (ws_lifecycle s && negb (ac_connected a)); [simplify_eq; by apply ws_ok_more|].
  destruct (empty_str bodyID) eqn:Eb; [simplify_eq; by apply ws_ok_more|]. apply empty_str_false in Eb.
  destruct (before && negb (ac_written a)); [simplify_eq; by apply ws_ok_more|].
  set (f := if ws_lifecycle s then [SessionConnected id bodyID] else []) in *.
  set (f' := if before then f ++ [Wrote id WAccept] else f) in *.
  assert (forall closed, conn_ok (tr ++ f') s id (set_identity c bodyID closed)) as Hok.
  { intros closed. destruct (wo_conn _ _ Hs id c Hc). split; simpl; try done.
    intros Ha _. destruct (Hauth Ha) as [-> Hin]. split; [apply elem_of_app; by left|].
    apply elem_of_app. right. unfold f'. apply elem_of_app. right. by apply list_elem_of_singleton. }
  pose proof (ws_ok_more tr f' s Hs) as Hs'. destruct (ac_deadline a); cbn [negb] in He.
  - pose proof (register_ok (tr ++ f') s id c bodyID Hs' Hc Hn (Hok false)) as Hnew. unfold registered in Hnew.
    fold f f' in He. destruct (ws_execution s !! bodyID) as [other|] eqn:Eo; [|by simplify_eq].
    rewrite bool_decide_false in He by congruence. simplify_eq. rewrite app_assoc. by apply ws_ok_more.
  - fold f f' in He. injection He as <- <- <-. rewrite app_assoc. apply ws_ok_more. destruct Hs' as [H1 H2 H3]. split; simpl.
    + intros b i Hb. destruct (H1 b i Hb) as (x & Hx & Hbx). exists x.
      by rewrite lookup_insert_ne by (intros ->; by apply (unregistered tr s i c b Hs Hc Hn)).
    + intros i x. rewrite lookup_insert_Some. intros [[<- <-]|[_ Hx]]; [done|by apply H2].
    + intros i x. rewrite lookup_insert_Some. intros [[<- <-]|[_ Hx]]; [by destruct (Hok true)|by destruct (H3 i x Hx)].
Qed.

(** *** One message *)

Lemma ends_ok tr s id fx : ws_ok tr s -> ws_ok (tr ++ (ends s id fx).1) (ends s id fx).2.
Proof. intros H. by apply ws_ok_more, ws_ok_shut. Qed.

Lemma answer_ok tr s t id r : ws_ok tr s -> ws_ok (tr ++ (answer s t id r).1) (answer s t id r).2.
Proof. intros H. unfold answer. case_match; [by apply ws_ok_more|by apply ends_ok]. Qed.

Lemma unauthenticated_ok tr s id c m t : ws_ok tr s -> ws_clients s !! id = Some c -> cn_execution c = None ->
  ws_ok (tr ++ (unauthenticated s id c m t).1) (unauthenticated s id c m t).2.
Proof.
  intros Hs Hc Hn. unfold unauthenticated. destruct m as [|[]|[]| | | | |? [r|]|? [[corr doll]|]| |]; try (by apply ends_ok).
  - case_match; [by apply ws_ok_more|by apply ends_ok].
  - destruct (tn_accepted t) as [bodyID|]; [|by apply ends_ok].
    destruct (activateAuthenticated s id c bodyID true (tn_activation t)) as [[ok fx] s'] eqn:E.
    assert (ws_ok (tr ++ ActivateAuthentication id (Some bodyID) :: fx) s') as H.
    { change (ActivateAuthentication id (Some bodyID) :: fx) with ([ActivateAuthentication id (Some bodyID)] ++ fx). rewrite app_assoc. eapply activate_ok; [by apply ws_ok_more|done|done| |exact E].
      intros _. split; [done|]. apply elem_of_app. right. by apply list_elem_of_singleton. }
    destruct ok; [done|]. by apply ws_ok_shut.
Qed.

Lemma remember_ok tr s id c r response selected :
  conn_ok tr s id c -> cn_responses c !! req_ID r = None \/ req_ID r = "" ->
  conn_ok tr s id (set_session c selected (remember c r response).1 (remember c r response).2).
Proof.
  intros [A1 A2 A3 A8 A4 A5 A6 A7] Hr. unfold remember. destruct (empty_str (req_ID r)) eqn:Er; [by split|]. apply empty_str_false in Er.
  destruct Hr as [Hr|Hr]; [|done]. assert (req_ID r ∉ cn_responseIDs c) as Hnew by (rewrite <- A7, Hr; by intros [? ?]).
  assert (NoDup (cn_responseIDs c ++ [req_ID r])) as Hnd.
  { apply NoDup_app. split_and!; [done| |apply NoDup_singleton]. intros x Hx ->%list_elem_of_singleton. done. }
  assert (forall i, is_Some (<[req_ID r := (r, response)]> (cn_responses c) !! i) <-> i ∈ cn_responseIDs c ++ [req_ID r]) as Hin.
  { intros i. rewrite elem_of_app, list_elem_of_singleton, <- A7. destruct (decide (i = req_ID r)) as [->|]; [rewrite lookup_insert_eq; split; [by right|by eauto]|].
    rewrite lookup_insert_ne by done. split; [by left|by intros [?|?]]. }
  pose proof (length_app (cn_responseIDs c) [req_ID r]) as Hlen. simpl in Hlen.
  destruct (Nat.ltb_spec sessionResponseCacheSize (length (cn_responseIDs c ++ [req_ID r]))); [|split; simpl; try done].
  destruct (cn_responseIDs c ++ [req_ID r]) as [|old rest] eqn:El; [by destruct (cn_responseIDs c)|]. apply NoDup_cons in Hnd as [Ho Hnd]. simpl in Hlen. split; simpl; try done; [lia|].
  intros i. destruct (decide (i = old)) as [->|Hne]; [rewrite lookup_delete_eq; split; [by intros [? ?]|done]|].
  rewrite lookup_delete_ne, Hin, elem_of_cons by done. split; [by intros [?|?]|by right].
Qed.

Lemma control_ok tr s id c r recovered t : ws_ok tr s -> ws_clients s !! id = Some c ->
  ws_ok (tr ++ (handleControl s id c r recovered t).1) (handleControl s id c r recovered t).2.
Proof.
  intros Hs Hc. unfold handleControl. destruct r as [r|]; [|destruct recovered; [by apply answer_ok|by apply ws_ok_more]].
  do 2 (case_match; [case_match; [by apply ws_ok_more|by apply answer_ok]|]).
  destruct (if empty_str (req_ID r) then None else cn_responses c !! req_ID r) as [[old response]|] eqn:Ec; [by apply answer_ok|].
  assert (cn_responses c !! req_ID r = None \/ req_ID r = "") as Hr.
  { destruct (empty_str (req_ID r)) eqn:Er; [right; by apply empty_str_true|by left]. }
  destruct (tn_control t) as [response selected]. pose proof (wo_conn _ _ Hs _ _ Hc) as Hok.
  assert (forall sel, ws_ok tr (put_client s id (set_session c sel (remember c r response).1 (remember c r response).2))) as Hput.
  { intros sel. eapply ws_ok_put; [done|exact Hc|done|done|by apply remember_ok]. }
  destruct (remember c r response) as [cache ids]. destruct (tn_writes t); [by apply ws_ok_more, Hput|by apply ends_ok, Hput].
Qed.

Lemma interaction_ok tr s id c i recovered t : ws_ok tr s -> ws_clients s !! id = Some c ->
  ws_ok (tr ++ (handleInteraction s id c i recovered t).1) (handleInteraction s id c i recovered t).2.
Proof.
  intros Hs Hc. unfold handleInteraction. destruct i as [[[[valid version] sid] e]|]; [|destruct recovered as [[]|]; [by apply answer_ok|by apply ws_ok_more]].
  destruct (negb valid || empty_str (cn_bodyID c) || negb (ws_interaction s)) eqn:Eg; [by apply answer_ok|].
  destruct (Z.ltb_spec (len (cn_workers c)) (ws_maxInteractions s)); [|by apply answer_ok]. apply ws_ok_more.
  eapply ws_ok_put; [done|exact Hc|done|done|]. destruct (wo_conn _ _ Hs _ _ Hc) as [A1 A2 A3 A8 A4 A5 A6 A7]. split; simpl; try done.
  - intros _ Hn. bool_props. match goal with H : empty_str _ = false |- _ => apply empty_str_false in H; by apply H, A1 end.
  - rewrite len_app. unfold len at 2. simpl. lia.
Qed.

Lemma message_ok tr s id c m t : ws_ok tr s -> ws_clients s !! id = Some c -> ws_ok (tr ++ (readLoop s id c m t).1) (readLoop s id c m t).2.
Proof.
  intros Hs Hc. unfold readLoop. set (guarded := ws_authenticator s && bool_decide (cn_execution c = None)).
  assert (forall e, ws_ok (tr ++ (handleEvent s id c e t).1) (handleEvent s id c e t).2) as He.
  { intros e. unfold handleEvent. destruct e as [e|]; [|by apply ws_ok_more]. case_match; [by apply ws_ok_more|].
    destruct (tn_event t); [|by apply ws_ok_more]. destruct (tn_writes t); [by apply ws_ok_more|by apply ends_ok]. }
  assert (guarded = true -> forall m, ws_ok (tr ++ (unauthenticated s id c m t).1) (unauthenticated s id c m t).2) as Hu.
  { intros Hg m'. apply unauthenticated_ok; try done. unfold guarded in Hg. by bool_props. }
  destruct m; destruct guarded; try (by apply Hu); try (by apply ends_ok); try (by apply ws_ok_more); try (by apply He);
    try (destruct (ws_authenticator s); [by apply ends_ok|by apply He]); [by apply control_ok|by apply interaction_ok].
Qed.

(** *** The other steps *)

Lemma new_conn_ok tr s id : conn_ok tr s id new_conn.
Proof.
  split; simpl; try done; [unfold len; simpl; lia|lia|constructor|]. intros i. rewrite lookup_empty, elem_of_nil. split; [by intros [? ?]|done].
Qed.

Lemma accept_ok tr s id legacy a : ws_ok tr s -> ws_clients s !! id = None -> ws_ok (tr ++ (handleWS s id legacy a).1) (handleWS s id legacy a).2.
Proof.
  intros Hs Hn. unfold handleWS. set (b := if ws_authenticator s then "" else _).
  assert (ws_ok tr (put_client s id new_conn)) as Hnew.
  { pose proof Hs as [H1 H2 H3]. split; simpl.
    - intros x i Hx. destruct (H1 x i Hx) as (c & Hc & ?). exists c. by rewrite lookup_insert_ne by congruence.
    - intros i c. rewrite lookup_insert_Some. intros [[<- <-]|[_ Hc]]; [done|by apply H2].
    - intros i c. rewrite lookup_insert_Some. intros [[<- <-]|[_ Hc]]; [apply new_conn_ok|]. by destruct (H3 i c Hc). }
  assert (forall tr' s', ws_ok tr' s' -> ws_ok tr' (with_tables s' ({[id]} ∪ ws_conns s') (ws_execution s') (ws_clients s'))) as Hadd.
  { intros tr' s' [H1 H2 H3]. split; simpl; [done| |intros i c Hc; by destruct (H3 i c Hc)].
    intros i c Hc Hx. destruct (H2 i c Hc Hx). split; [done|]. apply elem_of_union. by right. }
  destruct (empty_str b) eqn:Eb; [apply Hadd; by rewrite app_nil_r|].
  destruct (activateAuthenticated _ _ _ _ _ _) as [[ok fx] s'] eqn:E. apply Hadd. eapply activate_ok; [exact Hnew|simpl; by rewrite lookup_insert_eq|done| |exact E].
  intros Ha. exfalso. unfold b in Eb. simpl in Ha. rewrite Ha in Eb. done.
Qed.

Lemma end_ok tr s id c : ws_ok tr s -> ws_clients s !! id = Some c -> ws_ok (tr ++ (conn_ends s id c).1) (conn_ends s id c).2.
Proof.
  intros Hs Hc. apply ws_ok_more. pose proof Hs as [H1 H2 H3]. apply ws_ok_closed; [done|..].
  - intros i x. rewrite lookup_delete_Some. intros [Hne Hx]. exists x. split_and!; [done|by left|]. intros Hex. destruct (H2 i x Hx Hex) as [Hm Hi].
    split; [|apply elem_of_difference; split; [done|]; by rewrite elem_of_singleton; auto].
    case_bool_decide as Hd; [|done]. rewrite lookup_delete_ne; [done|]. congruence.
  - intros b i Hb. assert (ws_execution s !! b = Some i /\ (b = cn_bodyID c -> i <> id)) as [Hb' Hne].
    { case_bool_decide as Hd; [apply lookup_delete_Some in Hb as [Hne Hb]; split; [done|congruence]|]. split; [done|]. intros -> ->. done. }
    split; [done|]. rewrite lookup_delete_ne; [done|]. intros <-. destruct (H1 b id Hb') as (x & Hx & Hbx & _). apply Hne; [congruence|done].
Qed.

Lemma worker_ok tr s id c k r writes : ws_ok tr s -> ws_clients s !! id = Some c ->
  ws_ok (tr ++ (worker_done s id c k r writes).1) (worker_done s id c k r writes).2.
Proof.
  intros Hs Hc. unfold worker_done. destruct (cn_workers c !! k) as [[sid e]|] eqn:Ek; [|by apply ws_ok_more]. apply ws_ok_more.
  eapply ws_ok_put; [done|exact Hc|done|done|]. destruct (wo_conn _ _ Hs _ _ Hc) as [A1 A2 A3 A8 A4 A5 A6 A7]. split; simpl; try done.
  - intros _. apply A8. intros E. by rewrite E in Ek.
  - unfold len in *. pose proof (length_delete (cn_workers c) k ltac:(by eauto)). lia.
Qed.

Lemma disconnect_ok tr s b : ws_ok tr s -> ws_ok (tr ++ (DisconnectBody s b).1) (DisconnectBody s b).2.
Proof.
  intros Hs. unfold DisconnectBody. destruct (ws_execution s !! b) as [id|] eqn:Eb; [|by apply ws_ok_more]. apply ws_ok_more.
  pose proof Hs as [H1 H2 H3]. destruct (H1 b id Eb) as (c & Hc & Ebc & _). apply ws_ok_closed; [done|..].
  - intros i x. destruct (decide (i = id)) as [->|].
    + rewrite lookup_alter_eq. intros (y & Hy & ->)%fmap_Some. exists y. split_and!; [done|by right|]. simpl. by destruct (cn_execution y).
    + rewrite lookup_alter_ne by done. intros Hx. exists x. split_and!; [done|by left|]. intros Hex. destruct (H2 i x Hx Hex). split; [|done].
      rewrite lookup_delete_ne; [done|]. congruence.
  - intros b' i. rewrite lookup_delete_Some. intros [Hne Hb]. split; [done|]. rewrite lookup_alter_ne; [done|]. intros <-. destruct (H1 b' id Hb) as (y & Hy & ? & _). congruence.
Qed.

Lemma shutdown_ok tr s : ws_ok tr s -> ws_ok (tr ++ (Shutdown s).1) (Shutdown s).2.
Proof.
  intros Hs. apply ws_ok_more. apply ws_ok_closed; [done| |done]. intros id x. rewrite map_lookup_imap. intros (c & Hc & [= <-])%bind_Some.
  exists c. split_and!; [done|by case_bool_decide; auto|]. case_bool_decide as Hin; simpl; [by destruct (cn_execution c)|].
  intros Hex. by destruct (wo_live _ _ Hs _ _ Hc Hex).
Qed.

Lemma step_ok tr s fx s' : ws_step s fx s' -> ws_ok tr s -> ws_ok (tr ++ fx) s'.
Proof.
  intros Hst Hs. destruct Hst; [by apply accept_ok|by apply message_ok| |by apply end_ok|by apply worker_ok|by apply disconnect_ok|by apply shutdown_ok].
  rewrite app_nil_r. eapply ws_ok_put; [done|done|done|done|]. by destruct (wo_conn _ _ Hs _ _ H).
Qed.

(** ** Runs *)

Inductive ws_run (s0 : Server) : list effect -> Server -> Prop :=
| run_start : ws_run s0 [] s0
| run_step tr s fx s' : ws_run s0 tr s -> ws_step s fx s' -> ws_run s0 (tr ++ fx) s'.

Definition fresh (s : Server) : Prop := ws_conns s = ∅ /\ ws_execution s = ∅ /\ ws_clients s = ∅.

Lemma fresh_server_ok s : fresh s -> ws_ok [] s.
Proof. intros (E1 & E2 & E3). split; intros *; rewrite ?E2, ?E3, lookup_empty; done. Qed.

Lemma run_ok s0 tr s : fresh s0 -> ws_run s0 tr s -> ws_ok tr s.
Proof. intros Hf. induction 1; [by apply fresh_server_ok|by eapply step_ok]. Qed.

Lemma step_authenticator s fx s' : ws_step s fx s' -> ws_authenticator s' = ws_authenticator s.
Proof.
  assert (forall s id c b before a, ws_authenticator (activateAuthenticated s id c b before a).2 = ws_authenticator s) as Ha.
  { intros. unfold activateAuthenticated. by repeat case_match. }
  destruct 1; simpl; try done.
  - unfold handleWS. set (b := if ws_authenticator s then "" else _). destruct (empty_str b); [done|].
    pose proof (Ha (put_client s id new_conn) id new_conn b false a) as H'. by destruct (activateAuthenticated _ _ _ _ _ _) as [[? ?] ?].
  - unfold readLoop, unauthenticated, handleControl, handleInteraction, handleEvent, answer, ends. repeat case_match; simpl; try done.
    all: match goal with E : activateAuthenticated ?s ?i ?c ?b ?f ?a = (_, _, ?x) |- ws_authenticator ?x = _ => specialize (Ha s i c b f a); by rewrite E in Ha end.
  - unfold worker_done. by repeat case_match.
  - unfold DisconnectBody. by repeat case_match.
Qed.

(** ** Only authenticated connections act *)

(** The connection an effect is made for, and the Body it is made in the name of, where it names one. *)
Definition acts (e : effect) : option (string * option string) :=
  match e with
  | CallControl id b _ _ | CallInteraction id b _ _ | CallEvent id b _ _ | CapabilitiesAdvertised id b _ => Some (id, Some b)
  | HandleResult id _ | Wrote id (WEvent _) | Wrote id (WControl _) => Some (id, None)
  | _ => None
  end.

(** Effects that act only for the connection [c] itself, and only when it is authenticated. *)
Definition own (id : string) (c : clientConn) (fx : list effect) : Prop :=
  Forall (fun e => acts e = None \/ (cn_execution c <> None /\ (acts e = Some (id, None) \/ acts e = Some (id, Some (cn_bodyID c))))) fx.

#[local] Ltac owns :=
  unfold own; simpl; repeat (apply Forall_cons; split; [right; split; [first [assumption|congruence]|by auto]|]); by apply Forall_nil.

Lemma own_quiet id c fx : Forall (fun e => acts e = None) fx -> own id c fx.
Proof. intros H. eapply Forall_impl; [exact H|]. by left. Qed.

Lemma wrote_quiet t id c corr doll : own id c (wrote t id (WError corr doll)).
Proof. apply own_quiet. unfold wrote. case_match; by repeat constructor. Qed.

Lemma activate_quiet s id c b before a : Forall (fun e => acts e = None) (activateAuthenticated s id c b before a).1.2.
Proof. unfold activateAuthenticated. repeat case_match; simpl; by repeat constructor. Qed.

Lemma unauthenticated_own s id c m t : own id c (unauthenticated s id c m t).1.
Proof.
  apply own_quiet. unfold unauthenticated. destruct m as [|[]|[]| | | | |? [r|]|? [[corr doll]|]| |]; simpl; try by constructor.
  - case_match; by repeat constructor.
  - destruct (tn_accepted t) as [b|]; [|by repeat constructor]. pose proof (activate_quiet s id c b true (tn_activation t)) as H.
    destruct (activateAuthenticated _ _ _ _ _ _) as [[ok fx] s']. destruct ok; by constructor.
  - unfold wrote. case_match; by repeat constructor.
  - unfold wrote. case_match; by repeat constructor.
Qed.

Lemma answer_own s t id c corr doll : own id c (answer s t id (WError corr doll)).1.
Proof. apply own_quiet. unfold answer. case_match; by repeat constructor. Qed.

Lemma answer_control_own s t id c r code : own id c (answer s t id (WControlError r code)).1.
Proof. apply own_quiet. unfold answer. case_match; by repeat constructor. Qed.

Lemma named_authenticated tr s id c : conn_ok tr s id c -> empty_str (cn_bodyID c) = false -> cn_execution c <> None.
Proof. intros H Hb E. apply empty_str_false in Hb. by apply Hb, H. Qed.

Lemma message_own tr s id c m t : conn_ok tr s id c -> own id c (readLoop s id c m t).1.
Proof.
  intros Hok. assert (forall e, own id c (handleEvent s id c e t).1) as He.
  { intros e. unfold handleEvent. destruct e as [e|]; [|apply wrote_quiet]. destruct (negb (ws_handler s) || empty_str (cn_bodyID c)) eqn:Eg; [apply wrote_quiet|].
    apply orb_false_iff in Eg as [_ Eb]. pose proof (named_authenticated _ _ _ _ Hok Eb) as Hx.
    destruct (tn_event t); [|apply Forall_cons; split; [by right; simpl; auto|apply wrote_quiet]].
    destruct (tn_writes t); owns. }
  assert (forall r rec, own id c (handleControl s id c r rec t).1) as Hc.
  { intros r rec. unfold handleControl. destruct r as [r|]; [|destruct rec; [apply answer_control_own|constructor]].
    destruct (empty_str (cn_bodyID c)) eqn:Eb; [case_match; [constructor|apply answer_control_own]|]. pose proof (named_authenticated _ _ _ _ Hok Eb) as Hx.
    case_match; [case_match; [constructor|apply answer_control_own]|].
    destruct (if empty_str (req_ID r) then None else cn_responses c !! req_ID r) as [[old response]|].
    - case_bool_decide; [|apply answer_control_own]. unfold answer. case_match; owns.
    - destruct (tn_control t), (remember _ _ _). destruct (tn_writes t); owns. }
  assert (forall i rec, own id c (handleInteraction s id c i rec t).1) as Hi.
  { intros i rec. unfold handleInteraction. destruct i as [[[[valid version] sid] e]|]; [|destruct rec as [[]|]; [apply answer_own|constructor]].
    destruct (negb valid || empty_str (cn_bodyID c) || negb (ws_interaction s)) eqn:Eg; [apply answer_own|]. apply orb_false_iff in Eg as [Eg _].
    apply orb_false_iff in Eg as [_ Eb]. pose proof (named_authenticated _ _ _ _ Hok Eb) as Hx. case_match; [owns|apply answer_own]. }
  unfold readLoop. destruct m; destruct (ws_authenticator s && _); try apply unauthenticated_own; try (by constructor); try apply He; try apply Hc; try apply Hi;
    try apply wrote_quiet; try (destruct (ws_authenticator s); [by constructor|apply He]).
  - simpl. destruct (cn_execution c) eqn:Ex, r; owns.
  - simpl. unfold handleAdvertisement. destruct (bool_decide (cn_execution c = None)) eqn:Ex; [by constructor|]. apply bool_decide_eq_false in Ex.
    repeat case_match; owns.
Qed.

Lemma step_own tr s fx s' e id b : ws_ok tr s -> ws_step s fx s' -> e ∈ fx -> acts e = Some (id, b) ->
  exists c, ws_clients s !! id = Some c /\ cn_execution c <> None /\ (b = None \/ b = Some (cn_bodyID c)).
Proof.
  intros Hs Hst He Ha.
  assert (forall i c, ws_clients s !! i = Some c -> own i c fx -> exists c, ws_clients s !! id = Some c /\ cn_execution c <> None /\ (b = None \/ b = Some (cn_bodyID c))) as Hown.
  { intros i c Hc Ho. unfold own in Ho. rewrite Forall_forall in Ho. destruct (Ho e He) as [?|[Hx [E|E]]]; [congruence|..]; rewrite E in Ha; simplify_eq; exists c; auto. }
  assert (Forall (fun e => acts e = None) fx -> False) as Hquiet by (rewrite Forall_forall; intros Hq; rewrite (Hq e He) in Ha; done).
  destruct Hst as [s i legacy a Hn|s i c m t Hc Ho|s i c Hc|s i c Hc Ho Hw|s i c k r writes Hc|s bodyID|s].
  - exfalso. apply Hquiet. unfold handleWS. set (x := if ws_authenticator s then "" else _). destruct (empty_str x); [constructor|].
    pose proof (activate_quiet (put_client s i new_conn) i new_conn x false a) as Hq. by destruct (activateAuthenticated _ _ _ _ _ _) as [[? ?] ?].
  - apply (Hown i c Hc). eapply message_own, Hs, Hc.
  - by apply elem_of_nil in He.
  - exfalso. apply Hquiet. unfold conn_ends. simpl. repeat case_match; by repeat constructor.
  - apply (Hown i c Hc). unfold worker_done. destruct (cn_workers c !! k) as [[sid x]|] eqn:Ek; [|by constructor]. simpl.
    assert (cn_execution c <> None) as Hx by (eapply co_working; [by apply Hs|]; intros E; by rewrite E in Ek).
    destruct writes; [|by constructor]. apply Forall_singleton. destruct r as [[]|]; simpl; auto.
  - exfalso. apply Hquiet. unfold DisconnectBody. case_match; by repeat constructor.
  - exfalso. apply Hquiet. simpl. apply Forall_fmap, Forall_forall. done.
Qed.

(** What may be written to a connection that is not accepted: a challenge, the acceptance itself, and refusals. *)
Definition public (r : reply) : Prop :=
  match r with WChallenge | WAccept | WError _ _ | WControlError _ _ => True | WControl _ | WEvent _ => False end.

(** An acceptance among [fx] goes to a connection whose proof was accepted. *)
Definition earned (fx : list effect) : Prop :=
  forall id, Wrote id WAccept ∈ fx -> exists body, body <> "" /\ ActivateAuthentication id (Some body) ∈ fx.

Lemma earned_none fx : Forall (fun e => match e with Wrote _ WAccept => False | _ => True end) fx -> earned fx.
Proof. rewrite Forall_forall. intros H id Hin. destruct (H _ Hin). Qed.

#[local] Ltac unearned := apply earned_none; repeat case_match; simpl; by repeat constructor.

Lemma unauthenticated_earned s id c m t : earned (unauthenticated s id c m t).1.
Proof.
  unfold unauthenticated, wrote. destruct m as [|[]|[]| | | | |? [r|]|? [[corr doll]|]| |]; simpl; try unearned.
  destruct (tn_accepted t) as [b|]; [|unearned].
  assert (Hempty : b = "" -> earned (ActivateAuthentication id (Some b) :: (activateAuthenticated s id c b true (tn_activation t)).1.2)).
  { intros ->. unfold activateAuthenticated. simpl. unearned. }
  assert (Hto : forall i, Wrote i WAccept ∈ (activateAuthenticated s id c b true (tn_activation t)).1.2 -> i = id).
  { intros i. unfold activateAuthenticated. repeat case_match; simpl; set_solver. }
  destruct (activateAuthenticated s id c b true (tn_activation t)) as [[ok fx] s']. cbn [fst snd] in *.
  assert (Hall : earned (ActivateAuthentication id (Some b) :: fx)).
  { destruct (decide (b = "")) as [Hb|Hb]; [by apply Hempty|]. intros i Hi. exists b. split; [done|].
    apply elem_of_cons in Hi as [?|Hi]; [done|]. rewrite (Hto i Hi). by left. }
  by destruct ok.
Qed.

Lemma message_earned s id c m t : ws_authenticator s = true -> earned (readLoop s id c m t).1.
Proof.
  intros Ha. assert (He : forall e, earned (handleEvent s id c e t).1) by (intros e; unfold handleEvent, wrote; unearned).
  assert (Hc : forall r rec, earned (handleControl s id c r rec t).1) by (intros r rec; unfold handleControl, answer; unearned).
  assert (Hi : forall i rec, earned (handleInteraction s id c i rec t).1) by (intros i rec; unfold handleInteraction, answer; unearned).
  unfold readLoop. rewrite Ha. destruct m; destruct (true && _); try apply unauthenticated_earned; try apply He; try apply Hc; try apply Hi;
    unfold handleAdvertisement, wrote; unearned.
Qed.

Lemma step_earned s fx s' : ws_authenticator s = true -> ws_step s fx s' -> earned fx.
Proof.
  intros Ha. destruct 1 as [s i legacy a Hn|s i c m t Hc Ho|s i c Hc|s i c Hc Ho Hw|s i c k r writes Hc|s bodyID|s].
  - unfold handleWS. rewrite Ha. simpl. unearned.
  - by apply message_earned.
  - unearned.
  - unfold conn_ends. unearned.
  - unfold worker_done. unearned.
  - unfold DisconnectBody. unearned.
  - apply earned_none. simpl. apply Forall_fmap, Forall_forall. done.
Qed.

(** C29: nothing is done for a connection that has not proved who it is.  With an authenticator configured, whatever
    Bodies send and however connections come and go: every call of a session, interaction or event handler, every
    advertised capability, every execution result and every answer of a handler belongs to a connection whose proof the
    authenticator accepted and to which the acceptance was written before, and is made in the name of exactly the Body
    it was accepted as; execution requests and actions are sent to such connections only.  To any other connection only
    challenges, refusals and the acceptance are written, and the acceptance only for an accepted proof. *)
Theorem ws_only_authenticated s0 tr s :
  fresh s0 -> ws_authenticator s0 = true -> ws_run s0 tr s ->
  (forall fx s' e id b, ws_step s fx s' -> e ∈ fx -> acts e = Some (id, b) ->
     exists body, body <> "" /\ (b = None \/ b = Some body) /\ ActivateAuthentication id (Some body) ∈ tr /\ Wrote id WAccept ∈ tr) /\
  (forall body id, Execute s body = Some id -> ActivateAuthentication id (Some body) ∈ tr /\ Wrote id WAccept ∈ tr) /\
  (forall id, id ∈ action_targets s -> (exists body, ActivateAuthentication id (Some body) ∈ tr) /\ Wrote id WAccept ∈ tr) /\
  (forall fx s' id r, ws_step s fx s' -> Wrote id r ∈ fx -> public r \/ Wrote id WAccept ∈ tr) /\
  (forall fx s' id, ws_step s fx s' -> Wrote id WAccept ∈ fx ->
     exists body, body <> "" /\ ActivateAuthentication id (Some body) ∈ fx).
Proof.
  intros Hf Ha Hr. pose proof (run_ok s0 tr s Hf Hr) as Hs.
  assert (ws_authenticator s = true) as Has by (clear Hs; induction Hr; [done|]; by erewrite step_authenticator).
  assert (forall id c, ws_clients s !! id = Some c -> cn_execution c <> None ->
    cn_bodyID c <> "" /\ ActivateAuthentication id (Some (cn_bodyID c)) ∈ tr /\ Wrote id WAccept ∈ tr) as Hp.
  { intros id c Hc Hx. destruct (wo_conn _ _ Hs id c Hc) as [A1 A2 A3 _ _ _ _ _]. split; [by apply A2|by apply A3]. }
  assert (Hacts : forall fx s' e id b, ws_step s fx s' -> e ∈ fx -> acts e = Some (id, b) ->
    exists body, body <> "" /\ (b = None \/ b = Some body) /\ ActivateAuthentication id (Some body) ∈ tr /\ Wrote id WAccept ∈ tr).
  { intros fx s' e id b Hst He Hac. destruct (step_own tr s fx s' e id b Hs Hst He Hac) as (c & Hc & Hx & Hb).
    destruct (Hp id c Hc Hx) as (H1 & H2 & H3). exists (cn_bodyID c). auto. }
  split; [exact Hacts|]. split_and!.
  - intros body id. unfold Execute. destruct (ws_execution s !! body) as [i|] eqn:Ee; [|done]. destruct (wo_exec _ _ Hs _ _ Ee) as (c & Hc & <- & Hx).
    rewrite Hc, Hx. intros [= <-]. apply Hp; [done|congruence].
  - intros id [_ Ht]%list_elem_of_In%filter_In. destruct (ws_clients s !! id) as [c|] eqn:Hc; [|done]. rewrite Has in Ht. case_bool_decide as Hx; [done|].
    destruct (Hp id c Hc Hx) as (_ & H2 & H3). split; [by exists (cn_bodyID c)|done].
  - intros fx s' id r Hst Hin. destruct r; try (by left); right; by destruct (Hacts fx s' _ id None Hst Hin eq_refl) as (_ & _ & _ & _ & ?).
  - intros fx s' id Hst. by apply (step_earned s fx s').
Qed.

(** A Body has one execution session.  In every run, with or without an authenticator, the connection that execution
    requests for a Body are sent on is the only one with an open execution client for it, and there is one whenever
    such a connection exists: a newer connection, a disconnection, the end of the connection and the shutdown close it.
    And each connection has at most the configured number of workers and 128 remembered answers. *)
Theorem ws_one_session s0 tr s :
  fresh s0 -> ws_run s0 tr s ->
  (forall body id, Execute s body = Some id <-> exists c, ws_clients s !! id = Some c /\ cn_bodyID c = body /\ cn_execution c = Some false) /\
  (forall id c, ws_clients s !! id = Some c -> len (cn_workers c) <= Z.max 0 (ws_maxInteractions s) /\ (size (cn_responses c) <= 128)%nat).
Proof.
  intros Hf Hr. pose proof (run_ok s0 tr s Hf Hr) as Hs. split.
  - intros body id. unfold Execute. split.
    + destruct (ws_execution s !! body) as [i|] eqn:Ee; [|done]. destruct (wo_exec _ _ Hs _ _ Ee) as (c & Hc & Hb & Hx). rewrite Hc, Hx. intros [= <-]. eauto.
    + intros (c & Hc & <- & Hx). destruct (wo_live _ _ Hs id c Hc Hx) as [-> _]. by rewrite Hc, Hx.
  - intros id c Hc. destruct (wo_conn _ _ Hs id c Hc) as [_ _ _ _ A4 A5 A6 A7]. split; [done|].
    assert (dom (cn_responses c) = list_to_set (cn_responseIDs c)) as E by (apply set_eq; intros i; by rewrite elem_of_dom, elem_of_list_to_set).
    rewrite <- size_dom, E, size_list_to_set by done. exact A5.
Qed.

(** The answer to a request whose identifier is new is the one the handler gave. *)
Lemma control_new s id c r recovered t :
  cn_bodyID c <> "" -> ws_control s = true -> req_ID r <> "" -> cn_responses c !! req_ID r = None -> tn_writes t = true ->
  handleControl s id c (Some r) recovered t =
    ([CallControl id (cn_bodyID c) (cn_selected c) r; Wrote id (WControl (tn_control t).1)],
     put_client s id (set_session c (tn_control t).2 (remember c r (tn_control t).1).1 (remember c r (tn_control t).1).2)).
Proof.
  intros Hb%empty_str_false Hh Hr%empty_str_false Hn Hw. unfold handleControl. rewrite Hb, Hh, Hr, Hn. cbn [negb].
  destruct (tn_control t) as [response selected]. simpl. destruct (remember c r response). by rewrite Hw.
Qed.

(** A remembered request is answered from the cache. *)
Lemma control_cached s id c r recovered t response :
  cn_bodyID c <> "" -> ws_control s = true -> req_ID r <> "" -> cn_responses c !! req_ID r = Some (r, response) -> tn_writes t = true ->
  handleControl s id c (Some r) recovered t = ([Wrote id (WControl response)], s).
Proof.
  intros Hb%empty_str_false Hh Hr%empty_str_false Hn Hw. unfold handleControl. rewrite Hb, Hh, Hr, Hn. cbn [negb].
  rewrite bool_decide_true by done. unfold answer. by rewrite Hw.
Qed.

Lemma remembered tr s id c r response :
  conn_ok tr s id c -> req_ID r <> "" -> cn_responses c !! req_ID r = None -> (remember c r response).1 !! req_ID r = Some (r, response).
Proof.
  intros [_ _ _ _ _ A5 _ A7] Hr%empty_str_false Hn. unfold remember. rewrite Hr.
  assert (req_ID r ∉ cn_responseIDs c) as Hnew by (rewrite <- A7, Hn; by intros [? ?]).
  destruct (Nat.ltb_spec sessionResponseCacheSize (length (cn_responseIDs c ++ [req_ID r]))) as [Hl|]; [|simpl; by rewrite lookup_insert_eq].
  rewrite length_app in Hl. simpl in Hl. destruct (cn_responseIDs c) as [|old rest] eqn:El; [unfold sessionResponseCacheSize in Hl; simpl in Hl; lia|].
  simpl. rewrite lookup_delete_ne by (intros E; apply Hnew; rewrite E; by left). by rewrite lookup_insert_eq.
Qed.

(** A repeated session-control request is not handled again.  In every run, after a request with a new identifier was
    answered, the same request gets the same answer, and the handler is not called. *)
Theorem control_answered_once s0 tr s id c r recovered t :
  fresh s0 -> ws_run s0 tr s -> ws_clients s !! id = Some c -> cn_bodyID c <> "" -> ws_control s = true -> req_ID r <> "" ->
  cn_responses c !! req_ID r = None -> tn_writes t = true ->
  exists c', ws_clients (handleControl s id c (Some r) recovered t).2 !! id = Some c' /\
    forall t', tn_writes t' = true ->
      handleControl (handleControl s id c (Some r) recovered t).2 id c' (Some r) recovered t' =
        ([Wrote id (WControl (tn_control t).1)], (handleControl s id c (Some r) recovered t).2).
Proof.
  intros Hf Hrun Hc Hb Hh Hr Hn Hw. pose proof (wo_conn _ _ (run_ok s0 tr s Hf Hrun) id c Hc) as Hok.
  rewrite (control_new s id c r recovered t) by done. cbn [fst snd]. eexists. split; [simpl; by rewrite lookup_insert_eq|]. intros t' Hw'.
  erewrite control_cached; try done. simpl. by eapply remembered.
Qed.

(** When lifting the read deadline of an accepted connection fails, its session is reported as disconnected twice. *)
Theorem disconnected_twice s id c bodyID a :
  ws_lifecycle s = true -> bodyID <> "" -> ac_connected a = true -> ac_written a = true -> ac_deadline a = false ->
  let '(ok, fx, s') := activateAuthenticated s id c bodyID true a in
  ok = false /\ SessionDisconnected id bodyID ∈ fx /\
  exists c', ws_clients s' !! id = Some c' /\ SessionDisconnected id bodyID ∈ (conn_ends s' id c').1.
Proof.
  intros Hl Hb Hc Hw Hd. unfold activateAuthenticated. rewrite Hl, Hc, (proj2 (empty_str_false _) Hb), Hw, Hd. cbn [andb negb].
  split; [done|]. split; [simpl; repeat (first [by left|right])|]. eexists. split; [simpl; by rewrite lookup_insert_eq|].
  unfold conn_ends. simpl. rewrite Hl. apply elem_of_app. right. right. by left.
Qed.
End endpoint.

(** ** Instances *)

(** Requests and events as their identifiers. *)
Definition demo_server : Server (Request := string) (Response := string) (Event := string) :=
  {| ws_authenticator := true; ws_lifecycle := true; ws_handler := true; ws_control := true; ws_interaction := true; ws_maxInteractions := 16;
     ws_conns := ∅; ws_execution := ∅; ws_clients := ∅ |}.

Definition demo_activation : activation := {| ac_connected := true; ac_written := true; ac_deadline := true |}.

(** A message during which everything goes well, and the proof of the Body [b1] is accepted. *)
Definition demo_turn : turn (Response := string) (Event := string) :=
  {| tn_challenged := true; tn_accepted := Some "b1"; tn_activation := demo_activation; tn_writes := true; tn_control := ("ok", "s1");
     tn_event := Some "answer"; tn_as_event := None |}.

Definition demo_message : string -> message (Request := string) (Event := string) (Result := string) (Capability := string) ->
  clientConn -> Server -> list effect * Server :=
  fun id m c s => readLoop (fun r => r) (fun e => e) (fun _ => "doll") (fun _ => "") (fun e _ => e) s id c m demo_turn.

Definition demo_run := ws_run (Result := string) (Capability := string) (fun r : string => r) (fun e : string => e) (fun _ => "doll") (fun _ => "") (fun e _ => e) demo_server.

(** One connection is accepted, and proves that it is [b1]. *)
Definition demo_conn : clientConn (Request := string) (Response := string) (Event := string) := set_identity new_conn "b1" false.
Definition demo_live : Server (Request := string) (Response := string) (Event := string) :=
  with_tables demo_server {["c"]} {["b1" := "c"]} {["c" := demo_conn]}.
Definition demo_trace : list (effect (Request := string) (Response := string) (Event := string) (Result := string) (Capability := string)) :=
  [ActivateAuthentication "c" (Some "b1"); SessionConnected "c" "b1"; Wrote "c" WAccept].

Lemma demo_reaches : demo_run demo_trace demo_live.
Proof.
  assert (demo_run ([] ++ []) (handleWS (Result := string) (Capability := string) demo_server "c" None demo_activation).2) as H1.
  { eapply run_step; [apply run_start|]. by apply (wt_accept _ _ _ _ _ demo_server "c" None demo_activation). }
  pose proof (run_step _ _ _ _ _ _ _ _ _ _ H1
    (wt_message _ _ _ _ _ (handleWS (Result := string) (Capability := string) demo_server "c" None demo_activation).2 "c" new_conn (AuthProof true) demo_turn eq_refl eq_refl)) as H2.
  exact H2.
Defined.

Lemma ws_only_authenticated_witness :
  (forall body id, Execute demo_live body = Some id -> ActivateAuthentication id (Some body) ∈ demo_trace /\ Wrote id WAccept ∈ demo_trace) /\
  (demo_message "c" (Plain (Some "hello")) demo_conn demo_live).1 = [CallEvent "c" "b1" "" "hello"; Wrote "c" (WEvent "answer")] /\
  exists body, body <> "" /\ (Some "b1" = None \/ Some "b1" = Some body) /\ ActivateAuthentication "c" (Some body) ∈ demo_trace /\ Wrote "c" WAccept ∈ demo_trace.
Proof.
  destruct (ws_only_authenticated _ _ _ _ _ demo_server demo_trace demo_live (conj eq_refl (conj eq_refl eq_refl)) eq_refl demo_reaches) as (H1 & H2 & _).
  split; [exact H2|]. split; [reflexivity|].
  apply (H1 _ _ (CallEvent "c" "b1" "" "hello") "c" (Some "b1") (wt_message _ _ _ _ _ demo_live "c" demo_conn (Plain (Some "hello")) demo_turn eq_refl eq_refl)); [|reflexivity].
  left.
Defined.

Lemma control_answered_once_witness :
  exists c', ws_clients (handleControl (Result := string) (Capability := string) (fun r => r) demo_live "c" demo_conn (Some "r1") None demo_turn).2 !! "c" = Some c'.
Proof.
  destruct (control_answered_once _ _ _ _ _ demo_server demo_trace demo_live "c" demo_conn "r1" None demo_turn
    (conj eq_refl (conj eq_refl eq_refl)) demo_reaches eq_refl ltac:(discriminate) eq_refl ltac:(discriminate) eq_refl eq_refl) as (c' & H & _).
  by exists c'.
Defined.

Lemma ws_one_session_witness : Execute demo_live "b1" = Some "c" /\ forall id, Execute demo_live "b1" = Some id -> id = "c".
Proof.
  destruct (ws_one_session _ _ _ _ _ demo_server demo_trace demo_live (conj eq_refl (conj eq_refl eq_refl)) demo_reaches) as [H _]. split.
  - apply H. exists demo_conn. split_and!; reflexivity.
  - intros id (c & Hc & _)%H. unfold demo_live in Hc. simpl in Hc. apply lookup_singleton_Some in Hc. by destruct Hc.
Defined.

Lemma disconnected_twice_witness :
  let '(ok, fx, s') := activateAuthenticated (Result := string) (Capability := string) demo_server "c" new_conn "b1" true {| ac_connected := true; ac_written := true; ac_deadline := false |} in
  ok = false /\ SessionDisconnected "c" "b1" ∈ fx /\ exists c', ws_clients s' !! "c" = Some c' /\ SessionDisconnected "c" "b1" ∈ (conn_ends (Result := string) (Capability := string) s' "c" c').1.
Proof. apply (disconnected_twice demo_server "c" new_conn "b1" {| ac_connected := true; ac_written := true; ac_deadline := false |}); first [reflexivity|discriminate]. Defined.
